(* ===== verification/_CoqProject ===== *)
-Q . S2P
Prelude.v
TimerQueue.v
TimeHeap.v
Timer.v
EventLoop.v
ShmcbCyclic.v
Shmcb.v
ShmcbSegment.v
P2pWire.v
Benc.v
Alloc.v
Dict.v
BQueue.v
HashTable.v
Reslist.v
FdQueue.v
Iobuf.v
Htbl.v
Scoreboard.v
Mpm.v
Reclaim.v
Md5.v
Utf8.v
Ini.v
Bitfield.v
BtPeer.v
BtInterest.v
BtNet.v
BtInv.v
BtAssign.v
BtChoice.v
BtStart.v
BtRelease.v
BtHave.v
BtChoke.v
BtBlock.v
BtDownload.v
BtUpload.v
BtSlots.v
BtStream.v
BtWire.v
BtMessages.v
BtDaemon.v
PeerList.v
Supernode.v
Edge.v
Punch.v
Alarm.v
BencGet.v
Metainfo.v
Url.v
Trackers.v
Torrents.v
TrReply.v
