(* ===== verification/Prelude.v ===== *)
(** * A verification development for zevent

    zevent is an event-driven server framework in C with a family of programs
    around it: a shared-memory session cache, a NAT-punching protocol, a
    BitTorrent daemon, and the containers, pools and queues they share.  This
    library models the parts with logic of their own as executable functions
    and step relations and proves what makes them correct.

    ** Parts and files

    The server ([src/]): a listener thread accepts connections and hands those
    that become readable to worker threads.
    - [FdQueue]: [src/fdqueue.c] and, from [src/zevent.c], the worker loop
      ([worker_thread]) and the listener's side ([get_worker], [push2worker]).
      Module [Queue] is [fd_queue_t] with its condition variable, [Info] the
      count of idle workers, [Server] the step relation of one listener and any
      number of workers over both, [Pools] the lock-free stack of recycled
      pools with its shared memory, one step per memory access.
    - [Scoreboard]: [src/scoreboard.c], the table of the children and of their
      threads; [Mpm]: from [src/zevent.c] and [src/zevent_mpm.c], forking,
      start-up, idle maintenance and the main loop over the table; [Reclaim]:
      the children's end at shutdown, and the pipe of death of [src/pod.c].
    - [Dict]: [src/dictionary.c], the string dictionary behind the
      configuration reader, with the results of its allocations as arguments;
      [Ini]: [src/iniparser.c], the reader, its accessors and its writer.
    - [Alarm]: [src/zevent_alarm.c], the alarms of a child over the one timer of
      the process, with the signal as a step.

    The session cache ([apps/zcache/src/]): a segment of shared memory divided
    by a hash of the key; each division has a cyclic array of index entries and
    a cyclic block of data.
    - [ShmcbCyclic]: cyclic arithmetic, the cyclic copies, the key hash.
    - [Shmcb]: expiry, scrolling, insertion, lookup, removal in a division.
    - [ShmcbSegment]: the layout of the segment, its initialisation, and store,
      retrieve and remove over the divisions.

    Shared infrastructure ([common/]):
    - [Alloc]: [common/memory/allocator.c], the buckets of memory nodes.
    - [HashTable]: [common/misc/hash.c], the chained table with its iterator.
    - [BQueue]: [common/misc/queue.c], the bounded blocking queue.
    - [Reslist]: [common/misc/reslist.c], the pool of expiring resources.

    The BitTorrent library ([libbt/]) and the punching protocol ([upunch/]):
    - [TimerQueue]: the class that states what the timers ask of their heap;
      [TimeHeap]: [libbt/evloop/timeheap.c], an instance of it; [Timer]:
      [libbt/evloop/timer.c], proved against the class; [EventLoop]: the two
      put together at a concrete state.
    - [Benc], [BencGet]: [libbt/misc/benc.c], the bencode validator and accessors;
      [Metainfo]: [libbt/misc/metainfo.c], torrent files read through them.
    - [Iobuf]: [libbt/misc/iobuf.c], the byte buffer, and [memfind].
    - [Htbl]: [libbt/misc/hashtable.c], the intrusive hash table.
    - [P2pWire]: [upunch/p2p_wire.c], the encoders and decoders of the messages;
      [PeerList]: the lists of peers of [punch_common.c]; [Supernode]: [sn.c], the
      handlers of the supernode and its loop; [Edge]: [p2p_punch.c], those of an
      edge; [Punch]: two edges and the supernode with the datagrams in flight and
      the address translation that lets in answers only.

    The download of a torrent ([libbt/btpd/]):
    - [Bitfield]: the bits of [libbt/misc/subr.c].
    - [BtPeer]: [peer.c], as far as it touches one peer: its queue of messages,
      its requests, interest, choking, blame; [BtInterest]: the life of a peer
      as a step relation, and what the peer is told.
    - [BtNet]: [download_subr.c], [download.c], the bookkeeping of [content.c],
      the sizes of [torrent.c] and the handlers of [peer.c] that reach other
      peers, on one state [net] with its pieces and peers.
    - The invariant of that state and its preservation, by part: [BtInv] states
      it, [BtAssign] requests blocks of a piece, [BtChoice] chooses a piece,
      [BtStart] fills the pipeline of a peer, [BtRelease] gives requests up,
      [BtHave] counts announced pieces, [BtChoke] chokes, unchokes, attaches and
      loses peers, [BtBlock] receives a block and judges a piece.
    - [BtDownload]: the events of a torrent as a state machine, and its claims.

    The rest of the BitTorrent daemon around it:
    - [BtUpload]: [upload.c], whom to upload to, with [peer_on_interest] and
      [peer_on_uninterest]; [BtSlots]: the queue of uploads as a state machine.
    - [BtStream]: from [net.c] the reader of a peer's bytes, [net_read],
      [net_state], [net_dispatch_msg], written against the class [PeerOps] of the
      handlers; [BtWire]: the reader next to a reference that takes all bytes
      at once; [BtMessages]: the messages that [net_buf.c] writes.
    - [BtDaemon]: the handlers of [BtNet] and [BtUpload] as an instance of
      [PeerOps], the daemon from the socket to its tables.
    - [Url]: [http_url_parse] of [libbt/misc/http_client.c]; [Trackers]:
      [tracker_req.c], the tiers of trackers with what they share, and the course
      of all of them; [TrReply]: from [http_tr_if.c] the reading of an answer.
    - [Torrents]: [torrent.c], the torrents from their start out of a metainfo
      file over the turns of the clock to their end, with the states of
      [content.c] and the tiers of [Trackers].

    The downloader ([minidownloader/]):
    - [Md5]: [minidownloader/md5.c], next to RFC 1321 (Module [Rfc]).
    - [Utf8]: [minidownloader/encode.c], the conversions between UTF-8 and
      UTF-16, and [http_uri_encode] of [libbt/misc/http_client.c].

    This file holds what they share: machine integers with their wrap-around,
    checked array and block accesses, the loop combinator, automation.

    ** How code is modelled

    An operation returns [option]: [None] is an access outside an array or
    block, a read of a dangling pointer or a failed assertion, so a theorem
    that a call is [Some] says that it stays in bounds.  Error codes and NULL
    results are values.  Integers are [Z] with the reductions written out where
    the code can wrap.  [malloc], clocks, callbacks, hash functions and the
    operating system's calls are arguments.  What a thread does under a mutex,
    and each atomic operation, is one function; concurrency is a step relation
    over those functions with the threads counted by the place they are at, and
    the theorems hold in every reachable state.

    Loops are [cloop] or a [Fixpoint] with fuel computed from the state (the
    number of entries, of buckets, of bytes, of the turns a counter allows);
    the theorems state that the call returns, so the fuel is enough.

    ** What the theorems show

    - Server: as long as each wake-up of the listener finds its idle worker the
      reservations keep the queue inside its array, and a run without that
      overflows it ([stale_signal_overflows]); neither listener nor workers are
      forgotten; the recycled pools are a linearizable stack; the queue is a
      bounded stack.
    - Children: with a configuration within the limits ([conf_ok]; beyond them:
      [threads_beyond_the_limit]), in every state of the main loop the table keeps
      its shape and its pids are distinct; idle maintenance forks into free slots
      at a rate that doubles; reclaiming ends with each child below the limit that
      is passed gone or killed ([reclaim_beyond_the_limit]).
    - Configuration: loading a file of clean lines gives the map they denote,
      and what the writer writes is read back.
    - Cache: division operations refine operations on the list of sessions, a
      stored session is retrieved with its bytes by a retrieve that follows, the
      divisions of a zeroed segment tile it (a segment of 192 to 335 bytes divides
      by zero: [init_divides_by_zero]).
    - Timers: the heap refines a finite map from handles to times and drains in
      order; arming, disarming and running timers, each due timer fires once.
    - Alarms: whenever the timer is set it is set exactly for the earliest alarm
      there is, and stays so while alarms are only removed; a run ends unless
      the clock outruns it and calls what is due in order; but a signal that comes
      on the microsecond stops the timer ([alarm_stalls]).
    - Hole punching: in whatever order the datagrams of the exchange arrive the two
      edges end up knowing each other, if the edge that is called has punched before
      and so has its callback.  The supernode is a registry of edges by
      address, whose heartbeat looks up the wrong port ([heartbeat_lost]); an edge
      that is called needs a callback of its own ([passive_edge_crashes]), forgets
      pending peers ([pending_lost]) and never purges them
      ([pending_never_purged]).
    - Wire format: decoding inverts encoding, decoders never leave their input;
      bencode: the validator accepts exactly the encodings, the accessors find
      what the encodings contain.
    - Download: in every state legal events lead to every handler returns with all
      modelled assertions passed, the counters and bit fields count what they stand for,
      a block is asked for once and of a peer that has it, no peer that could
      deliver is left idle, the rarest piece is chosen; a peer is told of our
      interest when it changes, and only then.  Legal ([BtDownload.legal],
      [BtInterest.guard]) leaves out two things that the code does not see to: a
      HAVE of a piece beyond the last, and a bad piece that makes a peer a suspect
      ([suspect_peer_aborts]).
    - Upload: exactly who is unchoked, the fastest and then the first in the queue
      until the slots are taken, and everyone else choked; never
      more interested peers are unchoked than there are slots, and who waits is
      brought to the front.
    - Messages: what [net_buf.c] writes, [net.c] gives to the handlers, each once
      and in order, however the bytes are cut; on any bytes at all the reader
      ends inside its buffers.  Put together with the download and the choking:
      a peer that keeps to the protocol is served to the end
      ([daemon_serves]).  What it has to keep to is what the code does not check:
      the indices of HAVE, the wrap of a request's range ([request_wraps]), the
      blame above.
    - Torrent files, of at most 16 MiB and with no run of digits that is a number of
      2^63 or more ([sane_runs]; else [long_run_accepted], [endless_diverges]): the
      test accepts exactly the texts that encode a well-formed
      torrent, and what is read from those is what they encode; their sizes are
      what the download is proved for, unless a product wraps ([product_wraps]),
      a piece has 2 GiB or the last is empty ([empty_piece]).  Accepted and yet harmful are
      tiers that are no lists ([announce_crash]), backslashes in names
      ([path_escapes]) and a file without a name ([no_name]).
    - Trackers and torrents, started from metainfo files that are proper (accepted,
      with names, and strings in all tiers): no assertion fails whatever the trackers answer, at
      most one request goes out a second, a tier that is told to stop ends even
      when no tracker can be reached, if the refusals take their second; but bad data leaves it waiting for nothing
      ([bad_answer_stalls]), a prompt refusal keeps it at its first tracker
      ([failover_never]), and a stopped torrent takes its last request with it
      ([sample_day_end]).  An answer is read for what it says as long as its
      addresses come whole ([reply_overread]).
    - MD5 is the digest of RFC 1321 however the message is cut; the text
      conversions accept exactly the well-formed texts and invert each other.
    - Containers: allocator, dictionary and hash table keep their invariants
      and refine what they implement, growth included (and what a growth that
      fails leaves of the dictionary is told array by array); the intrusive table is a
      stack per key whose iterator may delete; the byte buffer is a queue of
      bytes, with sticky errors, as long as moves do not overlap; the blocking queue and
      the resource pool lose no wake-up and conserve what passes through them.
    - The [Example]s without a claim number show the behaviours of the code at
      the edge of those theorems: lost wake-ups after a failed constructor,
      limits that wrap, allocation failures that leave a structure broken.

    ** Not modelled

    Sockets, files, processes, signals and the calls into APR, OpenSSL, libxml,
    databases and Win32 are outside; so are the copies of the same sources
    elsewhere in the tree and the programs in other languages.  The management
    sockets of edge and supernode report and stop.  Of the download, end game is
    left out, since the call that enters it is commented out, and the sources over
    HTTP, whose requests are answered out of turn; reading and writing the disk
    succeeds and the clocks do not end a peer.  The limits on bandwidth, which
    delay reads and writes, are left out as well.  Within the parts that are
    modelled these steps are left out: of [cm_put_bytes] the loop that fills the
    files ahead ([pos_field]) with its assertion; of [peer.c] the table and the
    reference counts of the meta peers with the assertions of [mp_drop]; of the
    server the wake-up of all workers at shutdown ([zevent_queue_info_term]); of
    the resource pool a waiter that times out and takes a signal at once; of the
    supernode errors of [recvfrom], the bytes of a registration that a short
    datagram does not set (taken as zeros) and the turns of the management socket.
    One [recv] brings at most [GRBUFLEN] bytes to a peer; [strtoul] reads 64 bits,
    as on systems with such a [long]; the capacity of the timer heap and the
    length that [iobuf_print] is told do not overflow an [int].  The library of torrents on
    disk ([tlib.c], [active.c]), the command interface ([cli_if.c]) and the
    requests of [http_client.c] are files and sockets with little between them. *)
From stdpp Require Export base tactics list numbers option gmap sorting.
From Stdlib Require Export Lia ZArith ZifyNat.

#[global] Arguments Nat.mul : simpl never.
#[global] Arguments Nat.div : simpl never.
#[global] Arguments Nat.modulo : simpl never.

(** * Machine integers

    A C integer of width [w] is a [Z]; the wrap-around of unsigned arithmetic
    is written out with these reductions. *)

Definition wrap (w x : Z) : Z := (x mod 2 ^ w)%Z.
Abbreviation u8 := (wrap 8).
Abbreviation u16 := (wrap 16).
Abbreviation u32 := (wrap 32).
Abbreviation u64 := (wrap 64).

(** Conversion to a signed two's complement integer of width [w]. *)
Definition swrap (w x : Z) : Z :=
  let y := wrap w x in if (y <? 2 ^ (w - 1))%Z then y else (y - 2 ^ w)%Z.
Abbreviation s32 := (swrap 32).

Lemma wrap_small w x : (0 <= x < 2 ^ w)%Z -> wrap w x = x.
Proof. apply Z.mod_small. Qed.

Lemma wrap_range w x : (0 <= w)%Z -> (0 <= wrap w x < 2 ^ w)%Z.
Proof. intros ?. apply Z.mod_pos_bound. lia. Qed.

Lemma wrap_wrap w x : (0 <= w)%Z -> wrap w (wrap w x) = wrap w x.
Proof. intros ?. apply wrap_small, wrap_range. done. Qed.

Lemma swrap_small w x :
  (0 < w)%Z -> (- 2 ^ (w - 1) <= x < 2 ^ (w - 1))%Z -> swrap w x = x.
Proof.
  intros Hw Hx. unfold swrap, wrap.
  assert (2 ^ w = 2 * 2 ^ (w - 1))%Z as Hp.
  { rewrite <- Z.pow_succ_r by lia. f_equal. lia. }
  destruct (decide (0 <= x)%Z).
  - rewrite Z.mod_small by lia. case_match; lia.
  - rewrite <- (Z.mod_add x 1) by lia. rewrite Z.mod_small by lia. case_match; lia.
Qed.

(** Joining bit fields. *)
Lemma lor_shift a b k : (0 <= k)%Z -> (0 <= b < 2 ^ k)%Z -> Z.lor (Z.shiftl a k) b = (a * 2 ^ k + b)%Z.
Proof.
  intros Hk Hb. rewrite <- Z.shiftl_mul_pow2 by done.
  assert (Z.land (Z.shiftl a k) b = 0)%Z as Hd.
  { apply Z.bits_inj'. intros n Hn. rewrite Z.land_spec, Z.bits_0.
    destruct (decide (n < k)%Z).
    - by rewrite Z.shiftl_spec_low by lia.
    - rewrite <- (Z.mod_small b (2 ^ k)), Z.mod_pow2_bits_high by lia. apply andb_false_r. }
  rewrite <- Z.lxor_lor by done. by rewrite Z.add_nocarry_lxor.
Qed.

(** * Partial operations

    A definition that models code which may be undefined (an access outside a
    block, an assertion, a loop whose fuel runs out) returns [option]; [None]
    is the undefined outcome, so a theorem of the form [f s = Some r] also says
    that the run stays inside its blocks and ends. *)

Declare Scope cmem_scope.
Delimit Scope cmem_scope with cmem.

Definition ensure (b : bool) : option unit := if b then Some () else None.

(** Reading and writing a cell of an array. *)
Definition aread {A} (a : list A) (i : nat) : option A := a !! i.
Definition awrite {A} (a : list A) (i : nat) (x : A) : option (list A) :=
  if bool_decide (i < length a) then Some (<[i:=x]> a) else None.

Notation "a .[ i ]" := (aread a i) (at level 1, i at level 200, format "a .[ i ]") : cmem_scope.

(** [memcpy] out of and into a block. *)
Definition mread {A} (a : list A) (off n : nat) : option (list A) :=
  if bool_decide (off + n <= length a) then Some (take n (drop off a)) else None.
Definition mwrite {A} (a : list A) (off : nat) (bs : list A) : option (list A) :=
  if bool_decide (off + length bs <= length a)
  then Some (take off a ++ bs ++ drop (off + length bs) a) else None.

Lemma ensure_true b : b = true -> ensure b = Some ().
Proof. intros ->. done. Qed.

Lemma awrite_ok {A} (a : list A) i x : i < length a -> awrite a i x = Some (<[i:=x]> a).
Proof. intros. unfold awrite. by rewrite bool_decide_true. Qed.

Lemma awrite_Some {A} (a a' : list A) i x :
  awrite a i x = Some a' -> a' = <[i:=x]> a /\ i < length a.
Proof. unfold awrite. case_bool_decide; naive_solver. Qed.

Lemma mread_ok {A} (a : list A) off n :
  off + n <= length a -> mread a off n = Some (take n (drop off a)).
Proof. intros. unfold mread. by rewrite bool_decide_true. Qed.

Lemma mwrite_ok {A} (a : list A) off bs :
  off + length bs <= length a ->
  mwrite a off bs = Some (take off a ++ bs ++ drop (off + length bs) a).
Proof. intros. unfold mwrite. by rewrite bool_decide_true. Qed.

Lemma length_mwrite {A} (a a' : list A) off bs :
  mwrite a off bs = Some a' -> length a' = length a.
Proof.
  unfold mwrite. case_bool_decide; [|done]. intros [= <-].
  rewrite !length_app, length_take, length_drop. lia.
Qed.

Lemma mwrite_lookup {A} (a a' : list A) off bs i :
  mwrite a off bs = Some a' ->
  a' !! i = if decide (off <= i < off + length bs) then bs !! (i - off) else a !! i.
Proof.
  unfold mwrite. case_bool_decide; [|done]. intros [= <-].
  destruct (decide (i < off)).
  - rewrite lookup_app_l by (rewrite length_take; lia). rewrite lookup_take_lt by lia.
    rewrite decide_False by lia. done.
  - rewrite lookup_app_r by (rewrite length_take; lia). rewrite length_take, Nat.min_l by lia.
    case_decide.
    + by rewrite lookup_app_l by lia.
    + rewrite lookup_app_r by lia. rewrite lookup_drop. f_equal. lia.
Qed.

(** * Loops

    [cloop fuel body s] runs a C loop: [body] returns [inl s'] to go round
    again, [inr r] to leave the loop, [None] when it is undefined. *)

Fixpoint cloop {S R} (fuel : nat) (body : S -> option (S + R)) (s : S) : option R :=
  match fuel with
  | 0 => None
  | Datatypes.S fuel =>
      match body s with
      | Some (inl s') => cloop fuel body s'
      | Some (inr r) => Some r
      | None => None
      end
  end.

(** What one turn of a loop establishes: the invariant and a smaller measure,
    or the postcondition. *)
Definition turn {S R} (I : S -> Prop) (m : S -> nat) (Q : R -> Prop)
    (s : S) (o : option (S + R)) : Prop :=
  match o with
  | Some (inl s') => I s' /\ m s' < m s
  | Some (inr r) => Q r
  | None => False
  end.

(** The total-correctness rule: every loop of the development is proved with it. *)
Lemma cloop_total {S R} (I : S -> Prop) (m : S -> nat) (Q : R -> Prop)
    (body : S -> option (S + R)) :
  (forall s, I s -> turn I m Q s (body s)) ->
  forall fuel s, I s -> m s < fuel -> exists r, cloop fuel body s = Some r /\ Q r.
Proof.
  intros Hb fuel. induction fuel as [|fuel IH]; intros s Hs Hm; [lia|].
  specialize (Hb s Hs). simpl. unfold turn in Hb.
  destruct (body s) as [[s'|r]|]; [|eauto|done].
  destruct Hb as [Hs' Hlt]. apply IH; [done|lia].
Qed.

(** Partial correctness: an invariant holds of whatever a run returns. *)
Lemma cloop_inv {S R} (I : S -> Prop) (Q : R -> Prop) (body : S -> option (S + R)) :
  (forall s s', I s -> body s = Some (inl s') -> I s') ->
  (forall s r, I s -> body s = Some (inr r) -> Q r) ->
  forall fuel s r, I s -> cloop fuel body s = Some r -> Q r.
Proof.
  intros H1 H2 fuel. induction fuel as [|fuel IH]; simpl; [done|].
  intros s r Hs. destruct (body s) as [[s'|r']|] eqn:E; intros; simplify_eq; eauto.
Qed.

(** More fuel does not change a result. *)
Lemma cloop_mono {S R} (body : S -> option (S + R)) fuel fuel' s r :
  cloop fuel body s = Some r -> fuel <= fuel' -> cloop fuel' body s = Some r.
Proof.
  revert fuel' s. induction fuel as [|fuel IH]; [done|].
  intros [|fuel'] s Hr Hle; [lia|]. simpl in *.
  destruct (body s) as [[s'|r']|]; [|done|done]. apply IH; [done|lia].
Qed.

(** [cfor n i body s] is [for (; i < i0 + n; i++) body], where [body] goes on with
    [inl] and breaks with [inr]. *)
Fixpoint cfor {S} (n i : nat) (body : nat -> S -> option (S + S)) (s : S) : option S :=
  match n with
  | 0 => Some s
  | Datatypes.S n =>
      match body i s with
      | Some (inl s') => cfor n (Datatypes.S i) body s'
      | Some (inr s') => Some s'
      | None => None
      end
  end.

Lemma cfor_total {S} (I : nat -> S -> Prop) (Q : S -> Prop) body n i s :
  (forall j s, i <= j < i + n -> I j s ->
    match body j s with Some (inl s') => I (Datatypes.S j) s' | Some (inr s') => Q s' | None => False end) ->
  (forall s, I (i + n) s -> Q s) -> I i s -> exists r, cfor n i body s = Some r /\ Q r.
Proof.
  revert i s. induction n as [|n IH]; intros i s Hb HQ HI; simpl.
  - rewrite Nat.add_0_r in HQ. eauto.
  - specialize (Hb i s ltac:(lia) HI) as H. destruct (body i s) as [[s'|s']|]; [|eauto|done].
    apply IH; [|by rewrite Nat.add_succ_comm|done].
    intros j s0 Hj. apply Hb. lia.
Qed.

Lemma cfor_ext {S} (body body' : nat -> S -> option (S + S)) n : forall i s,
  (forall j s, i <= j -> body j s = body' j s) -> cfor n i body s = cfor n i body' s.
Proof.
  induction n as [|n IH]; intros i s Hb; [done|]. cbn [cfor]. rewrite Hb by lia.
  destruct (body' i s) as [[s'|s']|]; [|done|done]. apply IH. intros j s0 Hj. apply Hb. lia.
Qed.

(** * Lists *)

(** Overwriting one cell, as multisets. *)
Lemma insert_Permutation {A} (l : list A) i x y :
  l !! i = Some x -> x :: <[i:=y]> l ≡ₚ y :: l.
Proof.
  revert i. induction l as [|z l IH]; intros [|i] Hi; simplify_eq/=; [constructor|].
  rewrite Permutation_swap, IH by done. apply Permutation_swap.
Qed.

(** Exchanging two cells permutes the list. *)
Lemma swap_Permutation {A} (l : list A) i j x y :
  l !! i = Some x -> l !! j = Some y -> <[j:=x]> (<[i:=y]> l) ≡ₚ l.
Proof.
  intros Hi Hj. apply (Permutation_cons_inv (a := y)).
  rewrite insert_Permutation; [by apply insert_Permutation|].
  destruct (decide (i = j)) as [<-|].
  - apply list_lookup_insert_eq. by eapply lookup_lt_Some.
  - by rewrite list_lookup_insert_ne.
Qed.

(** Replacing one list of a list of lists. *)
Lemma concat_slot {A} (fr : list (list A)) i l :
  fr !! i = Some l ->
  exists rest, concat fr ≡ₚ l ++ rest /\ forall l', concat (<[i := l']> fr) ≡ₚ l' ++ rest.
Proof.
  revert i. induction fr as [|x fr IH]; intros [|i] Hi; simplify_eq/=.
  - exists (concat fr). done.
  - destruct (IH i Hi) as (rest & H1 & H2). exists (x ++ rest). split.
    + rewrite H1, !app_assoc. apply Permutation_app_tail, Permutation_app_comm.
    + intros l'. rewrite (H2 l'), !app_assoc. apply Permutation_app_tail, Permutation_app_comm.
Qed.

(** * Automation *)

Create HintDb cmem discriminated.
Create Rewrite HintDb len.
#[export] Hint Resolve awrite_ok mread_ok mwrite_ok ensure_true : cmem.
#[export] Hint Rewrite @length_insert @length_app @length_take @length_drop
  @length_replicate @length_fmap : len.

(** Normalises list lengths everywhere and closes by [lia]. *)
Ltac len := autorewrite with len in *; simpl in *; try lia.

(** Case analysis of an [option] bind in a hypothesis. *)
Ltac inv_bind H :=
  let x := fresh "x" in let E := fresh "E" in
  apply bind_Some in H; destruct H as (x & E & H).
