(* ===== verification/TimerQueue.v ===== *)
(** The contract between the timers ([libbt/evloop/timer.c]) and the timer heap
    ([libbt/evloop/timeheap.c]): the shared data of [timeheap.h], the order on
    times, and the class [TimerQueue] of what the heap promises. *)
From S2P Require Import Prelude.

(** ** Data *)

Record timespec := TS { tv_sec : Z; tv_nsec : Z }.
Record th_handle := Handle { th_i : Z; th_data : nat }.

Definition cmptime_lt (a b : timespec) : bool :=
  if (tv_sec a =? tv_sec b)%Z then (tv_nsec a <? tv_nsec b)%Z
  else (tv_sec a <? tv_sec b)%Z.

(** ** Order on times *)

Definition tle (a b : timespec) : Prop :=
  (tv_sec a < tv_sec b \/ tv_sec a = tv_sec b /\ tv_nsec a <= tv_nsec b)%Z.

Ltac tsolve := unfold tle in *; repeat case_match; lia.

Lemma cmptime_lt_spec a b : cmptime_lt a b = true <-> ~ tle b a.
Proof. unfold cmptime_lt. tsolve. Qed.

Lemma cmptime_lt_false a b : cmptime_lt a b = false <-> tle b a.
Proof. unfold cmptime_lt. tsolve. Qed.

#[export] Instance tle_preorder : PreOrder tle.
Proof. split; [intros a|intros a b c ??]; tsolve. Qed.

Lemma tle_total a b : tle a b \/ tle b a.
Proof. tsolve. Qed.

(** ** The interface

    [tq_live q] is the multiset of armed (deadline, handle) pairs; [tq_handle]
    reads a handle, [tq_store] is the owner's write to a handle that is not
    armed.  [None] is an undefined run. *)

Class TimerQueue (Q : Type) := {
  tq_inv : Q -> Prop;
  tq_live : Q -> list (timespec * nat);
  tq_handle : Q -> nat -> option th_handle;
  tq_store : Q -> nat -> th_handle -> Q;
  tq_size : Q -> nat;
  tq_insert : Q -> nat -> timespec -> option (Z * Q);
  tq_remove : Q -> nat -> option Q;
  tq_change : Q -> nat -> timespec -> option Q;
  tq_top : Q -> option timespec;
  tq_remove_top : Q -> option (nat * Q)
}.

Definition armed `{TimerQueue Q} (q : Q) (h : nat) : Prop := h ∈ (tq_live q).*2.

(** An operation may move the indices of armed handles, nothing else. *)
Definition tq_frame `{TimerQueue Q} (hs : list nat) (q q' : Q) : Prop :=
  (forall h, th_data <$> tq_handle q' h = th_data <$> tq_handle q h) /\
  (forall h, h ∉ hs -> tq_handle q' h = tq_handle q h).

Class TimerQueueLaws (Q : Type) `{TimerQueue Q} : Prop := {
  tq_nodup q : tq_inv q -> NoDup (tq_live q).*2;
  tq_armed_handle q h : tq_inv q -> armed q h ->
    exists hd, tq_handle q h = Some hd /\ (0 <= th_i hd)%Z;
  tq_size_ok q : tq_inv q -> tq_size q = length (tq_live q);
  tq_store_ok q h hd : tq_inv q -> ~ armed q h ->
    tq_inv (tq_store q h hd) /\ tq_live (tq_store q h hd) = tq_live q /\
    forall h', tq_handle (tq_store q h hd) h' = if decide (h = h') then Some hd else tq_handle q h';
  tq_insert_ok q h t hd : tq_inv q -> tq_handle q h = Some hd -> ~ armed q h ->
    tq_insert q h t = Some ((-1)%Z, q) \/
    exists q', tq_insert q h t = Some (0%Z, q') /\ tq_inv q' /\
      tq_live q' ≡ₚ (t, h) :: tq_live q /\ tq_frame (h :: (tq_live q).*2) q q';
  tq_change_ok q h t : tq_inv q -> armed q h ->
    exists q' t0 rest, tq_change q h t = Some q' /\ tq_inv q' /\
      tq_live q ≡ₚ (t0, h) :: rest /\ tq_live q' ≡ₚ (t, h) :: rest /\
      tq_frame (tq_live q).*2 q q';
  tq_remove_ok q h : tq_inv q -> armed q h ->
    exists q' t0, tq_remove q h = Some q' /\ tq_inv q' /\
      tq_live q ≡ₚ (t0, h) :: tq_live q' /\ tq_frame (tq_live q).*2 q q';
  tq_remove_top_ok q : tq_inv q -> tq_live q <> [] ->
    exists q' t h hd, tq_top q = Some t /\ tq_handle q h = Some hd /\
      tq_remove_top q = Some (th_data hd, q') /\ tq_inv q' /\
      tq_live q ≡ₚ (t, h) :: tq_live q' /\
      (forall e, e ∈ tq_live q -> tle t e.1) /\ tq_frame (tq_live q).*2 q q'
}.
