(* ===== verification/TimeHeap.v ===== *)
(** The timer heap of the BitTorrent daemon: [libbt/evloop/timeheap.c].

    An array-based binary heap of (time, handle) entries; each handle stores its
    entry's index ([th_handle.i]) so that a timer can be moved or removed.
    Handles live outside the array: the model keeps them in a store keyed by
    address.  A result [None] is an access outside the array, a dangling handle
    or a failed [assert]. *)
From S2P Require Import Prelude TimerQueue.

(** ** Data *)

Record th_entry := Entry { e_t : timespec; e_h : nat }.

(** The static variables [heap], [heap_cap], [heap_use] and the handles. *)
Record theap := THeap {
  heap : list th_entry;
  heap_cap : nat;
  heap_use : nat;
  handles : gmap nat th_handle
}.

Definition set_heap (st : theap) (a : list th_entry) : theap :=
  THeap a (heap_cap st) (heap_use st) (handles st).
Definition set_use (st : theap) (n : nat) : theap :=
  THeap (heap st) (heap_cap st) n (handles st).

(** [h->i = i] for the handle at address [h]. *)
Definition set_i (st : theap) (h : nat) (i : Z) : option theap :=
  hd ← handles st !! h;
  Some (THeap (heap st) (heap_cap st) (heap_use st)
          (<[h := Handle i (th_data hd)]> (handles st))).

(** [heap[i] = e; heap[i].h->i = i]. *)
Definition place (st : theap) (i : nat) (e : th_entry) : option theap :=
  a ← awrite (heap st) i e;
  set_i (set_heap st a) (e_h e) (Z.of_nat i).

(** ** Operations *)

Definition cmpentry_lt (st : theap) (a b : nat) : option bool :=
  ea ← aread (heap st) a; eb ← aread (heap st) b;
  Some (cmptime_lt (e_t ea) (e_t eb)).

Definition swap (st : theap) (i j : nat) : option theap :=
  tmp ← aread (heap st) i;
  ej ← aread (heap st) j;
  st ← place st i ej;
  place st j tmp.

Definition bubble_up_turn (s : theap * nat) : option ((theap * nat) + theap) :=
  let '(st, i) := s in
  if decide (i = 0) then Some (inr st)
  else
    let p := (i - 1) / 2 in
    lt ← cmpentry_lt st i p;
    if (lt : bool) then st ← swap st i p; Some (inl (st, p)) else Some (inr st).

Definition bubble_up (st : theap) (i : nat) : option theap :=
  cloop (S i) bubble_up_turn (st, i).

Definition bubble_down_turn (s : theap * nat) : option ((theap * nat) + theap) :=
  let '(st, i) := s in
  let li := 2 * i + 1 in
  let ri := 2 * i + 2 in
  ci ← (if decide (ri < heap_use st) then
          lt ← cmpentry_lt st li ri; Some (Some (if (lt : bool) then li else ri))
        else if decide (li < heap_use st) then Some (Some li)
        else Some None);
  match ci with
  | None => Some (inr st)
  | Some ci =>
      lt ← cmpentry_lt st ci i;
      if (lt : bool) then st ← swap st i ci; Some (inl (st, ci)) else Some (inr st)
  end.

Definition bubble_down (st : theap) (i : nat) : option theap :=
  cloop (S (heap_use st)) bubble_down_turn (st, i).

Section Alloc.
(** [malloc]/[realloc]: the contents of [n] fresh cells, or [NULL]. *)
Context (fresh : nat -> option (list th_entry)).

Definition timeheap_init (hs : gmap nat th_handle) : Z * theap :=
  match fresh 10 with
  | None => ((-1)%Z, THeap [] 10 0 hs)
  | Some a => (0%Z, THeap a 10 0 hs)
  end.

Definition timeheap_size (st : theap) : nat := heap_use st.

(** The growth step of [timeheap_insert]: [None] when [realloc] fails. *)
Definition timeheap_grow (st : theap) : option theap :=
  if decide (heap_use st = heap_cap st) then
    let ncap := heap_cap st * 2 in
    more ← fresh (ncap - heap_cap st);
    Some (THeap (heap st ++ more) ncap (heap_use st) (handles st))
  else Some st.

Definition timeheap_insert (st : theap) (h : nat) (t : timespec) : option (Z * theap) :=
  match timeheap_grow st with
  | None => Some ((-1)%Z, st)
  | Some st =>
      let use := heap_use st in
      st ← place st use (Entry t h);
      st ← bubble_up (set_use st (S use)) use;
      Some (0%Z, st)
  end.
End Alloc.

(** [timeheap_remove] only reads the field [i] of its argument: [hi] is that
    value ([timeheap_remove_top] passes a local handle with [i = 0]). *)
Definition timeheap_remove_i (st : theap) (hi : Z) : option theap :=
  ensure ((0 <=? hi) && (hi <? Z.of_nat (heap_use st)))%Z ;;
  let i := Z.to_nat hi in
  let use := heap_use st - 1 in
  let st := set_use st use in
  if decide (0 < use) then
    earlier ← cmpentry_lt st use i;
    e ← aread (heap st) use;
    st ← place st i e;
    if (earlier : bool) then bubble_up st i else bubble_down st i
  else Some st.

Definition timeheap_remove (st : theap) (h : nat) : option theap :=
  hd ← handles st !! h; timeheap_remove_i st (th_i hd).

Definition timeheap_change (st : theap) (h : nat) (t : timespec) : option theap :=
  hd ← handles st !! h;
  ensure ((0 <=? th_i hd) && (th_i hd <? Z.of_nat (heap_use st)))%Z ;;
  let i := Z.to_nat (th_i hd) in
  e ← aread (heap st) i;
  let earlier := cmptime_lt t (e_t e) in
  a ← awrite (heap st) i (Entry t (e_h e));
  let st := set_heap st a in
  if earlier then bubble_up st i else bubble_down st i.

Definition timeheap_top (st : theap) : option timespec :=
  e ← aread (heap st) 0; Some (e_t e).

Definition timeheap_remove_top (st : theap) : option (nat * theap) :=
  e ← aread (heap st) 0;
  hd ← handles st !! e_h e;
  st ← timeheap_remove_i st 0%Z;
  Some (th_data hd, st).

(** ** Invariant *)

(** The armed entries, in array order. *)
Definition live (st : theap) : list th_entry := take (heap_use st) (heap st).

(** The key at index [i]. *)
Definition key (st : theap) (i : nat) : timespec :=
  default (TS 0 0) (e_t <$> heap st !! i).

(** The handles of the armed entries know their index. *)
Definition hinv (st : theap) : Prop :=
  heap_use st <= heap_cap st /\ length (heap st) = heap_cap st /\
  forall i e, i < heap_use st -> heap st !! i = Some e ->
    exists hd, handles st !! e_h e = Some hd /\ th_i hd = Z.of_nat i.

(** Heap order towards the parent, except below or at the index [x]. *)
Definition edge (st : theap) (i : nat) : Prop := tle (key st ((i - 1) / 2)) (key st i).

Definition ordered (st : theap) : Prop := forall i, 0 < i < heap_use st -> edge st i.

Definition heap_inv (st : theap) : Prop := hinv st /\ ordered st.

(** What every operation preserves: sizes, the armed entries as a multiset, the
    data of all handles and the whole of the handles that are not armed. *)
Definition evolves (st st' : theap) : Prop :=
  heap_use st' = heap_use st /\ heap_cap st' = heap_cap st /\ live st' ≡ₚ live st /\
  (forall p, th_data <$> handles st' !! p = th_data <$> handles st !! p) /\
  (forall p, p ∉ e_h <$> live st -> handles st' !! p = handles st !! p).

#[export] Instance evolves_preorder : PreOrder evolves.
Proof.
  split; [done|]. intros a b c (?&?&Hp&Hd&Hf) (?&?&Hp'&Hd'&Hf').
  split_and!; [congruence|congruence|by rewrite Hp', Hp|intros p; by rewrite Hd', Hd|].
  intros p Hn. rewrite Hf', Hf; [done|done|]. by rewrite Hp.
Qed.

Lemma live_lookup st i e :
  i < heap_use st -> heap st !! i = Some e -> live st !! i = Some e.
Proof. intros. unfold live. by rewrite lookup_take_lt. Qed.

Lemma elem_of_live st e :
  e ∈ live st <-> exists i, i < heap_use st /\ heap st !! i = Some e.
Proof.
  unfold live. rewrite list_elem_of_lookup. setoid_rewrite lookup_take_Some.
  split; intros (i & ? & ?); eauto.
Qed.

Lemma hinv_lookup st i : hinv st -> i < heap_use st -> exists e, heap st !! i = Some e.
Proof. intros (?&?&?) ?. apply lookup_lt_is_Some. lia. Qed.

(** Two armed entries never share a handle. *)
Lemma hinv_handle_inj st i j e e' :
  hinv st -> i < heap_use st -> j < heap_use st ->
  heap st !! i = Some e -> heap st !! j = Some e' -> e_h e = e_h e' -> i = j.
Proof.
  intros (_&_&H) Hi Hj He He' Heq.
  destruct (H i e Hi He) as (hd & Hd & Hd'), (H j e' Hj He') as (hd2 & Hd2 & Hd2').
  rewrite Heq in Hd. simplify_eq. lia.
Qed.

Lemma cmpentry_lt_ok st a b :
  hinv st -> a < heap_cap st -> b < heap_cap st ->
  cmpentry_lt st a b = Some (cmptime_lt (key st a) (key st b)).
Proof.
  intros (?&Hl&_) ??. unfold cmpentry_lt, key, aread.
  destruct (lookup_lt_is_Some_2 (heap st) a) as [ea ->]; [lia|].
  destruct (lookup_lt_is_Some_2 (heap st) b) as [eb ->]; [lia|]. done.
Qed.

(** [swap] exchanges two keys and keeps the handles right. *)
Lemma swap_ok st i j :
  hinv st -> i < heap_use st -> j < heap_use st -> i <> j ->
  exists st', swap st i j = Some st' /\ hinv st' /\ evolves st st' /\
    key st' i = key st j /\ key st' j = key st i /\
    forall k, k <> i -> k <> j -> key st' k = key st k.
Proof.
  intros Hv Hi Hj Hne. destruct (hinv_lookup st i Hv Hi) as [ei Hei].
  destruct (hinv_lookup st j Hv Hj) as [ej Hej]. pose proof Hv as (Hu & Hl & Hh).
  destruct (Hh i ei Hi Hei) as (hdi & Hhi & Hii), (Hh j ej Hj Hej) as (hdj & Hhj & Hij).
  assert (e_h ei <> e_h ej) as Hdiff.
  { intros Heq. apply Hne. eapply hinv_handle_inj; eauto. }
  eexists. unfold swap, place, set_i, aread. rewrite Hei, Hej. simpl.
  rewrite awrite_ok by lia. simpl. rewrite Hhj. simpl. rewrite awrite_ok by (len; lia). simpl.
  rewrite lookup_insert_ne by done. rewrite Hhi. simpl. split; [done|].
  split_and!.
  - split_and!; simpl; [lia|by rewrite !length_insert|].
    intros k e Hk. rewrite list_lookup_insert_Some. intros [(->&<-&_)|[Hjk Hlk]].
    + rewrite lookup_insert_eq. eauto.
    + rewrite list_lookup_insert_Some in Hlk. destruct Hlk as [(->&<-&_)|[Hik Hlk]].
      * rewrite lookup_insert_ne, lookup_insert_eq by done. eauto.
      * destruct (Hh k e Hk Hlk) as (hd & ? & ?). exists hd. rewrite !lookup_insert_ne; [done| |].
        -- intros Heq. apply Hjk. eapply hinv_handle_inj; eauto.
        -- intros Heq. apply Hik. eapply hinv_handle_inj; eauto.
  - split_and!; simpl; [done|done| | |].
    + unfold live; simpl. rewrite !take_insert_lt by lia.
      apply swap_Permutation; by apply live_lookup.
    + intros p. rewrite !lookup_insert. repeat case_decide; subst; simpl; by rewrite ?Hhi, ?Hhj.
    + intros p Hp. rewrite !lookup_insert_ne; [done| |]; intros <-; apply Hp;
        apply list_elem_of_fmap_2, elem_of_live; eauto.
  - unfold key; simpl. rewrite list_lookup_insert_ne, list_lookup_insert_eq by (done || lia). by rewrite Hej.
  - unfold key; simpl. rewrite list_lookup_insert_eq by (len; lia). by rewrite Hei.
  - intros k ??. unfold key; simpl. by rewrite !list_lookup_insert_ne.
Qed.

(** ** Sifting *)

(** Heap order everywhere except towards the parent of [x]; what is below [x]
    is not smaller than what is above [x]. *)
Definition up_inv (st0 : theap) (s : theap * nat) : Prop :=
  let '(st, x) := s in
  hinv st /\ evolves st0 st /\ x < heap_use st /\
  (forall k, 0 < k < heap_use st -> k <> x -> edge st k) /\
  (forall k, 0 < k < heap_use st -> (k - 1) / 2 = x -> 0 < x ->
     tle (key st ((x - 1) / 2)) (key st k)).

(** Heap order everywhere except below [x]. *)
Definition down_inv (st0 : theap) (s : theap * nat) : Prop :=
  let '(st, x) := s in
  hinv st /\ evolves st0 st /\ x < heap_use st /\
  (forall k, 0 < k < heap_use st -> (k - 1) / 2 <> x -> edge st k) /\
  (forall k, 0 < k < heap_use st -> (k - 1) / 2 = x -> 0 < x ->
     tle (key st ((x - 1) / 2)) (key st k)).

Definition sifted (st0 st : theap) : Prop := heap_inv st /\ evolves st0 st.

Lemma bubble_up_turn_ok st0 s :
  up_inv st0 s -> turn (up_inv st0) snd (sifted st0) s (bubble_up_turn s).
Proof.
  destruct s as [st i]. intros (Hv & Hs & Hi & He & Hg). unfold bubble_up_turn.
  case_decide as Hi0; [subst i|].
  { split; [split; [done|]|done]. intros k ?. apply He; lia. }
  pose proof Hv as (Hu & _ & _). rewrite cmpentry_lt_ok by (done || lia). simpl.
  set (p := (i - 1) / 2) in *. assert (p < i) as Hp by (subst p; lia).
  destruct (cmptime_lt _ _) eqn:Hc.
  - apply cmptime_lt_spec in Hc.
    destruct (swap_ok st i p Hv ltac:(lia) ltac:(lia) ltac:(lia))
      as (st' & -> & Hv' & Hs' & Ki & Kp & Kk). simpl. split; [|done].
    assert (heap_use st' = heap_use st) as Hu' by apply Hs'.
    split_and!; [done|by etrans|lia| |]; unfold edge in *; rewrite Hu'; intros k Hk.
    + intros Hkp. specialize (He k Hk). specialize (Hg k Hk).
      destruct (decide (k = i)) as [->|]; [fold p; rewrite Ki, Kp; tsolve|].
      specialize (He ltac:(done)). rewrite (Kk k) by done.
      destruct (decide ((k - 1) / 2 = i)) as [E|]; [rewrite E, Ki; apply Hg; [done|lia]|].
      destruct (decide ((k - 1) / 2 = p)) as [E|]; [|by rewrite Kk].
      rewrite E in He |- *. rewrite Kp. tsolve.
    + intros Hkp Hp0. rewrite (Kk ((p - 1) / 2)) by lia.
      pose proof (He p ltac:(lia) ltac:(lia)) as Hpp.
      destruct (decide (k = i)) as [->|]; [by rewrite Ki|]. rewrite (Kk k) by lia.
      specialize (He k Hk ltac:(done)). rewrite Hkp in He. by etrans.
  - apply cmptime_lt_false in Hc. split; [split; [done|]|done].
    intros k ?. destruct (decide (k = i)) as [->|]; [done|]. by apply He.
Qed.

Lemma bubble_up_ok st i :
  up_inv st (st, i) -> exists st', bubble_up st i = Some st' /\ sifted st st'.
Proof.
  intros H. eapply (cloop_total (up_inv st) snd); [apply bubble_up_turn_ok|done|]. simpl; lia.
Qed.

(** The child chosen by [bubble_down] is the smaller one. *)
Lemma bubble_down_turn_ok st0 s :
  down_inv st0 s ->
  turn (down_inv st0) (fun '(st, x) => heap_use st - x) (sifted st0) s (bubble_down_turn s).
Proof.
  destruct s as [st i]. intros (Hv & Hs & Hi & He & Hg). pose proof Hv as (Hu & _ & _).
  unfold bubble_down_turn.
  assert (exists c, (if decide (2 * i + 2 < heap_use st) then
      lt ← cmpentry_lt st (2 * i + 1) (2 * i + 2);
      Some (Some (if (lt : bool) then 2 * i + 1 else 2 * i + 2))
    else if decide (2 * i + 1 < heap_use st) then Some (Some (2 * i + 1)) else Some None) = Some c
    /\ match c with
       | None => heap_use st <= 2 * i + 1
       | Some c => c < heap_use st /\ (c - 1) / 2 = i /\ 0 < c /\
          forall k, 0 < k < heap_use st -> (k - 1) / 2 = i -> tle (key st c) (key st k)
       end) as (c & -> & Hc).
  { case_decide.
    - rewrite cmpentry_lt_ok by (done || lia). simpl. eexists; split; [done|]. simpl.
      case_match eqn:E; [apply cmptime_lt_spec in E|apply cmptime_lt_false in E];
        (split_and!; [lia..|]); intros k ??;
        (assert (k = 2 * i + 1 \/ k = 2 * i + 2) as [->| ->] by lia); tsolve.
    - case_decide; (eexists; split; [done|]); simpl; [|lia].
      split_and!; [lia..|]. intros k ??. assert (k = 2 * i + 1) as -> by lia. done. }
  simpl. destruct c as [c|].
  2:{ split; [split; [done|]|done]. intros k ?. apply He; lia. }
  destruct Hc as (Hcu & Hpc & Hc0 & Hmin). rewrite cmpentry_lt_ok by (done || lia). simpl.
  destruct (cmptime_lt _ _) eqn:Hlt.
  - apply cmptime_lt_spec in Hlt.
    destruct (swap_ok st i c Hv ltac:(lia) ltac:(lia) ltac:(lia))
      as (st' & -> & Hv' & Hs' & Ki & Kc & Kk). simpl.
    assert (heap_use st' = heap_use st) as Hu' by apply Hs'. split; [|simpl; lia].
    split_and!; [done|by etrans|lia| |]; unfold edge in *; rewrite Hu'; intros k Hk.
    + intros Hkc. specialize (He k Hk). specialize (Hmin k Hk).
      destruct (decide (k = c)) as [->|]; [rewrite Hpc, Ki, Kc; tsolve|].
      destruct (decide (k = i)) as [->|].
      { rewrite Ki, (Kk ((i - 1) / 2)) by lia. apply (Hg c); lia. }
      rewrite (Kk k) by done. destruct (decide ((k - 1) / 2 = i)) as [E|].
      * rewrite E, Ki. by apply Hmin.
      * rewrite Kk by done. by apply He.
    + intros Hkc _. rewrite Hpc, Ki, (Kk k) by lia.
      specialize (He k Hk ltac:(lia)). by rewrite Hkc in He.
  - apply cmptime_lt_false in Hlt. split; [split; [done|]|done].
    intros k Hk. destruct (decide ((k - 1) / 2 = i)) as [E|]; [|by apply He].
    unfold edge. rewrite E. etrans; [done|]. by apply Hmin.
Qed.

Lemma bubble_down_ok st i :
  down_inv st (st, i) -> exists st', bubble_down st i = Some st' /\ sifted st st'.
Proof.
  intros H. eapply (cloop_total (down_inv st) (fun '(st, x) => heap_use st - x));
    [apply bubble_down_turn_ok|done|]. lia.
Qed.

(** After one key was replaced, sifting in the direction of the change restores
    the heap: the common end of [timeheap_remove] and [timeheap_change]. *)
Lemma resift st st1 i :
  ordered st -> hinv st1 -> heap_use st1 <= heap_use st -> i < heap_use st1 ->
  (forall k, k < heap_use st1 -> k <> i -> key st1 k = key st k) ->
  exists st2, (if cmptime_lt (key st1 i) (key st i) then bubble_up st1 i else bubble_down st1 i)
              = Some st2 /\ sifted st1 st2.
Proof.
  intros Ho Hv Hu Hi Hk.
  destruct (cmptime_lt _ _) eqn:Hc; [apply cmptime_lt_spec in Hc|apply cmptime_lt_false in Hc].
  - apply bubble_up_ok. split_and!; [done|done|done| |]; unfold edge; intros k Hku.
    + intros Hki. specialize (Ho k ltac:(lia)). unfold edge in Ho. rewrite (Hk k) by lia.
      destruct (decide ((k - 1) / 2 = i)) as [E|]; [rewrite E in Ho |- *; tsolve|].
      by rewrite Hk by lia.
    + intros Hki Hi0. rewrite !Hk by lia. pose proof (Ho i ltac:(lia)) as Hpi.
      specialize (Ho k ltac:(lia)). unfold edge in *. rewrite Hki in Ho. by etrans.
  - apply bubble_down_ok. split_and!; [done|done|done| |]; unfold edge; intros k Hku.
    + intros Hki. specialize (Ho k ltac:(lia)). unfold edge in Ho. rewrite (Hk ((k - 1) / 2)) by lia.
      destruct (decide (k = i)) as [->|]; [by etrans|]. by rewrite Hk by lia.
    + intros Hki Hi0. rewrite !Hk by lia. pose proof (Ho i ltac:(lia)) as Hpi.
      specialize (Ho k ltac:(lia)). unfold edge in *. rewrite Hki in Ho. by etrans.
Qed.

Lemma place_ok st i e n hd :
  hinv st -> i < heap_cap st -> n <= heap_cap st -> handles st !! e_h e = Some hd ->
  (forall k e', k < n -> k <> i -> heap st !! k = Some e' ->
     k < heap_use st /\ e_h e' <> e_h e) ->
  exists hs, place st i e = Some (THeap (<[i:=e]> (heap st)) (heap_cap st) (heap_use st) hs) /\
    hinv (THeap (<[i:=e]> (heap st)) (heap_cap st) n hs) /\
    (forall p, th_data <$> hs !! p = th_data <$> handles st !! p) /\
    (forall p, p <> e_h e -> hs !! p = handles st !! p).
Proof.
  intros (Hu & Hl & Hh) Hi Hn Hd Hne. eexists. unfold place, set_i. rewrite awrite_ok by lia.
  simpl. rewrite Hd. simpl. split; [reflexivity|].
  split; [split_and!; simpl; [done|len|]|split].
  - intros k e' Hk. rewrite list_lookup_insert_Some. intros [(->&<-&_)|[Hik Hlk]].
    + rewrite lookup_insert_eq. eauto.
    + destruct (Hne k e' Hk ltac:(done) Hlk) as [Hku Hd']. rewrite lookup_insert_ne by done.
      by apply Hh.
  - intros p. rewrite lookup_insert. case_decide; subst; simpl; by rewrite ?Hd.
  - intros p Hp. by rewrite lookup_insert_ne.
Qed.

(** The data of all handles and the handles outside [ps] are the same. *)
Definition frame (ps : list nat) (st st' : theap) : Prop :=
  (forall p, th_data <$> handles st' !! p = th_data <$> handles st !! p) /\
  (forall p, p ∉ ps -> handles st' !! p = handles st !! p).

Lemma frame_trans ps qs st1 st2 st3 :
  (forall p, p ∈ ps -> p ∈ qs) -> frame ps st1 st2 -> frame qs st2 st3 -> frame qs st1 st3.
Proof.
  intros Hs [Hd Hf] [Hd' Hf']. split; intros p; [by rewrite Hd', Hd|].
  intros Hp. rewrite Hf', Hf; [done| |done]. intros ?. apply Hp, Hs. done.
Qed.

Lemma evolves_frame st st' : evolves st st' -> frame (e_h <$> live st) st st'.
Proof. by intros (?&?&?&?&?). Qed.

(** The smallest key is at the root. *)
Lemma root_min st e : heap_inv st -> e ∈ live st -> tle (key st 0) (e_t e).
Proof.
  intros [Hv Ho] (i & Hi & He)%elem_of_live.
  assert (forall n i, i < n -> i < heap_use st -> tle (key st 0) (key st i)) as Hall.
  { induction n as [|n IH]; [lia|]. intros j Hj Hju. destruct (decide (j = 0)) as [->|]; [done|].
    etrans; [apply (IH ((j - 1) / 2)); lia|]. apply Ho. lia. }
  specialize (Hall (S i) i ltac:(lia) Hi). unfold key in Hall at 2. by rewrite He in Hall.
Qed.

(** ** The operations keep the invariant and act on the multiset of entries *)

Lemma take_S_snoc {A} (l : list A) n x : l !! n = Some x -> take (S n) l = take n l ++ [x].
Proof. apply take_S_r. Qed.

Lemma resift_frame st1 st2 ps st :
  sifted st1 st2 -> frame ps st st1 -> (forall p, p ∈ e_h <$> live st1 -> p ∈ ps) ->
  heap_inv st2 /\ live st2 ≡ₚ live st1 /\ frame ps st st2.
Proof.
  intros [Hi He] Hf Hs. split_and!; [done|apply He|].
  destruct Hf as [Hd Hf], (evolves_frame _ _ He) as [Hd' Hf']. split; intros p; [by rewrite Hd', Hd|].
  intros Hp. rewrite Hf', Hf; [done|done|]. intros Hin. by apply Hp, Hs.
Qed.

(** Growing the array changes nothing that is observed. *)
Lemma timeheap_grow_ok fresh st sg :
  (forall n a, fresh n = Some a -> length a = n) ->
  heap_inv st -> 0 < heap_cap st -> timeheap_grow fresh st = Some sg ->
  heap_inv sg /\ heap_use sg < heap_cap sg /\ live sg = live st /\ handles sg = handles st.
Proof.
  intros Hfresh [Hv Ho] Hcap Hg. pose proof Hv as (Hu & Hl & Hh).
  unfold timeheap_grow in Hg. case_decide as Hfull; [|simplify_eq; repeat split; auto; lia].
  inv_bind Hg. simplify_eq. apply Hfresh in E.
  assert (forall k, k < heap_use st -> (heap st ++ x) !! k = heap st !! k) as Hlk.
  { intros. apply lookup_app_l. lia. }
  split; [split|simpl; split; [lia|]; split; [|done]].
  - split_and!; simpl; [lia|len|]. intros i e Hi. rewrite Hlk by done. by apply Hh.
  - intros i Hi. specialize (Ho i Hi). simpl in Hi. unfold edge, key in *; simpl.
    by rewrite !Hlk by lia.
  - unfold live; simpl. by rewrite take_app_le by lia.
Qed.

Lemma timeheap_insert_ok fresh st h t hd :
  (forall n a, fresh n = Some a -> length a = n) ->
  heap_inv st -> 0 < heap_cap st -> handles st !! h = Some hd -> h ∉ e_h <$> live st ->
  (timeheap_insert fresh st h t = Some ((-1)%Z, st)) \/
  exists st', timeheap_insert fresh st h t = Some (0%Z, st') /\ heap_inv st' /\
    0 < heap_cap st' /\ live st' ≡ₚ Entry t h :: live st /\
    frame (h :: (e_h <$> live st)) st st'.
Proof.
  intros Hfresh Hinv Hcap Hd Hn. unfold timeheap_insert.
  destruct (timeheap_grow fresh st) as [sg|] eqn:Hg; [|by left]. right.
  destruct (timeheap_grow_ok fresh st sg) as ([Hvg Hog] & Hu & Hlg & Hhg); [done..|].
  clear Hg. simpl. set (use := heap_use sg) in *.
  assert (h ∉ e_h <$> live sg) as Hn' by (by rewrite Hlg).
  destruct (place_ok sg use (Entry t h) (S use) hd) as (hs & -> & Hv1 & Hd1 & Hf1);
    [done|lia|lia|simpl; by rewrite Hhg| |].
  { intros k e' Hk Hku He'. split; [unfold use in *; lia|]. simpl. intros <-. apply Hn'.
    apply list_elem_of_fmap_2, elem_of_live. exists k. split; [unfold use in *; lia|done]. }
  simpl. set (s1 := set_use _ _). fold use in s1 |- *.
  destruct (bubble_up_ok s1 use) as (s2 & Hs2 & Hsift).
  { subst s1; split_and!; simpl; [apply Hv1|done|lia| |]; intros k Hk; [|lia].
    intros Hku. unfold edge, key; simpl. rewrite !list_lookup_insert_ne by lia.
    apply Hog. fold use. lia. }
  rewrite Hs2. simpl. exists s2. split; [done|].
  assert (live s1 ≡ₚ Entry t h :: live st) as Hl1.
  { rewrite <- Hlg. subst s1. unfold live; simpl. destruct Hvg as (?&Hlen&_).
    erewrite take_S_snoc by (apply list_lookup_insert_eq; lia).
    rewrite take_insert_ge by lia. by rewrite Permutation_app_comm. }
  destruct (resift_frame s1 s2 (h :: (e_h <$> live st)) st Hsift) as (Hi2 & Hl2 & Hf2).
  { split; intros p; [by rewrite <- Hhg, <- Hd1|]. intros Hp. rewrite <- Hhg. apply Hf1.
    simpl. set_solver. }
  { intros p. by rewrite Hl1. }
  split_and!; [done| |by rewrite Hl2|done].
  destruct Hsift as [_ (_&->&_)]. simpl. lia.
Qed.

(** An armed handle, found through its index. *)
Lemma armed_index st h :
  hinv st -> h ∈ e_h <$> live st ->
  exists i e hd, i < heap_use st /\ heap st !! i = Some e /\ e_h e = h /\
    handles st !! h = Some hd /\ th_i hd = Z.of_nat i.
Proof.
  intros Hv (e & -> & (i & Hi & He)%elem_of_live)%list_elem_of_fmap.
  destruct Hv as (_&_&Hh). destruct (Hh i e Hi He) as (hd & ? & ?). eauto 10.
Qed.

Lemma timeheap_change_ok st h t :
  heap_inv st -> h ∈ e_h <$> live st ->
  exists st' t0 rest, timeheap_change st h t = Some st' /\ heap_inv st' /\
    heap_cap st' = heap_cap st /\
    live st ≡ₚ Entry t0 h :: rest /\ live st' ≡ₚ Entry t h :: rest /\
    frame (e_h <$> live st) st st'.
Proof.
  intros [Hv Ho] Hin. destruct (armed_index st h Hv Hin) as (i & e & hd & Hi & He & <- & Hd & Hti).
  pose proof Hv as (Hu & Hl & Hh). unfold timeheap_change. rewrite Hd. simpl. rewrite Hti.
  rewrite ensure_true by lia. simpl. rewrite Nat2Z.id. unfold aread. rewrite He. simpl.
  rewrite awrite_ok by lia. simpl. set (s1 := set_heap _ _).
  assert (hinv s1) as Hv1.
  { subst s1; split_and!; simpl; [done|len|]. intros k e' Hk.
    rewrite list_lookup_insert_Some. intros [(->&<-&_)|[? Hlk]]; [|by apply Hh]. eauto. }
  assert (key s1 i = t) as Hk1.
  { subst s1. unfold key; simpl. by rewrite list_lookup_insert_eq by lia. }
  destruct (resift st s1 i) as (s2 & Hs2 & Hsift); [done|done|simpl; lia|done| |].
  { intros k ??. subst s1. unfold key; simpl. by rewrite list_lookup_insert_ne. }
  assert (key st i = e_t e) as Hk by (unfold key; by rewrite He). rewrite Hk1, Hk in Hs2.
  pose proof (live_lookup st i e Hi He) as Hlive.
  assert (live s1 = <[i:=Entry t (e_h e)]> (live st)) as Hl1 by (by apply take_insert_lt).
  destruct (resift_frame s1 s2 (e_h <$> live st) st Hsift) as (? & Hl2 & ?).
  { by split. }
  { intros p. rewrite Hl1, list_fmap_insert. simpl. rewrite list_insert_id; [done|].
    by rewrite list_lookup_fmap, Hlive. }
  exists s2, (e_t e), (delete i (live st)). split_and!; [done|done|apply Hsift| |rewrite Hl2, Hl1|done].
  - rewrite (delete_Permutation _ _ _ Hlive) at 1. by destruct e.
  - apply (Permutation_cons_inv (a := e)). rewrite insert_Permutation by done.
    rewrite (delete_Permutation _ _ _ Hlive) at 1. apply Permutation_swap.
Qed.

#[local] Arguments timeheap_remove_i : simpl never.

Lemma bubble_down_leaf st i : heap_use st <= i -> bubble_down st i = Some st.
Proof. intros. unfold bubble_down. simpl. by rewrite !decide_False by lia. Qed.

Lemma timeheap_remove_i_ok st i e :
  heap_inv st -> i < heap_use st -> heap st !! i = Some e ->
  exists st', timeheap_remove_i st (Z.of_nat i) = Some st' /\ heap_inv st' /\
    heap_cap st' = heap_cap st /\
    live st ≡ₚ e :: live st' /\ frame (e_h <$> live st) st st'.
Proof.
  intros [Hv Ho] Hi He. pose proof Hv as (Hu & Hl & Hh).
  unfold timeheap_remove_i. rewrite ensure_true by lia. simpl. rewrite Nat2Z.id.
  set (use := heap_use st - 1). set (s0 := set_use st use).
  assert (hinv s0) as Hv0.
  { split_and!; simpl; [lia|done|]. intros k e' Hk. apply Hh. lia. }
  destruct (hinv_lookup st use Hv ltac:(lia)) as [el Hel].
  assert (live st = take use (heap st) ++ [el]) as Hlive.
  { unfold live. replace (heap_use st) with (S use) by lia. by apply take_S_snoc. }
  case_decide as Hu0.
  2:{ exists s0. assert (i = 0) as -> by lia. assert (use = 0) as E by lia. rewrite E in *.
      split_and!; [done|split; [done|]|done|rewrite Hlive|done].
      - intros k Hk. simpl in Hk. lia.
      - unfold live; simpl. rewrite E. simpl. by simplify_eq. }
  rewrite cmpentry_lt_ok by (done || (simpl; lia)). simpl. unfold aread. rewrite Hel. simpl.
  destruct (Hh use el ltac:(lia) Hel) as (hdl & Hdl & _).
  destruct (place_ok s0 i el use hdl) as (hs & -> & Hv1 & Hd1 & Hf1); [done|simpl; lia|simpl; lia|done| |].
  { intros k e' Hk _ He'. split; [done|]. intros Heq.
    pose proof (hinv_handle_inj st k use e' el Hv ltac:(lia) ltac:(lia) He' Hel Heq). lia. }
  simpl. set (s1 := THeap _ _ _ _) in *. change use with (heap_use s1) in Hv1.
  assert (key s0 use = key st use) as Hkl by done.
  assert (e :: live s1 ≡ₚ live st) as Hl1.
  { rewrite Hlive, Permutation_app_comm. simpl. unfold live; simpl.
    destruct (decide (i = use)) as [->|]; [rewrite take_insert_ge by lia; by simplify_eq|].
    rewrite take_insert_lt by lia. apply insert_Permutation. by rewrite lookup_take_lt by lia. }
  assert (frame (e_h <$> live st) st s1) as Hfr.
  { split; [done|]. intros p Hp. apply Hf1. intros ->. apply Hp. rewrite Hlive. set_solver. }
  destruct (decide (i < use)).
  - destruct (resift st s1 i) as (s2 & Hs2 & Hsift); [done|done|simpl; lia|done| |].
    { intros k ??. subst s1. unfold key; simpl. by rewrite list_lookup_insert_ne. }
    replace (key s1 i) with (key st use) in Hs2.
    2:{ unfold key; simpl. rewrite list_lookup_insert_eq by lia. by rewrite Hel. }
    exists s2. split; [done|].
    destruct (resift_frame s1 s2 (e_h <$> live st) st Hsift Hfr) as (? & Hl2 & ?).
    { intros p. rewrite <- Hl1. set_solver. }
    split_and!; [done|apply Hsift|by rewrite Hl2, Hl1|done].
  - assert (i = use) as Ei by lia. exists s1.
    replace (cmptime_lt _ _) with false.
    2:{ symmetry. apply cmptime_lt_false. by rewrite Ei. }
    split_and!; [apply bubble_down_leaf; simpl; lia|split; [done|]|done|by rewrite Hl1|done].
    intros k Hk. simpl in Hk. unfold edge, key; simpl. rewrite !list_lookup_insert_ne by lia.
    apply Ho. lia.
Qed.

Lemma timeheap_remove_ok st h :
  heap_inv st -> h ∈ e_h <$> live st ->
  exists st' t0, timeheap_remove st h = Some st' /\ heap_inv st' /\
    heap_cap st' = heap_cap st /\ live st ≡ₚ Entry t0 h :: live st' /\
    frame (e_h <$> live st) st st'.
Proof.
  intros Hinv Hin. destruct (armed_index st h ltac:(apply Hinv) Hin) as (i & e & hd & Hi & He & <- & Hd & Hti).
  destruct (timeheap_remove_i_ok st i e Hinv Hi He) as (st' & Hr & ? & ? & ? & ?).
  exists st', (e_t e). unfold timeheap_remove. rewrite Hd. simpl. rewrite Hti. by destruct e.
Qed.

Lemma timeheap_remove_top_ok st :
  heap_inv st -> live st <> [] ->
  exists st' t h hd, timeheap_top st = Some t /\ handles st !! h = Some hd /\
    timeheap_remove_top st = Some (th_data hd, st') /\ heap_inv st' /\
    heap_cap st' = heap_cap st /\ live st ≡ₚ Entry t h :: live st' /\
    (forall e, e ∈ live st -> tle t (e_t e)) /\ frame (e_h <$> live st) st st'.
Proof.
  intros Hinv Hne. pose proof Hinv as [Hv _]. assert (0 < heap_use st) as Hu.
  { destruct (decide (heap_use st = 0)) as [E|]; [|lia]. unfold live in Hne. by rewrite E in Hne. }
  destruct (hinv_lookup st 0 Hv Hu) as [e He]. pose proof Hv as (_ & _ & Hh).
  destruct (Hh 0 e Hu He) as (hd & Hd & _).
  destruct (timeheap_remove_i_ok st 0 e Hinv Hu He) as (st' & Hr & ? & ? & ? & ?).
  exists st', (e_t e), (e_h e), hd. unfold timeheap_top, timeheap_remove_top, aread.
  rewrite He. simpl. rewrite Hd. simpl. change (Z.of_nat 0) with 0%Z in Hr. rewrite Hr. simpl.
  split_and!; [done..|by destruct e| |done]. intros e' He'.
  pose proof (root_min st e' Hinv He') as Hm. unfold key in Hm. by rewrite He in Hm.
Qed.

(** ** The heap implements the interface *)

Definition pair_of (e : th_entry) : timespec * nat := (e_t e, e_h e).

Section Instance.
(** [malloc]: asked for [n] cells it gives [n] cells or fails. *)
Context (fresh : nat -> option (list th_entry))
  (Hfresh : forall n a, fresh n = Some a -> length a = n).

Definition store_handle (st : theap) (h : nat) (hd : th_handle) : theap :=
  THeap (heap st) (heap_cap st) (heap_use st) (<[h := hd]> (handles st)).

#[local] Instance theap_queue : TimerQueue theap := {
  tq_inv st := heap_inv st /\ 0 < heap_cap st;
  tq_live st := pair_of <$> live st;
  tq_handle st h := handles st !! h;
  tq_store := store_handle;
  tq_size := timeheap_size;
  tq_insert := timeheap_insert fresh;
  tq_remove := timeheap_remove;
  tq_change := timeheap_change;
  tq_top := timeheap_top;
  tq_remove_top := timeheap_remove_top
}.

Lemma live_handles st : (pair_of <$> live st).*2 = e_h <$> live st.
Proof. by rewrite <- list_fmap_compose. Qed.

Lemma live_handles_nodup st : hinv st -> NoDup (e_h <$> live st).
Proof.
  intros Hv. apply NoDup_fmap_2_strong; [|].
  - intros e e' (i & ? & ?)%elem_of_live (j & ? & ?)%elem_of_live Heq.
    assert (i = j) as -> by (eapply hinv_handle_inj; eauto). congruence.
  - apply NoDup_alt. intros i j e Hi Hj. apply lookup_take_Some in Hi, Hj.
    destruct Hi, Hj. by eapply (hinv_handle_inj st i j e e).
Qed.

Lemma store_handle_ok st h hd :
  heap_inv st -> h ∉ e_h <$> live st -> heap_inv (store_handle st h hd).
Proof.
  intros [(?&?&Hh) Ho] Hn. split; [|done]. split_and!; simpl; [done..|]. intros i e Hi He.
  rewrite lookup_insert_ne; [by apply Hh|]. intros ->. apply Hn.
  apply list_elem_of_fmap_2, elem_of_live. eauto.
Qed.

Lemma theap_laws : TimerQueueLaws theap.
Proof.
  split; unfold armed; simpl; intros *; rewrite ?live_handles.
  - intros [[? _] _]. by apply live_handles_nodup.
  - intros [[Hv _] _] Hin. destruct (armed_index _ _ Hv Hin) as (i & e & hd & ?&?&?&?&?).
    exists hd. split; [done|lia].
  - intros [[(?&?&_) _] _]. rewrite length_fmap. unfold timeheap_size, live. rewrite length_take. lia.
  - intros [? ?] ?. split_and!; [by apply store_handle_ok|done|done|]. intros h'. apply lookup_insert.
  - intros [? ?] ? ?. edestruct timeheap_insert_ok as [|(st'&?&?&?&Hl&?)]; [done..|by left|right].
    exists st'. split_and!; try done. by rewrite Hl.
  - intros [? Hc] ?. edestruct timeheap_change_ok as (st'&t0&rest&?&?&E&Hl&Hl'&?); [done..|].
    exists st', t0, (pair_of <$> rest). rewrite E. split_and!; try done; [by rewrite Hl|by rewrite Hl'].
  - intros [? Hc] ?. edestruct timeheap_remove_ok as (st'&t0&?&?&E&Hl&?); [done..|].
    exists st', t0. rewrite E. split_and!; try done. by rewrite Hl.
  - intros [? Hc] Hne. edestruct timeheap_remove_top_ok as (st'&t&h&hd&?&?&?&?&E&Hl&Hm&?);
      [done|by intros E; rewrite E in Hne|].
    exists st', t, h, hd. rewrite E. split_and!; try done; [by rewrite Hl|].
    intros e (e' & -> & ?)%list_elem_of_fmap. by apply Hm.
Qed.
End Instance.

(** ** Refinement: the heap is a finite map from handles to deadlines *)

Inductive cmd := CInsert (h : nat) (t : timespec) | CRemove (h : nat)
  | CChange (h : nat) (t : timespec) | CRemoveTop.

(** One call: its result (the data of the removed timer for
    [timeheap_remove_top], 0 where the function returns nothing). *)
Definition exec (fresh : nat -> option (list th_entry)) (c : cmd) (st : theap)
    : option (Z * theap) :=
  match c with
  | CInsert h t => timeheap_insert fresh st h t
  | CRemove h => st ← timeheap_remove st h; Some (0%Z, st)
  | CChange h t => st ← timeheap_change st h t; Some (0%Z, st)
  | CRemoveTop => '(d, st) ← timeheap_remove_top st; Some (Z.of_nat d, st)
  end.

(** What a command does to the abstract map: [CInsert] may run out of memory
    and then changes nothing; [CRemoveTop] returns the data of, and removes, a
    handle with a smallest deadline. *)
Definition aexec (hs : gmap nat th_handle) (c : cmd) (m : gmap nat timespec)
    (r : Z) (m' : gmap nat timespec) : Prop :=
  match c with
  | CInsert h t => r = 0%Z /\ m' = <[h := t]> m \/ r = (-1)%Z /\ m' = m
  | CRemove h => m' = delete h m
  | CChange h t => m' = <[h := t]> m
  | CRemoveTop => exists h t hd, m !! h = Some t /\ m' = delete h m /\
      hs !! h = Some hd /\ r = Z.of_nat (th_data hd) /\
      forall h' t', m !! h' = Some t' -> tle t t'
  end.

(** When the code may issue a command. *)
Definition legal (c : cmd) (st : theap) (m : gmap nat timespec) : Prop :=
  match c with
  | CInsert h t => m !! h = None /\ is_Some (handles st !! h)
  | CRemove h | CChange h _ => is_Some (m !! h)
  | CRemoveTop => m <> ∅
  end.

Definition represents (st : theap) (m : gmap nat timespec) : Prop :=
  heap_inv st /\ 0 < heap_cap st /\ forall h t, m !! h = Some t <-> Entry t h ∈ live st.

Lemma represents_dom st m h : represents st m -> is_Some (m !! h) <-> h ∈ e_h <$> live st.
Proof.
  intros (_&_&H). split.
  - intros [t Ht]. apply H in Ht. by apply (list_elem_of_fmap_2 e_h) in Ht.
  - intros ([t h'] & -> & Hin)%list_elem_of_fmap. simpl. exists t. by apply H.
Qed.

(** Removing one entry of the multiset deletes its key. *)
Lemma represents_delete st st' m t h :
  represents st m -> heap_inv st' -> 0 < heap_cap st' ->
  live st ≡ₚ Entry t h :: live st' -> represents st' (delete h m).
Proof.
  intros Hr Hi Hc Hl. split_and!; [done..|]. destruct Hr as (Hinv & _ & Hm).
  pose proof (live_handles_nodup st ltac:(apply Hinv)) as Hnd. rewrite Hl in Hnd.
  apply NoDup_cons in Hnd as [Hnd _]. simpl in Hnd.
  intros h' t'. rewrite lookup_delete. case_decide as Hh; [subst h'|].
  - split; [done|]. intros Hin. destruct Hnd. by apply (list_elem_of_fmap_2 e_h) in Hin.
  - rewrite Hm, Hl, elem_of_cons. split; [intros [?|?]; [congruence|done]|auto].
Qed.

Lemma represents_insert st' st0 m t h :
  heap_inv st' -> 0 < heap_cap st' -> live st' ≡ₚ Entry t h :: st0 ->
  (forall h' t', h' <> h -> m !! h' = Some t' <-> Entry t' h' ∈ st0) ->
  represents st' (<[h := t]> m).
Proof.
  intros Hi Hc Hl Hm. split_and!; [done..|].
  pose proof (live_handles_nodup st' ltac:(apply Hi)) as Hnd. rewrite Hl in Hnd.
  apply NoDup_cons in Hnd as [Hnd _]. simpl in Hnd.
  intros h' t'. rewrite Hl, elem_of_cons, lookup_insert. case_decide as Hh; [subst h'|].
  - split; [intros [= ->]; by left|]. intros [?|Hin]; [congruence|].
    destruct Hnd. by apply (list_elem_of_fmap_2 e_h) in Hin.
  - rewrite Hm by done. split; [auto|]. intros [?|?]; [congruence|done].
Qed.

(** C29: every command the timers may issue runs without an access outside the
    array or a failed assertion, and simulates its effect on the finite map
    from armed handles to deadlines; the handles' indices stay right
    ([heap_inv] inside [represents]). *)
Theorem timeheap_refines fresh st m c :
  (forall n a, fresh n = Some a -> length a = n) ->
  represents st m -> legal c st m ->
  exists r st' m', exec fresh c st = Some (r, st') /\ aexec (handles st) c m r m' /\
    represents st' m'.
Proof.
  intros Hfresh Hr Hlegal. pose proof Hr as (Hinv & Hcap & Hm).
  destruct c as [h t|h|h t|]; simpl in *.
  - destruct Hlegal as [Hn [hd Hd]].
    assert (h ∉ e_h <$> live st) as Hnl by (rewrite <- represents_dom by done; by rewrite Hn; intros []).
    edestruct timeheap_insert_ok as [E|(st'&E&?&?&Hl&?)]; [done..| |]; rewrite E;
      [by eexists _, st, m; eauto 6|eexists _, st', (<[h := t]> m)].
    split_and!; [done|by left|]. by apply (represents_insert st' (live st)).
  - destruct (timeheap_remove_ok st h) as (st'&t0&E&?&Ec&Hl&?);
      [done|by apply (represents_dom _ m)|]. rewrite E.
    eexists _, _, _; split_and!; [done|done|]. eapply represents_delete; eauto. lia.
  - destruct (timeheap_change_ok st h t) as (st'&t0&rest&E&?&Ec&Hl&Hl'&?);
      [done|by apply (represents_dom _ m)|]. rewrite E.
    eexists _, st', (<[h := t]> m); split_and!; [done|done|].
    apply (represents_insert st' rest); [done|lia|done|]. intros h' t' Hh.
    rewrite Hm, Hl, elem_of_cons. split; [intros [?|?]; [congruence|done]|auto].
  - destruct (timeheap_remove_top_ok st) as (st'&t&h&hd&_&Hd&E&?&Ec&Hl&Hmin&?); [done| |].
    { intros Hnil. apply Hlegal, map_eq. intros h. rewrite lookup_empty.
      apply eq_None_not_Some. intros Hs. apply (represents_dom _ _ _ Hr) in Hs. rewrite Hnil in Hs. set_solver. }
    rewrite E. simpl. eexists _, st', (delete h m). split; [done|]. split.
    + exists h, t, hd. split_and!; [apply Hm; rewrite Hl; set_solver|done..|].
      intros h' t' Hin. apply Hm in Hin. by apply (Hmin (Entry t' h')).
    + eapply represents_delete; eauto. lia.
Qed.

(** A heap of three timers, built by the operations from [timeheap_init]. *)
Definition fresh_cells (n : nat) : option (list th_entry) :=
  Some (replicate n (Entry (TS 0 0) 0)).

Definition demo_handles : gmap nat th_handle :=
  {[ 1 := Handle (-1) 1; 2 := Handle (-1) 2; 3 := Handle (-1) 3 ]}.

Definition demo_heap : option theap :=
  let '(_, st) := timeheap_init fresh_cells demo_handles in
  '(_, st) ← timeheap_insert fresh_cells st 1 (TS 7 0);
  '(_, st) ← timeheap_insert fresh_cells st 2 (TS 5 3);
  Some st.

(** The empty heap represents the empty map. *)
Lemma timeheap_init_represents hs :
  represents (timeheap_init fresh_cells hs).2 ∅.
Proof.
  split; [split; [split; [simpl; lia|]|]|split; [simpl; lia|]].
  - split; [done|]. simpl. intros i e Hi. lia.
  - intros i Hi. simpl in Hi. lia.
  - intros h t. rewrite lookup_empty. unfold live; simpl. set_solver.
Qed.

Lemma timeheap_refines_witness :
  exists st, demo_heap = Some st /\
  exists r st' m', exec fresh_cells CRemoveTop st = Some (r, st') /\
    aexec (handles st) CRemoveTop {[ 1 := TS 7 0; 2 := TS 5 3 ]} r m' /\ represents st' m'.
Proof.
  eexists. split; [vm_compute; reflexivity|]. apply (timeheap_refines fresh_cells).
  - intros n a [= <-]. apply length_replicate.
  - split; [split; [split; [simpl; lia|split; [done|]]|]|split; [simpl; lia|]].
    + intros [|[|i]] e Hi; simpl in Hi; [| |lia]; intros [= <-]; eexists; split; reflexivity.
    + intros [|[|i]] Hi; simpl in Hi; [lia| |lia]. left; simpl; lia.
    + intros h t. unfold live; simpl. rewrite lookup_insert, lookup_singleton.
      set_unfold. repeat case_decide; split; intros; destruct_or?; simplify_eq; eauto.
  - apply insert_non_empty.
Defined.

(** ** Draining the heap *)

(** [while (timeheap_size() > 0) { timeheap_top(); timeheap_remove_top(); }] as
    [evtimers_run] does it: the deadlines in the order they are served. *)
Definition drain_turn (s : list timespec * theap)
    : option ((list timespec * theap) + list timespec) :=
  let '(out, st) := s in
  if decide (0 < timeheap_size st) then
    t ← timeheap_top st;
    '(_, st) ← timeheap_remove_top st;
    Some (inl (out ++ [t], st))
  else Some (inr out).

Definition drain (st : theap) : option (list timespec) :=
  cloop (S (timeheap_size st)) drain_turn ([], st).

Definition drain_inv (all : list timespec) (s : list timespec * theap) : Prop :=
  let '(out, st) := s in
  heap_inv st /\ StronglySorted tle out /\ all ≡ₚ out ++ (e_t <$> live st) /\
  forall a b, a ∈ out -> b ∈ e_t <$> live st -> tle a b.

Lemma live_length st : heap_inv st -> length (live st) = timeheap_size st.
Proof. intros [(?&?&_) _]. unfold live. rewrite length_take. unfold timeheap_size. lia. Qed.

Lemma StronglySorted_snoc out t :
  StronglySorted tle out -> (forall a, a ∈ out -> tle a t) ->
  StronglySorted tle (out ++ [t]).
Proof.
  induction 1 as [|a out Hs IH Ha]; intros Ht; simpl; [repeat constructor|].
  constructor; [apply IH; set_solver|]. apply Forall_app; split; [done|].
  constructor; [|done]. set_solver.
Qed.

(** serving timers until the heap is empty ends, and serves exactly the
    armed deadlines in nondecreasing order. *)
Theorem timeheap_drain_sorted st :
  heap_inv st ->
  exists out, drain st = Some out /\ StronglySorted tle out /\
    out ≡ₚ (e_t <$> live st).
Proof.
  intros Hi. apply (cloop_total (drain_inv (e_t <$> live st)) (fun s => timeheap_size s.2)).
  - intros [out s] (Hs & Ho & Hp & Hle). unfold drain_turn. case_decide as Hu.
    + destruct (timeheap_remove_top_ok s) as (s'&t&h&hd&Et&_&E&?&_&Hl&Hmin&_); [done| |].
      { intros Hnil. apply live_length in Hs. rewrite Hnil in Hs. simpl in Hs. lia. }
      rewrite Et. simpl. rewrite E. simpl. split; [split_and!; [done|..]|].
      * apply StronglySorted_snoc; [done|]. intros a Ha. apply Hle; [done|].
        rewrite Hl. set_solver.
      * by rewrite Hp, Hl, <- app_assoc.
      * intros a b [Ha| ->%list_elem_of_singleton]%elem_of_app Hb.
        -- apply Hle; [done|]. rewrite Hl. set_solver.
        -- apply list_elem_of_fmap in Hb as (e & -> & He). apply Hmin. rewrite Hl. set_solver.
      * apply Permutation_length in Hl. simpl in Hl. rewrite !live_length in Hl by done. lia.
    + simpl. apply live_length in Hs. destruct (live s); [|simpl in Hs; lia].
      split; [done|]. by rewrite Hp, app_nil_r.
  - split_and!; [done|constructor|done|set_solver].
  - simpl. lia.
Qed.

Lemma timeheap_drain_sorted_witness :
  exists st, demo_heap = Some st /\
  exists out, drain st = Some out /\ StronglySorted tle out /\ out ≡ₚ (e_t <$> live st).
Proof.
  eexists. split; [vm_compute; reflexivity|]. apply timeheap_drain_sorted.
  split; [split; [simpl; lia|split; [done|]]|].
  - intros [|[|i]] e Hi; simpl in Hi; [| |lia]; intros [= <-]; eexists; split; reflexivity.
  - intros [|[|i]] Hi; simpl in Hi; [lia| |lia]. left; simpl; lia.
Defined.
