(* ===== verification/Timer.v ===== *)
(** The timers of the event loop: [libbt/evloop/timer.c], proved against the
    interface of the timer heap ([TimerQueue]), so for any implementation of it.

    A [struct timeout] is identified with the address of its handle
    ([h->th.data = h]).  The time source [timeGetTime()] and the callbacks are
    arguments. *)
From S2P Require Import Prelude TimerQueue.

Local Open Scope Z_scope.

Section Timer.
Context {Q : Type} `{TQ : TimerQueue Q}.

(** ** Operations *)

(** [ms] is what [timeGetTime()] returned. *)
Definition evtimer_gettime (ms : Z) : timespec :=
  let sec := u32 ms / 1000 in
  TS sec ((u32 ms - sec * 1000) * 1000 * 1000).

Definition addtime (a b : timespec) : timespec :=
  let sec := tv_sec a + tv_sec b in
  let nsec := tv_nsec a + tv_nsec b in
  if nsec >=? 1000000000 then TS (sec + 1) (nsec - 1000000000) else TS sec nsec.

Definition subtime (a b : timespec) : timespec :=
  let sec := tv_sec a - tv_sec b in
  let nsec := tv_nsec a - tv_nsec b in
  if nsec <? 0 then TS (sec - 1) (nsec + 1000000000) else TS sec nsec.

Definition evtimer_init (q : Q) (h : nat) : Q := tq_store q h (Handle (-1) h).

(** [h->th.i = -1]. *)
Definition disarm (q : Q) (h : nat) : option Q :=
  hd ← tq_handle q h; Some (tq_store q h (Handle (-1) (th_data hd))).

Definition evtimer_add (q : Q) (ms : Z) (h : nat) (t : timespec) : option (Z * Q) :=
  let now := evtimer_gettime ms in
  let sum := addtime now t in
  hd ← tq_handle q h;
  if th_i hd =? -1 then tq_insert q h sum
  else q ← tq_change q h sum; Some (0, q).

Definition evtimer_del (q : Q) (h : nat) : option Q :=
  hd ← tq_handle q h;
  if th_i hd >=? 0 then q ← tq_remove q h; disarm q h else Some q.

(** The loop of [evtimers_run]; [cb] is the timers' callback, acting on the
    timers and on the rest [W] of the program. *)
Definition due (now top : timespec) : bool :=
  let diff := subtime top now in
  (tv_sec diff <? 0) || ((tv_sec diff =? 0) && (tv_nsec diff <? 1000000)).

Definition evtimers_run_turn {W} (cb : nat -> Q * W -> option (Q * W)) (now : timespec)
    (s : Q * W) : option ((Q * W) + (Q * W)) :=
  let '(q, w) := s in
  if decide (0 < tq_size q)%nat then
    top ← tq_top q;
    if due now top then
      '(t, q) ← tq_remove_top q;
      q ← disarm q t;
      s ← cb t (q, w); Some (inl s)
    else Some (inr (q, w))
  else Some (inr (q, w)).

Definition evtimers_run {W} (fuel : nat) (cb : nat -> Q * W -> option (Q * W)) (ms : Z)
    (s : Q * W) : option (Q * W) :=
  cloop fuel (evtimers_run_turn cb (evtimer_gettime ms)) s.

Definition evtimer_delay (q : Q) (ms : Z) : option timespec :=
  if decide (tq_size q = 0%nat) then Some (TS (-1) 0)
  else
    let now := evtimer_gettime ms in
    top ← tq_top q;
    let diff := subtime top now in
    Some (if tv_sec diff <? 0 then TS 0 0 else diff).

(** ** Times in nanoseconds *)

Definition normal (t : timespec) : Prop := 0 <= tv_nsec t < 1000000000.
Definition ns (t : timespec) : Z := tv_sec t * 1000000000 + tv_nsec t.

Lemma gettime_normal ms : normal (evtimer_gettime ms).
Proof.
  unfold normal, evtimer_gettime, wrap; simpl.
  pose proof (Z.div_mod (ms mod 2 ^ 32) 1000). pose proof (Z.mod_pos_bound (ms mod 2 ^ 32) 1000). lia.
Qed.

Lemma addtime_normal a b : normal a -> normal b -> normal (addtime a b) /\ ns (addtime a b) = ns a + ns b.
Proof. unfold normal, ns, addtime. case_match; simpl; lia. Qed.

Lemma subtime_normal a b : normal a -> normal b -> normal (subtime a b) /\ ns (subtime a b) = ns a - ns b.
Proof. unfold normal, ns, subtime. case_match; simpl; lia. Qed.

Lemma tle_ns a b : normal a -> normal b -> tle a b <-> ns a <= ns b.
Proof. unfold normal, ns, tle. lia. Qed.

Lemma due_ns now t : normal now -> normal t -> due now t = true <-> ns t - ns now < 1000000.
Proof.
  intros Hn Ht. destruct (subtime_normal t now Ht Hn) as [Hs <-].
  unfold due, normal, ns in *. rewrite orb_true_iff, andb_true_iff. lia.
Qed.

(** ** Invariant of the timers *)

Definition timers_inv (q : Q) : Prop :=
  tq_inv q /\
  (forall h hd, tq_handle q h = Some hd ->
     th_data hd = h /\ (armed q h \/ th_i hd = -1)) /\
  Forall normal (tq_live q).*1.

Context `{!TimerQueueLaws Q}.

Lemma armed_iff q h hd :
  timers_inv q -> tq_handle q h = Some hd -> armed q h <-> th_i hd <> -1.
Proof.
  intros (Hi & Hh & _) Hd. split.
  - intros Ha. destruct (tq_armed_handle q h Hi Ha) as (hd' & ? & ?). simplify_eq. lia.
  - intros. destruct (Hh h hd Hd) as [_ [?|?]]; [done|lia].
Qed.

Lemma timers_inv_frame q q' hs :
  timers_inv q -> tq_inv q' -> tq_frame hs q q' -> (forall h, h ∈ hs -> armed q' h) ->
  (forall h, armed q h -> armed q' h) -> Forall normal (tq_live q').*1 -> timers_inv q'.
Proof.
  intros (Hi & Hh & Hn) Hi' [Hd Hf] Hs Ha Hn'. split_and!; [done| |done].
  intros h hd Hq. specialize (Hd h). rewrite Hq in Hd. simpl in Hd.
  destruct (tq_handle q h) as [hd0|] eqn:E; [|done]. simpl in Hd.
  destruct (Hh h hd0 E) as [Hdata Harm]. injection Hd as Hd. split; [congruence|].
  destruct (decide (h ∈ hs)); [left; auto|]. rewrite Hf, E in Hq by done. simplify_eq.
  destruct Harm; auto.
Qed.

(** Disarming a handle that is no longer in the heap. *)
Lemma disarm_ok q q' h t :
  timers_inv q -> is_Some (tq_handle q h) -> tq_inv q' -> tq_frame (tq_live q).*2 q q' ->
  tq_live q ≡ₚ (t, h) :: tq_live q' ->
  exists q2, disarm q' h = Some q2 /\ timers_inv q2 /\ tq_live q2 = tq_live q' /\
    tq_handle q2 h = Some (Handle (-1) h).
Proof.
  intros (Hi & Hh & Hn) [hd0 Hd0] Hi' [Hd Hf] Hl. pose proof (tq_nodup q Hi) as Hnd.
  rewrite Hl in Hnd. apply NoDup_cons in Hnd as [Hna _]. simpl in Hna.
  unfold disarm. pose proof (Hd h) as Hdh. rewrite Hd0 in Hdh. simpl in Hdh.
  destruct (tq_handle q' h) as [hd'|] eqn:Hd'; [|done]. simpl in *. injection Hdh as Hdh.
  destruct (Hh h hd0 Hd0) as [Hdata _].
  destruct (tq_store_ok q' h (Handle (-1) (th_data hd')) Hi' Hna) as (Hi2 & Hl2 & Hh2).
  eexists. split; [done|]. rewrite Hl2, Hh2, decide_True by done. split_and!; [split_and!|done|].
  - done.
  - intros h2 hd2. rewrite Hh2. case_decide as Heq; [intros [= <-]; simpl; split; [congruence|by right]|].
    intros Hq2. specialize (Hd h2). rewrite Hq2 in Hd. simpl in Hd.
    destruct (tq_handle q h2) as [hd3|] eqn:E3; [|done]. simpl in Hd. injection Hd as Hd.
    destruct (Hh h2 hd3 E3) as [? Harm]. split; [congruence|]. unfold armed. rewrite Hl2.
    destruct (decide (h2 ∈ (tq_live q').*2)) as [|Hnot]; [by left|right].
    destruct Harm as [Harm|Harm].
    + unfold armed in Harm. rewrite Hl in Harm. simpl in Harm. set_solver.
    + rewrite Hf, E3 in Hq2; [congruence|]. rewrite Hl. simpl. set_solver.
  - rewrite Hl2. rewrite Hl in Hn. by inversion Hn.
  - do 2 f_equal. congruence.
Qed.

(** ** Arming and disarming *)

(** [evtimer_add] arms the timer at now + [t], whether it was armed or not
    (moving it in the second case), keeps every other timer, and changes
    nothing when the heap is out of memory. *)
Theorem evtimer_add_correct q ms h t hd :
  timers_inv q -> normal t -> tq_handle q h = Some hd ->
  let deadline := addtime (evtimer_gettime ms) t in
  evtimer_add q ms h t = Some (-1, q) \/
  exists q' rest, evtimer_add q ms h t = Some (0, q') /\ timers_inv q' /\
    ns deadline = ns (evtimer_gettime ms) + ns t /\
    tq_live q' ≡ₚ (deadline, h) :: rest /\
    (tq_live q = rest \/ exists t0, tq_live q ≡ₚ (t0, h) :: rest).
Proof.
  intros Hinv Ht Hd deadline. pose proof Hinv as (Hi & Hh & Hn).
  destruct (addtime_normal _ _ (gettime_normal ms) Ht) as [Hnd Hns].
  unfold evtimer_add. rewrite Hd. simpl. fold deadline in Hnd, Hns |- *.
  pose proof (armed_iff q h hd Hinv Hd) as Harm. case_match eqn:E.
  - destruct (tq_insert_ok q h deadline hd) as [->|(q' & -> & Hi' & Hl & Hf)];
      [done|done|rewrite Harm; lia|by left|right].
    exists q', (tq_live q). split_and!; [done| |done|done|by left].
    eapply timers_inv_frame; [done..| | |]; unfold armed; try intros ?; rewrite Hl; simpl;
      [set_solver..|by constructor].
  - destruct (tq_change_ok q h deadline) as (q' & t0 & rest & -> & Hi' & Hl & Hl' & Hf);
      [done|apply Harm; lia|right]. simpl.
    exists q', rest. split_and!; [done| |done|done|by eauto]. rewrite Hl in Hn. inversion Hn.
    eapply timers_inv_frame; [done..| | |]; unfold armed; try intros ?; rewrite ?Hl, ?Hl'; simpl;
      [set_solver..|by constructor].
Qed.

(** [evtimer_del] disarms the timer (it has no effect on a timer that is
    not armed) and leaves every other timer as it was. *)
Theorem evtimer_del_correct q h hd :
  timers_inv q -> tq_handle q h = Some hd ->
  exists q', evtimer_del q h = Some q' /\ timers_inv q' /\ ~ armed q' h /\
    (~ armed q h /\ q' = q \/ exists t0, tq_live q ≡ₚ (t0, h) :: tq_live q').
Proof.
  intros Hinv Hd. pose proof Hinv as (Hi & Hh & Hn).
  unfold evtimer_del. rewrite Hd. simpl. pose proof (armed_iff q h hd Hinv Hd) as Harm.
  case_match eqn:E.
  - destruct (tq_remove_ok q h) as (q1 & t0 & -> & Hi1 & Hl & Hf); [done|apply Harm; lia|]. simpl.
    destruct (disarm_ok q q1 h t0) as (q2 & -> & Hinv2 & Hl2 & Hh2); [done|by exists hd|done..|].
    exists q2. split_and!; [done|done| |rewrite Hl2; eauto].
    rewrite (armed_iff q2 h _ Hinv2 Hh2). simpl. lia.
  - exists q. assert (~ armed q h) as Hna; [|split_and!; auto].
    intros Ha. destruct (tq_armed_handle q h Hi Ha) as (hd' & ? & ?). simplify_eq. lia.
Qed.

(** ** Running the timers *)

(** The callbacks of this theorem only act on the rest of the program. *)
Definition run_inv {W} (f : nat -> W -> W) (now : timespec) (q0 : Q) (w0 : W)
    (fired : list (timespec * nat)) (s : Q * W) : Prop :=
  timers_inv s.1 /\ StronglySorted tle fired.*1 /\ tq_live q0 ≡ₚ fired ++ tq_live s.1 /\
  s.2 = foldl (fun w e => f e.2 w) w0 fired /\
  Forall (fun e => ns e.1 - ns now < 1000000) fired /\
  Forall (fun e => forall e', e' ∈ tq_live s.1 -> tle e.1 e'.1) fired.

Lemma StronglySorted_snoc_tle (l : list timespec) t :
  StronglySorted tle l -> Forall (fun a => tle a t) l -> StronglySorted tle (l ++ [t]).
Proof.
  induction 1 as [|a l Hs IH Ha]; intros Ht; simpl; [repeat constructor|].
  apply Forall_cons in Ht as [? ?]. constructor; [auto|].
  apply Forall_app; split; [done|]. by constructor.
Qed.

(** One due timer: served, disarmed, its callback called. *)
Lemma run_inv_step {W} f now q0 (w0 : W) fired q w t h hd q1 :
  run_inv f now q0 w0 fired (q, w) -> normal now -> due now t = true ->
  tq_handle q h = Some hd -> tq_inv q1 -> tq_live q ≡ₚ (t, h) :: tq_live q1 ->
  (forall e, e ∈ tq_live q -> tle t e.1) -> tq_frame (tq_live q).*2 q q1 ->
  exists q2, disarm q1 (th_data hd) = Some q2 /\ tq_live q2 = tq_live q1 /\
    run_inv f now q0 w0 (fired ++ [(t, h)]) (q2, f (th_data hd) w).
Proof.
  intros (Hinv & Hs & Hp & Hw & Hdue & Hle) Hnow Ht Hd Hi1 Hl Hmin Hf. simpl in *.
  pose proof Hinv as (Hi & Hh & Hn). destruct (Hh h hd Hd) as [-> _].
  destruct (disarm_ok q q1 h t) as (q2 & -> & Hinv2 & Hl2 & _); [done|by exists hd|done..|].
  exists q2. split; [done|]. split; [done|].
  rewrite Hl in Hn. simpl in Hn. apply Forall_cons in Hn as [Hnt _].
  split_and!; simpl; [done| | | | |]; rewrite ?Hl2, ?fmap_app.
  - apply StronglySorted_snoc_tle; [done|]. apply Forall_fmap. eapply Forall_impl; [exact Hle|].
    intros e He. simpl. apply (He (t, h)). rewrite Hl. set_solver.
  - by rewrite Hp, Hl, <- app_assoc.
  - by rewrite foldl_app, Hw.
  - apply Forall_app; split; [done|]. constructor; [|done]. by apply due_ns.
  - apply Forall_app; split; [|constructor; [|done]].
    + eapply Forall_impl; [exact Hle|]. intros e He e' He'. apply He. rewrite Hl. set_solver.
    + intros e' He'. apply Hmin. rewrite Hl. set_solver.
Qed.

Definition run_post {W} (f : nat -> W -> W) (now : timespec) (q0 : Q) (w0 : W) (s : Q * W) : Prop :=
  exists fired, run_inv f now q0 w0 fired s /\
    Forall (fun e => 1000000 <= ns e.1 - ns now) (tq_live s.1).

(** with callbacks that do not arm timers, [evtimers_run] ends; it calls
    the callback of exactly the timers due less than a millisecond from now, in
    the order of their deadlines, disarms them and keeps the others armed. *)
Theorem evtimers_run_correct {W} (f : nat -> W -> W) q w ms :
  timers_inv q ->
  exists s, evtimers_run (S (length (tq_live q))) (fun h s => Some (s.1, f h s.2)) ms (q, w)
    = Some s /\ run_post f (evtimer_gettime ms) q w s.
Proof.
  intros Hinv. set (now := evtimer_gettime ms). pose proof (gettime_normal ms : normal now) as Hnow.
  apply (cloop_total (fun s => exists fired, run_inv f now q w fired s)
    (fun s => length (tq_live s.1))); [|by exists []; split_and!; simpl; auto using SSorted_nil|simpl; lia].
  intros [q1 w1] [fired Hr]. pose proof Hr as ((Hi & Hh & Hn) & _). simpl in *.
  unfold evtimers_run_turn. fold now. rewrite tq_size_ok by done. case_decide as Hsz.
  2:{ simpl. exists fired. split; [done|]. simpl. destruct (tq_live q1); [done|simpl in Hsz; lia]. }
  destruct (tq_remove_top_ok q1) as (q2 & t & h & hd & -> & Hd & Hrm & Hi2 & Hl & Hmin & Hf);
    [done|by intros E; rewrite E in Hsz; simpl in Hsz; lia|]. simpl.
  destruct (due now t) eqn:Hdue.
  - rewrite Hrm. simpl.
    edestruct (@run_inv_step W) as (q3 & -> & Hl3 & Hr3); [done..|]. simpl.
    split; [eauto|]. rewrite Hl3, Hl. simpl. lia.
  - simpl. exists fired. split; [done|]. simpl. apply Forall_forall. intros e He.
    rewrite Forall_fmap, Forall_forall in Hn.
    assert (normal t) as Ht by (apply (Hn (t, h)); rewrite Hl; set_solver).
    pose proof (proj1 (tle_ns t e.1 Ht (Hn e He)) (Hmin e He)).
    destruct (decide (ns t - ns now < 1000000)) as [Hc|]; [|lia].
    by rewrite <- due_ns, Hdue in Hc.
Qed.

(** The delay until the next deadline, for [select]: -1 s with no timer, 0 when
    a deadline has passed, the exact difference otherwise. *)
Lemma evtimer_delay_ok q ms :
  timers_inv q ->
  (tq_live q = [] /\ evtimer_delay q ms = Some (TS (-1) 0)) \/
  exists d t, evtimer_delay q ms = Some d /\ t ∈ (tq_live q).*1 /\
    (forall e, e ∈ tq_live q -> ns t <= ns e.1) /\
    ns d = Z.max 0 (ns t - ns (evtimer_gettime ms)).
Proof.
  intros (Hi & Hh & Hn). unfold evtimer_delay. rewrite tq_size_ok by done.
  case_decide as Hsz; [left; by destruct (tq_live q)|right].
  destruct (tq_remove_top_ok q) as (q2 & t & h & hd & -> & Hd & Hrm & Hi2 & Hl & Hmin & Hf);
    [done|by intros E; rewrite E in Hsz|]. simpl.
  rewrite Forall_fmap, Forall_forall in Hn.
  assert (normal t) as Ht by (apply (Hn (t, h)); rewrite Hl; set_solver).
  destruct (subtime_normal t _ Ht (gettime_normal ms)) as [Hsn Hs].
  eexists _, t. split; [done|]. split; [rewrite Hl; set_solver|]. split.
  - intros e He. apply tle_ns; auto. by apply Hn.
  - rewrite <- Hs. clear Hs. set (d := subtime _ _) in *. clearbody d.
    unfold normal, ns in *. case_match; simpl; lia.
Qed.
End Timer.
