(* ===== verification/EventLoop.v ===== *)
(** The timers over the timer heap: the theorems of [Timer] instantiated with
    the implementation of [TimeHeap], at a concrete state. *)
From S2P Require Import Prelude TimerQueue TimeHeap Timer.

#[local] Instance demo_queue : TimerQueue theap := theap_queue fresh_cells.

Lemma fresh_cells_length n a : fresh_cells n = Some a -> length a = n.
Proof. intros [= <-]. apply length_replicate. Qed.

#[local] Instance demo_laws : TimerQueueLaws theap := theap_laws fresh_cells fresh_cells_length.

(** Timers 1 and 2 armed at 7 s and 5 s + 3 ns, timer 3 initialised. *)
Definition demo_state : theap := default (THeap [] 0 0 ∅) demo_heap.

Lemma demo_heap_inv : heap_inv demo_state.
Proof.
  split; [split; [vm_compute; lia|split; [done|]]|].
  - intros [|[|i]] e Hi; vm_compute in Hi; [| |lia]; intros [= <-]; eexists; split; reflexivity.
  - intros [|[|i]] Hi; vm_compute in Hi; [lia| |lia]. left. vm_compute. done.
Qed.

Lemma demo_timers : timers_inv demo_state.
Proof.
  split; [split; [apply demo_heap_inv|vm_compute; lia]|split].
  - intros h hd. change (tq_handle demo_state h) with (handles demo_state !! h).
    intros Hh. apply elem_of_map_to_list in Hh.
    change (map_to_list (handles demo_state)) with
      [(2, Handle 0 2); (3, Handle (-1) 3); (1, Handle 1 1)] in Hh.
    set_unfold in Hh. destruct_or? Hh; simplify_eq; (split; [done|]);
      first [by right | left; unfold armed; vm_compute; set_solver].
  - repeat constructor; vm_compute; done.
Qed.

Lemma evtimer_add_correct_witness :
  let deadline := addtime (evtimer_gettime 4000) (TS 2 5) in
  evtimer_add demo_state 4000 3 (TS 2 5) = Some ((-1)%Z, demo_state) \/
  exists q' rest, evtimer_add demo_state 4000 3 (TS 2 5) = Some (0%Z, q') /\ timers_inv q' /\
    ns deadline = (ns (evtimer_gettime 4000) + ns (TS 2 5))%Z /\
    tq_live q' ≡ₚ (deadline, 3) :: rest /\
    (tq_live demo_state = rest \/ exists t0, tq_live demo_state ≡ₚ (t0, 3) :: rest).
Proof.
  apply (evtimer_add_correct demo_state 4000 3 (TS 2 5) (Handle (-1) 3)).
  - apply demo_timers.
  - unfold normal; simpl; lia.
  - reflexivity.
Defined.

Lemma evtimer_del_correct_witness :
  exists q', evtimer_del demo_state 2 = Some q' /\ timers_inv q' /\ ~ armed q' 2 /\
    (~ armed demo_state 2 /\ q' = demo_state \/
     exists t0, tq_live demo_state ≡ₚ (t0, 2) :: tq_live q').
Proof. apply (evtimer_del_correct demo_state 2 (Handle 0 2)); [apply demo_timers|reflexivity]. Defined.

Lemma evtimers_run_correct_witness :
  exists s, evtimers_run (S (length (tq_live demo_state)))
      (fun h s => Some (s.1, h :: s.2)) 6000 (demo_state, []) = Some s /\
    run_post cons (evtimer_gettime 6000) demo_state [] s.
Proof. apply (evtimers_run_correct cons demo_state [] 6000), demo_timers. Defined.

(** At 6 s only timer 2 is due. *)
Example run_at_6s :
  snd <$> evtimers_run 3 (fun h s => Some (s.1, h :: s.2)) 6000 (demo_state, []) = Some [2].
Proof. vm_compute. reflexivity. Qed.
