(* ===== verification/ShmcbCyclic.v ===== *)
(** The cyclic-buffer primitives of the shared-memory cache
    ([apps/zcache/src/zcache_shmcb.c]) and the key hash ([apps/zcache/src/zcache.c]).

    [unsigned int] values are [Z]s reduced modulo [2^32] after every operation
    that may wrap. *)
From S2P Require Import Prelude.
Local Open Scope Z_scope.

(** ** Cyclic arithmetic *)

Definition shmcb_cyclic_increment (buf_size start_pos to_add : Z) : option Z :=
  let start_pos := u32 (start_pos + to_add) in
  cloop (S (Z.to_nat start_pos))
    (fun p => if p >=? buf_size then Some (inl (u32 (p - buf_size))) else Some (inr p)) start_pos.

Definition shmcb_cyclic_space (buf_size start_offset next_offset : Z) : Z :=
  if start_offset <=? next_offset then u32 (next_offset - start_offset)
  else u32 (u32 (buf_size - start_offset) + next_offset).

(** ** Cyclic copies

    [data] is the cyclic block, [src] the linear one (and [dest] its contents
    before the copy). *)

Definition shmcb_cyclic_ntoc_memcpy (buf_size : Z) (data : list Z) (dest_offset : Z)
    (src : list Z) (src_len : Z) : option (list Z) :=
  let src_len := if src_len >? buf_size then buf_size else src_len in
  if u32 (dest_offset + src_len) <? buf_size then
    b ← mread src 0 (Z.to_nat src_len);
    mwrite data (Z.to_nat dest_offset) b
  else
    b1 ← mread src 0 (Z.to_nat (u32 (buf_size - dest_offset)));
    data ← mwrite data (Z.to_nat dest_offset) b1;
    b2 ← mread src (Z.to_nat (u32 (buf_size - dest_offset)))
               (Z.to_nat (u32 (src_len + dest_offset - buf_size)));
    mwrite data 0 b2.

Definition shmcb_cyclic_cton_memcpy (buf_size : Z) (dest data : list Z)
    (src_offset src_len : Z) : option (list Z) :=
  let src_len := if src_len >? buf_size then buf_size else src_len in
  if u32 (src_offset + src_len) <? buf_size then
    b ← mread data (Z.to_nat src_offset) (Z.to_nat src_len);
    mwrite dest 0 b
  else
    b1 ← mread data (Z.to_nat src_offset) (Z.to_nat (u32 (buf_size - src_offset)));
    dest ← mwrite dest 0 b1;
    b2 ← mread data 0 (Z.to_nat (u32 (src_len + src_offset - buf_size)));
    mwrite dest (Z.to_nat (u32 (buf_size - src_offset))) b2.

(** ** The key hash *)

Definition xor32 (a b : Z) : Z := Z.lxor a b.
Definition shl32 (a n : Z) : Z := u32 (Z.shiftl a n).
Definition shr32 (a n : Z) : Z := Z.shiftr a n.
Definition sub32 (a b : Z) : Z := u32 (a - b).

Definition HASH_MIX (s : Z * Z * Z) : Z * Z * Z :=
  let '(a, b, c) := s in
  let a := sub32 a b in let a := sub32 a c in let a := xor32 a (shr32 c 13) in
  let b := sub32 b c in let b := sub32 b a in let b := xor32 b (shl32 a 8) in
  let c := sub32 c a in let c := sub32 c b in let c := xor32 c (shr32 b 13) in
  let a := sub32 a b in let a := sub32 a c in let a := xor32 a (shr32 c 12) in
  let b := sub32 b c in let b := sub32 b a in let b := xor32 b (shl32 a 16) in
  let c := sub32 c a in let c := sub32 c b in let c := xor32 c (shr32 b 5) in
  let a := sub32 a b in let a := sub32 a c in let a := xor32 a (shr32 c 3) in
  let b := sub32 b c in let b := sub32 b a in let b := xor32 b (shl32 a 10) in
  let c := sub32 c a in let c := sub32 c b in let c := xor32 c (shr32 b 15) in
  (a, b, c).

(** The byte [key_p[i]] shifted left by [n]. *)
Definition key_byte (key : list Z) (i : nat) (n : Z) : Z := Z.shiftl (nth i key 0) n.

Definition word_at (key : list Z) (i : nat) : Z :=
  key_byte key i 0 + key_byte key (i + 1) 8 + key_byte key (i + 2) 16 + key_byte key (i + 3) 24.

(** The [for] loop: twelve bytes a turn; returns the rest of the key. *)
Fixpoint hash_blocks (fuel : nat) (key : list Z) (s : Z * Z * Z) : list Z * (Z * Z * Z) :=
  match fuel with
  | O => (key, s)
  | S fuel =>
      if bool_decide (12 <= length key)%nat then
        let '(a, b, c) := s in
        hash_blocks fuel (drop 12 key)
          (HASH_MIX (u32 (a + word_at key 0), u32 (b + word_at key 4), u32 (c + word_at key 8)))
      else (key, s)
  end.

(** The [switch] on the remaining length, with its fall-through. *)
Definition hash_tail (k : list Z) (s : Z * Z * Z) : Z * Z * Z :=
  let '(a, b, c) := s in
  let at_least (n : nat) (x : Z) := if bool_decide (n <= length k)%nat then x else 0 in
  let c := u32 (c + at_least 11%nat (key_byte k 10 24) + at_least 10%nat (key_byte k 9 16)
                  + at_least 9%nat (key_byte k 8 8)) in
  let b := u32 (b + at_least 8%nat (key_byte k 7 24) + at_least 7%nat (key_byte k 6 16)
                  + at_least 6%nat (key_byte k 5 8) + at_least 5%nat (key_byte k 4 0)) in
  let a := u32 (a + at_least 4%nat (key_byte k 3 24) + at_least 3%nat (key_byte k 2 16)
                  + at_least 2%nat (key_byte k 1 8) + at_least 1%nat (key_byte k 0 0)) in
  (a, b, c).

Definition hash (key : list Z) (init_val : Z) : Z :=
  let '(k, (a, b, c)) :=
    hash_blocks (length key) key (0x9e3779b9, 0x9e3779b9, init_val) in
  let c := u32 (c + Z.of_nat (length key)) in
  (HASH_MIX (hash_tail k (a, b, c))).2.

(** ** What the primitives compute *)

Lemma u32_small x : 0 <= x < 2 ^ 32 -> u32 x = x.
Proof. apply wrap_small. Qed.

(** [(off + k) mod S] without the division, for one turn at most. *)
Lemma cyc_mod off k S :
  0 <= off < S -> 0 <= k <= S ->
  (off + k) mod S = if off + k <? S then off + k else off + k - S.
Proof.
  intros. case_match; [apply Z.mod_small; lia|].
  rewrite <- (Z.mod_add _ (-1)) by lia. apply Z.mod_small. lia.
Qed.

Lemma mod_range x S : 0 < S -> 0 <= x mod S < S.
Proof. intros. apply Z.mod_pos_bound. lia. Qed.

Lemma shmcb_cyclic_increment_ok S p n :
  0 < S < 2 ^ 32 -> 0 <= p < S -> 0 <= n <= S -> p + n < 2 ^ 32 ->
  shmcb_cyclic_increment S p n = Some ((p + n) mod S).
Proof.
  intros. unfold shmcb_cyclic_increment. rewrite u32_small, cyc_mod by lia.
  case_match eqn:E; simpl.
  - by rewrite Z.geb_leb, (proj2 (Z.leb_gt _ _)) by lia.
  - rewrite Z.geb_leb, (proj2 (Z.leb_le _ _)) by lia. rewrite u32_small by lia.
    destruct (Z.to_nat (p + n)) eqn:En; [lia|]. simpl.
    by rewrite Z.geb_leb, (proj2 (Z.leb_gt _ _)) by lia.
Qed.

(** The loop of [shmcb_cyclic_increment] ends for every start position, and
    reduces it modulo the buffer size. *)
Lemma shmcb_cyclic_increment_total S p n :
  0 < S -> 0 <= p + n < 2 ^ 32 ->
  shmcb_cyclic_increment S p n = Some ((p + n) mod S).
Proof.
  intros HS Hr. unfold shmcb_cyclic_increment. rewrite u32_small by lia.
  edestruct (cloop_total (fun q => 0 <= q < 2 ^ 32 /\ q mod S = (p + n) mod S) Z.to_nat
    (fun q => q = (p + n) mod S)
    (fun q => if q >=? S then Some (inl (u32 (q - S))) else Some (inr q)))
    as (r & Hr' & ->); [| | |exact Hr'].
  - intros q [Hq Hm]. case_match eqn:E; simpl.
    + rewrite u32_small by lia. split; [|lia]. split; [lia|].
      rewrite <- Hm. rewrite <- (Z.mod_add q (-1)) by lia. do 2 f_equal.
    + rewrite <- Hm. symmetry. apply Z.mod_small. lia.
  - done.
  - apply Nat.lt_succ_diag_r.
Qed.

Lemma shmcb_cyclic_space_ok S off k :
  0 < S < 2 ^ 32 -> 0 <= off < S -> 0 <= k < S ->
  shmcb_cyclic_space S off ((off + k) mod S) = k.
Proof.
  intros. unfold shmcb_cyclic_space. rewrite cyc_mod by lia.
  case_match; case_match; rewrite ?(u32_small (S - off)), u32_small by lia; lia.
Qed.

(** The [n] cells of a cyclic array from [off] on ([x0] is never used for a
    position inside the array). *)
Definition cell {A} (x0 : A) (data : list A) (p : Z) : A :=
  nth (Z.to_nat (p mod Z.of_nat (length data))) data x0.

Definition cyc {A} (x0 : A) (data : list A) (off n : Z) : list A :=
  (fun k => cell x0 data (off + Z.of_nat k)) <$> seq 0 (Z.to_nat n).

Section Cyc.
Context {A : Type} (x0 : A).
Implicit Types (data : list A) (off n a b k : Z).

Lemma length_cyc data off n : length (cyc x0 data off n) = Z.to_nat n.
Proof. unfold cyc. by rewrite length_fmap, length_seq. Qed.

Lemma cyc_lookup data off n (k : nat) :
  Z.of_nat k < n -> cyc x0 data off n !! k = Some (cell x0 data (off + Z.of_nat k)).
Proof. intros. unfold cyc. rewrite list_lookup_fmap, lookup_seq_lt by lia. done. Qed.

Lemma cyc_lookup_Z data off n k :
  0 <= k < n -> cyc x0 data off n !! Z.to_nat k = Some (cell x0 data (off + k)).
Proof. intros. rewrite cyc_lookup by lia. by rewrite Z2Nat.id by lia. Qed.

Lemma cyc_ext data data' off off' n :
  (forall k, 0 <= k < n -> cell x0 data (off + k) = cell x0 data' (off' + k)) ->
  cyc x0 data off n = cyc x0 data' off' n.
Proof.
  intros H. apply list_eq. intros k. destruct (decide (Z.of_nat k < n)).
  - rewrite !cyc_lookup by lia. f_equal. apply H. lia.
  - rewrite !lookup_ge_None_2; [done|rewrite length_cyc; lia..].
Qed.

Lemma cell_lookup data p :
  0 < Z.of_nat (length data) ->
  data !! Z.to_nat (p mod Z.of_nat (length data)) = Some (cell x0 data p).
Proof.
  intros. unfold cell. pose proof (mod_range p (Z.of_nat (length data))).
  destruct (lookup_lt_is_Some_2 data (Z.to_nat (p mod Z.of_nat (length data)))) as [x Hx]; [lia|].
  rewrite Hx. f_equal. symmetry. by apply nth_lookup_Some.
Qed.

Lemma cell_mod data p k :
  0 < Z.of_nat (length data) ->
  cell x0 data (p mod Z.of_nat (length data) + k) = cell x0 data (p + k).
Proof. intros. unfold cell. by rewrite Zplus_mod_idemp_l. Qed.

Lemma take_drop_cyc data off n :
  0 <= off -> 0 <= n -> off + n <= Z.of_nat (length data) ->
  take (Z.to_nat n) (drop (Z.to_nat off) data) = cyc x0 data off n.
Proof.
  intros. apply list_eq. intros k. destruct (decide (Z.of_nat k < n)).
  - rewrite lookup_take_lt, lookup_drop, cyc_lookup by lia.
    rewrite <- cell_lookup, Z.mod_small by lia. f_equal. lia.
  - rewrite lookup_take_ge by lia. symmetry. apply lookup_ge_None. rewrite length_cyc. lia.
Qed.

Lemma take_cyc data n :
  0 <= n <= Z.of_nat (length data) -> take (Z.to_nat n) data = cyc x0 data 0 n.
Proof. intros. by rewrite <- (take_drop_cyc data 0 n) by lia. Qed.

(** A start position only counts modulo the size. *)
Lemma cyc_mod_start data off n :
  0 < Z.of_nat (length data) ->
  cyc x0 data (off mod Z.of_nat (length data)) n = cyc x0 data off n.
Proof. intros. apply cyc_ext. intros k _. by apply cell_mod. Qed.

(** Two consecutive pieces of a cyclic block. *)
Lemma cyc_split data off a b :
  0 <= a -> 0 <= b ->
  cyc x0 data off (a + b) = cyc x0 data off a ++ cyc x0 data (off + a) b.
Proof.
  intros. apply list_eq. intros k. destruct (decide (Z.of_nat k < a)).
  - rewrite lookup_app_l by (rewrite length_cyc; lia). by rewrite !cyc_lookup by lia.
  - rewrite lookup_app_r, length_cyc by (rewrite length_cyc; lia).
    destruct (decide (Z.of_nat k < a + b)).
    + rewrite !cyc_lookup by lia. do 2 f_equal. lia.
    + rewrite !lookup_ge_None_2; [done|rewrite length_cyc; lia..].
Qed.

Lemma cyc_drop data off n k :
  0 <= k <= n -> drop (Z.to_nat k) (cyc x0 data off n) = cyc x0 data (off + k) (n - k).
Proof.
  intros. replace n with (k + (n - k)) at 1 by lia. rewrite cyc_split by lia.
  apply drop_app_length'. by rewrite length_cyc.
Qed.

(** Writing the cell after the last one appends; writing a cell of the range
    replaces it. *)
Lemma cell_insert data off k k' x :
  0 < Z.of_nat (length data) -> 0 <= k < Z.of_nat (length data) ->
  0 <= k' < Z.of_nat (length data) ->
  cell x0 (<[Z.to_nat ((off + k) mod Z.of_nat (length data)) := x]> data) (off + k') =
  if decide (k = k') then x else cell x0 data (off + k').
Proof.
  intros. unfold cell. rewrite length_insert. set (L := Z.of_nat (length data)) in *.
  pose proof (mod_range (off + k) L). pose proof (mod_range (off + k') L).
  rewrite !nth_lookup, list_lookup_insert. repeat case_decide; subst; try done; try lia.
  exfalso. assert ((off + k) mod L = (off + k') mod L) as Hm by lia.
  assert ((k - k') mod L = 0) as Hd.
  { replace (k - k') with ((off + k) - (off + k')) by lia. rewrite Zminus_mod, Hm, Z.sub_diag.
    apply Z.mod_0_l. lia. }
  rewrite Z.mod_divide in Hd by lia. destruct Hd as [z Hz].
  assert (z = 0 \/ 1 <= z \/ z <= -1) as [->|[?|?]] by lia; nia.
Qed.

Lemma cyc_insert data off n k x :
  0 <= k < n -> n <= Z.of_nat (length data) ->
  cyc x0 (<[Z.to_nat ((off + k) mod Z.of_nat (length data)) := x]> data) off n =
  <[Z.to_nat k := x]> (cyc x0 data off n).
Proof.
  intros. apply list_eq. intros i. destruct (decide (Z.of_nat i < n)) as [Hi|Hi].
  - rewrite cyc_lookup, cell_insert by lia. case_decide.
    + subst. by rewrite Nat2Z.id, list_lookup_insert_eq by (rewrite length_cyc; lia).
    + by rewrite list_lookup_insert_ne, cyc_lookup by lia.
  - rewrite !lookup_ge_None_2; [done|rewrite ?length_insert, length_cyc; lia..].
Qed.

Lemma cyc_snoc data off n x :
  0 <= n < Z.of_nat (length data) ->
  cyc x0 (<[Z.to_nat ((off + n) mod Z.of_nat (length data)) := x]> data) off (n + 1) =
  cyc x0 data off n ++ [x].
Proof.
  intros. rewrite cyc_insert by lia. rewrite cyc_split by lia.
  rewrite insert_app_r_alt by (rewrite length_cyc; lia). by rewrite length_cyc, Nat.sub_diag.
Qed.
End Cyc.

(** [shmcb_cyclic_cton_memcpy] copies out the cyclic range, wrapping or not. *)
Lemma shmcb_cyclic_cton_memcpy_ok dest data off len :
  let S := Z.of_nat (length data) in
  S < 2 ^ 31 -> 0 <= off < S -> 0 <= len <= S -> length dest = Z.to_nat len ->
  shmcb_cyclic_cton_memcpy S dest data off len = Some (cyc 0 data off len).
Proof.
  intros S ????. unfold shmcb_cyclic_cton_memcpy.
  replace (if len >? S then S else len) with len by (case_match; lia).
  rewrite (u32_small (off + len)) by lia. case_match eqn:E.
  - rewrite mread_ok by lia. simpl. rewrite (take_drop_cyc 0) by lia.
    rewrite mwrite_ok by (rewrite length_cyc; lia). simpl. rewrite drop_ge by (rewrite length_cyc; lia).
    by rewrite app_nil_r.
  - rewrite !u32_small by lia. rewrite !mread_ok by lia. simpl. rewrite drop_0.
    rewrite (take_drop_cyc 0), (take_cyc 0) by lia.
    rewrite mwrite_ok by (rewrite length_cyc; lia). simpl.
    rewrite mwrite_ok by (rewrite length_app, length_drop, !length_cyc; lia).
    rewrite take_app_length', drop_ge by (rewrite ?length_app, ?length_drop, ?length_cyc; lia).
    rewrite app_nil_r.
    assert (cyc 0 data off len = cyc 0 data off (S - off) ++ cyc 0 data 0 (len + off - S)) as ->; [|done].
    replace len with ((S - off) + (len + off - S)) at 1 by lia. rewrite cyc_split by lia.
    f_equal. rewrite <- cyc_mod_start by lia. do 2 f_equal.
    replace (off + (S - off)) with S by lia. by rewrite Z.mod_same by lia.
Qed.

(** [shmcb_cyclic_ntoc_memcpy] writes the cyclic range and nothing else. *)
Lemma shmcb_cyclic_ntoc_memcpy_ok data off src :
  let S := Z.of_nat (length data) in
  let len := Z.of_nat (length src) in
  S < 2 ^ 31 -> 0 <= off < S -> len <= S ->
  exists data', shmcb_cyclic_ntoc_memcpy S data off src len = Some data' /\
    length data' = length data /\
    forall k, 0 <= k < S -> cell 0 data' (off + k) =
      if k <? len then nth (Z.to_nat k) src 0 else cell 0 data (off + k).
Proof.
  intros S len ???. unfold shmcb_cyclic_ntoc_memcpy.
  replace (if len >? S then S else len) with len by (case_match; lia).
  rewrite (u32_small (off + len)) by lia. case_match eqn:E.
  - rewrite mread_ok by lia. simpl. rewrite drop_0, take_ge by lia.
    destruct (mwrite data (Z.to_nat off) src) as [d|] eqn:Hw; [|rewrite mwrite_ok in Hw by lia; done].
    exists d. split; [done|]. split; [by eapply length_mwrite|]. intros k Hk.
    unfold cell. rewrite (length_mwrite _ _ _ _ Hw). fold S. rewrite cyc_mod by lia.
    rewrite !nth_lookup, (mwrite_lookup _ _ _ _ _ Hw).
    destruct (k <? len) eqn:Ek, (off + k <? S) eqn:E2; case_decide; try lia; try done.
    do 2 f_equal. lia.
  - rewrite !u32_small by lia. rewrite !mread_ok by lia. simpl.
    set (b1 := take _ (drop 0 src)). set (b2 := take _ (drop _ src)).
    assert (length b1 = Z.to_nat (S - off)) as Hb1 by (subst b1; rewrite length_take, length_drop; lia).
    destruct (mwrite data (Z.to_nat off) b1) as [d1|] eqn:Hw; [|rewrite mwrite_ok in Hw by lia; done].
    simpl. pose proof (length_mwrite _ _ _ _ Hw) as Hl1.
    assert (length b2 = Z.to_nat (len + off - S)) as Hb2 by (subst b2; rewrite length_take, length_drop; lia).
    destruct (mwrite d1 0 b2) as [d2|] eqn:Hw2; [|rewrite mwrite_ok in Hw2 by lia; done].
    exists d2. split; [done|]. split; [rewrite <- Hl1; by eapply length_mwrite|]. intros k Hk.
    unfold cell. rewrite (length_mwrite _ _ _ _ Hw2), Hl1. fold S. rewrite cyc_mod by lia.
    rewrite !nth_lookup, (mwrite_lookup _ _ _ _ _ Hw2), (mwrite_lookup _ _ _ _ _ Hw).
    subst b1 b2. destruct (k <? len) eqn:Ek, (off + k <? S) eqn:E2; repeat case_decide; try lia; try done;
      rewrite lookup_take_lt, lookup_drop by lia; do 2 f_equal; lia.
Qed.
