(* ===== verification/Shmcb.v ===== *)
(** The divisions of the shared-memory session cache:
    [apps/zcache/src/zcache_shmcb.c].

    A division is a cyclic array of index entries (the queue) and a cyclic block
    of bytes (the cache).  The abstract view of a division is the list of its
    sessions, oldest first; the theorems say that the code's operations are the
    obvious operations on that list. *)
From S2P Require Import Prelude ShmcbCyclic.
Local Open Scope Z_scope.
#[local] Arguments cloop : simpl never.

(** ** Data ([zcache.h]) *)

Record SHMCBStats := Stats {
  num_stores : Z; num_expiries : Z; num_scrolled : Z; num_retrieves_hit : Z;
  num_retrieves_miss : Z; num_removes_hit : Z; num_removes_miss : Z
}.

Record SHMCBHeader := Header {
  stats : SHMCBStats;
  division_offset : Z; division_size : Z; queue_size : Z; cache_data_offset : Z;
  cache_data_size : Z; division_mask : Z; index_num : Z; index_offset : Z; index_size : Z
}.

Record SHMCBIndex := Index {
  expires : Z; offset : Z; idx_length : Z; idx_key : Z; removed : Z
}.

Record SHMCBQueue := Queue { q_first : Z; q_count : Z; indexes : list SHMCBIndex }.
Record SHMCBCache := Cache { c_first : Z; c_count : Z; c_data : list Z }.

Definition set_stats (h : SHMCBHeader) (s : SHMCBStats) : SHMCBHeader :=
  Header s (division_offset h) (division_size h) (queue_size h) (cache_data_offset h)
    (cache_data_size h) (division_mask h) (index_num h) (index_offset h) (index_size h).

Definition add_expiries (h : SHMCBHeader) (n : Z) : SHMCBHeader :=
  let s := stats h in
  set_stats h (Stats (num_stores s) (u64 (num_expiries s + n)) (num_scrolled s)
    (num_retrieves_hit s) (num_retrieves_miss s) (num_removes_hit s) (num_removes_miss s)).

Definition add_scrolled (h : SHMCBHeader) (n : Z) : SHMCBHeader :=
  let s := stats h in
  set_stats h (Stats (num_stores s) (num_expiries s) (u64 (num_scrolled s + n))
    (num_retrieves_hit s) (num_retrieves_miss s) (num_removes_hit s) (num_removes_miss s)).

(** The state an operation on a division works on. *)
Record dstate := DState { dh : SHMCBHeader; dq : SHMCBQueue; dc : SHMCBCache }.

(** ** Operations on a division *)

(** [None] is the [NULL] the function returns past its (inclusive) bound. *)
Definition shmcb_get_index (h : SHMCBHeader) (idx : Z) : option nat :=
  if idx >? index_num h then None else Some (Z.to_nat idx).

(** Dereferencing the result of [shmcb_get_index]. *)
Definition index_at (h : SHMCBHeader) (q : SHMCBQueue) (idx : Z) : option SHMCBIndex :=
  p ← shmcb_get_index h idx; aread (indexes q) p.

Definition expire_turn (h : SHMCBHeader) (q : SHMCBQueue) (now pos_count : Z) (s : Z * Z)
    : option ((Z * Z) + (Z * Z)) :=
  let '(loop, new_pos) := s in
  if loop <? pos_count then
    idx ← index_at h q new_pos;
    if expires idx >? now then Some (inr (loop, new_pos))
    else
      new_pos ← shmcb_cyclic_increment (index_num h) new_pos 1;
      Some (inl (u32 (loop + 1), new_pos))
  else Some (inr (loop, new_pos)).

(** [now] is what [time(NULL)] returned. *)
Definition shmcb_expire_division (now : Z) (d : dstate) : option (Z * dstate) :=
  let '(DState h q c) := d in
  let pos_count := q_count q in
  '(loop, new_pos) ← cloop (S (Z.to_nat pos_count)) (expire_turn h q now pos_count) (0, q_first q);
  '(q, c) ←
    (if loop >? 0 then
       if loop =? pos_count then
         Some (Queue (q_first q) 0 (indexes q), Cache (c_first c) 0 (c_data c))
       else
         idx ← index_at h q new_pos;
         Some (Queue new_pos (u32 (q_count q - loop)) (indexes q),
               Cache (offset idx)
                 (u32 (c_count c - shmcb_cyclic_space (cache_data_size h) (c_first c) (offset idx)))
                 (c_data c))
     else Some (q, c));
  Some (loop, DState (add_expiries h loop) q c).

(** The scrolling loop of [shmcb_insert_internal]; the state is [need],
    [new_pos], [loop] and [idx]. *)
Definition scroll_turn (h : SHMCBHeader) (q : SHMCBQueue) (c : SHMCBCache) (nlen gap : Z)
    (s : Z * Z * Z * option SHMCBIndex) : option ((Z * Z * Z * option SHMCBIndex) + (Z * Z * option SHMCBIndex)) :=
  let '(need, new_pos, loop, idx) := s in
  if (need >? 0) && (u32 (loop + 1) <? q_count q) then
    new_pos ← shmcb_cyclic_increment (index_num h) new_pos 1;
    idx ← index_at h q new_pos;
    let need := s32 (s32 nlen - s32 gap -
                  shmcb_cyclic_space (cache_data_size h) (c_first c) (offset idx)) in
    Some (inl (need, new_pos, u32 (loop + 1), Some idx))
  else Some (inr (new_pos, loop, idx)).

Definition scroll (d : dstate) (nlen gap : Z) : option dstate :=
  let '(DState h q c) := d in
  '(new_pos, loop, idx) ←
    cloop (S (Z.to_nat (q_count q))) (scroll_turn h q c nlen gap)
      (s32 (s32 nlen - s32 gap), q_first q, 0, None);
  if loop >? 0 then
    idx ← idx;
    Some (DState (add_scrolled h loop)
      (Queue new_pos (u32 (q_count q - loop)) (indexes q))
      (Cache (offset idx)
         (u32 (c_count c - shmcb_cyclic_space (cache_data_size h) (c_first c) (offset idx)))
         (c_data c)))
  else Some d.

Definition shmcb_insert_internal (now : Z) (d : dstate) (id pdata : list Z) (nlen expiry_time : Z)
    : option (bool * dstate) :=
  '(_, d) ← shmcb_expire_division now d;
  let gap := u32 (cache_data_size (dh d) - c_count (dc d)) in
  d ← (if gap <? nlen then scroll d nlen gap else Some d);
  let '(DState h q c) := d in
  if u32 (c_count c + nlen) >? cache_data_size h then Some (false, d)
  else if q_count q =? index_num h then Some (false, d)
  else
    new_offset ← shmcb_cyclic_increment (cache_data_size h) (c_first c) (c_count c);
    data ← shmcb_cyclic_ntoc_memcpy (cache_data_size h) (c_data c) new_offset pdata nlen;
    new_pos ← shmcb_cyclic_increment (index_num h) (q_first q) (q_count q);
    match shmcb_get_index h new_pos with
    | None => Some (false, DState h q (Cache (c_first c) (c_count c) data))
    | Some p =>
        idxs ← awrite (indexes q) p (Index expiry_time new_offset nlen (hash id 0) 0);
        Some (true, DState h (Queue (q_first q) (u32 (q_count q + 1)) idxs)
                             (Cache (c_first c) (u32 (c_count c + nlen)) data))
    end.

(** The result of a lookup: the returned pointer ([None] for [NULL]) with the
    bytes behind it, and what was stored through [len]. *)
Record lookup_result := Found { r_data : option (list Z); r_len : option Z }.

Definition lookup_turn (alloc : Z -> option (list Z)) (now : Z) (h : SHMCBHeader)
    (q : SHMCBQueue) (c : SHMCBCache) (key : Z) (s : Z * Z) : option ((Z * Z) + lookup_result) :=
  let '(loop, curr_pos) := s in
  if loop <? q_count q then
    idx ← index_at h q curr_pos;
    if (idx_key idx =? key) && (removed idx =? 0) && (expires idx >? now) then
      match alloc (idx_length idx) with
      | None => Some (inr (Found None (Some (idx_length idx))))
      | Some block =>
          pdata ← shmcb_cyclic_cton_memcpy (cache_data_size h) block (c_data c)
                    (offset idx) (idx_length idx);
          Some (inr (Found (Some pdata) (Some (idx_length idx))))
      end
    else
      curr_pos ← shmcb_cyclic_increment (index_num h) curr_pos 1;
      Some (inl (u32 (loop + 1), curr_pos))
  else Some (inr (Found None None)).

(** [now] and [now'] are the two calls of [time(NULL)]; [alloc] is [malloc]. *)
Definition shmcb_lookup_internal (alloc : Z -> option (list Z)) (now now' : Z) (d : dstate)
    (id : list Z) : option (lookup_result * dstate) :=
  '(_, d) ← shmcb_expire_division now d;
  let '(DState h q c) := d in
  r ← cloop (S (Z.to_nat (q_count q))) (lookup_turn alloc now' h q c (hash id 0)) (0, q_first q);
  Some (r, d).

Definition remove_turn (h : SHMCBHeader) (q : SHMCBQueue) (key : Z) (s : Z * Z)
    : option ((Z * Z) + option SHMCBQueue) :=
  let '(loop, curr_pos) := s in
  if loop <? q_count q then
    p ← shmcb_get_index h curr_pos;
    idx ← aread (indexes q) p;
    if idx_key idx =? key then
      idxs ← awrite (indexes q) p
        (Index (expires idx) (offset idx) (idx_length idx) (idx_key idx) 1);
      Some (inr (Some (Queue (q_first q) (q_count q) idxs)))
    else
      curr_pos ← shmcb_cyclic_increment (index_num h) curr_pos 1;
      Some (inl (u32 (loop + 1), curr_pos))
  else Some (inr None).

Definition shmcb_remove_internal (now : Z) (d : dstate) (id : list Z) : option (bool * dstate) :=
  let '(DState h q c) := d in
  r ← cloop (S (Z.to_nat (q_count q))) (remove_turn h q (hash id 0)) (0, q_first q);
  match r with
  | Some q => Some (true, DState h q c)
  | None => '(_, d) ← shmcb_expire_division now d; Some (false, d)
  end.

(** ** The abstract view *)

Record session := Session { s_key : Z; s_expires : Z; s_removed : Z; s_data : list Z }.

Definition index0 : SHMCBIndex := Index 0 0 0 0 0.

(** The index entries in use, oldest first. *)
Definition live (q : SHMCBQueue) : list SHMCBIndex := cyc index0 (indexes q) (q_first q) (q_count q).

Definition session_of (data : list Z) (e : SHMCBIndex) : session :=
  Session (idx_key e) (expires e) (removed e) (cyc 0 data (offset e) (idx_length e)).

Definition sessions (d : dstate) : list session := session_of (c_data (dc d)) <$> live (dq d).

Definition used (l : list SHMCBIndex) : Z := foldr (fun e n => idx_length e + n) 0 l.

Definition size (l : list session) : Z := foldr (fun s n => Z.of_nat (length (s_data s)) + n) 0 l.

(** Expiry drops the leading expired sessions only. *)
Fixpoint expire_list (now : Z) (l : list session) : list session :=
  match l with
  | [] => []
  | s :: l' => if s_expires s >? now then l else expire_list now l'
  end.

(** Scrolling drops leading sessions, but never the last one, until [need]
    bytes fit. *)
Fixpoint scroll_list (room need : Z) (l : list session) : list session :=
  match l with
  | [] => []
  | s :: l' =>
      match l' with
      | [] => l
      | _ => if size l + need >? room then scroll_list room need l' else l
      end
  end.

(** ** Invariant *)

(** The sessions lie one after the other in the data block. *)
Fixpoint chain (S off : Z) (l : list SHMCBIndex) : Prop :=
  match l with
  | [] => True
  | e :: l => offset e = off mod S /\ 0 < idx_length e /\ chain S (off + idx_length e) l
  end.

Definition dims (h : SHMCBHeader) (q : SHMCBQueue) (c : SHMCBCache) : Prop :=
  0 < index_num h < 2 ^ 31 /\ 0 < cache_data_size h < 2 ^ 31 /\
  Z.of_nat (length (indexes q)) = index_num h /\ Z.of_nat (length (c_data c)) = cache_data_size h.

Definition dwf (d : dstate) : Prop :=
  let '(DState h q c) := d in
  dims h q c /\
  0 <= q_first q < index_num h /\ 0 <= q_count q <= index_num h /\
  0 <= c_first c < cache_data_size h /\ c_count c <= cache_data_size h /\
  chain (cache_data_size h) (c_first c) (live q) /\ c_count c = used (live q).

(** The layout part of the header never changes. *)
Definition same_layout (h h' : SHMCBHeader) : Prop :=
  set_stats h (stats h') = h'.

#[export] Instance same_layout_preorder : PreOrder same_layout.
Proof.
  split; [by intros []|]. intros [] [] []. unfold same_layout, set_stats; simpl.
  intros [= -> -> -> -> -> -> -> -> ->] [= -> -> -> -> -> -> -> -> ->]. done.
Qed.

Lemma used_app l1 l2 : used (l1 ++ l2) = used l1 + used l2.
Proof. induction l1 as [|e l1 IH]; simpl; lia. Qed.

Lemma chain_app S off l1 l2 :
  chain S off (l1 ++ l2) <-> chain S off l1 /\ chain S (off + used l1) l2.
Proof.
  revert off. induction l1 as [|e l1 IH]; intros off; simpl; [by rewrite Z.add_0_r; tauto|].
  rewrite IH, Z.add_assoc. tauto.
Qed.

Lemma chain_mod S off l : 0 < S -> chain S (off mod S) l <-> chain S off l.
Proof.
  intros HS. revert off. induction l as [|e l IH]; intros off; simpl; [done|].
  rewrite Z.mod_mod by lia. rewrite <- (IH (off mod S + _)), <- (IH (off + _)).
  by rewrite Zplus_mod_idemp_l.
Qed.

Lemma chain_used S off l : chain S off l -> Z.of_nat (length l) <= used l.
Proof.
  revert off. induction l as [|e l IH]; intros off; simpl; [lia|].
  intros (_ & ? & ?%IH). lia.
Qed.

Lemma length_live q : 0 <= q_count q -> length (live q) = Z.to_nat (q_count q).
Proof. intros. apply length_cyc. Qed.

Lemma live_index q k :
  0 <= k < q_count q ->
  live q !! Z.to_nat k = Some (cell index0 (indexes q) (q_first q + k)).
Proof. intros. by apply cyc_lookup_Z. Qed.

Lemma index_at_ok h q p :
  0 < index_num h -> Z.of_nat (length (indexes q)) = index_num h ->
  index_at h q (p mod index_num h) = Some (cell index0 (indexes q) p).
Proof.
  intros HN Hl. unfold index_at, shmcb_get_index, aread. pose proof (mod_range p (index_num h) HN).
  rewrite Z.gtb_ltb, (proj2 (Z.ltb_ge _ _)) by lia. simpl. rewrite <- Hl at 1. apply cell_lookup. lia.
Qed.

(** ** Dropping the front of a division

    The common step of expiry and of scrolling. *)

Definition drop_front (k : Z) (e : SHMCBIndex) (d : dstate) : dstate :=
  let '(DState h q c) := d in
  DState h (Queue ((q_first q + k) mod index_num h) (u32 (q_count q - k)) (indexes q))
    (Cache (offset e)
       (u32 (c_count c - shmcb_cyclic_space (cache_data_size h) (c_first c) (offset e))) (c_data c)).

Lemma drop_front_ok k e d :
  dwf d -> 0 < k < q_count (dq d) -> live (dq d) !! Z.to_nat k = Some e ->
  dwf (drop_front k e d) /\ sessions (drop_front k e d) = drop (Z.to_nat k) (sessions d) /\
  live (dq (drop_front k e d)) = drop (Z.to_nat k) (live (dq d)).
Proof.
  destruct d as [h q c]. intros (Hdim & Hf & Hc & Hcf & Hcc & Hch & Hu) Hk He. simpl in *.
  destruct Hdim as (HN & HS & Hli & Hld). set (N := index_num h) in *. set (S := cache_data_size h) in *.
  assert (live q = take (Z.to_nat k) (live q) ++ e :: drop (Datatypes.S (Z.to_nat k)) (live q)) as Hsplit.
  { symmetry. by apply take_drop_middle. }
  pose proof Hch as Hch0. rewrite Hsplit, chain_app in Hch0. simpl in Hch0.
  destruct Hch0 as (Hch1 & Heo & Hel & Hch2).
  set (s := used (take (Z.to_nat k) (live q))) in *.
  pose proof (chain_used _ _ _ Hch1) as Hs0. pose proof (chain_used _ _ _ Hch2) as Hs2.
  assert (used (live q) = s + (idx_length e + used (drop (Datatypes.S (Z.to_nat k)) (live q)))) as Hus.
  { rewrite Hsplit at 1. by rewrite used_app. }
  assert (shmcb_cyclic_space S (c_first c) (offset e) = s) as Hsp.
  { rewrite Heo. apply shmcb_cyclic_space_ok; lia. }
  rewrite Hsp. rewrite !u32_small by lia.
  assert (cyc index0 (indexes q) ((q_first q + k) mod N) (q_count q - k) = drop (Z.to_nat k) (live q)) as Hl.
  { unfold live. rewrite cyc_drop by lia. rewrite <- Hli. apply cyc_mod_start. lia. }
  assert (drop (Z.to_nat k) (live q) = e :: drop (Datatypes.S (Z.to_nat k)) (live q)) as Hde
    by (by apply drop_S).
  split; [|split; [unfold sessions; simpl; unfold live at 1; simpl; by rewrite Hl, fmap_drop|]].
  2:{ unfold live at 1. simpl. done. }
  split; [exact (conj HN (conj HS (conj Hli Hld)))|]. simpl. unfold live; simpl. fold N S. rewrite Hl.
  pose proof (mod_range (q_first q + k) N). pose proof (mod_range (c_first c + s) S).
  split_and!; [lia..|rewrite Heo, chain_mod, Hde by lia; by simpl|rewrite Hde; simpl; lia].
Qed.

(** All sessions dropped at once. *)
Lemma drop_all_ok d h' :
  dwf d -> same_layout (dh d) h' ->
  let d' := DState h' (Queue (q_first (dq d)) 0 (indexes (dq d)))
                      (Cache (c_first (dc d)) 0 (c_data (dc d))) in
  dwf d' /\ sessions d' = [].
Proof.
  destruct d as [h q c]. unfold same_layout. simpl. intros (Hdim & Hf & Hc & Hcf & Hcc & _) <-.
  split; [|done]. split; [done|]. simpl. split_and!; done || lia.
Qed.

Lemma dwf_stats h h' q c : dwf (DState h q c) -> same_layout h h' -> dwf (DState h' q c).
Proof. unfold same_layout. by intros H <-. Qed.

(** ** Expiry *)

Lemma expire_list_drop now l k :
  Forall (fun s => s_expires s <= now) (take k l) ->
  (forall s, l !! k = Some s -> now < s_expires s) ->
  expire_list now l = drop k l.
Proof.
  revert l. induction k as [|k IH]; intros [|s l] Hf Hk; try done.
  - simpl. specialize (Hk s eq_refl). case_match; [done|lia].
  - simpl in *. apply Forall_cons in Hf as [? ?]. case_match; [lia|]. by apply IH.
Qed.

(** A position of the queue after [loop] steps. *)
Lemma next_pos h q loop :
  0 < index_num h < 2 ^ 31 ->
  shmcb_cyclic_increment (index_num h) ((q_first q + loop) mod index_num h) 1 =
    Some ((q_first q + (loop + 1)) mod index_num h).
Proof.
  intros HN. pose proof (mod_range (q_first q + loop) (index_num h)).
  rewrite shmcb_cyclic_increment_ok by lia. by rewrite Zplus_mod_idemp_l, Z.add_assoc.
Qed.

Definition expire_inv (q : SHMCBQueue) (N now : Z) (s : Z * Z) : Prop :=
  0 <= s.1 <= q_count q /\ s.2 = (q_first q + s.1) mod N /\
  Forall (fun e => expires e <= now) (take (Z.to_nat s.1) (live q)).

Definition expire_post (q : SHMCBQueue) (N now : Z) (s : Z * Z) : Prop :=
  expire_inv q N now s /\ (forall e, live q !! Z.to_nat s.1 = Some e -> now < expires e).

Lemma expire_loop_ok now d :
  dwf d ->
  exists s, cloop (S (Z.to_nat (q_count (dq d))))
      (expire_turn (dh d) (dq d) now (q_count (dq d))) (0, q_first (dq d)) = Some s /\
    expire_post (dq d) (index_num (dh d)) now s.
Proof.
  destruct d as [h q c]. intros ((HN & HS & Hli & Hld) & Hf & Hc & _). simpl.
  apply (cloop_total (expire_inv q (index_num h) now) (fun s => Z.to_nat (q_count q - s.1))).
  - intros [loop p] (Hl & Hp & Hall). simpl in *. subst p. unfold expire_turn.
    destruct (loop <? q_count q) eqn:E.
    2:{ simpl. split; [done|]. intros e He. apply lookup_lt_Some in He.
        rewrite length_live in He by lia. simpl in He. lia. }
    rewrite index_at_ok by lia. simpl. pose proof (live_index q loop ltac:(lia)) as Hlk.
    case_match eqn:Ee.
    + simpl. split; [done|]. simpl. rewrite Hlk. intros e [= <-]. lia.
    + rewrite next_pos by lia. simpl. rewrite u32_small by lia.
      split; [|lia]. split_and!; simpl; [lia..|done|].
      replace (Z.to_nat (loop + 1)) with (Datatypes.S (Z.to_nat loop)) by lia.
      erewrite take_S_r by exact Hlk. apply Forall_app. split; [done|]. constructor; [lia|done].
  - split_and!; simpl; [lia..| |constructor]. rewrite Z.add_0_r. symmetry. by apply Z.mod_small.
  - simpl. lia.
Qed.

Lemma sessions_lookup d (k : nat) :
  sessions d !! k = session_of (c_data (dc d)) <$> live (dq d) !! k.
Proof. apply list_lookup_fmap. Qed.

Lemma length_sessions d : 0 <= q_count (dq d) -> length (sessions d) = Z.to_nat (q_count (dq d)).
Proof. intros. unfold sessions. by rewrite length_fmap, length_live. Qed.

Lemma add_expiries_layout h n : same_layout h (add_expiries h n).
Proof. done. Qed.

Lemma shmcb_expire_division_ok now d :
  dwf d ->
  exists n d', shmcb_expire_division now d = Some (n, d') /\ dwf d' /\
    same_layout (dh d) (dh d') /\ sessions d' = expire_list now (sessions d) /\
    n = Z.of_nat (length (sessions d) - length (sessions d')).
Proof.
  intros Hw. destruct (expire_loop_ok now d Hw) as ([loop p] & Hloop & (Hl & Hp & Hall) & Hnext).
  destruct d as [h q c]. pose proof Hw as (Hdim & Hf & Hc & _). simpl in *. subst p.
  assert (sessions (DState h q c) !! Z.to_nat loop =
            session_of (c_data c) <$> live q !! Z.to_nat loop) as Hlk by apply sessions_lookup.
  assert (expire_list now (sessions (DState h q c)) =
            drop (Z.to_nat loop) (sessions (DState h q c))) as Hex.
  { apply expire_list_drop.
    - unfold sessions. rewrite <- fmap_take. apply Forall_fmap. done.
    - intros s. rewrite Hlk. destruct (live q !! Z.to_nat loop) eqn:E; [|done].
      intros [= <-]. simpl. by apply Hnext. }
  pose proof (length_sessions (DState h q c) ltac:(simpl; lia)) as Hlen. simpl in Hlen.
  unfold shmcb_expire_division. rewrite Hloop. simpl.
  destruct (loop >? 0) eqn:E0; [destruct (loop =? q_count q) eqn:E1|]; simpl.
  - destruct (drop_all_ok (DState h q c) (add_expiries h loop) Hw (add_expiries_layout _ _)) as [Hw' Hs'].
    simpl in Hw', Hs'. eexists _, _. split; [done|]. split; [done|]. split; [done|].
    rewrite Hs', Hex, drop_ge, Hlen by lia. simpl. split; [done|lia].
  - assert (live q !! Z.to_nat loop = Some (cell index0 (indexes q) (q_first q + loop))) as Hlv
      by (apply live_index; lia).
    destruct Hdim as (HN & HS & Hli & Hld). rewrite index_at_ok by lia. simpl.
    destruct (drop_front_ok loop _ (DState h q c) Hw ltac:(simpl; lia) Hlv) as (Hw' & Hs' & _).
    eexists _, _. split; [done|]. split; [by eapply dwf_stats|]. split; [done|].
    rewrite Hex. split; [exact Hs'|].
    assert (length (sessions (drop_front loop (cell index0 (indexes q) (q_first q + loop)) (DState h q c))) =
      (length (sessions (DState h q c)) - Z.to_nat loop)%nat) as Hl' by by rewrite Hs', length_drop.
    change (sessions (DState (add_expiries h loop) _ _)) with
      (sessions (drop_front loop (cell index0 (indexes q) (q_first q + loop)) (DState h q c))).
    rewrite Hl', Hlen. lia.
  - assert (loop = 0) as -> by lia. eexists _, _. split; [done|].
    split; [by eapply dwf_stats|]. split; [done|]. rewrite Hex, drop_0.
    split; [done|]. change (sessions (DState (add_expiries h 0) q c)) with (sessions (DState h q c)). lia.
Qed.

(** ** Scrolling *)

Lemma used_take_drop k l : used (take k l) + used (drop k l) = used l.
Proof. by rewrite <- used_app, take_drop. Qed.

(** The number of bytes in front of the [k]-th session. *)
Lemma space_front h q c k e :
  dwf (DState h q c) -> live q !! k = Some e ->
  shmcb_cyclic_space (cache_data_size h) (c_first c) (offset e) = used (take k (live q)) /\
  0 <= used (take k (live q)) /\ 0 < used (drop k (live q)).
Proof.
  intros ((HN & HS & _) & _ & _ & Hcf & Hcc & Hch & Hu) He.
  pose proof (used_take_drop k (live q)) as Htd.
  rewrite <- (take_drop k (live q)), (drop_S _ _ _ He), chain_app in Hch.
  destruct Hch as (Hch1 & Ho & Hl & Hch2). rewrite (drop_S _ _ _ He) in *. simpl in *.
  pose proof (chain_used _ _ _ Hch1). pose proof (chain_used _ _ _ Hch2).
  split; [|lia]. rewrite Ho. apply shmcb_cyclic_space_ok; lia.
Qed.

Lemma scroll_list_drop room need l k :
  (k <= length l)%nat ->
  (forall j, (j < k)%nat -> (j + 1 < length l)%nat /\ size (drop j l) + need > room) ->
  (length l <= k + 1)%nat \/ size (drop k l) + need <= room ->
  scroll_list room need l = drop k l.
Proof.
  revert l. induction k as [|k IH]; intros [|s l] Hk Hj He; simpl in Hk; try done || lia.
  - cbn [scroll_list drop]. destruct l as [|s' l]; [done|].
    destruct (_ >? _) eqn:E; [|done]. destruct He as [He|He]; [simpl in He; lia|].
    rewrite drop_0 in He. lia.
  - cbn [scroll_list drop]. pose proof (Hj 0%nat ltac:(lia)) as [H0 H1]. rewrite drop_0 in H1.
    destruct l as [|s' l]; [simpl in H0; lia|]. destruct (_ >? _) eqn:E; [|lia].
    apply IH; [simpl in *; lia| |].
    + intros j Hlt. pose proof (Hj (Datatypes.S j) ltac:(lia)) as Hjj. simpl in *. split; lia || apply Hjj.
    + destruct He as [He|He]; [left; simpl in *; lia|by right].
Qed.

Lemma size_sessions data l S off :
  chain S off l -> size (session_of data <$> l) = used l.
Proof.
  revert off. induction l as [|e l IH]; intros off; [done|]. intros (_ & Hl & Hc).
  rewrite fmap_cons. change (size (?s :: ?l)) with (Z.of_nat (length (s_data s)) + size l).
  rewrite (IH _ Hc). simpl. rewrite length_cyc. lia.
Qed.

Lemma chain_drop S off k l : chain S off l -> chain S (off + used (take k l)) (drop k l).
Proof. intros H. rewrite <- (take_drop k l), chain_app in H. by apply H. Qed.

Definition scroll_inv (h : SHMCBHeader) (q : SHMCBQueue) (nlen : Z)
    (s : Z * Z * Z * option SHMCBIndex) : Prop :=
  let '(need, new_pos, loop, idx) := s in
  let l := live q in
  0 <= loop /\ (0 < loop -> loop < q_count q /\ idx = l !! Z.to_nat loop) /\
  new_pos = (q_first q + loop) mod index_num h /\
  need = nlen + used (drop (Z.to_nat loop) l) - cache_data_size h /\
  (forall j : nat, Z.of_nat j < loop ->
     Z.of_nat j + 1 < q_count q /\ used (drop j l) + nlen > cache_data_size h).

Definition scroll_post (h : SHMCBHeader) (q : SHMCBQueue) (nlen : Z)
    (r : Z * Z * option SHMCBIndex) : Prop :=
  let '(new_pos, loop, idx) := r in
  exists need, scroll_inv h q nlen (need, new_pos, loop, idx) /\ (need <= 0 \/ q_count q <= loop + 1).

Lemma scroll_loop_ok h q c nlen :
  dwf (DState h q c) -> cache_data_size h - c_count c < nlen < 2 ^ 31 ->
  let gap := cache_data_size h - c_count c in
  exists r, cloop (S (Z.to_nat (q_count q))) (scroll_turn h q c nlen gap)
      (s32 (s32 nlen - s32 gap), q_first q, 0, None) = Some r /\ scroll_post h q nlen r.
Proof.
  intros Hw Hn gap. pose proof Hw as (Hdim & Hf & Hc & Hcf & Hcc & Hch & Hu).
  destruct Hdim as (HN & HS & Hli & Hld). pose proof (chain_used _ _ _ Hch) as Hu0.
  assert (0 <= gap < 2 ^ 31) as Hg by lia.
  rewrite (swrap_small 32 nlen), (swrap_small 32 gap), (swrap_small 32 (nlen - gap)) by lia.
  apply (cloop_total (scroll_inv h q nlen) (fun s => Z.to_nat (q_count q - s.1.2))).
  - intros [[[need p] loop] idx] Hinv. pose proof Hinv as (Hl & Hlc & Hp & Hne & Hj). unfold scroll_turn.
    destruct (need >? 0) eqn:E1; [|simpl; exists need; split; [done|lia]].
    destruct (decide (loop < q_count q)) as [Hlt|Hge].
    2:{ assert (loop = 0) as -> by (destruct (decide (0 < loop)); [destruct Hlc; lia|lia]).
        rewrite u32_small by lia. rewrite (proj2 (Z.ltb_ge _ _)) by lia. simpl.
        exists need. split; [done|lia]. }
    rewrite u32_small by lia. destruct (loop + 1 <? q_count q) eqn:E2; simpl.
    2:{ exists need. split; [done|lia]. }
    rewrite Hp, next_pos by lia. simpl. rewrite index_at_ok by lia. simpl.
    pose proof (live_index q (loop + 1) ltac:(lia)) as Hlk.
    destruct (space_front _ _ _ _ _ Hw Hlk) as (Hsp & Hsp0 & Hsp1).
    pose proof (used_take_drop (Z.to_nat (loop + 1)) (live q)) as Htd.
    rewrite (swrap_small 32 nlen), (swrap_small 32 gap), Hsp by lia.
    rewrite swrap_small by lia. split; [|lia].
    split_and!; [lia|intros _; split; [lia|by rewrite Hlk]|done|lia|].
    intros j Hjl. destruct (decide (Z.of_nat j < loop)); [by apply Hj|].
    replace j with (Z.to_nat loop) by lia. split; lia.
  - split_and!; [lia|lia|rewrite Z.add_0_r; symmetry; by apply Z.mod_small|rewrite drop_0; lia|].
    intros j; lia.
  - simpl. lia.
Qed.

Lemma scroll_ok d nlen :
  dwf d -> cache_data_size (dh d) - c_count (dc d) < nlen < 2 ^ 31 ->
  exists d', scroll d nlen (cache_data_size (dh d) - c_count (dc d)) = Some d' /\ dwf d' /\
    same_layout (dh d) (dh d') /\
    sessions d' = scroll_list (cache_data_size (dh d)) nlen (sessions d).
Proof.
  destruct d as [h q c]. intros Hw Hn. cbn [dh dq dc] in *.
  destruct (scroll_loop_ok h q c nlen Hw Hn) as ([[p loop] idx] & Hloop & need & Hinv & Hend).
  destruct Hinv as (Hl & Hlc & -> & Hne & Hj).
  pose proof Hw as (Hdim & Hf & Hc & Hcf & Hcc & Hch & Hu). pose proof Hdim as (HN & HS & Hli & Hld).
  pose proof (length_sessions (DState h q c) ltac:(simpl; lia)) as Hlen. cbn [dq] in Hlen.
  assert (forall j, size (drop j (sessions (DState h q c))) = used (drop j (live q))) as Hsz.
  { intros j. unfold sessions. rewrite <- fmap_drop. eapply size_sessions, chain_drop, Hch. }
  assert (scroll_list (cache_data_size h) nlen (sessions (DState h q c)) =
            drop (Z.to_nat loop) (sessions (DState h q c))) as Hsl.
  { apply scroll_list_drop; rewrite ?Hlen.
    - destruct (decide (0 < loop)); [destruct Hlc; lia|lia].
    - intros j Hjl. rewrite Hsz. destruct (Hj j ltac:(lia)). lia.
    - rewrite Hsz. lia. }
  unfold scroll. rewrite Hloop, Hsl. cbn -[drop_front]. destruct (loop >? 0) eqn:E.
  - destruct Hlc as [Hlc ->]; [lia|]. rewrite live_index by lia. cbn.
    destruct (drop_front_ok loop _ (DState h q c) Hw ltac:(simpl; lia) (live_index q loop ltac:(lia)))
      as (Hw' & Hs' & _).
    eexists. split; [done|]. split; [by eapply dwf_stats|]. split; [done|]. exact Hs'.
  - assert (loop = 0) as -> by lia. exists (DState h q c). by rewrite drop_0.
Qed.

(** ** Insertion *)

(** What an insertion does to the list of sessions of a division with [room]
    data bytes and [slots] index entries. *)
Definition insert_list (now room slots : Z) (new : session) (l : list session) : bool * list session :=
  let n := Z.of_nat (length (s_data new)) in
  let l := expire_list now l in
  let l := if room - size l <? n then scroll_list room n l else l in
  if (size l + n >? room) || (Z.of_nat (length l) =? slots) then (false, l) else (true, l ++ [new]).

(** The sessions whose bytes lie in front of the first free byte keep their
    contents when the free area is overwritten. *)
Lemma session_of_ext data data' l S first :
  length data' = length data -> Z.of_nat (length data) = S -> 0 < S -> chain S first l ->
  (forall k, 0 <= k < used l -> cell 0 data' (first + k) = cell 0 data (first + k)) ->
  session_of data' <$> l = session_of data <$> l.
Proof.
  intros Hld HS HS0. revert first. induction l as [|e l IH]; intros first; [done|].
  intros (Ho & Hel & Hch) Hk. simpl in Hk. pose proof (chain_used _ _ _ Hch).
  rewrite !fmap_cons. f_equal.
  - unfold session_of. f_equal. apply cyc_ext. intros k Hkl. rewrite Ho, <- HS.
    rewrite <- Hld at 1. rewrite !cell_mod by lia. apply Hk. lia.
  - apply (IH (first + idx_length e)); [done|]. intros k Hkl.
    rewrite <- !Z.add_assoc. apply Hk. lia.
Qed.

(** Appending a session to a division with room for it. *)
Lemma append_ok h q c id pdata nlen expiry :
  dwf (DState h q c) -> 0 < nlen -> Z.of_nat (length pdata) = nlen ->
  c_count c + nlen <= cache_data_size h -> q_count q < index_num h ->
  exists off data p idxs,
    shmcb_cyclic_increment (cache_data_size h) (c_first c) (c_count c) = Some off /\
    shmcb_cyclic_ntoc_memcpy (cache_data_size h) (c_data c) off pdata nlen = Some data /\
    shmcb_cyclic_increment (index_num h) (q_first q) (q_count q) = Some p /\
    shmcb_get_index h p = Some (Z.to_nat p) /\
    awrite (indexes q) (Z.to_nat p) (Index expiry off nlen (hash id 0) 0) = Some idxs /\
    let d' := DState h (Queue (q_first q) (u32 (q_count q + 1)) idxs)
                       (Cache (c_first c) (u32 (c_count c + nlen)) data) in
    dwf d' /\
    sessions d' = sessions (DState h q c) ++ [Session (hash id 0) expiry 0 pdata].
Proof.
  intros Hw Hn0 Hn Hroom Hslot. pose proof Hw as ((HN & HS & Hli & Hld) & Hf & Hc & Hcf & Hcc & Hch & Hu).
  pose proof (chain_used _ _ _ Hch) as Hu0. set (off := (c_first c + c_count c) mod cache_data_size h).
  pose proof (mod_range (c_first c + c_count c) (cache_data_size h)).
  pose proof (mod_range (q_first q + q_count q) (index_num h)).
  destruct (shmcb_cyclic_ntoc_memcpy_ok (c_data c) off pdata) as (data & Hcopy & Hdl & Hcell);
    rewrite ?Hld, ?Hn in *; [lia..|]. set (new := Index expiry off nlen (hash id 0) 0).
  assert (forall k, 0 <= k < cache_data_size h -> cell 0 data (off + k) =
    if k <? nlen then nth (Z.to_nat k) pdata 0 else cell 0 (c_data c) (off + k)) as Hcell'
    by (intros; by apply Hcell).
  exists off, data, ((q_first q + q_count q) mod index_num h),
    (<[Z.to_nat ((q_first q + q_count q) mod index_num h) := new]> (indexes q)).
  rewrite shmcb_cyclic_increment_ok, shmcb_cyclic_increment_ok, awrite_ok by lia.
  rewrite !u32_small by lia. split_and!; try done.
  { unfold shmcb_get_index. by rewrite Z.gtb_ltb, (proj2 (Z.ltb_ge _ _)) by lia. }
  assert (live (Queue (q_first q) (q_count q + 1)
    (<[Z.to_nat ((q_first q + q_count q) mod index_num h) := new]> (indexes q))) = live q ++ [new]) as Hlive.
  { unfold live; simpl. rewrite <- Hli. apply cyc_snoc. lia. }
  assert (session_of data new = Session (hash id 0) expiry 0 pdata) as Hnew.
  { unfold session_of; simpl. f_equal. apply list_eq. intros k.
    destruct (decide (Z.of_nat k < nlen)).
    - rewrite cyc_lookup, Hcell' by lia. rewrite (proj2 (Z.ltb_lt _ _)), Nat2Z.id by lia.
      destruct (lookup_lt_is_Some_2 pdata k ltac:(lia)) as [x Hx]. by rewrite nth_lookup, Hx.
    - rewrite !lookup_ge_None_2; [done|lia|rewrite length_cyc; lia]. }
  split.
  - split; [unfold dims; simpl; rewrite length_insert, Hdl; done|]. simpl. rewrite Hlive.
    split_and!; [lia..|rewrite chain_app; split; [done|]|rewrite used_app; simpl; lia].
    simpl. rewrite <- Hu. done.
  - unfold sessions. simpl. rewrite Hlive, fmap_app. simpl. rewrite Hnew. f_equal.
    apply (session_of_ext _ _ _ (cache_data_size h) (c_first c)); try done; [lia|].
    intros k Hk. rewrite <- Hu in Hk.
    assert (forall dat, length dat = length (c_data c) ->
      cell 0 dat (c_first c + k) = cell 0 dat (off + (cache_data_size h - c_count c + k))) as Hsh.
    { intros dat Hdat. unfold off. rewrite <- Hld, <- Hdat, cell_mod by lia. unfold cell.
      do 2 f_equal. rewrite <- (Z_mod_plus_full (c_first c + k) 1). f_equal. lia. }
    rewrite !Hsh by done. rewrite Hcell' by lia. by rewrite (proj2 (Z.ltb_ge _ _)) by lia.
Qed.

Lemma size_live d : dwf d -> size (sessions d) = c_count (dc d).
Proof.
  destruct d as [h q c]. intros (_ & _ & _ & _ & _ & Hch & Hu). cbn [dc].
  rewrite Hu. by eapply size_sessions.
Qed.

Lemma same_layout_dims h h' :
  same_layout h h' -> index_num h' = index_num h /\ cache_data_size h' = cache_data_size h.
Proof. by intros <-. Qed.

Lemma dwf_bounds d :
  dwf d -> 0 < cache_data_size (dh d) < 2 ^ 31 /\ 0 < index_num (dh d) < 2 ^ 31 /\
    0 <= c_count (dc d) <= cache_data_size (dh d) /\ 0 <= q_count (dq d) <= index_num (dh d).
Proof.
  destruct d as [h q c]. intros ((HN & HS & _) & _ & Hc & _ & Hcc & Hch & Hu).
  pose proof (chain_used _ _ _ Hch). simpl. lia.
Qed.

Lemma shmcb_insert_internal_ok now d id pdata nlen expiry :
  dwf d -> 0 < nlen < 2 ^ 31 -> Z.of_nat (length pdata) = nlen ->
  exists b d', shmcb_insert_internal now d id pdata nlen expiry = Some (b, d') /\ dwf d' /\
    same_layout (dh d) (dh d') /\
    (b, sessions d') = insert_list now (cache_data_size (dh d)) (index_num (dh d))
                         (Session (hash id 0) expiry 0 pdata) (sessions d).
Proof.
  intros Hw Hn Hlen. unfold shmcb_insert_internal, insert_list. cbn [s_data]. rewrite Hlen.
  destruct (shmcb_expire_division_ok now d Hw) as (x & d1 & -> & Hw1 & Hl1 & Hs1 & _).
  cbn [mbind option_bind]. rewrite <- Hs1, size_live by done.
  destruct (same_layout_dims _ _ Hl1) as [HN1 HS1]. rewrite <- HN1, <- HS1.
  destruct (dwf_bounds _ Hw1) as (HS & HN & Hc & Hq).
  rewrite (u32_small (cache_data_size _ - _)) by lia.
  set (o := if _ <? nlen then scroll _ _ _ else _).
  assert (exists d2, o = Some d2 /\ dwf d2 /\ same_layout (dh d1) (dh d2) /\ sessions d2 =
    if cache_data_size (dh d1) - c_count (dc d1) <? nlen
    then scroll_list (cache_data_size (dh d1)) nlen (sessions d1) else sessions d1)
    as (d2 & -> & Hw2 & Hl2 & Hs2).
  { unfold o. destruct (_ <? nlen) eqn:E; [apply scroll_ok; [done|lia]|by exists d1]. }
  cbn [mbind option_bind]. rewrite <- Hs2, size_live by done.
  destruct (same_layout_dims _ _ Hl2) as [HN2 HS2]. rewrite <- HN2, <- HS2.
  destruct (dwf_bounds _ Hw2) as (HS' & HN' & Hc' & Hq').
  rewrite length_sessions, Z2Nat.id by lia. assert (same_layout (dh d) (dh d2)) as Hl by (by etransitivity).
  destruct d2 as [h q c]. cbn [dh dq dc] in *. rewrite (u32_small (c_count c + nlen)) by lia.
  destruct (c_count c + nlen >? cache_data_size h) eqn:E1; [simpl; eauto 7|].
  destruct (q_count q =? index_num h) eqn:E2; [simpl; eauto 7|]. cbn [orb].
  destruct (append_ok h q c id pdata nlen expiry) as (off & data & p & idxs & H1 & H2 & H3 & H4 & H5 & Hw3 & Hs3); [done|lia..|].
  rewrite H1. cbn [mbind option_bind]. rewrite H2. cbn [mbind option_bind].
  rewrite H3. cbn [mbind option_bind]. rewrite H4, H5. cbn [mbind option_bind].
  rewrite (u32_small (c_count c + nlen)) in Hw3, Hs3 by lia.
  eexists _, _. split; [done|]. split; [done|]. split; [done|]. by rewrite Hs3.
Qed.

(** ** Lookup *)

Definition hit (key now : Z) (s : session) : bool :=
  (s_key s =? key) && (s_removed s =? 0) && (s_expires s >? now).

(** The result of a lookup in a list of sessions: the first hit. *)
Definition lookup_list (key now : Z) (l : list session) : option session :=
  List.find (hit key now) l.

Lemma find_drop {A} (f : A -> bool) l k :
  Forall (fun x => f x = false) (take k l) -> List.find f l = List.find f (drop k l).
Proof.
  revert l. induction k as [|k IH]; intros [|x l] H; [done..|].
  simpl in *. apply Forall_cons in H as [-> H]. by apply IH.
Qed.

Definition scan_inv (f : session -> bool) (d : dstate) (s : Z * Z) : Prop :=
  0 <= s.1 <= q_count (dq d) /\ s.2 = (q_first (dq d) + s.1) mod index_num (dh d) /\
  Forall (fun e => f e = false) (take (Z.to_nat s.1) (sessions d)).

Lemma scan_inv_0 f d : dwf d -> scan_inv f d (0, q_first (dq d)).
Proof.
  destruct d as [h q c]. intros (_ & Hf & Hc & _). split_and!; simpl; [lia..| |constructor].
  rewrite Z.add_0_r. symmetry. by apply Z.mod_small.
Qed.

(** A turn of a scan of the queue that meets no match. *)
Lemma scan_inv_next f h q c loop p s :
  dwf (DState h q c) -> loop < q_count q -> scan_inv f (DState h q c) (loop, p) ->
  sessions (DState h q c) !! Z.to_nat loop = Some s -> f s = false ->
  exists p', shmcb_cyclic_increment (index_num h) p 1 = Some p' /\
    scan_inv f (DState h q c) (u32 (loop + 1), p').
Proof.
  intros ((HN & _) & _ & Hc & _) Hlt (Hl & Hp & Hall) Hs Hf. simpl in *. subst p.
  eexists. split; [apply next_pos; lia|]. rewrite u32_small by lia. split_and!; simpl; [lia..|done|].
  replace (Z.to_nat (loop + 1)) with (Datatypes.S (Z.to_nat loop)) by lia.
  erewrite take_S_r by exact Hs. apply Forall_app. by split; [|constructor].
Qed.

(** What [malloc] promises: a block of the size asked for, or [NULL]. *)
Definition malloc_spec (alloc : Z -> option (list Z)) : Prop :=
  forall n b, alloc n = Some b -> length b = Z.to_nat n.

Definition lookup_found (alloc : Z -> option (list Z)) (o : option session) : lookup_result :=
  match o with
  | None => Found None None
  | Some s =>
      let n := Z.of_nat (length (s_data s)) in
      Found (match alloc n with Some _ => Some (s_data s) | None => None end) (Some n)
  end.

Lemma chain_lookup S off l k e :
  chain S off l -> l !! k = Some e -> 0 < idx_length e <= used l /\ offset e = (off + used (take k l)) mod S.
Proof.
  intros Hch He. rewrite <- (take_drop k l), (drop_S _ _ _ He) in Hch.
  rewrite <- (used_take_drop k l), (drop_S _ _ _ He).
  apply chain_app in Hch as (H1 & Ho & Hl & H2). pose proof (chain_used _ _ _ H1).
  pose proof (chain_used _ _ _ H2). simpl. lia.
Qed.

Lemma lookup_loop_ok alloc now d key :
  dwf d -> malloc_spec alloc ->
  exists r, cloop (S (Z.to_nat (q_count (dq d))))
      (lookup_turn alloc now (dh d) (dq d) (dc d) key) (0, q_first (dq d)) = Some r /\
    r = lookup_found alloc (lookup_list key now (sessions d)).
Proof.
  intros Hw Ha. apply (cloop_total (scan_inv (hit key now) d) (fun s => Z.to_nat (q_count (dq d) - s.1))).
  - destruct d as [h q c]. cbn [dh dq dc]. intros [loop p] Hinv.
    pose proof Hw as ((HN & HS & Hli & Hld) & Hf & Hc & Hcf & Hcc & Hch & Hu).
    pose proof Hinv as (Hl & Hp & Hall). cbn [fst snd dh dq] in *. unfold lookup_turn, lookup_list.
    pose proof (length_sessions (DState h q c) ltac:(simpl; lia)) as Hlen. cbn [dq] in Hlen.
    destruct (loop <? q_count q) eqn:E.
    2:{ simpl. by rewrite (find_drop _ _ _ Hall), drop_ge by lia. }
    rewrite Hp, index_at_ok by lia. cbn [mbind option_bind].
    pose proof (live_index q loop ltac:(lia)) as Hlk.
    set (e := cell index0 (indexes q) (q_first q + loop)) in *.
    assert (sessions (DState h q c) !! Z.to_nat loop = Some (session_of (c_data c) e)) as Hs
      by (rewrite sessions_lookup; cbn [dq]; by rewrite Hlk).
    change ((idx_key e =? key) && (removed e =? 0) && (expires e >? now))
      with (hit key now (session_of (c_data c) e)).
    destruct (hit _ _ _) eqn:Eh.
    + rewrite (find_drop _ _ _ Hall), (drop_S _ _ _ Hs). cbn [List.find]. rewrite Eh.
      destruct (chain_lookup _ _ _ _ _ Hch Hlk) as [Hel Heo].
      cbn [lookup_found session_of s_data]. rewrite length_cyc, Z2Nat.id by lia.
      destruct (alloc (idx_length e)) as [b|] eqn:Eb; [|done]. apply Ha in Eb.
      pose proof (mod_range (c_first c + used (take (Z.to_nat loop) (live q))) (cache_data_size h)).
      rewrite <- Hld. by rewrite shmcb_cyclic_cton_memcpy_ok by (done || lia).
    + rewrite <- Hp. destruct (scan_inv_next _ h q c loop _ _ Hw ltac:(lia) Hinv Hs Eh) as (p' & -> & Hi).
      cbn. split; [done|]. rewrite u32_small by lia. lia.
  - by apply scan_inv_0.
  - simpl. lia.
Qed.

Lemma shmcb_lookup_internal_ok alloc now now' d id :
  dwf d -> malloc_spec alloc ->
  exists d', shmcb_lookup_internal alloc now now' d id =
      Some (lookup_found alloc (lookup_list (hash id 0) now' (expire_list now (sessions d))), d') /\
    dwf d' /\ same_layout (dh d) (dh d') /\ sessions d' = expire_list now (sessions d).
Proof.
  intros Hw Ha. unfold shmcb_lookup_internal.
  destruct (shmcb_expire_division_ok now d Hw) as (x & d1 & -> & Hw1 & Hl1 & Hs1 & _).
  destruct (lookup_loop_ok alloc now' d1 (hash id 0) Hw1 Ha) as (r & Hr & ->).
  destruct d1 as [h q c]. cbn [mbind option_bind dh dq dc] in *. rewrite Hr. cbn.
  rewrite Hs1. eauto.
Qed.

(** ** Removal *)

(** The first session with the key is flagged, whether or not it already was. *)
Fixpoint mark_list (key : Z) (l : list session) : option (list session) :=
  match l with
  | [] => None
  | s :: l =>
      if s_key s =? key then Some (Session (s_key s) (s_expires s) 1 (s_data s) :: l)
      else cons s <$> mark_list key l
  end.

Lemma mark_list_insert key l k s :
  Forall (fun s => (s_key s =? key) = false) (take k l) -> l !! k = Some s -> (s_key s =? key) = true ->
  mark_list key l = Some (<[k := Session (s_key s) (s_expires s) 1 (s_data s)]> l).
Proof.
  revert l. induction k as [|k IH]; intros [|x l] Hf Hl Hs; simplify_eq/=; [by rewrite Hs|].
  apply Forall_cons in Hf as [-> Hf]. by rewrite (IH l).
Qed.

Lemma mark_list_None key l :
  Forall (fun s => (s_key s =? key) = false) l -> mark_list key l = None.
Proof. induction 1 as [|s l Hs _ IH]; simpl; [done|]. by rewrite Hs, IH. Qed.

Definition remove_post (d : dstate) (key : Z) (r : option SHMCBQueue) : Prop :=
  match r with
  | None => mark_list key (sessions d) = None
  | Some q => dwf (DState (dh d) q (dc d)) /\
              mark_list key (sessions d) = Some (sessions (DState (dh d) q (dc d)))
  end.

Lemma chain_insert S off l k e e' :
  l !! k = Some e -> offset e' = offset e -> idx_length e' = idx_length e ->
  chain S off (<[k := e']> l) <-> chain S off l.
Proof.
  revert off k. induction l as [|x l IH]; intros off [|k] He Ho Hl; simplify_eq/=; [by rewrite Ho, Hl|].
  by rewrite IH.
Qed.

Lemma used_insert l k e e' :
  l !! k = Some e -> idx_length e' = idx_length e -> used (<[k := e']> l) = used l.
Proof.
  revert k. induction l as [|x l IH]; intros [|k] He Hl; simplify_eq/=; [by rewrite Hl|]. by rewrite IH.
Qed.

Lemma remove_loop_ok d key :
  dwf d ->
  exists r, cloop (S (Z.to_nat (q_count (dq d)))) (remove_turn (dh d) (dq d) key)
      (0, q_first (dq d)) = Some r /\ remove_post d key r.
Proof.
  intros Hw. set (f := fun s => s_key s =? key).
  apply (cloop_total (scan_inv f d) (fun s => Z.to_nat (q_count (dq d) - s.1))).
  - destruct d as [h q c]. cbn [dh dq dc]. intros [loop p] Hinv.
    pose proof Hw as (Hdim & Hf & Hc & Hcf & Hcc & Hch & Hu). pose proof Hdim as (HN & HS & Hli & Hld).
    pose proof Hinv as (Hl & Hp & Hall). cbn [fst snd dh dq] in *. unfold remove_turn.
    pose proof (length_sessions (DState h q c) ltac:(simpl; lia)) as Hlen. cbn [dq] in Hlen.
    destruct (loop <? q_count q) eqn:E.
    2:{ simpl. apply mark_list_None. by rewrite take_ge in Hall by lia. }
    pose proof (index_at_ok h q (q_first q + loop) ltac:(lia) Hli) as Hat. rewrite <- Hp in Hat.
    unfold index_at in Hat. pose proof (live_index q loop ltac:(lia)) as Hlk.
    set (e := cell index0 (indexes q) (q_first q + loop)) in *.
    apply bind_Some in Hat as (p' & Hg & Hat). unfold mbind, option_bind in *. rewrite Hg, Hat.
    assert (sessions (DState h q c) !! Z.to_nat loop = Some (session_of (c_data c) e)) as Hs
      by (rewrite sessions_lookup; cbn [dq]; by rewrite Hlk).
    change (idx_key e =? key) with (f (session_of (c_data c) e)). destruct (f _) eqn:Ef.
    + assert (p' = Z.to_nat ((q_first q + loop) mod Z.of_nat (length (indexes q)))) as Hp'.
      { unfold shmcb_get_index in Hg. rewrite Hli, <- Hp. case_match; by simplify_eq. }
      rewrite awrite_ok by (by eapply lookup_lt_Some). cbn [turn remove_post dh dc].
      set (e' := Index _ _ _ _ 1).
      assert (live (Queue (q_first q) (q_count q) (<[p':=e']> (indexes q))) =
              <[Z.to_nat loop := e']> (live q)) as Hlive
        by (unfold live; simpl; rewrite Hp'; apply cyc_insert; lia).
      split; [split; [unfold dims; simpl; by rewrite length_insert|]|].
      * simpl. rewrite Hlive, (used_insert _ _ e), (chain_insert _ _ _ _ e) by done. done.
      * erewrite mark_list_insert by (try exact Hall; done). f_equal. unfold sessions. cbn [dc dq].
        by rewrite Hlive, list_fmap_insert.
    + destruct (scan_inv_next f h q c loop _ _ Hw ltac:(lia) Hinv Hs Ef) as (p1 & -> & Hi).
      cbn. split; [done|]. rewrite u32_small by lia. lia.
  - by apply scan_inv_0.
  - simpl. lia.
Qed.

Lemma shmcb_remove_internal_ok now d id :
  dwf d ->
  exists b d', shmcb_remove_internal now d id = Some (b, d') /\ dwf d' /\ same_layout (dh d) (dh d') /\
    match mark_list (hash id 0) (sessions d) with
    | Some l => b = true /\ sessions d' = l
    | None => b = false /\ sessions d' = expire_list now (sessions d)
    end.
Proof.
  intros Hw. destruct (remove_loop_ok d (hash id 0) Hw) as (r & Hr & Hpost).
  destruct d as [h q c]. cbn [dh dq dc] in *. unfold shmcb_remove_internal. rewrite Hr. cbn [mbind option_bind].
  destruct r as [q'|]; unfold remove_post in Hpost; cbn [dh dc] in Hpost.
  - destruct Hpost as [Hw' ->]. eexists _, _. split; [done|]. done.
  - rewrite Hpost. destruct (shmcb_expire_division_ok now _ Hw) as (x & d1 & -> & Hw1 & Hl1 & Hs1 & _).
    cbn. eauto 7.
Qed.

(** ** The properties *)

(** an insertion never leaves its division, keeps the invariant of the
    cyclic buffers, and its effect on the sessions is [insert_list]: the leading
    expired sessions go, then leading sessions are scrolled off until the new
    one fits, and it is appended with exactly its bytes unless the data block or
    the index array has no room. *)
Theorem shmcb_insert_internal_refines now d id pdata nlen expiry :
  dwf d -> 0 < nlen < 2 ^ 31 -> Z.of_nat (length pdata) = nlen ->
  exists b d', shmcb_insert_internal now d id pdata nlen expiry = Some (b, d') /\ dwf d' /\
    same_layout (dh d) (dh d') /\
    (b, sessions d') = insert_list now (cache_data_size (dh d)) (index_num (dh d))
                         (Session (hash id 0) expiry 0 pdata) (sessions d).
Proof. apply shmcb_insert_internal_ok. Qed.

(** a lookup expires the leading sessions and then returns a copy of the
    bytes of the first session that has the key, is not flagged removed and has
    not expired, whatever way the session wraps round the data block; it
    returns [NULL] when there is none or [malloc] fails. *)
Theorem shmcb_lookup_internal_refines alloc now now' d id :
  dwf d -> malloc_spec alloc ->
  exists d', shmcb_lookup_internal alloc now now' d id =
      Some (lookup_found alloc (lookup_list (hash id 0) now' (expire_list now (sessions d))), d') /\
    dwf d' /\ same_layout (dh d) (dh d') /\ sessions d' = expire_list now (sessions d).
Proof. apply shmcb_lookup_internal_ok. Qed.
