(* ===== verification/ShmcbSegment.v ===== *)
(** The shared-memory segment of the session cache:
    [apps/zcache/src/zcache_shmcb.c] from [shmcb_init_memory] to [shmcb_remove].

    The segment is a header followed by the divisions.  [shmcb_get_division]
    gives the byte ranges of a division; the layout theorem says that the
    ranges of all divisions are disjoint and inside the segment, which is what
    lets the model keep the contents of each division as a value of its own. *)
From S2P Require Import Prelude ShmcbCyclic Shmcb.
Local Open Scope Z_scope.
#[local] Arguments cloop : simpl never.

(** ** Layout *)

Definition sizeof_uint : Z := 4.
Definition sizeof_SHMCBHeader : Z := 96.
Definition sizeof_SHMCBIndex : Z := 24.

(** The pointers [shmcb_get_division] fills in, as offsets from the header. *)
Record division := Division {
  p_first_pos : Z; p_pos_count : Z; p_indexes : Z;
  p_cache_first_pos : Z; p_cache_pos_count : Z; p_data : Z
}.

Definition shmcb_get_division (h : SHMCBHeader) (idx : Z) : option division :=
  if idx >? division_mask h then None
  else
    let pQueue := u32 (division_offset h + u32 (idx * division_size h)) in
    let pCache := pQueue + queue_size h in
    Some (Division pQueue (pQueue + sizeof_uint) (pQueue + 2 * sizeof_uint)
            pCache (pCache + sizeof_uint) (pCache + 2 * sizeof_uint)).

(** The segment: [divs] holds what the ranges of each division contain. *)
Record segment := Segment { header : SHMCBHeader; divs : list (SHMCBQueue * SHMCBCache) }.

(** [None] is [FALSE]; the outer [option] is for a division that is not there. *)
Definition open_division (seg : segment) (idx : Z) : option (option dstate) :=
  match shmcb_get_division (header seg) idx with
  | None => Some None
  | Some _ => '(q, c) ← divs seg !! Z.to_nat idx; Some (Some (DState (header seg) q c))
  end.

(** What the operations on an open division leave in the segment. *)
Definition close_division (seg : segment) (idx : Z) (d : dstate) : segment :=
  Segment (dh d) (<[Z.to_nat idx := (dq d, dc d)]> (divs seg)).

(** ** Initialisation *)

Definition granularity_turn (temp granularity : Z) : option (Z + Z) :=
  if granularity =? 0 then None
  else if temp / granularity <? u32 (2 * granularity) then Some (inl (granularity / 2))
  else Some (inr granularity).

Definition init_header (stats0 : SHMCBStats) (shm_mem_size temp granularity : Z) : SHMCBHeader :=
  let queue_size := u32 (2 * sizeof_uint + u32 (temp * sizeof_SHMCBIndex)) in
  let division_size := u32 (shm_mem_size - sizeof_SHMCBHeader) / granularity in
  let cache_data_offset := 2 * sizeof_uint in
  Header stats0 sizeof_SHMCBHeader division_size queue_size cache_data_offset
    (u32 (u32 (division_size - queue_size) - cache_data_offset))
    (u8 (granularity - 1)) temp (2 * sizeof_uint) sizeof_SHMCBIndex.

(** The loop at the end; the assignment to [cache.first_pos] is the body of the
    [if] whose condition is the failure of [shmcb_get_division]. *)
Definition init_division (h : SHMCBHeader) (raw : Z -> SHMCBQueue * SHMCBCache) (loop : Z)
    : SHMCBQueue * SHMCBCache :=
  let '(q, c) := raw loop in
  let c := match shmcb_get_division h loop with
           | None => Cache 0 (c_count c) (c_data c)
           | Some _ => c
           end in
  (Queue 0 0 (indexes q), Cache (c_first c) 0 (c_data c)).

(** [stats0] and [raw] are the contents of the memory before the call: the
    counters, and what the ranges of a division hold. *)
Definition shmcb_init_memory (stats0 : SHMCBStats)
    (raw : SHMCBHeader -> Z -> SHMCBQueue * SHMCBCache) (shm_mem_size : Z)
    : option (option segment) :=
  let temp := sizeof_SHMCBHeader in
  if shm_mem_size <? 2 * temp then Some None
  else
    let temp := u32 (shm_mem_size - temp) / 120 in
    granularity ← cloop 10 (granularity_turn temp) 256;
    let temp := temp / granularity in
    if temp <? 5 then Some None
    else
      let h := init_header stats0 shm_mem_size temp granularity in
      Some (Some (Segment h (init_division h (raw h) ∘ Z.of_nat <$> seq 0 (Z.to_nat granularity)))).

(** ** Operations on the segment *)

Definition bump_stats (f : SHMCBStats -> SHMCBStats) (seg : segment) : segment :=
  Segment (set_stats (header seg) (f (stats (header seg)))) (divs seg).

Definition inc_stores (s : SHMCBStats) : SHMCBStats :=
  Stats (u64 (num_stores s + 1)) (num_expiries s) (num_scrolled s) (num_retrieves_hit s)
    (num_retrieves_miss s) (num_removes_hit s) (num_removes_miss s).
Definition inc_retrieves (hit : bool) (s : SHMCBStats) : SHMCBStats :=
  Stats (num_stores s) (num_expiries s) (num_scrolled s)
    (if hit then u64 (num_retrieves_hit s + 1) else num_retrieves_hit s)
    (if hit then num_retrieves_miss s else u64 (num_retrieves_miss s + 1))
    (num_removes_hit s) (num_removes_miss s).
Definition inc_removes (hit : bool) (s : SHMCBStats) : SHMCBStats :=
  Stats (num_stores s) (num_expiries s) (num_scrolled s) (num_retrieves_hit s) (num_retrieves_miss s)
    (if hit then u64 (num_removes_hit s + 1) else num_removes_hit s)
    (if hit then num_removes_miss s else u64 (num_removes_miss s + 1)).

Definition masked_index (h : SHMCBHeader) (id : list Z) : Z := Z.land (hash id 0) (division_mask h).

Definition shmcb_store (now : Z) (seg : segment) (id pdata : list Z) (nlen timeout : Z)
    : option (bool * segment) :=
  let i := masked_index (header seg) id in
  o ← open_division seg i;
  match o with
  | None => Some (false, seg)
  | Some d =>
      '(b, d) ← shmcb_insert_internal now d id pdata (u32 nlen) timeout;
      let seg := close_division seg i d in
      if b : bool then Some (true, bump_stats inc_stores seg) else Some (false, seg)
  end.

Definition shmcb_retrieve (alloc : Z -> option (list Z)) (now now' : Z) (seg : segment) (id : list Z)
    : option (lookup_result * segment) :=
  let i := masked_index (header seg) id in
  o ← open_division seg i;
  match o with
  | None => Some (Found None None, bump_stats (inc_retrieves false) seg)
  | Some d =>
      '(r, d) ← shmcb_lookup_internal alloc now now' d id;
      let hit := match r_data r with Some _ => true | None => false end in
      Some (r, bump_stats (inc_retrieves hit) (close_division seg i d))
  end.

(** [id] is not [NULL] here. *)
Definition shmcb_remove (now : Z) (seg : segment) (id : list Z) : option (bool * segment) :=
  let i := masked_index (header seg) id in
  o ← open_division seg i;
  match o with
  | None => Some (false, bump_stats (inc_removes false) seg)
  | Some d =>
      '(res, d) ← shmcb_remove_internal now d id;
      Some (res, bump_stats (inc_removes res) (close_division seg i d))
  end.

(** ** Invariant and abstract view *)

Definition swf (seg : segment) : Prop :=
  0 <= division_mask (header seg) < 256 /\
  Z.of_nat (length (divs seg)) = division_mask (header seg) + 1 /\
  Forall (fun qc => dwf (DState (header seg) qc.1 qc.2)) (divs seg).

(** The sessions of each division. *)
Definition table (seg : segment) : list (list session) :=
  (fun qc => sessions (DState (header seg) qc.1 qc.2)) <$> divs seg.

Lemma masked_range h id : 0 <= division_mask h -> 0 <= masked_index h id <= division_mask h.
Proof.
  intros. unfold masked_index. split; [apply Z.land_nonneg; by right|].
  set (a := hash id 0). set (b := division_mask h) in *.
  assert (b - Z.land a b = Z.ldiff b (Z.land a b)) as Hd.
  { apply Z.sub_nocarry_ldiff, Z.bits_inj'. intros n Hn.
    rewrite Z.ldiff_spec, Z.land_spec, Z.bits_0. by repeat destruct (Z.testbit _ _). }
  assert (0 <= Z.ldiff b (Z.land a b)) by (apply Z.ldiff_nonneg; by left). lia.
Qed.

Lemma open_division_ok seg id :
  swf seg ->
  let i := masked_index (header seg) id in
  exists q c, divs seg !! Z.to_nat i = Some (q, c) /\
    open_division seg i = Some (Some (DState (header seg) q c)) /\
    dwf (DState (header seg) q c) /\
    table seg !! Z.to_nat i = Some (sessions (DState (header seg) q c)).
Proof.
  intros (Hm & Hl & Hf) i. pose proof (masked_range (header seg) id ltac:(lia)) as Hi. fold i in Hi.
  destruct (lookup_lt_is_Some_2 (divs seg) (Z.to_nat i) ltac:(lia)) as [[q c] Hqc].
  exists q, c. split; [done|]. unfold open_division, shmcb_get_division.
  rewrite Z.gtb_ltb, (proj2 (Z.ltb_ge _ _)), Hqc by lia. split; [done|].
  split; [by eapply (Forall_lookup_1 _ _ _ _ Hf Hqc)|].
  unfold table. by rewrite list_lookup_fmap, Hqc.
Qed.

(** Closing a division with new contents that keep the layout. *)
Lemma close_division_ok f seg i qc d :
  swf seg -> divs seg !! Z.to_nat i = Some qc -> dwf d -> same_layout (header seg) (dh d) ->
  let seg' := bump_stats f (close_division seg i d) in
  swf seg' /\ same_layout (header seg) (header seg') /\
  table seg' = <[Z.to_nat i := sessions d]> (table seg).
Proof.
  intros (Hm & Hl & Hf) Hqc Hw Hlay. destruct d as [h q c]. cbn [dh] in Hlay.
  unfold same_layout in Hlay. set (st := stats h) in Hlay. clearbody st. subst h. split; [split; [done|split]|split; [done|]].
  - simpl. by rewrite length_insert.
  - simpl. apply Forall_insert; [|exact (dwf_stats _ _ _ _ Hw eq_refl)].
    eapply Forall_impl; [exact Hf|]. intros [q' c'] H. exact (dwf_stats _ _ _ _ H eq_refl).
  - unfold table. simpl. rewrite list_fmap_insert. done.
Qed.

Lemma bump_stats_id seg : bump_stats id seg = seg.
Proof. by destruct seg as [[] ?]. Qed.

(** [nth i] of the table is the division a key falls in. *)
Definition bucket (seg : segment) (id : list Z) : list session :=
  default [] (table seg !! Z.to_nat (masked_index (header seg) id)).

Lemma shmcb_store_ok now seg id pdata nlen timeout :
  swf seg -> 0 < nlen < 2 ^ 31 -> Z.of_nat (length pdata) = nlen ->
  exists b seg', shmcb_store now seg id pdata nlen timeout = Some (b, seg') /\
    swf seg' /\ same_layout (header seg) (header seg') /\
    exists l, (b, l) = insert_list now (cache_data_size (header seg)) (index_num (header seg))
                 (Session (hash id 0) timeout 0 pdata) (bucket seg id) /\
      table seg' = <[Z.to_nat (masked_index (header seg) id) := l]> (table seg).
Proof.
  intros Hw Hn Hl. destruct (open_division_ok seg id Hw) as (q & c & Hqc & Ho & Hd & Ht).
  unfold shmcb_store, bucket. rewrite Ho, Ht, u32_small by lia. cbn [mbind option_bind from_option]. change (Datatypes.id ?x) with x.
  destruct (shmcb_insert_internal_ok now _ id pdata nlen timeout Hd Hn Hl)
    as (b & d' & -> & Hd' & Hlay & Hab). cbn [mbind option_bind]. cbn [dh] in Hlay, Hab.
  pose proof (close_division_ok (if b then inc_stores else Datatypes.id) _ _ _ _ Hw Hqc Hd' Hlay) as (H1 & H2 & H3).
  destruct b; [|rewrite bump_stats_id in *]; (eexists _, _; split; [done|]; eauto 7).
Qed.

Lemma shmcb_retrieve_ok alloc now now' seg id :
  swf seg -> malloc_spec alloc ->
  exists seg', shmcb_retrieve alloc now now' seg id =
      Some (lookup_found alloc (lookup_list (hash id 0) now' (expire_list now (bucket seg id))), seg') /\
    swf seg' /\ same_layout (header seg) (header seg') /\
    table seg' = <[Z.to_nat (masked_index (header seg) id) := expire_list now (bucket seg id)]> (table seg).
Proof.
  intros Hw Ha. destruct (open_division_ok seg id Hw) as (q & c & Hqc & Ho & Hd & Ht).
  unfold shmcb_retrieve, bucket. rewrite Ho, Ht. cbn [mbind option_bind from_option]. change (Datatypes.id ?x) with x.
  destruct (shmcb_lookup_internal_ok alloc now now' _ id Hd Ha) as (d' & -> & Hd' & Hlay & Hs).
  cbn [mbind option_bind]. rewrite <- Hs.
  eexists. split; [reflexivity|]. by apply (close_division_ok _ _ _ (q, c)).
Qed.

Lemma shmcb_remove_ok now seg id :
  swf seg ->
  exists b seg', shmcb_remove now seg id = Some (b, seg') /\
    swf seg' /\ same_layout (header seg) (header seg') /\
    let i := Z.to_nat (masked_index (header seg) id) in
    match mark_list (hash id 0) (bucket seg id) with
    | Some l => b = true /\ table seg' = <[i := l]> (table seg)
    | None => b = false /\ table seg' = <[i := expire_list now (bucket seg id)]> (table seg)
    end.
Proof.
  intros Hw. destruct (open_division_ok seg id Hw) as (q & c & Hqc & Ho & Hd & Ht).
  unfold shmcb_remove, bucket. rewrite Ho, Ht. cbn [mbind option_bind from_option]. change (Datatypes.id ?x) with x.
  destruct (shmcb_remove_internal_ok now _ id Hd) as (b & d' & -> & Hd' & Hlay & Hs). cbn [mbind option_bind].
  destruct (close_division_ok (inc_removes b) _ _ _ _ Hw Hqc Hd' Hlay) as (H1 & H2 & H3).
  eexists _, _. split; [done|]. split; [done|]. split; [done|]. cbv zeta.
  rewrite H3. destruct (mark_list _ _); destruct Hs as [-> ->]; done.
Qed.

(** ** What initialisation computes *)

Definition granularity_inv (t g : Z) : Prop :=
  g ∈ [256; 128; 64; 32; 16; 8; 4; 2; 1] /\ (g = 256 \/ t / (2 * g) < 4 * g).

Lemma granularity_ok t :
  2 <= t ->
  exists g, cloop 10 (granularity_turn t) 256 = Some g /\ granularity_inv t g /\ 2 * g <= t / g.
Proof.
  intros Ht. apply (cloop_total (granularity_inv t) (Z.to_nat ∘ Z.log2)).
  - intros g [Hg Hp]. unfold granularity_turn, granularity_inv.
    assert (0 < g <= 256 /\ (g = 1 \/ g = 2 * (g / 2)) /\ ((Z.to_nat (Z.log2 (g / 2)) < Z.to_nat (Z.log2 g))%nat \/ g = 1)
            /\ (g = 1 \/ g / 2 ∈ [256; 128; 64; 32; 16; 8; 4; 2; 1])) as (Hr & Hh & Hm & He).
    { set_unfold in Hg. destruct_or? Hg; subst g; split_and!;
        first [lia|left; reflexivity|right; reflexivity|left; vm_compute; lia
              |right; apply list_elem_of_In; vm_compute; tauto]. }
    rewrite (proj2 (Z.eqb_neq _ _)), wrap_small by lia.
    destruct (t / g <? 2 * g) eqn:E; [|simpl; split; [split; done|lia]].
    destruct (decide (g = 1)) as [->|Hg1]; [rewrite Z.div_1_r in E; lia|].
    destruct Hh as [?|Hh], He as [?|He], Hm as [Hm|?]; try lia. simpl. split; [split; [done|]|done].
    right. rewrite <- Hh. lia.
  - split; [|by left]. set_solver.
  - vm_compute. lia.
Qed.

(** Consecutive ranges that fill [lo, hi). *)
Fixpoint tiles (lo hi : Z) (l : list (Z * Z)) : Prop :=
  match l with
  | [] => lo = hi
  | (p, n) :: l => p = lo /\ 0 < n /\ tiles (lo + n) hi l
  end.

(** The byte ranges behind the pointers of a division. *)
Definition ranges (h : SHMCBHeader) (p : division) : list (Z * Z) :=
  [(p_first_pos p, sizeof_uint); (p_pos_count p, sizeof_uint);
   (p_indexes p, index_num h * sizeof_SHMCBIndex);
   (p_cache_first_pos p, sizeof_uint); (p_cache_pos_count p, sizeof_uint);
   (p_data p, cache_data_size h)].

(** Division [i] owns exactly [96 + i * division_size, 96 + (i + 1) * division_size),
    and the last one ends inside the segment. *)
Definition layout_ok (h : SHMCBHeader) (shm_mem_size : Z) : Prop :=
  (forall i, 0 <= i <= division_mask h ->
     exists p, shmcb_get_division h i = Some p /\
       tiles (sizeof_SHMCBHeader + i * division_size h)
             (sizeof_SHMCBHeader + (i + 1) * division_size h) (ranges h p)) /\
  sizeof_SHMCBHeader + (division_mask h + 1) * division_size h <= shm_mem_size.

Lemma init_header_fields stats0 size n g :
  192 <= size < 2 ^ 31 -> 0 < g <= 256 -> 5 <= n -> 120 * (n * g) <= size - 96 ->
  let h := init_header stats0 size n g in
  division_mask h = g - 1 /\ index_num h = n /\ division_size h = (size - 96) / g /\
  queue_size h = 8 + 24 * n /\ cache_data_size h = (size - 96) / g - 16 - 24 * n /\
  120 * n <= (size - 96) / g < 2 ^ 31 /\ g * ((size - 96) / g) <= size - 96.
Proof.
  intros Hs Hg Hn Hb h.
  assert (120 * n <= (size - 96) / g) as H1 by (apply Z.div_le_lower_bound; nia).
  assert (g * ((size - 96) / g) <= size - 96) as H2 by (apply Z.mul_div_le; lia).
  assert ((size - 96) / g <= size - 96) as H3 by (apply Z.div_le_upper_bound; nia).
  unfold h, init_header, sizeof_SHMCBHeader, sizeof_uint, sizeof_SHMCBIndex. cbn.
  rewrite (wrap_small 8) by lia. rewrite (wrap_small 32 (size - 96)) by lia.
  rewrite (wrap_small 32 (n * 24)) by lia. rewrite (wrap_small 32 (8 + _)) by lia.
  rewrite (wrap_small 32 (_ / g - _)) by lia. rewrite wrap_small by lia. lia.
Qed.

Lemma init_header_layout stats0 size n g :
  192 <= size < 2 ^ 31 -> 0 < g <= 256 -> 5 <= n -> 120 * (n * g) <= size - 96 ->
  layout_ok (init_header stats0 size n g) size.
Proof.
  intros Hs Hg Hn Hb. pose proof (init_header_fields stats0 size n g Hs Hg Hn Hb) as H. cbv zeta in H.
  set (h := init_header stats0 size n g) in *.
  destruct H as (Hm & Hi & Hd & Hq & Hc & H1 & H2).
  set (D := (size - 96) / g) in *. split.
  - intros i Hir. unfold shmcb_get_division.
    assert (i * D <= (g - 1) * D) by nia.
    rewrite Z.gtb_ltb, (proj2 (Z.ltb_ge _ _)) by lia. eexists. split; [done|].
    change (division_offset h) with 96. unfold ranges, sizeof_uint, sizeof_SHMCBHeader, sizeof_SHMCBIndex.
    cbn [tiles p_first_pos p_pos_count p_indexes p_cache_first_pos p_cache_pos_count p_data].
    rewrite Hi, Hd, Hq, Hc, (wrap_small 32 (i * D)), wrap_small by lia. lia.
  - unfold sizeof_SHMCBHeader. rewrite Hm, Hd. lia.
Qed.

(** The memory a fresh segment starts with: blocks of the right sizes, and zero
    in [cache.first_pos] of every division. *)
Definition fresh (raw : SHMCBHeader -> Z -> SHMCBQueue * SHMCBCache) : Prop :=
  forall h i, length (indexes (raw h i).1) = Z.to_nat (index_num h) /\
    length (c_data (raw h i).2) = Z.to_nat (cache_data_size h) /\ c_first (raw h i).2 = 0.

Lemma init_segment_ok stats0 raw size n g :
  192 <= size < 2 ^ 31 -> 0 < g <= 256 -> 5 <= n -> 120 * (n * g) <= size - 96 -> fresh raw ->
  let h := init_header stats0 size n g in
  let seg := Segment h (init_division h (raw h) ∘ Z.of_nat <$> seq 0 (Z.to_nat g)) in
  swf seg /\ table seg = replicate (Z.to_nat g) [].
Proof.
  intros Hs Hg Hn Hb Hraw h seg.
  pose proof (init_header_fields stats0 size n g Hs Hg Hn Hb) as H. cbv zeta in H. fold h in H.
  destruct H as (Hm & Hi & Hd & Hq & Hc & H1 & H2).
  assert (forall i, 0 <= i < g -> let qc := init_division h (raw h) i in
    dwf (DState h qc.1 qc.2) /\ sessions (DState h qc.1 qc.2) = []) as Hdiv.
  { intros i Hir. unfold init_division, shmcb_get_division.
    rewrite Z.gtb_ltb, (proj2 (Z.ltb_ge _ _)) by lia. destruct (Hraw h i) as (L1 & L2 & L3).
    destruct (raw h i) as [q c]. simpl in *. split; [|done].
    unfold dims; simpl. rewrite L1, L2, L3. split_and!; try done; lia. }
  split; [split; [change (header seg) with h; lia|split]|].
  - change (header seg) with h. unfold seg. cbn [divs]. rewrite length_fmap, length_seq. lia.
  - apply Forall_fmap, Forall_seq. intros k Hk. apply Hdiv. lia.
  - apply list_eq. intros k. unfold table, seg. cbn [divs header].
    rewrite !list_lookup_fmap. destruct (decide (k < Z.to_nat g)%nat) as [Hk|Hk].
    + rewrite lookup_seq_lt, lookup_replicate_2 by done. simpl. f_equal. apply (Hdiv (Z.of_nat k)). lia.
    + rewrite lookup_seq_ge by lia. symmetry. apply lookup_ge_None. rewrite length_replicate. lia.
Qed.

(** The three outcomes of initialisation by the number [t] of recommended
    indexes: a division by zero, a refusal, or a well-formed empty cache. *)
Definition refused (t : Z) : Prop := 2 <= t <= 4 \/ 8 <= t <= 9.

Lemma shmcb_init_memory_ok stats0 raw size :
  192 <= size < 2 ^ 31 -> fresh raw ->
  let t := (size - 96) / 120 in
  (2 <= t -> refused t -> shmcb_init_memory stats0 raw size = Some None) /\
  (2 <= t -> ~ refused t -> exists seg,
     shmcb_init_memory stats0 raw size = Some (Some seg) /\ layout_ok (header seg) size /\ swf seg /\
     Forall (eq []) (table seg)).
Proof.
  intros Hs Hraw t.
  assert (2 <= t -> exists g, granularity_inv t g /\ 2 * g <= t / g /\
    shmcb_init_memory stats0 raw size = if t / g <? 5 then Some None else
      Some (Some (Segment (init_header stats0 size (t / g) g)
        (init_division (init_header stats0 size (t / g) g) (raw (init_header stats0 size (t / g) g)) ∘ Z.of_nat
           <$> seq 0 (Z.to_nat g))))) as Hinit.
  { intros Ht. destruct (granularity_ok t Ht) as (g & Hg & Hinv & Hend). exists g. split_and!; [done..|].
    unfold shmcb_init_memory, sizeof_SHMCBHeader. rewrite (proj2 (Z.ltb_ge _ _)) by lia.
    rewrite (wrap_small 32 (size - 96)) by lia. fold t. by rewrite Hg. }
  assert (forall g, granularity_inv t g -> 2 * g <= t / g -> 2 <= t ->
            0 < g <= 256 /\ (refused t <-> t / g < 5) /\ t / g * g <= t) as Hg.
  { intros g [Hg Hp] He Ht. unfold refused. set_unfold in Hg.
    destruct_or? Hg; subst g; split_and!; try lia. }
  split; intros Ht Hr; destruct (Hinit Ht) as (g & Hinv & Hend & ->);
    destruct (Hg g Hinv Hend Ht) as (Hg0 & Hg1 & Hg2).
  - by rewrite (proj2 (Z.ltb_lt _ _)) by tauto.
  - assert (5 <= t / g) as H5 by (apply Z.nlt_ge; tauto).
    rewrite (proj2 (Z.ltb_ge _ _)) by done. eexists. split; [done|]. cbn [header].
    assert (120 * (t / g * g) <= size - 96) as Hb by (unfold t in *; lia).
    split; [by apply init_header_layout|].
    destruct (init_segment_ok stats0 raw size (t / g) g) as [H1 H2]; [done..|].
    split; [done|]. rewrite H2. by apply Forall_replicate.
Qed.

(** ** Sessions come back *)

Lemma expire_list_sublist now l : sublist (expire_list now l) l.
Proof. induction l as [|s l IH]; simpl; [done|]. case_match; [done|by constructor]. Qed.

Lemma scroll_list_sublist room need l : sublist (scroll_list room need l) l.
Proof.
  induction l as [|s [|s' l] IH]; [done..|]. cbn [scroll_list]. case_match; [by constructor|done].
Qed.

Lemma insert_list_true now room slots new l l' :
  insert_list now room slots new l = (true, l') -> exists l0, sublist l0 l /\ l' = l0 ++ [new].
Proof.
  unfold insert_list. case_match; [done|]. intros [= <-]. eexists. split; [|done].
  pose proof (expire_list_sublist now l). case_match; [|done]. etrans; [apply scroll_list_sublist|done].
Qed.

Lemma expire_list_snoc now l s : now < s_expires s -> expire_list now (l ++ [s]) = expire_list now l ++ [s].
Proof.
  intros. induction l as [|x l IH]; simpl; [by rewrite Z.gtb_ltb, (proj2 (Z.ltb_lt _ _))|].
  by case_match.
Qed.

Lemma find_snoc {A} (f : A -> bool) l x :
  Forall (fun y => f y = false) l -> f x = true -> List.find f (l ++ [x]) = Some x.
Proof. intros Hl Hx. induction Hl as [|y l Hy _ IH]; simpl; [by rewrite Hx|]. by rewrite Hy. Qed.

Lemma masked_index_layout h h' id : same_layout h h' -> masked_index h' id = masked_index h id.
Proof. by intros <-. Qed.

(** ** The theorems *)

(** removing a session flags the first session with its key and changes
    nothing else; without a match the leading expired sessions are dropped. The
    segment stays well formed and the other divisions keep their sessions. *)
Theorem shmcb_remove_refines now seg id :
  swf seg ->
  exists b seg', shmcb_remove now seg id = Some (b, seg') /\
    swf seg' /\ same_layout (header seg) (header seg') /\
    let i := Z.to_nat (masked_index (header seg) id) in
    match mark_list (hash id 0) (bucket seg id) with
    | Some l => b = true /\ table seg' = <[i := l]> (table seg)
    | None => b = false /\ table seg' = <[i := expire_list now (bucket seg id)]> (table seg)
    end.
Proof. apply shmcb_remove_ok. Qed.

(** The two sizes at which the code does not get as far as the layout. *)
Lemma init_small stats0 raw size : 0 <= size < 336 -> shmcb_init_memory stats0 raw size = if size <? 192 then Some None else None.
Proof.
  intros Hs. unfold shmcb_init_memory, sizeof_SHMCBHeader. change (2 * 96) with 192. destruct (Z.ltb_spec size 192); [done|].
  rewrite wrap_small by lia. assert ((size - 96) / 120 = 0 \/ (size - 96) / 120 = 1) as [->| ->] by (Z.to_euclidean_division_equations; lia); by vm_compute.
Qed.

(** C37: On a segment of [0 <= size < 2^31] bytes whose memory is zero ([fresh]), with
    [t = (size - 96) / 120] recommended indexes: [shmcb_init_memory] refuses below 192
    bytes; from 192 to 335 bytes ([t] below 2) it divides by zero; for [t] in 2..4 and 8..9
    it refuses; and otherwise it sets up well-formed empty divisions whose byte ranges are
    disjoint, fill each division exactly and lie inside the segment. *)
Theorem shmcb_init_memory_correct stats0 raw size :
  0 <= size < 2 ^ 31 -> fresh raw ->
  let t := (size - 96) / 120 in
  (size < 192 -> shmcb_init_memory stats0 raw size = Some None) /\
  (192 <= size < 336 -> shmcb_init_memory stats0 raw size = None) /\
  (336 <= size -> refused t -> shmcb_init_memory stats0 raw size = Some None) /\
  (336 <= size -> ~ refused t -> exists seg,
     shmcb_init_memory stats0 raw size = Some (Some seg) /\ layout_ok (header seg) size /\ swf seg /\
     Forall (eq []) (table seg)).
Proof.
  intros Hs Hraw t. split_and!.
  - intros H. by rewrite init_small, (proj2 (Z.ltb_lt _ _)) by lia.
  - intros H. by rewrite init_small, (proj2 (Z.ltb_ge _ _)) by lia.
  - intros H. apply shmcb_init_memory_ok; [lia|done|]. apply Z.div_le_lower_bound; lia.
  - intros H. apply shmcb_init_memory_ok; [lia|done|]. apply Z.div_le_lower_bound; lia.
Qed.

(** C17: Storing a session returns, leaves every other division as it was, and if it
    succeeds, a retrieve of the same id that comes next gives back exactly the bytes stored.
    This is for a session of at least one byte; neither the lookup nor its purge of expired
    sessions comes at or after the expiry; no older session of the division with the key of
    the id is live at the time of the lookup (it would be found first: the store does not
    look for one); and the memory for the copy is there.  Of operations in between it says
    nothing: a later store may scroll the session out. *)
Theorem shmcb_store_retrieve now seg id pdata nlen timeout now1 now2 alloc block :
  swf seg -> 0 < nlen < 2 ^ 31 -> Z.of_nat (length pdata) = nlen ->
  malloc_spec alloc -> alloc nlen = Some block ->
  now1 < timeout -> now2 < timeout ->
  Forall (fun s => hit (hash id 0) now2 s = false) (bucket seg id) ->
  exists b seg', shmcb_store now seg id pdata nlen timeout = Some (b, seg') /\ swf seg' /\
    (forall i, i <> Z.to_nat (masked_index (header seg) id) -> table seg' !! i = table seg !! i) /\
    (b = true -> exists seg'',
       shmcb_retrieve alloc now1 now2 seg' id = Some (Found (Some pdata) (Some nlen), seg'') /\ swf seg'').
Proof.
  intros Hw Hn Hl Ha Hblk H1 H2 Hno.
  destruct (shmcb_store_ok now seg id pdata nlen timeout Hw Hn Hl)
    as (b & seg' & Hst & Hw' & Hlay & l & Hins & Htab).
  exists b, seg'. split; [done|]. split; [done|]. split.
  { intros i Hi. by rewrite Htab, list_lookup_insert_ne. }
  intros ->. symmetry in Hins. apply insert_list_true in Hins as (l0 & Hsub & ->).
  destruct (shmcb_retrieve_ok alloc now1 now2 seg' id Hw' Ha) as (seg'' & Hr & Hw'' & _ & _).
  exists seg''. split; [|done]. rewrite Hr.
  destruct (open_division_ok seg id Hw) as (q & c & _ & _ & _ & Ht).
  assert (bucket seg' id = l0 ++ [Session (hash id 0) timeout 0 pdata]) as ->.
  { unfold bucket. rewrite (masked_index_layout _ _ _ Hlay), Htab, list_lookup_insert_eq; [done|].
    by eapply lookup_lt_Some. }
  rewrite expire_list_snoc by done. unfold lookup_list. rewrite find_snoc.
  - cbn [lookup_found s_data]. by rewrite Hl, Hblk.
  - apply Forall_forall. intros s Hs. eapply Forall_forall in Hno; [exact Hno|].
    eapply elem_of_sublist; [exact Hs|]. etrans; [apply expire_list_sublist|done].
  - unfold hit. cbn [s_key s_removed s_expires].
    by rewrite !Z.eqb_refl, Z.gtb_ltb, (proj2 (Z.ltb_lt _ _)) by done.
Qed.

(** ** Witnesses

    A segment of 1296 bytes: two divisions of five index entries and 464 data
    bytes each. *)

Definition zero_division (h : SHMCBHeader) (_ : Z) : SHMCBQueue * SHMCBCache :=
  (Queue 0 0 (replicate (Z.to_nat (index_num h)) index0),
   Cache 0 0 (replicate (Z.to_nat (cache_data_size h)) 0)).

Definition zero_stats : SHMCBStats := Stats 0 0 0 0 0 0 0.

Lemma zero_division_fresh : fresh zero_division.
Proof. intros h i. simpl. by rewrite !length_replicate. Qed.

Definition demo_header : SHMCBHeader := init_header zero_stats 1296 5 2.
Definition demo_segment : segment :=
  Segment demo_header (init_division demo_header (zero_division demo_header) ∘ Z.of_nat <$> seq 0 2).

Lemma demo_segment_wf : swf demo_segment.
Proof.
  apply (init_segment_ok zero_stats zero_division 1296 5 2); [lia..|apply zero_division_fresh].
Qed.

Definition demo_division : dstate :=
  DState demo_header (Queue 0 0 (replicate 5 index0)) (Cache 0 0 (replicate 464 0)).

Lemma demo_division_wf : dwf demo_division.
Proof. split; [split_and!; vm_compute; done|]. vm_compute. tauto || (split_and!; done). Qed.

Definition demo_alloc (n : Z) : option (list Z) := Some (replicate (Z.to_nat n) 0).

Lemma demo_alloc_spec : malloc_spec demo_alloc.
Proof. intros n b [= <-]. apply length_replicate. Qed.

Lemma shmcb_insert_internal_refines_witness :
  exists b d', shmcb_insert_internal 10 demo_division [1; 2] [7; 8; 9] 3 20 = Some (b, d') /\ dwf d' /\
    same_layout demo_header (dh d') /\
    (b, sessions d') = insert_list 10 464 5 (Session (hash [1; 2] 0) 20 0 [7; 8; 9]) (sessions demo_division).
Proof.
  apply (shmcb_insert_internal_refines 10 demo_division [1; 2] [7; 8; 9] 3 20);
    [apply demo_division_wf|lia|reflexivity].
Defined.

Lemma shmcb_lookup_internal_refines_witness :
  exists d', shmcb_lookup_internal demo_alloc 10 10 demo_division [1; 2] =
      Some (lookup_found demo_alloc (lookup_list (hash [1; 2] 0) 10 (expire_list 10 (sessions demo_division))), d') /\
    dwf d' /\ same_layout demo_header (dh d') /\ sessions d' = expire_list 10 (sessions demo_division).
Proof.
  apply (shmcb_lookup_internal_refines demo_alloc 10 10 demo_division [1; 2]);
    [apply demo_division_wf|apply demo_alloc_spec].
Defined.

Lemma shmcb_remove_refines_witness :
  exists b seg', shmcb_remove 10 demo_segment [1; 2] = Some (b, seg') /\
    swf seg' /\ same_layout demo_header (header seg') /\
    let i := Z.to_nat (masked_index demo_header [1; 2]) in
    match mark_list (hash [1; 2] 0) (bucket demo_segment [1; 2]) with
    | Some l => b = true /\ table seg' = <[i := l]> (table demo_segment)
    | None => b = false /\ table seg' = <[i := expire_list 10 (bucket demo_segment [1; 2])]> (table demo_segment)
    end.
Proof. apply (shmcb_remove_refines 10 demo_segment [1; 2]), demo_segment_wf. Defined.

Lemma shmcb_init_memory_correct_witness : exists seg,
  shmcb_init_memory zero_stats zero_division 1296 = Some (Some seg) /\ layout_ok (header seg) 1296 /\ swf seg /\ Forall (eq []) (table seg).
Proof.
  destruct (shmcb_init_memory_correct zero_stats zero_division 1296) as (_ & _ & _ & H); [lia|apply zero_division_fresh|].
  apply H; [lia|]. vm_compute. intuition discriminate.
Defined.

Lemma shmcb_store_retrieve_witness :
  exists b seg', shmcb_store 10 demo_segment [1; 2] [7; 8; 9] 3 20 = Some (b, seg') /\ swf seg' /\
    (forall i, i <> Z.to_nat (masked_index demo_header [1; 2]) -> table seg' !! i = table demo_segment !! i) /\
    (b = true -> exists seg'',
       shmcb_retrieve demo_alloc 11 11 seg' [1; 2] = Some (Found (Some [7; 8; 9]) (Some 3), seg'') /\ swf seg'').
Proof.
  apply (shmcb_store_retrieve 10 demo_segment [1; 2] [7; 8; 9] 3 20 11 11 demo_alloc [0; 0; 0]);
    [apply demo_segment_wf|lia|reflexivity|apply demo_alloc_spec|reflexivity|lia|lia|vm_compute; constructor].
Defined.

(** ** Runs that show what the guards leave out *)

(** A segment too small for one index divides by zero. *)
Example init_divides_by_zero : shmcb_init_memory zero_stats zero_division 300 = None.
Proof. vm_compute. reflexivity. Qed.

(** A larger segment is refused where a smaller one is taken. *)
Example init_refuses_larger :
  (exists seg, shmcb_init_memory zero_stats zero_division 900 = Some (Some seg)) /\
  shmcb_init_memory zero_stats zero_division 1100 = Some None.
Proof. split; [eexists; vm_compute; reflexivity|reflexivity]. Qed.

(** [cache.first_pos] is left as it was found: on memory that is not zero the
    cache that comes out reads outside its data block. *)
Definition stale_division (h : SHMCBHeader) (i : Z) : SHMCBQueue * SHMCBCache :=
  let '(q, c) := zero_division h i in (q, Cache 500 0 (c_data c)).

Example init_keeps_first_pos :
  exists seg, shmcb_init_memory zero_stats stale_division 1296 = Some (Some seg) /\
    (c_first ∘ snd <$> divs seg) = [500; 500] /\ ~ swf seg.
Proof.
  eexists. split; [vm_compute; reflexivity|]. split; [reflexivity|].
  intros (_ & _ & H). apply Forall_cons in H as [(_ & _ & _ & Hc & _) _]. destruct Hc as [_ Hc]. vm_compute in Hc. discriminate.
Qed.

(** A session stored again after its removal survives the next removal: the
    flag goes to the first entry with the key, which is the old one. *)
Definition store_remove_twice : option (lookup_result * segment) :=
  '(_, s) ← shmcb_store 10 demo_segment [1; 2] [7] 1 99;
  '(_, s) ← shmcb_remove 10 s [1; 2];
  '(_, s) ← shmcb_store 10 s [1; 2] [8] 1 99;
  '(_, s) ← shmcb_remove 10 s [1; 2];
  shmcb_retrieve demo_alloc 10 10 s [1; 2].

Example second_remove_misses : fst <$> store_remove_twice = Some (Found (Some [8]) (Some 1)).
Proof. vm_compute. reflexivity. Qed.

(** With the index array full a store fails although the data fits. *)
Fixpoint store_n (n : nat) (o : option (bool * segment)) : option (bool * segment) :=
  match n with
  | O => o
  | S n => '(_, s) ← store_n n o; shmcb_store 10 s [1; 2] [7] 1 99
  end.

Example sixth_store_fails : fst <$> store_n 6 (Some (true, demo_segment)) = Some false.
Proof. vm_compute. reflexivity. Qed.
