(* ===== verification/P2pWire.v ===== *)
(** The wire format of the NAT-punching protocol: [upunch/p2p_wire.c].

    An encoder works on the buffer and the index [idx]; a decoder reads [base]
    and works on [rem] and [idx], and on the object behind [out], which keeps
    its value when the input is too short.  [None] is an access outside the
    buffer or outside the object written to. *)
From S2P Require Import Prelude.
Local Open Scope Z_scope.

(** ** Data ([p2p_wire.h]) *)

Definition AF_INET : Z := 2.
Definition AF_INET6 : Z := 10.
Definition P2P_PKT_VERSION : Z := 2.
Definition P2P_COMMUNITY_SIZE : nat := 16.
Definition P2P_COOKIE_SIZE : nat := 4.
Definition IPV4_SIZE : nat := 4.
Definition IPV6_SIZE : nat := 16.
Definition P2P_AUTH_TOKEN_SIZE : nat := 32.
Definition P2P_FLAGS_SOCKET : Z := 0x40.
Definition P2P_FLAGS_TYPE_MASK : Z := 0x1f.
Definition P2P_FLAGS_BITS_MASK : Z := 0xffe0.

(** [addr] is the whole union: [addr.v6] is the list, [addr.v4] its first four bytes. *)
Record p2p_sock := Sock { family : Z; port : Z; addr : list Z }.
Record p2p_auth := Auth { scheme : Z; toksize : Z; token : list Z }.
Record p2p_common := Common { ttl : Z; pc : Z; flags : Z; community : list Z }.
Record p2p_REGISTER := REGISTER { r_cookie : list Z; orig_sender : p2p_sock; dest_sock : p2p_sock }.
Record p2p_REGISTER_ACK := REGISTER_ACK { a_cookie : list Z; a_sock : p2p_sock }.
Record p2p_PACKET := PACKET { p_sock : p2p_sock }.
Record p2p_REGISTER_SUPER := REGISTER_SUPER { s_cookie : list Z; auth : p2p_auth }.
Record p2p_REGISTER_SUPER_ACK := REGISTER_SUPER_ACK {
  sa_cookie : list Z; lifetime : Z; sa_sock : p2p_sock; num_sn : Z; sn_bak : p2p_sock
}.

(** The values [memset] to zero gives. *)
Definition sock0 : p2p_sock := Sock 0 0 (replicate IPV6_SIZE 0).
Definition auth0 : p2p_auth := Auth 0 0 (replicate P2P_AUTH_TOKEN_SIZE 0).
Definition cookie0 : list Z := replicate P2P_COOKIE_SIZE 0.

(** ** Primitive encoders and decoders *)

Definition wbuf : Type := list Z * nat.
Definition enc : Type := wbuf -> option (Z * wbuf).

Definition encode_uint8 (v : Z) : enc := fun '(base, idx) =>
  base ← awrite base idx (Z.land v 0xff);
  Some (1, (base, S idx)).

Definition encode_uint16 (v : Z) : enc := fun '(base, idx) =>
  base ← awrite base idx (Z.land (Z.shiftr v 8) 0xff);
  base ← awrite base (1 + idx)%nat (Z.land v 0xff);
  Some (2, (base, (idx + 2)%nat)).

Definition encode_uint32 (v : Z) : enc := fun '(base, idx) =>
  base ← awrite base (0 + idx)%nat (Z.land (Z.shiftr v 24) 0xff);
  base ← awrite base (1 + idx)%nat (Z.land (Z.shiftr v 16) 0xff);
  base ← awrite base (2 + idx)%nat (Z.land (Z.shiftr v 8) 0xff);
  base ← awrite base (3 + idx)%nat (Z.land v 0xff);
  Some (4, (base, (idx + 4)%nat)).

Definition encode_buf (p : list Z) (s : nat) : enc := fun '(base, idx) =>
  bs ← mread p 0 s;
  base ← mwrite base idx bs;
  Some (Z.of_nat s, (base, (idx + s)%nat)).

(** [rem] and [idx]. *)
Definition cursor : Type := nat * nat.
Definition dec (A : Type) : Type := A -> list Z -> cursor -> option (Z * A * cursor).

Definition decode_uint8 : dec Z := fun out base '(rem, idx) =>
  if bool_decide (rem < 1)%nat then Some (0, out, (rem, idx))
  else
    b ← aread base idx;
    Some (1, Z.land b 0xff, (rem - 1, S idx)%nat).

Definition decode_uint16 : dec Z := fun out base '(rem, idx) =>
  if bool_decide (rem < 2)%nat then Some (0, out, (rem, idx))
  else
    b0 ← aread base idx;
    b1 ← aread base (1 + idx)%nat;
    let out := u16 (Z.shiftl (Z.land b0 0xff) 8) in
    Some (2, u16 (Z.lor out (Z.land b1 0xff)), (rem - 2, idx + 2)%nat).

Definition decode_uint32 : dec Z := fun out base '(rem, idx) =>
  if bool_decide (rem < 4)%nat then Some (0, out, (rem, idx))
  else
    b0 ← aread base (0 + idx)%nat;
    b1 ← aread base (1 + idx)%nat;
    b2 ← aread base (2 + idx)%nat;
    b3 ← aread base (3 + idx)%nat;
    let out := u32 (Z.shiftl (Z.land b0 0xff) 24) in
    let out := u32 (Z.lor out (Z.shiftl (Z.land b1 0xff) 16)) in
    let out := u32 (Z.lor out (Z.shiftl (Z.land b2 0xff) 8)) in
    Some (4, u32 (Z.lor out (Z.land b3 0xff)), (rem - 4, idx + 4)%nat).

(** [out] is the object the copy goes to. *)
Definition decode_buf (bufsize : nat) : dec (list Z) := fun out base '(rem, idx) =>
  if bool_decide (rem < bufsize)%nat then Some (0, out, (rem, idx))
  else
    bs ← mread base idx bufsize;
    out ← mwrite out 0 bs;
    Some (Z.of_nat bufsize, out, (rem - bufsize, idx + bufsize)%nat).

(** ** Messages *)

Definition encode_common (common : p2p_common) : enc := fun w =>
  '(_, w) ← encode_uint8 P2P_PKT_VERSION w;
  '(_, w) ← encode_uint8 (ttl common) w;
  let flags := Z.lor (u16 (Z.land (pc common) P2P_FLAGS_TYPE_MASK))
                     (Z.land (flags common) P2P_FLAGS_BITS_MASK) in
  '(_, w) ← encode_uint16 flags w;
  '(_, w) ← encode_buf (community common) P2P_COMMUNITY_SIZE w;
  Some (-1, w).

Definition decode_common : dec p2p_common := fun out base s =>
  let idx0 := s.2 in
  '(_, dummy, s) ← decode_uint8 0 base s;
  if negb (P2P_PKT_VERSION =? dummy) then Some (-1, out, s)
  else
    '(_, ttl, s) ← decode_uint8 (ttl out) base s;
    '(_, flags, s) ← decode_uint16 (flags out) base s;
    let pc := Z.land flags P2P_FLAGS_TYPE_MASK in
    let flags := Z.land flags P2P_FLAGS_BITS_MASK in
    '(_, community, s) ← decode_buf P2P_COMMUNITY_SIZE (community out) base s;
    Some (Z.of_nat (s.2 - idx0), Common ttl pc flags community, s).

Definition encode_sock (sock : p2p_sock) : enc := fun w =>
  if family sock =? AF_INET then
    '(n1, w) ← encode_uint16 0 w;
    '(n2, w) ← encode_uint16 (port sock) w;
    '(n3, w) ← encode_buf (addr sock) IPV4_SIZE w;
    Some (n1 + n2 + n3, w)
  else if family sock =? AF_INET6 then
    '(n1, w) ← encode_uint16 0x8000 w;
    '(n2, w) ← encode_uint16 (port sock) w;
    '(n3, w) ← encode_buf (addr sock) IPV6_SIZE w;
    Some (n1 + n2 + n3, w)
  else Some (-1, w).

Section Decoders.
(** The value of the local [f] of [decode_sock] before anything is stored in it. *)
Context (f0 : Z).

(** The result [idx - idx0] is the difference of two equal pointers. *)
Definition decode_sock : dec p2p_sock := fun sock base s =>
  '(_, f, s) ← decode_uint16 f0 base s;
  if negb (Z.land f 0x8000 =? 0) then
    '(_, port, s) ← decode_uint16 (port sock) base s;
    '(_, addr, s) ← decode_buf IPV6_SIZE (addr sock) base s;
    Some (0, Sock AF_INET6 port addr, s)
  else
    '(_, port, s) ← decode_uint16 (port sock) base s;
    '(_, addr, s) ← decode_buf IPV4_SIZE (replicate IPV6_SIZE 0) base s;
    Some (0, Sock AF_INET port addr, s).

Definition decode_REGISTER : dec p2p_REGISTER := fun _ base s =>
  '(n1, cookie, s) ← decode_buf P2P_COOKIE_SIZE cookie0 base s;
  '(n2, orig, s) ← decode_sock sock0 base s;
  '(n3, dest, s) ← decode_sock sock0 base s;
  Some (n1 + n2 + n3, REGISTER cookie orig dest, s).

Definition decode_REGISTER_SUPER : dec p2p_REGISTER_SUPER := fun _ base s =>
  '(n1, cookie, s) ← decode_buf P2P_COOKIE_SIZE cookie0 base s;
  '(n2, scheme, s) ← decode_uint16 (scheme auth0) base s;
  '(n3, toksize, s) ← decode_uint16 (toksize auth0) base s;
  '(n4, token, s) ← decode_buf (Z.to_nat toksize) (token auth0) base s;
  Some (n1 + n2 + n3 + n4, REGISTER_SUPER cookie (Auth scheme toksize token), s).

Definition decode_REGISTER_ACK (cmn : p2p_common) : dec p2p_REGISTER_ACK := fun _ base s =>
  '(n1, cookie, s) ← decode_buf P2P_COOKIE_SIZE cookie0 base s;
  if negb (Z.land (flags cmn) P2P_FLAGS_SOCKET =? 0) then
    '(n2, sock, s) ← decode_sock sock0 base s;
    Some (n1 + n2, REGISTER_ACK cookie sock, s)
  else Some (n1, REGISTER_ACK cookie sock0, s).

Definition decode_REGISTER_SUPER_ACK : dec p2p_REGISTER_SUPER_ACK := fun _ base s =>
  '(n1, cookie, s) ← decode_buf P2P_COOKIE_SIZE cookie0 base s;
  '(n2, lifetime, s) ← decode_uint16 0 base s;
  '(n3, sock, s) ← decode_sock sock0 base s;
  '(n4, num_sn, s) ← decode_uint8 0 base s;
  if num_sn >? 0 then
    '(n5, sn_bak, s) ← decode_sock sock0 base s;
    Some (n1 + n2 + n3 + n4 + n5, REGISTER_SUPER_ACK cookie lifetime sock num_sn sn_bak, s)
  else Some (n1 + n2 + n3 + n4, REGISTER_SUPER_ACK cookie lifetime sock num_sn sock0, s).

Definition decode_PACKET (cmn : p2p_common) : dec p2p_PACKET := fun _ base s =>
  if negb (Z.land (flags cmn) P2P_FLAGS_SOCKET =? 0) then
    '(n, sock, s) ← decode_sock sock0 base s;
    Some (n, PACKET sock, s)
  else Some (0, PACKET sock0, s).

End Decoders.

Definition encode_REGISTER (common : p2p_common) (reg : p2p_REGISTER) : enc := fun w =>
  '(n1, w) ← encode_common common w;
  '(n2, w) ← encode_buf (r_cookie reg) P2P_COOKIE_SIZE w;
  '(n3, w) ← encode_sock (orig_sender reg) w;
  '(n4, w) ← encode_sock (dest_sock reg) w;
  Some (n1 + n2 + n3 + n4, w).

Definition encode_REGISTER_SUPER (common : p2p_common) (reg : p2p_REGISTER_SUPER) : enc := fun w =>
  '(n1, w) ← encode_common common w;
  '(n2, w) ← encode_buf (s_cookie reg) P2P_COOKIE_SIZE w;
  '(n3, w) ← encode_uint16 0 w;
  '(n4, w) ← encode_uint16 0 w;
  Some (n1 + n2 + n3 + n4, w).

Definition encode_REGISTER_ACK (common : p2p_common) (reg : p2p_REGISTER_ACK) : enc := fun w =>
  '(n1, w) ← encode_common common w;
  '(n2, w) ← encode_buf (a_cookie reg) P2P_COOKIE_SIZE w;
  if negb (family (a_sock reg) =? 0) then
    '(n3, w) ← encode_sock (a_sock reg) w;
    Some (n1 + n2 + n3, w)
  else Some (n1 + n2, w).

Definition encode_REGISTER_SUPER_ACK (common : p2p_common) (reg : p2p_REGISTER_SUPER_ACK) : enc := fun w =>
  '(n1, w) ← encode_common common w;
  '(n2, w) ← encode_buf (sa_cookie reg) P2P_COOKIE_SIZE w;
  '(n3, w) ← encode_uint16 (lifetime reg) w;
  '(n4, w) ← encode_sock (sa_sock reg) w;
  '(n5, w) ← encode_uint8 (num_sn reg) w;
  if num_sn reg >? 0 then
    '(n6, w) ← encode_sock (sn_bak reg) w;
    Some (n1 + n2 + n3 + n4 + n5 + n6, w)
  else Some (n1 + n2 + n3 + n4 + n5, w).

Definition encode_PACKET (common : p2p_common) (pkt : p2p_PACKET) : enc := fun w =>
  '(n1, w) ← encode_common common w;
  if negb (family (p_sock pkt) =? 0) then
    '(n2, w) ← encode_sock (p_sock pkt) w;
    Some (n1 + n2, w)
  else Some (n1, w).

(** ** The wire format *)

Definition be16 (v : Z) : list Z := [Z.land (Z.shiftr v 8) 0xff; Z.land v 0xff].
Definition be32 (v : Z) : list Z :=
  [Z.land (Z.shiftr v 24) 0xff; Z.land (Z.shiftr v 16) 0xff; Z.land (Z.shiftr v 8) 0xff; Z.land v 0xff].

Definition common_flags (c : p2p_common) : Z :=
  Z.lor (u16 (Z.land (pc c) P2P_FLAGS_TYPE_MASK)) (Z.land (flags c) P2P_FLAGS_BITS_MASK).

Definition common_bytes (c : p2p_common) : list Z :=
  [Z.land P2P_PKT_VERSION 0xff; Z.land (ttl c) 0xff] ++ be16 (common_flags c) ++
  take P2P_COMMUNITY_SIZE (community c).

Definition sock_bytes (s : p2p_sock) : list Z :=
  if family s =? AF_INET then be16 0 ++ be16 (port s) ++ take IPV4_SIZE (addr s)
  else if family s =? AF_INET6 then be16 0x8000 ++ be16 (port s) ++ take IPV6_SIZE (addr s)
  else [].

Definition byte_range (v : Z) : Prop := 0 <= v < 256.
Definition word_range (v : Z) : Prop := 0 <= v < 2 ^ 16.

Definition opt_bytes (b : bool) (l : list Z) : list Z := if b then l else [].

Create HintDb wire discriminated.

(** ** Encoders write their bytes *)

Definition patch (base : list Z) (idx : nat) (bs : list Z) : list Z :=
  take idx base ++ bs ++ drop (idx + length bs) base.

(** [e] writes [bs] at the index, moves the index behind them and returns [n]. *)
Definition writes (e : enc) (bs : list Z) (n : Z) : Prop :=
  forall base idx, (idx + length bs <= length base)%nat ->
    e (base, idx) = Some (n, (patch base idx bs, (idx + length bs)%nat)).

Lemma length_patch base idx bs :
  (idx + length bs <= length base)%nat -> length (patch base idx bs) = length base.
Proof. intros. unfold patch. len. Qed.

Lemma patch_lookup base idx bs i :
  (idx + length bs <= length base)%nat ->
  patch base idx bs !! i =
    if decide (idx <= i < idx + length bs)%nat then bs !! (i - idx)%nat else base !! i.
Proof. intros. apply mwrite_lookup. by rewrite mwrite_ok. Qed.

Lemma patch_app base idx bs1 bs2 :
  (idx + length bs1 + length bs2 <= length base)%nat ->
  patch (patch base idx bs1) (idx + length bs1) bs2 = patch base idx (bs1 ++ bs2).
Proof.
  intros. apply list_eq. intros i.
  rewrite !patch_lookup by (rewrite ?length_patch, ?length_app; lia). rewrite length_app.
  repeat case_decide; try lia; try done.
  - rewrite lookup_app_r by lia. f_equal. lia.
  - by rewrite lookup_app_l by lia.
Qed.

Lemma writes_ret n : writes (fun w => Some (n, w)) [] n.
Proof.
  intros base idx _. unfold patch. simpl. by rewrite Nat.add_0_r, take_drop.
Qed.

Lemma writes_bind (e : enc) (k : Z -> enc) bs1 bs2 n1 n2 :
  writes e bs1 n1 -> writes (k n1) bs2 n2 ->
  writes (fun w => '(n, w) ← e w; k n w) (bs1 ++ bs2) n2.
Proof.
  intros H1 H2 base idx Hl. rewrite length_app in Hl. rewrite H1 by lia. cbn [mbind option_bind].
  rewrite H2 by (rewrite length_patch; lia). rewrite patch_app, length_app by lia. do 3 f_equal. lia.
Qed.

Lemma awrite_patch base idx x : (idx < length base)%nat -> awrite base idx x = Some (patch base idx [x]).
Proof.
  intros. rewrite awrite_ok by done. unfold patch. simpl. rewrite insert_take_drop by done.
  by rewrite Nat.add_1_r.
Qed.

Lemma encode_uint8_writes v : writes (encode_uint8 v) [Z.land v 0xff] 1.
Proof.
  intros base idx Hl. simpl in Hl. unfold encode_uint8. rewrite awrite_patch by lia. simpl.
  do 3 f_equal. lia.
Qed.

Lemma encode_uint16_writes v : writes (encode_uint16 v) (be16 v) 2.
Proof.
  intros base idx Hl. simpl in Hl. unfold encode_uint16, be16. rewrite awrite_patch by lia.
  cbn [mbind option_bind]. rewrite awrite_patch by (rewrite length_patch; simpl; lia). cbn [mbind option_bind].
  change (1 + idx)%nat with (S idx). rewrite <- (Nat.add_1_r idx).
  rewrite (patch_app base idx [_] [_]) by (simpl; lia). done.
Qed.

Lemma encode_buf_writes p s : (s <= length p)%nat -> writes (encode_buf p s) (take s p) (Z.of_nat s).
Proof.
  intros Hs base idx Hl. unfold encode_buf. rewrite mread_ok by (simpl; lia). cbn [mbind option_bind].
  rewrite drop_0, mwrite_ok by done. cbn [mbind option_bind]. rewrite length_take in *.
  unfold patch. rewrite length_take. by rewrite Nat.min_l by lia.
Qed.

#[export] Hint Resolve encode_uint8_writes encode_uint16_writes encode_buf_writes : wire.

(** Sockets and common headers with arrays of the declared sizes. *)
Definition common_sized (c : p2p_common) : Prop := length (community c) = P2P_COMMUNITY_SIZE.
Definition sock_sized (s : p2p_sock) : Prop := length (addr s) = IPV6_SIZE.

Lemma encode_common_writes c : common_sized c -> writes (encode_common c) (common_bytes c) (-1).
Proof.
  intros Hc. unfold common_sized in Hc. unfold common_bytes.
  change (common_bytes c) with ([Z.land P2P_PKT_VERSION 0xff] ++ [Z.land (ttl c) 0xff] ++
    be16 (common_flags c) ++ take P2P_COMMUNITY_SIZE (community c)).
  rewrite <- (app_nil_r (take _ _)). change ([?a; ?b] ++ ?l) with ([a] ++ [b] ++ l).
  repeat (eapply writes_bind; [first [apply encode_uint8_writes|apply encode_uint16_writes|apply encode_buf_writes; lia]|]).
  apply writes_ret.
Qed.

Definition sock_len (s : p2p_sock) : Z :=
  if family s =? AF_INET then 8 else if family s =? AF_INET6 then 20 else -1.

Lemma encode_sock_writes s : sock_sized s -> writes (encode_sock s) (sock_bytes s) (sock_len s).
Proof.
  unfold sock_sized, sock_bytes, sock_len, encode_sock. intros Hs.
  destruct (family s =? AF_INET); [|destruct (family s =? AF_INET6); [|apply writes_ret]];
    rewrite <- (app_nil_r (take _ _));
    (eapply writes_bind; [apply encode_uint16_writes|]); (eapply writes_bind; [apply encode_uint16_writes|]);
    (eapply writes_bind; [apply encode_buf_writes; rewrite Hs; unfold IPV4_SIZE, IPV6_SIZE; lia|]);
    apply writes_ret.
Qed.

(** ** Decoders read them back *)

(** The bytes [bs] lie in [base] at [idx]. *)
Definition stored (base : list Z) (idx : nat) (bs : list Z) : Prop :=
  (idx + length bs <= length base)%nat /\ take (length bs) (drop idx base) = bs.

(** [d] reads [bs], yields [v] and returns [n]. *)
Definition reads {A} (d : list Z -> cursor -> option (Z * A * cursor)) (bs : list Z) (v : A) (n : Z) : Prop :=
  forall base rem idx, stored base idx bs -> (length bs <= rem)%nat ->
    d base (rem, idx) = Some (n, v, (rem - length bs, idx + length bs)%nat).

Lemma stored_app base idx bs1 bs2 :
  stored base idx (bs1 ++ bs2) -> stored base idx bs1 /\ stored base (idx + length bs1) bs2.
Proof.
  unfold stored. rewrite length_app. intros [Hl H].
  split; (split; [lia|]).
  - apply (f_equal (take (length bs1))) in H. rewrite take_app_length, take_take, Nat.min_l in H by lia. done.
  - apply (f_equal (drop (length bs1))) in H.
    by rewrite drop_app_length, <- take_drop_commute, drop_drop in H.
Qed.

Lemma stored_patch base idx bs : (idx + length bs <= length base)%nat -> stored (patch base idx bs) idx bs.
Proof.
  intros. split; [by rewrite length_patch|]. unfold patch.
  rewrite drop_app_length' by (rewrite length_take; lia).
  by rewrite take_app_length.
Qed.

Lemma stored_lookup base idx bs k x : stored base idx bs -> bs !! k = Some x -> base !! (idx + k)%nat = Some x.
Proof.
  intros [_ H] Hk. rewrite <- lookup_drop. rewrite <- H in Hk.
  by apply lookup_take_Some in Hk as [Hk _].
Qed.

Lemma reads_ret {A} n (v : A) : reads (fun _ s => Some (n, v, s)) [] v n.
Proof. intros base rem idx _ _. simpl. by rewrite Nat.sub_0_r, Nat.add_0_r. Qed.

Lemma reads_bind {A B} (d : list Z -> cursor -> option (Z * A * cursor))
    (k : Z -> A -> list Z -> cursor -> option (Z * B * cursor)) bs1 bs2 v1 v2 n1 n2 :
  reads d bs1 v1 n1 -> reads (k n1 v1) bs2 v2 n2 ->
  reads (fun base s => '(n, v, s) ← d base s; k n v base s) (bs1 ++ bs2) v2 n2.
Proof.
  intros H1 H2 base rem idx Hst Hl. apply stored_app in Hst as [Hs1 Hs2].
  rewrite length_app in *. rewrite H1 by (done || lia). cbn [mbind option_bind].
  rewrite H2 by (done || lia). do 3 f_equal; lia.
Qed.

Lemma land_ff v : Z.land v 0xff = v mod 256.
Proof. change 0xff with (Z.ones 8). by rewrite Z.land_ones by lia. Qed.

Lemma be16_value v :
  0 <= v < 2 ^ 16 ->
  u16 (Z.lor (u16 (Z.shiftl (Z.land (Z.land (Z.shiftr v 8) 0xff) 0xff) 8)) (Z.land (Z.land v 0xff) 0xff)) = v.
Proof.
  intros Hv. rewrite !land_ff, !Z.mod_mod, Z.shiftr_div_pow2 by lia.
  change (2 ^ 8) with 256. pose proof (Z.mod_pos_bound v 256 ltac:(lia)).
  rewrite (wrap_small 16 (Z.shiftl _ _)) by (rewrite Z.shiftl_mul_pow2 by lia; lia).
  rewrite lor_shift by lia. rewrite wrap_small by lia. lia.
Qed.

Lemma decode_uint8_reads out v : 0 <= v < 256 -> reads (decode_uint8 out) [Z.land v 0xff] v 1.
Proof.
  intros Hv base rem idx Hst Hl. simpl in Hl. unfold decode_uint8, aread.
  rewrite bool_decide_false by lia. pose proof (stored_lookup _ _ _ 0 _ Hst eq_refl) as Hx.
  rewrite Nat.add_0_r in Hx. rewrite Hx. simpl. rewrite !land_ff, Z.mod_mod, Z.mod_small by lia.
  do 3 f_equal. lia.
Qed.

Lemma decode_uint16_reads out v : 0 <= v < 2 ^ 16 -> reads (decode_uint16 out) (be16 v) v 2.
Proof.
  intros Hv base rem idx Hst Hl. simpl in Hl. unfold decode_uint16, aread.
  rewrite bool_decide_false by lia. pose proof (stored_lookup _ _ _ 0 _ Hst eq_refl) as Hx.
  pose proof (stored_lookup _ _ _ 1 _ Hst eq_refl) as Hy. rewrite Nat.add_0_r in Hx.
  rewrite Nat.add_comm in Hy. rewrite Hx. cbn [mbind option_bind]. rewrite Hy. cbn [mbind option_bind].
  rewrite be16_value by done. done.
Qed.

Lemma encode_uint32_writes v : writes (encode_uint32 v) (be32 v) 4.
Proof.
  intros base idx Hl. simpl in Hl. unfold encode_uint32, be32. cbn [Nat.add].
  rewrite awrite_patch by lia. cbn [mbind option_bind].
  rewrite <- (Nat.add_1_r idx), awrite_patch by (rewrite length_patch; simpl; lia). cbn [mbind option_bind].
  rewrite (patch_app base idx [_] [_]) by (simpl; lia). cbn [app].
  replace (S (idx + 1)) with (idx + 2)%nat by lia.
  rewrite awrite_patch by (rewrite length_patch; simpl; lia). cbn [mbind option_bind].
  rewrite (patch_app base idx [_; _] [_]) by (simpl; lia). cbn [app].
  replace (S (idx + 2)) with (idx + 3)%nat by lia.
  rewrite awrite_patch by (rewrite length_patch; simpl; lia). cbn [mbind option_bind].
  by rewrite (patch_app base idx [_; _; _] [_]) by (simpl; lia).
Qed.

Lemma be32_value a b c d :
  byte_range a -> byte_range b -> byte_range c -> byte_range d ->
  u32 (Z.lor (u32 (Z.lor (u32 (Z.lor (u32 (Z.shiftl a 24)) (Z.shiftl b 16))) (Z.shiftl c 8))) d) =
    a * 2 ^ 24 + b * 2 ^ 16 + c * 2 ^ 8 + d.
Proof.
  unfold byte_range. intros. rewrite (Z.shiftl_mul_pow2 b), (Z.shiftl_mul_pow2 c) by lia.
  rewrite (wrap_small 32 (Z.shiftl a 24)) by (rewrite Z.shiftl_mul_pow2; lia).
  rewrite lor_shift by lia. rewrite (wrap_small 32 (a * _ + _)) by lia.
  replace (a * 2 ^ 24 + b * 2 ^ 16) with (Z.shiftl (a * 2 ^ 8 + b) 16) by (rewrite Z.shiftl_mul_pow2; lia).
  rewrite lor_shift by lia. rewrite (wrap_small 32 (_ * 2 ^ 16 + _)) by lia.
  replace ((a * 2 ^ 8 + b) * 2 ^ 16 + c * 2 ^ 8) with (Z.shiftl ((a * 2 ^ 8 + b) * 2 ^ 8 + c) 8)
    by (rewrite Z.shiftl_mul_pow2; lia).
  rewrite lor_shift by lia. rewrite wrap_small by lia. rewrite Z.shiftl_mul_pow2 by lia. lia.
Qed.

Lemma decode_uint32_reads out v : 0 <= v < 2 ^ 32 -> reads (decode_uint32 out) (be32 v) v 4.
Proof.
  intros Hv base rem idx Hst Hl. simpl in Hl. unfold decode_uint32, aread.
  rewrite bool_decide_false by lia.
  pose proof (stored_lookup _ _ _ 0 _ Hst eq_refl) as H0. pose proof (stored_lookup _ _ _ 1 _ Hst eq_refl) as H1.
  pose proof (stored_lookup _ _ _ 2 _ Hst eq_refl) as H2. pose proof (stored_lookup _ _ _ 3 _ Hst eq_refl) as H3.
  rewrite (Nat.add_comm idx) in H0, H1, H2, H3.
  rewrite H0. cbn [mbind option_bind]. rewrite H1. cbn [mbind option_bind].
  rewrite H2. cbn [mbind option_bind]. rewrite H3. cbn [mbind option_bind].
  rewrite !land_ff, !Z.mod_mod by lia. rewrite be32_value by (unfold byte_range; lia).
  rewrite !Z.shiftr_div_pow2 by lia. do 3 f_equal. lia.
Qed.

Lemma decode_buf_reads out bs :
  (length bs <= length out)%nat ->
  reads (decode_buf (length bs) out) bs (bs ++ drop (length bs) out) (Z.of_nat (length bs)).
Proof.
  intros Ho base rem idx [Hb Hst] Hl. unfold decode_buf. rewrite bool_decide_false by lia.
  rewrite mread_ok by lia. cbn [mbind option_bind]. rewrite Hst, mwrite_ok by (simpl; lia). done.
Qed.

(** ** Headers and sockets that survive the wire *)

(** A common header as a decoder produces it. *)
Definition common_ok (c : p2p_common) : Prop :=
  common_sized c /\ byte_range (ttl c) /\
  0 <= pc c <= 0x1f /\ word_range (flags c) /\ Z.land (flags c) P2P_FLAGS_TYPE_MASK = 0.

(** A socket of one of the two families; an IPv4 address leaves the rest of the
    union zero. *)
Definition sock_ok (s : p2p_sock) : Prop :=
  sock_sized s /\ word_range (port s) /\
  (family s = AF_INET /\ drop IPV4_SIZE (addr s) = replicate 12 0 \/ family s = AF_INET6).

Lemma type_mask v : Z.land v P2P_FLAGS_TYPE_MASK = v mod 32.
Proof. change P2P_FLAGS_TYPE_MASK with (Z.ones 5). by rewrite Z.land_ones by lia. Qed.

Lemma bits_mask v : word_range v -> Z.land v P2P_FLAGS_BITS_MASK = v / 32 * 32.
Proof.
  intros Hv. unfold word_range in Hv.
  assert (Z.land v P2P_FLAGS_BITS_MASK = Z.ldiff (Z.land v (Z.ones 16)) (Z.ones 5)) as ->.
  { change P2P_FLAGS_BITS_MASK with (Z.ldiff (Z.ones 16) (Z.ones 5)). apply Z.bits_inj'. intros n _.
    rewrite !Z.ldiff_spec, !Z.land_spec, Z.ldiff_spec. by rewrite andb_assoc. }
  rewrite Z.land_ones, Z.mod_small by lia.
  by rewrite Z.ldiff_ones_r, Z.shiftr_div_pow2, Z.shiftl_mul_pow2 by lia.
Qed.

Lemma common_flags_split c :
  common_ok c ->
  word_range (common_flags c) /\
  Z.land (common_flags c) P2P_FLAGS_TYPE_MASK = pc c /\ Z.land (common_flags c) P2P_FLAGS_BITS_MASK = flags c.
Proof.
  intros (_ & _ & Hp & Hf & Hm). rewrite type_mask in Hm.
  assert (common_flags c = flags c + pc c) as ->.
  { unfold common_flags. rewrite type_mask, bits_mask by done. rewrite wrap_small by lia.
    rewrite Z.lor_comm. rewrite (Z.mod_small (pc c)) by lia.
    change 32 with (2 ^ 5) at 2. rewrite <- Z.shiftl_mul_pow2, lor_shift by lia. lia. }
  unfold word_range in *. assert (0 <= flags c + pc c < 2 ^ 16) as Hr by lia.
  split; [done|]. rewrite type_mask, bits_mask by done. lia.
Qed.

Lemma decode_common_reads out c :
  common_ok c -> length (community out) = P2P_COMMUNITY_SIZE ->
  reads (decode_common out) (common_bytes c) c 20.
Proof.
  intros Hc Ho base rem idx Hst Hl. destruct (common_flags_split c Hc) as (Hw & Hp & Hf).
  destruct Hc as (Hs & Ht & _). unfold common_sized in Hs.
  assert (common_bytes c = [Z.land P2P_PKT_VERSION 0xff] ++ [Z.land (ttl c) 0xff] ++
    be16 (common_flags c) ++ community c) as Hb.
  { unfold common_bytes. rewrite take_ge by lia. done. }
  rewrite Hb in *. rewrite !length_app, Hs in *. simpl in Hl. unfold decode_common.
  apply stored_app in Hst as [H1 Hst]. rewrite (decode_uint8_reads 0 2) by (done || simpl; lia).
  cbn [mbind option_bind]. rewrite Z.eqb_refl. cbn [negb].
  apply stored_app in Hst as [H2 Hst]. rewrite (decode_uint8_reads _ (ttl c)) by (done || simpl; lia).
  cbn [mbind option_bind]. apply stored_app in Hst as [H3 Hst].
  rewrite (decode_uint16_reads _ (common_flags c)) by (done || simpl; lia). cbn [mbind option_bind].
  rewrite <- Hs, decode_buf_reads by (done || simpl; lia). cbn [mbind option_bind].
  rewrite Hp, Hf, drop_ge, app_nil_r, Hs by lia. unfold P2P_COMMUNITY_SIZE. cbn [length be16 snd].
  replace (Z.of_nat (_ - _)) with 20 by lia. destruct c. cbn. do 3 f_equal; lia.
Qed.

Section Roundtrip.
Context (f0 : Z).

Lemma decode_sock_reads out s :
  sock_ok s -> sock_sized out -> reads (decode_sock f0 out) (sock_bytes s) s 0.
Proof.
  intros (Hs & Hp & Hf) Ho. unfold sock_sized in *. unfold sock_bytes, decode_sock.
  destruct Hf as [[Hf Hd]|Hf]; rewrite Hf; [|change (AF_INET6 =? AF_INET) with false]; rewrite Z.eqb_refl.
  - apply (reads_bind _ _ _ _ 0 _ 2); [apply decode_uint16_reads; lia|]. cbn -[be16 take].
    apply (reads_bind _ _ _ _ (port s) _ 2); [by apply decode_uint16_reads|].
    rewrite <- (app_nil_r (take _ _)). apply (reads_bind _ _ _ _ (addr s) _ 4); [|].
    + pose proof (decode_buf_reads (replicate IPV6_SIZE 0) (take IPV4_SIZE (addr s))) as H.
      rewrite length_take, Hs in H. change (Z.of_nat _) with 4 in H.
      replace (addr s) with (take IPV4_SIZE (addr s) ++ drop 4 (replicate IPV6_SIZE 0)) at 2.
      * apply H. simpl. unfold IPV6_SIZE. lia.
      * rewrite <- (take_drop IPV4_SIZE (addr s)) at 2. by rewrite Hd.
    + destruct s; simpl in *. subst. apply reads_ret.
  - apply (reads_bind _ _ _ _ 0x8000 _ 2); [apply decode_uint16_reads; lia|]. cbn -[be16 take].
    apply (reads_bind _ _ _ _ (port s) _ 2); [by apply decode_uint16_reads|].
    rewrite take_ge by (rewrite Hs; done). rewrite <- (app_nil_r (addr s)).
    apply (reads_bind _ _ _ _ (addr s) _ 16); [|destruct s; simpl in *; subst; apply reads_ret].
    pose proof (decode_buf_reads (addr out) (addr s)) as H. rewrite Hs, drop_ge, app_nil_r in H by lia.
    apply H. lia.
Qed.

(** A message: its encoder [e] writes exactly [bytes] in front of whatever
    follows, and decoding the common header and then the body with [d] gives
    back both and leaves the cursor behind the message. *)
Definition wire_roundtrip {A} (e : enc) (d : dec A) (bytes : list Z) (c : p2p_common) (v : A) : Prop :=
  forall base idx rem out v0,
    (idx + length bytes <= length base)%nat -> (length bytes <= rem)%nat ->
    length (community out) = P2P_COMMUNITY_SIZE ->
    exists n m base' s,
      e (base, idx) = Some (n, (base', (idx + length bytes)%nat)) /\ base' = patch base idx bytes /\
      decode_common out base' (rem, idx) = Some (20, c, s) /\
      d v0 base' s = Some (m, v, (rem - length bytes, idx + length bytes)%nat).

Lemma wire_roundtrip_intro {A} (e : enc) (d : dec A) bs c v :
  common_ok c -> (exists n, writes e (common_bytes c ++ bs) n) ->
  (exists m, forall v0, reads (d v0) bs v m) ->
  wire_roundtrip e d (common_bytes c ++ bs) c v.
Proof.
  intros Hc [n He] [m Hd] base idx rem out v0 Hb Hr Ho. pose proof (stored_patch _ _ _ Hb) as Hst.
  apply stored_app in Hst as [H1 H2]. rewrite length_app in Hr.
  eexists n, m, _, _. split; [by apply He|]. split; [done|].
  split; [apply decode_common_reads; [done|done|done|lia]|].
  rewrite Hd by (done || lia). rewrite length_app. do 3 f_equal; lia.
Qed.

Lemma decode_cookie_reads c :
  length c = P2P_COOKIE_SIZE -> reads (decode_buf P2P_COOKIE_SIZE cookie0) c c 4.
Proof.
  intros Hc. pose proof (decode_buf_reads cookie0 c) as H.
  rewrite Hc in H. rewrite drop_ge, app_nil_r in H by done. by apply H.
Qed.

Lemma encode_cookie_writes c : length c = P2P_COOKIE_SIZE -> writes (encode_buf c P2P_COOKIE_SIZE) c 4.
Proof.
  intros Hc. pose proof (encode_buf_writes c P2P_COOKIE_SIZE ltac:(lia)) as H. by rewrite take_ge in H by lia.
Qed.

Lemma sock0_sized : sock_sized sock0.
Proof. done. Qed.

#[local] Hint Resolve encode_common_writes encode_sock_writes encode_cookie_writes decode_cookie_reads
  decode_sock_reads decode_uint16_reads decode_uint8_reads sock0_sized writes_ret reads_ret : wire.
#[local] Hint Extern 1 (common_sized _) => (match goal with H : common_ok _ |- _ => apply H end) : wire.
#[local] Hint Extern 1 (sock_sized _) => (match goal with H : sock_ok ?s |- sock_sized ?s => apply H end) : wire.
#[local] Hint Extern 1 (word_range _) => (unfold word_range in *; lia) : wire.

Ltac write_step := eapply writes_bind; [eauto with wire; fail|]; cbv beta.
Ltac read_step := eapply reads_bind; [eauto with wire; fail|]; cbv beta.

Definition REGISTER_bytes (r : p2p_REGISTER) : list Z :=
  r_cookie r ++ sock_bytes (orig_sender r) ++ sock_bytes (dest_sock r).

Definition REGISTER_ok (r : p2p_REGISTER) : Prop :=
  length (r_cookie r) = P2P_COOKIE_SIZE /\ sock_ok (orig_sender r) /\ sock_ok (dest_sock r).

Lemma REGISTER_roundtrip c r :
  common_ok c -> REGISTER_ok r ->
  wire_roundtrip (encode_REGISTER c r) (decode_REGISTER f0) (common_bytes c ++ REGISTER_bytes r) c r.
Proof.
  intros Hc (H1 & H2 & H3). apply wire_roundtrip_intro; [done|eexists..].
  - unfold REGISTER_bytes. write_step. write_step. rewrite <- (app_nil_r (sock_bytes (dest_sock r))).
    write_step. write_step. apply writes_ret.
  - intros v0. unfold REGISTER_bytes, decode_REGISTER. rewrite <- (app_nil_r (sock_bytes (dest_sock r))).
    read_step. read_step. read_step. destruct r. apply reads_ret.
Qed.

Definition REGISTER_SUPER_bytes (r : p2p_REGISTER_SUPER) : list Z := s_cookie r ++ be16 0 ++ be16 0.

(** The encoder sends no authentication data, so only that comes back. *)
Definition REGISTER_SUPER_ok (r : p2p_REGISTER_SUPER) : Prop :=
  length (s_cookie r) = P2P_COOKIE_SIZE /\ auth r = auth0.

Lemma zero_word : 0 <= 0 < 2 ^ 16.
Proof. lia. Qed.
#[local] Hint Resolve zero_word : wire.

Lemma decode_empty_reads out : reads (decode_buf 0 out) [] out 0.
Proof. apply (decode_buf_reads out []). simpl. lia. Qed.
#[local] Hint Resolve decode_empty_reads : wire.

Lemma REGISTER_SUPER_roundtrip c r :
  common_ok c -> REGISTER_SUPER_ok r ->
  wire_roundtrip (encode_REGISTER_SUPER c r) decode_REGISTER_SUPER
    (common_bytes c ++ REGISTER_SUPER_bytes r) c r.
Proof.
  intros Hc (H1 & H2). apply wire_roundtrip_intro; [done|eexists..].
  - unfold REGISTER_SUPER_bytes. write_step. write_step. rewrite <- (app_nil_r (be16 0)) at 2.
    write_step. write_step. apply writes_ret.
  - intros v0. unfold REGISTER_SUPER_bytes, decode_REGISTER_SUPER. rewrite <- (app_nil_r (be16 0)) at 2.
    rewrite <- (app_nil_r (nil (A := Z))). read_step. read_step. read_step. read_step.
    destruct r; simpl in *. subst. apply reads_ret.
Qed.

(** The flag that says a socket follows agrees with the socket. *)
Definition opt_sock_ok (c : p2p_common) (s : p2p_sock) : Prop :=
  Z.land (flags c) P2P_FLAGS_SOCKET <> 0 /\ sock_ok s \/
  Z.land (flags c) P2P_FLAGS_SOCKET = 0 /\ s = sock0.

Definition REGISTER_ACK_bytes (r : p2p_REGISTER_ACK) : list Z := a_cookie r ++ sock_bytes (a_sock r).

Definition REGISTER_ACK_ok (c : p2p_common) (r : p2p_REGISTER_ACK) : Prop :=
  length (a_cookie r) = P2P_COOKIE_SIZE /\ opt_sock_ok c (a_sock r).

Lemma sock_ok_family s : sock_ok s -> (family s =? 0) = false.
Proof. intros (_ & _ & [[-> _]| ->]); done. Qed.

Lemma REGISTER_ACK_roundtrip c r :
  common_ok c -> REGISTER_ACK_ok c r ->
  wire_roundtrip (encode_REGISTER_ACK c r) (decode_REGISTER_ACK f0 c)
    (common_bytes c ++ REGISTER_ACK_bytes r) c r.
Proof.
  intros Hc (H1 & H2). unfold REGISTER_ACK_bytes.
  apply wire_roundtrip_intro; [done|..]; destruct H2 as [[Hf Hs]|[Hf Hs]]; eexists.
  - write_step. write_step. rewrite (sock_ok_family _ Hs). cbn [negb]. rewrite <- (app_nil_r (sock_bytes _)).
    write_step. apply writes_ret.
  - write_step. write_step. rewrite Hs. apply writes_ret.
  - intros v0. unfold decode_REGISTER_ACK. read_step. rewrite (proj2 (Z.eqb_neq _ _) Hf). cbn [negb].
    rewrite <- (app_nil_r (sock_bytes _)). read_step. destruct r. apply reads_ret.
  - intros v0. unfold decode_REGISTER_ACK. read_step. rewrite Hf. cbn [negb Z.eqb].
    rewrite Hs. destruct r; simpl in *. subst. apply reads_ret.
Qed.

Definition PACKET_ok (c : p2p_common) (r : p2p_PACKET) : Prop := opt_sock_ok c (p_sock r).

Lemma PACKET_roundtrip c r :
  common_ok c -> PACKET_ok c r ->
  wire_roundtrip (encode_PACKET c r) (decode_PACKET f0 c) (common_bytes c ++ sock_bytes (p_sock r)) c r.
Proof.
  intros Hc H2. apply wire_roundtrip_intro; [done|..]; destruct H2 as [[Hf Hs]|[Hf Hs]]; eexists.
  - write_step. rewrite (sock_ok_family _ Hs). cbn [negb]. rewrite <- (app_nil_r (sock_bytes _)).
    write_step. apply writes_ret.
  - write_step. rewrite Hs. apply writes_ret.
  - intros v0. unfold decode_PACKET. rewrite (proj2 (Z.eqb_neq _ _) Hf). cbn [negb].
    rewrite <- (app_nil_r (sock_bytes _)). read_step. destruct r. apply reads_ret.
  - intros v0. unfold decode_PACKET. rewrite Hf. cbn [negb Z.eqb].
    rewrite Hs. destruct r; simpl in *. subst. apply reads_ret.
Qed.

Definition REGISTER_SUPER_ACK_bytes (r : p2p_REGISTER_SUPER_ACK) : list Z :=
  sa_cookie r ++ be16 (lifetime r) ++ sock_bytes (sa_sock r) ++ [Z.land (num_sn r) 0xff] ++
  opt_bytes (num_sn r >? 0) (sock_bytes (sn_bak r)).

Definition REGISTER_SUPER_ACK_ok (r : p2p_REGISTER_SUPER_ACK) : Prop :=
  length (sa_cookie r) = P2P_COOKIE_SIZE /\ word_range (lifetime r) /\ sock_ok (sa_sock r) /\
  byte_range (num_sn r) /\ (num_sn r > 0 /\ sock_ok (sn_bak r) \/ num_sn r = 0 /\ sn_bak r = sock0).

Lemma REGISTER_SUPER_ACK_roundtrip c r :
  common_ok c -> REGISTER_SUPER_ACK_ok r ->
  wire_roundtrip (encode_REGISTER_SUPER_ACK c r) (decode_REGISTER_SUPER_ACK f0)
    (common_bytes c ++ REGISTER_SUPER_ACK_bytes r) c r.
Proof.
  intros Hc (H1 & H2 & H3 & H4 & H5). unfold REGISTER_SUPER_ACK_bytes.
  apply wire_roundtrip_intro; [done|..]; destruct H5 as [[Hn Hs]|[Hn Hs]]; eexists.
  - do 5 write_step. rewrite Z.gtb_ltb, (proj2 (Z.ltb_lt _ _)) by lia. unfold opt_bytes.
    rewrite <- (app_nil_r (sock_bytes (sn_bak r))). write_step. apply writes_ret.
  - do 5 write_step. rewrite Hn. apply writes_ret.
  - intros v0. unfold decode_REGISTER_SUPER_ACK. do 4 read_step.
    rewrite Z.gtb_ltb, (proj2 (Z.ltb_lt _ _)) by lia. unfold opt_bytes.
    rewrite <- (app_nil_r (sock_bytes (sn_bak r))). read_step. destruct r. apply reads_ret.
  - intros v0. unfold decode_REGISTER_SUPER_ACK. do 4 read_step. rewrite Hn.
    destruct r; simpl in *. subst. apply reads_ret.
Qed.
End Roundtrip.

(** ** Decoders on arbitrary input *)

(** [d] is defined on every buffer that holds the remaining bytes, consumes what
    it takes off [rem], and its result satisfies [P]. *)
Definition safe {A} (P : A -> Prop) (d : list Z -> cursor -> option (Z * A * cursor)) : Prop :=
  forall base rem idx, (idx + rem <= length base)%nat ->
    exists n v rem' idx', d base (rem, idx) = Some (n, v, (rem', idx')) /\
      (idx' + rem' = idx + rem)%nat /\ P v.

Lemma safe_ret {A} (P : A -> Prop) n v : P v -> safe P (fun _ s => Some (n, v, s)).
Proof. intros Hv base rem idx _. by eexists _, _, _, _. Qed.

Lemma safe_bind {A B} (P : A -> Prop) (Q : B -> Prop) d (k : Z -> A -> list Z -> cursor -> option (Z * B * cursor)) :
  safe P d -> (forall n v, P v -> safe Q (k n v)) ->
  safe Q (fun base s => '(n, v, s) ← d base s; k n v base s).
Proof.
  intros H1 H2 base rem idx Hb. destruct (H1 base rem idx Hb) as (n & v & rem' & idx' & -> & He & Hv).
  cbn [mbind option_bind]. destruct (H2 n v Hv base rem' idx' ltac:(lia)) as (n2 & v2 & r2 & i2 & -> & He2 & Hv2).
  eexists _, _, _, _. split; [done|]. split; [lia|done].
Qed.

Lemma lookup_in (base : list Z) i : (i < length base)%nat -> exists b, aread base i = Some b.
Proof. intros H. by destruct (lookup_lt_is_Some_2 base i H) as [b Hb]; exists b. Qed.

Lemma decode_uint8_safe out : byte_range out -> safe byte_range (decode_uint8 out).
Proof.
  intros Ho base rem idx Hb. unfold decode_uint8. case_bool_decide; [by eexists _, _, _, _|].
  destruct (lookup_in base idx ltac:(lia)) as [b ->]. simpl. eexists _, _, _, _. split; [done|].
  split; [lia|]. rewrite land_ff. unfold byte_range. lia.
Qed.

Lemma decode_uint16_safe out : safe (fun v => v = out \/ word_range v) (decode_uint16 out).
Proof.
  intros base rem idx Hb. unfold decode_uint16. case_bool_decide.
  { eexists _, _, _, _. split; [done|]. split; [done|by left]. }
  destruct (lookup_in base idx ltac:(lia)) as [b ->]. cbn [mbind option_bind].
  destruct (lookup_in base (1 + idx) ltac:(lia)) as [b' ->]. cbn [mbind option_bind].
  eexists _, _, _, _. split; [done|]. split; [lia|]. right. by apply wrap_range.
Qed.

Lemma decode_buf_safe n out :
  (n <= length out)%nat -> safe (fun v => length v = length out) (decode_buf n out).
Proof.
  intros Hn base rem idx Hb. unfold decode_buf. case_bool_decide; [by eexists _, _, _, _|].
  rewrite mread_ok by lia. cbn [mbind option_bind].
  assert (length (take n (drop idx base)) = n) as Hl by (rewrite length_take, length_drop; lia).
  rewrite mwrite_ok by (rewrite Hl; lia). cbn [mbind option_bind].
  eexists _, _, _, _. split; [done|]. split; [lia|]. rewrite !length_app, length_drop, Hl. simpl. lia.
Qed.

Ltac safe_step lem := eapply safe_bind; [apply lem; try done|cbv beta; intros ? ? ?].

Section Safe.
Context (f0 : Z).

Lemma decode_sock_safe out : sock_sized out -> safe sock_sized (decode_sock f0 out).
Proof.
  intros Ho. unfold decode_sock. safe_step decode_uint16_safe. case_match.
  - safe_step decode_uint16_safe. safe_step decode_buf_safe; [by rewrite Ho|].
    apply safe_ret. unfold sock_sized in *. simpl. congruence.
  - safe_step decode_uint16_safe. safe_step decode_buf_safe; [simpl; unfold IPV4_SIZE; lia|].
    apply safe_ret. done.
Qed.

Lemma decode_common_safe out : common_sized out -> byte_range (ttl out) -> safe common_sized (decode_common out).
Proof.
  intros Ho Ht base rem idx Hb. unfold decode_common.
  destruct (decode_uint8_safe 0 ltac:(done) base rem idx Hb) as (n1 & v1 & r1 & i1 & -> & H1 & _).
  cbn [mbind option_bind]. case_match; [by eexists _, _, _, _|].
  destruct (decode_uint8_safe _ Ht base r1 i1 ltac:(lia)) as (n2 & v2 & r2 & i2 & -> & H2 & _).
  cbn [mbind option_bind].
  destruct (decode_uint16_safe (flags out) base r2 i2 ltac:(lia)) as (n3 & v3 & r3 & i3 & -> & H3 & _).
  cbn [mbind option_bind].
  destruct (decode_buf_safe P2P_COMMUNITY_SIZE (community out) ltac:(by rewrite Ho) base r3 i3 ltac:(lia))
    as (n4 & v4 & r4 & i4 & -> & H4 & Hl).
  cbn [mbind option_bind]. eexists _, _, _, _. split; [done|]. split; [lia|].
  unfold common_sized in *. simpl. congruence.
Qed.

Lemma message_decoders_safe cmn v1 v2 v3 v4 :
  safe (fun _ => True) (decode_REGISTER f0 v1) /\ safe (fun _ => True) (decode_REGISTER_ACK f0 cmn v2) /\
  safe (fun _ => True) (decode_REGISTER_SUPER_ACK f0 v3) /\ safe (fun _ => True) (decode_PACKET f0 cmn v4).
Proof.
  split_and!.
  - unfold decode_REGISTER. safe_step decode_buf_safe. do 2 safe_step decode_sock_safe. by apply safe_ret.
  - unfold decode_REGISTER_ACK. safe_step decode_buf_safe. case_match; [|by apply safe_ret].
    safe_step decode_sock_safe. by apply safe_ret.
  - unfold decode_REGISTER_SUPER_ACK. safe_step decode_buf_safe. safe_step decode_uint16_safe.
    safe_step decode_sock_safe. safe_step decode_uint8_safe. case_match; [|by apply safe_ret].
    safe_step decode_sock_safe. by apply safe_ret.
  - unfold decode_PACKET. case_match; [|by apply safe_ret]. safe_step decode_sock_safe. by apply safe_ret.
Qed.
End Safe.

(** The token size on the wire. *)
Definition wire_toksize (b0 b1 : Z) : Z :=
  u16 (Z.lor (u16 (Z.shiftl (Z.land b0 0xff) 8)) (Z.land b1 0xff)).

(** The token field written past its 32 bytes. *)
Definition token_overflow (base : list Z) (rem idx : nat) : Prop :=
  exists b0 b1, (8 <= rem)%nat /\ base !! (idx + 6)%nat = Some b0 /\ base !! (idx + 7)%nat = Some b1 /\
    32 < wire_toksize b0 b1 <= Z.of_nat rem - 8.

Lemma decode_token_overflow t base rem idx :
  0 <= t -> (idx + rem <= length base)%nat ->
  decode_buf (Z.to_nat t) (token auth0) base (rem, idx) = None <-> 32 < t <= Z.of_nat rem.
Proof.
  intros Ht Hb. unfold decode_buf. case_bool_decide; [split; [done|lia]|].
  rewrite mread_ok by lia. cbn [mbind option_bind]. unfold mwrite.
  rewrite length_take, length_drop. change (length (token auth0)) with 32%nat.
  case_bool_decide; split; try done; lia.
Qed.

Lemma decode_REGISTER_SUPER_overflow v0 base rem idx :
  (idx + rem <= length base)%nat ->
  decode_REGISTER_SUPER v0 base (rem, idx) = None <-> token_overflow base rem idx.
Proof.
  intros Hb. unfold decode_REGISTER_SUPER, token_overflow. destruct (decide (8 <= rem)%nat) as [H8|H8].
  - assert (exists ck, decode_buf P2P_COOKIE_SIZE cookie0 base (rem, idx) =
      Some (4, ck, (rem - 4, idx + 4)%nat)) as [ck ->].
    { unfold decode_buf, P2P_COOKIE_SIZE. rewrite bool_decide_false, mread_ok by lia. cbn [mbind option_bind].
      rewrite mwrite_ok by (rewrite length_take, length_drop; change (length cookie0) with 4%nat; lia). by eexists. }
    cbn [mbind option_bind]. unfold decode_uint16. rewrite bool_decide_false by lia.
    destruct (lookup_in base (idx + 4) ltac:(lia)) as [b4 ->]. cbn [mbind option_bind].
    destruct (lookup_in base (1 + (idx + 4)) ltac:(lia)) as [b5 ->]. cbn [mbind option_bind].
    rewrite bool_decide_false by lia.
    destruct (lookup_in base (idx + 4 + 2) ltac:(lia)) as [b6 H6]. rewrite H6. cbn [mbind option_bind].
    destruct (lookup_in base (1 + (idx + 4 + 2)) ltac:(lia)) as [b7 H7]. rewrite H7. cbn [mbind option_bind].
    replace (idx + 6)%nat with (idx + 4 + 2)%nat by lia. replace (idx + 7)%nat with (1 + (idx + 4 + 2))%nat by lia.
    unfold aread in H6, H7. rewrite H6, H7. fold (wire_toksize b6 b7).
    pose proof (decode_token_overflow (wire_toksize b6 b7) base (rem - 4 - 2 - 2) (idx + 4 + 2 + 2)) as H.
    destruct (decode_buf (Z.to_nat _) _ _ _) as [[[n tk] s]|] eqn:E; cbn [mbind option_bind].
    + split; [done|]. intros (b0 & b1 & _ & [= <-] & [= <-] & Ht).
      assert (Some (n, tk, s) = None) as [=]. apply H; [|lia|lia]. by apply wrap_range.
    + split; [intros _|done]. eexists _, _. split; [done|]. split; [done|]. split; [done|].
      assert (0 <= wire_toksize b6 b7) by by apply wrap_range.
      assert (32 < wire_toksize b6 b7 <= Z.of_nat (rem - 4 - 2 - 2)) by (apply H; [done|lia|done]). lia.
  - split; [|intros (? & ? & ? & _); lia]. intros Hn. exfalso.
    destruct (decode_buf_safe P2P_COOKIE_SIZE cookie0 ltac:(done) base rem idx Hb) as (n1 & c & r1 & i1 & E1 & H1 & _).
    rewrite E1 in Hn. cbn [mbind option_bind] in Hn.
    assert (r1 <= 3)%nat as Hr1.
    { unfold decode_buf, P2P_COOKIE_SIZE in E1. case_bool_decide; [simplify_eq; lia|].
      apply bind_Some in E1 as (? & _ & E1). apply bind_Some in E1 as (? & _ & E1). simplify_eq. lia. }
    destruct (decode_uint16_safe (scheme auth0) base r1 i1 ltac:(lia)) as (n2 & c2 & r2 & i2 & E2 & H2 & _).
    rewrite E2 in Hn. cbn [mbind option_bind] in Hn.
    assert (r2 <= 1)%nat as Hr2.
    { unfold decode_uint16 in E2. case_bool_decide; [simplify_eq; lia|].
      apply bind_Some in E2 as (? & _ & E2). apply bind_Some in E2 as (? & _ & E2). simplify_eq. lia. }
    unfold decode_uint16 in Hn. rewrite bool_decide_true in Hn by lia. cbn [mbind option_bind] in Hn.
    destruct (decode_buf_safe 0 (token auth0) ltac:(simpl; lia) base r2 i2 ltac:(lia)) as (n4 & c4 & r4 & i4 & E4 & _).
    change (Z.to_nat (toksize auth0)) with 0%nat in Hn. rewrite E4 in Hn. done.
Qed.

(** ** The theorems *)

(** C33: every message survives the wire: encoding it in a buffer with room
    writes exactly its bytes, and decoding the common header and the body from
    that buffer, whatever surrounds them, gives the same header and the same
    body with the cursor behind the message. *)
Theorem p2p_wire_roundtrip f0 c :
  common_ok c ->
  (forall r, REGISTER_ok r -> wire_roundtrip (encode_REGISTER c r) (decode_REGISTER f0)
     (common_bytes c ++ REGISTER_bytes r) c r) /\
  (forall r, REGISTER_ACK_ok c r -> wire_roundtrip (encode_REGISTER_ACK c r) (decode_REGISTER_ACK f0 c)
     (common_bytes c ++ REGISTER_ACK_bytes r) c r) /\
  (forall r, REGISTER_SUPER_ok r -> wire_roundtrip (encode_REGISTER_SUPER c r) decode_REGISTER_SUPER
     (common_bytes c ++ REGISTER_SUPER_bytes r) c r) /\
  (forall r, REGISTER_SUPER_ACK_ok r ->
     wire_roundtrip (encode_REGISTER_SUPER_ACK c r) (decode_REGISTER_SUPER_ACK f0)
       (common_bytes c ++ REGISTER_SUPER_ACK_bytes r) c r) /\
  (forall r, PACKET_ok c r -> wire_roundtrip (encode_PACKET c r) (decode_PACKET f0 c)
     (common_bytes c ++ sock_bytes (p_sock r)) c r).
Proof.
  intros Hc. split_and!; intros r Hr.
  - by apply REGISTER_roundtrip.
  - by apply REGISTER_ACK_roundtrip.
  - by apply REGISTER_SUPER_roundtrip.
  - by apply REGISTER_SUPER_ACK_roundtrip.
  - by apply PACKET_roundtrip.
Qed.

(** on any input, truncated or garbled, the decoders of REGISTER,
    REGISTER_ACK, REGISTER_SUPER_ACK and PACKET read only the [rem] bytes they
    were given and write only inside their records. *)
Theorem p2p_decoders_in_bounds f0 cmn v1 v2 v3 v4 :
  safe (fun _ => True) (decode_REGISTER f0 v1) /\ safe (fun _ => True) (decode_REGISTER_ACK f0 cmn v2) /\
  safe (fun _ => True) (decode_REGISTER_SUPER_ACK f0 v3) /\ safe (fun _ => True) (decode_PACKET f0 cmn v4).
Proof. apply message_decoders_safe. Qed.

(** [decode_REGISTER_SUPER] writes outside the 32-byte token exactly when
    the sender announces more than 32 bytes and the packet holds them. *)
Theorem decode_REGISTER_SUPER_token_bound v0 base rem idx :
  (idx + rem <= length base)%nat ->
  decode_REGISTER_SUPER v0 base (rem, idx) = None <-> token_overflow base rem idx.
Proof. apply decode_REGISTER_SUPER_overflow. Qed.

(** ** Witnesses *)

Definition demo_common : p2p_common := Common 2 5 0x40 (replicate 16 65).

Lemma demo_common_ok : common_ok demo_common.
Proof.
  unfold common_ok, common_sized, byte_range, word_range. split_and!; vm_compute; done.
Qed.

Definition demo_sock : p2p_sock := Sock AF_INET 4000 ([127; 0; 0; 1] ++ replicate 12 0).

Lemma demo_sock_ok : sock_ok demo_sock.
Proof.
  split; [done|]. split; [unfold word_range; simpl; lia|]. left. done.
Qed.

(** A REGISTER message of 20 + 4 + 8 + 8 bytes goes through a 64-byte buffer. *)
Lemma p2p_wire_roundtrip_witness :
  let r := REGISTER [1; 2; 3; 4] demo_sock demo_sock in
  wire_roundtrip (encode_REGISTER demo_common r) (decode_REGISTER 0)
    (common_bytes demo_common ++ REGISTER_bytes r) demo_common r /\
  length (common_bytes demo_common ++ REGISTER_bytes r) = 40%nat.
Proof.
  split; [|reflexivity].
  apply (p2p_wire_roundtrip 0 demo_common demo_common_ok).
  split; [done|]. split; apply demo_sock_ok.
Defined.

Lemma decode_REGISTER_SUPER_token_bound_witness :
  let pkt := [1; 2; 3; 4; 0; 0; 0; 40] ++ replicate 40 255 in
  decode_REGISTER_SUPER (REGISTER_SUPER cookie0 auth0) pkt (48, 0)%nat = None.
Proof.
  apply (decode_REGISTER_SUPER_token_bound (REGISTER_SUPER cookie0 auth0)
           ([1; 2; 3; 4; 0; 0; 0; 40] ++ replicate 40 255) 48 0); [simpl; lia|].
  exists 0, 40. split; [lia|]. split; [done|]. split; [done|]. vm_compute. split; [done|intros [=]].
Defined.

(** The results do not count the bytes: [encode_common] adds -1 instead of 20,
    and the two sockets of a REGISTER count for nothing when it is decoded. *)
Example encode_REGISTER_result :
  fst <$> encode_REGISTER demo_common (REGISTER [1; 2; 3; 4] demo_sock demo_sock) (replicate 64 0, 0%nat) = Some 19.
Proof. vm_compute. reflexivity. Qed.

Example decode_REGISTER_result base :
  base = sock_bytes demo_sock ->
  (fun x => x.1.1) <$> decode_REGISTER 0 (REGISTER [] sock0 sock0) ([1; 2; 3; 4] ++ base ++ base) (20, 0)%nat = Some 4.
Proof. intros ->. vm_compute. reflexivity. Qed.
