(* ===== verification/Benc.v ===== *)
(** Bencoding: [libbt/misc/benc.c].

    The encoded text lies in a block [m] at address [base]; a pointer into it is
    its offset, and adding a length to a pointer wraps at 64 bits ([padd]).
    [None] is a read outside the block, a failed assertion or a run that does
    not end within the fuel. *)
From S2P Require Import Prelude.
Local Open Scope Z_scope.

Definition ch_d : Z := 100.
Definition ch_l : Z := 108.
Definition ch_i : Z := 105.
Definition ch_e : Z := 101.
Definition ch_minus : Z := 45.
Definition ch_colon : Z := 58.

Definition isdigit (c : Z) : bool := (48 <=? c) && (c <=? 57).

(** ** The grammar *)

Inductive bval :=
  | BStr (s : list Z)
  | BInt (neg : bool) (digits : list Z)
  | BList (l : list bval)
  | BDict (l : list bval).

Definition dec_step (a c : Z) : Z := a * 10 + (c - 48).
Definition dec (ds : list Z) : Z := foldl dec_step 0 ds.
Definition digits (ds : list Z) : Prop := ds <> [] /\ Forall (fun c => isdigit c = true) ds.

Definition is_key (v : bval) : Prop := match v with BStr _ => True | _ => False end.

(** The members of a dictionary: keys and values in turn. *)
Inductive pairs : list bval -> Prop :=
  | pairs_nil : pairs []
  | pairs_cons k v l : is_key k -> pairs l -> pairs (k :: v :: l).

(** [benc v bs]: the bytes [bs] encode [v].  Lengths and integers may have
    leading zeros and dictionaries need not be sorted, as in the validator. *)
Inductive benc : bval -> list Z -> Prop :=
  | benc_string ds s :
      digits ds -> dec ds = Z.of_nat (length s) -> benc (BStr s) (ds ++ ch_colon :: s)
  | benc_integer (neg : bool) ds :
      digits ds -> benc (BInt neg ds) (ch_i :: (if neg then [ch_minus] else []) ++ ds ++ [ch_e])
  | benc_list l bs : bencs l bs -> benc (BList l) (ch_l :: bs ++ [ch_e])
  | benc_dict l bs : bencs l bs -> pairs l -> benc (BDict l) (ch_d :: bs ++ [ch_e])
with bencs : list bval -> list Z -> Prop :=
  | bencs_nil : bencs [] []
  | bencs_cons v l bs1 bs2 : benc v bs1 -> bencs l bs2 -> bencs (v :: l) (bs1 ++ bs2).

Scheme benc_mind := Induction for benc Sort Prop
  with bencs_mind := Induction for bencs Sort Prop.
Combined Scheme benc_bencs_ind from benc_mind, bencs_mind.

Section Text.
Context (m : list Z) (base : Z).

Definition rd (p : Z) : option Z := if 0 <=? p then m !! Z.to_nat p else None.

(** Pointer plus [size_t]. *)
Definition padd (p n : Z) : Z := u64 (base + p + n) - base.

(** ** The validator *)

Section Validate.
Context (end_ : Z).

Fixpoint vdigits (fuel : nat) (p len : Z) : option (Z * Z) :=
  match fuel with
  | O => None
  | S fuel =>
      if p <=? end_ then
        c ← rd p;
        if isdigit c then vdigits fuel (p + 1) (u64 (u64 (len * 10) + (c - 48)))
        else Some (len, p)
      else Some (len, p)
  end.

(** The case ['i']: the digits and the ['e'], and the sign in front. *)
Definition validate_int_digits (p : Z) : option (option Z) :=
  if p >? end_ then Some None
  else
    c ← rd p;
    if negb (isdigit c) then Some None
    else
      '(_, p) ← vdigits (S (length m)) (p + 1) 0;
      if p >? end_ then Some None
      else c ← rd p; if negb (c =? ch_e) then Some None else Some (Some p).

Definition validate_int (p : Z) : option (option Z) :=
  let p := p + 1 in
  if p >? end_ then Some None
  else
    c ← rd p;
    validate_int_digits (if c =? ch_minus then p + 1 else p).

(** The default case, entered at a digit. *)
Definition validate_str (p : Z) : option (option Z) :=
  '(len, p) ← vdigits (S (length m)) p 0;
  if p <=? end_ then
    c ← rd p;
    if (c =? ch_colon) && (padd p len <=? end_) then Some (Some (padd p len)) else Some None
  else Some None.

(** [Some None] is [NULL].  [d] counts the members of a dictionary from 1 and
    stays 0 in a list. *)
Fixpoint benc_validate_aux (fuel : nat) (p : Z) : option (option Z) :=
  match fuel with
  | O => None
  | S fuel =>
      c ← rd p;
      if c =? ch_d then validate_members fuel 1 (p + 1)
      else if c =? ch_l then validate_members fuel 0 (p + 1)
      else if c =? ch_i then validate_int p
      else if isdigit c then validate_str p
      else Some None
  end
with validate_members (fuel : nat) (d : nat) (p : Z) : option (option Z) :=
  match fuel with
  | O => None
  | S fuel =>
      let leave p := if (p >? end_) || (negb (d =? 0)%nat && negb (d mod 2 =? 1)%nat)
                     then Some None else Some (Some p) in
      if p <=? end_ then
        c ← rd p;
        if c =? ch_e then leave p
        else if negb (d =? 0)%nat && (d mod 2 =? 1)%nat && negb (isdigit c) then Some None
        else
          let d := if (d =? 0)%nat then d else S d in
          r ← benc_validate_aux fuel p;
          match r with
          | None => Some None
          | Some p => validate_members fuel d (p + 1)
          end
      else leave p
  end.

Lemma benc_validate_aux_S fuel p :
  benc_validate_aux (S fuel) p =
    (c ← rd p;
     if c =? ch_d then validate_members fuel 1 (p + 1)
     else if c =? ch_l then validate_members fuel 0 (p + 1)
     else if c =? ch_i then validate_int p
     else if isdigit c then validate_str p
     else Some None).
Proof. done. Qed.

Lemma validate_members_S fuel d p :
  validate_members (S fuel) d p =
    (let leave p := if (p >? end_) || (negb (d =? 0)%nat && negb (d mod 2 =? 1)%nat)
                    then Some None else Some (Some p) in
     if p <=? end_ then
       c ← rd p;
       if c =? ch_e then leave p
       else if negb (d =? 0)%nat && (d mod 2 =? 1)%nat && negb (isdigit c) then Some None
       else
         r ← benc_validate_aux fuel p;
         match r with
         | None => Some None
         | Some p => validate_members fuel (if (d =? 0)%nat then d else S d) (p + 1)
         end
     else leave p).
Proof. done. Qed.
End Validate.

(** 0 for a valid text, [EINVAL] otherwise. *)
Definition EINVAL : Z := 22.

Definition benc_validate (fuel : nat) (len : Z) : option Z :=
  if len <=? 0 then Some EINVAL
  else
    r ← benc_validate_aux (len - 1) fuel 0;
    match r with
    | Some p => Some (if p =? len - 1 then 0 else EINVAL)
    | None => Some EINVAL
    end.

(** ** Accessors *)

Definition benc_islst (p : Z) : option bool := c ← rd p; Some ((c =? ch_l) || (c =? ch_d)).
Definition benc_isdct (p : Z) : option bool := c ← rd p; Some (c =? ch_d).
Definition benc_isint (p : Z) : option bool := c ← rd p; Some (c =? ch_i).
Definition benc_isstr (p : Z) : option bool := c ← rd p; Some (isdigit c).

(** [strtoul(p, &endptr, 10)] at a digit: the value, [ULONG_MAX] on overflow, and
    [endptr]. *)
Fixpoint strtoul_loop (fuel : nat) (p acc : Z) : option (Z * Z) :=
  match fuel with
  | O => None
  | S fuel =>
      c ← rd p;
      if isdigit c then strtoul_loop fuel (p + 1) (dec_step acc c) else Some (Z.min acc (2 ^ 64 - 1), p)
  end.
Definition strtoul (p : Z) : option (Z * Z) := strtoul_loop (S (length m)) p 0.

(** What [benc_mem] returns and stores: the bytes, their number and, when
    [next] is asked for, the element after the string ([None] for [NULL]). *)
Record mem_result := Mem { mem_ptr : Z; mem_len : Z }.

Definition benc_mem (p : Z) : option (option mem_result) :=
  s ← benc_isstr p;
  if negb s then Some None
  else
    '(blen, endptr) ← strtoul p;
    c ← rd endptr;
    _ ← ensure (c =? ch_colon);
    Some (Some (Mem (endptr + 1) blen)).

(** The store through [next]. *)
Definition mem_next (r : mem_result) : option (option Z) :=
  let q := padd (mem_ptr r) (mem_len r) in
  c ← rd q; Some (if c =? ch_e then None else Some q).

Fixpoint find_e (fuel : nat) (p : Z) : option Z :=
  match fuel with
  | O => None
  | S fuel => c ← rd p; if c =? ch_e then Some p else find_e fuel (p + 1)
  end.

Fixpoint benc_length (fuel : nat) (p : Z) : option Z :=
  match fuel with
  | O => None
  | S fuel =>
      c ← rd p;
      if (c =? ch_d) || (c =? ch_l) then length_members fuel 2 (p + 1)
      else if c =? ch_i then
        next ← find_e (S (length m)) (p + 1);
        Some (next - p + 1)
      else
        r ← benc_mem p;
        match r with
        | None => None
        | Some r => Some (u64 (mem_ptr r - p + mem_len r))
        end
  end
with length_members (fuel : nat) (blen next : Z) : option Z :=
  match fuel with
  | O => None
  | S fuel =>
      c ← rd next;
      if c =? ch_e then Some blen
      else
        len ← benc_length fuel next;
        length_members fuel (u64 (blen + len)) (padd next len)
  end.

(** Enough for any text in the block. *)
Definition text_fuel : nat := S (2 * length m).

Definition benc_first (p : Z) : option (option Z) :=
  l ← benc_islst p;
  _ ← ensure l;
  c ← rd (p + 1);
  Some (if c =? ch_e then None else Some (p + 1)).

Definition benc_next (p : Z) : option (option Z) :=
  blen ← benc_length text_fuel p;
  let q := padd p blen in
  c ← rd q; Some (if c =? ch_e then None else Some q).

Fixpoint nelems_loop (fuel : nat) (o : option Z) (nelems : Z) : option Z :=
  match fuel with
  | O => None
  | S fuel =>
      match o with
      | None => Some nelems
      | Some p => o ← benc_next p; nelems_loop fuel o (u64 (nelems + 1))
      end
  end.

Definition benc_nelems (p : Z) : option Z :=
  o ← benc_first p; nelems_loop (S (length m)) o 0.

(** [strncmp(bstr, key, n) == 0]; [key] is the string without its NUL. *)
Fixpoint strncmp_eq (n : nat) (bstr : Z) (key : list Z) : option bool :=
  match n with
  | O => Some true
  | S n =>
      c ← rd bstr;
      match key with
      | [] => Some (c =? 0)
      | k :: key =>
          if c =? k then if c =? 0 then Some true else strncmp_eq n (bstr + 1) key
          else Some false
      end
  end.

Fixpoint dget_loop (fuel : nat) (o : option Z) (key : list Z) : option (option Z) :=
  match fuel with
  | O => None
  | S fuel =>
      match o with
      | None => Some None
      | Some p =>
          s ← benc_isstr p;
          if negb s then Some None
          else
            r ← benc_mem p;
            r ← r;
            p ← mem_next r;
            eq ← strncmp_eq (Z.to_nat (mem_len r)) (mem_ptr r) key;
            if eq && (Z.of_nat (length key) =? mem_len r) then Some p
            else p ← p; o ← benc_next p; dget_loop fuel o key
      end
  end.

Definition benc_dget_any (p : Z) (key : list Z) : option (option Z) :=
  d ← benc_isdct p;
  if negb d then Some None
  else o ← benc_first p; dget_loop (S (length m)) o key.

(** The typed lookups test the value that was found. *)
Definition dget_typed (isa : Z -> option bool) (p : Z) (key : list Z) : option (option Z) :=
  ret ← benc_dget_any p key;
  match ret with
  | None => Some None
  | Some q => b ← isa q; Some (if b : bool then Some q else None)
  end.
Definition benc_dget_lst : Z -> list Z -> option (option Z) := dget_typed benc_islst.
Definition benc_dget_dct : Z -> list Z -> option (option Z) := dget_typed benc_isdct.
Definition benc_dget_mem (p : Z) (key : list Z) : option (option mem_result) :=
  str ← dget_typed benc_isstr p key;
  match str with None => Some None | Some q => benc_mem q end.
End Text.

(** ** Reading along the text *)

(** The text from [p] on. *)
Definition suffix (m : list Z) (p : Z) (l : list Z) : Prop :=
  0 <= p /\ p + Z.of_nat (length l) = Z.of_nat (length m) /\ drop (Z.to_nat p) m = l.

Lemma suffix_start m : suffix m 0 m.
Proof. split; [done|]. split; [lia|apply drop_0]. Qed.

Lemma suffix_at m p : 0 <= p <= Z.of_nat (length m) -> exists l, suffix m p l.
Proof.
  intros H. exists (drop (Z.to_nat p) m). split; [lia|]. split; [rewrite length_drop; lia|done].
Qed.

Lemma suffix_app m p l1 l2 : suffix m p (l1 ++ l2) -> suffix m (p + Z.of_nat (length l1)) l2.
Proof.
  intros (H0 & Hl & Hd). rewrite length_app in Hl. split; [lia|]. split; [lia|].
  replace (Z.to_nat (p + Z.of_nat (length l1))) with (Z.to_nat p + length l1)%nat by lia.
  rewrite <- drop_drop, Hd. by apply drop_app_length.
Qed.

Lemma suffix_cons m p c l : suffix m p (c :: l) -> suffix m (p + 1) l.
Proof. apply (suffix_app m p [c] l). Qed.

Lemma suffix_rd m p c l : suffix m p (c :: l) -> rd m p = Some c.
Proof.
  intros (H0 & Hl & Hd). unfold rd. rewrite (proj2 (Z.leb_le _ _)) by lia.
  rewrite <- (Nat.add_0_r (Z.to_nat p)), <- lookup_drop, Hd. done.
Qed.

Lemma suffix_end m p l :
  suffix m p l -> (p <=? Z.of_nat (length m) - 1) = match l with [] => false | _ => true end.
Proof.
  intros (H0 & Hl & _). destruct l; simpl in *; [apply Z.leb_gt|apply Z.leb_le]; lia.
Qed.

Lemma suffix_gt m p l :
  suffix m p l -> (p >? Z.of_nat (length m) - 1) = match l with [] => true | _ => false end.
Proof.
  intros H. rewrite Z.gtb_ltb, Z.ltb_antisym, (suffix_end _ _ _ H). by destruct l.
Qed.

Lemma suffix_inj m p l1 l2 : suffix m p l1 -> suffix m p l2 -> l1 = l2.
Proof. intros (_ & _ & <-) (_ & _ & <-). done. Qed.

(** The leading digits of a text. *)
Fixpoint span_digits (l : list Z) : list Z * list Z :=
  match l with
  | c :: l' => if isdigit c then let '(ds, r) := span_digits l' in (c :: ds, r) else ([], l)
  | [] => ([], [])
  end.

Definition no_digit (l : list Z) : Prop :=
  match l with [] => True | c :: _ => isdigit c = false end.

Lemma span_digits_spec l :
  let '(ds, r) := span_digits l in
  l = ds ++ r /\ Forall (fun c => isdigit c = true) ds /\ no_digit r.
Proof.
  induction l as [|c l IH]; simpl; [done|]. destruct (isdigit c) eqn:E; [|done].
  destruct (span_digits l) as [ds r]. destruct IH as (-> & Hd & Hr).
  split; [done|]. split; [by constructor|done].
Qed.

Lemma span_digits_app ds r :
  Forall (fun c => isdigit c = true) ds -> no_digit r -> span_digits (ds ++ r) = (ds, r).
Proof.
  intros Hd Hr. induction Hd as [|c ds Hc _ IH]; simpl.
  - destruct r as [|c r]; simpl in *; [done|by rewrite Hr].
  - by rewrite Hc, IH.
Qed.

Definition wrap_step (a c : Z) : Z := u64 (u64 (a * 10) + (c - 48)).

Lemma isdigit_range c : isdigit c = true -> 48 <= c <= 57.
Proof. unfold isdigit. rewrite andb_true_iff. lia. Qed.

Lemma dec_mono ds a : Forall (fun c => isdigit c = true) ds -> 0 <= a -> a <= foldl dec_step a ds.
Proof.
  intros Hd. revert a. induction Hd as [|c ds Hc%isdigit_range _ IH]; intros a Ha; simpl; [lia|].
  etrans; [|apply IH]; unfold dec_step; lia.
Qed.

(** Without overflow the accumulated length is the number. *)
Lemma wrap_dec ds a :
  Forall (fun c => isdigit c = true) ds -> 0 <= a -> foldl dec_step a ds < 2 ^ 64 ->
  foldl wrap_step a ds = foldl dec_step a ds.
Proof.
  intros Hd. revert a. induction Hd as [|c ds Hc Hd IH]; intros a Ha Hlt; simpl in *; [done|].
  pose proof (isdigit_range _ Hc). pose proof (dec_mono ds (dec_step a c) Hd) as Hm.
  assert (0 <= dec_step a c) by (unfold dec_step; lia). specialize (Hm ltac:(lia)).
  assert (wrap_step a c = dec_step a c) as ->; [|by apply IH].
  unfold wrap_step, dec_step in *. rewrite (wrap_small 64 (a * 10)) by lia. rewrite wrap_small by lia. done.
Qed.

Section Scan.
Context (m : list Z).
Notation last := (Z.of_nat (length m) - 1).

Lemma vdigits_ok fuel p len ds r :
  suffix m p (ds ++ r) -> Forall (fun c => isdigit c = true) ds -> no_digit r ->
  (length ds < fuel)%nat ->
  vdigits m last fuel p len = Some (foldl wrap_step len ds, p + Z.of_nat (length ds)).
Proof.
  intros Hs Hd. revert fuel p len Hs. induction Hd as [|c ds Hc Hd IH]; intros [|fuel] p len Hs Hr Hf;
    simpl in Hf; try lia.
  - simpl. rewrite (suffix_end _ _ _ Hs). simpl in Hs. destruct r as [|c r]; [by rewrite Z.add_0_r|].
    rewrite (suffix_rd _ _ _ _ Hs). simpl in *. rewrite Hr. by rewrite Z.add_0_r.
  - cbn [vdigits]. rewrite (suffix_end _ _ _ Hs). simpl in Hs. rewrite (suffix_rd _ _ _ _ Hs). simpl. rewrite Hc.
    rewrite IH; [|by eapply suffix_cons|done|lia]. do 2 f_equal. lia.
Qed.

Lemma strtoul_ok p ds r :
  suffix m p (ds ++ r) -> Forall (fun c => isdigit c = true) ds -> no_digit r -> r <> [] ->
  strtoul m p = Some (Z.min (dec ds) (2 ^ 64 - 1), p + Z.of_nat (length ds)).
Proof.
  intros Hs Hd Hr Hne. unfold strtoul, dec.
  assert (length ds < S (length m))%nat as Hf.
  { destruct Hs as (H0 & Hl & _). rewrite length_app in Hl. lia. }
  revert Hf. generalize (S (length m)) 0 p Hs. clear p Hs.
  induction Hd as [|c ds Hc Hd IH]; intros [|fuel] acc p Hs Hf; simpl in Hf; try lia.
  - simpl. destruct r as [|c r]; [done|]. rewrite (suffix_rd _ _ _ _ Hs). simpl in *. rewrite Hr.
    by rewrite Z.add_0_r.
  - cbn [strtoul_loop]. simpl in Hs. rewrite (suffix_rd _ _ _ _ Hs). simpl. rewrite Hc.
    rewrite IH by (try lia; by eapply suffix_cons). do 2 f_equal. lia.
Qed.
End Scan.

(** ** Facts of the grammar *)

Lemma benc_head v bs :
  benc v bs -> exists c bs', bs = c :: bs' /\ bs' <> [] /\ c <> ch_e /\ (is_key v <-> isdigit c = true).
Proof.
  destruct 1 as [ds s [Hne Hd]|neg ds [Hne Hd]|l bs|l bs].
  - destruct ds as [|c ds]; [done|]. apply Forall_cons in Hd as [Hc _].
    exists c, (ds ++ ch_colon :: s). split; [done|]. split; [by destruct ds|]. split; [|done].
    apply isdigit_range in Hc. unfold ch_e. lia.
  - eexists _, _. split; [done|]. split; [by destruct neg, ds|]. done.
  - eexists _, _. split; [done|]. split; [by destruct bs|]. done.
  - eexists _, _. split; [done|]. split; [by destruct bs|]. done.
Qed.

Lemma benc_length_ge v bs : benc v bs -> (2 <= length bs)%nat.
Proof. intros (c & [|c' bs'] & -> & ? & _)%benc_head; [done|simpl; lia]. Qed.

Lemma bencs_length l bs : bencs l bs -> (2 * length l <= length bs)%nat.
Proof. induction 1 as [|v l bs1 bs2 Hv _ IH]; simpl; [lia|]. apply benc_length_ge in Hv. rewrite length_app. lia. Qed.

(** What the member counter [d] of the validator knows of the members to come. *)
Definition members_ok (d : nat) (l : list bval) : Prop :=
  match d with
  | O => True
  | _ => if (d mod 2 =? 1)%nat then pairs l else exists v l', l = v :: l' /\ pairs l'
  end.

Lemma mod2_S d : (S d mod 2 =? 1)%nat = negb (d mod 2 =? 1)%nat.
Proof. destruct (Nat.eqb_spec (S d mod 2) 1), (Nat.eqb_spec (d mod 2) 1); simpl; try done; lia. Qed.

Lemma members_ok_next d v l :
  members_ok (if (d =? 0)%nat then d else S d) l ->
  (d <> 0%nat -> (d mod 2 =? 1)%nat = true -> is_key v) -> members_ok d (v :: l).
Proof.
  destruct d as [|d]; [done|]. cbn [Nat.eqb members_ok]. rewrite (mod2_S (S d)). intros H Hk.
  destruct (S d mod 2 =? 1)%nat; simpl in *.
  - destruct H as (w & l' & -> & Hl'). constructor; auto.
  - eauto.
Qed.

Lemma members_ok_cons d v l :
  members_ok d (v :: l) ->
  members_ok (if (d =? 0)%nat then d else S d) l /\ (d <> 0%nat -> (d mod 2 =? 1)%nat = true -> is_key v).
Proof.
  destruct d as [|d]; [done|]. cbn [Nat.eqb members_ok]. rewrite (mod2_S (S d)).
  destruct (S d mod 2 =? 1)%nat; simpl.
  - inversion 1; subst. eauto.
  - intros (w & l' & [= <- <-] & Hp). done.
Qed.

Lemma members_ok_nil d : members_ok d [] <-> (negb (d =? 0)%nat && negb (d mod 2 =? 1)%nat) = false.
Proof.
  destruct d as [|d]; [done|]. unfold members_ok. cbn [Nat.eqb negb andb].
  destruct (S d mod 2 =? 1)%nat; simpl; split; try done; [constructor|by intros (? & ? & ? & _)].
Qed.

(** ** The validator accepts every encoding *)

Section Validator.
Context (m : list Z) (base : Z).
Hypothesis Hbase : 0 <= base /\ base + Z.of_nat (length m) <= 2 ^ 63.
Notation last := (Z.of_nat (length m) - 1).

Lemma padd_small p n : 0 <= p <= Z.of_nat (length m) -> 0 <= n < 2 ^ 63 -> padd base p n = p + n.
Proof. intros. unfold padd. rewrite wrap_small by lia. lia. Qed.

Lemma validate_str_complete ds s r p :
  digits ds -> dec ds = Z.of_nat (length s) -> suffix m p (ds ++ ch_colon :: s ++ r) ->
  validate_str m base last p = Some (Some (p + Z.of_nat (length (ds ++ ch_colon :: s)) - 1)).
Proof.
  intros [Hne Hd] Hv Hs. pose proof Hs as (Hp & Hl & _). rewrite !length_app in Hl. simpl in Hl.
  rewrite length_app in Hl. unfold validate_str.
  rewrite (vdigits_ok _ _ _ _ ds (ch_colon :: s ++ r)) by (done || lia). simpl.
  rewrite wrap_dec by (try done; try lia; unfold dec in Hv; lia).
  fold (dec ds). rewrite Hv. apply suffix_app in Hs. rewrite (suffix_end _ _ _ Hs), (suffix_rd _ _ _ _ Hs).
  simpl. rewrite padd_small by lia. rewrite (proj2 (Z.leb_le _ _)) by lia. rewrite length_app. simpl.
  do 2 f_equal. lia.
Qed.

Lemma validate_int_complete (neg : bool) ds r p :
  digits ds -> suffix m p (ch_i :: (if neg then [ch_minus] else []) ++ ds ++ ch_e :: r) ->
  validate_int m last p = Some (Some (p + Z.of_nat (length (ch_i :: (if neg then [ch_minus] else []) ++ ds ++ [ch_e])) - 1)).
Proof.
  intros [Hne Hd] Hs. destruct ds as [|c ds]; [done|]. apply Forall_cons in Hd as [Hc Hd].
  assert (c <> ch_minus) as Hcm by (apply isdigit_range in Hc; unfold ch_minus; lia).
  pose proof Hs as (Hp & Hl & _). apply suffix_cons in Hs.
  set (q := p + 1 + Z.of_nat (length (if neg then [ch_minus] else []))).
  assert (validate_int m last p = validate_int_digits m last q) as Hk.
  { unfold validate_int. rewrite (suffix_gt _ _ _ Hs).
    destruct neg; simpl in *; rewrite (suffix_rd _ _ _ _ Hs); simpl; [done|].
    rewrite (proj2 (Z.eqb_neq _ _)) by done. unfold q. by rewrite Z.add_0_r. }
  assert (suffix m q (c :: ds ++ ch_e :: r)) as Hs' by (by apply suffix_app in Hs).
  rewrite Hk. unfold validate_int_digits. rewrite (suffix_gt _ _ _ Hs'), (suffix_rd _ _ _ _ Hs'). simpl. rewrite Hc. simpl.
  apply suffix_cons in Hs'. simpl in Hl. rewrite !length_app in Hl. simpl in Hl. rewrite length_app in Hl.
  pose proof (vdigits_ok m (S (length m)) (q + 1) 0 ds (ch_e :: r) Hs' Hd eq_refl ltac:(lia)) as Hv.
  simpl in Hv |- *. rewrite Hv. simpl. apply suffix_app in Hs'.
  rewrite (suffix_gt _ _ _ Hs'), (suffix_rd _ _ _ _ Hs'). simpl. do 2 f_equal.
  unfold q. rewrite !length_app. simpl. rewrite length_app. simpl. lia.
Qed.

Lemma validate_complete :
  (forall v bs, benc v bs -> forall r p fuel, suffix m p (bs ++ r) -> (2 * length bs <= fuel)%nat ->
     benc_validate_aux m base last fuel p = Some (Some (p + Z.of_nat (length bs) - 1))) /\
  (forall l bs, bencs l bs -> forall r p d fuel, suffix m p (bs ++ ch_e :: r) ->
     (2 * length bs + 3 <= fuel)%nat -> members_ok d l ->
     validate_members m base last fuel d p = Some (Some (p + Z.of_nat (length bs)))).
Proof.
  apply benc_bencs_ind.
  - intros ds s Hd Hv r p [|fuel] Hs Hf.
    { rewrite length_app in Hf. simpl in Hf. lia. }
    pose proof Hd as [Hne Hall]. destruct ds as [|c ds]; [done|]. apply Forall_cons in Hall as [Hc _].
    rewrite benc_validate_aux_S. pose proof (suffix_rd _ _ _ _ Hs) as ->. cbn [mbind option_bind].
    pose proof (isdigit_range _ Hc). unfold ch_d, ch_l, ch_i.
    rewrite !(proj2 (Z.eqb_neq c _)) by lia. rewrite Hc.
    rewrite <- app_assoc in Hs. by eapply validate_str_complete.
  - intros neg ds Hd r p [|fuel] Hs Hf; [simpl in Hf; lia|].
    rewrite benc_validate_aux_S. pose proof (suffix_rd _ _ _ _ Hs) as ->. cbn -[validate_int length Z.add Z.sub Z.of_nat].
    apply (validate_int_complete neg ds r p Hd).
    replace (ch_i :: (if neg then [ch_minus] else []) ++ ds ++ ch_e :: r)
      with ((ch_i :: (if neg then [ch_minus] else []) ++ ds ++ [ch_e]) ++ r); [done|].
    simpl. by rewrite <- !app_assoc.
  - intros l bs _ IH r p [|fuel] Hs Hf; [simpl in Hf; lia|]. cbn [length] in Hf. rewrite length_app in Hf.
    rewrite benc_validate_aux_S. pose proof (suffix_rd _ _ _ _ Hs) as ->.
    cbn -[validate_members length Z.add Z.sub Z.of_nat]. simpl in Hs. apply suffix_cons in Hs.
    rewrite <- app_assoc in Hs. rewrite (IH r) by (done || simpl in Hf; lia). do 2 f_equal.
    simpl. rewrite length_app. simpl. lia.
  - intros l bs _ IH Hpr r p [|fuel] Hs Hf; [simpl in Hf; lia|]. cbn [length] in Hf. rewrite length_app in Hf.
    rewrite benc_validate_aux_S. pose proof (suffix_rd _ _ _ _ Hs) as ->.
    cbn -[validate_members length Z.add Z.sub Z.of_nat]. simpl in Hs. apply suffix_cons in Hs.
    rewrite <- app_assoc in Hs. rewrite (IH r) by (done || simpl in Hf; lia). do 2 f_equal.
    simpl. rewrite length_app. simpl. lia.
  - intros r p d [|fuel] Hs Hf Hm; [lia|]. simpl in Hs. rewrite validate_members_S. cbv zeta. cbn [length].
    rewrite (suffix_end _ _ _ Hs), (suffix_rd _ _ _ _ Hs). cbn [mbind option_bind].
    rewrite (suffix_gt _ _ _ Hs), (proj1 (members_ok_nil d) Hm). by rewrite Z.add_0_r.
  - intros v l bs1 bs2 Hv IHv _ IHl r p d [|fuel] Hs Hf Hm; [lia|].
    rewrite length_app in Hf. pose proof (benc_length_ge _ _ Hv) as Hge. rewrite <- app_assoc in Hs.
    destruct (benc_head _ _ Hv) as (c & bs' & Hb & _ & Hce & Hkey).
    apply members_ok_cons in Hm as [Hm Hk].
    rewrite validate_members_S. cbv zeta. pose proof (suffix_end _ _ _ Hs) as He. rewrite Hb in He. simpl in He. rewrite He.
    assert (rd m p = Some c) as -> by (rewrite Hb in Hs; by eapply suffix_rd). cbn [mbind option_bind].
    rewrite (proj2 (Z.eqb_neq c ch_e)) by done.
    assert (negb (d =? 0)%nat && (d mod 2 =? 1)%nat && negb (isdigit c) = false) as ->.
    { destruct (Nat.eqb_spec d 0); [done|]. destruct (d mod 2 =? 1)%nat; [|done]. simpl.
      by rewrite (proj1 Hkey) by auto. }
    rewrite (IHv (bs2 ++ ch_e :: r)) by (done || lia). cbn [mbind option_bind].
    replace (p + Z.of_nat (length bs1) - 1 + 1) with (p + Z.of_nat (length bs1)) by lia.
    apply suffix_app in Hs. rewrite (IHl r) by (done || lia). do 2 f_equal. rewrite length_app. lia.
Qed.

(** ** The validator accepts nothing else

    The lengths are accumulated modulo 2^64, so this needs a text without runs of
    digits beyond any length. *)
Definition sane_runs : Prop :=
  forall pre ds post, m = pre ++ ds ++ post -> Forall (fun c => isdigit c = true) ds -> dec ds < 2 ^ 63.

Hypothesis Hruns : sane_runs.

Lemma suffix_dec p ds r :
  suffix m p (ds ++ r) -> Forall (fun c => isdigit c = true) ds -> 0 <= dec ds < 2 ^ 63.
Proof.
  intros (_ & _ & Hd) Hall. split; [apply dec_mono; done|].
  apply (Hruns (take (Z.to_nat p) m) ds r); [|done]. by rewrite <- Hd, take_drop.
Qed.

(** The digits a scan of the text meets. *)
Lemma scan_digits p l :
  suffix m p l ->
  exists ds r, l = ds ++ r /\ Forall (fun c => isdigit c = true) ds /\ no_digit r /\
    (forall len, vdigits m last (S (length m)) p len = Some (foldl wrap_step len ds, p + Z.of_nat (length ds))) /\
    suffix m (p + Z.of_nat (length ds)) r.
Proof.
  intros Hs. pose proof (span_digits_spec l) as H. destruct (span_digits l) as [ds r].
  destruct H as (-> & Hd & Hr). exists ds, r. split_and!; try done; [|by apply suffix_app].
  intros len. apply (vdigits_ok m _ p len ds r); try done.
  destruct Hs as (? & Hl & _). rewrite length_app in Hl. lia.
Qed.

Lemma validate_str_sound p c l :
  suffix m p (c :: l) -> isdigit c = true ->
  validate_str m base last p = Some None \/
  exists s ds r, c :: l = (ds ++ ch_colon :: s) ++ r /\ benc (BStr s) (ds ++ ch_colon :: s) /\
    validate_str m base last p = Some (Some (p + Z.of_nat (length (ds ++ ch_colon :: s)) - 1)).
Proof.
  intros Hs Hc. destruct (scan_digits _ _ Hs) as (ds & r & Hl & Hd & Hr & Hv & Hsr).
  unfold validate_str. rewrite Hv. cbn [mbind option_bind]. rewrite (suffix_end _ _ _ Hsr).
  destruct r as [|c' r]; [by left|]. rewrite (suffix_rd _ _ _ _ Hsr). cbn [mbind option_bind].
  pose proof Hs as Hs2. rewrite Hl in Hs2. pose proof (suffix_dec _ _ _ Hs2 Hd) as Hdec.
  rewrite wrap_dec by (try done; unfold dec in Hdec; lia). fold (dec ds).
  destruct (Z.eqb_spec c' ch_colon) as [->|]; [|by left]. cbn [andb].
  pose proof Hsr as (Hp & Hlen & _). simpl in Hlen. rewrite padd_small by lia.
  destruct (_ <=? last) eqn:E; [|by left]. right.
  exists (take (Z.to_nat (dec ds)) r), ds, (drop (Z.to_nat (dec ds)) r).
  assert (length (take (Z.to_nat (dec ds)) r) = Z.to_nat (dec ds)) as Ht by (rewrite length_take; lia).
  split; [by rewrite <- app_assoc, <- app_comm_cons, take_drop|]. split.
  - constructor; [split; [|done]|lia]. destruct ds; [|done]. simpl in Hl. by simplify_eq.
  - rewrite length_app. simpl. rewrite Ht. do 2 f_equal. lia.
Qed.

Lemma validate_int_digits_sound p l :
  suffix m p l ->
  validate_int_digits m last p = Some None \/
  exists ds r, l = ds ++ ch_e :: r /\ digits ds /\
    validate_int_digits m last p = Some (Some (p + Z.of_nat (length ds))).
Proof.
  intros Hs. unfold validate_int_digits. rewrite (suffix_gt _ _ _ Hs). destruct l as [|c l]; [by left|].
  rewrite (suffix_rd _ _ _ _ Hs). cbn [mbind option_bind]. destruct (isdigit c) eqn:Hc; [|by left]. cbn [negb].
  apply suffix_cons in Hs. destruct (scan_digits _ _ Hs) as (ds & r & -> & Hd & Hr & Hv & Hsr).
  rewrite Hv. cbn [mbind option_bind]. rewrite (suffix_gt _ _ _ Hsr). destruct r as [|c' r]; [by left|].
  rewrite (suffix_rd _ _ _ _ Hsr). cbn [mbind option_bind].
  destruct (Z.eqb_spec c' ch_e) as [->|]; [|by left]. cbn [negb]. right.
  exists (c :: ds), r. split; [done|]. split; [split; [done|by constructor]|]. simpl. do 2 f_equal. lia.
Qed.

Lemma validate_int_sound p l :
  suffix m p (ch_i :: l) ->
  validate_int m last p = Some None \/
  exists v bs r, ch_i :: l = bs ++ r /\ benc v bs /\
    validate_int m last p = Some (Some (p + Z.of_nat (length bs) - 1)).
Proof.
  intros Hs. apply suffix_cons in Hs. unfold validate_int. rewrite (suffix_gt _ _ _ Hs).
  destruct l as [|c l]; [by left|]. rewrite (suffix_rd _ _ _ _ Hs). cbn [mbind option_bind].
  destruct (Z.eqb_spec c ch_minus) as [->|].
  - apply suffix_cons in Hs. destruct (validate_int_digits_sound _ _ Hs) as [->|(ds & r & -> & Hd & ->)]; [by left|].
    right. exists (BInt true ds), (ch_i :: [ch_minus] ++ ds ++ [ch_e]), r.
    split; [by simpl; rewrite <- app_assoc|]. split; [by apply (benc_integer true)|].
    simpl. rewrite length_app. simpl. do 2 f_equal. lia.
  - destruct (validate_int_digits_sound _ _ Hs) as [->|(ds & r & -> & Hd & ->)]; [by left|].
    right. exists (BInt false ds), (ch_i :: [] ++ ds ++ [ch_e]), r.
    split; [by simpl; rewrite <- app_assoc|]. split; [by apply (benc_integer false)|].
    simpl. rewrite length_app. simpl. do 2 f_equal. lia.
Qed.

(** With enough fuel the validator gives an answer, and what it accepts is an
    encoding. *)
Lemma validate_sound (fuel : nat) :
  (forall p l, suffix m p l -> l <> [] -> (2 * length l <= fuel)%nat ->
     benc_validate_aux m base last fuel p = Some None \/
     exists v bs r, l = bs ++ r /\ benc v bs /\
       benc_validate_aux m base last fuel p = Some (Some (p + Z.of_nat (length bs) - 1))) /\
  (forall d p l, suffix m p l -> (2 * length l + 1 <= fuel)%nat ->
     validate_members m base last fuel d p = Some None \/
     exists vs bs r, l = bs ++ ch_e :: r /\ bencs vs bs /\ members_ok d vs /\
       validate_members m base last fuel d p = Some (Some (p + Z.of_nat (length bs)))).
Proof.
  induction fuel as [|fuel [IHa IHm]]; (split; [intros p l Hs Hne Hf|intros d p l Hs Hf]); try lia.
  { destruct l; [done|simpl in Hf; lia]. }
  - destruct l as [|c l]; [done|]. simpl in Hf. rewrite benc_validate_aux_S.
    rewrite (suffix_rd _ _ _ _ Hs). cbn [mbind option_bind].
    destruct (Z.eqb_spec c ch_d) as [->|]; [|destruct (Z.eqb_spec c ch_l) as [->|];
      [|destruct (Z.eqb_spec c ch_i) as [->|]; [|destruct (isdigit c) eqn:Hc; [|by left]]]].
    + apply suffix_cons in Hs. destruct (IHm 1%nat _ _ Hs ltac:(lia)) as [->|(vs & bs & r & -> & Hb & Hm & ->)]; [by left|].
      right. exists (BDict vs), (ch_d :: bs ++ [ch_e]), r.
      split; [by simpl; rewrite <- app_assoc|]. split; [by constructor|].
      simpl. rewrite length_app. simpl. do 2 f_equal. lia.
    + apply suffix_cons in Hs. destruct (IHm 0%nat _ _ Hs ltac:(lia)) as [->|(vs & bs & r & -> & Hb & Hm & ->)]; [by left|].
      right. exists (BList vs), (ch_l :: bs ++ [ch_e]), r.
      split; [by simpl; rewrite <- app_assoc|]. split; [by constructor|].
      simpl. rewrite length_app. simpl. do 2 f_equal. lia.
    + by apply validate_int_sound.
    + destruct (validate_str_sound _ _ _ Hs Hc) as [->|(s & ds & r & -> & Hb & ->)]; [by left|]. right. eauto 7.
  - rewrite validate_members_S. cbv zeta. rewrite (suffix_end _ _ _ Hs). destruct l as [|c l].
    { rewrite (suffix_gt _ _ _ Hs). by left. }
    simpl in Hf. rewrite (suffix_rd _ _ _ _ Hs). cbn [mbind option_bind].
    destruct (Z.eqb_spec c ch_e) as [->|Hce].
    { rewrite (suffix_gt _ _ _ Hs). cbn [orb]. destruct (negb _ && negb _) eqn:E; [by left|]. right.
      exists [], [], l. split; [done|]. split; [constructor|]. split; [by apply members_ok_nil|].
      simpl. by rewrite Z.add_0_r. }
    destruct (negb (d =? 0)%nat && (d mod 2 =? 1)%nat && negb (isdigit c)) eqn:E; [by left|].
    destruct (IHa p (c :: l) Hs ltac:(done) ltac:(simpl; lia)) as [->|(v & bs & r & Hl & Hb & ->)]; [by left|].
    cbn [mbind option_bind]. replace (p + Z.of_nat (length bs) - 1 + 1) with (p + Z.of_nat (length bs)) by lia.
    rewrite Hl in Hs. apply suffix_app in Hs. pose proof (benc_length_ge _ _ Hb) as Hge.
    assert (length (c :: l) = length (bs ++ r)) as Hlen by by rewrite Hl.
    rewrite length_app in Hlen. simpl in Hlen.
    destruct (IHm (if (d =? 0)%nat then d else S d) _ _ Hs ltac:(lia)) as [->|(vs & bs' & r' & -> & Hbs & Hm & ->)];
      [by left|]. right. exists (v :: vs), (bs ++ bs'), r'. split; [by rewrite Hl, app_assoc|].
    split; [by constructor|]. split; [|rewrite length_app; do 2 f_equal; lia].
    apply members_ok_next; [done|]. intros Hd0 Hd1. apply Nat.eqb_neq in Hd0. rewrite Hd0, Hd1 in E. simpl in E.
    destruct (benc_head _ _ Hb) as (c' & bs2 & -> & _ & _ & Hk). simpl in Hl. simplify_eq.
    apply Hk. by destruct (isdigit c').
Qed.

End Validator.

(** ** Accessors on valid texts *)

Section Accessors.
Context (m : list Z) (base : Z).
Hypothesis Hbase : 0 <= base /\ base + Z.of_nat (length m) <= 2 ^ 63.

Lemma benc_length_S fuel p :
  benc_length m base (S fuel) p =
    (c ← rd m p;
     if (c =? ch_d) || (c =? ch_l) then length_members m base fuel 2 (p + 1)
     else if c =? ch_i then
       next ← find_e m (S (length m)) (p + 1);
       Some (next - p + 1)
     else
       r ← benc_mem m p;
       match r with
       | None => None
       | Some r => Some (u64 (mem_ptr r - p + mem_len r))
       end).
Proof. done. Qed.

Lemma length_members_S fuel blen next :
  length_members m base (S fuel) blen next =
    (c ← rd m next;
     if c =? ch_e then Some blen
     else
       len ← benc_length m base fuel next;
       length_members m base fuel (u64 (blen + len)) (padd base next len)).
Proof. done. Qed.

Lemma find_e_ok fuel p l r :
  suffix m p (l ++ ch_e :: r) -> Forall (fun c => c <> ch_e) l -> (length l < fuel)%nat ->
  find_e m fuel p = Some (p + Z.of_nat (length l)).
Proof.
  intros Hs Hl. revert fuel p Hs. induction Hl as [|c l Hc _ IH]; intros [|fuel] p Hs Hf; simpl in Hf; try lia.
  - simpl in *. rewrite (suffix_rd _ _ _ _ Hs). simpl. by rewrite Z.add_0_r.
  - cbn [find_e]. simpl in Hs. rewrite (suffix_rd _ _ _ _ Hs). cbn [mbind option_bind].
    rewrite (proj2 (Z.eqb_neq _ _)) by done. rewrite IH; [|by eapply suffix_cons|lia]. f_equal. simpl. lia.
Qed.

Lemma digits_not_e ds : Forall (fun c => isdigit c = true) ds -> Forall (fun c => c <> ch_e) ds.
Proof. intros. eapply Forall_impl; [done|]. intros c Hc%isdigit_range. unfold ch_e. lia. Qed.

Lemma suffix_le p l : suffix m p l -> 0 <= p /\ p + Z.of_nat (length l) = Z.of_nat (length m).
Proof. by intros (? & ? & _). Qed.

Lemma benc_mem_ok ds s r p :
  digits ds -> dec ds = Z.of_nat (length s) -> suffix m p ((ds ++ ch_colon :: s) ++ r) ->
  benc_isstr m p = Some true /\
  benc_mem m p = Some (Some (Mem (p + Z.of_nat (length ds) + 1) (Z.of_nat (length s)))) /\
  suffix m (p + Z.of_nat (length ds) + 1) (s ++ r).
Proof.
  intros [Hne Hd] Hv Hs. rewrite <- app_assoc in Hs. pose proof (suffix_le _ _ Hs) as [Hp Hl].
  rewrite length_app in Hl. simpl in Hl. rewrite length_app in Hl.
  assert (benc_isstr m p = Some true) as Hi.
  { destruct ds as [|c ds]; [done|]. apply Forall_cons in Hd as [Hc _]. unfold benc_isstr.
    rewrite (suffix_rd m p c (ds ++ ch_colon :: s ++ r)) by done. simpl. by rewrite Hc. }
  split; [done|]. pose proof (suffix_app _ _ _ _ Hs) as Hs2. split; [|by apply suffix_cons in Hs2].
  unfold benc_mem. rewrite Hi. cbn [mbind option_bind negb].
  rewrite (strtoul_ok m p ds (ch_colon :: s ++ r)) by done. cbn [mbind option_bind].
  pose proof (suffix_rd m _ ch_colon (s ++ r) Hs2) as ->.
  simpl. rewrite Hv. rewrite Z.min_l by lia. done.
Qed.

Lemma padd_in p n : 0 <= p -> 0 <= n -> p + n <= Z.of_nat (length m) -> padd base p n = p + n.
Proof. intros. unfold padd. rewrite wrap_small by lia. lia. Qed.

Lemma benc_length_ok :
  (forall v bs, benc v bs -> forall r p fuel, suffix m p (bs ++ r) -> (2 * length bs <= fuel)%nat ->
     benc_length m base fuel p = Some (Z.of_nat (length bs))) /\
  (forall l bs, bencs l bs -> forall r p blen fuel, suffix m p (bs ++ ch_e :: r) ->
     (2 * length bs + 3 <= fuel)%nat -> 0 <= blen -> blen + Z.of_nat (length bs) < 2 ^ 64 ->
     length_members m base fuel blen p = Some (blen + Z.of_nat (length bs))).
Proof.
  assert (forall c l bs r p fuel, (c =? ch_d) || (c =? ch_l) = true ->
    (forall r p blen fuel, suffix m p (bs ++ ch_e :: r) ->
       (2 * length bs + 3 <= fuel)%nat -> 0 <= blen -> blen + Z.of_nat (length bs) < 2 ^ 64 ->
       length_members m base fuel blen p = Some (blen + Z.of_nat (length bs))) ->
    bencs l bs -> suffix m p ((c :: bs ++ [ch_e]) ++ r) -> (2 * length (c :: bs ++ [ch_e]) <= fuel)%nat ->
    benc_length m base fuel p = Some (Z.of_nat (length (c :: bs ++ [ch_e])))) as Hmem.
  { intros c l bs r p [|fuel] Hc IH _ Hs Hf; [simpl in Hf; lia|]. cbn [length] in Hf |- *.
    rewrite length_app in Hf |- *. rewrite benc_length_S.
    pose proof (suffix_le _ _ Hs) as [Hp Hl]. pose proof (suffix_rd m p c ((bs ++ [ch_e]) ++ r) Hs) as ->.
    cbn [mbind option_bind]. rewrite Hc. simpl in Hs, Hl. apply suffix_cons in Hs. rewrite <- app_assoc in Hs.
    rewrite !length_app in Hl. rewrite (IH r) by (done || simpl in *; lia). f_equal. simpl. lia. }
  apply benc_bencs_ind.
  - intros ds s Hd Hv r p [|fuel] Hs Hf; [rewrite length_app in Hf; simpl in Hf; lia|].
    destruct (benc_mem_ok ds s r p Hd Hv Hs) as (Hi & Hm & _). rewrite benc_length_S.
    unfold benc_isstr in Hi. apply bind_Some in Hi as (c & Hc & [= Hdig]). rewrite Hc. cbn [mbind option_bind].
    pose proof (isdigit_range _ Hdig). unfold ch_d, ch_l, ch_i.
    rewrite !(proj2 (Z.eqb_neq c _)) by lia. cbn [orb]. rewrite Hm. cbn [mbind option_bind mem_ptr mem_len].
    pose proof (suffix_le _ _ Hs) as [Hp Hl]. rewrite !length_app in *. simpl in *.
    rewrite wrap_small by lia. f_equal. lia.
  - intros neg ds [Hne Hd] r p [|fuel] Hs Hf; [simpl in Hf; lia|]. rewrite benc_length_S.
    pose proof (suffix_le _ _ Hs) as [Hp Hl].
    pose proof (suffix_rd _ _ _ _ Hs) as ->. cbn [mbind option_bind].
    change ((ch_i =? ch_d) || (ch_i =? ch_l)) with false. change (ch_i =? ch_i) with true. cbn iota.
    simpl in Hs. apply suffix_cons in Hs. rewrite (app_assoc (if neg then _ else _)), <- app_assoc in Hs.
    rewrite (find_e_ok _ _ ((if neg then [ch_minus] else []) ++ ds) r); [|done| |].
    + cbn [mbind option_bind length]. rewrite app_assoc, (length_app _ [ch_e]). f_equal. simpl. lia.
    + apply Forall_app. split; [|by apply digits_not_e]. destruct neg; by repeat constructor.
    + simpl in Hl. rewrite !length_app in *. simpl in *. lia.
  - intros l bs Hb IH r p fuel. eapply Hmem; done.
  - intros l bs Hb IH _ r p fuel. eapply Hmem; done.
  - intros r p blen [|fuel] Hs Hf Hb Hlt; [lia|]. rewrite length_members_S. simpl in Hs.
    rewrite (suffix_rd _ _ _ _ Hs). simpl. by rewrite Z.add_0_r.
  - intros v l bs1 bs2 Hv IHv _ IHl r p blen [|fuel] Hs Hf Hb Hlt; [lia|].
    rewrite length_app in Hf, Hlt. pose proof (benc_length_ge _ _ Hv) as Hge. rewrite <- app_assoc in Hs.
    destruct (benc_head _ _ Hv) as (c & bs' & E & _ & Hce & _). rewrite length_members_S.
    assert (rd m p = Some c) as -> by (rewrite E in Hs; by eapply suffix_rd). cbn [mbind option_bind].
    rewrite (proj2 (Z.eqb_neq c ch_e)) by done. rewrite (IHv (bs2 ++ ch_e :: r)) by (done || lia).
    cbn [mbind option_bind]. pose proof (suffix_le _ _ Hs) as [Hp Hl]. rewrite length_app in Hl.
    rewrite padd_in, wrap_small by lia. apply suffix_app in Hs. rewrite (IHl r) by (done || lia).
    rewrite length_app. f_equal. lia.
Qed.

Lemma benc_next_ok v bs c r p :
  benc v bs -> suffix m p (bs ++ c :: r) ->
  benc_next m base p = Some (if c =? ch_e then None else Some (p + Z.of_nat (length bs))).
Proof.
  intros Hv Hs. unfold benc_next. pose proof (suffix_le _ _ Hs) as [Hp Hl]. rewrite length_app in Hl.
  rewrite (proj1 benc_length_ok v bs Hv (c :: r)) by (done || unfold text_fuel; lia).
  cbn [mbind option_bind]. rewrite padd_in by lia. apply suffix_app in Hs.
  by rewrite (suffix_rd _ _ _ _ Hs).
Qed.

(** The pointer to the next of the members still to come. *)
Definition member_ptr (l : list bval) (p : Z) : option Z :=
  match l with [] => None | _ => Some p end.

Lemma members_ptr l bs r p :
  bencs l bs -> suffix m p (bs ++ ch_e :: r) ->
  exists c r', bs ++ ch_e :: r = c :: r' /\ (if c =? ch_e then None else Some p) = member_ptr l p.
Proof.
  intros Hb Hs. destruct Hb as [|v l bs1 bs2 Hv Hl]; [by eexists _, _|].
  destruct (benc_head _ _ Hv) as (c & bs' & -> & _ & Hce & _). eexists _, _. split; [done|].
  by rewrite (proj2 (Z.eqb_neq _ _)).
Qed.

Lemma benc_first_ok k l bs r p :
  (k =? ch_l) || (k =? ch_d) = true -> bencs l bs -> suffix m p (k :: bs ++ ch_e :: r) ->
  benc_first m p = Some (member_ptr l (p + 1)) /\ suffix m (p + 1) (bs ++ ch_e :: r).
Proof.
  intros Hk Hb Hs. unfold benc_first, benc_islst. rewrite (suffix_rd _ _ _ _ Hs). cbn [mbind option_bind].
  rewrite Hk. cbn [ensure mbind option_bind]. apply suffix_cons in Hs. split; [|done].
  destruct (members_ptr _ _ _ _ Hb Hs) as (c & r' & E & <-). rewrite E in Hs.
  by rewrite (suffix_rd _ _ _ _ Hs).
Qed.

Lemma nelems_ok l bs r p n fuel :
  bencs l bs -> suffix m p (bs ++ ch_e :: r) -> (length l < fuel)%nat ->
  0 <= n -> n + Z.of_nat (length l) < 2 ^ 64 ->
  nelems_loop m base fuel (member_ptr l p) n = Some (n + Z.of_nat (length l)).
Proof.
  intros Hb. revert p n fuel. induction Hb as [|v l bs1 bs2 Hv Hb IH]; intros p n [|fuel] Hs Hf Hn Hlt;
    cbn [length] in *; try lia.
  - simpl. by rewrite Z.add_0_r.
  - cbn [nelems_loop member_ptr]. rewrite <- app_assoc in Hs.
    destruct (members_ptr _ _ _ (p + Z.of_nat (length bs1)) Hb ltac:(by apply suffix_app in Hs)) as (c & r' & E & Hc).
    rewrite (benc_next_ok v bs1 c r' p) by (done || by rewrite <- E). cbn [mbind option_bind]. rewrite Hc.
    rewrite wrap_small by lia. apply suffix_app in Hs. rewrite IH by (done || lia). f_equal. lia.
Qed.

(** *** Dictionaries *)

Fixpoint dict_get (key : list Z) (l : list bval) : option bval :=
  match l with
  | BStr s :: v :: l => if bool_decide (s = key) then Some v else dict_get key l
  | _ => None
  end.

Lemma strncmp_ok s key p r :
  suffix m p (s ++ r) -> Forall (fun c => c <> 0) key ->
  exists b, strncmp_eq m (length s) p key = Some b /\
    (b && (Z.of_nat (length key) =? Z.of_nat (length s))) = bool_decide (s = key).
Proof.
  revert p key. induction s as [|c s IH]; intros p key Hs Hk.
  - exists true. split; [done|]. simpl. destruct key; [done|]. by rewrite bool_decide_false.
  - cbn [length strncmp_eq]. simpl in Hs. rewrite (suffix_rd _ _ _ _ Hs). cbn [mbind option_bind].
    destruct key as [|k key].
    + eexists. split; [done|]. rewrite bool_decide_false by done. cbn [length].
      rewrite (proj2 (Z.eqb_neq (Z.of_nat 0) _)) by lia. apply andb_false_r.
    + apply Forall_cons in Hk as [Hk0 Hk]. destruct (Z.eqb_spec c k) as [->|Hne].
      * rewrite (proj2 (Z.eqb_neq _ _)) by done.
        destruct (IH (p + 1) key) as (b & -> & Hb); [by eapply suffix_cons|done|].
        exists b. split; [done|]. cbn [length].
        replace (Z.of_nat (S (length key)) =? Z.of_nat (S (length s)))
          with (Z.of_nat (length key) =? Z.of_nat (length s)) by (symmetry; destruct (Z.eqb_spec (Z.of_nat (length key)) (Z.of_nat (length s))); [apply Z.eqb_eq|apply Z.eqb_neq]; lia).
        rewrite Hb. apply bool_decide_ext. naive_solver.
      * exists false. split; [done|]. rewrite bool_decide_false by naive_solver. done.
Qed.

(** What a lookup must find. *)
Definition dget_post (o : option bval) (res : option Z) : Prop :=
  match o with
  | None => res = None
  | Some v => exists q bs r, res = Some q /\ benc v bs /\ suffix m q (bs ++ r)
  end.

Lemma dget_loop_ok key l : Forall (fun c => c <> 0) key -> pairs l -> forall bs r p fuel,
  bencs l bs -> suffix m p (bs ++ ch_e :: r) -> (length l < fuel)%nat ->
  exists res, dget_loop m base fuel (member_ptr l p) key = Some res /\ dget_post (dict_get key l) res.
Proof.
  intros Hk Hp. induction Hp as [|k v l Hkey _ IH]; intros bs r p [|fuel] Hb Hs Hf; simpl in Hf; try lia.
  { by exists None. }
  inversion Hb as [|? ? bk bs' Hbk Hb']; subst. inversion Hb' as [|? ? bv bl Hbv Hbl]; subst.
  destruct k as [s| | |]; try done. inversion Hbk as [ds ? Hds Hdec| | |]; subst. rewrite <- app_assoc in Hs.
  destruct (benc_mem_ok ds s _ p Hds Hdec Hs) as (Hi & Hm & Hs1).
  cbn [dget_loop member_ptr]. rewrite Hi. cbn [mbind option_bind negb]. rewrite Hm. cbn [mbind option_bind].
  pose proof (suffix_le _ _ Hs1) as [Hp1 Hl1]. rewrite length_app in Hl1.
  unfold mem_next. cbn [mem_ptr mem_len]. rewrite padd_in by lia.
  pose proof (suffix_app _ _ _ _ Hs1) as Hs2. rewrite <- app_assoc in Hs2.
  destruct (benc_head _ _ Hbv) as (c & bv' & Ec & _ & Hce & _).
  assert (rd m (p + Z.of_nat (length ds) + 1 + Z.of_nat (length s)) = Some c) as ->
    by (rewrite Ec in Hs2; by eapply suffix_rd).
  cbn [mbind option_bind]. rewrite (proj2 (Z.eqb_neq c ch_e)) by done. rewrite Nat2Z.id.
  destruct (strncmp_ok s key _ _ Hs1 Hk) as (b & -> & Eb). cbn [mbind option_bind dict_get]. rewrite Eb.
  case_bool_decide as Hsk.
  - eexists. split; [done|]. simpl. eauto 6.
  - set (q := p + Z.of_nat (length ds) + 1 + Z.of_nat (length s)) in *. cbn [mbind option_bind].
    destruct (members_ptr _ _ _ (q + Z.of_nat (length bv)) Hbl ltac:(by apply suffix_app in Hs2)) as (c' & r' & E & Hc).
    rewrite (benc_next_ok v bv c' r' q) by (done || by rewrite <- E). cbn [mbind option_bind]. rewrite Hc.
    apply suffix_app in Hs2. apply (IH bl r); [done..|lia].
Qed.
End Accessors.

(** ** The theorems *)

Section Claims.
Context (m : list Z) (base : Z).

(** The block lies in the address space of a process. *)
Definition addressable : Prop := 0 <= base /\ base + Z.of_nat (length m) <= 2 ^ 63.

(** the validator always gives an answer, without reading outside the text,
    and the answer is 0 exactly for the encodings of a value, provided no run of
    digits in the text denotes a number of 2^63 or more. *)
Theorem benc_validate_correct :
  addressable -> sane_runs m ->
  ((exists v, benc v m) /\ benc_validate m base (text_fuel m) (Z.of_nat (length m)) = Some 0) \/
  (~ (exists v, benc v m) /\ benc_validate m base (text_fuel m) (Z.of_nat (length m)) = Some EINVAL).
Proof.
  intros Hb Hr. unfold benc_validate, text_fuel. destruct (decide (m = [])) as [Hm|Hm].
  { right. rewrite Hm. split; [|done]. by intros [v (? & ? & [=] & _)%benc_head]. }
  rewrite (proj2 (Z.leb_gt _ _)) by (destruct m; [done|simpl; lia]).
  assert (forall v, benc v m ->
    benc_validate_aux m base (Z.of_nat (length m) - 1) (S (2 * length m)) 0 =
      Some (Some (Z.of_nat (length m) - 1))) as Hc.
  { intros v Hv. rewrite (proj1 (validate_complete m base Hb) v m Hv []); [done| |lia].
    rewrite app_nil_r. apply suffix_start. }
  destruct (proj1 (validate_sound m base Hb Hr (S (2 * length m))) 0 m (suffix_start m) Hm ltac:(lia))
    as [E|(v & bs & r & Em & Hv & E)]; rewrite E in *; cbn [mbind option_bind].
  - right. split; [|done]. intros [v Hv]. by specialize (Hc v Hv).
  - destruct (Z.eqb_spec (0 + Z.of_nat (length bs) - 1) (Z.of_nat (length m) - 1)) as [Hl|Hl].
    + left. split; [|done]. exists v. rewrite Em. rewrite Em, length_app in Hl.
      destruct r; [by rewrite app_nil_r|simpl in Hl; lia].
    + right. split; [|done]. intros [v' Hv']. specialize (Hc v' Hv'). congruence.
Qed.

(** On the encoding of a list or a dictionary at [p], [benc_length] is the
    length of the encoding and [benc_nelems] the number of members (keys and
    values both count); a dictionary lookup finds the value after the first
    equal key, whatever the order of the keys, or returns [NULL] when there is
    none. *)
Theorem benc_accessors_correct v bs l r p key :
  addressable -> benc v bs -> (v = BList l \/ v = BDict l) -> suffix m p (bs ++ r) ->
  Forall (fun c => c <> 0) key ->
  benc_length m base (text_fuel m) p = Some (Z.of_nat (length bs)) /\
  benc_nelems m base p = Some (Z.of_nat (length l)) /\
  (v = BDict l -> exists res, benc_dget_any m base p key = Some res /\ dget_post m (dict_get key l) res).
Proof.
  intros Hb Hv Hl Hs Hk. pose proof (suffix_le _ _ _ Hs) as [Hp Hlen]. rewrite length_app in Hlen.
  split; [apply (proj1 (benc_length_ok m base Hb) v bs Hv r); [done|unfold text_fuel; lia]|].
  assert (exists k bs', (k =? ch_l) || (k =? ch_d) = true /\ bs = k :: bs' ++ [ch_e] /\ bencs l bs' /\
            (v = BDict l -> k = ch_d /\ pairs l)) as (k & bs' & Hkk & -> & Hbs & Hd).
  { destruct Hl as [-> | ->]; inversion Hv; subst; (eexists _, _; split; [|split; [done|split; [done|]]]; [done|naive_solver]). }
  simpl in Hs. rewrite <- app_assoc in Hs. destruct (benc_first_ok m k l bs' r p Hkk Hbs Hs) as [Hf Hs'].
  pose proof (bencs_length _ _ Hbs) as Hln. simpl in Hlen. rewrite length_app in Hlen.
  split.
  - unfold benc_nelems. rewrite Hf. cbn [mbind option_bind].
    rewrite (nelems_ok m base Hb l bs' r) by (done || unfold addressable in Hb; lia). done.
  - intros E. destruct (Hd E) as [-> Hpr]. unfold benc_dget_any, benc_isdct.
    rewrite (suffix_rd _ _ _ _ Hs). cbn [mbind option_bind]. rewrite Z.eqb_refl. cbn [negb].
    rewrite Hf. cbn [mbind option_bind]. apply (dget_loop_ok m base Hb key l Hk Hpr bs' r); [done|done|lia].
Qed.
End Claims.

(** ** Witnesses *)

(** d3:fooi42e1:xle *)
Definition demo_text : list Z :=
  [100; 51; 58; 102; 111; 111; 105; 52; 50; 101; 49; 58; 120; 108; 101; 101].
Definition demo_dict : list bval :=
  [BStr [102; 111; 111]; BInt false [52; 50]; BStr [120]; BList []].

Ltac digits_tac := split; [done|repeat constructor].

Lemma demo_benc : benc (BDict demo_dict) demo_text.
Proof.
  apply (benc_dict demo_dict [51; 58; 102; 111; 111; 105; 52; 50; 101; 49; 58; 120; 108; 101]).
  - apply (bencs_cons _ _ [51; 58; 102; 111; 111]); [apply (benc_string [51]); [digits_tac|done]|].
    apply (bencs_cons _ _ [105; 52; 50; 101]); [apply (benc_integer false [52; 50]); digits_tac|].
    apply (bencs_cons _ _ [49; 58; 120]); [apply (benc_string [49]); [digits_tac|done]|].
    apply (bencs_cons _ _ [108; 101]); [apply (benc_list [] []); constructor|constructor].
  - repeat constructor.
Qed.

(** A text shorter than 18 bytes has no long run. *)
Lemma dec_bound ds : Forall (fun c => isdigit c = true) ds -> dec ds < 10 ^ Z.of_nat (length ds).
Proof.
  intros Hd. unfold dec. assert (forall a, 0 <= a -> foldl dec_step a ds < (a + 1) * 10 ^ Z.of_nat (length ds)) as H.
  { induction Hd as [|c ds Hc%isdigit_range _ IH]; intros a Ha; cbn [foldl length]; [lia|].
    eapply Z.lt_le_trans; [apply IH; unfold dec_step; lia|]. rewrite Nat2Z.inj_succ, Z.pow_succ_r by lia.
    unfold dec_step. pose proof (Z.pow_pos_nonneg 10 (Z.of_nat (length ds))). nia. }
  specialize (H 0). lia.
Qed.

Lemma short_sane m : (length m <= 18)%nat -> sane_runs m.
Proof.
  intros Hm pre ds post -> Hd. rewrite !length_app in Hm. eapply Z.lt_le_trans; [by apply dec_bound|].
  etrans; [apply (Z.pow_le_mono_r 10 _ 18); lia|]. done.
Qed.

Lemma benc_validate_correct_witness :
  ((exists v, benc v demo_text) /\ benc_validate demo_text 4096 (text_fuel demo_text) 16 = Some 0) \/
  (~ (exists v, benc v demo_text) /\ benc_validate demo_text 4096 (text_fuel demo_text) 16 = Some EINVAL).
Proof.
  apply (benc_validate_correct demo_text 4096); [unfold addressable; simpl; lia|apply short_sane; simpl; lia].
Defined.

Lemma benc_accessors_correct_witness :
  benc_length demo_text 4096 (text_fuel demo_text) 0 = Some 16 /\
  benc_nelems demo_text 4096 0 = Some 4 /\
  (BDict demo_dict = BDict demo_dict -> exists res, benc_dget_any demo_text 4096 0 [120] = Some res /\
     dget_post demo_text (dict_get [120] demo_dict) res).
Proof.
  apply (benc_accessors_correct demo_text 4096 (BDict demo_dict) demo_text demo_dict [] 0 [120]).
  - unfold addressable; simpl; lia.
  - apply demo_benc.
  - by right.
  - apply suffix_start.
  - by repeat constructor.
Defined.

Example dget_x : benc_dget_any demo_text 4096 0 [120] = Some (Some 13).
Proof. vm_compute. reflexivity. Qed.

(** ** Texts with long runs of digits *)

(** 18446744073709551617:x, with 2^64 + 1 as its length, is accepted as a string
    of one byte; [benc_mem] then takes it for one of 2^64 - 1 bytes. *)
Definition long_run : list Z :=
  [49; 56; 52; 52; 54; 55; 52; 52; 48; 55; 51; 55; 48; 57; 53; 53; 49; 54; 49; 55; 58; 120].

Example long_run_accepted :
  benc_validate long_run 4096 (text_fuel long_run) 22 = Some 0 /\
  benc_mem long_run 0 = Some (Some (Mem 21 (2 ^ 64 - 1))).
Proof. split; vm_compute; reflexivity. Qed.

(** l18446744073709551595: sends the pointer back to the start, and the validator
    never ends. *)
Definition endless : list Z :=
  [108; 49; 56; 52; 52; 54; 55; 52; 52; 48; 55; 51; 55; 48; 57; 53; 53; 49; 53; 57; 53; 58].

Theorem endless_diverges fuel : benc_validate endless 4096 fuel 22 = None.
Proof.
  assert (forall fuel, validate_members endless 4096 21 fuel 0 1 = None) as Hloop.
  { clear fuel. intros fuel. induction fuel as [fuel IH] using lt_wf_ind. destruct fuel as [|fuel]; [done|].
    rewrite validate_members_S. cbv zeta. change (1 <=? 21) with true.
    change (rd endless 1) with (Some 49). cbn [mbind option_bind].
    change (49 =? ch_e) with false. cbn [Nat.eqb negb andb].
    destruct fuel as [|fuel]; [done|].
    assert (benc_validate_aux endless 4096 21 (S fuel) 1 = Some (Some 0)) as ->
      by (rewrite benc_validate_aux_S; vm_compute; reflexivity).
    cbn [mbind option_bind]. apply IH. lia. }
  unfold benc_validate. change (22 <=? 0) with false. cbn iota. destruct fuel as [|fuel]; [done|].
  change (22 - 1) with 21. rewrite benc_validate_aux_S. change (rd endless 0) with (Some ch_l).
  cbn [mbind option_bind]. change (ch_l =? ch_d) with false. change (ch_l =? ch_l) with true. cbn iota.
  change (0 + 1) with 1. by rewrite Hloop.
Qed.
