(* ===== verification/Alloc.v ===== *)
(** The memory node allocator: [common/memory/allocator.c].

    A free list is a list of nodes (the nodes of one list are chained by their
    [next] fields); [malloc] is an argument that gives an address or [NULL]. *)
From S2P Require Import Prelude.
Local Open Scope Z_scope.
#[local] Arguments cloop : simpl never.

Definition MIN_ALLOC : Z := 256.
Definition MAX_INDEX : Z := 80.
Definition BOUNDARY_INDEX : Z := 7.
Definition BOUNDARY_SIZE : Z := Z.shiftl 1 BOUNDARY_INDEX.
Definition MEMNODE_T_SIZE : Z := 40.
Definition ALLOCATOR_MAX_FREE_UNLIMITED : Z := 0.

(** [ALIGN] on an unsigned type of width [w]. *)
Definition ALIGN (w size boundary : Z) : Z :=
  Z.land (wrap w (size + (boundary - 1))) (Z.lnot (boundary - 1)).

(** [first_avail] and [endp] are relative to the node. *)
Record memnode := Node { addr : Z; index : Z; first_avail : Z; endp : Z }.

Record allocator := Allocator {
  max_index : Z; max_free_index : Z; current_free_index : Z; free : list (list memnode)
}.

Definition allocator_create : allocator :=
  Allocator 0 ALLOCATOR_MAX_FREE_UNLIMITED 0 (replicate (Z.to_nat MAX_INDEX) []).

(** The nodes given back to [free()], in order. *)
Definition allocator_destroy (a : allocator) : list memnode := concat (free a).

Definition allocator_max_free_set (a : allocator) (in_size : Z) : allocator :=
  let size := u32 in_size in
  let new_max := Z.shiftr (ALIGN 32 size BOUNDARY_SIZE) BOUNDARY_INDEX in
  let current := u32 (current_free_index a + new_max) in
  let current := u32 (current - max_free_index a) in
  let current := if current >? new_max then new_max else current in
  Allocator (max_index a) new_max current (free a).

(** Taking a node off the books. *)
Definition credit (a : allocator) (n : memnode) : Z :=
  let current := u32 (current_free_index a + index n) in
  if current >? max_free_index a then max_free_index a else current.

Definition hand_out (n : memnode) : memnode := Node (addr n) (index n) MEMNODE_T_SIZE (endp n).

(** [while ( *ref == NULL && i < max_index) { ref++; i++; }] *)
Definition walk_turn (free : list (list memnode)) (max_index i : Z) : option (Z + Z) :=
  l ← aread free (Z.to_nat i);
  match l with
  | [] => if i <? max_index then Some (inl (i + 1)) else Some (inr i)
  | _ => Some (inr i)
  end.

(** [do { ref--; max_index--; } while ( *ref == NULL && max_index > 0);] where
    [ref] is at [max_index]. *)
Definition shrink_turn (free : list (list memnode)) (max_index : Z) : option (Z + Z) :=
  let max_index := max_index - 1 in
  _ ← ensure (0 <=? max_index);
  l ← aread free (Z.to_nat max_index);
  match l with
  | [] => if max_index >? 0 then Some (inl max_index) else Some (inr max_index)
  | _ => Some (inr max_index)
  end.

(** The first node of the sink that is large enough, and the rest of the sink. *)
Fixpoint sink_take (idx : Z) (l : list memnode) : option (memnode * list memnode) :=
  match l with
  | [] => None
  | n :: l =>
      if idx >? index n then '(n', l) ← sink_take idx l; Some (n', n :: l) else Some (n, l)
  end.

Definition new_node (malloc : Z -> option Z) (size idx : Z) : option memnode :=
  p ← malloc size; Some (Node p (u32 idx) MEMNODE_T_SIZE size).

(** A node from the size buckets. *)
Definition take_bucket (a : allocator) (idx : Z) : option (option memnode * allocator) :=
  i ← cloop (Z.to_nat MAX_INDEX) (walk_turn (free a) (max_index a)) idx;
  l ← aread (free a) (Z.to_nat i);
  match l with
  | [] => Some (None, a)
  | n :: rest =>
      free' ← awrite (free a) (Z.to_nat i) rest;
      max' ← (match rest with
              | [] => if i >=? max_index a
                      then cloop (Z.to_nat MAX_INDEX) (shrink_turn free') (max_index a)
                      else Some (max_index a)
              | _ => Some (max_index a)
              end);
      Some (Some (hand_out n), Allocator max' (max_free_index a) (credit a n) free')
  end.

(** A node from the sink. *)
Definition take_sink (a : allocator) (idx : Z) : option (option memnode * allocator) :=
  sink ← aread (free a) 0;
  match sink_take idx sink with
  | None => Some (None, a)
  | Some (n, rest) =>
      free' ← awrite (free a) 0 rest;
      Some (Some (hand_out n), Allocator (max_index a) (max_free_index a) (credit a n) free')
  end.

(** The size to allocate and its index, or [NULL] at once. *)
Definition alloc_index (in_size : Z) : option (Z * Z) :=
  let size := ALIGN 64 (u64 (in_size + MEMNODE_T_SIZE)) BOUNDARY_SIZE in
  if size <? in_size then None
  else
    let size := if size <? MIN_ALLOC then MIN_ALLOC else size in
    let idx := Z.shiftr size BOUNDARY_INDEX - 1 in
    if idx >? 0xffffffff then None else Some (size, idx).

Definition in_allocator_alloc (malloc : Z -> option Z) (a : allocator) (in_size : Z)
    : option (option memnode * allocator) :=
  match alloc_index in_size with
  | None => Some (None, a)
  | Some (size, idx) =>
      '(r, a) ← (if idx <=? max_index a then take_bucket a idx else take_sink a idx);
      match r with
      | Some n => Some (Some n, a)
      | None => Some (new_node malloc size idx, a)
      end
  end.

(** The locals of [in_allocator_free] and the buckets. *)
Record free_state := FreeState {
  f_free : list (list memnode); f_max : Z; f_current : Z; freelist : list memnode
}.

Definition free_turn (max_free : Z) (s : free_state) (n : memnode) : option free_state :=
  let '(FreeState fr mx cur fl) := s in
  let cur' := if cur >=? index n then cur - index n else 0 in
  if negb (max_free =? ALLOCATOR_MAX_FREE_UNLIMITED) && (index n >? cur) then
    Some (FreeState fr mx cur (n :: fl))
  else if index n <? MAX_INDEX then
    l ← aread fr (Z.to_nat (index n));
    let mx := match l with [] => if index n >? mx then index n else mx | _ => mx end in
    fr ← awrite fr (Z.to_nat (index n)) (n :: l);
    Some (FreeState fr mx cur' fl)
  else
    l ← aread fr 0;
    fr ← awrite fr 0 (n :: l);
    Some (FreeState fr mx cur' fl).

Fixpoint free_loop (max_free : Z) (s : free_state) (nodes : list memnode) : option free_state :=
  match nodes with
  | [] => Some s
  | n :: nodes => s ← free_turn max_free s n; free_loop max_free s nodes
  end.

(** [nodes] is the chain handed in; also the nodes passed on to [free()]. *)
Definition in_allocator_free (a : allocator) (nodes : list memnode) : option (allocator * list memnode) :=
  s ← free_loop (max_free_index a)
        (FreeState (free a) (max_index a) (current_free_index a) []) nodes;
  Some (Allocator (f_max s) (max_free_index a) (f_current s) (f_free s), freelist s).

(** ** Invariant *)

(** A node as [malloc] made it. *)
Definition node_ok (n : memnode) : Prop :=
  1 <= index n < 2 ^ 32 /\ endp n = (index n + 1) * BOUNDARY_SIZE.

(** The nodes of slot [i]. *)
Definition slot_ok (i : nat) (l : list memnode) : Prop :=
  Forall (fun n => node_ok n /\ (if (i =? 0)%nat then MAX_INDEX <= index n else index n = Z.of_nat i)) l.

Definition buckets_ok (fr : list (list memnode)) (mx : Z) : Prop :=
  length fr = Z.to_nat MAX_INDEX /\ 0 <= mx < MAX_INDEX /\
  (forall i l, fr !! i = Some l -> slot_ok i l) /\
  (forall i l, fr !! i = Some l -> mx < Z.of_nat i -> l = []) /\
  (0 < mx -> fr !! Z.to_nat mx <> Some []).

Definition awf (a : allocator) : Prop := buckets_ok (free a) (max_index a).

(** All nodes the allocator keeps. *)
Definition pool (a : allocator) : list memnode := concat (free a).
Definition total (l : list memnode) : Z := foldr (fun n s => index n + s) 0 l.

Lemma ALIGN_128 w x : 7 <= w -> ALIGN w x BOUNDARY_SIZE = wrap w (x + 127) / 128 * 128.
Proof.
  intros Hw. unfold ALIGN. change BOUNDARY_SIZE with 128. change (128 - 1) with (Z.ones 7).
  rewrite <- Z.ldiff_land, Z.ldiff_ones_r, Z.shiftr_div_pow2, Z.shiftl_mul_pow2 by lia. done.
Qed.

(** The size and the index agree, and the block holds what was asked for. *)
Lemma alloc_index_ok in_size :
  0 <= in_size < 2 ^ 64 ->
  match alloc_index in_size with
  | None => 2 ^ 39 - 40 < in_size
  | Some (size, idx) =>
      1 <= idx < 2 ^ 32 /\ size = (idx + 1) * BOUNDARY_SIZE /\ in_size + MEMNODE_T_SIZE <= size
  end.
Proof.
  intros Hs. unfold alloc_index, MEMNODE_T_SIZE, MIN_ALLOC. rewrite ALIGN_128 by lia.
  change BOUNDARY_SIZE with 128. unfold BOUNDARY_INDEX, wrap.
  set (y := (((in_size + 40) mod 2 ^ 64 + 127) mod 2 ^ 64)).
  assert (in_size + 167 < 2 ^ 64 /\ y = in_size + 167 \/ 2 ^ 64 <= in_size + 167 /\ 0 <= y < 167) as Hy.
  { unfold y. destruct (decide (in_size + 40 < 2 ^ 64)).
    - rewrite (Z.mod_small (in_size + 40)) by lia. destruct (decide (in_size + 167 < 2 ^ 64)).
      + rewrite Z.mod_small by lia. lia.
      + rewrite <- (Z.mod_add _ (-1)) by lia. rewrite Z.mod_small by lia. lia.
    - rewrite <- (Z.mod_add (in_size + 40) (-1)) by lia. rewrite (Z.mod_small (in_size + 40 + _)) by lia.
      rewrite Z.mod_small by lia. lia. }
  clearbody y. destruct (y / 128 * 128 <? in_size) eqn:E1; [lia|].
  destruct (y / 128 * 128 <? 256) eqn:E2; [|].
  { change (Z.shiftr 256 7 - 1) with 1. change (1 >? 0xffffffff) with false. cbv iota beta. lia. }
  rewrite Z.shiftr_div_pow2 by lia. change (2 ^ 7) with 128. rewrite Z.div_mul by lia.
  destruct (_ >? _) eqn:E3; lia.
Qed.

(** ** Taking nodes *)

Lemma slot_lookup (fr : list (list memnode)) i :
  length fr = Z.to_nat MAX_INDEX -> 0 <= i < MAX_INDEX -> exists l, fr !! Z.to_nat i = Some l.
Proof. intros Hl Hi. apply lookup_lt_is_Some_2. unfold MAX_INDEX in *. lia. Qed.

Lemma walk_ok fr mx idx :
  buckets_ok fr mx -> 1 <= idx <= mx ->
  exists i, cloop (Z.to_nat MAX_INDEX) (walk_turn fr mx) idx = Some i /\
    idx <= i <= mx /\ exists n l, fr !! Z.to_nat i = Some (n :: l).
Proof.
  intros (Hl & Hm & _ & _ & Hne) Hi.
  apply (cloop_total (fun i => idx <= i <= mx) (fun i => Z.to_nat (mx - i))); [|lia|unfold MAX_INDEX in *; lia].
  intros i Hr. unfold walk_turn, aread. destruct (slot_lookup fr i Hl ltac:(lia)) as [l El].
  rewrite El. cbn [mbind option_bind]. destruct l as [|n l]; [|simpl; eauto].
  destruct (i <? mx) eqn:E; simpl; [lia|]. exfalso. replace mx with i in Hne by lia. by apply Hne; [lia|].
Qed.

Lemma shrink_ok fr mx :
  length fr = Z.to_nat MAX_INDEX -> 1 <= mx < MAX_INDEX ->
  (forall i l, fr !! i = Some l -> mx <= Z.of_nat i -> l = []) ->
  exists r, cloop (Z.to_nat MAX_INDEX) (shrink_turn fr) mx = Some r /\
    0 <= r < mx /\ (forall i l, fr !! i = Some l -> r < Z.of_nat i -> l = []) /\
    (0 < r -> fr !! Z.to_nat r <> Some []).
Proof.
  intros Hl Hm He.
  apply (cloop_total (fun k => 1 <= k <= mx /\ forall i l, fr !! i = Some l -> k <= Z.of_nat i -> l = []) Z.to_nat);
    [|split; [lia|done]|unfold MAX_INDEX in *; lia].
  intros k [Hk Hek]. unfold shrink_turn. rewrite (proj2 (Z.leb_le _ _)) by lia. cbn [ensure mbind option_bind].
  unfold aread. destruct (slot_lookup fr (k - 1) Hl ltac:(lia)) as [l El]. rewrite El. cbn [mbind option_bind].
  destruct l as [|n l].
  - assert (forall i l, fr !! i = Some l -> k - 1 <= Z.of_nat i -> l = []) as Hek'.
    { intros i l' Ei Hi. destruct (decide (k <= Z.of_nat i)); [by eapply Hek|].
      replace i with (Z.to_nat (k - 1)) in Ei by lia. congruence. }
    destruct (k - 1 >? 0) eqn:E; simpl; [split; [split; [lia|done]|lia]|].
    split; [lia|]. split; [|lia]. intros i l' Ei Hi. eapply Hek'; [done|lia].
  - simpl. split; [lia|]. split; [|congruence]. intros i l' Ei Hi. eapply Hek; [done|lia].
Qed.

(** Replacing the contents of a slot by some of its nodes. *)
Lemma slot_ok_insert (fr : list (list memnode)) i l l' :
  (forall i l, fr !! i = Some l -> slot_ok i l) -> fr !! i = Some l -> slot_ok i l' ->
  forall j lj, <[i := l']> fr !! j = Some lj -> slot_ok j lj.
Proof.
  intros H Hi Hl' j lj. rewrite list_lookup_insert. case_decide as E; [|by apply H].
  destruct E as [-> _]. intros [= <-]. done.
Qed.

Lemma take_bucket_ok a idx :
  awf a -> 1 <= idx <= max_index a ->
  exists n a', take_bucket a idx = Some (Some (hand_out n), a') /\ awf a' /\
    pool a ≡ₚ n :: pool a' /\ node_ok n /\ idx <= index n /\
    max_free_index a' = max_free_index a /\ current_free_index a' = credit a n.
Proof.
  intros Hw Hi. destruct (walk_ok _ _ _ Hw Hi) as (i & Hwalk & Hir & n & l & El).
  destruct Hw as (Hl & Hm & Hs & He & Hne). unfold take_bucket. rewrite Hwalk. cbn [mbind option_bind].
  unfold aread. rewrite El. cbn [mbind option_bind].
  assert (Z.to_nat i < length (free a))%nat as Hlt by (by eapply lookup_lt_Some).
  rewrite awrite_ok by done. cbn [mbind option_bind].
  pose proof (Hs _ _ El) as Hsl. apply Forall_cons in Hsl as [[Hn Hidx] Hsl].
  assert (index n = i) as Hni.
  { rewrite (proj2 (Nat.eqb_neq _ _)) in Hidx by lia. lia. }
  destruct (concat_slot _ _ _ El) as (rest & Hp1 & Hp2).
  set (fr := <[Z.to_nat i := l]> (free a)) in *.
  assert (length fr = Z.to_nat MAX_INDEX) as Hlf by (unfold fr; by rewrite length_insert).
  assert (forall j lj, fr !! j = Some lj -> slot_ok j lj) as Hsf by (by eapply slot_ok_insert).
  assert (forall j lj, fr !! j = Some lj -> max_index a < Z.of_nat j -> lj = []) as Hef.
  { intros j lj Hj Hgt. unfold fr in Hj. rewrite list_lookup_insert_ne in Hj by lia. by eapply He. }
  assert (exists mx', (match l with
              | [] => if i >=? max_index a
                      then cloop (Z.to_nat MAX_INDEX) (shrink_turn fr) (max_index a)
                      else Some (max_index a)
              | _ => Some (max_index a)
              end) = Some mx' /\ buckets_ok fr mx') as (mx' & -> & Hb).
  { destruct l as [|n' l]; [destruct (i >=? max_index a) eqn:E|].
    - assert (i = max_index a) as -> by lia.
      destruct (shrink_ok fr (max_index a) Hlf) as (r & Hr & Hr0 & Hr1 & Hr2); [lia| |].
      { intros j lj Hj Hge. destruct (decide (Z.of_nat j = max_index a)) as [Ej|].
        - unfold fr in Hj. replace j with (Z.to_nat (max_index a)) in Hj by lia.
          rewrite list_lookup_insert_eq in Hj by done. congruence.
        - eapply Hef; [done|lia]. }
      exists r. split; [done|]. split; [done|]. split; [unfold MAX_INDEX in *; lia|]. done.
    - exists (max_index a). split; [done|]. split; [done|]. split; [done|]. split; [done|]. split; [done|].
      intros H0. unfold fr. rewrite list_lookup_insert_ne by lia. by apply Hne.
    - exists (max_index a). split; [done|]. split; [done|]. split; [done|]. split; [done|]. split; [done|].
      intros H0. destruct (decide (i = max_index a)) as [<-|].
      + unfold fr. rewrite list_lookup_insert_eq by done. done.
      + unfold fr. rewrite list_lookup_insert_ne by lia. by apply Hne. }
  cbn [mbind option_bind]. exists n, (Allocator mx' (max_free_index a) (credit a n) fr).
  split; [done|]. split; [exact Hb|]. split; [|split; [done|split; [lia|done]]].
  unfold pool. simpl. rewrite Hp1. unfold fr. by rewrite (Hp2 l).
Qed.

Lemma sink_take_ok idx l :
  match sink_take idx l with
  | None => Forall (fun n => index n < idx) l
  | Some (n, rest) => l ≡ₚ n :: rest /\ idx <= index n
  end.
Proof.
  induction l as [|n l IH]; cbn [sink_take]; [constructor|]. destruct (idx >? index n) eqn:E; [|split; [done|lia]].
  destruct (sink_take idx l) as [[n' l']|]; cbn.
  - destruct IH as [-> ?]. split; [by rewrite Permutation_swap|done].
  - constructor; [lia|done].
Qed.

Lemma buckets_sink (fr : list (list memnode)) mx l l' :
  buckets_ok fr mx -> fr !! 0%nat = Some l -> slot_ok 0 l' -> buckets_ok (<[0%nat := l']> fr) mx.
Proof.
  intros (Hl & Hm & Hs & He & Hne) El Hl'. split; [by rewrite length_insert|]. split; [done|].
  split; [by eapply slot_ok_insert|]. split.
  - intros j lj Hj Hgt. rewrite list_lookup_insert_ne in Hj by lia. by eapply He.
  - intros H0. rewrite list_lookup_insert_ne by lia. by apply Hne.
Qed.

Lemma take_sink_ok a idx :
  awf a ->
  exists r a', take_sink a idx = Some (r, a') /\ awf a' /\
    match r with
    | None => a' = a
    | Some r => exists n, r = hand_out n /\ pool a ≡ₚ n :: pool a' /\ node_ok n /\ idx <= index n /\
        max_free_index a' = max_free_index a /\ current_free_index a' = credit a n
    end.
Proof.
  intros Hw. pose proof Hw as (Hl & Hm & Hs & _). unfold take_sink, aread.
  destruct (slot_lookup (free a) 0 Hl ltac:(unfold MAX_INDEX; lia)) as [sink Es]. change (Z.to_nat 0) with 0%nat in Es.
  rewrite Es. cbn [mbind option_bind]. pose proof (sink_take_ok idx sink) as Ht.
  destruct (sink_take idx sink) as [[n rest]|]; [|by exists None, a].
  destruct Ht as [Hp Hi]. rewrite awrite_ok by (by eapply lookup_lt_Some). cbn [mbind option_bind].
  pose proof (Hs _ _ Es) as Hsl. unfold slot_ok in Hsl. rewrite Hp in Hsl. apply Forall_cons in Hsl as [[Hn _] Hsl].
  destruct (concat_slot _ _ _ Es) as (rest' & Hp1 & Hp2).
  eexists _, _. split; [done|]. split; [by eapply buckets_sink|]. exists n. split; [done|].
  split; [|done]. unfold pool. cbn [free]. by rewrite Hp1, (Hp2 rest), Hp.
Qed.

(** ** Giving nodes back *)

Definition f_pool (s : free_state) : list memnode := concat (f_free s) ++ freelist s.

(** Within the limit: what is kept and what may still be kept. *)
Definition f_quota (max_free : Z) (s : free_state) : Prop :=
  max_free <> 0 -> total (concat (f_free s)) + f_current s <= max_free /\ 0 <= f_current s.

Lemma total_app l1 l2 : total (l1 ++ l2) = total l1 + total l2.
Proof. induction l1 as [|n l1 IH]; simpl; lia. Qed.

#[export] Instance total_Proper : Proper ((≡ₚ) ==> eq) total.
Proof. intros l1 l2 H. induction H; simpl; lia. Qed.

(** Putting a node in front of a slot. *)
Lemma put_slot (fr : list (list memnode)) i l n :
  fr !! i = Some l -> concat (<[i := n :: l]> fr) ≡ₚ n :: concat fr.
Proof. intros H. destruct (concat_slot _ _ _ H) as (rest & Hp1 & Hp2). by rewrite Hp2, Hp1. Qed.

Lemma buckets_put fr mx n l :
  buckets_ok fr mx -> node_ok n -> index n < MAX_INDEX -> fr !! Z.to_nat (index n) = Some l ->
  buckets_ok (<[Z.to_nat (index n) := n :: l]> fr)
    (match l with [] => if index n >? mx then index n else mx | _ => mx end).
Proof.
  intros (Hl & Hm & Hs & He & Hne) Hn Hi El. pose proof Hn as [Hr _].
  assert (slot_ok (Z.to_nat (index n)) (n :: l)) as Hsl.
  { constructor; [|by apply Hs]. split; [done|]. rewrite (proj2 (Nat.eqb_neq _ _)) by lia. lia. }
  set (mx' := match l with [] => _ | _ => _ end).
  assert (mx <= mx' /\ index n <= mx' < MAX_INDEX /\ (mx' = mx \/ mx' = index n)) as (H1 & H2 & H3).
  { unfold mx'. destruct l as [|n' l]; [destruct (index n >? mx) eqn:E; lia|].
    split; [lia|]. split; [|by left]. split; [|lia].
    destruct (decide (index n <= mx)); [done|]. by specialize (He _ _ El ltac:(lia)). }
  split; [by rewrite length_insert|]. split; [lia|]. split; [by eapply slot_ok_insert|]. split.
  - intros j lj Hj Hgt. rewrite list_lookup_insert_ne in Hj by lia. eapply He; [done|lia].
  - intros H0. destruct (decide (mx' = index n)) as [->|].
    + rewrite list_lookup_insert_eq by (by eapply lookup_lt_Some). done.
    + rewrite list_lookup_insert_ne by lia. replace mx' with mx by lia. apply Hne. lia.
Qed.

Lemma free_turn_ok max_free s n :
  buckets_ok (f_free s) (f_max s) -> node_ok n ->
  exists s', free_turn max_free s n = Some s' /\ buckets_ok (f_free s') (f_max s') /\
    f_pool s' ≡ₚ n :: f_pool s /\ (f_quota max_free s -> f_quota max_free s').
Proof.
  destruct s as [fr mx cur fl]. cbn [f_free f_max]. intros Hb Hn. pose proof Hb as (Hl & Hm & Hs & _).
  unfold free_turn, f_quota, f_pool. cbn [f_free f_current freelist].
  assert (forall fr', concat fr' ≡ₚ n :: concat fr -> negb (max_free =? 0) && (index n >? cur) = false ->
    (max_free <> 0 -> total (concat fr) + cur <= max_free /\ 0 <= cur) ->
    max_free <> 0 -> total (concat fr') + (if cur >=? index n then cur - index n else 0) <= max_free /\
      0 <= (if cur >=? index n then cur - index n else 0)) as Hq.
  { intros fr' Hp E H H0. rewrite Hp. simpl. specialize (H H0). apply Z.eqb_neq in H0. rewrite H0 in E. simpl in E.
    destruct (cur >=? index n) eqn:E2; lia. }
  change ALLOCATOR_MAX_FREE_UNLIMITED with 0.
  destruct (negb (max_free =? 0) && (index n >? cur)) eqn:E.
  { eexists. split; [done|]. split; [done|]. cbn [f_free freelist f_current]. split; [|done].
    by rewrite Permutation_middle. }
  pose proof Hn as [Hr _]. destruct (index n <? MAX_INDEX) eqn:Ei; unfold aread.
  - destruct (slot_lookup fr (index n) Hl ltac:(lia)) as [l El]. rewrite El. cbn [mbind option_bind].
    rewrite awrite_ok by (by eapply lookup_lt_Some). cbn [mbind option_bind].
    eexists. split; [done|]. cbn [f_free f_max freelist f_current].
    split; [apply buckets_put; [done|done|lia|done]|]. split; [by rewrite (put_slot _ _ _ _ El)|].
    apply Hq; [by apply put_slot|done].
  - destruct (slot_lookup fr 0 Hl ltac:(unfold MAX_INDEX; lia)) as [l El]. change (Z.to_nat 0) with 0%nat in El.
    rewrite El. cbn [mbind option_bind]. rewrite awrite_ok by (by eapply lookup_lt_Some). cbn [mbind option_bind].
    eexists. split; [done|]. cbn [f_free f_max freelist f_current].
    split; [eapply buckets_sink; [done|done|]|split; [by rewrite (put_slot _ _ _ _ El)|apply Hq; [by apply put_slot|done]]].
    constructor; [|by apply Hs]. split; [done|]. cbn. lia.
Qed.

Lemma free_loop_ok max_free nodes s :
  buckets_ok (f_free s) (f_max s) -> Forall node_ok nodes ->
  exists s', free_loop max_free s nodes = Some s' /\ buckets_ok (f_free s') (f_max s') /\
    f_pool s' ≡ₚ nodes ++ f_pool s /\ (f_quota max_free s -> f_quota max_free s').
Proof.
  intros Hb Hn. revert s Hb. induction Hn as [|n nodes Hn _ IH]; intros s Hb; [by exists s|].
  destruct (free_turn_ok max_free s n Hb Hn) as (s1 & E1 & Hb1 & Hp1 & Hq1).
  destruct (IH s1 Hb1) as (s2 & E2 & Hb2 & Hp2 & Hq2). exists s2. cbn [free_loop]. rewrite E1. cbn [mbind option_bind].
  split; [done|]. split; [done|]. split; [|tauto]. rewrite Hp2, Hp1. simpl. by rewrite Permutation_middle.
Qed.

Definition quota (a : allocator) : Prop :=
  max_free_index a <> 0 -> total (pool a) + current_free_index a <= max_free_index a /\ 0 <= current_free_index a.

Lemma in_allocator_free_ok a nodes :
  awf a -> Forall node_ok nodes ->
  exists a' freed, in_allocator_free a nodes = Some (a', freed) /\ awf a' /\
    pool a' ++ freed ≡ₚ nodes ++ pool a /\ max_free_index a' = max_free_index a /\ (quota a -> quota a').
Proof.
  intros Hw Hn. unfold in_allocator_free.
  destruct (free_loop_ok (max_free_index a) nodes
    (FreeState (free a) (max_index a) (current_free_index a) []) Hw Hn) as (s & -> & Hb & Hp & Hq).
  cbn [mbind option_bind]. eexists _, _. split; [done|]. split; [done|].
  split; [|split; [done|exact Hq]]. unfold f_pool in Hp. cbn [f_free freelist] in Hp.
  rewrite app_nil_r in Hp. exact Hp.
Qed.

Lemma pool_nonneg a : awf a -> 0 <= total (pool a).
Proof.
  intros (_ & _ & Hs & _). unfold pool. assert (Forall (Forall node_ok) (free a)) as H.
  { apply Forall_lookup. intros i l Hi. eapply Forall_impl; [by apply (Hs i)|]. by intros n [? _]. }
  clear Hs. induction H as [|l fr Hl _ IH]; simpl; [done|]. rewrite total_app.
  assert (0 <= total l); [|lia]. clear IH. induction Hl as [|n l [? _] _ IHl]; simpl; lia.
Qed.

Lemma credit_quota a a' n :
  awf a' -> quota a -> node_ok n -> pool a ≡ₚ n :: pool a' -> max_free_index a' = max_free_index a ->
  current_free_index a' = credit a n -> quota a'.
Proof.
  intros Hw Hq [Hr _] Hp Hm Hc H0. apply pool_nonneg in Hw. rewrite Hm in *. specialize (Hq H0). rewrite Hp in Hq. simpl in Hq. rewrite Hc.
  unfold credit. pose proof (wrap_range 32 (current_free_index a + index n) ltac:(lia)).
  assert (u32 (current_free_index a + index n) <= current_free_index a + index n) by (apply Z.mod_le; lia).
  destruct (_ >? _) eqn:E; lia.
Qed.

Definition alloc_post (malloc : Z -> option Z) (a : allocator) (in_size : Z) (r : option memnode) (a' : allocator) : Prop :=
  match r with
  | None => a' = a
  | Some r =>
      in_size <= endp r - first_avail r /\ first_avail r = MEMNODE_T_SIZE /\ node_ok r /\
      ((exists n, r = hand_out n /\ pool a ≡ₚ n :: pool a') \/
       (a' = a /\ malloc (endp r) = Some (addr r)))
  end.

Lemma node_room n idx size in_size :
  node_ok n -> idx <= index n -> size = (idx + 1) * BOUNDARY_SIZE -> in_size + MEMNODE_T_SIZE <= size ->
  in_size <= endp (hand_out n) - first_avail (hand_out n).
Proof. intros [_ He] Hi Hs Hl. simpl. rewrite He. change BOUNDARY_SIZE with 128 in *. lia. Qed.

Lemma in_allocator_alloc_ok malloc a in_size :
  awf a -> 0 <= in_size < 2 ^ 64 ->
  exists r a', in_allocator_alloc malloc a in_size = Some (r, a') /\ awf a' /\
    alloc_post malloc a in_size r a' /\ max_free_index a' = max_free_index a /\ (quota a -> quota a') /\
    (r = None -> 2 ^ 39 - 40 < in_size \/ exists size, malloc size = None).
Proof.
  intros Hw Hs. pose proof (alloc_index_ok in_size Hs) as Hi. unfold in_allocator_alloc.
  destruct (alloc_index in_size) as [[size idx]|]; [|exists None, a; split_and!; try done; by left].
  destruct Hi as (Hi & Hsz & Hfit).
  assert (forall a', awf a' -> a' = a -> exists r a'', Some (new_node malloc size idx, a') = Some (r, a'') /\ awf a'' /\
    alloc_post malloc a in_size r a'' /\ max_free_index a'' = max_free_index a /\ (quota a -> quota a'') /\
    (r = None -> 2 ^ 39 - 40 < in_size \/ exists size, malloc size = None)) as Hnew.
  { intros a' _ ->. eexists _, a. split; [done|]. split; [done|]. unfold new_node, alloc_post.
    destruct (malloc size) as [p|] eqn:Em; cbn [mbind option_bind]; [|split_and!; try done; by right; exists size].
    assert (node_ok (Node p idx MEMNODE_T_SIZE size)) as Hok by (split; done).
    rewrite wrap_small by lia. split; [|done]. split_and!; try done; [simpl; lia|]. by right. }
  destruct (idx <=? max_index a) eqn:E.
  - destruct (take_bucket_ok a idx Hw ltac:(lia)) as (n & a' & -> & Hw' & Hp & Hn & Hidx & Hm & Hc).
    cbn [mbind option_bind]. eexists _, a'. split; [done|]. split; [done|]. split; [|split; [done|]].
    + split; [by eapply node_room|]. split; [done|]. split; [done|]. left. eauto.
    + split; [intros Hq; by eapply credit_quota|done].
  - destruct (take_sink_ok a idx Hw) as (r & a' & -> & Hw' & Hr). cbn [mbind option_bind].
    destruct r as [r|]; [|by apply Hnew]. destruct Hr as (n & -> & Hp & Hn & Hidx & Hm & Hc).
    eexists _, a'. split; [done|]. split; [done|]. split; [|split; [done|]].
    + split; [by eapply node_room|]. split; [done|]. split; [done|]. left. eauto.
    + split; [intros Hq; by eapply credit_quota|done].
Qed.

Lemma allocator_create_wf : awf allocator_create.
Proof.
  assert (forall i l, replicate (Z.to_nat MAX_INDEX) ([] : list memnode) !! i = Some l -> l = []) as H.
  { intros i l Hi. by apply lookup_replicate in Hi as [-> _]. }
  split; [done|]. split; [done|]. split; [intros i l Hi; by rewrite (H i l Hi); constructor|].
  split; [intros i l Hi _; eauto|]. cbn. lia.
Qed.

(** ** Runs of an allocator with a limit *)

Inductive astep : allocator -> allocator -> Prop :=
  | step_alloc malloc a size r a' :
      0 <= size < 2 ^ 64 -> in_allocator_alloc malloc a size = Some (r, a') -> astep a a'
  | step_free a nodes a' freed :
      Forall node_ok nodes -> in_allocator_free a nodes = Some (a', freed) -> astep a a'.

(** What can be reached from a new allocator whose limit was set. *)
Definition reachable (limit : Z) : allocator -> Prop :=
  rtc astep (allocator_max_free_set allocator_create limit).

Lemma max_free_set_create limit :
  0 <= limit -> limit + 127 < 2 ^ 32 ->
  allocator_max_free_set allocator_create limit =
    Allocator 0 ((limit + 127) / 128) ((limit + 127) / 128) (free allocator_create).
Proof.
  intros H0 Hl. unfold allocator_max_free_set. cbn [current_free_index max_free_index max_index allocator_create].
  rewrite (wrap_small 32 limit), ALIGN_128, (wrap_small 32 (limit + 127)) by lia.
  unfold BOUNDARY_INDEX, ALLOCATOR_MAX_FREE_UNLIMITED. rewrite Z.shiftr_div_pow2 by lia. change (2 ^ 7) with 128.
  rewrite Z.div_mul, !Z.add_0_l by lia. rewrite (wrap_small 32 ((limit + 127) / 128)) by lia. rewrite Z.sub_0_r.
  rewrite wrap_small by lia. destruct (_ >? _) eqn:E; [lia|done].
Qed.

Lemma reachable_inv limit a :
  0 <= limit -> limit + 127 < 2 ^ 32 -> reachable limit a ->
  awf a /\ quota a /\ max_free_index a = (limit + 127) / 128.
Proof.
  intros H0 Hl Hr. unfold reachable in Hr. rewrite max_free_set_create in Hr by done.
  remember (Allocator _ _ _ _) as a0 eqn:E0.
  assert (awf a0 /\ quota a0 /\ max_free_index a0 = (limit + 127) / 128) as Hinit.
  { subst a0. split; [apply allocator_create_wf|]. split; [|done]. intros _. vm_compute pool. cbn. lia. }
  clear E0. induction Hr as [|x y z Hxy _ IH]; [done|]. apply IH. destruct Hinit as (Hw & Hq & Hm).
  destruct Hxy as [malloc a1 size r a2 Hsz E|a1 nodes a2 freed Hn E].
  - destruct (in_allocator_alloc_ok malloc a1 size Hw Hsz) as (r' & a2' & E' & Hw' & _ & Hm' & Hq' & _).
    rewrite E' in E. simplify_eq. split; [done|]. split; [auto|congruence].
  - destruct (in_allocator_free_ok a1 nodes Hw Hn) as (a2' & freed' & E' & Hw' & _ & Hm' & Hq').
    rewrite E' in E. simplify_eq. split; [done|]. split; [auto|congruence].
Qed.

(** ** The theorems *)

(** an allocation never leaves the free-list array, keeps the size buckets
    and [max_index] consistent, and hands out either a node it kept (which then
    leaves the pool, and only that one) or a new block from [malloc]; either way
    the node has at least the bytes asked for behind its header. It returns
    [NULL] only for sizes near 2^39 and more or when [malloc] fails. *)
Theorem allocator_alloc_correct malloc a in_size :
  awf a -> 0 <= in_size < 2 ^ 64 ->
  exists r a', in_allocator_alloc malloc a in_size = Some (r, a') /\ awf a' /\
    alloc_post malloc a in_size r a' /\
    (r = None -> 2 ^ 39 - 40 < in_size \/ exists size, malloc size = None).
Proof.
  intros Hw Hs. destruct (in_allocator_alloc_ok malloc a in_size Hw Hs) as (r & a' & H1 & H2 & H3 & _ & _ & H4). eauto 7.
Qed.

(** giving back a chain of nodes keeps the invariant and loses or duplicates
    no node: each one is now in a bucket or has been passed to [free()]. *)
Theorem allocator_free_correct a nodes :
  awf a -> Forall node_ok nodes ->
  exists a' freed, in_allocator_free a nodes = Some (a', freed) /\ awf a' /\
    pool a' ++ freed ≡ₚ nodes ++ pool a.
Proof.
  intros Hw Hn. destruct (in_allocator_free_ok a nodes Hw Hn) as (a' & freed & H1 & H2 & H3 & _). eauto 6.
Qed.

(** an allocator whose limit is set when it is new never keeps more than the
    limit (rounded up to 128-byte units), whatever sequence of allocations and
    frees follows. *)
Theorem allocator_limit_respected limit a :
  0 < limit -> limit + 127 < 2 ^ 32 -> reachable limit a ->
  awf a /\ total (pool a) <= (limit + 127) / 128.
Proof.
  intros H0 Hl Hr. destruct (reachable_inv limit a ltac:(lia) Hl Hr) as (Hw & Hq & Hm).
  split; [done|]. destruct Hq; lia.
Qed.

(** ** Witnesses *)

Definition demo_node : memnode := Node 4096 2 40 384.

Lemma demo_node_ok : node_ok demo_node.
Proof. split; [simpl; lia|done]. Qed.

Lemma allocator_alloc_correct_witness :
  exists r a', in_allocator_alloc (fun _ => Some 4096) allocator_create 300 = Some (r, a') /\ awf a' /\
    alloc_post (fun _ => Some 4096) allocator_create 300 r a' /\
    (r = None -> 2 ^ 39 - 40 < 300 \/ exists size, (fun _ : Z => Some 4096) size = None).
Proof.
  apply (allocator_alloc_correct (fun _ => Some 4096) allocator_create 300); [apply allocator_create_wf|lia].
Defined.

Lemma allocator_free_correct_witness :
  exists a' freed, in_allocator_free allocator_create [demo_node] = Some (a', freed) /\ awf a' /\
    pool a' ++ freed ≡ₚ [demo_node] ++ pool allocator_create.
Proof.
  apply (allocator_free_correct allocator_create [demo_node]); [apply allocator_create_wf|].
  constructor; [apply demo_node_ok|constructor].
Defined.

Lemma allocator_limit_respected_witness :
  exists a, reachable 1024 a /\ pool a = [demo_node] /\ awf a /\ total (pool a) <= (1024 + 127) / 128.
Proof.
  eexists. assert (reachable 1024 (Allocator 2 8 6 (<[2%nat := [demo_node]]> (free allocator_create)))) as Hr.
  { eapply rtc_once, (step_free _ [demo_node]); [constructor; [apply demo_node_ok|constructor]|].
    vm_compute. reflexivity. }
  split; [exact Hr|]. split; [reflexivity|].
  apply (allocator_limit_respected 1024 _ ltac:(lia) ltac:(lia) Hr).
Defined.

(** ** Changing the limit later *)

(** Lowering the limit from 8 units to 4 while 6 are kept makes the counter wrap
    and gives a fresh allowance of 4, so that 10 units end up kept. *)
Definition lowered : option allocator :=
  let n k := Node k 2 40 384 in
  '(a, _) ← in_allocator_free (allocator_max_free_set allocator_create 1024) [n 1; n 2; n 3];
  let a := allocator_max_free_set a 512 in
  '(a, _) ← in_allocator_free a [n 4; n 5; n 6];
  Some a.

Example lowered_limit_exceeded :
  (fun a => (max_free_index a, total (pool a))) <$> lowered = Some (4, 10).
Proof. vm_compute. reflexivity. Qed.

(** A limit of 4 GiB is taken for no limit. *)
Example four_gib_is_unlimited :
  max_free_index (allocator_max_free_set allocator_create (2 ^ 32)) = ALLOCATOR_MAX_FREE_UNLIMITED.
Proof. vm_compute. reflexivity. Qed.
