(* ===== verification/Dict.v ===== *)
(** The string dictionary of the configuration reader: [src/dictionary.c].

    Three parallel arrays hold keys, values and hashes; a slot without a key is
    free.  The abstract view is a finite map from keys to values. *)
From S2P Require Import Prelude.
Local Open Scope Z_scope.

Definition DICTMINSZ : Z := 128.

(** A C string without its terminator; [None] is a [NULL] pointer. *)
Definition cstr : Type := list Z.

Record dictionary := Dictionary {
  n : Z; size : Z;
  val : option (list (option cstr)); key : option (list (option cstr)); hash : option (list Z)
}.

(** Which of the allocations of a call succeed. *)
Record memory := Memory {
  grow_val : bool; grow_key : bool; grow_hash : bool; dup_key : bool; dup_val : bool
}.
Definition enough : memory := Memory true true true true true.

(** [(unsigned)key[i]] for a signed [char]. *)
Definition char_unsigned (c : Z) : Z := u32 (swrap 8 c).

Definition hash_step (h c : Z) : Z :=
  let h := u32 (h + char_unsigned c) in
  let h := u32 (h + Z.shiftl h 10) in
  Z.lxor h (Z.shiftr h 6).

Definition dictionary_hash (key : cstr) : Z :=
  let h := foldl hash_step 0 key in
  let h := u32 (h + Z.shiftl h 3) in
  let h := Z.lxor h (Z.shiftr h 11) in
  u32 (h + Z.shiftl h 15).

Definition xstrdup (ok : bool) (s : cstr) : option cstr := if ok then Some s else None.

(** [calloc] and copy; the array of [cnt] elements of [elt] bytes. *)
Definition mem_double {A} (ok : bool) (zero : A) (elt cnt : Z) (ptr : option (list A))
    : option (option (list A)) :=
  _ ← ensure (2 * (cnt * elt) <? 2 ^ 31);
  if ok then
    a ← ptr;
    b ← mread a 0 (Z.to_nat cnt);
    Some (Some (b ++ replicate (Z.to_nat cnt) zero))
  else Some None.

Definition dictionary_new (size : Z) : dictionary :=
  let size := if size <? DICTMINSZ then DICTMINSZ else size in
  let z := Z.to_nat size in
  Dictionary 0 size (Some (replicate z None)) (Some (replicate z None)) (Some (replicate z 0)).

(** The search loop: the index of the slot that holds the key, or [size]. *)
Fixpoint find_slot (fuel : nat) (d : dictionary) (h : Z) (k : cstr) (i : nat) : option nat :=
  match fuel with
  | O => Some i
  | S fuel =>
      keys ← key d;
      ki ← aread keys i;
      match ki with
      | None => find_slot fuel d h k (S i)
      | Some k' =>
          hs ← hash d;
          h' ← aread hs i;
          if (h =? h') && bool_decide (k = k') then Some i else find_slot fuel d h k (S i)
      end
  end.

Definition search (d : dictionary) (k : cstr) : option nat :=
  find_slot (Z.to_nat (size d)) d (dictionary_hash k) k 0.

Definition dictionary_get (d : dictionary) (k : cstr) (def : option cstr) : option (option cstr) :=
  i ← search d k;
  if Z.of_nat i <? size d then vals ← val d; aread vals i else Some def.

(** The first free slot. *)
Fixpoint free_slot (fuel : nat) (keys : list (option cstr)) (i : nat) : option nat :=
  match fuel with
  | O => Some i
  | S fuel =>
      ki ← aread keys i;
      match ki with None => Some i | Some _ => free_slot fuel keys (S i) end
  end.

Definition grow (m : memory) (d : dictionary) : option (bool * dictionary) :=
  if n d =? size d then
    v ← mem_double (grow_val m) None 8 (size d) (val d);
    k ← mem_double (grow_key m) None 8 (size d) (key d);
    h ← mem_double (grow_hash m) 0 4 (size d) (hash d);
    match v, k, h with
    | Some _, Some _, Some _ => Some (true, Dictionary (n d) (size d * 2) v k h)
    | _, _, _ => Some (false, Dictionary (n d) (size d) v k h)
    end
  else Some (true, d).

Definition insert_slot (m : memory) (d : dictionary) (k : cstr) (v : option cstr) : option (Z * dictionary) :=
  keys ← key d;
  i ← free_slot (Z.to_nat (size d)) keys 0;
  keys ← awrite keys i (xstrdup (dup_key m) k);
  vals ← val d;
  vals ← awrite vals i (v ≫= xstrdup (dup_val m));
  hs ← hash d;
  hs ← awrite hs i (dictionary_hash k);
  Some (0, Dictionary (n d + 1) (size d) (Some vals) (Some keys) (Some hs)).

Definition dictionary_set (m : memory) (d : dictionary) (k : cstr) (v : option cstr)
    : option (Z * dictionary) :=
  i ← (if n d >? 0 then search d k else Some (Z.to_nat (size d)));
  if Z.of_nat i <? size d then
    vals ← val d;
    _ ← aread vals i;
    vals ← awrite vals i (v ≫= xstrdup (dup_val m));
    Some (0, Dictionary (n d) (size d) (Some vals) (key d) (hash d))
  else
    '(ok, d) ← grow m d;
    if ok : bool then insert_slot m d k v else Some (-1, d).

Definition dictionary_unset (d : dictionary) (k : cstr) : option dictionary :=
  i ← search d k;
  if Z.of_nat i >=? size d then Some d
  else
    keys ← key d; keys ← awrite keys i None;
    vals ← val d; vals ← awrite vals i None;
    hs ← hash d; hs ← awrite hs i 0;
    Some (Dictionary (n d - 1) (size d) (Some vals) (Some keys) (Some hs)).

(** ** Invariant and abstraction *)

(** The number of slots with a key. *)
Fixpoint used (keys : list (option cstr)) : Z :=
  match keys with
  | [] => 0
  | o :: keys => (if o then 1 else 0) + used keys
  end.

Record dict_inv (d : dictionary) (keys vals : list (option cstr)) (hs : list Z) : Prop := {
  inv_key : key d = Some keys;
  inv_val : val d = Some vals;
  inv_hash : hash d = Some hs;
  inv_size : 0 < size d;
  inv_lens : length keys = Z.to_nat (size d) /\ length vals = Z.to_nat (size d) /\ length hs = Z.to_nat (size d);
  inv_count : n d = used keys;
  inv_hashes : forall i k, keys !! i = Some (Some k) -> hs !! i = Some (dictionary_hash k);
  inv_unique : forall i j k, keys !! i = Some (Some k) -> keys !! j = Some (Some k) -> i = j
}.

(** The map a dictionary stands for. *)
Definition slots_map (keys vals : list (option cstr)) (M : gmap cstr (option cstr)) : Prop :=
  forall k v, M !! k = Some v <-> exists i, keys !! i = Some (Some k) /\ vals !! i = Some v.

Definition represents (d : dictionary) (M : gmap cstr (option cstr)) : Prop :=
  exists keys vals hs, dict_inv d keys vals hs /\ slots_map keys vals M.

(** ** Lemmas *)

Lemma slots_used_insert (keys : list (option cstr)) i (o o' : option cstr) :
  keys !! i = Some o ->
  used (<[i := o']> keys) = used keys - (if o then 1 else 0) + (if o' then 1 else 0).
Proof.
  revert i. induction keys as [|x keys IH]; intros [|i] H; simplify_eq/=; [lia|].
  specialize (IH i H). lia.
Qed.

Lemma used_le keys : 0 <= used keys <= Z.of_nat (length keys).
Proof. induction keys as [|[x|] keys IH]; simpl; lia. Qed.

Lemma used_replicate m : used (replicate m None) = 0.
Proof. by induction m. Qed.

Lemma slots_used_app l1 l2 : used (l1 ++ l2) = used l1 + used l2.
Proof. induction l1 as [|o l1 IH]; simpl; lia. Qed.

Definition holds (keys : list (option cstr)) (k : cstr) (i : nat) : Prop := keys !! i = Some (Some k).

Lemma find_slot_ok d keys vals hs k fuel i :
  dict_inv d keys vals hs -> (i + fuel = Z.to_nat (size d))%nat ->
  exists j, find_slot fuel d (dictionary_hash k) k i = Some j /\ (i <= j <= i + fuel)%nat /\
    ((j < i + fuel)%nat -> holds keys k j) /\ forall j', (i <= j' < j)%nat -> ~ holds keys k j'.
Proof.
  intros Hi. revert i. induction fuel as [|fuel IH]; intros i Hf.
  { exists i. split; [done|]. split; [lia|]. split; lia. }
  cbn [find_slot]. rewrite (inv_key _ _ _ _ Hi). cbn [mbind option_bind]. unfold aread.
  destruct (inv_lens _ _ _ _ Hi) as (L1 & L2 & L3).
  destruct (lookup_lt_is_Some_2 keys i ltac:(lia)) as [o Ho]. rewrite Ho. cbn [mbind option_bind].
  destruct (IH (S i) ltac:(lia)) as (j & Ej & Hj & Hfound & Hno).
  assert (forall Hne : ~ holds keys k i, exists j, find_slot fuel d (dictionary_hash k) k (S i) = Some j /\ (i <= j <= i + S fuel)%nat /\
    ((j < i + S fuel)%nat -> holds keys k j) /\ forall j', (i <= j' < j)%nat -> ~ holds keys k j') as Hnext.
  { intros Hne. exists j. split; [done|]. split; [lia|]. split; [intros; apply Hfound; lia|].
    intros j' Hj'. destruct (decide (j' = i)) as [->|]; [done|]. apply Hno. lia. }
  destruct o as [k'|]; [|apply Hnext; unfold holds; congruence].
  rewrite (inv_hash _ _ _ _ Hi). cbn [mbind option_bind]. rewrite (inv_hashes _ _ _ _ Hi i k' Ho). cbn [mbind option_bind].
  destruct (decide (k = k')) as [->|Hne].
  - rewrite Z.eqb_refl, bool_decide_true by done. cbn [andb].
    exists i. split; [done|]. split; [lia|]. split; [done|]. lia.
  - rewrite bool_decide_false, andb_false_r by done. apply Hnext. unfold holds. congruence.
Qed.

(** The search finds the slot of a key the map has, or [size]. *)
Lemma search_ok d keys vals hs M k :
  dict_inv d keys vals hs -> slots_map keys vals M ->
  exists i, search d k = Some i /\
    ((exists v, Z.of_nat i < size d /\ holds keys k i /\ vals !! i = Some v /\ M !! k = Some v) \/
     (size d <= Z.of_nat i /\ M !! k = None)).
Proof.
  intros Hi HM. destruct (find_slot_ok d keys vals hs k (Z.to_nat (size d)) 0 Hi ltac:(lia))
    as (j & Ej & Hj & Hfound & Hno). exists j. split; [done|].
  destruct (inv_lens _ _ _ _ Hi) as (L1 & L2 & L3).
  destruct (decide (Z.of_nat j < size d)) as [Hlt|Hge].
  - left. destruct (lookup_lt_is_Some_2 vals j ltac:(lia)) as [v Hv]. exists v. specialize (Hfound ltac:(lia)).
    split; [done|]. split; [done|]. split; [done|]. apply HM. by exists j.
  - right. split; [lia|]. destruct (M !! k) as [v|] eqn:E; [|done]. apply HM in E as (i & Hk & _).
    exfalso. apply (Hno i); [|done]. apply lookup_lt_Some in Hk. lia.
Qed.

Lemma free_slot_ok keys fuel i :
  (i + fuel = length keys)%nat -> (exists j, (i <= j)%nat /\ keys !! j = Some None) ->
  exists j, free_slot fuel keys i = Some j /\ keys !! j = Some None.
Proof.
  revert i. induction fuel as [|fuel IH]; intros i Hf (j & Hj & Hn).
  { apply lookup_lt_Some in Hn. lia. }
  cbn [free_slot]. unfold aread. destruct (lookup_lt_is_Some_2 keys i ltac:(lia)) as [o Ho]. rewrite Ho.
  cbn [mbind option_bind]. destruct o as [k|]; [|by exists i]. apply IH; [lia|]. exists j. split; [|done].
  destruct (decide (i = j)) as [->|]; [congruence|lia].
Qed.

Lemma some_free (keys : list (option cstr)) :
  used keys < Z.of_nat (length keys) -> exists j, keys !! j = Some None.
Proof.
  induction keys as [|[k|] keys IH]; simpl; [lia| |intros _; by exists 0%nat].
  intros H. destruct IH as [j Hj]; [lia|]. by exists (S j).
Qed.

(** Writing one slot. *)
Lemma slots_insert keys vals M i k v o :
  slots_map keys vals M -> keys !! i = Some o -> (o = None \/ o = Some k) ->
  length vals = length keys ->
  (forall j, keys !! j = Some (Some k) -> j = i) ->
  slots_map (<[i := Some k]> keys) (<[i := v]> vals) (<[k := v]> M).
Proof.
  intros HM Hi Ho Hl Hu k' v'. pose proof (lookup_lt_Some _ _ _ Hi) as Hlt.
  destruct (decide (k = k')) as [<-|Hne].
  - rewrite lookup_insert_eq. split.
    + intros [= <-]. exists i. by rewrite !list_lookup_insert_eq by lia.
    + intros (j & Hj & Hv). destruct (decide (i = j)) as [<-|Hij].
      * rewrite list_lookup_insert_eq in Hv by lia. congruence.
      * rewrite list_lookup_insert_ne in Hj by done. by apply Hu in Hj.
  - rewrite lookup_insert_ne by done. etransitivity; [apply HM|]. split; intros (j & Hj & Hv); exists j.
    + assert (i <> j) by (intros ->; destruct Ho; congruence). by rewrite !list_lookup_insert_ne by done.
    + destruct (decide (i = j)) as [<-|Hij].
      * rewrite list_lookup_insert_eq in Hj by lia. congruence.
      * by rewrite !list_lookup_insert_ne in Hj, Hv by done.
Qed.

Lemma slots_delete keys vals M i k :
  slots_map keys vals M -> keys !! i = Some (Some k) -> length vals = length keys ->
  (forall j, keys !! j = Some (Some k) -> j = i) ->
  slots_map (<[i := None]> keys) (<[i := None]> vals) (delete k M).
Proof.
  intros HM Hi Hl Hu k' v'. pose proof (lookup_lt_Some _ _ _ Hi) as Hlt.
  rewrite lookup_delete_Some. split.
  - intros (Hne & (j & Hj & Hv)%HM). exists j. assert (i <> j) by (intros ->; congruence).
    by rewrite !list_lookup_insert_ne by done.
  - intros (j & Hj & Hv). destruct (decide (i = j)) as [<-|Hij].
    + rewrite list_lookup_insert_eq in Hj by lia. congruence.
    + rewrite !list_lookup_insert_ne in Hj, Hv by done. split; [|apply HM; by exists j].
      intros <-. by apply Hu in Hj.
Qed.

Lemma get_ok d M k def :
  represents d M -> dictionary_get d k def = Some (default def (M !! k)).
Proof.
  intros (keys & vals & hs & Hi & HM). unfold dictionary_get.
  destruct (search_ok d keys vals hs M k Hi HM) as (i & -> & [(v & Hlt & Hk & Hv & HMk)|[Hge HMk]]);
    cbn [mbind option_bind]; rewrite HMk.
  - rewrite (proj2 (Z.ltb_lt _ _)) by done. by rewrite (inv_val _ _ _ _ Hi).
  - by rewrite (proj2 (Z.ltb_ge _ _)).
Qed.

Lemma grow_ok d keys vals hs M :
  dict_inv d keys vals hs -> slots_map keys vals M -> size d < 2 ^ 27 ->
  exists d' keys' vals' hs', grow enough d = Some (true, d') /\ dict_inv d' keys' vals' hs' /\
    slots_map keys' vals' M /\ n d' < size d'.
Proof.
  intros Hi HM Hsz. unfold grow. pose proof (used_le keys) as Hu.
  destruct (inv_lens _ _ _ _ Hi) as (L1 & L2 & L3). pose proof (inv_size _ _ _ _ Hi) as Hs0.
  rewrite (inv_count _ _ _ _ Hi). destruct (Z.eqb_spec (used keys) (size d)) as [E|E].
  2:{ exists d, keys, vals, hs. split; [done|]. split; [done|]. split; [done|]. rewrite (inv_count _ _ _ _ Hi). lia. }
  assert (forall A (z : A) elt (a : list A), 0 < elt <= 8 -> length a = Z.to_nat (size d) ->
    mem_double true z elt (size d) (Some a) = Some (Some (a ++ replicate (Z.to_nat (size d)) z))) as Hdbl.
  { intros A z elt a Helt Ha. unfold mem_double. rewrite (proj2 (Z.ltb_lt _ _)) by nia. cbn [ensure mbind option_bind].
    rewrite mread_ok by lia. cbn [mbind option_bind]. by rewrite drop_0, take_ge by lia. }
  rewrite (inv_val _ _ _ _ Hi), (inv_key _ _ _ _ Hi), (inv_hash _ _ _ _ Hi). cbn [enough grow_val grow_key grow_hash].
  rewrite !Hdbl by lia. cbn [mbind option_bind].
  assert (forall (a : list (option cstr)) i k, (a ++ replicate (Z.to_nat (size d)) None) !! i = Some (Some k) ->
    a !! i = Some (Some k)) as Hback.
  { intros a i k Hk. apply lookup_app_Some in Hk as [Hk|[_ Hk]]; [done|]. by apply lookup_replicate in Hk as [? _]. }
  eexists _, _, _, _. split; [done|]. split; [|split].
  - split; try done; cbn [n size key val hash].
    + lia.
    + rewrite !length_app, !length_replicate. lia.
    + rewrite slots_used_app, used_replicate. lia.
    + intros i k Hk%Hback. rewrite lookup_app_l by (apply lookup_lt_Some in Hk; lia). by apply (inv_hashes _ _ _ _ Hi).
    + intros i j k Hk%Hback Hj%Hback. by eapply (inv_unique _ _ _ _ Hi).
  - intros k v. etransitivity; [apply HM|]. split; intros (i & Hk & Hv).
    + exists i. split; apply lookup_app_l_Some; done.
    + apply Hback in Hk. exists i. split; [done|]. rewrite lookup_app_l in Hv; [done|].
      apply lookup_lt_Some in Hk. lia.
  - cbn. lia.
Qed.

Lemma insert_slot_ok d keys vals hs M k v :
  dict_inv d keys vals hs -> slots_map keys vals M -> n d < size d -> M !! k = None ->
  exists d', insert_slot enough d k v = Some (0, d') /\ represents d' (<[k := v]> M).
Proof.
  intros Hi HM Hn HMk. destruct (inv_lens _ _ _ _ Hi) as (L1 & L2 & L3). rewrite (inv_count _ _ _ _ Hi) in Hn.
  assert (forall j, ~ keys !! j = Some (Some k)) as Hno.
  { intros j Hj. destruct (lookup_lt_is_Some_2 vals j) as [w Hw]; [apply lookup_lt_Some in Hj; lia|].
    assert (M !! k = Some w) by (apply HM; by exists j). congruence. }
  destruct (some_free keys ltac:(lia)) as [j0 Hj0].
  destruct (free_slot_ok keys (Z.to_nat (size d)) 0 ltac:(lia)) as (i & Ei & Hfree); [by exists j0; split; [lia|]|].
  pose proof (lookup_lt_Some _ _ _ Hfree) as Hlt.
  unfold insert_slot. rewrite (inv_key _ _ _ _ Hi). cbn [mbind option_bind]. rewrite Ei. cbn [mbind option_bind].
  rewrite awrite_ok by done. cbn [mbind option_bind]. rewrite (inv_val _ _ _ _ Hi). cbn [mbind option_bind].
  rewrite awrite_ok by lia. cbn [mbind option_bind]. rewrite (inv_hash _ _ _ _ Hi). cbn [mbind option_bind].
  rewrite awrite_ok by lia. cbn [mbind option_bind].
  cbn [enough dup_key dup_val xstrdup]. replace (v ≫= xstrdup true) with v by (by destruct v).
  eexists. split; [done|]. eexists _, _, _. split.
  - split; try done; cbn [n size key val hash].
    + apply (inv_size _ _ _ _ Hi).
    + rewrite !length_insert. done.
    + rewrite (slots_used_insert _ _ _ _ Hfree), (inv_count _ _ _ _ Hi). lia.
    + intros j k' Hj. destruct (decide (i = j)) as [<-|Hij].
      * rewrite list_lookup_insert_eq in Hj by lia. simplify_eq. by rewrite list_lookup_insert_eq by lia.
      * rewrite list_lookup_insert_ne in Hj by done. rewrite list_lookup_insert_ne by done. by apply (inv_hashes _ _ _ _ Hi).
    + intros j j' k' Hj Hj'. destruct (decide (i = j)) as [<-|Hij], (decide (i = j')) as [<-|Hij']; [done|..].
      * rewrite list_lookup_insert_eq in Hj by lia. rewrite list_lookup_insert_ne in Hj' by done.
        simplify_eq. by apply Hno in Hj'.
      * rewrite list_lookup_insert_eq in Hj' by lia. rewrite list_lookup_insert_ne in Hj by done.
        simplify_eq. by apply Hno in Hj.
      * rewrite list_lookup_insert_ne in Hj, Hj' by done. by eapply (inv_unique _ _ _ _ Hi).
  - eapply slots_insert; try done; [by left|lia|]. intros j Hj. by apply Hno in Hj.
Qed.

Lemma set_ok d M k v :
  represents d M -> size d < 2 ^ 27 ->
  exists d', dictionary_set enough d k v = Some (0, d') /\ represents d' (<[k := v]> M).
Proof.
  intros (keys & vals & hs & Hi & HM) Hsz. unfold dictionary_set. destruct (inv_lens _ _ _ _ Hi) as (L1 & L2 & L3).
  assert (exists i, (if n d >? 0 then search d k else Some (Z.to_nat (size d))) = Some i /\
    ((exists v, Z.of_nat i < size d /\ holds keys k i /\ vals !! i = Some v /\ M !! k = Some v) \/
     (size d <= Z.of_nat i /\ M !! k = None))) as (i & -> & Hcase).
  { destruct (n d >? 0) eqn:E; [by apply (search_ok d keys vals hs)|]. eexists. split; [done|].
    right. pose proof (inv_size _ _ _ _ Hi). split; [lia|]. destruct (M !! k) as [w|] eqn:Ew; [|done].
    apply HM in Ew as (j & Hj & _). rewrite (inv_count _ _ _ _ Hi) in E.
    assert (used keys >= 1); [|lia]. clear -Hj. revert j Hj.
    induction keys as [|o keys IH]; intros [|j] Hj; simplify_eq/=; [pose proof (used_le keys); lia|].
    specialize (IH j Hj). destruct o; lia. }
  cbn [mbind option_bind]. destruct Hcase as [(w & Hlt & Hk & Hv & HMk)|[Hge HMk]].
  - rewrite (proj2 (Z.ltb_lt _ _)) by done. rewrite (inv_val _ _ _ _ Hi). cbn [mbind option_bind]. unfold aread.
    rewrite Hv. cbn [mbind option_bind]. rewrite awrite_ok by lia. cbn [mbind option_bind].
    replace (v ≫= xstrdup (dup_val enough)) with v by (by destruct v).
    eexists. split; [done|]. exists keys, (<[i := v]> vals), hs. split.
    + destruct Hi. split; try done. cbn [size]. rewrite length_insert. done.
    + rewrite <- (list_insert_id keys i (Some k)) by done.
      eapply slots_insert; try done; [by right|lia|]. intros j Hj. by eapply (inv_unique _ _ _ _ Hi).
  - rewrite (proj2 (Z.ltb_ge _ _)) by done.
    destruct (grow_ok d keys vals hs M Hi HM Hsz) as (d' & keys' & vals' & hs' & -> & Hi' & HM' & Hn').
    cbn [mbind option_bind]. by eapply insert_slot_ok.
Qed.

Lemma unset_ok d M k :
  represents d M -> exists d', dictionary_unset d k = Some d' /\ represents d' (delete k M).
Proof.
  intros (keys & vals & hs & Hi & HM). unfold dictionary_unset. destruct (inv_lens _ _ _ _ Hi) as (L1 & L2 & L3).
  destruct (search_ok d keys vals hs M k Hi HM) as (i & -> & [(v & Hlt & Hk & Hv & HMk)|[Hge HMk]]);
    cbn [mbind option_bind].
  - rewrite Z.geb_leb, (proj2 (Z.leb_gt _ _)) by done. rewrite (inv_key _ _ _ _ Hi). cbn [mbind option_bind].
    rewrite awrite_ok by lia. cbn [mbind option_bind]. rewrite (inv_val _ _ _ _ Hi). cbn [mbind option_bind].
    rewrite awrite_ok by lia. cbn [mbind option_bind]. rewrite (inv_hash _ _ _ _ Hi). cbn [mbind option_bind].
    rewrite awrite_ok by lia. cbn [mbind option_bind]. eexists. split; [done|]. eexists _, _, _. split.
    + split; try done; cbn [n size key val hash].
      * apply (inv_size _ _ _ _ Hi).
      * rewrite !length_insert. done.
      * rewrite (slots_used_insert _ _ _ _ Hk), (inv_count _ _ _ _ Hi). lia.
      * intros j k' Hj. destruct (decide (i = j)) as [<-|Hij]; [rewrite list_lookup_insert_eq in Hj by lia; done|].
        rewrite list_lookup_insert_ne in Hj by done. rewrite list_lookup_insert_ne by done. by apply (inv_hashes _ _ _ _ Hi).
      * intros j j' k' Hj Hj'. destruct (decide (i = j)) as [<-|Hij]; [by rewrite list_lookup_insert_eq in Hj by lia|].
        destruct (decide (i = j')) as [<-|Hij']; [by rewrite list_lookup_insert_eq in Hj' by lia|].
        rewrite list_lookup_insert_ne in Hj, Hj' by done. by eapply (inv_unique _ _ _ _ Hi).
    + eapply slots_delete; try done; [lia|]. intros j Hj. by eapply (inv_unique _ _ _ _ Hi).
  - rewrite Z.geb_leb, (proj2 (Z.leb_le _ _)) by done. exists d. split; [done|].
    rewrite delete_id by done. by exists keys, vals, hs.
Qed.

Lemma new_ok sz : represents (dictionary_new sz) ∅.
Proof.
  unfold dictionary_new. set (s := if sz <? DICTMINSZ then DICTMINSZ else sz).
  assert (0 < s) as Hs by (unfold s, DICTMINSZ; destruct (sz <? 128) eqn:E; lia).
  eexists _, _, _. split.
  - split; try done; cbn [n size].
    + rewrite !length_replicate. done.
    + by rewrite used_replicate.
    + intros i k Hk. by apply lookup_replicate in Hk as [? _].
    + intros i j k Hk. by apply lookup_replicate in Hk as [? _].
  - intros k v. rewrite lookup_empty. split; [done|]. intros (i & Hk & _). by apply lookup_replicate in Hk as [? _].
Qed.

(** ** The theorems *)

(** the dictionary refines a finite map, growth included: a new one is empty,
    lookups return the value of the map or the default, and setting and
    unsetting a key update the map, as long as memory lasts. *)
Theorem dictionary_refines :
  (forall sz, represents (dictionary_new sz) ∅) /\
  forall d M, represents d M ->
    (forall k def, dictionary_get d k def = Some (default def (M !! k))) /\
    (forall k v, size d < 2 ^ 27 ->
       exists d', dictionary_set enough d k v = Some (0, d') /\ represents d' (<[k := v]> M)) /\
    (forall k, exists d', dictionary_unset d k = Some d' /\ represents d' (delete k M)).
Proof.
  split; [apply new_ok|]. intros d M Hr. split_and!.
  - intros k def. by apply get_ok.
  - intros k v Hs. by apply set_ok.
  - intros k. by apply unset_ok.
Qed.

(** The search looks at no more of the arrays than [size] entries. *)
Lemma find_slot_longer d d' keys hs keys' hs' h k fuel : forall i,
  key d = Some keys -> hash d = Some hs -> key d' = Some (keys ++ keys') -> hash d' = Some (hs ++ hs') ->
  length hs = length keys -> (i + fuel <= length keys)%nat -> find_slot fuel d' h k i = find_slot fuel d h k i.
Proof.
  induction fuel as [|fuel IH]; intros i E1 E2 E3 E4 Hl Hf; cbn [find_slot]; [done|]. rewrite E1, E2, E3, E4. cbn [mbind option_bind].
  unfold aread. rewrite !lookup_app_l by lia. by rewrite (IH (S i)) by (done || lia).
Qed.

(** A full dictionary has a key in its first slot. *)
Lemma full_first keys : (0 < length keys)%nat -> used keys = Z.of_nat (length keys) -> exists k, keys !! 0%nat = Some (Some k).
Proof. destruct keys as [|[k|] keys]; cbn [length used]; intros Hl Hu; [lia|by exists k|]. pose proof (used_le keys). lia. Qed.

(** A lookup when the first slot has a key and one of [key] and [hash] is [NULL]. *)
Lemma get_null d' k def : 0 < size d' ->
  key d' = None \/ hash d' = None /\ (exists keys k0, key d' = Some keys /\ keys !! 0%nat = Some (Some k0)) -> dictionary_get d' k def = None.
Proof.
  intros Hs H. unfold dictionary_get, search. destruct (Z.to_nat (size d')) eqn:E; [lia|]. cbn [find_slot].
  destruct H as [->|(-> & keys & k0 & -> & H0)]; [done|]. cbn [mbind option_bind]. unfold aread. by rewrite H0.
Qed.

(** What a failed doubling leaves of an array. *)
Lemma mem_double_ok {A} ok (z : A) elt cnt (a : list A) : 0 < elt <= 8 -> 0 < cnt < 2 ^ 27 -> length a = Z.to_nat cnt ->
  mem_double ok z elt cnt (Some a) = Some (if ok then Some (a ++ replicate (Z.to_nat cnt) z) else None).
Proof.
  intros He Hc Ha. unfold mem_double. rewrite (proj2 (Z.ltb_lt _ _)) by nia. cbn [ensure mbind option_bind]. destruct ok; [|done].
  rewrite mread_ok by lia. cbn [mbind option_bind]. change (Z.to_nat 0) with 0%nat. by rewrite drop_0, <- Ha, firstn_all.
Qed.

(** C38: When the dictionary is full (and has less than 2^27 slots) and one or more of its
    three arrays cannot be doubled, setting a key that it does not have reports failure
    and leaves [size] and [n] unchanged, but each array that could not be doubled is
    [NULL] from then on.  If [key] or [hash] is, every later lookup is undefined; if only
    [val] is, a lookup is undefined just for the keys of the dictionary. *)
Theorem dictionary_grow_failure d M k v gv gk gh dk dv :
  represents d M -> n d = size d -> size d < 2 ^ 27 -> M !! k = None -> gv && gk && gh = false ->
  exists d', dictionary_set (Memory gv gk gh dk dv) d k v = Some (-1, d') /\ size d' = size d /\ n d' = n d /\
    (is_Some (val d') <-> gv = true) /\ (is_Some (key d') <-> gk = true) /\ (is_Some (hash d') <-> gh = true) /\
    forall k' def, dictionary_get d' k' def = if gk && gh then (if M !! k' then None else Some def) else None.
Proof.
  intros (keys & vals & hs & Hi & HM) Hn Hsz HMk Hno. pose proof (inv_size _ _ _ _ Hi) as Hs0.
  destruct (inv_lens _ _ _ _ Hi) as (L1 & L2 & L3). unfold dictionary_set.
  rewrite Hn, Z.gtb_ltb, (proj2 (Z.ltb_lt _ _)) by done.
  destruct (search_ok d keys vals hs M k Hi HM) as (i & -> & [(w & _ & _ & _ & ?)|[Hge _]]); [congruence|].
  cbn [mbind option_bind]. rewrite (proj2 (Z.ltb_ge _ _)) by done. unfold grow. rewrite Hn, Z.eqb_refl.
  rewrite (inv_val _ _ _ _ Hi), (inv_key _ _ _ _ Hi), (inv_hash _ _ _ _ Hi). cbn [grow_val grow_key grow_hash].
  rewrite !mem_double_ok by (done || lia). cbn [mbind option_bind].
  set (d' := Dictionary (size d) (size d) _ _ _). exists d'.
  split; [subst d'; by destruct gv, gk, gh|]. split; [done|]. split; [done|].
  split; [subst d'; cbn; destruct gv; split; done|]. split; [subst d'; cbn; destruct gk; split; done|]. split; [subst d'; cbn; destruct gh; split; done|].
  intros k' def. destruct gk; cbn [andb]; [|apply get_null; [done|by left]]. destruct gh.
  - assert (search d' k' = search d k') as Es.
    { apply (find_slot_longer d d' keys hs (replicate (Z.to_nat (size d)) None) (replicate (Z.to_nat (size d)) 0)); try done; [apply Hi|apply Hi|lia|cbn; lia]. }
    unfold dictionary_get. rewrite Es. destruct gv; [done|].
    destruct (search_ok d keys vals hs M k' Hi HM) as (j & -> & [(w & Hlt & _ & _ & ->)|[Hge' ->]]); cbn [mbind option_bind size d'].
    + by rewrite (proj2 (Z.ltb_lt _ _)) by done.
    + by rewrite (proj2 (Z.ltb_ge _ _)) by done.
  - apply get_null; [done|]. right. split; [done|]. eexists _. destruct (full_first keys) as [k0 Hk0]; [lia|rewrite <- (inv_count _ _ _ _ Hi); lia|].
    exists k0. split; [done|]. by apply lookup_app_l_Some.
Qed.

(** ** Witnesses *)

Lemma dictionary_refines_witness :
  exists d', dictionary_set enough (dictionary_new 0) [1] (Some [2]) = Some (0, d') /\
    represents d' (<[ [1] := Some [2] ]> ∅).
Proof.
  apply (proj2 dictionary_refines (dictionary_new 0) ∅ (proj1 dictionary_refines 0)). vm_compute. reflexivity.
Defined.

Lemma dictionary_grow_failure_witness :
  exists d, n d = size d /\ exists d', dictionary_set (Memory false true true true true) d [1] (Some [2]) = Some (-1, d') /\
    size d' = size d /\ ~ is_Some (val d') /\ is_Some (key d') /\ dictionary_get d' [9] None = None /\ dictionary_get d' [1] None = Some None.
Proof.
  exists (Dictionary 1 1 (Some [None]) (Some [Some [9]]) (Some [dictionary_hash [9]])). split; [reflexivity|].
  destruct (dictionary_grow_failure (Dictionary 1 1 (Some [None]) (Some [Some [9]]) (Some [dictionary_hash [9]])) {[ [9] := None ]} [1] (Some [2]) false true true true true)
    as (d' & H1 & H2 & _ & H3 & H4 & _ & H5); try done.
  - exists [Some [9]], [None], [dictionary_hash [9]]. split.
    + split; try done; [intros [|i] k Hk; simplify_eq/=; done|].
      intros [|i] [|j] k Hk Hj; simplify_eq/=; done.
    + intros k v. rewrite lookup_singleton_Some. split.
      * intros [<- <-]. by exists 0%nat.
      * intros ([|i] & Hk & Hv); by simplify_eq/=.
  - exists d'. split; [exact H1|]. split; [exact H2|]. split; [intros H; by apply H3 in H|]. split; [by apply H4|].
    split; [rewrite H5; reflexivity|rewrite H5; reflexivity].
Defined.

(** The failure of [xstrdup] for the key is not reported: the call returns 0, the
    key is not there, and [n] counts it. *)
Example lost_key :
  (fun '(r, d) => (r, n d, dictionary_get d [1] None)) <$>
    dictionary_set (Memory true true true false true) (dictionary_new 0) [1] (Some [2]) =
  Some (0, 1, Some None).
Proof. vm_compute. reflexivity. Qed.
