(* ===== verification/BQueue.v ===== *)
(** The bounded blocking queue: [common/misc/queue.c].

    What a thread does between taking and leaving [one_big_mutex] is one
    function on the queue; a step of the system runs one such section, starts an
    operation, or wakes a thread.  The mutex and the condition variables behave
    as documented: sections exclude each other, a signal wakes one waiting
    thread if there is one, a broadcast wakes all, and a wait may also end
    spuriously.  Errors of the mutex and condition calls are not modelled. *)
From S2P Require Import Prelude ShmcbCyclic.
Local Open Scope Z_scope.

Section Queue.
Context {V : Type} (null : V).

(** The waiter counts never exceed the number of threads and do not wrap. *)
Record queue := Queue {
  data : list V; nelts : Z; in_ : Z; out : Z; bounds : Z;
  full_waiters : Z; empty_waiters : Z; terminated : bool
}.

Definition queue_full (q : queue) : bool := nelts q =? bounds q.
Definition queue_empty (q : queue) : bool := nelts q =? 0.

(** [garbage] is what [malloc] left in the array. *)
Definition queue_create (garbage : list V) (queue_capacity : Z) : queue :=
  Queue garbage 0 0 0 queue_capacity 0 0 false.

Definition enqueue (q : queue) (x : V) : option queue :=
  data ← awrite (data q) (Z.to_nat (in_ q)) x;
  Some (Queue data (u32 (nelts q + 1)) (u32 (in_ q + 1) mod bounds q) (out q) (bounds q)
          (full_waiters q) (empty_waiters q) (terminated q)).

Definition dequeue (q : queue) : option (V * queue) :=
  x ← aread (data q) (Z.to_nat (out q));
  Some (x, Queue (data q) (u32 (nelts q - 1)) (in_ q) (u32 (out q + 1) mod bounds q) (bounds q)
             (full_waiters q) (empty_waiters q) (terminated q)).

Definition add_full (k : Z) (q : queue) : queue :=
  Queue (data q) (nelts q) (in_ q) (out q) (bounds q) (full_waiters q + k) (empty_waiters q) (terminated q).
Definition add_empty (k : Z) (q : queue) : queue :=
  Queue (data q) (nelts q) (in_ q) (out q) (bounds q) (full_waiters q) (empty_waiters q + k) (terminated q).
Definition set_terminated (q : queue) : queue :=
  Queue (data q) (nelts q) (in_ q) (out q) (bounds q) (full_waiters q) (empty_waiters q) true.

(** How a section ends: the thread waits, leaves because nothing changed, gives
    up at once, or has moved an element and perhaps signalled the other side. *)
Inductive outcome :=
  | Waits
  | Interrupted
  | Again
  | Moved (x : V) (signal : bool).

Definition store (q : queue) (x : V) : option (outcome * queue) :=
  q ← enqueue q x;
  Some (Moved x (negb (empty_waiters q =? 0)), q).

Definition fetch (q : queue) : option (outcome * queue) :=
  '(x, q) ← dequeue q;
  Some (Moved x (negb (full_waiters q =? 0)), q).

(** [queue_push] from the lock on, and again after the wait. *)
Definition queue_push (q : queue) (x : V) : option (outcome * queue) :=
  if queue_full q then
    if negb (terminated q) then Some (Waits, add_full 1 q) else Some (Interrupted, q)
  else store q x.

Definition queue_push_woken (q : queue) (x : V) : option (outcome * queue) :=
  let q := add_full (-1) q in
  if queue_full q then Some (Interrupted, q) else store q x.

Definition queue_trypush (q : queue) (x : V) : option (outcome * queue) :=
  if queue_full q then Some (Again, q) else store q x.

Definition queue_pop (q : queue) : option (outcome * queue) :=
  if queue_empty q then
    if negb (terminated q) then Some (Waits, add_empty 1 q) else Some (Interrupted, q)
  else fetch q.

Definition queue_pop_woken (q : queue) : option (outcome * queue) :=
  let q := add_empty (-1) q in
  if queue_empty q then Some (Interrupted, q) else fetch q.

Definition queue_trypop (q : queue) : option (outcome * queue) :=
  if queue_empty q then Some (Again, q) else fetch q.

(** ** Threads *)

Inductive result := ROk | RValue (x : V) | REof | REintr | REagain.

(** Where a thread is. *)
Inductive pc :=
  | Idle
  | PushLock (x : V) | TryPushLock (x : V) | PopLock | TryPopLock | TermLock | InterruptLock
  | FullWait (x : V) | FullWoken (x : V) | EmptyWait | EmptyWoken
  | Leaving
  | Done (r : result).

(** [pushed] and [popped] record the elements that went in and came out. *)
Record state := State { q : queue; ts : list pc; pushed : list V; popped : list V }.

Definition is_full_wait (p : pc) : bool := match p with FullWait _ => true | _ => false end.
Definition is_full_woken (p : pc) : bool := match p with FullWoken _ => true | _ => false end.
Definition is_empty_wait (p : pc) : bool := match p with EmptyWait => true | _ => false end.
Definition is_empty_woken (p : pc) : bool := match p with EmptyWoken => true | _ => false end.

Definition wake (p : pc) : pc :=
  match p with FullWait x => FullWoken x | EmptyWait => EmptyWoken | p => p end.

(** [thread_cond_signal]: one thread waiting on the condition goes on. *)
Inductive signal (waits : pc -> bool) (ts : list pc) : list pc -> Prop :=
  | signal_one t p : ts !! t = Some p -> waits p = true -> signal waits ts (<[t := wake p]> ts)
  | signal_none : Forall (fun p => waits p = false) ts -> signal waits ts ts.

Definition maybe_signal (b : bool) (waits : pc -> bool) (ts ts' : list pc) : Prop :=
  if b then signal waits ts ts' else ts' = ts.

(** The operation a thread starts, after the test of [terminated]. *)
Inductive starts : pc -> Prop :=
  | start_push x : starts (PushLock x)
  | start_trypush x : starts (TryPushLock x)
  | start_pop : starts PopLock
  | start_trypop : starts TryPopLock.

(** A section of a pushing thread: entered at [p], with its argument. *)
Definition push_section (p : pc) (q : queue) : option (option (outcome * queue) * V) :=
  match p with
  | PushLock x => Some (queue_push q x, x)
  | FullWoken x => Some (queue_push_woken q x, x)
  | TryPushLock x => Some (queue_trypush q x, x)
  | _ => None
  end.

Definition pop_section (p : pc) (q : queue) : option (option (outcome * queue)) :=
  match p with
  | PopLock => Some (queue_pop q)
  | EmptyWoken => Some (queue_pop_woken q)
  | TryPopLock => Some (queue_trypop q)
  | _ => None
  end.

(** Where the thread is after a section that moved nothing. *)
Definition after (wait : pc) (o : outcome) : pc :=
  match o with Waits => wait | Again => Done REagain | _ => Leaving end.

Definition moved (o : outcome) : bool := match o with Moved _ _ => true | _ => false end.

Inductive step : state -> state -> Prop :=
  | step_start q ts us os t p :
      ts !! t = Some Idle -> starts p -> terminated q = false ->
      step (State q ts us os) (State q (<[t := p]> ts) us os)
  | step_start_eof q ts us os t :
      ts !! t = Some Idle -> terminated q = true ->
      step (State q ts us os) (State q (<[t := Done REof]> ts) us os)
  | step_start_admin q ts us os t p :
      ts !! t = Some Idle -> p = TermLock \/ p = InterruptLock ->
      step (State q ts us os) (State q (<[t := p]> ts) us os)
  | step_return q ts us os t r :
      ts !! t = Some (Done r) ->
      step (State q ts us os) (State q (<[t := Idle]> ts) us os)
  | step_push_stays q ts us os t p o q' x :
      ts !! t = Some p -> push_section p q = Some (Some (o, q'), x) -> moved o = false ->
      step (State q ts us os) (State q' (<[t := after (FullWait x) o]> ts) us os)
  | step_push_moves q ts us os t p q' x b ts' :
      ts !! t = Some p -> push_section p q = Some (Some (Moved x b, q'), x) ->
      maybe_signal b is_empty_wait (<[t := Done ROk]> ts) ts' ->
      step (State q ts us os) (State q' ts' (us ++ [x]) os)
  | step_pop_stays q ts us os t p o q' :
      ts !! t = Some p -> pop_section p q = Some (Some (o, q')) -> moved o = false ->
      step (State q ts us os) (State q' (<[t := after EmptyWait o]> ts) us os)
  | step_pop_moves q ts us os t p q' x b ts' :
      ts !! t = Some p -> pop_section p q = Some (Some (Moved x b, q')) ->
      maybe_signal b is_full_wait (<[t := Done (RValue x)]> ts) ts' ->
      step (State q ts us os) (State q' ts' us (os ++ [x]))
  | step_leave q ts us os t :
      ts !! t = Some Leaving ->
      step (State q ts us os)
        (State q (<[t := Done (if terminated q then REof else REintr)]> ts) us os)
  | step_term q ts us os t :
      ts !! t = Some TermLock ->
      step (State q ts us os) (State (set_terminated q) (<[t := InterruptLock]> ts) us os)
  | step_interrupt_all q ts us os t :
      ts !! t = Some InterruptLock ->
      step (State q ts us os) (State q (wake <$> <[t := Done ROk]> ts) us os)
  | step_spurious q ts us os t p :
      ts !! t = Some p -> wake p <> p ->
      step (State q ts us os) (State q (<[t := wake p]> ts) us os).

(** Any number of idle threads around a new queue. *)
Definition initial (garbage : list V) (cap : Z) (threads : nat) : state :=
  State (queue_create garbage cap) (replicate threads Idle) [] [].

Definition reachable (garbage : list V) (cap : Z) (threads : nat) : state -> Prop :=
  rtc step (initial garbage cap threads).

(** ** Counting threads *)

Fixpoint count (f : pc -> bool) (l : list pc) : Z :=
  match l with [] => 0 | p :: l => (if f p then 1 else 0) + count f l end.

Lemma count_insert f (l : list pc) t (p p' : pc) :
  l !! t = Some p -> count f (<[t := p']> l) = count f l - (if f p then 1 else 0) + (if f p' then 1 else 0).
Proof.
  revert t. induction l as [|x l IH]; intros [|t] H; simplify_eq/=; [lia|]. specialize (IH t H). lia.
Qed.

Lemma count_nonneg f l : 0 <= count f l.
Proof. induction l as [|p l IH]; simpl; [lia|]. destruct (f p); lia. Qed.

Lemma count_zero f l : Forall (fun p => f p = false) l <-> count f l = 0.
Proof.
  split.
  - induction 1 as [|p l Hp _ IH]; simpl; [done|]. rewrite Hp. lia.
  - induction l as [|p l IH]; simpl; [done|]. pose proof (count_nonneg f l).
    destruct (f p) eqn:E; [lia|]. intros. constructor; [done|]. apply IH. lia.
Qed.

Lemma count_lookup f (l : list pc) t (p : pc) : l !! t = Some p -> f p = true -> 0 < count f l.
Proof.
  intros H Hp. pose proof (count_nonneg f (<[t := Idle]> l)) as Hn.
  pose proof (count_insert f l t p Idle H) as Hc. rewrite Hp in Hc. pose proof (count_nonneg f l).
  destruct (f Idle) eqn:E; [|lia]. clear Hn Hc. revert t H. induction l as [|x l IH]; intros [|t] H; simplify_eq/=.
  - rewrite Hp. pose proof (count_nonneg f l). lia.
  - pose proof (count_nonneg f l). specialize (IH ltac:(lia) t H). destruct (f x); lia.
Qed.

Lemma count_wake (f g : pc -> bool) (l : list pc) :
  (forall p, (if f (wake p) then 1 else 0) = (if f p then 1 else 0) + (if g p then 1 else 0)) ->
  count f (wake <$> l) = count f l + count g l.
Proof.
  intros H. induction l as [|p l IH]; simpl; [done|]. rewrite H.
  change (list_fmap pc pc wake l) with (wake <$> l). rewrite IH. lia.
Qed.

(** ** The queue proper *)

Record qwf (q : queue) : Prop := {
  wf_bounds : 0 < bounds q < 2 ^ 31;
  wf_data : Z.of_nat (length (data q)) = bounds q;
  wf_nelts : 0 <= nelts q <= bounds q;
  wf_out : 0 <= out q < bounds q;
  wf_in : in_ q = (out q + nelts q) mod bounds q
}.

(** The elements in the queue, oldest first. *)
Definition contents (q : queue) : list V := cyc null (data q) (out q) (nelts q).

(** The fields a section does not touch. *)
Definition same_rest (q q' : queue) : Prop :=
  bounds q' = bounds q /\ full_waiters q' = full_waiters q /\ empty_waiters q' = empty_waiters q /\
  terminated q' = terminated q.

Lemma enqueue_ok q x :
  qwf q -> nelts q < bounds q ->
  exists q', enqueue q x = Some q' /\ qwf q' /\ same_rest q q' /\ nelts q' = nelts q + 1 /\
    contents q' = contents q ++ [x].
Proof.
  intros [Hb Hd Hn Ho Hi] Hlt. unfold enqueue. pose proof (mod_range (out q + nelts q) (bounds q)).
  rewrite awrite_ok by lia. cbn [mbind option_bind]. eexists. split; [done|].
  rewrite !u32_small by lia. split; [|split; [done|split; [done|]]].
  - split; cbn [bounds data nelts out in_]; [done|by rewrite length_insert|lia|done|].
    rewrite Hi, Zplus_mod_idemp_l. by rewrite Z.add_assoc.
  - unfold contents. cbn [data out nelts]. rewrite Hi, <- Hd. apply cyc_snoc. lia.
Qed.

Lemma dequeue_ok q :
  qwf q -> 0 < nelts q ->
  exists x q', dequeue q = Some (x, q') /\ qwf q' /\ same_rest q q' /\ nelts q' = nelts q - 1 /\
    contents q = x :: contents q'.
Proof.
  intros [Hb Hd Hn Ho Hi] Hlt. unfold dequeue, aread.
  assert (data q !! Z.to_nat (out q) = Some (cell null (data q) (out q))) as Hx.
  { pose proof (cell_lookup null (data q) (out q) ltac:(lia)) as H.
    by rewrite Hd, Z.mod_small in H by lia. }
  rewrite Hx. cbn [mbind option_bind]. eexists _, _. split; [done|]. rewrite !u32_small by lia.
  split; [|split; [done|split; [done|]]].
  - split; cbn [bounds data nelts out in_]; [done|done|lia|apply mod_range; lia|].
    rewrite Hi, Zplus_mod_idemp_l. f_equal. lia.
  - unfold contents. cbn [data out nelts]. replace (nelts q) with (1 + (nelts q - 1)) at 1 by lia.
    rewrite cyc_split by lia. rewrite <- Hd. rewrite cyc_mod_start by lia.
    unfold cyc at 1. change (seq 0 (Z.to_nat 1)) with [0%nat]. simpl. by rewrite Z.add_0_r.
Qed.

(** ** Invariant of the system *)

Definition waiters_ok (q : queue) (ts : list pc) : Prop :=
  full_waiters q = count is_full_wait ts + count is_full_woken ts /\
  empty_waiters q = count is_empty_wait ts + count is_empty_woken ts.

(** No lost wake-up: while a thread waits for an element unsignalled, every
    element present has a woken thread coming for it, and dually for room. *)
Definition wakeups_ok (q : queue) (ts : list pc) : Prop :=
  (0 < count is_empty_wait ts -> nelts q <= count is_empty_woken ts) /\
  (0 < count is_full_wait ts -> bounds q - nelts q <= count is_full_woken ts).

Record inv (s : state) : Prop := {
  inv_wf : qwf (q s);
  inv_fifo : pushed s = popped s ++ contents (q s);
  inv_waiters : waiters_ok (q s) (ts s);
  inv_wakeups : wakeups_ok (q s) (ts s)
}.

(** The four counts together. *)
Definition counts (l : list pc) : Z * Z * Z * Z :=
  (count is_full_wait l, count is_full_woken l, count is_empty_wait l, count is_empty_woken l).

Lemma counts_insert (l : list pc) t (p p' : pc) fw fk ew ek :
  l !! t = Some p -> counts l = (fw, fk, ew, ek) ->
  counts (<[t := p']> l) =
    (fw - (if is_full_wait p then 1 else 0) + (if is_full_wait p' then 1 else 0),
     fk - (if is_full_woken p then 1 else 0) + (if is_full_woken p' then 1 else 0),
     ew - (if is_empty_wait p then 1 else 0) + (if is_empty_wait p' then 1 else 0),
     ek - (if is_empty_woken p then 1 else 0) + (if is_empty_woken p' then 1 else 0)).
Proof. intros H [= <- <- <- <-]. unfold counts. by rewrite !(count_insert _ _ _ _ _ H). Qed.

Lemma signal_empty_counts l l' fw fk ew ek :
  counts l = (fw, fk, ew, ek) -> signal is_empty_wait l l' ->
  0 < ew /\ counts l' = (fw, fk, ew - 1, ek + 1) \/ ew = 0 /\ counts l' = (fw, fk, ew, ek).
Proof.
  intros Hc [t p Ht Hp|Hall].
  - left. destruct p; try done. rewrite (counts_insert _ _ _ _ _ _ _ _ Ht Hc). cbn.
    pose proof (count_lookup is_empty_wait l t EmptyWait Ht eq_refl) as H. unfold counts in Hc. simplify_eq.
    split; [done|]. repeat f_equal; lia.
  - right. apply count_zero in Hall. unfold counts in *. simplify_eq. done.
Qed.

Lemma signal_full_counts l l' fw fk ew ek :
  counts l = (fw, fk, ew, ek) -> signal is_full_wait l l' ->
  0 < fw /\ counts l' = (fw - 1, fk + 1, ew, ek) \/ fw = 0 /\ counts l' = (fw, fk, ew, ek).
Proof.
  intros Hc [t p Ht Hp|Hall].
  - left. destruct p; try done. rewrite (counts_insert _ _ _ _ _ _ _ _ Ht Hc). cbn.
    pose proof (count_lookup is_full_wait l t _ Ht eq_refl) as H. unfold counts in Hc. simplify_eq.
    split; [done|]. repeat f_equal; lia.
  - right. apply count_zero in Hall. unfold counts in *. simplify_eq. done.
Qed.

Lemma counts_wake l fw fk ew ek :
  counts l = (fw, fk, ew, ek) -> counts (wake <$> l) = (0, fk + fw, 0, ek + ew).
Proof.
  unfold counts. intros [= <- <- <- <-].
  rewrite (count_wake is_full_woken is_full_wait), (count_wake is_empty_woken is_empty_wait) by (by intros []).
  assert (count is_full_wait (wake <$> l) = 0) as ->
    by (apply count_zero, Forall_fmap, Forall_true; by intros []).
  assert (count is_empty_wait (wake <$> l) = 0) as ->
    by (apply count_zero, Forall_fmap, Forall_true; by intros []).
  done.
Qed.

Lemma counts_nonneg l fw fk ew ek :
  counts l = (fw, fk, ew, ek) -> 0 <= fw /\ 0 <= fk /\ 0 <= ew /\ 0 <= ek.
Proof. intros [= <- <- <- <-]. split_and!; apply count_nonneg. Qed.

(** The invariant in terms of the counts. *)
Definition numbers_ok (q : queue) (c : Z * Z * Z * Z) : Prop :=
  let '(fw, fk, ew, ek) := c in
  0 <= fw /\ 0 <= fk /\ 0 <= ew /\ 0 <= ek /\
  full_waiters q = fw + fk /\ empty_waiters q = ew + ek /\
  (0 < ew -> nelts q <= ek) /\ (0 < fw -> bounds q - nelts q <= fk).

Lemma numbers_ok_iff q l : numbers_ok q (counts l) <-> waiters_ok q l /\ wakeups_ok q l.
Proof.
  unfold numbers_ok, counts, waiters_ok, wakeups_ok.
  pose proof (count_nonneg is_full_wait l). pose proof (count_nonneg is_full_woken l).
  pose proof (count_nonneg is_empty_wait l). pose proof (count_nonneg is_empty_woken l). tauto.
Qed.

Lemma inv_intro q ts us os c :
  qwf q -> us = os ++ contents q -> counts ts = c -> numbers_ok q c -> inv (State q ts us os).
Proof. intros H1 H2 <- H3. apply numbers_ok_iff in H3 as [H3 H4]. by split. Qed.

Lemma inv_numbers q0 ts0 us os :
  inv (State q0 ts0 us os) -> exists fw fk ew ek, counts ts0 = (fw, fk, ew, ek) /\ numbers_ok q0 (fw, fk, ew, ek).
Proof.
  intros [_ _ H3 H4]. cbn in *. pose proof (proj2 (numbers_ok_iff q0 ts0) (conj H3 H4)) as H.
  destruct (counts ts0) as [[[fw fk] ew] ek]. by exists fw, fk, ew, ek.
Qed.

Lemma store_ok q x :
  qwf q -> queue_full q = false ->
  exists q', store q x = Some (Moved x (negb (empty_waiters q =? 0)), q') /\ qwf q' /\ same_rest q q' /\
    nelts q' = nelts q + 1 /\ contents q' = contents q ++ [x].
Proof.
  intros Hw Hf. unfold queue_full in Hf. pose proof (wf_nelts _ Hw).
  destruct (enqueue_ok q x Hw ltac:(lia)) as (q' & E & Hw' & Hs & Hn & Hc). unfold store. rewrite E.
  cbn [mbind option_bind]. pose proof Hs as (_ & _ & -> & _). eauto 8.
Qed.

Lemma fetch_ok q :
  qwf q -> queue_empty q = false ->
  exists x q', fetch q = Some (Moved x (negb (full_waiters q =? 0)), q') /\ qwf q' /\ same_rest q q' /\
    nelts q' = nelts q - 1 /\ contents q = x :: contents q'.
Proof.
  intros Hw Hf. unfold queue_empty in Hf. pose proof (wf_nelts _ Hw).
  destruct (dequeue_ok q Hw ltac:(lia)) as (x & q' & E & Hw' & Hs & Hn & Hc). unfold fetch. rewrite E.
  cbn [mbind option_bind]. pose proof Hs as (_ & -> & _ & _). eauto 9.
Qed.

Lemma qwf_add_full k q : qwf q -> qwf (add_full k q).
Proof. by intros []. Qed.
Lemma qwf_add_empty k q : qwf q -> qwf (add_empty k q).
Proof. by intros []. Qed.

(** ** The sections *)

Definition b2z (b : bool) : Z := if b then 1 else 0.

Definition push_post (p : pc) (x : V) (q : queue) (o : outcome) (q' : queue) : Prop :=
  qwf q' /\ bounds q' = bounds q /\ terminated q' = terminated q /\ empty_waiters q' = empty_waiters q /\
  match o with
  | Moved y b => y = x /\ b = negb (empty_waiters q =? 0) /\ nelts q' = nelts q + 1 /\
      contents q' = contents q ++ [x] /\ full_waiters q' = full_waiters q - b2z (is_full_woken p)
  | Waits => nelts q' = nelts q /\ contents q' = contents q /\ nelts q = bounds q /\ terminated q = false /\
      is_full_woken p = false /\ full_waiters q' = full_waiters q + 1
  | _ => nelts q' = nelts q /\ contents q' = contents q /\ nelts q = bounds q /\
      full_waiters q' = full_waiters q - b2z (is_full_woken p)
  end.

Lemma push_section_ok p q r x :
  qwf q -> push_section p q = Some (r, x) ->
  exists o q', r = Some (o, q') /\ push_post p x q o q' /\
    is_full_wait p = false /\ is_empty_wait p = false /\ is_empty_woken p = false.
Proof.
  intros Hw Hp. unfold push_section in Hp.
  assert (forall k, queue_full (add_full k q) = queue_full q) as Hff by done.
  destruct p; try done; injection Hp as <- ->; unfold queue_push, queue_push_woken, queue_trypush; rewrite ?Hff;
    (destruct (queue_full q) eqn:Ef; [apply Z.eqb_eq in Ef; destruct (terminated q) eqn:Et; cbn [negb]|]).
  all: try (eexists _, _; split; [done|]; unfold push_post; cbn; rewrite ?Et; split; [|done];
    repeat (split; [by auto using qwf_add_full|]); repeat split; by auto || (cbn; lia)).
  - destruct (store_ok q x Hw Ef) as (q' & -> & Hw' & (H1 & H2 & H3 & H4) & Hn & Hc).
    eexists _, _. split; [done|]. unfold push_post. cbn. split; [|done]. do 4 (split; [done|]). split_and!; done || lia.
  - destruct (store_ok q x Hw Ef) as (q' & -> & Hw' & (H1 & H2 & H3 & H4) & Hn & Hc).
    eexists _, _. split; [done|]. unfold push_post. cbn. split; [|done]. do 4 (split; [done|]). split_and!; done || lia.
  - destruct (store_ok (add_full (-1) q) x (qwf_add_full _ _ Hw) Ef) as (q' & -> & Hw' & (H1 & H2 & H3 & H4) & Hn & Hc).
    eexists _, _. split; [done|]. unfold push_post. cbn in *. split; [|done]. do 4 (split; [done|]). split_and!; done || lia.
Qed.

Definition pop_post (p : pc) (q : queue) (o : outcome) (q' : queue) : Prop :=
  qwf q' /\ bounds q' = bounds q /\ terminated q' = terminated q /\ full_waiters q' = full_waiters q /\
  match o with
  | Moved y b => b = negb (full_waiters q =? 0) /\ nelts q' = nelts q - 1 /\ 0 < nelts q /\
      contents q = y :: contents q' /\ empty_waiters q' = empty_waiters q - b2z (is_empty_woken p)
  | Waits => nelts q' = nelts q /\ contents q' = contents q /\ nelts q = 0 /\ terminated q = false /\
      is_empty_woken p = false /\ empty_waiters q' = empty_waiters q + 1
  | _ => nelts q' = nelts q /\ contents q' = contents q /\ nelts q = 0 /\
      empty_waiters q' = empty_waiters q - b2z (is_empty_woken p)
  end.

Lemma pop_section_ok p q r :
  qwf q -> pop_section p q = Some r ->
  exists o q', r = Some (o, q') /\ pop_post p q o q' /\
    is_empty_wait p = false /\ is_full_wait p = false /\ is_full_woken p = false.
Proof.
  intros Hw Hp. unfold pop_section in Hp. pose proof (wf_nelts _ Hw) as Hn0.
  assert (forall k, queue_empty (add_empty k q) = queue_empty q) as Hff by done.
  destruct p; try done; injection Hp as <-; unfold queue_pop, queue_pop_woken, queue_trypop; rewrite ?Hff;
    (destruct (queue_empty q) eqn:Ef; [apply Z.eqb_eq in Ef; destruct (terminated q) eqn:Et; cbn [negb]|]).
  all: try (eexists _, _; split; [done|]; unfold pop_post; cbn; rewrite ?Et; split; [|done];
    repeat (split; [by auto using qwf_add_empty|]); repeat split; by auto || (cbn; lia)).
  all: pose proof (proj1 (Z.eqb_neq _ _) Ef) as Ef'.
  - destruct (fetch_ok q Hw Ef) as (x & q' & -> & Hw' & (H1 & H2 & H3 & H4) & Hn & Hc).
    eexists _, _. split; [done|]. unfold pop_post. cbn. split; [|done]. do 4 (split; [done|]). split_and!; done || lia.
  - destruct (fetch_ok q Hw Ef) as (x & q' & -> & Hw' & (H1 & H2 & H3 & H4) & Hn & Hc).
    eexists _, _. split; [done|]. unfold pop_post. cbn. split; [|done]. do 4 (split; [done|]). split_and!; done || lia.
  - destruct (fetch_ok (add_empty (-1) q) (qwf_add_empty _ _ Hw) Ef) as (x & q' & -> & Hw' & (H1 & H2 & H3 & H4) & Hn & Hc).
    eexists _, _. split; [done|]. unfold pop_post. cbn in *. split; [|done]. do 4 (split; [done|]). split_and!; done || lia.
Qed.

(** ** Preservation *)

Lemma numbers_same q q' c :
  full_waiters q' = full_waiters q -> empty_waiters q' = empty_waiters q -> nelts q' = nelts q ->
  bounds q' = bounds q -> numbers_ok q c -> numbers_ok q' c.
Proof. intros H1 H2 H3 H4. destruct c as [[[fw fk] ew] ek]. unfold numbers_ok. by rewrite H1, H2, H3, H4. Qed.

(** A thread that neither waits nor is woken moves on. *)
Lemma inv_move q ts us os t p p' :
  inv (State q ts us os) -> ts !! t = Some p ->
  (forall f, f ∈ [is_full_wait; is_full_woken; is_empty_wait; is_empty_woken] -> f p = false /\ f p' = false) ->
  inv (State q (<[t := p']> ts) us os).
Proof.
  intros Hi Ht Hf. destruct (inv_numbers _ _ _ _ Hi) as (fw & fk & ew & ek & Hc & Hn).
  eapply inv_intro; [apply Hi|apply Hi|by apply (counts_insert _ _ _ _ _ _ _ _ Ht Hc)|].
  destruct (Hf is_full_wait ltac:(set_solver)) as [-> ->]. destruct (Hf is_full_woken ltac:(set_solver)) as [-> ->].
  destruct (Hf is_empty_wait ltac:(set_solver)) as [-> ->]. destruct (Hf is_empty_woken ltac:(set_solver)) as [-> ->].
  by rewrite !Z.sub_0_r, !Z.add_0_r.
Qed.

Lemma push_moves_inv q ts us os t p q' x b ts' :
  inv (State q ts us os) -> ts !! t = Some p -> push_section p q = Some (Some (Moved x b, q'), x) ->
  maybe_signal b is_empty_wait (<[t := Done ROk]> ts) ts' -> inv (State q' ts' (us ++ [x]) os).
Proof.
  intros Hi Ht Hs Hsig. destruct (inv_numbers _ _ _ _ Hi) as (fw & fk & ew & ek & Hc & Hn).
  destruct (push_section_ok p q _ x (inv_wf _ Hi) Hs) as (o & q1 & [= <- <-] & Hp & Hpw & Hpe & Hpk).
  destruct Hp as (Hw' & Hb & _ & Hew & _ & Hbb & Hne & Hcon & Hfw).
  pose proof (counts_insert _ _ _ (Done ROk) _ _ _ _ Ht Hc) as Hc1. rewrite Hpw, Hpe, Hpk in Hc1. cbn in Hc1.
  rewrite !Z.sub_0_r, !Z.add_0_r in Hc1. unfold b2z in Hfw.
  assert (us ++ [x] = os ++ contents q') as Hfifo.
  { rewrite Hcon, app_assoc. f_equal. apply (inv_fifo _ Hi). }
  unfold numbers_ok in Hn. unfold maybe_signal in Hsig. destruct b.
  - destruct (signal_empty_counts _ _ _ _ _ _ Hc1 Hsig) as [[He Hc2]|[He Hc2]];
      (eapply inv_intro; [done|done|exact Hc2|]); apply counts_nonneg in Hc2; unfold numbers_ok; destruct (is_full_woken p); lia.
  - subst ts'. eapply inv_intro; [done|done|exact Hc1|]. apply counts_nonneg in Hc1. unfold numbers_ok.
    assert (empty_waiters q = 0) by (by destruct (Z.eqb_spec (empty_waiters q) 0)).
    destruct (is_full_woken p); lia.
Qed.

Lemma pop_moves_inv q ts us os t p q' x b ts' :
  inv (State q ts us os) -> ts !! t = Some p -> pop_section p q = Some (Some (Moved x b, q')) ->
  maybe_signal b is_full_wait (<[t := Done (RValue x)]> ts) ts' -> inv (State q' ts' us (os ++ [x])).
Proof.
  intros Hi Ht Hs Hsig. destruct (inv_numbers _ _ _ _ Hi) as (fw & fk & ew & ek & Hc & Hn).
  destruct (pop_section_ok p q _ (inv_wf _ Hi) Hs) as (o & q1 & [= <- <-] & Hp & Hpe & Hpw & Hpk).
  destruct Hp as (Hw' & Hb & _ & Hfw & Hbb & Hne & Hpos & Hcon & Hew).
  pose proof (counts_insert _ _ _ (Done (RValue x)) _ _ _ _ Ht Hc) as Hc1. rewrite Hpw, Hpe, Hpk in Hc1. cbn in Hc1.
  rewrite !Z.sub_0_r, !Z.add_0_r in Hc1. unfold b2z in Hew.
  assert (us = (os ++ [x]) ++ contents q') as Hfifo.
  { rewrite <- app_assoc. simpl. rewrite <- Hcon. apply (inv_fifo _ Hi). }
  unfold numbers_ok in Hn. unfold maybe_signal in Hsig. destruct b.
  - destruct (signal_full_counts _ _ _ _ _ _ Hc1 Hsig) as [[He Hc2]|[He Hc2]];
      (eapply inv_intro; [done|done|exact Hc2|]); apply counts_nonneg in Hc2; unfold numbers_ok; destruct (is_empty_woken p); lia.
  - subst ts'. eapply inv_intro; [done|done|exact Hc1|]. apply counts_nonneg in Hc1. unfold numbers_ok.
    assert (full_waiters q = 0) by (by destruct (Z.eqb_spec (full_waiters q) 0)).
    destruct (is_empty_woken p); lia.
Qed.

Lemma push_stays_inv q ts us os t p o q' x :
  inv (State q ts us os) -> ts !! t = Some p -> push_section p q = Some (Some (o, q'), x) -> moved o = false ->
  inv (State q' (<[t := after (FullWait x) o]> ts) us os).
Proof.
  intros Hi Ht Hs Hm. destruct (inv_numbers _ _ _ _ Hi) as (fw & fk & ew & ek & Hc & Hn).
  destruct (push_section_ok p q _ x (inv_wf _ Hi) Hs) as (o1 & q1 & [= <- <-] & Hp & Hpw & Hpe & Hpk).
  destruct Hp as (Hw' & Hb & _ & Hew & Ho).
  pose proof (counts_insert _ _ _ (after (FullWait x) o) _ _ _ _ Ht Hc) as Hc1. rewrite Hpw, Hpe, Hpk in Hc1.
  eapply inv_intro; [done| |exact Hc1|].
  - pose proof (inv_fifo _ Hi) as Hf. cbn in Hf. destruct o; try done; destruct Ho as (_ & -> & _); done.
  - apply counts_nonneg in Hc1. unfold numbers_ok in *. pose proof (wf_nelts _ Hw'). unfold b2z in Ho.
    destruct o; try done; cbn in *; destruct (is_full_woken p); try lia; by destruct Ho as (_ & _ & _ & _ & [=] & _).
Qed.

Lemma pop_stays_inv q ts us os t p o q' :
  inv (State q ts us os) -> ts !! t = Some p -> pop_section p q = Some (Some (o, q')) -> moved o = false ->
  inv (State q' (<[t := after EmptyWait o]> ts) us os).
Proof.
  intros Hi Ht Hs Hm. destruct (inv_numbers _ _ _ _ Hi) as (fw & fk & ew & ek & Hc & Hn).
  destruct (pop_section_ok p q _ (inv_wf _ Hi) Hs) as (o1 & q1 & [= <- <-] & Hp & Hpe & Hpw & Hpk).
  destruct Hp as (Hw' & Hb & _ & Hfw & Ho).
  pose proof (counts_insert _ _ _ (after EmptyWait o) _ _ _ _ Ht Hc) as Hc1. rewrite Hpw, Hpe, Hpk in Hc1.
  eapply inv_intro; [done| |exact Hc1|].
  - pose proof (inv_fifo _ Hi) as Hf. cbn in Hf. destruct o; try done; destruct Ho as (_ & -> & _); done.
  - apply counts_nonneg in Hc1. unfold numbers_ok in *. pose proof (wf_nelts _ Hw'). unfold b2z in Ho.
    destruct o; try done; cbn in *; destruct (is_empty_woken p); try lia; by destruct Ho as (_ & _ & _ & _ & [=] & _).
Qed.

Lemma step_inv s s' : inv s -> step s s' -> inv s'.
Proof.
  intros Hi Hs. destruct Hs as [q ts us os t p Ht Hp _|q ts us os t Ht _|q ts us os t p Ht Hp|q ts us os t r Ht
    |q ts us os t p o q' x Ht Hs Hm|q ts us os t p q' x b ts' Ht Hs Hsig|q ts us os t p o q' Ht Hs Hm
    |q ts us os t p q' x b ts' Ht Hs Hsig|q ts us os t Ht|q ts us os t Ht|q ts us os t Ht|q ts us os t p Ht Hp].
  - eapply inv_move; [done..|]. intros f Hf. destruct Hp; set_unfold in Hf; destruct_or? Hf; by subst f.
  - eapply inv_move; [done..|]. intros f Hf. set_unfold in Hf; destruct_or? Hf; by subst f.
  - eapply inv_move; [done..|]. intros f Hf. destruct Hp as [-> | ->]; set_unfold in Hf; destruct_or? Hf; by subst f.
  - eapply inv_move; [done..|]. intros f Hf. set_unfold in Hf; destruct_or? Hf; by subst f.
  - by eapply push_stays_inv.
  - by eapply push_moves_inv.
  - by eapply pop_stays_inv.
  - by eapply pop_moves_inv.
  - eapply inv_move; [done..|]. intros f Hf. set_unfold in Hf; destruct_or? Hf; subst f; by destruct (terminated q).
  - apply (inv_move q ts us os t TermLock InterruptLock) in Hi; [|done|].
    + destruct Hi as [[] ? ? ?]. by split.
    + intros f Hf. set_unfold in Hf; destruct_or? Hf; by subst f.
  - destruct (inv_numbers _ _ _ _ Hi) as (fw & fk & ew & ek & Hc & Hn).
    pose proof (counts_insert _ _ _ (Done ROk) _ _ _ _ Ht Hc) as Hc1. cbn in Hc1. rewrite !Z.sub_0_r, !Z.add_0_r in Hc1.
    eapply inv_intro; [apply Hi|apply Hi|by apply counts_wake, Hc1|]. unfold numbers_ok in *. lia.
  - destruct (inv_numbers _ _ _ _ Hi) as (fw & fk & ew & ek & Hc & Hn).
    pose proof (counts_insert _ _ _ (wake p) _ _ _ _ Ht Hc) as Hc1.
    eapply inv_intro; [apply Hi|apply Hi|exact Hc1|]. unfold numbers_ok in *.
    destruct p; try done; cbn; [pose proof (count_lookup is_full_wait ts t _ Ht eq_refl)
      |pose proof (count_lookup is_empty_wait ts t _ Ht eq_refl)]; unfold counts in Hc; simplify_eq; lia.
Qed.

Lemma count_replicate f n : f Idle = false -> count f (replicate n Idle) = 0.
Proof. intros H. induction n as [|n IH]; simpl; [done|]. by rewrite H, IH. Qed.

Lemma initial_inv garbage cap threads :
  0 < cap < 2 ^ 31 -> Z.of_nat (length garbage) = cap -> inv (initial garbage cap threads).
Proof.
  intros Hc Hg. eapply inv_intro; [split; cbn; done || lia| |done|]; [done|].
  unfold counts, numbers_ok. rewrite !count_replicate by done. cbn. lia.
Qed.

Lemma queue_reachable_inv garbage cap threads s :
  0 < cap < 2 ^ 31 -> Z.of_nat (length garbage) = cap -> reachable garbage cap threads s -> inv s.
Proof.
  intros Hc Hg Hr. unfold reachable in Hr. pose proof (initial_inv garbage cap threads Hc Hg) as Hi.
  induction Hr as [|x y z Hxy _ IH]; [done|]. apply IH. by eapply step_inv.
Qed.

(** ** Termination of the queue *)

Definition asleep (p : pc) : bool := is_full_wait p || is_empty_wait p.

(** Terminated and nobody asleep. *)
Definition closed (s : state) : Prop :=
  terminated (q s) = true /\ Forall (fun p => asleep p = false) (ts s).

Lemma signal_awake waits l l' :
  signal waits l l' -> Forall (fun p => asleep p = false) l -> Forall (fun p => asleep p = false) l'.
Proof.
  intros [t p Ht Hp|Hall] Hf; [|done]. apply Forall_insert; [done|].
  pose proof (Forall_lookup_1 _ _ _ _ Hf Ht) as Ha. by destruct p.
Qed.

Lemma closed_step s s' : inv s -> closed s -> step s s' -> closed s'.
Proof.
  intros Hi [Hterm Hf] Hs. destruct Hs as [q ts us os t p Ht Hp _|q ts us os t Ht _|q ts us os t p Ht Hp|q ts us os t r Ht
    |q ts us os t p o q' x Ht Hs Hm|q ts us os t p q' x b ts' Ht Hs Hsig|q ts us os t p o q' Ht Hs Hm
    |q ts us os t p q' x b ts' Ht Hs Hsig|q ts us os t Ht|q ts us os t Ht|q ts us os t Ht|q ts us os t p Ht Hp];
    unfold closed in *; cbn in *.
  - split; [done|]. apply Forall_insert; [done|]. by destruct Hp.
  - split; [done|]. by apply Forall_insert.
  - split; [done|]. apply Forall_insert; [done|]. by destruct Hp as [-> | ->].
  - split; [done|]. by apply Forall_insert.
  - destruct (push_section_ok p q _ x (inv_wf _ Hi) Hs) as (o1 & q1 & [= <- <-] & (_ & _ & Ht' & _ & Ho) & _).
    split; [congruence|]. apply Forall_insert; [done|]. destruct o; try done.
    destruct Ho as (_ & _ & _ & ? & _). congruence.
  - destruct (push_section_ok p q _ x (inv_wf _ Hi) Hs) as (o1 & q1 & [= <- <-] & (_ & _ & Ht' & _) & _).
    split; [congruence|]. unfold maybe_signal in Hsig.
    destruct b; [eapply signal_awake; [done|]|subst ts']; by apply Forall_insert.
  - destruct (pop_section_ok p q _ (inv_wf _ Hi) Hs) as (o1 & q1 & [= <- <-] & (_ & _ & Ht' & _ & Ho) & _).
    split; [congruence|]. apply Forall_insert; [done|]. destruct o; try done.
    destruct Ho as (_ & _ & _ & ? & _). congruence.
  - destruct (pop_section_ok p q _ (inv_wf _ Hi) Hs) as (o1 & q1 & [= <- <-] & (_ & _ & Ht' & _) & _).
    split; [congruence|]. unfold maybe_signal in Hsig.
    destruct b; [eapply signal_awake; [done|]|subst ts']; by apply Forall_insert.
  - split; [done|]. by apply Forall_insert.
  - split; [done|]. by apply Forall_insert.
  - split; [done|]. apply Forall_fmap, Forall_true. by intros [].
  - split; [done|]. apply Forall_insert; [done|]. by destruct p.
Qed.
End Queue.

(** ** The theorems *)

(** in every reachable state, whatever the interleaving of pushing, popping,
    interrupting and terminating threads, the elements came out in the order
    they went in: what was pushed is what was popped followed by what the queue
    holds; the queue never holds more than its capacity, and every section of
    every thread stays inside the array. *)
Theorem queue_fifo {V} (null : V) garbage cap threads s :
  0 < cap < 2 ^ 31 -> Z.of_nat (length garbage) = cap -> reachable garbage cap threads s ->
  pushed s = popped s ++ contents null (q s) /\
  Z.of_nat (length (contents null (q s))) <= bounds (q s) /\
  (forall t p, ts s !! t = Some p ->
     (forall r x, push_section p (q s) = Some (r, x) -> is_Some r) /\
     (forall r, pop_section p (q s) = Some r -> is_Some r)).
Proof.
  intros Hc Hg Hr. pose proof (queue_reachable_inv null garbage cap threads s Hc Hg Hr) as Hi.
  split; [apply (inv_fifo _ _ Hi)|]. split.
  - unfold contents. rewrite length_cyc. pose proof (wf_nelts _ (inv_wf _ _ Hi)). lia.
  - intros t p _. split.
    + intros r x Hp. destruct (push_section_ok null p _ r x (inv_wf _ _ Hi) Hp) as (o & q' & -> & _). by eexists.
    + intros r Hp. destruct (pop_section_ok null p _ r (inv_wf _ _ Hi) Hp) as (o & q' & -> & _). by eexists.
Qed.

(** wake-ups are not lost: whenever a popper sleeps without having been
    signalled, every element in the queue has a woken popper on its way, and
    whenever a pusher sleeps unsignalled, so has every free slot; in particular
    no thread sleeps beside an element (or a free slot) that nobody will take. *)
Theorem queue_no_lost_wakeup {V} (garbage : list V) cap threads s :
  0 < cap < 2 ^ 31 -> Z.of_nat (length garbage) = cap -> reachable garbage cap threads s ->
  (0 < count is_empty_wait (ts s) -> nelts (q s) <= count is_empty_woken (ts s)) /\
  (0 < count is_full_wait (ts s) -> bounds (q s) - nelts (q s) <= count is_full_woken (ts s)).
Proof.
  intros Hc Hg Hr. destruct garbage as [|null garbage]; [simpl in Hg; lia|].
  pose proof (queue_reachable_inv null _ cap threads s Hc Hg Hr) as Hi. apply (inv_wakeups _ _ Hi).
Qed.

(** once [queue_term] has set the flag and broadcast, no thread ever sleeps
    in the queue again. *)
Theorem queue_term_wakes_all {V} (garbage : list V) cap threads s s1 s2 t :
  0 < cap < 2 ^ 31 -> Z.of_nat (length garbage) = cap -> reachable garbage cap threads s ->
  terminated (q s) = true -> ts s !! t = Some InterruptLock ->
  s1 = State (q s) (wake <$> <[t := Done ROk]> (ts s)) (pushed s) (popped s) ->
  rtc step s1 s2 ->
  step s s1 /\ Forall (fun p => asleep p = false) (ts s2).
Proof.
  intros Hc Hg Hr Hterm Ht Hs1 Hrtc. destruct garbage as [|null garbage]; [simpl in Hg; lia|].
  pose proof (queue_reachable_inv null _ cap threads s Hc Hg Hr) as Hi.
  assert (step s s1) as Hstep by (rewrite Hs1; destruct s; by apply step_interrupt_all).
  split; [done|]. assert (inv null s1) as Hi1 by (by eapply step_inv).
  assert (closed s1) as Hc1.
  { rewrite Hs1. split; [done|]. apply Forall_fmap, Forall_true. by intros []. }
  clear Hstep Hs1. induction Hrtc as [s1|x y z Hxy _ IH]; [apply Hc1|].
  apply IH; [by eapply step_inv|by eapply closed_step].
Qed.

(** ** Witnesses *)

(** Two threads around a queue of capacity two: the first waits in [queue_pop]. *)
Definition demo_state : state (V := Z) :=
  State (add_empty 1 (queue_create [0; 0] 2)) [EmptyWait; Idle] [] [].

Lemma demo_reachable : reachable [0; 0] 2 2 demo_state.
Proof.
  eapply rtc_l; [apply (step_start _ _ _ _ 0 PopLock); [done|constructor|done]|].
  eapply rtc_l; [apply (step_pop_stays _ _ _ _ 0 PopLock Waits (add_empty 1 (queue_create [0; 0] 2))); done|].
  apply rtc_refl.
Qed.

Lemma queue_fifo_witness :
  pushed demo_state = popped demo_state ++ contents 0 (q demo_state) /\
  Z.of_nat (length (contents 0 (q demo_state))) <= bounds (q demo_state) /\
  (forall t p, ts demo_state !! t = Some p ->
     (forall r x, push_section p (q demo_state) = Some (r, x) -> is_Some r) /\
     (forall r, pop_section p (q demo_state) = Some r -> is_Some r)).
Proof. apply (queue_fifo 0 [0; 0] 2 2 demo_state); [lia|reflexivity|apply demo_reachable]. Defined.

Lemma queue_no_lost_wakeup_witness :
  (0 < count is_empty_wait (ts demo_state) -> nelts (q demo_state) <= count is_empty_woken (ts demo_state)) /\
  (0 < count is_full_wait (ts demo_state) ->
     bounds (q demo_state) - nelts (q demo_state) <= count is_full_woken (ts demo_state)).
Proof. apply (queue_no_lost_wakeup [0; 0] 2 2 demo_state); [lia|reflexivity|apply demo_reachable]. Defined.

Definition demo_term : state (V := Z) :=
  State (set_terminated (add_empty 1 (queue_create [0; 0] 2))) [EmptyWait; InterruptLock] [] [].

Lemma demo_term_reachable : reachable [0; 0] 2 2 demo_term.
Proof.
  unfold reachable. transitivity demo_state; [apply demo_reachable|].
  eapply rtc_l; [apply (step_start_admin _ _ _ _ 1 TermLock); [done|by left]|].
  eapply rtc_l; [apply (step_term _ _ _ _ 1); done|]. apply rtc_refl.
Qed.

Lemma queue_term_wakes_all_witness :
  let s1 := State (q demo_term) [EmptyWoken; Done ROk] [] [] in
  step demo_term s1 /\ Forall (fun p => asleep p = false) (ts s1).
Proof.
  apply (queue_term_wakes_all [0; 0] 2 2 demo_term _ _ 1%nat);
    [lia|reflexivity|apply demo_term_reachable|reflexivity|reflexivity|reflexivity|apply rtc_refl].
Defined.
