(* ===== verification/HashTable.v ===== *)
(** The chained hash table: [common/misc/hash.c].

    A bucket is the list of the entries on its chain.  Keys are compared by
    content; the hash function is an argument, [hashfunc_default] is its default.
    The abstract view is a finite map. *)
From S2P Require Import Prelude.
Local Open Scope Z_scope.

Section Table.
Context {V : Type} (hash_func : list Z -> Z).

Record entry := Entry { e_hash : Z; e_key : list Z; e_val : V }.

Record hash_t := Hash { array : list (list entry); count : Z; max : Z; free : list entry }.

Definition INITIAL_MAX : Z := 15.

Definition alloc_array (max : Z) : list (list entry) := replicate (Z.to_nat (max + 1)) [].

Definition hash_make : hash_t := Hash (alloc_array INITIAL_MAX) 0 INITIAL_MAX [].

(** ** Iteration *)

(** [this], the chain behind it, and the next bucket to look at. *)
Record hash_index := Index { this : entry; next : list entry; index : nat }.

(** The loop of [hash_next] for an empty chain. *)
Fixpoint seek (fuel : nat) (ht : hash_t) (i : nat) : option (option hash_index) :=
  match fuel with
  | O => None
  | S fuel =>
      if Z.of_nat i >? max ht then Some None
      else
        chain ← aread (array ht) i;
        match chain with
        | e :: rest => Some (Some (Index e rest (S i)))
        | [] => seek fuel ht (S i)
        end
  end.

Definition hash_next_from (ht : hash_t) (next : list entry) (i : nat) : option (option hash_index) :=
  match next with
  | e :: rest => Some (Some (Index e rest i))
  | [] => seek (S (length (array ht))) ht i
  end.

Definition hash_next (ht : hash_t) (hi : hash_index) : option (option hash_index) :=
  hash_next_from ht (next hi) (index hi).

Definition hash_first (ht : hash_t) : option (option hash_index) := hash_next_from ht [] 0.

(** [for (hi = hash_first(ht); hi; hi = hash_next(hi))] with body [f]. *)
Fixpoint each_loop {S} (fuel : nat) (ht : hash_t) (f : S -> entry -> option S)
    (cur : option hash_index) (s : S) : option S :=
  match fuel with
  | O => None
  | Datatypes.S fuel =>
      match cur with
      | None => Some s
      | Some hi => s ← f s (this hi); cur ← hash_next ht hi; each_loop fuel ht f cur s
      end
  end.

Definition hash_each {S} (ht : hash_t) (f : S -> entry -> option S) (s : S) : option S :=
  cur ← hash_first ht; each_loop (Datatypes.S (length (concat (array ht)))) ht f cur s.

(** ** Operations *)

Definition bucket (h max : Z) : nat := Z.to_nat (Z.land h max).

Definition move_entry (new_max : Z) (new_array : list (list entry)) (e : entry) : option (list (list entry)) :=
  let i := bucket (e_hash e) new_max in
  chain ← aread new_array i;
  awrite new_array i (e :: chain).

Definition expand_array (ht : hash_t) : option hash_t :=
  let new_max := u32 (max ht * 2 + 1) in
  new_array ← hash_each ht (move_entry new_max) (alloc_array new_max);
  Some (Hash new_array (count ht) new_max (free ht)).

(** The position on the chain of the first entry with the key. *)
Fixpoint find_pos (h : Z) (k : list Z) (chain : list entry) : option nat :=
  match chain with
  | [] => None
  | e :: chain =>
      if (e_hash e =? h) && bool_decide (e_key e = k) then Some O else S <$> find_pos h k chain
  end.

(** What [hep] points to: a bucket, its chain and the position if there is one. *)
Definition find_entry (ht : hash_t) (k : list Z) : option (nat * list entry * option nat) :=
  let h := hash_func k in
  let i := bucket h (max ht) in
  chain ← aread (array ht) i;
  Some (i, chain, find_pos h k chain).

(** The entry [find_entry] adds at the end of the chain when there is none and
    [val] is not [NULL]; a free entry is used again. *)
Definition add_entry (ht : hash_t) (i : nat) (chain : list entry) (k : list Z) (v : V) : option hash_t :=
  arr ← awrite (array ht) i (chain ++ [Entry (hash_func k) k v]);
  Some (Hash arr (u32 (count ht + 1)) (max ht) (tail (free ht))).

Definition hash_get (ht : hash_t) (k : list Z) : option (option V) :=
  '(_, chain, pos) ← find_entry ht k;
  match pos with
  | None => Some None
  | Some j => e ← aread chain j; Some (Some (e_val e))
  end.

Definition check_expand (ht : hash_t) : option hash_t :=
  if count ht >? max ht then expand_array ht else Some ht.

Definition hash_set (ht : hash_t) (k : list Z) (val : option V) : option hash_t :=
  '(i, chain, pos) ← find_entry ht k;
  match pos, val with
  | None, None => Some ht
  | None, Some v => ht ← add_entry ht i chain k v; check_expand ht
  | Some j, None =>
      old ← aread chain j;
      arr ← awrite (array ht) i (delete j chain);
      Some (Hash arr (u32 (count ht - 1)) (max ht) (old :: free ht))
  | Some j, Some v =>
      e ← aread chain j;
      chain ← awrite chain j (Entry (e_hash e) (e_key e) v);
      arr ← awrite (array ht) i chain;
      check_expand (Hash arr (count ht) (max ht) (free ht))
  end.

Definition hash_count (ht : hash_t) : Z := count ht.

(** The table changes under the iterator, which keeps the rest of its chain. *)
Fixpoint clear_loop (fuel : nat) (ht : hash_t) (cur : option hash_index) : option hash_t :=
  match fuel with
  | O => None
  | S fuel =>
      match cur with
      | None => Some ht
      | Some hi => ht ← hash_set ht (e_key (this hi)) None; cur ← hash_next ht hi; clear_loop fuel ht cur
      end
  end.

Definition hash_clear (ht : hash_t) : option hash_t :=
  cur ← hash_first ht; clear_loop (S (length (concat (array ht)))) ht cur.

(** The loop of [hash_do]: the callback may stop it with a negative result. *)
Fixpoint do_loop {S} (fuel : nat) (ht : hash_t) (comp : S -> entry -> S * Z) (hi : hash_index) (s : S)
    : option (S * Z) :=
  match fuel with
  | O => None
  | Datatypes.S fuel =>
      let '(s, rv) := comp s (this hi) in
      if rv >=? 0 then
        cur ← hash_next ht hi;
        match cur with None => Some (s, rv) | Some hi => do_loop fuel ht comp hi s end
      else Some (s, rv)
  end.

Definition hash_do {S} (comp : S -> entry -> S * Z) (s : S) (ht : hash_t) : option (S * Z) :=
  cur ← hash_first ht;
  match cur with
  | None => Some (s, 1)
  | Some hi =>
      '(s, rv) ← do_loop (length (concat (array ht))) ht comp hi s;
      Some (s, if rv =? 0 then 0 else 1)
  end.

(** [hash_destroy]: the entries handed to [free_he], in order: those of the
    table, then those of the free list. *)
Definition hash_destroy (ht : hash_t) : option (list entry) :=
  freed ← hash_each ht (fun freed e => Some (freed ++ [e])) [];
  Some (freed ++ free ht).

(** ** Invariant and abstraction *)

Definition entries (ht : hash_t) : list entry := concat (array ht).
Definition pair_of (e : entry) : list Z * V := (e_key e, e_val e).
Definition to_map (ht : hash_t) : gmap (list Z) V := list_to_map (pair_of <$> entries ht).

(** Entries sit in the bucket of their hash. *)
Definition placed (mx : Z) (arr : list (list entry)) : Prop :=
  forall i chain e, arr !! i = Some chain -> e ∈ chain ->
    e_hash e = hash_func (e_key e) /\ bucket (e_hash e) mx = i.

Record hwf (ht : hash_t) : Prop := {
  wf_max : exists n, 0 <= n < 32 /\ max ht = 2 ^ n - 1;
  wf_len : Z.of_nat (length (array ht)) = max ht + 1;
  wf_placed : placed (max ht) (array ht);
  wf_keys : NoDup (e_key <$> entries ht);
  wf_count : count ht = Z.of_nat (length (entries ht))
}.

Definition hash_range : Prop := forall k, 0 <= hash_func k < 2 ^ 32.

(** ** Iteration visits every entry once *)

Fixpoint fold_opt {S} (f : S -> entry -> option S) (s : S) (l : list entry) : option S :=
  match l with [] => Some s | e :: l => s ← f s e; fold_opt f s l end.

(** The entries a cursor has still to visit. *)
Definition ahead (ht : hash_t) (cur : option hash_index) : list entry :=
  match cur with
  | None => []
  | Some hi => this hi :: next hi ++ concat (drop (index hi) (array ht))
  end.

Lemma seek_ok ht i fuel :
  Z.of_nat (length (array ht)) = max ht + 1 -> (i <= length (array ht))%nat ->
  (length (array ht) - i < fuel)%nat ->
  exists cur, seek fuel ht i = Some cur /\ ahead ht cur = concat (drop i (array ht)) /\
    (forall hi, cur = Some hi -> (index hi <= length (array ht))%nat /\
       exists j, (i <= j < index hi)%nat /\ S j = index hi /\ array ht !! j = Some (this hi :: next hi)).
Proof.
  intros Hl. revert i. induction fuel as [|fuel IH]; intros i Hi Hf; [lia|]. cbn [seek].
  destruct (Z.of_nat i >? max ht) eqn:E.
  { exists None. split; [done|]. rewrite drop_ge by lia. done. }
  unfold aread. destruct (lookup_lt_is_Some_2 (array ht) i ltac:(lia)) as [chain Hc]. rewrite Hc. cbn [mbind option_bind].
  destruct chain as [|e rest].
  - destruct (IH (S i) ltac:(lia) ltac:(lia)) as (cur & Hcur & Ha & Hj). exists cur. split; [done|].
    split; [by rewrite Ha, (drop_S _ _ _ Hc)|]. intros hi Hhi. destruct (Hj hi Hhi) as (? & j & ? & ?).
    split; [done|]. exists j. split; [lia|done].
  - eexists. split; [done|]. cbn [ahead this next index]. split; [by rewrite (drop_S _ _ _ Hc)|].
    intros hi [= <-]. cbn [index this next]. split; [lia|]. exists i. split; [lia|done].
Qed.

Lemma hash_next_from_ok ht nx i :
  Z.of_nat (length (array ht)) = max ht + 1 -> (i <= length (array ht))%nat ->
  exists cur, hash_next_from ht nx i = Some cur /\ ahead ht cur = nx ++ concat (drop i (array ht)) /\
    (forall hi, cur = Some hi -> (index hi <= length (array ht))%nat).
Proof.
  intros Hl Hi. unfold hash_next_from. destruct nx as [|e rest].
  - destruct (seek_ok ht i (S (length (array ht))) Hl Hi ltac:(lia)) as (cur & H1 & H2 & H3).
    exists cur. split; [done|]. split; [done|]. intros hi Hhi. apply (H3 hi Hhi).
  - eexists. split; [done|]. split; [done|]. by intros hi [= <-].
Qed.

Lemma each_loop_ok {S} ht (f : S -> entry -> option S) fuel cur s :
  Z.of_nat (length (array ht)) = max ht + 1 ->
  (forall hi, cur = Some hi -> (index hi <= length (array ht))%nat) ->
  (length (ahead ht cur) < fuel)%nat ->
  each_loop fuel ht f cur s = fold_opt f s (ahead ht cur).
Proof.
  intros Hl. revert cur s. induction fuel as [|fuel IH]; intros cur s Hi Hf; [lia|].
  destruct cur as [hi|]; [|done]. cbn [each_loop ahead fold_opt]. cbn [ahead length] in Hf.
  destruct (f s (this hi)) as [s'|]; [|done]. cbn [mbind option_bind]. unfold hash_next.
  destruct (hash_next_from_ok ht (next hi) (index hi) Hl (Hi hi eq_refl)) as (cur & -> & Ha & Hi').
  cbn [mbind option_bind]. rewrite IH; [by rewrite Ha|done|rewrite Ha; lia].
Qed.

Lemma hash_each_ok {S} ht (f : S -> entry -> option S) s :
  Z.of_nat (length (array ht)) = max ht + 1 -> hash_each ht f s = fold_opt f s (entries ht).
Proof.
  intros Hl. unfold hash_each, hash_first.
  destruct (hash_next_from_ok ht [] 0 Hl ltac:(lia)) as (cur & -> & Ha & Hi). cbn [mbind option_bind].
  rewrite drop_0 in Ha. simpl in Ha. rewrite each_loop_ok; [by rewrite Ha|done|done|rewrite Ha; lia].
Qed.

(** ** Buckets *)

Hypothesis Hrange : hash_range.

Lemma bucket_lt h mx n : 0 <= h -> 0 <= n -> mx = 2 ^ n - 1 -> (bucket h mx < Z.to_nat (mx + 1))%nat.
Proof.
  intros Hh Hn ->. unfold bucket. replace (2 ^ n - 1) with (Z.ones n) by (rewrite Z.ones_equiv; lia).
  rewrite Z.land_ones by done. rewrite Z.ones_equiv. pose proof (Z.mod_pos_bound h (2 ^ n) ltac:(lia)). lia.
Qed.

Lemma in_entries ht e : e ∈ entries ht <-> exists i chain, array ht !! i = Some chain /\ e ∈ chain.
Proof.
  unfold entries. rewrite list_elem_of_In, in_concat. split.
  - intros (chain & Hc & He). apply list_elem_of_In, list_elem_of_lookup_1 in Hc as [i Hi].
    exists i, chain. split; [done|]. by apply list_elem_of_In.
  - intros (i & chain & Hi & He). exists chain. split; apply list_elem_of_In; [|done]. by eapply list_elem_of_lookup_2.
Qed.

Lemma find_pos_ok k chain :
  Forall (fun e => e_hash e = hash_func (e_key e)) chain ->
  match find_pos (hash_func k) k chain with
  | Some j => exists e, chain !! j = Some e /\ e_key e = k
  | None => Forall (fun e => e_key e <> k) chain
  end.
Proof.
  induction 1 as [|e chain He _ IH]; cbn [find_pos]; [constructor|].
  case_bool_decide as Hk; [|rewrite andb_false_r].
  - rewrite He, Hk, Z.eqb_refl. cbn [andb]. by exists e.
  - destruct (find_pos _ _ chain) as [j|]; cbn; [done|by constructor].
Qed.

Lemma find_entry_ok ht k :
  hwf ht ->
  exists chain pos, find_entry ht k = Some (bucket (hash_func k) (max ht), chain, pos) /\
    array ht !! bucket (hash_func k) (max ht) = Some chain /\
    match pos with
    | Some j => exists e, chain !! j = Some e /\ e_key e = k
    | None => Forall (fun e => e_key e <> k) (entries ht)
    end.
Proof.
  intros [[n [Hn Hm]] Hl Hp _ _]. unfold find_entry, aread. pose proof (Hrange k) as Hr.
  pose proof (bucket_lt (hash_func k) (max ht) n ltac:(lia) ltac:(lia) Hm) as Hb.
  destruct (lookup_lt_is_Some_2 (array ht) (bucket (hash_func k) (max ht)) ltac:(lia)) as [chain Hc].
  rewrite Hc. cbn [mbind option_bind]. eexists _, _. split; [done|]. split; [done|].
  assert (Forall (fun e => e_hash e = hash_func (e_key e)) chain) as Hh.
  { apply Forall_forall. intros e He. by apply (Hp _ _ _ Hc He). }
  pose proof (find_pos_ok k chain Hh) as Hf. destruct (find_pos _ _ _) as [j|]; [done|].
  apply Forall_forall. intros e (i & chain' & Hi & He)%in_entries Hk.
  destruct (Hp _ _ _ Hi He) as [Hh1 Hh2]. rewrite Hh1, Hk in Hh2. subst i.
  assert (chain' = chain) as -> by congruence. by eapply Forall_forall in Hf.
Qed.

Lemma map_keys l : (pair_of <$> l).*1 = e_key <$> l.
Proof. induction l as [|e l IH]; [done|]. rewrite !fmap_cons. by f_equal. Qed.

Lemma to_map_perm l1 l2 :
  NoDup (e_key <$> l1) -> l1 ≡ₚ l2 ->
  (list_to_map (pair_of <$> l1) : gmap (list Z) V) = list_to_map (pair_of <$> l2).
Proof. intros Hn Hp. apply list_to_map_proper; [by rewrite map_keys|by rewrite Hp]. Qed.

Lemma hash_get_ok ht k : hwf ht -> hash_get ht k = Some (to_map ht !! k).
Proof.
  intros Hw. destruct (find_entry_ok ht k Hw) as (chain & pos & E & Hc & Hpos). unfold hash_get. rewrite E.
  cbn [mbind option_bind]. destruct pos as [j|].
  - destruct Hpos as (e & He & Hk). unfold aread. rewrite He. cbn [mbind option_bind]. f_equal. symmetry.
    apply elem_of_list_to_map_1; [rewrite map_keys; apply Hw|].
    apply list_elem_of_fmap. exists e. split; [by rewrite <- Hk|]. apply in_entries. eexists _, _.
    split; [done|]. by eapply list_elem_of_lookup_2.
  - f_equal. symmetry. apply not_elem_of_list_to_map_1. rewrite map_keys. intros (e & Hk & He)%list_elem_of_fmap.
    eapply Forall_forall in Hpos; [|done]. by apply Hpos.
Qed.

(** ** Growing *)

(** Putting an entry in front of its chain. *)
Lemma placed_insert mx arr i chain chain' :
  placed mx arr -> arr !! i = Some chain ->
  (forall e, e ∈ chain' -> e_hash e = hash_func (e_key e) /\ bucket (e_hash e) mx = i) ->
  placed mx (<[i := chain']> arr).
Proof.
  intros Hp Hi Hc j cj e Hj He. destruct (decide (i = j)) as [<-|].
  - rewrite list_lookup_insert_eq in Hj by (by eapply lookup_lt_Some). simplify_eq. by apply Hc.
  - rewrite list_lookup_insert_ne in Hj by done. by eapply Hp.
Qed.

Lemma move_all_ok mx n l arr :
  0 <= n -> mx = 2 ^ n - 1 -> Z.of_nat (length arr) = mx + 1 -> placed mx arr ->
  Forall (fun e => e_hash e = hash_func (e_key e)) l ->
  exists arr', fold_opt (move_entry mx) arr l = Some arr' /\ Z.of_nat (length arr') = mx + 1 /\
    placed mx arr' /\ concat arr' ≡ₚ l ++ concat arr.
Proof.
  intros Hn Hm Hl Hp Hf. revert arr Hl Hp. induction Hf as [|e l He _ IH]; intros arr Hl Hp; [by exists arr|].
  cbn [fold_opt]. set (i := bucket (e_hash e) mx).
  assert (i < length arr)%nat as Hi.
  { pose proof (Hrange (e_key e)). pose proof (bucket_lt (e_hash e) mx n ltac:(rewrite He; lia) Hn Hm). lia. }
  destruct (lookup_lt_is_Some_2 arr i Hi) as [chain Hc].
  assert (move_entry mx arr e = Some (<[i := e :: chain]> arr)) as ->.
  { unfold move_entry, aread. fold i. rewrite Hc. cbn [mbind option_bind]. by apply awrite_ok. }
  cbn [mbind option_bind].
  destruct (concat_slot _ _ _ Hc) as (rest & Hp1 & Hp2).
  destruct (IH (<[i := e :: chain]> arr)) as (arr' & -> & Hl' & Hp' & Hperm).
  - by rewrite length_insert.
  - eapply placed_insert; [done|done|]. intros e' [->|He']%elem_of_cons; [done|]. by eapply Hp.
  - exists arr'. split; [done|]. split; [done|]. split; [done|]. rewrite Hperm, (Hp2 (e :: chain)), Hp1.
    simpl. by rewrite <- Permutation_middle.
Qed.

Lemma placed_empty mx k : placed mx (replicate k []).
Proof. intros i chain e Hi He. apply lookup_replicate in Hi as [-> _]. by apply not_elem_of_nil in He. Qed.

Lemma concat_replicate_nil {A} k : concat (replicate k ([] : list A)) = [].
Proof. by induction k. Qed.

Lemma entries_hashed ht : hwf ht -> Forall (fun e => e_hash e = hash_func (e_key e)) (entries ht).
Proof.
  intros Hw. apply Forall_forall. intros e (i & chain & Hi & He)%in_entries. by apply (wf_placed _ Hw _ _ _ Hi He).
Qed.

(** Growing keeps the entries. *)
Lemma expand_array_ok ht :
  hwf ht -> max ht < 2 ^ 31 - 1 ->
  exists ht', expand_array ht = Some ht' /\ hwf ht' /\ entries ht' ≡ₚ entries ht /\ count ht' = count ht.
Proof.
  intros Hw Hlt. pose proof Hw as [[n [Hn Hm]] Hl Hp Hk Hc]. unfold expand_array.
  assert (2 ^ (n + 1) = 2 * 2 ^ n) as Hpow by (rewrite Z.pow_add_r by lia; lia).
  assert (n < 31) as Hn31.
  { destruct (decide (n < 31)); [done|]. assert (2 ^ 31 <= 2 ^ n) by (apply Z.pow_le_mono_r; lia). lia. }
  assert (2 ^ n <= 2 ^ 30) by (apply Z.pow_le_mono_r; lia).
  rewrite (wrap_small 32) by lia. rewrite hash_each_ok by done. set (mx := max ht * 2 + 1).
  assert (mx = 2 ^ (n + 1) - 1) as Hmx by lia.
  destruct (move_all_ok mx (n + 1) (entries ht) (alloc_array mx)) as (arr' & -> & Hl' & Hp' & Hperm); [lia|done| | |by apply entries_hashed|].
  { unfold alloc_array. rewrite length_replicate. lia. }
  { apply placed_empty. }
  cbn [mbind option_bind]. unfold alloc_array in Hperm. rewrite concat_replicate_nil, app_nil_r in Hperm.
  eexists. split; [done|]. split; [|done]. split; cbn [max array count].
  - exists (n + 1). lia.
  - done.
  - done.
  - unfold entries. cbn [array]. by rewrite Hperm.
  - unfold entries in *. cbn [array]. by rewrite Hperm.
Qed.

(** Growing when the load is too high. *)
Lemma check_expand_ok ht :
  hwf ht -> max ht < 2 ^ 31 - 1 ->
  exists ht', check_expand ht = Some ht' /\ hwf ht' /\ to_map ht' = to_map ht /\ count ht' = count ht.
Proof.
  intros Hw Hlt. unfold check_expand. destruct (count ht >? max ht); [|by exists ht].
  destruct (expand_array_ok ht Hw Hlt) as (ht' & -> & Hw' & Hp & Hc). exists ht'. split; [done|]. split; [done|].
  split; [|done]. apply to_map_perm; [apply Hw'|done].
Qed.

(** Replacing one chain: the entries that change and the others. *)
Lemma chain_update ht i chain chain' cnt fr :
  hwf ht -> array ht !! i = Some chain ->
  (forall e, e ∈ chain' -> e_hash e = hash_func (e_key e) /\ bucket (e_hash e) (max ht) = i) ->
  exists rest, entries ht ≡ₚ chain ++ rest /\
    let ht' := Hash (<[i := chain']> (array ht)) cnt (max ht) fr in
    entries ht' ≡ₚ chain' ++ rest /\
    (NoDup (e_key <$> chain' ++ rest) -> cnt = Z.of_nat (length (chain' ++ rest)) -> hwf ht').
Proof.
  intros Hw Hi Hc. destruct (concat_slot _ _ _ Hi) as (rest & Hp1 & Hp2). exists rest.
  split; [done|]. cbv zeta. unfold entries. cbn [array]. split; [apply Hp2|]. intros Hn Hcnt.
  destruct Hw as [Hm Hl Hp _ _]. split; cbn [max array count]; [done|by rewrite length_insert| | |].
  - by eapply placed_insert.
  - unfold entries. cbn [array]. by rewrite Hp2.
  - unfold entries. cbn [array]. by rewrite Hp2.
Qed.

(** The entry [e] on the chain [i] and the chain without it. *)
Lemma on_chain ht i chain j e :
  hwf ht -> array ht !! i = Some chain -> chain !! j = Some e ->
  (e_hash e = hash_func (e_key e) /\ bucket (e_hash e) (max ht) = i) /\ chain ≡ₚ e :: delete j chain /\
  forall x, x ∈ delete j chain -> e_hash x = hash_func (e_key x) /\ bucket (e_hash x) (max ht) = i.
Proof.
  intros Hw Hc He. pose proof (delete_Permutation _ _ _ He) as Hdel. split; [|split; [exact Hdel|]].
  - apply (wf_placed _ Hw _ _ _ Hc). by eapply list_elem_of_lookup_2.
  - intros x Hx. apply (wf_placed _ Hw _ _ _ Hc). rewrite Hdel. by right.
Qed.

(** The value of an entry replaced. *)
Lemma replace_ok ht i chain j e v :
  hwf ht -> max ht < 2 ^ 31 - 1 -> array ht !! i = Some chain -> chain !! j = Some e ->
  exists ht', check_expand (Hash (<[i := <[j := Entry (e_hash e) (e_key e) v]> chain]> (array ht)) (count ht) (max ht) (free ht))
      = Some ht' /\ hwf ht' /\ to_map ht' = <[e_key e := v]> (to_map ht).
Proof.
  intros Hw Hmax Hc He. destruct (on_chain _ _ _ _ _ Hw Hc He) as (He1 & Hdel & Hrest).
  pose proof (wf_count _ Hw) as Hcount. pose proof (wf_keys _ Hw) as Hkeys.
  set (D := delete j chain) in *. clearbody D. set (e' := Entry (e_hash e) (e_key e) v).
  assert (<[j := e']> chain ≡ₚ e' :: D) as Hins.
  { apply (Permutation_cons_inv (a := e)). rewrite (insert_Permutation _ _ _ _ He), Hdel. apply Permutation_swap. }
  destruct (chain_update ht i chain (<[j := e']> chain) (count ht) (free ht) Hw Hc) as (rest & Hp1 & Hp2 & Hw').
  { intros x Hx. rewrite Hins in Hx. apply elem_of_cons in Hx as [->|Hx]; [done|by apply Hrest]. }
  assert (NoDup (e_key <$> <[j := e']> chain ++ rest)) as Hn.
  { rewrite Hins. rewrite Hp1, Hdel in Hkeys. exact Hkeys. }
  specialize (Hw' Hn). rewrite length_app, length_insert, <- length_app, <- Hp1 in Hw'. specialize (Hw' Hcount).
  destruct (check_expand_ok _ Hw' Hmax) as (ht' & -> & Hw2 & Hmap & _). exists ht'. split; [done|]. split; [done|].
  rewrite Hmap. unfold to_map at 1. rewrite (to_map_perm _ _ (wf_keys _ Hw') Hp2).
  rewrite (to_map_perm _ (e' :: D ++ rest)); [|done|by rewrite Hins].
  unfold to_map. rewrite (to_map_perm (entries ht) (e :: D ++ rest)); [|done|by rewrite Hp1, Hdel].
  cbn. by rewrite insert_insert_eq.
Qed.

(** An entry taken off its chain. *)
Lemma unlink_ok ht i chain j e :
  hwf ht -> count ht < 2 ^ 32 - 1 -> array ht !! i = Some chain -> chain !! j = Some e ->
  let ht' := Hash (<[i := delete j chain]> (array ht)) (u32 (count ht - 1)) (max ht) (e :: free ht) in
  hwf ht' /\ to_map ht' = delete (e_key e) (to_map ht).
Proof.
  intros Hw Hcnt Hc He. destruct (on_chain _ _ _ _ _ Hw Hc He) as (He1 & Hdel & Hrest).
  pose proof (wf_count _ Hw) as Hcount. pose proof (wf_keys _ Hw) as Hkeys. set (D := delete j chain) in *. clearbody D.
  destruct (chain_update ht i chain D (u32 (count ht - 1)) (e :: free ht) Hw Hc Hrest) as (rest & Hp1 & Hp2 & Hw').
  assert (NoDup (e_key <$> e :: D ++ rest)) as Hn.
  { rewrite Hp1, Hdel in Hkeys. exact Hkeys. }
  pose proof Hn as [Hnk Hn']%NoDup_cons. cbv zeta. split.
  - apply Hw'; [done|]. rewrite Hp1, Hdel in Hcount. cbn [app length] in Hcount. rewrite wrap_small; lia.
  - unfold to_map. rewrite (to_map_perm (entries (Hash _ _ _ _)) (D ++ rest)); [|by rewrite Hp2|done].
    rewrite (to_map_perm (entries ht) (e :: D ++ rest)); [|done|by rewrite Hp1, Hdel].
    cbn. rewrite delete_insert_id; [done|]. apply not_elem_of_list_to_map_1. rewrite map_keys. exact Hnk.
Qed.

(** A new entry at the end of its chain. *)
Lemma append_entry_ok ht chain k v :
  hwf ht -> max ht < 2 ^ 31 - 1 -> count ht < 2 ^ 32 - 1 ->
  array ht !! bucket (hash_func k) (max ht) = Some chain -> Forall (fun e => e_key e <> k) (entries ht) ->
  exists ht', (ht ← add_entry ht (bucket (hash_func k) (max ht)) chain k v; check_expand ht) = Some ht' /\
    hwf ht' /\ to_map ht' = <[k := v]> (to_map ht).
Proof.
  intros Hw Hmax Hcnt Hc Hnew. pose proof (wf_count _ Hw) as Hcount. pose proof (wf_keys _ Hw) as Hkeys.
  set (i := bucket _ _) in *. unfold add_entry. rewrite awrite_ok by (by eapply lookup_lt_Some). cbn [mbind option_bind].
  set (e' := Entry (hash_func k) k v).
  destruct (chain_update ht i chain (chain ++ [e']) (u32 (count ht + 1)) (tail (free ht)) Hw Hc) as (rest & Hp1 & Hp2 & Hw').
  { intros x [Hx| ->%list_elem_of_singleton]%elem_of_app; [by apply (wf_placed _ Hw _ _ _ Hc)|done]. }
  assert ((chain ++ [e']) ++ rest ≡ₚ e' :: chain ++ rest) as Hperm.
  { rewrite <- app_assoc. symmetry. apply Permutation_middle. }
  assert (NoDup (e_key <$> (chain ++ [e']) ++ rest)) as Hn.
  { rewrite Hperm, <- Hp1, fmap_cons. constructor; [|done]. intros (x & Hxk & Hx)%list_elem_of_fmap.
    eapply Forall_forall in Hnew; [|done]. by apply Hnew. }
  assert (u32 (count ht + 1) = Z.of_nat (length ((chain ++ [e']) ++ rest))) as Hcnt'.
  { rewrite Hperm, <- Hp1. cbn [length]. rewrite Hcount in *. rewrite wrap_small; lia. }
  specialize (Hw' Hn Hcnt'). destruct (check_expand_ok _ Hw' Hmax) as (ht' & -> & Hw2 & Hmap & _).
  exists ht'. split; [done|]. split; [done|]. rewrite Hmap. unfold to_map at 1.
  rewrite (to_map_perm _ _ (wf_keys _ Hw') Hp2), (to_map_perm _ _ Hn Hperm).
  unfold to_map. rewrite (to_map_perm (entries ht) (chain ++ rest)) by done. done.
Qed.

Lemma hash_set_ok ht k v :
  hwf ht -> max ht < 2 ^ 31 - 1 -> count ht < 2 ^ 32 - 1 ->
  exists ht', hash_set ht k v = Some ht' /\ hwf ht' /\
    to_map ht' = match v with Some v => <[k := v]> (to_map ht) | None => delete k (to_map ht) end.
Proof.
  intros Hw Hmax Hcnt. destruct (find_entry_ok ht k Hw) as (chain & pos & E & Hc & Hpos).
  unfold hash_set. rewrite E. cbn [mbind option_bind]. pose proof (lookup_lt_Some _ _ _ Hc) as Hlt.
  destruct pos as [j|].
  - destruct Hpos as (e & He & <-). unfold aread. rewrite He. destruct v as [v|]; cbn [mbind option_bind].
    + rewrite awrite_ok by (by eapply lookup_lt_Some). cbn [mbind option_bind]. rewrite awrite_ok by done. cbn [mbind option_bind].
      by apply replace_ok.
    + rewrite awrite_ok by done. cbn [mbind option_bind]. eexists. split; [done|]. by apply unlink_ok.
  - destruct v as [v|]; [by apply append_entry_ok|]. exists ht. split; [done|]. split; [done|]. rewrite delete_id; [done|].
    apply not_elem_of_list_to_map_1. rewrite map_keys. intros (e & Hk & He)%list_elem_of_fmap.
    eapply Forall_forall in Hpos; [|done]. by apply Hpos.
Qed.

(** The bound on the growth. *)
Lemma check_expand_max ht ht' :
  0 <= max ht -> check_expand ht = Some ht' -> max ht' <= Z.max (max ht) (2 * count ht) /\ count ht' = count ht.
Proof.
  intros Hm. unfold check_expand. destruct (count ht >? max ht) eqn:E; [|intros [= <-]; lia].
  unfold expand_array. intros H. inv_bind H. simplify_eq. cbn [max count].
  pose proof (Z.mod_le (max ht * 2 + 1) (2 ^ 32) ltac:(lia) ltac:(lia)). unfold wrap. lia.
Qed.

Lemma hash_set_max ht k v ht' :
  hwf ht -> count ht < 2 ^ 32 - 1 -> hash_set ht k v = Some ht' -> max ht' <= Z.max (max ht) (2 * (count ht + 1)).
Proof.
  intros Hw Hc H. assert (0 <= max ht) as Hm.
  { destruct (wf_max _ Hw) as (n & ? & ->). pose proof (Z.pow_pos_nonneg 2 n). lia. }
 
  pose proof (wf_count _ Hw) as Hcnt. unfold hash_set in H. inv_bind H. destruct x as [[i chain] [j|]], v as [v|].
  - inv_bind H. inv_bind H. inv_bind H. apply check_expand_max in H; cbn [max count] in *; lia.
  - inv_bind H. inv_bind H. simplify_eq. cbn [max]. lia.
  - inv_bind H. unfold add_entry in *. destruct (awrite _ _ _); [|done]. cbn [mbind option_bind] in *. simplify_eq.
    apply check_expand_max in H; cbn [max count] in *; [|done]. rewrite wrap_small in H by lia. lia.
  - simplify_eq. lia.
Qed.

Lemma count_size ht : hwf ht -> hash_count ht = Z.of_nat (size (to_map ht)).
Proof.
  intros Hw. unfold hash_count, to_map. rewrite (wf_count _ Hw). f_equal.
  rewrite map_size_list_to_map by (rewrite map_keys; apply Hw). by rewrite length_fmap.
Qed.

Lemma fold_opt_collect l acc : fold_opt (fun freed e => Some (freed ++ [e])) acc l = Some (acc ++ l).
Proof.
  revert acc. induction l as [|e l IH]; intros acc; cbn; [by rewrite app_nil_r|]. rewrite IH. by rewrite <- app_assoc.
Qed.

Lemma hash_make_wf : hwf hash_make.
Proof.
  split; cbn; [exists 4; split; [lia|done]|done|apply (placed_empty 15 16)|constructor|done].
Qed.

(** ** A run of insertions, replacements and deletions *)

Fixpoint set_all (ht : hash_t) (ops : list (list Z * option V)) : option hash_t :=
  match ops with [] => Some ht | (k, v) :: ops => ht ← hash_set ht k v; set_all ht ops end.

Definition map_set (m : gmap (list Z) V) (op : list Z * option V) : gmap (list Z) V :=
  match op.2 with Some v => <[op.1 := v]> m | None => delete op.1 m end.

Lemma set_all_ok ops ht n :
  hwf ht -> count ht <= n -> max ht <= 2 * n + 15 -> n + Z.of_nat (length ops) < 2 ^ 29 ->
  exists ht', set_all ht ops = Some ht' /\ hwf ht' /\ to_map ht' = foldl map_set (to_map ht) ops.
Proof.
  revert ht n. induction ops as [|[k v] ops IH]; intros ht n Hw Hc Hm Hn; [by exists ht|].
  cbn [set_all foldl length] in *.
  destruct (hash_set_ok ht k v Hw) as (ht1 & E & Hw1 & Hmap); [lia|lia|]. pose proof (hash_set_max _ _ _ _ Hw ltac:(lia) E).
  rewrite E. cbn [mbind option_bind].
  assert (count ht1 <= n + 1) as Hc1.
  { pose proof (count_size _ Hw1) as H1. pose proof (count_size _ Hw) as H2. unfold hash_count in *. rewrite H1, Hmap.
    destruct v as [v|]; [rewrite map_size_insert|rewrite map_size_delete]; destruct (to_map ht !! k); cbn; lia. }
  destruct (IH ht1 (n + 1)) as (ht' & -> & Hw' & Hm'); [done|lia|lia|lia|]. exists ht'. split; [done|]. split; [done|].
  rewrite Hm', Hmap. unfold map_set. by destruct v.
Qed.

(** ** Clearing *)

Lemma hash_set_delete_head ht j e rest :
  hwf ht -> array ht !! j = Some (e :: rest) ->
  hash_set ht (e_key e) None =
    Some (Hash (<[j := rest]> (array ht)) (u32 (count ht - 1)) (max ht) (e :: free ht)).
Proof.
  intros Hw Hj. destruct (wf_placed _ Hw _ _ e Hj ltac:(by left)) as [Hh Hb].
  unfold hash_set, find_entry. rewrite <- Hh, Hb. unfold aread. rewrite Hj. cbn [mbind option_bind find_pos].
  rewrite Z.eqb_refl, bool_decide_true by done. cbn [andb mbind option_bind lookup list_lookup].
  rewrite awrite_ok by (by eapply lookup_lt_Some). done.
Qed.

(** The cursor stands on the first entry left in the table. *)
Definition at_front (ht : hash_t) (cur : option hash_index) : Prop :=
  entries ht = ahead ht cur /\
  match cur with
  | None => True
  | Some hi => exists j, S j = index hi /\ array ht !! j = Some (this hi :: next hi)
  end.

Lemma at_front_next ht nx i j :
  Z.of_nat (length (array ht)) = max ht + 1 -> S j = i -> array ht !! j = Some nx ->
  entries ht = nx ++ concat (drop i (array ht)) ->
  exists cur, hash_next_from ht nx i = Some cur /\ at_front ht cur.
Proof.
  intros Hl Hi Hj He. pose proof (lookup_lt_Some _ _ _ Hj). unfold hash_next_from. destruct nx as [|e rest].
  - destruct (seek_ok ht i (S (length (array ht))) Hl ltac:(lia) ltac:(lia)) as (cur & E & Ha & Hcur).
    exists cur. split; [done|]. split; [by rewrite Ha|]. destruct cur as [hi|]; [|done].
    destruct (Hcur hi eq_refl) as (_ & j' & _ & ? & ?). by exists j'.
  - eexists. split; [done|]. split; [done|]. by exists j.
Qed.

Lemma clear_loop_ok fuel ht cur :
  hwf ht -> max ht < 2 ^ 31 - 1 -> count ht < 2 ^ 32 - 1 -> at_front ht cur -> (length (entries ht) < fuel)%nat ->
  exists ht', clear_loop fuel ht cur = Some ht' /\ hwf ht' /\ entries ht' = [] /\
    free ht' = reverse (entries ht) ++ free ht.
Proof.
  revert ht cur. induction fuel as [|fuel IH]; intros ht cur Hw Hm Hc [He Hf] Hlen; [lia|]. cbn [clear_loop].
  destruct cur as [hi|]; [|exists ht; by rewrite He]. destruct Hf as (j & Hj & Ha).
  pose proof (hash_set_delete_head ht j _ _ Hw Ha) as E. pose proof (lookup_lt_Some _ _ _ Ha) as Hlt.
  destruct (hash_set_ok ht (e_key (this hi)) None Hw Hm Hc) as (ht1 & E1 & Hw1 & _). rewrite E in E1.
  injection E1 as E1. rewrite E. cbn [mbind option_bind]. rewrite E1.
  assert (array ht1 = <[j := next hi]> (array ht)) as Harr by (by rewrite <- E1).
  assert (concat (take j (array ht)) = []) as Htake.
  { cbn [ahead] in He. unfold entries in He. rewrite <- (take_drop_middle _ _ _ Ha), concat_app in He at 1.
    cbn [concat] in He. rewrite Hj in He. apply (f_equal length) in He. rewrite !length_app in He. cbn in He.
    rewrite !length_app in He. apply length_zero_iff_nil. lia. }
  assert (entries ht1 = next hi ++ concat (drop (index hi) (array ht1))) as He1.
  { unfold entries. rewrite Harr, drop_insert_lt, <- Hj by lia.
    by rewrite insert_take_drop, concat_app, Htake by done. }
  destruct (at_front_next ht1 (next hi) (index hi) j) as (cur & E2 & Hcur); [apply Hw1|done| |done|].
  { rewrite Harr. by apply list_lookup_insert_eq. }
  unfold hash_next. rewrite E2. cbn [mbind option_bind].
  assert (entries ht = this hi :: entries ht1) as Hent.
  { rewrite He, He1. cbn [ahead]. rewrite Harr, drop_insert_lt by lia. done. }
  assert (max ht1 = max ht /\ count ht1 = u32 (count ht - 1) /\ free ht1 = this hi :: free ht) as (Hm1 & Hc1 & Hf1) by (by rewrite <- E1).
  destruct (IH ht1 cur) as (ht' & -> & Hw' & Hnil & Hfree); [done|lia| |done| |].
  { rewrite Hc1. rewrite (wf_count _ Hw), Hent in *. cbn [length] in *. rewrite wrap_small; lia. }
  { rewrite Hent in Hlen. cbn [length] in Hlen. lia. }
  exists ht'. split; [done|]. split; [done|]. split; [done|]. rewrite Hfree, Hf1, Hent.
  rewrite reverse_cons, <- app_assoc. done.
Qed.

Lemma hash_clear_ok ht :
  hwf ht -> max ht < 2 ^ 31 - 1 -> count ht < 2 ^ 32 - 1 ->
  exists ht', hash_clear ht = Some ht' /\ hwf ht' /\ entries ht' = [] /\
    free ht' = reverse (entries ht) ++ free ht.
Proof.
  intros Hw Hm Hc. unfold hash_clear, hash_first, hash_next_from.
  destruct (seek_ok ht 0 (S (length (array ht))) (wf_len _ Hw) ltac:(lia) ltac:(lia)) as (cur & -> & Ha & Hcur).
  cbn [mbind option_bind]. apply clear_loop_ok; [done|done|done| |unfold entries; lia].
  split; [by rewrite Ha|]. destruct cur as [hi|]; [|done]. destruct (Hcur hi eq_refl) as (_ & j & _ & ? & ?). by exists j.
Qed.

(** ** [hash_do] *)

(** The callback on the entries in turn, up to the first negative result. *)
Fixpoint do_entries {S} (comp : S -> entry -> S * Z) (s : S) (rv : Z) (l : list entry) : S * Z :=
  match l with
  | [] => (s, rv)
  | e :: l => let '(s, rv) := comp s e in if rv >=? 0 then do_entries comp s rv l else (s, rv)
  end.

Lemma do_loop_ok {S} ht (comp : S -> entry -> S * Z) fuel hi s rv :
  Z.of_nat (length (array ht)) = max ht + 1 -> (index hi <= length (array ht))%nat ->
  (length (ahead ht (Some hi)) <= fuel)%nat ->
  do_loop fuel ht comp hi s = Some (do_entries comp s rv (ahead ht (Some hi))).
Proof.
  intros Hl. revert hi s rv. induction fuel as [|fuel IH]; intros hi s rv Hi Hf; [cbn in Hf; lia|].
  cbn [do_loop ahead do_entries]. destruct (comp s (this hi)) as [s1 rv1]. destruct (rv1 >=? 0); [|done].
  unfold hash_next. destruct (hash_next_from_ok ht (next hi) (index hi) Hl Hi) as (cur & -> & Ha & Hi').
  cbn [mbind option_bind]. rewrite <- Ha. destruct cur as [hi'|]; [|done].
  apply IH; [by apply Hi'|]. rewrite Ha. cbn [ahead length] in Hf. lia.
Qed.

Lemma hash_do_ok {S} ht (comp : S -> entry -> S * Z) s :
  Z.of_nat (length (array ht)) = max ht + 1 ->
  hash_do comp s ht =
    let '(s, rv) := do_entries comp s 1 (entries ht) in Some (s, if rv =? 0 then 0 else 1).
Proof.
  intros Hl. unfold hash_do, hash_first.
  destruct (hash_next_from_ok ht [] 0 Hl ltac:(lia)) as (cur & -> & Ha & Hi). cbn [mbind option_bind].
  rewrite drop_0 in Ha. simpl in Ha. unfold entries. rewrite <- Ha. destruct cur as [hi|]; [|done].
  rewrite (do_loop_ok _ _ _ _ _ 1); [|done|by apply Hi|by rewrite Ha]. cbn [mbind option_bind].
  by destruct (do_entries _ _ _ _).
Qed.
End Table.

Arguments entry : clear implicits.
Arguments hash_t : clear implicits.

(** ** The default hash *)

Definition hashfunc_default (key : list Z) : Z := foldl (fun h c => u32 (u32 (h * 33) + c)) 0 key.

Lemma hashfunc_default_range : hash_range hashfunc_default.
Proof.
  intros key. unfold hashfunc_default. destruct key as [|c key] using rev_ind; [done|].
  rewrite foldl_snoc. apply Z.mod_pos_bound. done.
Qed.

(** ** The properties *)

(** C36: After any run of fewer than 2^29 insertions, replacements and deletions
    on a fresh table, whatever the hash function, the table (which has grown on
    the way) answers every lookup as the finite map of the run does, and its
    count is the number of keys bound. *)
Theorem hash_table_refines {V} (hash_func : list Z -> Z) (ops : list (list Z * option V)) :
  hash_range hash_func -> Z.of_nat (length ops) < 2 ^ 29 ->
  exists ht, set_all hash_func hash_make ops = Some ht /\
    (forall k, hash_get hash_func ht k = Some (foldl map_set ∅ ops !! k)) /\
    hash_count ht = Z.of_nat (size (foldl map_set ∅ ops)).
Proof.
  intros Hr Hl. destruct (set_all_ok hash_func Hr ops hash_make 0) as (ht & E & Hw & Hm); [|done|done|lia|].
  { apply hash_make_wf. }
  assert (to_map ht = foldl map_set ∅ ops) as <- by done. exists ht. split; [done|].
  split; [|by apply (count_size hash_func)]. intros k. by apply hash_get_ok.
Qed.

Definition sample_ops : list (list Z * option Z) :=
  ((fun n => ([Z.of_nat n; 7], Some (Z.of_nat n))) <$> seq 0 20) ++ [([3; 7], None); ([4; 7], Some 99)].

Lemma hash_table_refines_witness :
  exists ht, set_all hashfunc_default hash_make sample_ops = Some ht /\
    (forall k, hash_get hashfunc_default ht k = Some (foldl map_set ∅ sample_ops !! k)) /\
    hash_count ht = Z.of_nat (size (foldl map_set ∅ sample_ops)).
Proof. apply hash_table_refines; [apply hashfunc_default_range|vm_compute; reflexivity]. Defined.

(** The sample run makes the table grow. *)
Example sample_grows : max <$> set_all hashfunc_default hash_make sample_ops = Some 31.
Proof. vm_compute. reflexivity. Qed.

(** In a well-formed table an iteration visits every binding exactly once:
    [hash_do] is the callback over the bindings up to its first negative
    result, [hash_destroy] frees every entry of the table and of the free list
    once, and [hash_clear], which deletes the entries under its own iterator,
    leaves an empty table with every entry on the free list. *)
Theorem hash_iteration_complete {V S} (hash_func : list Z -> Z) (ht : hash_t V)
    (comp : S -> entry V -> S * Z) (s : S) :
  hash_range hash_func -> hwf hash_func ht -> max ht < 2 ^ 31 - 1 -> count ht < 2 ^ 32 - 1 ->
  pair_of <$> entries ht ≡ₚ map_to_list (to_map ht) /\
  hash_do comp s ht =
    (let '(s, rv) := do_entries comp s 1 (entries ht) in Some (s, if rv =? 0 then 0 else 1)) /\
  hash_destroy ht = Some (entries ht ++ free ht) /\
  exists ht', hash_clear hash_func ht = Some ht' /\ hwf hash_func ht' /\ to_map ht' = ∅ /\ hash_count ht' = 0 /\
    free ht' = reverse (entries ht) ++ free ht.
Proof.
  intros Hr Hw Hm Hc. pose proof (wf_len _ _ Hw) as Hl. split; [|split; [|split]].
  - unfold to_map. rewrite map_to_list_to_map; [done|]. rewrite map_keys. apply Hw.
  - by apply hash_do_ok.
  - unfold hash_destroy. rewrite hash_each_ok by done. by rewrite fold_opt_collect.
  - destruct (hash_clear_ok _ Hr _ Hw Hm Hc) as (ht' & E & Hw' & Hn & Hf). exists ht'.
    split; [done|]. split; [done|]. unfold to_map, hash_count. rewrite (wf_count _ _ Hw'), Hn. done.
Qed.

Lemma hash_iteration_complete_witness :
  exists ht, set_all hashfunc_default hash_make sample_ops = Some ht /\
    exists ht', hash_clear hashfunc_default ht = Some ht' /\ hash_count ht' = 0.
Proof.
  destruct (set_all_ok hashfunc_default hashfunc_default_range sample_ops hash_make 0) as (ht & E & Hw & _);
    [apply hash_make_wf|done|done|vm_compute; reflexivity|].
  exists ht. split; [exact E|].
  assert (max ht = 31 /\ count ht = 19) as [Hm Hc].
  { pose proof (f_equal (fmap (fun t => (max t, count t))) E) as H. vm_compute in H. injection H as H1 H2. split; [exact (eq_sym H1)|exact (eq_sym H2)]. }
  destruct (hash_iteration_complete (S := unit) hashfunc_default ht (fun s _ => (s, 0)) tt hashfunc_default_range Hw
    ltac:(lia) ltac:(lia)) as (_ & _ & _ & ht' & H1 & _ & _ & H2 & _).
  exists ht'. split; [exact H1|exact H2].
Defined.
