(* ===== verification/Reslist.v ===== *)
(** The resource list: [common/misc/reslist.c], the pool of connections that
    the database and cache back ends share.

    A ring is the list of its elements from the head.  The constructor and the
    destructor, the clock and the result of a signal are arguments, functions
    of the number of the call; the environment counts the calls, logs the
    resources made and destroyed and holds the threads that wait on [avail].
    Every function here is one critical section under [listlock]; their
    interleavings are the step relation at the end. *)
From S2P Require Import Prelude.
Local Open Scope Z_scope.

Section Reslist.
Context {R : Type}.

Record res := Res { freed : Z; opaque : R }.

Record environment := Env {
  calls : nat;            (* calls of the arguments so far *)
  sleeping : nat;         (* threads in [thread_cond_wait], not signalled *)
  woken : nat;            (* signalled threads that have not run yet *)
  created : list R;
  destroyed : list R
}.

Record reslist_t := Reslist {
  ntotal : Z; nidle : Z; min : Z; smax : Z; hmax : Z; ttl : Z; timeout : Z;
  avail_list : list res; free_list : list res;
  env : environment
}.

Context (constructor : nat -> Z * R) (destructor : nat -> R -> Z).
Context (time_now : nat -> Z) (cond_signal : nat -> Z) (fresh : res).

(** The fields the operations change. *)
Definition put (rl : reslist_t) (nt ni : Z) (av fr : list res) (e : environment) : reslist_t :=
  Reslist nt ni (min rl) (smax rl) (hmax rl) (ttl rl) (timeout rl) av fr e.

Definition tick (e : environment) : environment :=
  Env (S (calls e)) (sleeping e) (woken e) (created e) (destroyed e).

(** [thread_cond_signal]: wakes one thread if one sleeps. *)
Definition signal (e : environment) : Z * environment :=
  let rv := cond_signal (calls e) in
  let e := tick e in
  match sleeping e with
  | S n => if rv =? 0 then (rv, Env (calls e) n (S (woken e)) (created e) (destroyed e)) else (rv, e)
  | O => (rv, e)
  end.

(** [thread_cond_wait]: the calling thread goes to sleep. *)
Definition sleep (e : environment) : environment :=
  Env (calls e) (S (sleeping e)) (woken e) (created e) (destroyed e).

Definition pop_resource (rl : reslist_t) : option (res * reslist_t) :=
  match avail_list rl with
  | [] => None
  | r :: l => Some (r, put rl (ntotal rl) (nidle rl - 1) l (free_list rl) (env rl))
  end.

Definition push_resource (rl : reslist_t) (r : res) : reslist_t :=
  put rl (ntotal rl) (nidle rl + 1) (Res (time_now (calls (env rl))) (opaque r) :: avail_list rl)
    (free_list rl) (tick (env rl)).

Definition get_container (rl : reslist_t) : res * reslist_t :=
  match free_list rl with
  | c :: l => (c, put rl (ntotal rl) (nidle rl) (avail_list rl) l (env rl))
  | [] => (fresh, rl)
  end.

Definition free_container (rl : reslist_t) (c : res) : reslist_t :=
  put rl (ntotal rl) (nidle rl) (avail_list rl) (free_list rl ++ [c]) (env rl).

Definition create_resource (rl : reslist_t) : Z * res * reslist_t :=
  let '(c, rl) := get_container rl in
  let e := env rl in
  let '(rv, r) := constructor (calls e) in
  let e := Env (S (calls e)) (sleeping e) (woken e) (if rv =? 0 then r :: created e else created e) (destroyed e) in
  (rv, Res (freed c) r, put rl (ntotal rl) (nidle rl) (avail_list rl) (free_list rl) e).

Definition run_destructor (rl : reslist_t) (r : R) : Z * reslist_t :=
  let e := env rl in
  (destructor (calls e) r,
   put rl (ntotal rl) (nidle rl) (avail_list rl) (free_list rl)
     (Env (S (calls e)) (sleeping e) (woken e) (created e) (r :: destroyed e))).

Definition destroy_resource (rl : reslist_t) (r : res) : Z * reslist_t := run_destructor rl (opaque r).

Definition add_total (rl : reslist_t) (d : Z) : reslist_t :=
  put rl (ntotal rl + d) (nidle rl) (avail_list rl) (free_list rl) (env rl).

(** ** Clean-up *)

Fixpoint cleanup_loop (fuel : nat) (rl : reslist_t) (rv : Z) : option (Z * reslist_t) :=
  match fuel with
  | O => None
  | S fuel =>
      if nidle rl >? 0 then
        '(r, rl) ← pop_resource rl;
        let '(rv1, rl) := destroy_resource (add_total rl (-1)) r in
        cleanup_loop fuel (free_container rl r) (if rv1 =? 0 then rv else rv1)
      else Some (rv, rl)
  end.

(** [Aborted]: an assertion fails. *)
Inductive cleanup_result := Aborted | Cleaned (rv : Z).

Definition reslist_cleanup (rl : reslist_t) : option (cleanup_result * reslist_t) :=
  '(rv, rl) ← cleanup_loop (S (length (avail_list rl))) rl 0;
  Some (if (nidle rl =? 0) && (ntotal rl =? 0) then Cleaned rv else Aborted, rl).

Definition reslist_destroy (rl : reslist_t) : option (cleanup_result * reslist_t) := reslist_cleanup rl.

(** ** Maintenance *)

(** A loop either leaves the function with a code or goes on. *)
Inductive flow (A : Type) := Leave (rv : Z) (rl : reslist_t) | Go (a : A) (rl : reslist_t).
#[local] Arguments Leave {A}.
#[local] Arguments Go {A}.

Fixpoint create_loop (fuel : nat) (rl : reslist_t) (created_one : bool) : option (flow bool) :=
  match fuel with
  | O => None
  | S fuel =>
      if (nidle rl <? min rl) && (ntotal rl <? hmax rl) then
        let '(rv, r, rl) := create_resource rl in
        if negb (rv =? 0) then Some (Leave rv (free_container rl r))
        else
          let rl := add_total (push_resource rl r) 1 in
          let '(rv, e) := signal (env rl) in
          let rl := put rl (ntotal rl) (nidle rl) (avail_list rl) (free_list rl) e in
          if negb (rv =? 0) then Some (Leave rv rl) else create_loop fuel rl true
      else Some (Go created_one rl)
  end.

(** Taking the last element of a ring. *)
Definition ring_last (l : list res) : option (list res * res) :=
  r ← last l; Some (take (length l - 1) l, r).

Fixpoint expire_loop (fuel : nat) (now : Z) (rl : reslist_t) : option (Z * reslist_t) :=
  match fuel with
  | O => None
  | S fuel =>
      if (nidle rl >? smax rl) && (nidle rl >? 0) then
        '(l, r) ← ring_last (avail_list rl);
        if now - freed r <? ttl rl then Some (0, rl)
        else
          let rl := put rl (ntotal rl - 1) (nidle rl - 1) l (free_list rl) (env rl) in
          let '(rv, rl) := destroy_resource rl r in
          let rl := free_container rl r in
          if negb (rv =? 0) then Some (rv, rl) else expire_loop fuel now rl
      else Some (0, rl)
  end.

Definition reslist_maint (rl : reslist_t) : option (Z * reslist_t) :=
  out ← create_loop (S (Z.to_nat (min rl - nidle rl))) rl false;
  match out with
  | Leave rv rl => Some (rv, rl)
  | Go true rl => Some (0, rl)
  | Go false rl =>
      let now := time_now (calls (env rl)) in
      let rl := put rl (ntotal rl) (nidle rl) (avail_list rl) (free_list rl) (tick (env rl)) in
      expire_loop (S (length (avail_list rl))) now rl
  end.

(** [Rejected]: the arguments are refused; [Failed]: no pool could be made. *)
Inductive create_result := Rejected | Failed (rv : Z) (c : cleanup_result) (rl : reslist_t) | Pool (rl : reslist_t).

Definition reslist_create (e : environment) (min smax hmax ttl : Z) : option create_result :=
  if (min <? 0) || (min >? smax) || (min >? hmax) || (smax >? hmax) || (hmax =? 0) || (ttl <? 0) then Some Rejected
  else
    '(rv, rl) ← reslist_maint (Reslist 0 0 min smax hmax ttl 0 [] [] e);
    if negb (rv =? 0) then '(c, rl) ← reslist_cleanup rl; Some (Failed rv c rl) else Some (Pool rl).

(** ** Acquiring and releasing *)

Inductive acquire_result := Got (r : R) | Fail (rv : Z) | Blocked.

Fixpoint fresh_loop (fuel : nat) (now : Z) (rl : reslist_t) : option (flow () + R * reslist_t) :=
  match fuel with
  | O => None
  | S fuel =>
      if nidle rl >? 0 then
        '(r, rl) ← pop_resource rl;
        if negb (ttl rl =? 0) && (now - freed r >=? ttl rl) then
          let '(rv, rl) := destroy_resource (add_total rl (-1)) r in
          let rl := free_container rl r in
          if negb (rv =? 0) then Some (inl (Leave rv rl)) else fresh_loop fuel now rl
        else Some (inr (opaque r, free_container rl r))
      else Some (inl (Go () rl))
  end.

(** From the second loop on: where a thread continues when it wakes up. *)
Definition reslist_acquire_wait (rl : reslist_t) : option (acquire_result * reslist_t) :=
  if (ntotal rl >=? hmax rl) && (nidle rl <=? 0) then
    Some (Blocked, put rl (ntotal rl) (nidle rl) (avail_list rl) (free_list rl) (sleep (env rl)))
  else if nidle rl >? 0 then
    '(r, rl) ← pop_resource rl;
    Some (Got (opaque r), free_container rl r)
  else
    let '(rv, r, rl) := create_resource rl in
    if rv =? 0 then Some (Got (opaque r), free_container (add_total rl 1) r)
    else Some (Fail rv, free_container rl r).

Definition reslist_acquire (rl : reslist_t) : option (acquire_result * reslist_t) :=
  let now := time_now (calls (env rl)) in
  let rl := put rl (ntotal rl) (nidle rl) (avail_list rl) (free_list rl) (tick (env rl)) in
  out ← fresh_loop (S (length (avail_list rl))) now rl;
  match out with
  | inr (r, rl) => Some (Got r, rl)
  | inl (Leave rv rl) => Some (Fail rv, rl)
  | inl (Go _ rl) => reslist_acquire_wait rl
  end.

(** The first critical section of [reslist_release]. *)
Definition give_back (rl : reslist_t) (r : R) : reslist_t :=
  let '(c, rl) := get_container rl in
  let rl := push_resource rl (Res (freed c) r) in
  put rl (ntotal rl) (nidle rl) (avail_list rl) (free_list rl) (signal (env rl)).2.

Definition reslist_release (rl : reslist_t) (r : R) : option (Z * reslist_t) := reslist_maint (give_back rl r).

Definition reslist_timeout_set (rl : reslist_t) (t : Z) : reslist_t :=
  Reslist (ntotal rl) (nidle rl) (min rl) (smax rl) (hmax rl) (ttl rl) t (avail_list rl) (free_list rl) (env rl).

Definition reslist_acquired_count (rl : reslist_t) : Z := u32 (ntotal rl - nidle rl).

Definition reslist_invalidate (rl : reslist_t) (r : R) : Z * reslist_t :=
  let '(ret, rl) := run_destructor rl r in
  let rl := add_total rl (-1) in
  (ret, put rl (ntotal rl) (nidle rl) (avail_list rl) (free_list rl) (signal (env rl)).2).

(** ** Invariant *)

(** Stamps are those of pushes at later and later calls, the latest in front. *)
Definition stamped (rl : reslist_t) : Prop :=
  exists ts, freed <$> avail_list rl = time_now <$> ts /\ StronglySorted gt ts /\
    Forall (fun t => t < calls (env rl))%nat ts.

(** [acq]: the resources the clients hold. *)
Record pool_inv (rl : reslist_t) (acq : list R) : Prop := {
  i_idle : nidle rl = Z.of_nat (length (avail_list rl));
  i_total : ntotal rl = nidle rl + Z.of_nat (length acq);
  i_max : ntotal rl <= hmax rl;
  i_cfg : 0 <= min rl /\ min rl <= smax rl /\ smax rl <= hmax rl /\ 0 <= ttl rl;
  i_log : created (env rl) ≡ₚ (opaque <$> avail_list rl) ++ acq ++ destroyed (env rl);
  i_stamped : stamped rl
}.

(** What an operation leaves alone, and that it only wakes threads. *)
Record kept (rl rl' : reslist_t) : Prop := {
  k_min : min rl' = min rl; k_smax : smax rl' = smax rl; k_hmax : hmax rl' = hmax rl;
  k_ttl : ttl rl' = ttl rl; k_timeout : timeout rl' = timeout rl;
  k_woken : (woken (env rl) <= woken (env rl'))%nat;
  k_sleeping : (sleeping (env rl') <= sleeping (env rl))%nat
}.

#[global] Instance kept_preorder : PreOrder kept.
Proof.
  split; [by split|]. intros a b c [] []. split; [congruence..|lia|lia].
Qed.

Lemma signal_frame e :
  calls (signal e).2 = S (calls e) /\ created (signal e).2 = created e /\ destroyed (signal e).2 = destroyed e /\
  (woken e <= woken (signal e).2)%nat /\ (sleeping (signal e).2 <= sleeping e)%nat.
Proof.
  unfold signal. cbn [sleeping tick]. destruct (sleeping e) eqn:E; [|destruct (_ =? _)]; cbn; rewrite ?E; auto with lia.
Qed.

(** A signal that succeeds wakes a thread if one sleeps. *)
Lemma signal_wakes e :
  cond_signal (calls e) = 0 -> (0 < sleeping e)%nat -> woken (signal e).2 = S (woken e).
Proof. intros H Hs. unfold signal. cbn [sleeping tick]. destruct (sleeping e); [lia|]. by rewrite H. Qed.

Lemma stamped_push rl rl' r :
  stamped rl -> avail_list rl' = Res (time_now (calls (env rl))) r :: avail_list rl ->
  (calls (env rl) < calls (env rl'))%nat -> stamped rl'.
Proof.
  intros (ts & Hf & Hs & Hl) Ha Hc. exists (calls (env rl) :: ts). rewrite Ha, !fmap_cons, Hf. split; [done|].
  split; [constructor; [done|]|constructor; [lia|]]; (eapply Forall_impl; [done|]; cbn; intros; lia).
Qed.

Lemma stamped_shrink rl rl' n m :
  stamped rl -> avail_list rl' = take n (drop m (avail_list rl)) -> (calls (env rl) <= calls (env rl'))%nat ->
  stamped rl'.
Proof.
  intros (ts & Hf & Hs & Hl) Ha Hc. exists (take n (drop m ts)). rewrite Ha, !fmap_take, !fmap_drop, Hf.
  assert (StronglySorted gt (drop m ts) /\ Forall (fun t => t < calls (env rl'))%nat (drop m ts)) as [H1 H2].
  { split; [|apply Forall_drop; eapply Forall_impl; [done|]; cbn; intros; lia].
    clear -Hs. revert m. induction Hs as [|t ts Hs IH Hf]; intros [|m]; cbn; [constructor..|by constructor|done]. }
  split; [done|]. split; [|by apply Forall_take]. clear -H1. revert n.
  induction H1 as [|t l Hs IH Hf]; intros [|n]; cbn; constructor; [done|]. by apply Forall_take.
Qed.

Lemma stamped_same rl rl' :
  stamped rl -> avail_list rl' = avail_list rl -> (calls (env rl) <= calls (env rl'))%nat -> stamped rl'.
Proof.
  intros Hs Ha Hc. apply (stamped_shrink rl rl' (length (avail_list rl)) 0); [done| |done].
  by rewrite Ha, drop_0, firstn_all.
Qed.

(** Ticks and the container list do not matter. *)
Lemma inv_same rl rl' acq :
  pool_inv rl acq -> nidle rl' = nidle rl -> ntotal rl' = ntotal rl -> avail_list rl' = avail_list rl ->
  kept rl rl' -> created (env rl') = created (env rl) -> destroyed (env rl') = destroyed (env rl) ->
  (calls (env rl) <= calls (env rl'))%nat -> pool_inv rl' acq.
Proof.
  intros [] Hn Ht Ha [] Hc Hd Hcalls.
  split; rewrite ?Hn, ?Ht, ?Ha, ?Hc, ?Hd, ?k_min0, ?k_smax0, ?k_hmax0, ?k_ttl0; try done. by eapply stamped_same.
Qed.

Lemma pop_resource_ok rl acq :
  pool_inv rl acq -> nidle rl > 0 ->
  exists r l, avail_list rl = r :: l /\
    pop_resource rl = Some (r, put rl (ntotal rl) (nidle rl - 1) l (free_list rl) (env rl)).
Proof.
  intros [Hi _ _ _ _ _] Hn. unfold pop_resource. destruct (avail_list rl) as [|r l]; [cbn in Hi; lia|]. by exists r, l.
Qed.

(** Handing the popped resource out. *)
Lemma inv_hand_out rl acq r l fr :
  pool_inv rl acq -> avail_list rl = r :: l ->
  pool_inv (put rl (ntotal rl) (nidle rl - 1) l fr (env rl)) (opaque r :: acq).
Proof.
  intros [Hi Ht Hm Hc Hl Hs] Ha. rewrite Ha in *. cbn [length] in *. split; cbn; [lia|lia|done|done| |].
  - rewrite Hl. rewrite fmap_cons. cbn. by rewrite Permutation_middle.
  - apply (stamped_shrink rl _ (length l) 1); [done|cbn; rewrite Ha; cbn; by rewrite firstn_all|done].
Qed.

(** Destroying an idle resource, wherever it was. *)
Lemma inv_destroy rl acq r l n m fr e :
  pool_inv rl acq -> avail_list rl ≡ₚ r :: l -> l = take n (drop m (avail_list rl)) ->
  created e = created (env rl) -> destroyed e = opaque r :: destroyed (env rl) ->
  (calls (env rl) <= calls e)%nat ->
  pool_inv (put rl (ntotal rl - 1) (nidle rl - 1) l fr e) acq.
Proof.
  intros [Hi Ht Hm Hc Hl Hs] Hp Htd Hce Hde Hcalls. rewrite Hp in Hi. cbn [length] in Hi.
  split; cbn; [lia|lia|lia|done| |].
  - rewrite Hce, Hde, Hl, Hp, fmap_cons. cbn. by rewrite <- !Permutation_middle.
  - by apply (stamped_shrink rl _ n m).
Qed.

Lemma get_container_same rl :
  (get_container rl).2 = put rl (ntotal rl) (nidle rl) (avail_list rl) (free_list (get_container rl).2) (env rl).
Proof. unfold get_container. destruct (free_list rl) eqn:E; [|done]. cbn. by destruct rl. Qed.

(** [create_resource]: a container with the resource of this call. *)
Lemma create_resource_ok rl :
  let t := calls (env rl) in
  exists c fr, create_resource rl =
    ((constructor t).1, Res c (constructor t).2,
     put rl (ntotal rl) (nidle rl) (avail_list rl) fr
       (Env (S t) (sleeping (env rl)) (woken (env rl))
          (if (constructor t).1 =? 0 then (constructor t).2 :: created (env rl) else created (env rl))
          (destroyed (env rl)))).
Proof.
  unfold create_resource. pose proof (get_container_same rl) as H. destruct (get_container rl) as [c rl1].
  cbn [snd] in H. exists (freed c), (free_list rl1). rewrite H. cbn. by destruct (constructor _).
Qed.

(** ** Maintenance *)

Lemma kept_put rl nt ni av fr e :
  (woken (env rl) <= woken e)%nat -> (sleeping e <= sleeping (env rl))%nat -> kept rl (put rl nt ni av fr e).
Proof. by split. Qed.

(** A resource made and pushed. *)
Lemma inv_create rl acq fr r e :
  pool_inv rl acq -> ntotal rl < hmax rl -> (S (calls (env rl)) < calls e)%nat ->
  created e = r :: created (env rl) -> destroyed e = destroyed (env rl) ->
  pool_inv (put rl (ntotal rl + 1) (nidle rl + 1) (Res (time_now (S (calls (env rl)))) r :: avail_list rl) fr e) acq.
Proof.
  intros [Hi Ht Hm Hc Hl Hs] Hlt Hcalls Hce Hde. split; cbn; [lia|lia|lia|done|by rewrite Hce, Hde, Hl|].
  apply (stamped_push (put rl (ntotal rl) (nidle rl) (avail_list rl) fr
    (Env (S (calls (env rl))) 0 0 [] [])) _ r); [|done|done].
  eapply stamped_same; [done|done|cbn; lia].
Qed.

Lemma create_loop_ok fuel rl acq b :
  pool_inv rl acq -> (Z.to_nat (min rl - nidle rl) < fuel)%nat ->
  exists out, create_loop fuel rl b = Some out /\
    match out with
    | Leave rv rl' => rv <> 0 /\ pool_inv rl' acq /\ kept rl rl'
    | Go b' rl' => pool_inv rl' acq /\ kept rl rl' /\ (min rl <= nidle rl' \/ hmax rl <= ntotal rl') /\
        (b' = false -> rl' = rl /\ b = false)
    end.
Proof.
  revert rl b. induction fuel as [|fuel IH]; intros rl b Hinv Hf; [lia|]. cbn [create_loop].
  destruct ((nidle rl <? min rl) && (ntotal rl <? hmax rl)) eqn:E.
  2: { eexists. split; [done|]. split; [done|]. split; [done|]. split; [|done].
       apply andb_false_iff in E as [E|E]; lia. }
  apply andb_true_iff in E as [E1 E2]. apply Z.ltb_lt in E1, E2.
  destruct (create_resource_ok rl) as (c & fr & ->). destruct (constructor (calls (env rl))) as [rv r] eqn:Ec.
  cbn [fst snd]. destruct (rv =? 0) eqn:Erv; cbn [negb].
  2: { eexists. split; [done|]. split; [lia|]. split; [|by split].
       eapply inv_same; [done|done|done|done|by split|done|done|cbn; lia]. }
  cbn. destruct (signal _) as [srv e] eqn:Es. match type of Es with signal ?e0 = _ => pose proof (signal_frame e0) as Hsig end.
  rewrite Es in Hsig. cbn in Hsig. destruct Hsig as (Hs1 & Hs2 & Hs3 & Hs4 & Hs5).
  match goal with |- context [put ?a ?b ?c ?d ?f e] => set (rl1 := put a b c d f e) end.
  assert (pool_inv rl1 acq) as Hinv1 by (apply (inv_create rl acq fr r e); [done|done|lia|done|done]).
  assert (kept rl rl1) as Hk by (by split).
  destruct (srv =? 0) eqn:E0; cbn [negb]; [|eexists; split; [done|]; split; [lia|done]].
  destruct (IH rl1 true Hinv1) as (out & -> & Hout); [cbn; lia|]. exists out. split; [done|].
  destruct out as [rv' rl'|b' rl']; [by destruct Hout as (? & ? & ?); split_and!; [..|transitivity rl1]|].
  destruct Hout as (? & Hk' & Hor & Hb). split; [done|]. split; [by transitivity rl1|]. split; [done|].
  intros ->. by destruct (Hb eq_refl).
Qed.

Lemma ring_last_ok (l : list res) : l <> [] -> exists l' r, ring_last l = Some (l', r) /\ l = l' ++ [r].
Proof.
  destruct l as [|r l _] using rev_ind; [done|]. intros _. exists l, r. unfold ring_last.
  rewrite last_snoc. cbn [mbind option_bind]. rewrite length_app. cbn.
  replace (length l + 1 - 1)%nat with (length l) by lia. by rewrite take_app_length.
Qed.

Lemma old_expire_ok fuel now rl acq :
  pool_inv rl acq -> (length (avail_list rl) < fuel)%nat ->
  exists rv rl', expire_loop fuel now rl = Some (rv, rl') /\ pool_inv rl' acq /\ kept rl rl' /\
    (rl' = rl \/ smax rl <= nidle rl') /\
    (rv = 0 -> nidle rl' <= smax rl \/ exists r, last (avail_list rl') = Some r /\ now - freed r < ttl rl).
Proof.
  revert rl. induction fuel as [|fuel IH]; intros rl Hinv Hf; [lia|]. cbn [expire_loop].
  pose proof (i_idle _ _ Hinv) as Hi. pose proof (i_cfg _ _ Hinv) as Hcfg.
  destruct ((nidle rl >? smax rl) && (nidle rl >? 0)) eqn:E.
  2: { exists 0, rl. split; [done|]. split; [done|]. split; [done|]. split; [by left|]. intros _. left.
       apply andb_false_iff in E as [E|E]; lia. }
  apply andb_true_iff in E as [E1 E2].
  destruct (ring_last_ok (avail_list rl)) as (l & r & -> & Ha). { intros Hn. rewrite Hn in Hi. cbn in Hi. lia. }
  cbn [mbind option_bind]. destruct (now - freed r <? ttl rl) eqn:Et.
  { exists 0, rl. split; [done|]. split; [done|]. split; [done|]. split; [by left|]. intros _. right. exists r.
    rewrite Ha, last_snoc. split; [done|lia]. }
  cbn. match goal with |- context [negb (?d =? 0)] => set (rv := d) end.
  match goal with |- context [expire_loop fuel now ?x] => set (rl1 := x) end.
  assert (pool_inv rl1 acq) as Hinv1.
  { apply (inv_destroy rl acq r l (length l) 0); [done| | |done|done|cbn; lia].
    - rewrite Ha. by rewrite <- Permutation_cons_append.
    - rewrite Ha, drop_0. by rewrite take_app_length. }
  assert (kept rl rl1) as Hk by (by split).
  destruct (rv =? 0) eqn:E0; cbn [negb]; [|eexists _, _; split; [done|]; split_and!; [done|done|right; cbn; lia|lia]].
  destruct (IH rl1 Hinv1) as (rv' & rl' & -> & Hinv' & Hk' & Hsm & Hor).
  { cbn. rewrite Ha, length_app in Hf. cbn in Hf. lia. }
  exists rv', rl'. split; [done|]. split; [done|]. split; [by transitivity rl1|]. split; [|done].
  right. destruct Hsm as [->|?]; [cbn; lia|done].
Qed.

(** The oldest idle resource is still young. *)
Definition last_young (now : Z) (rl : reslist_t) : Prop :=
  exists r, last (avail_list rl) = Some r /\ now - freed r < ttl rl.

(** Maintenance: without an error the pool has its minimum unless it is at its
    hard maximum, and nothing is kept over the soft maximum but young resources. *)
Definition maintained (rl rl' : reslist_t) : Prop :=
  (min rl <= nidle rl' \/ hmax rl <= ntotal rl') /\
  (nidle rl' <= smax rl \/ last_young (time_now (calls (env rl))) rl' \/ nidle rl < min rl).

Lemma reslist_maint_ok rl acq :
  pool_inv rl acq ->
  exists rv rl', reslist_maint rl = Some (rv, rl') /\ pool_inv rl' acq /\ kept rl rl' /\
    (rv = 0 -> maintained rl rl').
Proof.
  intros Hinv. unfold reslist_maint.
  destruct (create_loop_ok _ rl acq false Hinv (Nat.lt_succ_diag_r _)) as (out & E & Hout). rewrite E. cbn [mbind option_bind].
  destruct out as [rv rl1|[] rl1].
  - destruct Hout as (? & ? & ?). exists rv, rl1. done.
  - destruct Hout as (Hinv1 & Hk & Hor & _). exists 0, rl1. split; [done|]. split; [done|]. split; [done|]. intros _.
    split; [done|]. right. right. destruct (nidle rl <? min rl) eqn:El; [lia|].
    cbn [create_loop] in E. rewrite El in E. done.
  - destruct Hout as (_ & _ & Hor & Hb). destruct (Hb eq_refl) as [-> _].
    set (rl2 := put rl _ _ _ _ _).
    assert (pool_inv rl2 acq) as Hinv2.
    { eapply inv_same; [done|done|done|done|by split|done|done|cbn; lia]. }
    destruct (old_expire_ok _ (time_now (calls (env rl))) rl2 acq Hinv2 (Nat.lt_succ_diag_r _)) as (rv & rl' & -> & Hi & Hk & Hsm & Hr).
    exists rv, rl'. split; [done|]. split; [done|].
    assert (kept rl rl') as Hk' by (by transitivity rl2).
    split; [done|]. intros H0. pose proof (i_cfg _ _ Hinv) as Hcfg. split.
    + destruct Hsm as [->|Hsm]; [done|]. left. cbn in Hsm. lia.
    + destruct (Hr H0) as [?|(r & ? & ?)]; [by left|]. right. left. exists r. split; [done|].
      rewrite (k_ttl _ _ Hk'). done.
Qed.

(** ** Acquiring and releasing *)

(** Nobody falls asleep or is woken. *)
Definition calm (rl rl' : reslist_t) : Prop :=
  woken (env rl') = woken (env rl) /\ sleeping (env rl') = sleeping (env rl).

Lemma fresh_loop_ok fuel now rl acq :
  pool_inv rl acq -> (length (avail_list rl) < fuel)%nat ->
  exists out, fresh_loop fuel now rl = Some out /\
    match out with
    | inr (r, rl') => pool_inv rl' (r :: acq) /\ kept rl rl'
    | inl (Leave rv rl') => rv <> 0 /\ pool_inv rl' acq /\ kept rl rl'
    | inl (Go _ rl') => pool_inv rl' acq /\ kept rl rl' /\ calm rl rl' /\ nidle rl' <= 0
    end.
Proof.
  revert rl. induction fuel as [|fuel IH]; intros rl Hinv Hf; [lia|]. cbn [fresh_loop].
  destruct (nidle rl >? 0) eqn:E; [|eexists; split; [done|]; split_and!; [done|done|done|lia]].
  destruct (pop_resource_ok rl acq Hinv ltac:(lia)) as (r & l & Ha & ->). cbn [mbind option_bind].
  cbn [ttl put]. destruct (negb (ttl rl =? 0) && (now - freed r >=? ttl rl)) eqn:Et.
  - cbn. match goal with |- context [negb (?d =? 0)] => set (rv := d) end.
    match goal with |- context [fresh_loop fuel now ?x] => set (rl1 := x) end.
    assert (pool_inv rl1 acq) as Hinv1.
    { apply (inv_destroy rl acq r l (length l) 1); [done|by rewrite Ha| |done|done|cbn; lia].
      rewrite Ha. cbn. by rewrite firstn_all. }
    assert (kept rl rl1) as Hk by (by split).
    destruct (rv =? 0) eqn:E0; cbn [negb]; [|eexists; split; [done|]; split_and!; [lia|done|done]].
    destruct (IH rl1 Hinv1) as (out & -> & Hout). { cbn. rewrite Ha in Hf. cbn in Hf. lia. }
    exists out. split; [done|].
    destruct out as [[rv' rl'|b rl']|[r' rl']].
    + destruct Hout as (? & ? & ?). split_and!; [done|done|by transitivity rl1].
    + destruct Hout as (? & ? & [? ?] & ?). split_and!; [done|by transitivity rl1|done|done].
    + destruct Hout as (? & ?). split; [done|by transitivity rl1].
  - eexists. split; [done|]. split; [|by split]. apply (inv_hand_out rl acq r l); done.
Qed.

(** What an attempt to acquire leaves: the resource is held, or an error and
    nothing held, or the thread sleeps because the clients hold everything. *)
Definition acquired (rl : reslist_t) (acq : list R) (out : acquire_result) (rl' : reslist_t) : Prop :=
  match out with
  | Got r => pool_inv rl' (r :: acq) /\ kept rl rl'
  | Fail rv => rv <> 0 /\ pool_inv rl' acq /\ kept rl rl'
  | Blocked => pool_inv rl' acq /\ hmax rl = Z.of_nat (length acq) /\ hmax rl' = hmax rl /\
      timeout rl' = timeout rl /\ sleeping (env rl') = S (sleeping (env rl)) /\ woken (env rl') = woken (env rl)
  end.

Lemma acquire_wait_ok rl acq :
  pool_inv rl acq ->
  exists out rl', reslist_acquire_wait rl = Some (out, rl') /\ acquired rl acq out rl' /\
    (forall rv, out = Fail rv -> exists t, (constructor t).1 = rv).
Proof.
  intros Hinv. pose proof Hinv as [Hi Ht Hm Hc Hl Hs]. unfold reslist_acquire_wait.
  destruct ((ntotal rl >=? hmax rl) && (nidle rl <=? 0)) eqn:E.
  { apply andb_true_iff in E as [E1 E2]. eexists _, _. split; [done|]. split; [|done].
    split; [|split; [lia|done]]. split; cbn; try done. }
  destruct (nidle rl >? 0) eqn:En.
  { destruct (pop_resource_ok rl acq Hinv ltac:(lia)) as (r & l & Ha & ->). cbn [mbind option_bind].
    eexists _, _. split; [done|]. split; [|done]. split; [|by split]. by apply (inv_hand_out rl acq r l). }
  assert (ntotal rl < hmax rl) as Hlt by (apply andb_false_iff in E as [E|E]; lia).
  destruct (create_resource_ok rl) as (c & fr & ->). destruct (constructor (calls (env rl))) as [rv r] eqn:Ec.
  cbn [fst snd]. destruct (rv =? 0) eqn:Erv; eexists _, _; (split; [done|]).
  - split; [|done]. split; [|by split]. split; cbn; [lia|lia|lia|done| |eapply stamped_same; [done|done|cbn; lia]].
    rewrite Hl. by rewrite Permutation_middle.
  - split; [|intros ? [= <-]; exists (calls (env rl)); by rewrite Ec]. split; [lia|]. split; [|by split].
    eapply inv_same; [done|done|done|done|by split|done|done|cbn; lia].
Qed.

Lemma acquired_trans rl1 rl2 acq out rl' :
  kept rl1 rl2 -> calm rl1 rl2 ->
  acquired rl2 acq out rl' -> acquired rl1 acq out rl'.
Proof.
  intros Hk [Hw Hs]. destruct out as [r|rv|]; cbn.
  - intros [? ?]. split; [done|by transitivity rl2].
  - intros (? & ? & ?). split_and!; [done|done|by transitivity rl2].
  - intros (? & ? & ? & ? & ? & ?). destruct Hk. split_and!; congruence.
Qed.

Lemma reslist_acquire_ok rl acq :
  pool_inv rl acq ->
  exists out rl', reslist_acquire rl = Some (out, rl') /\ acquired rl acq out rl'.
Proof.
  intros Hinv. unfold reslist_acquire. set (rl1 := put rl _ _ _ _ _).
  assert (pool_inv rl1 acq) as Hinv1.
  { eapply inv_same; [done|done|done|done|by split|done|done|cbn; lia]. }
  assert (kept rl rl1 /\ calm rl rl1) as [Hk1 Hc1] by (by split).
  destruct (fresh_loop_ok _ (time_now (calls (env rl))) rl1 acq Hinv1 (Nat.lt_succ_diag_r _)) as (out & -> & Hout).
  cbn [mbind option_bind]. destruct out as [[rv rl2|[] rl2]|[r rl2]].
  - eexists _, _. split; [done|]. by apply (acquired_trans rl rl1).
  - destruct Hout as (Hinv2 & Hk2 & Hc2 & _). destruct (acquire_wait_ok rl2 acq Hinv2) as (out & rl' & -> & Ha & _).
    exists out, rl'. split; [done|]. apply (acquired_trans rl rl1); [done|done|]. by apply (acquired_trans rl1 rl2).
  - eexists _, _. split; [done|]. by apply (acquired_trans rl rl1).
Qed.

Lemma give_back_ok rl acq r acq' :
  pool_inv rl acq -> acq ≡ₚ r :: acq' -> pool_inv (give_back rl r) acq' /\ kept rl (give_back rl r).
Proof.
  intros [Hi Ht Hm Hc Hl Hs] Hp. unfold give_back. pose proof (get_container_same rl) as Hg.
  destruct (get_container rl) as [c rl1]. cbn [snd] in Hg. rewrite Hg. set (fr := free_list rl1). clearbody fr.
  pose proof (signal_frame (tick (env rl))) as (H1 & H2 & H3 & H4 & H5). rewrite Hp in Ht. cbn [length] in Ht.
  split; [|by split]. split; cbn; [lia|lia|lia|done| |].
  - cbn in H2, H3. rewrite H2, H3, Hl, Hp. cbn. by rewrite <- Permutation_middle.
  - eapply (stamped_push rl); [done|done|cbn; cbn in H1; lia].
Qed.

Lemma reslist_invalidate_ok rl acq r acq' :
  pool_inv rl acq -> acq ≡ₚ r :: acq' ->
  pool_inv (reslist_invalidate rl r).2 acq' /\ kept rl (reslist_invalidate rl r).2.
Proof.
  intros [Hi Ht Hm Hc Hl Hs] Hp. unfold reslist_invalidate, run_destructor. cbn.
  match goal with |- context [signal ?e] => pose proof (signal_frame e) as (H1 & H2 & H3 & H4 & H5) end.
  rewrite Hp in Ht. cbn [length] in *. cbn in H1, H2, H3, H4, H5. split; [|by split].
  split; cbn; [lia|lia|lia|done| |].
  - rewrite H2, H3, Hl, Hp. cbn. apply Permutation_app_head, Permutation_middle.
  - eapply (stamped_same rl); [done|done|cbn; lia].
Qed.

(** ** Clean-up and creation *)

Lemma cleanup_loop_ok fuel rl acq rv :
  pool_inv rl acq -> (length (avail_list rl) < fuel)%nat ->
  exists rv' rl', cleanup_loop fuel rl rv = Some (rv', rl') /\ pool_inv rl' acq /\ nidle rl' = 0.
Proof.
  revert rl rv. induction fuel as [|fuel IH]; intros rl rv Hinv Hf; [lia|]. cbn [cleanup_loop].
  pose proof (i_idle _ _ Hinv). destruct (nidle rl >? 0) eqn:E; [|eexists _, _; split; [done|]; split; [done|lia]].
  destruct (pop_resource_ok rl acq Hinv ltac:(lia)) as (r & l & Ha & ->). cbn [mbind option_bind]. cbn.
  apply IH; [|cbn; rewrite Ha in Hf; cbn in Hf; lia].
  apply (inv_destroy rl acq r l (length l) 1); [done|by rewrite Ha| |done|done|cbn; lia].
  rewrite Ha. cbn. by rewrite firstn_all.
Qed.

(** Clean-up destroys every idle resource; it aborts exactly when one is held. *)
Lemma reslist_cleanup_ok rl acq :
  pool_inv rl acq ->
  exists c rl', reslist_cleanup rl = Some (c, rl') /\ avail_list rl' = [] /\
    created (env rl') ≡ₚ acq ++ destroyed (env rl') /\ (c = Aborted <-> acq <> []).
Proof.
  intros Hinv. unfold reslist_cleanup.
  destruct (cleanup_loop_ok _ rl acq 0 Hinv (Nat.lt_succ_diag_r _)) as (rv & rl' & -> & [Hi Ht _ _ Hl _] & Hn).
  cbn [mbind option_bind]. eexists _, _. split; [done|]. destruct (avail_list rl') as [|]; [|cbn in Hi; lia].
  split; [done|]. split; [exact Hl|]. rewrite Hn, Z.eqb_refl. cbn [andb].
  destruct acq as [|r acq]; cbn [length] in Ht.
  - replace (ntotal rl' =? 0) with true by lia. split; [done|]. by intros [].
  - replace (ntotal rl' =? 0) with false by lia. done.
Qed.

Definition no_log : environment := Env 0 0 0 [] [].

Lemma reslist_create_ok mn sm hm tl :
  exists out, reslist_create no_log mn sm hm tl = Some out /\
    match out with
    | Rejected => ~ (0 <= mn /\ mn <= sm /\ sm <= hm /\ 0 < hm /\ 0 <= tl)
    | Failed rv c rl => rv <> 0 /\ c <> Aborted /\ created (env rl) ≡ₚ destroyed (env rl)
    | Pool rl => pool_inv rl [] /\ min rl = mn /\ smax rl = sm /\ hmax rl = hm /\ ttl rl = tl /\ mn <= nidle rl /\
        sleeping (env rl) = O
    end.
Proof.
  unfold reslist_create. destruct (_ || _) eqn:E; [eexists; split; [done|]; intros H; rewrite !orb_true_iff in E; lia|].
  rewrite !orb_false_iff in E. destruct E as [[[[[E1 E2] E3] E4] E5] E6]. set (rl := Reslist _ _ _ _ _ _ _ _ _ _).
  assert (pool_inv rl []) as Hinv.
  { split; cbn; [done|done|lia|lia|done|]. exists []. split_and!; [done|constructor..]. }
  destruct (reslist_maint_ok rl [] Hinv) as (rv & rl1 & -> & Hinv1 & Hk & Hmt). cbn [mbind option_bind].
  destruct (rv =? 0) eqn:Er; cbn [negb].
  - eexists. split; [done|]. destruct (Hmt ltac:(lia)) as [Hor _]. destruct Hk. split; [done|]. split_and!; try done.
    + destruct Hor as [?|Hh]; [done|]. pose proof (i_total _ _ Hinv1). cbn in *. lia.
    + cbn in *. lia.
  - destruct (reslist_cleanup_ok rl1 [] Hinv1) as (c & rl' & -> & _ & Hl & Hc). cbn [mbind option_bind].
    eexists. split; [done|]. split; [lia|]. split; [|exact Hl]. intros ->. by apply Hc.
Qed.

(** ** Interleavings *)

Definition set_env (rl : reslist_t) (e : environment) : reslist_t :=
  put rl (ntotal rl) (nidle rl) (avail_list rl) (free_list rl) e.

(** A thread returns from its wait: one that was signalled, or one that was not. *)
Definition leave_woken (rl : reslist_t) : reslist_t :=
  let e := env rl in set_env rl (Env (calls e) (sleeping e) (pred (woken e)) (created e) (destroyed e)).
Definition leave_sleep (rl : reslist_t) : reslist_t :=
  let e := env rl in set_env rl (Env (calls e) (pred (sleeping e)) (woken e) (created e) (destroyed e)).

Definition held (out : acquire_result) (acq : list R) : list R :=
  match out with Got r => r :: acq | _ => acq end.

(** The pool and the resources the clients hold, under any number of threads.
    A client gives back only what it holds. *)
Inductive step : reslist_t * list R -> reslist_t * list R -> Prop :=
| step_acquire rl acq out rl' : reslist_acquire rl = Some (out, rl') -> step (rl, acq) (rl', held out acq)
| step_woken rl acq out rl' :
    (0 < woken (env rl))%nat -> reslist_acquire_wait (leave_woken rl) = Some (out, rl') ->
    step (rl, acq) (rl', held out acq)
| step_spurious rl acq out rl' :
    (0 < sleeping (env rl))%nat -> reslist_acquire_wait (leave_sleep rl) = Some (out, rl') ->
    step (rl, acq) (rl', held out acq)
| step_timeout rl acq :
    (0 < sleeping (env rl))%nat -> timeout rl <> 0 -> step (rl, acq) (leave_sleep rl, acq)
| step_give_back rl acq r acq' : acq ≡ₚ r :: acq' -> step (rl, acq) (give_back rl r, acq')
| step_maint rl acq rv rl' : reslist_maint rl = Some (rv, rl') -> step (rl, acq) (rl', acq)
| step_invalidate rl acq r acq' : acq ≡ₚ r :: acq' -> step (rl, acq) ((reslist_invalidate rl r).2, acq')
| step_timeout_set rl acq t : step (rl, acq) (reslist_timeout_set rl t, acq).

(** A state some run leads to from a pool just created. *)
Definition reachable (rl : reslist_t) (acq : list R) : Prop :=
  exists mn sm hm tl rl0, reslist_create no_log mn sm hm tl = Some (Pool rl0) /\ rtc step (rl0, []) (rl, acq).

Lemma inv_frame rl acq f : pool_inv rl acq ->
  (forall rl, nidle (f rl) = nidle rl /\ ntotal (f rl) = ntotal rl /\ avail_list (f rl) = avail_list rl /\
     min (f rl) = min rl /\ smax (f rl) = smax rl /\ hmax (f rl) = hmax rl /\ ttl (f rl) = ttl rl /\
     created (env (f rl)) = created (env rl) /\ destroyed (env (f rl)) = destroyed (env rl) /\
     calls (env (f rl)) = calls (env rl)) -> pool_inv (f rl) acq.
Proof.
  intros [] H. destruct (H rl) as (H1 & H2 & H3 & H4 & H5 & H6 & H7 & H8 & H9 & H10).
  split; rewrite ?H1, ?H2, ?H3, ?H4, ?H5, ?H6, ?H7, ?H8, ?H9; try done.
  eapply stamped_same; [done|done|lia].
Qed.

Lemma leave_woken_inv rl acq : pool_inv rl acq -> pool_inv (leave_woken rl) acq.
Proof. intros H. by apply (inv_frame rl acq leave_woken). Qed.
Lemma leave_sleep_inv rl acq : pool_inv rl acq -> pool_inv (leave_sleep rl) acq.
Proof. intros H. by apply (inv_frame rl acq leave_sleep). Qed.

Lemma acquired_inv rl acq out rl' : acquired rl acq out rl' -> pool_inv rl' (held out acq).
Proof. destruct out; cbn; tauto. Qed.

Lemma pool_step_inv s s' : step s s' -> pool_inv s.1 s.2 -> pool_inv s'.1 s'.2.
Proof.
  destruct 1 as [rl acq out rl' E|rl acq out rl' _ E|rl acq out rl' _ E|rl acq _ _|rl acq r acq' Hp|rl acq rv rl' E|rl acq r acq' Hp|rl acq t];
    cbn; intros Hi.
  - destruct (reslist_acquire_ok rl acq Hi) as (? & ? & ? & Ha). simplify_eq. by eapply acquired_inv.
  - destruct (acquire_wait_ok _ acq (leave_woken_inv _ _ Hi)) as (? & ? & ? & Ha & _). simplify_eq. by eapply acquired_inv.
  - destruct (acquire_wait_ok _ acq (leave_sleep_inv _ _ Hi)) as (? & ? & ? & Ha & _). simplify_eq. by eapply acquired_inv.
  - by apply leave_sleep_inv.
  - by eapply give_back_ok.
  - destruct (reslist_maint_ok rl acq Hi) as (? & ? & ? & ? & _). by simplify_eq.
  - by eapply reslist_invalidate_ok.
  - by apply (inv_frame rl acq (fun rl => reslist_timeout_set rl t)).
Qed.

Lemma rtc_inv (P : reslist_t * list R -> Prop) s s' :
  (forall a b, step a b -> P a -> P b) -> rtc step s s' -> P s -> P s'.
Proof. intros HP. induction 1; eauto. Qed.

Lemma created_inv mn sm hm tl rl :
  reslist_create no_log mn sm hm tl = Some (Pool rl) -> pool_inv rl [].
Proof. intros E. destruct (reslist_create_ok mn sm hm tl) as (out & E' & H). rewrite E in E'. simplify_eq. apply H. Qed.

Lemma pool_reachable_inv rl acq : reachable rl acq -> pool_inv rl acq.
Proof.
  intros (mn & sm & hm & tl & rl0 & E & Hr).
  apply (rtc_inv (fun s => pool_inv s.1 s.2) _ _ pool_step_inv Hr). by eapply created_inv.
Qed.

(** *** No lost wake-up *)

Definition signal_ok : Prop := forall t, cond_signal t = 0.
Definition constructor_ok : Prop := forall t, (constructor t).1 = 0.

(** While a thread sleeps, every resource that is free to be taken or made has
    a woken thread coming for it. *)
Definition no_lost (s : reslist_t * list R) : Prop :=
  (0 < sleeping (env s.1))%nat -> hmax s.1 - Z.of_nat (length s.2) <= Z.of_nat (woken (env s.1)).

Lemma acquired_no_lost rl0 rl acq out rl' :
  pool_inv rl0 acq -> no_lost (rl0, acq) -> constructor_ok ->
  hmax rl = hmax rl0 ->
  (sleeping (env rl) <= sleeping (env rl0))%nat -> (woken (env rl0) <= S (woken (env rl)))%nat ->
  acquired rl acq out rl' -> (forall rv, out = Fail rv -> (woken (env rl0) <= woken (env rl))%nat) ->
  no_lost (rl', held out acq).
Proof.
  intros Hi Hn Hc Hh Hs Hw. unfold no_lost in *. cbn [fst snd] in *. destruct out as [r|rv|]; cbn [acquired held].
  - intros [_ []] _ ?. cbn [length]. specialize (Hn ltac:(lia)). lia.
  - intros (_ & _ & []) Hf ?. specialize (Hf rv eq_refl). specialize (Hn ltac:(lia)). lia.
  - intros (_ & ? & ? & _ & ? & ?) _ ?. lia.
Qed.

Lemma step_no_lost s s' :
  signal_ok -> constructor_ok -> step s s' -> pool_inv s.1 s.2 -> no_lost s -> no_lost s'.
Proof.
  intros Hsig Hcon.
  destruct 1 as [rl acq out rl' E|rl acq out rl' Hpos E|rl acq out rl' Hpos E|rl acq Hpos _|rl acq r acq' Hp|rl acq rv rl' E|rl acq r acq' Hp|rl acq t];
    cbn [fst snd]; intros Hi Hn.
  - destruct (reslist_acquire_ok rl acq Hi) as (? & ? & ? & Ha). simplify_eq.
    apply (acquired_no_lost rl rl acq out rl'); auto with lia.
  - destruct (acquire_wait_ok _ acq (leave_woken_inv _ _ Hi)) as (? & ? & ? & Ha & Hf). simplify_eq.
    apply (acquired_no_lost rl (leave_woken rl) acq out rl'); [done|done|done|done|cbn; lia|cbn; lia|done|].
    intros rv ->. destruct (Hf rv eq_refl) as [t Ht]. destruct Ha as [H0 _]. by rewrite Hcon in Ht.
  - destruct (acquire_wait_ok _ acq (leave_sleep_inv _ _ Hi)) as (? & ? & ? & Ha & _). simplify_eq.
    apply (acquired_no_lost rl (leave_sleep rl) acq out rl'); auto; cbn; lia.
  - intros Hs. cbn in *. apply Hn. cbn. lia.
  - destruct (give_back_ok rl acq r acq' Hi Hp) as [_ Hk]. unfold no_lost in *. cbn [fst snd] in *. intros Hs.
    destruct Hk. rewrite Hp in Hn. cbn [length] in Hn. specialize (Hn ltac:(lia)).
    enough (woken (env (give_back rl r)) = S (woken (env rl))) by lia.
    unfold give_back. pose proof (get_container_same rl) as Hg. destruct (get_container rl) as [c rl1].
    cbn [snd] in Hg. rewrite Hg. cbn. rewrite signal_wakes; [done|apply Hsig|cbn; lia].
  - destruct (reslist_maint_ok rl acq Hi) as (? & ? & ? & _ & [] & _). simplify_eq. unfold no_lost in *. cbn in *.
    intros Hs. specialize (Hn ltac:(lia)). lia.
  - destruct (reslist_invalidate_ok rl acq r acq' Hi Hp) as [_ Hk]. unfold no_lost in *. cbn [fst snd] in *. intros Hs.
    destruct Hk. rewrite Hp in Hn. cbn [length] in Hn. specialize (Hn ltac:(lia)).
    enough (woken (env (reslist_invalidate rl r).2) = S (woken (env rl))) by lia.
    unfold reslist_invalidate. cbn. rewrite signal_wakes; [done|apply Hsig|cbn; lia].
  - done.
Qed.

Lemma reachable_no_lost rl acq : signal_ok -> constructor_ok -> reachable rl acq -> no_lost (rl, acq).
Proof.
  intros Hs Hc (mn & sm & hm & tl & rl0 & E & Hr).
  apply (rtc_inv (fun s => pool_inv s.1 s.2 /\ no_lost s) (rl0, [])); [|done|].
  - intros a b Hab [H1 H2]. split; [by eapply pool_step_inv|by eapply step_no_lost].
  - split; [by eapply created_inv|]. destruct (reslist_create_ok mn sm hm tl) as (out & E' & H).
    rewrite E in E'. simplify_eq. destruct H as (_ & _ & _ & _ & _ & _ & H0). unfold no_lost. cbn. lia.
Qed.

(** ** The properties *)

(** C34: In every state that any interleaving of acquiring, releasing,
    invalidating, maintaining and timing-out threads can reach, the counters
    are right, the hard maximum holds, and every resource ever made is exactly
    once idle, held by a client or destroyed; and the next call of an operation
    returns. *)
Theorem reslist_conservation rl acq :
  reachable rl acq ->
  nidle rl = Z.of_nat (length (avail_list rl)) /\ ntotal rl = nidle rl + Z.of_nat (length acq) /\
  ntotal rl <= hmax rl /\ reslist_acquired_count rl = u32 (Z.of_nat (length acq)) /\
  created (env rl) ≡ₚ (opaque <$> avail_list rl) ++ acq ++ destroyed (env rl) /\
  is_Some (reslist_acquire rl) /\ is_Some (reslist_acquire_wait rl) /\
  is_Some (reslist_maint rl) /\ forall r, r ∈ acq -> is_Some (reslist_release rl r).
Proof.
  intros Hr%pool_reachable_inv. pose proof Hr as [Hi Ht Hm _ Hl _]. split_and!; try done.
  - unfold reslist_acquired_count. f_equal. lia.
  - destruct (reslist_acquire_ok rl acq Hr) as (? & ? & -> & _). done.
  - destruct (acquire_wait_ok rl acq Hr) as (? & ? & -> & _). done.
  - destruct (reslist_maint_ok rl acq Hr) as (? & ? & -> & _). done.
  - intros r [k Hk]%list_elem_of_lookup_1. destruct (give_back_ok rl acq r (delete k acq) Hr) as [Hg _].
    { by apply delete_Permutation. }
    unfold reslist_release. destruct (reslist_maint_ok _ _ Hg) as (? & ? & -> & _). done.
Qed.

(** C35: If the constructor and the signals succeed no wake-up is lost: while a
    thread sleeps in [reslist_acquire] and no woken thread is on its way, the
    clients hold all the resources the hard maximum allows. *)
Theorem reslist_no_lost_wakeup rl acq :
  signal_ok -> constructor_ok -> reachable rl acq ->
  (0 < sleeping (env rl))%nat -> woken (env rl) = O ->
  Z.of_nat (length acq) = hmax rl /\ nidle rl = 0 /\ ntotal rl = hmax rl.
Proof.
  intros Hs Hc Hr Hpos Hw. pose proof (reachable_no_lost rl acq Hs Hc Hr Hpos) as Hn. cbn in Hn.
  destruct (pool_reachable_inv rl acq Hr) as [Hi Ht Hm _ _ _]. lia.
Qed.

Definition monotone_clock : Prop := forall t t', (t <= t')%nat -> time_now t <= time_now t'.

Lemma sorted_lookup (l : list nat) i j a b :
  StronglySorted gt l -> l !! i = Some a -> l !! j = Some b -> (i < j)%nat -> (b < a)%nat.
Proof.
  intros Hs. revert i j. induction Hs as [|x l Hs IH Hf]; intros [|i] [|j] Hi Hj Hij; cbn in *; simplify_eq; try lia.
  - eapply Forall_lookup_1 in Hf; [|done]. lia.
  - apply (IH i j); [done|done|lia].
Qed.

Lemma last_young_all now rl r :
  monotone_clock -> stamped rl -> last_young now rl -> r ∈ avail_list rl -> now - freed r < ttl rl.
Proof.
  intros Hmono (ts & Hf & Hs & _) (r0 & Hl & Hy) [i Hi]%list_elem_of_lookup_1.
  rewrite last_lookup in Hl.
  assert (exists t, ts !! i = Some t /\ freed r = time_now t) as (t & Ht & ->).
  { assert ((freed <$> avail_list rl) !! i = Some (freed r)) as H by (by rewrite list_lookup_fmap, Hi).
    rewrite Hf, list_lookup_fmap in H. destruct (ts !! i) as [t|]; [|done]. exists t. split; [done|]. by injection H. }
  assert (exists t, ts !! pred (length (avail_list rl)) = Some t /\ freed r0 = time_now t) as (t0 & Ht0 & Hr0).
  { assert ((freed <$> avail_list rl) !! pred (length (avail_list rl)) = Some (freed r0)) as H by (by rewrite list_lookup_fmap, Hl).
    rewrite Hf, list_lookup_fmap in H. destruct (ts !! pred (length (avail_list rl))) as [t0|]; [|done]. exists t0. split; [done|]. by injection H. }
  pose proof (lookup_lt_Some _ _ _ Hi). enough (t0 <= t)%nat as Hle by (apply Hmono in Hle; lia).
  destruct (decide (i = pred (length (avail_list rl)))) as [->|Hne]; [simplify_eq; lia|].
  pose proof (sorted_lookup _ _ _ _ _ Hs Ht Ht0). lia.
Qed.

(** With a clock that does not run backwards, a maintenance call that
    returns success leaves at least the minimum of idle resources unless the
    pool is at its hard maximum, and over the soft maximum it leaves only
    resources released less than the time to live ago (unless it had to create
    some): stopping at the first young resource from the old end misses none.
    It never takes a resource from a client. *)
Theorem reslist_maint_correct rl acq :
  monotone_clock -> reachable rl acq ->
  exists rv rl', reslist_maint rl = Some (rv, rl') /\ pool_inv rl' acq /\
    (rv = 0 ->
      (min rl <= nidle rl' \/ ntotal rl' = hmax rl) /\
      (nidle rl' <= smax rl \/ nidle rl < min rl \/
       forall r, r ∈ avail_list rl' -> time_now (calls (env rl)) - freed r < ttl rl)).
Proof.
  intros Hmono Hr%pool_reachable_inv. destruct (reslist_maint_ok rl acq Hr) as (rv & rl' & E & Hinv & Hk & Hm).
  exists rv, rl'. split; [done|]. split; [done|]. intros H0. destruct (Hm H0) as [H1 H2]. split.
  - destruct H1 as [?|?]; [by left|]. right. pose proof (i_max _ _ Hinv). pose proof (k_hmax _ _ Hk). lia.
  - destruct H2 as [?|[Hy|?]]; [by left| |by right; left]. right. right. intros r Hin.
    rewrite <- (k_ttl _ _ Hk). by apply (last_young_all _ rl'); [|apply Hinv|..].
Qed.

(** Creating a pool returns for every argument: it refuses exactly the
    inconsistent limits, on a constructor or signal failure it destroys all it
    made and reports the failure, and otherwise the pool starts with at least
    its minimum idle.  Destroying a pool in any reachable state destroys every
    idle resource, and aborts exactly when a client still holds one. *)
Theorem reslist_create_destroy mn sm hm tl :
  (exists out, reslist_create no_log mn sm hm tl = Some out /\
    match out with
    | Rejected => ~ (0 <= mn /\ mn <= sm /\ sm <= hm /\ 0 < hm /\ 0 <= tl)
    | Failed rv c rl => rv <> 0 /\ c <> Aborted /\ created (env rl) ≡ₚ destroyed (env rl)
    | Pool rl => mn <= nidle rl /\ ntotal rl = nidle rl /\ ntotal rl <= hm /\ reachable rl []
    end) /\
  forall rl acq, reachable rl acq ->
    exists c rl', reslist_destroy rl = Some (c, rl') /\ avail_list rl' = [] /\
      created (env rl') ≡ₚ acq ++ destroyed (env rl') /\ (c = Aborted <-> acq <> []).
Proof.
  split.
  - destruct (reslist_create_ok mn sm hm tl) as (out & E & H). exists out. split; [done|].
    destruct out as [|rv c rl|rl]; [done|done|]. destruct H as ([Hi Ht Hm _ _ _] & ? & ? & ? & ? & ? & _). cbn in Ht.
    split_and!; [done|lia|lia|]. exists mn, sm, hm, tl, rl. done.
  - intros rl acq Hr%pool_reachable_inv. by apply reslist_cleanup_ok.
Qed.
End Reslist.

(** ** Sample runs *)

Module Sample.
Definition con (t : nat) : Z * nat := (0, t).
Definition con_fails_at_7 (t : nat) : Z * nat := (if Nat.eqb t 7 then 5 else 0, t).
Definition des (_ _ : nat) : Z := 0.
Definition clock (t : nat) : Z := Z.of_nat t.
Definition sig (_ : nat) : Z := 0.
Definition blank : res := Res 0 O.

(** A pool of at most one resource: a client holds it, two more fall asleep. *)
Definition pool0 : @reslist_t nat := Reslist 0 0 0 0 1 0 0 [] [] (Env 1 0 0 [] []).
Definition pool1 : @reslist_t nat := Reslist 1 0 0 0 1 0 0 [] [Res 0 2%nat] (Env 3 0 0 [2%nat] []).
Definition pool2 : @reslist_t nat := Reslist 1 0 0 0 1 0 0 [] [Res 0 2%nat] (Env 4 1 0 [2%nat] []).
Definition pool3 : @reslist_t nat := Reslist 1 0 0 0 1 0 0 [] [Res 0 2%nat] (Env 5 2 0 [2%nat] []).

Lemma pool3_reachable c :
  c 2%nat = (0, 2%nat) -> reachable c des clock sig blank pool3 [2%nat].
Proof.
  intros Hc. exists 0, 0, 1, 0, pool0. split; [reflexivity|].
  eapply rtc_l; [apply (step_acquire _ _ _ _ _ pool0 [] (Got 2%nat) pool1)|].
  { unfold reslist_acquire, reslist_acquire_wait, create_resource. cbn. rewrite Hc. reflexivity. }
  eapply rtc_l; [apply (step_acquire _ _ _ _ _ pool1 _ Blocked pool2); reflexivity|].
  eapply rtc_l; [apply (step_acquire _ _ _ _ _ pool2 _ Blocked pool3); reflexivity|]. apply rtc_refl.
Qed.
End Sample.
Import Sample.

Lemma reslist_conservation_witness :
  ntotal pool3 = 1 /\ is_Some (reslist_maint con des clock sig blank pool3).
Proof.
  pose proof (reslist_conservation con des clock sig blank pool3 [2%nat] (pool3_reachable con eq_refl)) as
    (_ & Ht & _ & _ & _ & _ & _ & Hm & _).
  split; [exact Ht|exact Hm].
Defined.

Lemma reslist_no_lost_wakeup_witness : nidle pool3 = 0 /\ ntotal pool3 = hmax pool3.
Proof.
  destruct (reslist_no_lost_wakeup con des clock sig blank pool3 [2%nat]) as (_ & H1 & H2);
    [by intros ?|by intros ?|by apply pool3_reachable|vm_compute; lia|reflexivity|].
  split; [exact H1|exact H2].
Defined.

Lemma reslist_maint_correct_witness :
  exists rv rl', reslist_maint con des clock sig blank pool3 = Some (rv, rl') /\ pool_inv clock rl' [2%nat].
Proof.
  destruct (reslist_maint_correct con des clock sig blank pool3 [2%nat]) as (rv & rl' & E & H & _);
    [intros t t' ?; unfold clock; lia|by apply pool3_reachable|].
  exists rv, rl'. split; [exact E|exact H].
Defined.

(** When the constructor fails for the woken thread, it returns with the error
    and nobody wakes the other one, which sleeps on although a resource may be
    made: nothing is held, nobody is on the way. *)
Example failed_constructor_loses_wakeup :
  exists rl, reachable con_fails_at_7 des clock sig blank rl [] /\
    sleeping (env rl) = 1%nat /\ woken (env rl) = O /\ ntotal rl = 0 /\ hmax rl = 1.
Proof.
  set (rl4 := (reslist_invalidate des sig pool3 2%nat).2).
  set (rl5 := match reslist_acquire_wait con_fails_at_7 blank (leave_woken rl4) with Some (_, rl) => rl | None => rl4 end).
  exists rl5. split; [|by vm_compute].
  destruct (pool3_reachable con_fails_at_7 eq_refl) as (mn & sm & hm & tl & rl0 & E & Hr).
  exists mn, sm, hm, tl, rl0. split; [done|]. etransitivity; [exact Hr|].
  eapply rtc_l; [by apply (step_invalidate _ _ _ _ _ pool3 [2%nat] 2%nat [])|].
  eapply rtc_l; [apply (step_woken _ _ _ _ _ rl4 [] (Fail 5) rl5); [vm_compute; lia|reflexivity]|]. apply rtc_refl.
Qed.
