(* ===== verification/FdQueue.v ===== *)
(** The queue between the listener and the worker threads: [src/fdqueue.c],
    with the worker loop and the listener's reservations of [src/zevent.c].

    [Queue] and [Info] hold the critical sections and the atomic steps of the
    two structures; [Server] is their interleaving for one listener and any
    number of workers; [Pools] is the lock-free stack of recycled pools at the
    grain of its memory accesses.  Mutexes and condition variables behave as
    documented and their error returns are not modelled. *)
From S2P Require Import Prelude.
Local Open Scope Z_scope.

(** A condition variable: the threads that sleep on it and the woken ones that
    have not run yet. *)
Record cond := Cond { sleeping : nat; woken : nat }.

Definition cond_wait (c : cond) : cond := Cond (S (sleeping c)) (woken c).
Definition cond_signal (c : cond) : cond :=
  match sleeping c with S n => Cond n (S (woken c)) | O => c end.
Definition cond_broadcast (c : cond) : cond := Cond 0 (sleeping c + woken c).
(** A thread returns from its wait: a woken one, or a sleeping one spuriously. *)
Definition leave_woken (c : cond) : cond := Cond (sleeping c) (pred (woken c)).
Definition leave_sleep (c : cond) : cond := Cond (pred (sleeping c)) (woken c).

Module Queue.

Record fd_queue_elem_t := Elem { sd : Z; cs : Z; p : Z }.

(** [data] holds [None] where the socket is [NULL]. *)
Record fd_queue_t := Queue {
  data : list (option fd_queue_elem_t); nelts : nat; bounds : nat; terminated : bool; not_empty : cond
}.

Definition zevent_queue_empty (q : fd_queue_t) : bool := Nat.eqb (nelts q) 0.

Definition zevent_queue_init (queue_capacity : nat) : fd_queue_t :=
  Queue (replicate queue_capacity None) 0 queue_capacity false (Cond 0 0).

(** [None]: the element is written outside the array. *)
Definition zevent_queue_push (q : fd_queue_t) (e : fd_queue_elem_t) : option fd_queue_t :=
  data ← awrite (data q) (nelts q) (Some e);
  Some (Queue data (S (nelts q)) (bounds q) (terminated q) (cond_signal (not_empty q))).

Inductive pop_result := Popped (e : option fd_queue_elem_t) | Eof | Eintr | Blocked.

Definition take_elem (q : fd_queue_t) : option (pop_result * fd_queue_t) :=
  e ← aread (data q) (nelts q - 1);
  Some (Popped e, Queue (data q) (nelts q - 1) (bounds q) (terminated q) (not_empty q)).

Definition set_cond (q : fd_queue_t) (c : cond) : fd_queue_t :=
  Queue (data q) (nelts q) (bounds q) (terminated q) c.

(** After the wait, or instead of it. *)
Definition zevent_queue_pop_awake (q : fd_queue_t) : option (pop_result * fd_queue_t) :=
  if zevent_queue_empty q then Some (if terminated q then Eof else Eintr, q) else take_elem q.

Definition zevent_queue_pop (q : fd_queue_t) : option (pop_result * fd_queue_t) :=
  if zevent_queue_empty q then
    if negb (terminated q) then Some (Blocked, set_cond q (cond_wait (not_empty q)))
    else zevent_queue_pop_awake q
  else take_elem q.

Definition zevent_queue_interrupt_all (q : fd_queue_t) : fd_queue_t :=
  set_cond q (cond_broadcast (not_empty q)).

(** [zevent_queue_term] is this section and then [zevent_queue_interrupt_all]. *)
Definition set_terminated (q : fd_queue_t) : fd_queue_t :=
  Queue (data q) (nelts q) (bounds q) true (not_empty q).

Definition zevent_queue_term (q : fd_queue_t) : fd_queue_t := zevent_queue_interrupt_all (set_terminated q).

(** ** The queue is a stack *)

(** The elements, the last pushed first. *)
Definition contents (q : fd_queue_t) : list (option fd_queue_elem_t) := reverse (take (nelts q) (data q)).

Record qwf (q : fd_queue_t) : Prop := {
  q_len : length (data q) = bounds q;
  q_nelts : (nelts q <= bounds q)%nat
}.

Lemma init_wf n : qwf (zevent_queue_init n).
Proof. split; cbn; [apply length_replicate|lia]. Qed.

Lemma push_ok q e :
  qwf q ->
  if decide (nelts q < bounds q)%nat
  then exists q', zevent_queue_push q e = Some q' /\ qwf q' /\ contents q' = Some e :: contents q /\
    nelts q' = S (nelts q) /\ bounds q' = bounds q /\ terminated q' = terminated q /\
    not_empty q' = cond_signal (not_empty q)
  else zevent_queue_push q e = None.
Proof.
  intros [Hl Hn]. unfold zevent_queue_push. case_decide as Hlt.
  - rewrite awrite_ok by lia. eexists. split; [done|]. split; [split; cbn; [by rewrite length_insert|lia]|].
    split; [|done]. unfold contents. cbn. rewrite <- reverse_snoc. f_equal.
    rewrite (take_S_r _ _ (Some e)) by (apply list_lookup_insert_eq; lia). by rewrite take_insert_ge by lia.
  - unfold awrite. by rewrite bool_decide_false by lia.
Qed.

Lemma take_elem_ok q :
  qwf q -> (0 < nelts q)%nat ->
  exists e q', take_elem q = Some (Popped e, q') /\ qwf q' /\ contents q = e :: contents q' /\
    nelts q = S (nelts q') /\ bounds q' = bounds q /\ terminated q' = terminated q /\ not_empty q' = not_empty q.
Proof.
  intros [Hl Hn] Hpos. unfold take_elem, aread.
  destruct (lookup_lt_is_Some_2 (data q) (nelts q - 1) ltac:(lia)) as [e He]. rewrite He. cbn [mbind option_bind].
  eexists _, _. split; [done|]. split; [split; cbn; lia|]. split; [|cbn; split; [lia|done]].
  unfold contents. cbn. replace (nelts q) with (S (nelts q - 1)) at 1 by lia.
  by rewrite (take_S_r _ _ _ He), reverse_snoc.
Qed.
End Queue.

Module Info.

(** The recycled pools are in [Pools]. *)
Record fd_queue_info_t := QInfo { idlers : Z; wait_for_idler : cond; terminated : bool; max_idlers : Z }.

Definition zevent_queue_info_create (max_idlers : Z) : fd_queue_info_t := QInfo 0 (Cond 0 0) false max_idlers.

(** [zevent_queue_info_set_idle]: the atomic increment with its old value, and
    the section that signals, entered if the old value is negative. *)
Definition set_idle_inc (qi : fd_queue_info_t) : Z * fd_queue_info_t :=
  (idlers qi, QInfo (idlers qi + 1) (wait_for_idler qi) (terminated qi) (max_idlers qi)).
Definition set_idle_signal (qi : fd_queue_info_t) : fd_queue_info_t :=
  QInfo (idlers qi) (cond_signal (wait_for_idler qi)) (terminated qi) (max_idlers qi).

(** [zevent_queue_info_wait_for_idler]: the atomic decrement with its old
    value, the section that checks again and sleeps ([true]), entered if the
    old value is not positive, and the result. *)
Definition wait_dec (qi : fd_queue_info_t) : Z * fd_queue_info_t :=
  (idlers qi, QInfo (idlers qi - 1) (wait_for_idler qi) (terminated qi) (max_idlers qi)).
Definition wait_check (qi : fd_queue_info_t) : bool * fd_queue_info_t :=
  if idlers qi <? 0
  then (true, QInfo (idlers qi) (cond_wait (wait_for_idler qi)) (terminated qi) (max_idlers qi))
  else (false, qi).
Definition wait_wake (qi : fd_queue_info_t) (leave : cond -> cond) : fd_queue_info_t :=
  QInfo (idlers qi) (leave (wait_for_idler qi)) (terminated qi) (max_idlers qi).
(** [true]: [APR_SUCCESS]; [false]: [APR_EOF]. *)
Definition wait_result (qi : fd_queue_info_t) : bool := negb (terminated qi).

Definition zevent_queue_info_term (qi : fd_queue_info_t) : fd_queue_info_t :=
  QInfo (idlers qi) (cond_broadcast (wait_for_idler qi)) true (max_idlers qi).
End Info.

(** ** One listener and its workers *)

Module Server.
Import Queue Info.

(** Where the listener is: free to wait for a worker; past the decrement, before
    the section; in the condition variable; with a worker reserved
    ([have_idle_worker]); gone. *)
Inductive listener := LFree | LPre | LSleep | LWoken | LHave | LGone.

(** The workers, by the place they are at: about to become idle; past the
    increment, about to signal; about to pop; exited while idle, exited
    otherwise.  Those that sleep in the queue are in its condition variable. *)
Record workers := Workers { busy : nat; signalling : nat; popping : nat; gone_idle : nat; gone : nat }.

Record server := Srv { q : fd_queue_t; qi : fd_queue_info_t; l : listener; w : workers }.

Definition with_w (s : server) (w : workers) : server := Srv (q s) (qi s) (l s) w.

(** [start_threads]: as many slots in the queue as workers. *)
Definition start (threads_per_child : nat) : server :=
  Srv (zevent_queue_init threads_per_child) (zevent_queue_info_create (Z.of_nat threads_per_child))
    LFree (Workers threads_per_child 0 0 0 0).

(** *** A worker: [worker_thread] *)

Definition worker_set_idle (s : server) : server :=
  let '(prev, qi') := set_idle_inc (qi s) in
  let w := w s in
  Srv (q s) qi' (l s)
    (if prev <? 0 then Workers (pred (busy w)) (S (signalling w)) (popping w) (gone_idle w) (gone w)
     else Workers (pred (busy w)) (signalling w) (S (popping w)) (gone_idle w) (gone w)).

Definition worker_signal (s : server) : server :=
  let w := w s in
  let l' := match l s with LSleep => LWoken | l => l end in
  Srv (q s) (set_idle_signal (qi s)) l' (Workers (busy w) (pred (signalling w)) (S (popping w)) (gone_idle w) (gone w)).

(** What a worker does with the result of the pop, one worker less in [w]
    already: process the connection, leave, or pop again. *)
Definition worker_popped (s : server) (r : pop_result) (q' : fd_queue_t) (w : workers) : server :=
  Srv q' (qi s) (l s)
    match r with
    | Popped _ => Workers (S (busy w)) (signalling w) (popping w) (gone_idle w) (gone w)
    | Eof => Workers (busy w) (signalling w) (popping w) (S (gone_idle w)) (gone w)
    | Eintr => Workers (busy w) (signalling w) (S (popping w)) (gone_idle w) (gone w)
    | Blocked => w
    end.

Definition worker_pop (s : server) : option server :=
  let w := w s in
  '(r, q') ← zevent_queue_pop (q s);
  Some (worker_popped s r q' (Workers (busy w) (signalling w) (pred (popping w)) (gone_idle w) (gone w))).

Definition worker_awake (s : server) (leave : cond -> cond) : option server :=
  '(r, q') ← zevent_queue_pop_awake (set_cond (q s) (leave (not_empty (q s))));
  Some (worker_popped s r q' (w s)).

(** [workers_may_exit]. *)
Definition worker_exit_busy (s : server) : server :=
  let w := w s in
  with_w s (Workers (pred (busy w)) (signalling w) (popping w) (gone_idle w) (S (gone w))).
Definition worker_exit_idle (s : server) : server :=
  let w := w s in
  with_w s (Workers (busy w) (signalling w) (pred (popping w)) (S (gone_idle w)) (gone w)).

(** *** The listener: [get_worker], [push2worker], the end of [listener_thread] *)

Definition reserved (qi' : fd_queue_info_t) : listener := if wait_result qi' then LHave else LFree.

Definition get_worker_dec (s : server) : server :=
  let '(prev, qi') := wait_dec (qi s) in
  Srv (q s) qi' (if prev <=? 0 then LPre else reserved qi') (w s).

Definition get_worker_check (s : server) : server :=
  let '(sleeps, qi') := wait_check (qi s) in
  Srv (q s) qi' (if sleeps then LSleep else reserved qi') (w s).

Definition get_worker_woken (s : server) (leave : cond -> cond) : server :=
  let qi' := wait_wake (qi s) leave in Srv (q s) qi' (reserved qi') (w s).

Definition push2worker (s : server) (e : fd_queue_elem_t) : option server :=
  q' ← zevent_queue_push (q s) e; Some (Srv q' (qi s) LFree (w s)).

Definition listener_exit (s : server) : server := Srv (set_terminated (q s)) (qi s) LGone (w s).

(** *** The interleavings *)

(** [exact]: every wake-up of the listener finds an idle worker. *)
Inductive step (exact : bool) (s : server) : option server -> Prop :=
| s_set_idle : (0 < busy (w s))%nat -> step exact s (Some (worker_set_idle s))
| s_signal : (0 < signalling (w s))%nat -> step exact s (Some (worker_signal s))
| s_pop : (0 < popping (w s))%nat -> step exact s (worker_pop s)
| s_pop_woken : (0 < woken (not_empty (q s)))%nat -> step exact s (worker_awake s leave_woken)
| s_pop_spurious : (0 < sleeping (not_empty (q s)))%nat -> step exact s (worker_awake s leave_sleep)
| s_exit_busy : (0 < busy (w s))%nat -> step exact s (Some (worker_exit_busy s))
| s_exit_idle : (0 < popping (w s))%nat -> step exact s (Some (worker_exit_idle s))
| s_dec : l s = LFree -> step exact s (Some (get_worker_dec s))
| s_check : l s = LPre -> step exact s (Some (get_worker_check s))
| s_woken : l s = LWoken -> (exact = true -> 0 <= idlers (qi s)) -> step exact s (Some (get_worker_woken s leave_woken))
| s_push e : l s = LHave -> step exact s (push2worker s e)
| s_exit : (l s = LFree \/ l s = LHave) -> step exact s (Some (listener_exit s))
| s_interrupt : step exact s (Some (Srv (zevent_queue_interrupt_all (q s)) (qi s) (l s) (w s)))
| s_spurious : l s = LSleep -> (exact = true -> 0 <= idlers (qi s)) -> step exact s (Some (get_worker_woken s leave_sleep)).

(** [None]: a write or a read outside the queue's array. *)
Inductive run (exact : bool) (n : nat) : option server -> Prop :=
| run_start : run exact n (Some (start n))
| run_step s o : run exact n (Some s) -> step exact s o -> run exact n o.

(** *** Invariant *)

(** The workers that count as idle. *)
Definition idle (s : server) : nat :=
  signalling (w s) + popping (w s) + gone_idle (w s) + sleeping (not_empty (q s)) + woken (not_empty (q s)).

(** A wait under way or a worker reserved. *)
Definition claim (l : listener) : Z := match l with LFree | LGone => 0 | _ => 1 end.
Definition in_wait (l : listener) : nat := match l with LSleep => 1 | _ => 0 end.

Record sinv (exact : bool) (n : nat) (s : server) : Prop := {
  v_q : qwf (q s);
  v_bounds : bounds (q s) = n;
  v_term : terminated (qi s) = false;
  v_workers : (busy (w s) + idle s + gone (w s) = n)%nat;
  v_idlers : l s <> LGone -> idlers (qi s) = Z.of_nat (idle s) - Z.of_nat (nelts (q s)) - claim (l s);
  v_sleep : sleeping (wait_for_idler (qi s)) = in_wait (l s);
  v_listener : l s = LSleep -> idlers (qi s) < 0 \/ (0 < signalling (w s))%nat;
  v_queue : (0 < sleeping (not_empty (q s)))%nat -> (nelts (q s) <= woken (not_empty (q s)))%nat;
  v_have : exact = true -> l s = LHave \/ l s = LFree -> 0 <= idlers (qi s)
}.

Lemma pop_awake_ok q :
  qwf q ->
  exists r q', zevent_queue_pop_awake q = Some (r, q') /\ qwf q' /\ bounds q' = bounds q /\
    not_empty q' = not_empty q /\
    match r with
    | Popped e => nelts q = S (nelts q') /\ contents q = e :: contents q'
    | Eof => q' = q /\ nelts q = O /\ Queue.terminated q = true
    | Eintr => q' = q /\ nelts q = O
    | Blocked => False
    end.
Proof.
  intros Hq. unfold zevent_queue_pop_awake, zevent_queue_empty. destruct (nelts q =? 0)%nat eqn:E.
  - apply Nat.eqb_eq in E. eexists _, _. split; [done|]. split_and!; [done..|]. by destruct (Queue.terminated q).
  - apply Nat.eqb_neq in E. destruct (take_elem_ok q Hq ltac:(lia)) as (e & q' & -> & ? & ? & ? & ? & ? & ?).
    eexists _, _. split; [done|]. done.
Qed.

Lemma queue_pop_ok q :
  qwf q ->
  exists r q', zevent_queue_pop q = Some (r, q') /\ qwf q' /\ bounds q' = bounds q /\
    match r with
    | Popped e => nelts q = S (nelts q') /\ contents q = e :: contents q' /\ not_empty q' = not_empty q
    | Eof => q' = q /\ nelts q = O /\ Queue.terminated q = true
    | Eintr => False
    | Blocked => q' = set_cond q (cond_wait (not_empty q)) /\ nelts q = O /\ Queue.terminated q = false
    end.
Proof.
  intros Hq. unfold zevent_queue_pop. destruct (pop_awake_ok q Hq) as (r & q' & E & H1 & H2 & H3 & H4).
  unfold zevent_queue_pop_awake, zevent_queue_empty in *. destruct (nelts q =? 0)%nat eqn:En.
  - apply Nat.eqb_eq in En. destruct (Queue.terminated q) eqn:Et; cbn [negb]; eexists _, _; (split; [done|]).
    + simplify_eq. by split_and!.
    + split_and!; [|done..]. destruct Hq. by split.
  - eexists _, _. split; [done|]. split; [done|]. split; [done|].
    unfold take_elem in E. destruct (aread _ _); [|done]. cbn [mbind option_bind] in E. simplify_eq. naive_solver.
Qed.

Lemma start_inv exact n : sinv exact n (start n).
Proof. split; cbn; try done; try lia. apply init_wf. Qed.

(** Sleeping and woken threads of a condition variable. *)
Lemma cond_signal_sum c :
  (sleeping (cond_signal c) + woken (cond_signal c) = sleeping c + woken c)%nat /\
  (sleeping (cond_signal c) = pred (sleeping c)) /\ (0 < sleeping c -> woken (cond_signal c) = S (woken c))%nat.
Proof. unfold cond_signal. destruct c as [[|n] m]; cbn; lia. Qed.

(** The worker got an answer [r] and the queue [q'], its place [w'] given up. *)
Lemma popped_inv exact n s r q' w' :
  sinv exact n s -> qwf q' -> bounds q' = bounds (q s) ->
  busy w' = busy (w s) -> signalling w' = signalling (w s) -> gone_idle w' = gone_idle (w s) -> gone w' = gone (w s) ->
  (popping w' + sleeping (not_empty q') + woken (not_empty q') + (match r with Blocked => 0 | _ => 1 end) =
     popping (w s) + sleeping (not_empty (q s)) + woken (not_empty (q s)))%nat ->
  nelts (q s) = (match r with Popped _ => S (nelts q') | _ => nelts q' end) ->
  ((0 < sleeping (not_empty q'))%nat -> (nelts q' <= woken (not_empty q'))%nat) ->
  sinv exact n (worker_popped s r q' w').
Proof.
  intros [] Hq Hb H1 H2 H3 H4 Hsum Hn Hw. unfold idle in *.
  split; unfold idle; cbn; destruct r; cbn; rewrite ?H1, ?H2, ?H3, ?H4; try done; try lia;
    try (intros Hl; specialize (v_idlers0 Hl); lia); rewrite ?Hb; done.
Qed.

Lemma worker_pop_inv exact n s :
  sinv exact n s -> (0 < popping (w s))%nat -> exists s', worker_pop s = Some s' /\ sinv exact n s'.
Proof.
  intros Hi Hpos. pose proof Hi as []. unfold worker_pop.
  destruct (queue_pop_ok (q s) v_q0) as (r & q' & -> & Hq & Hb & Hr). cbn [mbind option_bind].
  eexists. split; [done|]. destruct r as [e| | |].
  - destruct Hr as (Hn & _ & Hne). apply popped_inv; try done; rewrite ?Hne; cbn; try lia.
  - destruct Hr as (-> & Hn & _). apply popped_inv; try done; cbn; lia.
  - done.
  - destruct Hr as (-> & Hn & _). apply popped_inv; try done; cbn; lia.
Qed.

Lemma worker_awake_inv exact n s leave :
  sinv exact n s ->
  (sleeping (leave (not_empty (q s))) + woken (leave (not_empty (q s))) + 1 =
     sleeping (not_empty (q s)) + woken (not_empty (q s)))%nat ->
  (sleeping (leave (not_empty (q s))) <= sleeping (not_empty (q s)))%nat ->
  exists s', worker_awake s leave = Some s' /\ sinv exact n s'.
Proof.
  intros Hi Hsum Hsl. pose proof Hi as []. unfold worker_awake.
  destruct (pop_awake_ok (set_cond (q s) (leave (not_empty (q s))))) as (r & q' & -> & Hq & Hb & Hne & Hr).
  { destruct v_q0. by split. }
  cbn [mbind option_bind]. eexists. split; [done|]. cbn in Hne, Hb.
  destruct r as [e| | |]; [destruct Hr as [Hn _]|destruct Hr as (-> & Hn & _)|destruct Hr as (-> & Hn)|done];
    cbn in Hn; apply popped_inv; try done; cbn; rewrite ?Hne; lia.
Qed.

Lemma push_inv exact n s e :
  sinv exact n s -> l s = LHave -> (nelts (q s) < n)%nat ->
  exists s', push2worker s e = Some s' /\ sinv exact n s'.
Proof.
  intros [] Hl Hlt. unfold push2worker. pose proof (push_ok (q s) e v_q0) as Hp. rewrite decide_True in Hp by lia.
  destruct Hp as (q' & -> & Hq & _ & Hn & Hb & _ & Hne). cbn [mbind option_bind]. eexists. split; [done|].
  pose proof (cond_signal_sum (not_empty (q s))) as (Hc1 & Hc2 & Hc3). unfold idle in *. rewrite Hl in *. cbn in *.
  split; unfold idle; cbn; rewrite ?Hne, ?Hn, ?Hb; try done; try lia.
  - intros _. specialize (v_idlers0 ltac:(done)). lia.
  - intros Hex _. apply v_have0; [done|by left].
Qed.

Lemma worker_set_idle_inv exact n s : sinv exact n s -> (0 < busy (w s))%nat -> sinv exact n (worker_set_idle s).
Proof.
  intros [] Hpos. unfold worker_set_idle. cbn. unfold idle in *.
  split; unfold idle; cbn; destruct (idlers (qi s) <? 0) eqn:E; cbn; try done; try lia;
    intros; try (specialize (v_idlers0 ltac:(done))); try (specialize (v_have0 ltac:(done) ltac:(done))); try lia.
Qed.

Lemma worker_signal_inv exact n s : sinv exact n s -> (0 < signalling (w s))%nat -> sinv exact n (worker_signal s).
Proof.
  intros [] Hpos. unfold worker_signal. unfold idle in *.
  pose proof (cond_signal_sum (wait_for_idler (qi s))) as (Hc1 & Hc2 & _).
  split; unfold idle; cbn; try done; try lia; destruct (l s); cbn in *; try done; try lia;
    intros; try (specialize (v_idlers0 ltac:(done))); try lia; try (destruct H0; done); auto.
Qed.

Lemma get_worker_inv exact n s :
  sinv exact n s ->
  (l s = LFree -> sinv exact n (get_worker_dec s)) /\
  (l s = LPre -> sinv exact n (get_worker_check s)) /\
  (l s = LWoken -> (exact = true -> 0 <= idlers (qi s)) -> sinv exact n (get_worker_woken s leave_woken)) /\
  (l s = LSleep -> (exact = true -> 0 <= idlers (qi s)) -> sinv exact n (get_worker_woken s leave_sleep)).
Proof.
  intros []. split_and!; intros Hl; rewrite Hl in *; cbn in *.
  - unfold get_worker_dec, wait_dec, reserved, wait_result. cbn. rewrite v_term0. specialize (v_idlers0 ltac:(done)).
    split; cbn; try done; destruct (idlers (qi s) <=? 0) eqn:E; cbn; try done; unfold idle in *; cbn; try lia.
    intros _ [?|?]; done.
  - unfold get_worker_check, wait_check, reserved, wait_result. specialize (v_idlers0 ltac:(done)).
    destruct (idlers (qi s) <? 0) eqn:E; [|rewrite v_term0]; (split; cbn; try done; unfold idle in *; cbn; try lia).
    + intros _ [?|?]; done.
  - intros Hex. unfold get_worker_woken, reserved, wait_result. cbn. rewrite v_term0. specialize (v_idlers0 ltac:(done)).
    split; cbn; try done; unfold idle in *; cbn; lia.
  - intros Hex. unfold get_worker_woken, reserved, wait_result. cbn. rewrite v_term0. specialize (v_idlers0 ltac:(done)).
    split; cbn; try done; unfold idle in *; cbn; lia.
Qed.

Lemma listener_exit_inv exact n s : sinv exact n s -> l s = LFree \/ l s = LHave -> sinv exact n (listener_exit s).
Proof.
  intros [] Hl. destruct v_q0. split; cbn; try done.
  - destruct Hl as [Hl|Hl]; rewrite Hl in *; done.
  - by intros _ [?|?].
Qed.

Lemma server_step_inv exact n s s' : sinv exact n s -> step exact s (Some s') -> sinv exact n s'.
Proof.
  intros Hi H. inversion H as [H0 E|H0 E|H0 E|H0 E|H0 E|H0 E|H0 E|H0 E|H0 E|H0 H1 E|e H0 E|H0 E|E|H0 H1 E]; subst.
  - by apply worker_set_idle_inv.
  - by apply worker_signal_inv.
  - destruct (worker_pop_inv _ _ _ Hi H0) as (? & ? & ?). congruence.
  - destruct (worker_awake_inv _ _ _ leave_woken Hi) as (? & ? & ?); cbn; [lia|lia|congruence].
  - destruct (worker_awake_inv _ _ _ leave_sleep Hi) as (? & ? & ?); cbn; [lia|lia|congruence].
  - destruct Hi. split; cbn; try done; unfold idle in *; cbn; lia.
  - destruct Hi. split; cbn; try done; unfold idle in *; cbn; lia.
  - by apply get_worker_inv.
  - by apply get_worker_inv.
  - by apply get_worker_inv.
  - destruct (decide (nelts (q s) < n)%nat) as [Hlt|Hge].
    + destruct (push_inv _ _ _ e Hi H0 Hlt) as (? & ? & ?). congruence.
    + pose proof (push_ok (q s) e (v_q _ _ _ Hi)) as Hp. rewrite decide_False in Hp; [|rewrite (v_bounds _ _ _ Hi); lia].
      unfold push2worker in *. by rewrite Hp in *.
  - by apply listener_exit_inv.
  - destruct Hi, v_q0. split; cbn; try done; unfold idle in *; cbn; lia.
  - by apply get_worker_inv.
Qed.

(** With an idle worker for every reservation the queue has room. *)
Lemma step_safe n s : sinv true n s -> step true s None -> False.
Proof.
  intros Hi H. inversion H as [| |H0 E|H0 E|H0 E| | | | | |e H0 E| | |].
  - destruct (worker_pop_inv _ _ _ Hi H0) as (? & ? & ?). congruence.
  - destruct (worker_awake_inv _ _ _ leave_woken Hi) as (? & ? & ?); cbn; [lia|lia|congruence].
  - destruct (worker_awake_inv _ _ _ leave_sleep Hi) as (? & ? & ?); cbn; [lia|lia|congruence].
  - destruct (push_inv _ _ _ e Hi H0) as (? & ? & ?); [|congruence].
    destruct Hi. rewrite H0 in *. cbn in *. specialize (v_idlers0 ltac:(done)).
    specialize (v_have0 eq_refl (or_introl eq_refl)). lia.
Qed.

Lemma run_inv exact n o : run exact n o -> forall s, o = Some s -> sinv exact n s.
Proof.
  induction 1 as [|s o Hr IH Hs]; intros s' E; [injection E as <-; apply start_inv|]. subst.
  by apply (server_step_inv _ _ s); [apply IH|].
Qed.
End Server.

(** ** The recycled pools *)

Module Pools.

(** A node lives in the pool it recycles, so a pool's number names both.
    [next] is the memory of the nodes. *)
Record memory := Mem { recycled_pools : option nat; next : gmap nat (option nat) }.

(** A thread in [zevent_push_pool] with the pool [p]: before it reads the head,
    or with the head it read in [new_recycle->next]. *)
Inductive pusher := Reading (p : nat) | Linking (p : nat) (nx : option nat).

(** The listener in [zevent_pop_pool]: outside; with the first node; with the
    first node and its [next]. *)
Inductive popper := Idle | HasFirst (first_pool : nat) | HasNext (first_pool : nat) (nx : option nat).

Record state := State { mem : memory; pushers : list pusher; listener : popper; out : list nat }.

Definition pool_of (t : pusher) : nat := match t with Reading p | Linking p _ => p end.

(** [apr_atomic_casptr]: the new memory and whether the head was [cmp]. *)
Definition casptr (m : memory) (with_ cmp : option nat) : memory * bool :=
  if bool_decide (recycled_pools m = cmp) then (Mem with_ (next m), true) else (m, false).

(** One round of the loop of [zevent_push_pool]: the read of the head with the
    store of [new_recycle->next], then the compare-and-swap. *)
Definition push_read (m : memory) (p : nat) : memory * pusher :=
  (Mem (recycled_pools m) (<[p := recycled_pools m]> (next m)), Linking p (recycled_pools m)).
Definition push_cas (m : memory) (p : nat) (nx : option nat) : memory * option pusher :=
  let '(m, ok) := casptr m (Some p) nx in (m, if ok then None else Some (Reading p)).

(** The loop of [zevent_pop_pool]: read the head; read its [next], [None] if the
    node does not exist; compare-and-swap. *)
Definition pop_read (m : memory) : popper :=
  match recycled_pools m with None => Idle | Some f => HasFirst f end.
Definition pop_next (m : memory) (f : nat) : option popper := nx ← next m !! f; Some (HasNext f nx).
Definition pop_cas (m : memory) (f : nat) (nx : option nat) : memory * option nat :=
  let '(m, ok) := casptr m nx (Some f) in (m, if ok then Some f else None).

(** Any number of pushers and one popper.  A client that owns a pool overwrites
    the node in it at will: its [next] becomes unknown. *)
Inductive step : state -> state -> Prop :=
| push_start m ts l o p o' : o ≡ₚ p :: o' -> step (State m ts l o) (State m (Reading p :: ts) l o')
| push_reads m ts l o p ts' : ts ≡ₚ Reading p :: ts' ->
    step (State m ts l o) (State (push_read m p).1 ((push_read m p).2 :: ts') l o)
| push_links m ts l o p nx ts' : ts ≡ₚ Linking p nx :: ts' ->
    step (State m ts l o)
      (State (push_cas m p nx).1 (match (push_cas m p nx).2 with None => ts' | Some t => t :: ts' end) l o)
| pop_start m ts o : step (State m ts Idle o) (State m ts (pop_read m) o)
| pop_nexts m ts f l o : pop_next m f = Some l -> step (State m ts (HasFirst f) o) (State m ts l o)
| pop_links m ts f nx o :
    step (State m ts (HasNext f nx) o)
      (State (pop_cas m f nx).1 ts Idle (match (pop_cas m f nx).2 with None => o | Some p => p :: o end))
| reuse m ts l o p : p ∈ o -> step (State m ts l o) (State (Mem (recycled_pools m) (delete p (next m))) ts l o).

(** The list a head leads to. *)
Fixpoint chain (nxt : gmap nat (option nat)) (h : option nat) (L : list nat) : Prop :=
  match L with
  | [] => h = None
  | p :: L => h = Some p /\ exists nx, nxt !! p = Some nx /\ chain nxt nx L
  end.

Record pinv (all : list nat) (L : list nat) (s : state) : Prop := {
  p_chain : chain (next (mem s)) (recycled_pools (mem s)) L;
  p_all : all ≡ₚ L ++ (pool_of <$> pushers s) ++ out s;
  p_nodup : NoDup all;
  p_link : forall p nx, Linking p nx ∈ pushers s -> next (mem s) !! p = Some nx;
  p_pop : match listener s with
          | Idle => True
          | HasFirst f => f ∈ L
          | HasNext f nx => f ∈ L /\ next (mem s) !! f = Some nx
          end
}.

Lemma chain_frame nxt nxt' h L :
  (forall p, p ∈ L -> nxt' !! p = nxt !! p) -> chain nxt h L -> chain nxt' h L.
Proof.
  revert h. induction L as [|p L IH]; intros h Hf; [done|]. intros (-> & nx & Hn & Hc). split; [done|].
  exists nx. split; [by rewrite Hf by left|]. apply IH; [|done]. intros q Hq. apply Hf. by right.
Qed.

Lemma chain_in nxt h L p : chain nxt h L -> p ∈ L -> is_Some (nxt !! p).
Proof.
  revert h. induction L as [|q L IH]; intros h; [by intros _ ?%not_elem_of_nil|].
  intros (-> & nx & Hn & Hc) [->|Hin]%elem_of_cons; [by eexists|by eapply IH].
Qed.

(** A pool of the stack is nobody else's. *)
Lemma disjoint_stack all L s p :
  pinv all L s -> p ∈ L -> p ∉ pool_of <$> pushers s /\ p ∉ out s.
Proof.
  intros [_ Ha Hn _ _] Hp. rewrite Ha in Hn. apply NoDup_app in Hn as (_ & Hd & _).
  specialize (Hd p Hp). by apply not_elem_of_app in Hd.
Qed.

Lemma disjoint_pushers all L s t ts :
  pinv all L s -> pushers s ≡ₚ t :: ts -> pool_of t ∉ L /\ pool_of t ∉ pool_of <$> ts /\ pool_of t ∉ out s.
Proof.
  intros [_ Ha Hn _ _] Hp. rewrite Ha, Hp in Hn. cbn in Hn. rewrite <- Permutation_middle in Hn.
  apply NoDup_cons in Hn as [Hn _]. rewrite !not_elem_of_app in Hn. tauto.
Qed.

(** What a step does to the abstract stack and to the pools outside it. *)
Definition stack_step (L L' o o' : list nat) : Prop :=
  (L' = L /\ (o' = o \/ exists p, o ≡ₚ p :: o')) \/ (exists p, L' = p :: L /\ o' = o) \/
  (exists p, L = p :: L' /\ o' = p :: o).

Lemma push_reads_inv all L m ts l o p ts' :
  pinv all L (State m ts l o) -> ts ≡ₚ Reading p :: ts' ->
  pinv all L (State (push_read m p).1 ((push_read m p).2 :: ts') l o).
Proof.
  intros Hi Hp. pose proof (disjoint_pushers _ _ _ _ _ Hi Hp) as (HL & Hts & _). destruct Hi as [Hc Ha Hn Hl Hpop].
  cbn in *. split; cbn; [| |done| |].
  - eapply chain_frame; [|done]. intros q Hq. rewrite lookup_insert_ne; [done|]. by intros ->.
  - rewrite Ha, Hp. done.
  - intros q nx [E|Hin]%elem_of_cons; [simplify_eq; by rewrite lookup_insert_eq|].
    rewrite lookup_insert_ne; [apply Hl; rewrite Hp; by right|]. intros ->. apply Hts.
    apply list_elem_of_fmap. by exists (Linking q nx).
  - destruct l as [|f|f nx]; [done|done|]. destruct Hpop as [Hf Hnx]. split; [done|].
    rewrite lookup_insert_ne; [done|]. by intros ->.
Qed.

Lemma push_links_inv all L m ts l o p nx ts' :
  pinv all L (State m ts l o) -> ts ≡ₚ Linking p nx :: ts' ->
  exists L', (L' = L \/ L' = p :: L) /\
    pinv all L' (State (push_cas m p nx).1 (match (push_cas m p nx).2 with None => ts' | Some t => t :: ts' end) l o).
Proof.
  intros [Hc Ha Hn Hl Hpop] Hp. cbn in *. pose proof (Hl p nx ltac:(rewrite Hp; by left)) as Hlk.
  unfold push_cas, casptr. case_bool_decide as Hcas; cbn.
  - exists (p :: L). split; [by right|]. split; cbn; [| |done| |].
    + split; [done|]. exists nx. split; [done|]. by rewrite <- Hcas.
    + rewrite Ha, Hp. cbn. by rewrite <- Permutation_middle.
    + intros q nx' Hq. apply Hl. rewrite Hp. by right.
    + destruct l as [|f|f nx']; [done|by right|]. destruct Hpop. split; [by right|done].
  - exists L. split; [by left|]. split; cbn; [done|by rewrite Ha, Hp|done| |done].
    intros q nx' [E|Hq]%elem_of_cons; [done|]. apply Hl. rewrite Hp. by right.
Qed.

Lemma pop_links_inv all L m ts f nx o :
  pinv all L (State m ts (HasNext f nx) o) ->
  exists L', let o' := match (pop_cas m f nx).2 with None => o | Some p => p :: o end in
    ((L' = L /\ o' = o) \/ (L = f :: L' /\ o' = f :: o)) /\ pinv all L' (State (pop_cas m f nx).1 ts Idle o').
Proof.
  intros [Hc Ha Hn Hl Hpop]. cbn in *. unfold pop_cas, casptr. case_bool_decide as Hcas; cbn.
  - destruct L as [|f' L]; [by rewrite Hcas in Hc|]. destruct Hc as (E & nx' & Hnx & Hc). rewrite Hcas in E. simplify_eq.
    destruct Hpop as [_ Hnx']. simplify_eq. exists L. split; [by right|]. split; cbn; [done| |done|done|done].
    rewrite Ha. cbn. by rewrite <- !Permutation_middle.
  - exists L. split; [by left|]. by split.
Qed.

Lemma step_stack all L s s' :
  pinv all L s -> step s s' -> exists L', pinv all L' s' /\ stack_step L L' (out s) (out s').
Proof.
  intros Hi Hs. destruct Hs as [m ts l o p o' Hp|m ts l o p ts' Hp|m ts l o p nx ts' Hp|m ts o|m ts f l o E|m ts f nx o|m ts l o p Hp].
  - exists L. split; [|left; split; [done|]; right; by exists p]. destruct Hi as [Hc Ha Hn Hl Hpop]. cbn in *.
    split; cbn; [done| |done| |done].
    + rewrite Ha, Hp. apply Permutation_app_head. by rewrite <- Permutation_middle.
    + intros q nx [?|?]%elem_of_cons; [done|]. by apply Hl.
  - exists L. split; [by apply push_reads_inv with ts|]. left. split; [done|by left].
  - destruct (push_links_inv _ _ _ _ _ _ _ _ _ Hi Hp) as (L' & [->| ->] & HL'); eexists; (split; [done|]).
    + left. split; [done|by left].
    + right. left. by exists p.
  - exists L. split; [|left; split; [done|by left]]. destruct Hi as [Hc Ha Hn Hl Hpop]. cbn in *. split; cbn; try done.
    unfold pop_read. destruct L as [|f L]; cbn in Hc; [by rewrite Hc|]. destruct Hc as [-> _]. by left.
  - exists L. split; [|left; split; [done|by left]]. destruct Hi as [Hc Ha Hn Hl Hpop]. cbn in *.
    unfold pop_next in E. destruct (next m !! f) as [nx|] eqn:Ef; [|done]. cbn [mbind option_bind] in E. simplify_eq.
    by split.
  - destruct (pop_links_inv _ _ _ _ _ _ _ Hi) as (L' & [[-> E]|[-> E]] & HL'); eexists; (split; [done|]); cbn [out].
    + left. split; [done|]. left. exact E.
    + right. right. exists f. split; [done|]. exact E.
  - exists L. split; [|left; split; [done|by left]]. pose proof (fun p => disjoint_stack all L _ p Hi) as Hd.
    assert (p ∉ L /\ p ∉ pool_of <$> ts) as [HL Hts].
    { split; intros Hin; [by apply (Hd p Hin)|]. destruct Hi as [_ Ha Hn _ _]. cbn in *. rewrite Ha in Hn.
      apply NoDup_app in Hn as (_ & _ & Hn). apply NoDup_app in Hn as (_ & Hn & _). by apply (Hn p). }
    destruct Hi as [Hc Ha Hn Hl Hpop]. cbn in *. split; cbn; [| |done| |]; try done.
    + eapply chain_frame; [|done]. intros q Hq. rewrite lookup_delete_ne; [done|]. by intros ->.
    + intros q nx Hq. rewrite lookup_delete_ne; [by apply Hl|]. intros ->. apply Hts. apply list_elem_of_fmap. by exists (Linking q nx).
    + destruct l as [|f|f nx]; [done|done|]. destruct Hpop as [Hf Hnx]. split; [done|].
      rewrite lookup_delete_ne; [done|]. by intros ->.
Qed.

(** No pool recycled yet. *)
Definition start (pools : list nat) : state := State (Mem None ∅) [] Idle pools.

Lemma stack_reachable_inv pools s : NoDup pools -> rtc step (start pools) s -> exists L, pinv pools L s.
Proof.
  intros Hn Hr. enough (forall L, pinv pools L (start pools) -> exists L, pinv pools L s) as H.
  { apply (H []). split; cbn; [done|done|done|by intros ? ? ?%not_elem_of_nil|done]. }
  induction Hr as [s|s1 s2 s3 H12 _ IH]; intros L HL; [by exists L|].
  destruct (step_stack _ _ _ _ HL H12) as (L' & HL' & _). by apply (IH L').
Qed.
End Pools.

(** ** The properties *)

Import Queue Info.

(** The queue is a bounded last-in first-out stack: a push writes inside the
    array exactly when there is room and puts its element on top, a pop takes
    the top one, and only on an empty queue does it report end of file (after
    termination) or go to sleep; a thread that wakes up gets the top element,
    end of file, or the interruption. *)
Theorem fd_queue_lifo q e :
  qwf q ->
  ((exists q', zevent_queue_push q e = Some q' /\ qwf q' /\ contents q' = Some e :: contents q) \/
   (nelts q = bounds q /\ zevent_queue_push q e = None)) /\
  (exists r q', zevent_queue_pop q = Some (r, q') /\ qwf q' /\
     match r with
     | Popped e => contents q = e :: contents q'
     | Eof => contents q = [] /\ Queue.terminated q = true
     | Eintr => False
     | Blocked => contents q = [] /\ Queue.terminated q = false /\ not_empty q' = cond_wait (not_empty q)
     end) /\
  (exists r q', zevent_queue_pop_awake q = Some (r, q') /\ qwf q' /\
     match r with
     | Popped e => contents q = e :: contents q'
     | Eof => contents q = [] /\ Queue.terminated q = true
     | Eintr => contents q = []
     | Blocked => False
     end).
Proof.
  intros Hq. assert (nelts q = O -> contents q = []) as H0 by (intros E; unfold contents; by rewrite E).
  split_and!.
  - pose proof (push_ok q e Hq) as Hp. case_decide as Hlt.
    + left. destruct Hp as (q' & ? & ? & ? & _). by exists q'.
    + right. destruct Hq. split; [lia|done].
  - destruct (Server.queue_pop_ok q Hq) as (r & q' & -> & Hq' & _ & Hr). exists r, q'. split; [done|]. split; [done|].
    destruct r; [tauto|tauto|done|]. destruct Hr as (-> & ? & ?). auto.
  - destruct (Server.pop_awake_ok q Hq) as (r & q' & -> & Hq' & _ & _ & Hr). exists r, q'. split; [done|]. split; [done|].
    destruct r; tauto.
Qed.

Lemma fd_queue_lifo_witness :
  exists q', zevent_queue_push (zevent_queue_init 2) (Elem 1 2 3) = Some q' /\ qwf q'.
Proof.
  destruct (fd_queue_lifo (zevent_queue_init 2) (Elem 1 2 3) (init_wf 2)) as [[(q' & H1 & H2 & _)|[H _]] _].
  - exists q'. split; [exact H1|exact H2].
  - discriminate H.
Defined.

(** C15: Under every interleaving of the listener and its workers nobody waits in
    vain: a sleeping listener has no idle worker that is not already spoken for
    by a queued connection, unless a worker is about to signal it; and while a
    worker sleeps in the queue there are no more connections than woken
    workers coming for them. *)
Theorem server_nobody_forgotten exact n s :
  Server.run exact n (Some s) ->
  (Server.l s = Server.LSleep -> Server.signalling (Server.w s) = O ->
     (Server.idle s <= nelts (Server.q s))%nat) /\
  ((0 < sleeping (not_empty (Server.q s)))%nat ->
     (nelts (Server.q s) <= woken (not_empty (Server.q s)))%nat).
Proof.
  intros Hr. destruct (Server.run_inv _ _ _ Hr s eq_refl). split; [|done]. intros Hl Hs.
  destruct (v_listener Hl) as [Hneg|]; [|lia]. rewrite Hl in *. specialize (v_idlers ltac:(done)). cbn in v_idlers. lia.
Qed.

(** C11: In every run in which each wake-up of the listener finds the idle worker
    it was sent for, the reservations keep the queue from overflowing: no push
    ever writes, and no pop ever reads, outside the array, which has a slot per
    worker. *)
Theorem server_queue_never_overflows n o :
  Server.run true n o -> exists s, o = Some s /\ (nelts (Server.q s) <= n)%nat /\ length (data (Server.q s)) = n.
Proof.
  intros Hr. destruct o as [s|].
  - exists s. split; [done|]. destruct (Server.run_inv _ _ _ Hr s eq_refl) as [[Hl Hn] Hb _ _ _ _ _ _ _]. lia.
  - exfalso. inversion Hr as [|s o Hs Hst E]; subst. apply (Server.step_safe n s); [|done].
    by apply (Server.run_inv true n (Some s)).
Qed.

(** A run with one worker, up to the listener's first reservation. *)
Definition sample_run : list (Server.server -> option Server.server) :=
  [fun s => Some (Server.get_worker_dec s); fun s => Some (Server.worker_set_idle s);
   fun s => Some (Server.get_worker_check s); fun s => Server.push2worker s (Elem 1 2 3);
   fun s => Some (Server.get_worker_dec s); fun s => Some (Server.get_worker_check s);
   fun s => Some (Server.worker_signal s)].

Fixpoint follow (fs : list (Server.server -> option Server.server)) (s : Server.server) : option Server.server :=
  match fs with [] => Some s | f :: fs => s ← f s; follow fs s end.

Definition after (n : nat) : Server.server := default (Server.start 1) (follow (take n sample_run) (Server.start 1)).

Ltac take_step n := apply (Server.run_step _ _ (after n)); [|].

Lemma sample_run_ok exact : Server.run exact 1 (Some (after 7)).
Proof.
  take_step 6%nat; [|apply Server.s_signal; vm_compute; lia].
  take_step 5%nat; [|by apply Server.s_check].
  take_step 4%nat; [|by apply Server.s_dec].
  take_step 3%nat; [|by apply (Server.s_push exact (after 3) (Elem 1 2 3))].
  take_step 2%nat; [|by apply Server.s_check].
  take_step 1%nat; [|apply Server.s_set_idle; vm_compute; lia].
  take_step 0%nat; [|by apply Server.s_dec]. apply Server.run_start.
Qed.

Lemma server_nobody_forgotten_witness :
  Server.run false 1 (Some (after 7)) /\
  ((0 < sleeping (not_empty (Server.q (after 7))))%nat ->
     (nelts (Server.q (after 7)) <= woken (not_empty (Server.q (after 7))))%nat).
Proof. split; [apply sample_run_ok|]. apply (server_nobody_forgotten false 1), sample_run_ok. Defined.

Lemma server_queue_never_overflows_witness : (nelts (Server.q (after 7)) <= 1)%nat.
Proof.
  destruct (server_queue_never_overflows 1 (Some (after 7)) (sample_run_ok true)) as (s & E & H & _).
  injection E as E. rewrite E. exact H.
Defined.

(** Without that condition the queue does overflow, and no spurious wake-up is
    needed: a worker counts itself idle, the listener sees it in its second
    check and takes it, queues a connection and sleeps in its next wait; only
    then does the worker signal, and the listener goes on without a worker and
    writes behind the end of the array. *)
Example stale_signal_overflows : Server.run false 1 None.
Proof.
  apply (Server.run_step _ _ (Server.get_worker_woken (after 7) leave_woken)).
  - apply (Server.run_step _ _ (after 7)); [apply sample_run_ok|]. by apply Server.s_woken.
  - assert (Server.push2worker (Server.get_worker_woken (after 7) leave_woken) (Elem 4 5 6) = None) as <- by reflexivity.
    by apply Server.s_push.
Qed.

(** C19: The list of recycled pools is a linearizable stack for any number of
    threads that push and the one listener that pops: in every reachable state
    it is a chain of distinct pools, each pool is exactly once on it, in a
    push or with a client, the pop never follows the node of a pool that is
    not on it, and each step leaves the stack alone, pushes one pool or pops
    the top one to a client. *)
Theorem recycled_pools_linearizable pools s s' :
  NoDup pools -> rtc Pools.step (Pools.start pools) s -> Pools.step s s' ->
  exists L L',
    Pools.chain (Pools.next (Pools.mem s)) (Pools.recycled_pools (Pools.mem s)) L /\
    Pools.chain (Pools.next (Pools.mem s')) (Pools.recycled_pools (Pools.mem s')) L' /\
    pools ≡ₚ L ++ (Pools.pool_of <$> Pools.pushers s) ++ Pools.out s /\
    Pools.stack_step L L' (Pools.out s) (Pools.out s') /\
    (forall f, Pools.listener s = Pools.HasFirst f -> is_Some (Pools.pop_next (Pools.mem s) f)).
Proof.
  intros Hn Hr Hs. destruct (Pools.stack_reachable_inv _ _ Hn Hr) as [L HL].
  destruct (Pools.step_stack _ _ _ _ HL Hs) as (L' & HL' & Hst). exists L, L'. destruct HL, HL'.
  split_and!; [done..|]. intros f Hf. rewrite Hf in p_pop. destruct (Pools.chain_in _ _ _ _ p_chain p_pop) as [nx Hnx].
  unfold Pools.pop_next. rewrite Hnx. by eexists.
Qed.

Lemma recycled_pools_linearizable_witness :
  exists L L', Pools.stack_step L L' [1; 2]%nat [2]%nat /\ [1; 2]%nat ≡ₚ L ++ [] ++ [1; 2]%nat.
Proof.
  destruct (recycled_pools_linearizable [1; 2]%nat (Pools.start [1; 2]%nat)
    (Pools.State (Pools.Mem None ∅) [Pools.Reading 1%nat] Pools.Idle [2]%nat)) as (L & L' & _ & _ & H1 & H2 & _).
  - repeat constructor; set_solver.
  - apply rtc_refl.
  - by apply Pools.push_start.
  - exists L, L'. split; [exact H2|exact H1].
Defined.
