(* ===== verification/Iobuf.v ===== *)
(** The growing byte buffer of the HTTP client and the control interface:
    [libbt/misc/iobuf.c], and [memfind] of [libbt/misc/subr.c].

    [block] is the allocation, [buf] points [skip] bytes into it.  The abstract
    view is the queue of the bytes written and not yet consumed.  [realloc] and
    [malloc] are arguments; a [memcpy] between overlapping ranges is [None]. *)
From S2P Require Import Prelude.
Local Open Scope Z_scope.

(** ** [memfind] *)

(** The comparison of one position, [m] being the memory from there on. *)
Fixpoint match_at (s m : list Z) : option bool :=
  match s with
  | [] => Some true
  | c :: s => x ← aread m 0; if x =? c then match_at s (drop 1 m) else Some false
  end.

Fixpoint find_loop (fuel : nat) (s m : list Z) (i : nat) (n : Z) : option (option nat) :=
  match fuel with
  | O => None
  | S fuel =>
      if Z.of_nat i <? n then
        eq ← match_at s (drop i m);
        if (eq : bool) then Some (Some i) else find_loop fuel s m (S i) n
      else Some None
  end.

(** The offset of the match; [m] is the memory behind the pointer up to the end
    of its block, which may reach beyond [memlen]. *)
Definition memfind (s m : list Z) (memlen : Z) : option (option nat) :=
  find_loop (S (S (length m))) s m 0 (u64 (u64 (memlen - Z.of_nat (length s)) + 1)).

(** [s] occurs in [m] at [i]. *)
Definition occurs (s m : list Z) (i : nat) : Prop := take (length s) (drop i m) = s.

Lemma match_at_ok s m : (length s <= length m)%nat -> match_at s m = Some (bool_decide (take (length s) m = s)).
Proof.
  revert m. induction s as [|c s IH]; intros m Hl; [done|]. destruct m as [|x m]; [cbn in Hl; lia|].
  cbn [match_at aread lookup list_lookup mbind option_bind drop length take]. cbn [length] in Hl.
  destruct (x =? c) eqn:E.
  - apply Z.eqb_eq in E as ->. rewrite drop_0, IH by lia. f_equal. apply bool_decide_ext. split; [by intros ->|by intros [= ->]].
  - f_equal. symmetry. apply bool_decide_false. intros [= ? _]. lia.
Qed.

Lemma find_loop_ok fuel s m i n :
  Z.of_nat (length s) <= Z.of_nat (length m) + 1 -> n <= Z.of_nat (length m) - Z.of_nat (length s) + 1 ->
  (Z.to_nat n - i < fuel)%nat ->
  exists r, find_loop fuel s m i n = Some r /\
    match r with
    | Some j => (i <= j)%nat /\ Z.of_nat j < n /\ occurs s m j /\ forall k, (i <= k < j)%nat -> ~ occurs s m k
    | None => forall k, (i <= k)%nat -> Z.of_nat k < n -> ~ occurs s m k
    end.
Proof.
  intros Hs Hn. revert i. induction fuel as [|fuel IH]; intros i Hf; [lia|]. cbn [find_loop].
  destruct (Z.of_nat i <? n) eqn:E; [|eexists; split; [done|]; cbn; lia].
  rewrite match_at_ok by (rewrite length_drop; lia). cbn [mbind option_bind]. case_bool_decide as Ho.
  - eexists. split; [done|]. cbn. split_and!; [lia|lia|done|lia].
  - destruct (IH (S i) ltac:(lia)) as (r & -> & Hr). exists r. split; [done|]. destruct r as [j|].
    + destruct Hr as (? & ? & ? & Hk). split_and!; [lia|lia|done|]. intros k Hik.
      destruct (decide (k = i)) as [->|]; [done|]. apply Hk. lia.
    + intros k Hik Hkn. destruct (decide (k = i)) as [->|]; [done|]. apply Hr; lia.
Qed.

(** The first occurrence, for a needle that is at most one byte longer. *)
Lemma memfind_ok s m memlen :
  0 <= memlen <= Z.of_nat (length m) -> Z.of_nat (length s) <= memlen + 1 -> memlen < 2 ^ 63 ->
  exists r, memfind s m memlen = Some r /\
    match r with
    | Some j => Z.of_nat (j + length s) <= memlen /\ occurs s m j /\ forall k, (k < j)%nat -> ~ occurs s m k
    | None => forall k, Z.of_nat (k + length s) <= memlen -> ~ occurs s m k
    end.
Proof.
  intros Hm Hs Hb. unfold memfind.
  assert (u64 (u64 (memlen - Z.of_nat (length s)) + 1) = memlen - Z.of_nat (length s) + 1) as ->.
  { destruct (decide (memlen - Z.of_nat (length s) = -1)) as [->|]; [done|]. rewrite !(wrap_small 64); rewrite ?(wrap_small 64); lia. }
  destruct (find_loop_ok (S (S (length m))) s m 0 (memlen - Z.of_nat (length s) + 1)) as (r & -> & Hr); [lia|lia|lia|].
  exists r. split; [done|]. destruct r as [j|].
  - destruct Hr as (_ & ? & ? & Hk). split_and!; [lia|done|]. intros k ?. apply Hk. lia.
  - intros k ?. apply Hr; lia.
Qed.

(** ** The buffer *)

Section Iobuf.
(** The contents of [n] fresh bytes, if there are any. *)
Context (fresh : Z -> option (list Z)).

Definition fresh_spec : Prop := forall n b, fresh n = Some b -> Z.of_nat (length b) = n.

Record iobuf := Iobuf { block : list Z; size : Z; off : Z; skip : Z; error : bool }.

Definition iobuf_init (n : Z) : iobuf :=
  match fresh n with
  | Some b => Iobuf b n 0 0 false
  | None => Iobuf [] n 0 0 true
  end.

Definition iobuf_free (iob : iobuf) : iobuf := Iobuf [] (size iob) (off iob) (skip iob) true.

Definition iobuf_consumed (iob : iobuf) (count : Z) : option iobuf :=
  if error iob then Some iob
  else
    ensure (count <=? off iob) ;;
    Some (Iobuf (block iob) (size iob) (off iob - count) (u64 (skip iob + count)) false).

(** [memcpy] of [n] bytes inside the block, from [src] down to its beginning. *)
Definition memcpy_front (b : list Z) (src n : Z) : option (list Z) :=
  ensure ((n =? 0) || (n <=? src)) ;;
  bs ← mread b (Z.to_nat src) (Z.to_nat n);
  mwrite b 0 bs.

(** [realloc] keeps the old bytes and adds fresh ones. *)
Definition realloc (b : list Z) (n : Z) : option (list Z) :=
  extra ← fresh (n - Z.of_nat (length b)); Some (b ++ extra).

Definition iobuf_accommodate (iob : iobuf) (count : Z) : option (bool * iobuf) :=
  if error iob then Some (false, iob)
  else
    let esize := u64 (size iob - u64 (skip iob + off iob)) in
    if esize >=? count then Some (true, iob)
    else if u64 (esize + skip iob) >=? count then
      b ← memcpy_front (block iob) (skip iob) (off iob);
      Some (true, Iobuf b (size iob) (off iob) 0 false)
    else
      match realloc (block iob) (u64 (size iob + count)) with
      | None => Some (false, Iobuf (block iob) (size iob) (off iob) (skip iob) true)
      | Some b => Some (true, Iobuf b (u64 (size iob + count)) (off iob) (skip iob) false)
      end.

(** Storing [bs] at [buf + off]. *)
Definition store (iob : iobuf) (bs : list Z) : option (list Z) :=
  mwrite (block iob) (Z.to_nat (skip iob + off iob)) bs.

Definition iobuf_write (iob : iobuf) (bs : list Z) : option (bool * iobuf) :=
  if error iob then Some (false, iob)
  else
    let count := Z.of_nat (length bs) in
    '(ok, iob) ← iobuf_accommodate iob count;
    if negb ok then Some (false, iob)
    else
      b ← store iob bs;
      Some (true, Iobuf b (size iob) (u64 (off iob + count)) (skip iob) (error iob)).

(** [text] is what the format gives; it is stored with its terminator. *)
Definition iobuf_print (iob : iobuf) (text : list Z) : option (bool * iobuf) :=
  if error iob then Some (false, iob)
  else
    let np := Z.of_nat (length text) in
    '(ok, iob) ← iobuf_accommodate iob (np + 1);
    if negb ok then Some (false, iob)
    else
      b ← store iob (text ++ [0]);
      Some (true, Iobuf b (size iob) (u64 (off iob + np)) (skip iob) (error iob)).

Definition iobuf_find (iob : iobuf) (p : list Z) : option (option nat) :=
  if error iob then Some None else memfind p (drop (Z.to_nat (skip iob)) (block iob)) (off iob).

(** ** Invariant and contents *)

Record iwf (iob : iobuf) : Prop := {
  i_size : size iob = Z.of_nat (length (block iob));
  i_range : 0 <= skip iob /\ 0 <= off iob /\ skip iob + off iob <= size iob;
  i_width : size iob < 2 ^ 63
}.

Definition contents (iob : iobuf) : list Z :=
  take (Z.to_nat (off iob)) (drop (Z.to_nat (skip iob)) (block iob)).

(** The move to the front would copy a range onto itself. *)
Definition overlaps (iob : iobuf) (count : Z) : Prop :=
  let room := size iob - (skip iob + off iob) in
  room < count <= room + skip iob /\ 0 < off iob /\ skip iob < off iob.

Lemma length_contents iob : iwf iob -> Z.of_nat (length (contents iob)) = off iob.
Proof. clear fresh. intros [Hs Hr _]. unfold contents. rewrite length_take, length_drop. lia. Qed.

(** What accommodating leaves: the same bytes and, on success, the room. *)
Definition accommodated (iob : iobuf) (count : Z) (ok : bool) (iob' : iobuf) : Prop :=
  if ok
  then iwf iob' /\ error iob' = false /\ contents iob' = contents iob /\
    off iob' = off iob /\ skip iob' + off iob' + count <= size iob'
  else iwf iob' /\ error iob' = true /\ contents iob' = contents iob.

Hypothesis Hfresh : fresh_spec.

Lemma iobuf_accommodate_ok iob count :
  iwf iob -> error iob = false -> 0 <= count -> size iob + count < 2 ^ 63 -> ~ overlaps iob count ->
  exists ok iob', iobuf_accommodate iob count = Some (ok, iob') /\ accommodated iob count ok iob'.
Proof.
  intros Hw He Hc Hb Hov. pose proof Hw as [Hs Hr Hwd]. unfold iobuf_accommodate, overlaps in *. rewrite He.
  rewrite (wrap_small 64 (skip iob + off iob)) by lia. set (esize := size iob - (skip iob + off iob)) in *.
  rewrite (wrap_small 64 esize), (wrap_small 64 (esize + skip iob)), (wrap_small 64 (size iob + count)) by lia.
  cbv zeta. destruct (esize >=? count) eqn:E1. { eexists _, _. split; [done|]. split_and!; [done|done|done|done|lia]. }
  destruct (esize + skip iob >=? count) eqn:E2.
  - unfold memcpy_front. replace ((off iob =? 0) || (off iob <=? skip iob)) with true by lia.
    cbn [ensure mbind option_bind]. rewrite mread_ok by lia. cbn [mbind option_bind].
    assert (length (contents iob) = Z.to_nat (off iob)) as Hlen by (pose proof (length_contents iob Hw); lia).
    fold (contents iob). rewrite mwrite_ok by lia. cbn [mbind option_bind]. eexists _, _. split; [done|].
    rewrite ?take_0, ?app_nil_l. split_and!; [|done| |done|cbn; lia].
    + split; cbn; [|lia|done]. rewrite length_app, length_drop. lia.
    + unfold contents at 1. cbn. rewrite drop_0, <- Hlen. apply take_app_length.
  - unfold realloc. destruct (fresh _) as [extra|] eqn:Ef; cbn [mbind option_bind].
    + apply Hfresh in Ef. eexists _, _. split; [done|]. split_and!; [|done| |done|cbn; lia].
      * split; cbn; [rewrite length_app|..]; lia.
      * unfold contents. cbn. rewrite drop_app_le by lia. rewrite take_app_le by (rewrite length_drop; lia). done.
    + eexists _, _. split; [done|]. by split_and!.
Qed.

(** Storing behind the contents. *)
Lemma iobuf_store_ok iob bs n :
  iwf iob -> (n <= length bs)%nat -> skip iob + off iob + Z.of_nat (length bs) <= size iob ->
  exists b, store iob bs = Some b /\
    iwf (Iobuf b (size iob) (u64 (off iob + Z.of_nat n)) (skip iob) (error iob)) /\
    contents (Iobuf b (size iob) (u64 (off iob + Z.of_nat n)) (skip iob) (error iob)) = contents iob ++ take n bs.
Proof.
  clear Hfresh fresh.
  intros Hw Hn Hroom. pose proof Hw as [Hs Hr Hwd]. unfold store. rewrite mwrite_ok by lia. eexists. split; [done|].
  rewrite (wrap_small 64) by lia. split.
  - split; cbn; [|lia|done]. rewrite !length_app, length_take, length_drop. lia.
  - unfold contents at 1. cbn. rewrite drop_app_le by (rewrite length_take; lia).
    replace (drop (Z.to_nat (skip iob)) (take (Z.to_nat (skip iob + off iob)) (block iob))) with (contents iob).
    + pose proof (length_contents iob Hw). rewrite take_app, take_ge by lia. f_equal.
      replace (Z.to_nat (off iob + Z.of_nat n) - length (contents iob))%nat with n by lia. by rewrite take_app_le.
    + unfold contents. rewrite take_drop_commute. f_equal. f_equal. lia.
Qed.

(** The bytes, a failed allocation or the error of a buffer that has failed. *)
Lemma iobuf_append_ok iob count bs n :
  iwf iob -> error iob = false -> (n <= length bs)%nat -> count = Z.of_nat (length bs) ->
  size iob + count < 2 ^ 63 -> ~ overlaps iob count ->
  exists ok iob', ('(ok, iob) ← iobuf_accommodate iob count;
      if negb ok then Some (false, iob)
      else
        b ← store iob bs;
        Some (true, Iobuf b (size iob) (u64 (off iob + Z.of_nat n)) (skip iob) (error iob))) = Some (ok, iob') /\
    iwf iob' /\ error iob' = negb ok /\ contents iob' = contents iob ++ (if (ok : bool) then take n bs else []).
Proof.
  intros Hw He Hn -> Hb Hov.
  destruct (iobuf_accommodate_ok iob (Z.of_nat (length bs)) Hw He ltac:(lia) Hb Hov) as (ok & iob1 & -> & Ha).
  cbn [mbind option_bind]. destruct ok; cbn [negb].
  - destruct Ha as (Hw1 & He1 & Hc1 & Ho1 & Hroom). destruct (iobuf_store_ok iob1 bs n Hw1 Hn Hroom) as (b & -> & Hw2 & Hc2).
    cbn [mbind option_bind]. eexists _, _. split; [done|]. split; [done|]. split; [done|]. by rewrite Hc2, Hc1.
  - destruct Ha as (Hw1 & He1 & Hc1). eexists _, _. split; [done|]. split_and!; [done|done|]. by rewrite Hc1, app_nil_r.
Qed.

Lemma iobuf_consumed_ok iob count :
  iwf iob -> error iob = false -> 0 <= count <= off iob ->
  exists iob', iobuf_consumed iob count = Some iob' /\ iwf iob' /\ error iob' = false /\
    contents iob' = drop (Z.to_nat count) (contents iob).
Proof.
  clear Hfresh fresh.
  intros [Hs Hr Hwd] He Hc. unfold iobuf_consumed. rewrite He. replace (count <=? off iob) with true by lia.
  cbn [ensure mbind option_bind]. eexists. split; [done|]. rewrite (wrap_small 64) by lia.
  split; [split; cbn; lia|]. split; [done|]. unfold contents. cbn. rewrite skipn_firstn_comm, drop_drop.
  f_equal; [lia|]. f_equal. lia.
Qed.
End Iobuf.

Arguments contents : clear implicits.

(** C39: The buffer is a queue of bytes, with sticky errors.  On a sound buffer without an
    error a write appends its bytes and a print its text without the terminator, or the
    allocation fails, the error is set and the bytes are kept; consuming no more than there
    is drops from the front; a search finds the first occurrence in the bytes held.  Once
    the error is set, a write and a print return 0 and a search [NULL], and none of the
    operations, consuming included, changes anything.  Nothing leaves the allocation and the
    invariant is kept.  Two conditions are the callers': the bytes held must not be moved to
    the front over themselves ([overlaps]; [accommodate_overlaps] is the undefined [memcpy]
    that this excludes), and the needle must be at most one byte longer than the bytes held
    ([memfind_runs_past_the_end]).  Sizes stay below 2^63. *)
Theorem iobuf_refines fresh iob bs count :
  fresh_spec fresh -> iwf iob -> size iob + Z.of_nat (length bs) + 1 < 2 ^ 63 ->
  (error iob = true ->
   iobuf_write fresh iob bs = Some (false, iob) /\ iobuf_print fresh iob bs = Some (false, iob) /\
   iobuf_consumed iob count = Some iob /\ iobuf_find iob bs = Some None) /\
  (error iob = false ->
  (~ overlaps iob (Z.of_nat (length bs)) ->
   exists ok iob', iobuf_write fresh iob bs = Some (ok, iob') /\ iwf iob' /\ error iob' = negb ok /\
     contents iob' = contents iob ++ (if (ok : bool) then bs else [])) /\
  (~ overlaps iob (Z.of_nat (length bs) + 1) ->
   exists ok iob', iobuf_print fresh iob bs = Some (ok, iob') /\ iwf iob' /\ error iob' = negb ok /\
     contents iob' = contents iob ++ (if (ok : bool) then bs else [])) /\
  (0 <= count <= off iob ->
   exists iob', iobuf_consumed iob count = Some iob' /\ iwf iob' /\ error iob' = false /\
     contents iob' = drop (Z.to_nat count) (contents iob)) /\
  (Z.of_nat (length bs) <= off iob + 1 ->
   exists r, iobuf_find iob bs = Some r /\
     match r with
     | Some j => occurs bs (contents iob) j /\ forall k, (k < j)%nat -> ~ occurs bs (contents iob) k
     | None => forall k, (k + length bs <= length (contents iob))%nat -> ~ occurs bs (contents iob) k
     end)).
Proof.
  intros Hf Hw Hb. split.
  { intros He. unfold iobuf_write, iobuf_print, iobuf_consumed, iobuf_find. by rewrite He. }
  intros He. split_and!.
  - intros Hov. unfold iobuf_write. rewrite He.
    destruct (iobuf_append_ok fresh Hf iob _ bs (length bs) Hw He (le_n _) eq_refl ltac:(lia) Hov) as (ok & iob' & E & H1 & H2 & H3).
    exists ok, iob'. rewrite firstn_all in H3. done.
  - intros Hov. unfold iobuf_print. rewrite He.
    destruct (iobuf_append_ok fresh Hf iob (Z.of_nat (length bs) + 1) (bs ++ [0]) (length bs) Hw He) as (ok & iob' & E & H1 & H2 & H3);
      [rewrite length_app; lia|rewrite length_app; cbn; lia|lia|done|].
    exists ok, iob'. rewrite take_app_length in H3. done.
  - by apply iobuf_consumed_ok.
  - intros Hl. unfold iobuf_find. rewrite He. pose proof Hw as [Hs Hr Hwd]. pose proof (length_contents iob Hw) as Hlc.
    destruct (memfind_ok bs (drop (Z.to_nat (skip iob)) (block iob)) (off iob)) as (r & -> & Hm); [rewrite length_drop; lia|lia|lia|].
    exists r. split; [done|].
    assert (forall k, Z.of_nat (k + length bs) <= off iob ->
      occurs bs (contents iob) k <-> occurs bs (drop (Z.to_nat (skip iob)) (block iob)) k) as Hocc.
    { intros k Hk. unfold occurs, contents. rewrite skipn_firstn_comm, take_take. by replace (length bs `min` (Z.to_nat (off iob) - k))%nat with (length bs) by lia. }
    destruct r as [j|].
    + destruct Hm as (Hj & Ho & Hk). split; [by apply Hocc|]. intros k Hkj. rewrite Hocc by lia. by apply Hk.
    + intros k Hk. rewrite Hocc by lia. apply Hm. lia.
Qed.

Definition zeros (n : Z) : option (list Z) := Some (replicate (Z.to_nat n) 0).
Definition sample : iobuf := Iobuf [1; 2; 3; 13; 10; 0; 0; 0] 8 4 1 false.

Lemma iobuf_refines_witness :
  iwf sample /\ exists ok iob', iobuf_write zeros sample [7; 8] = Some (ok, iob') /\
    contents iob' = [2; 3; 13; 10] ++ (if (ok : bool) then [7; 8] else []).
Proof.
  assert (iwf sample) as Hw by (split; cbn; lia). split; [exact Hw|].
  destruct (iobuf_refines (fun n => if n <? 0 then None else zeros n) sample [7; 8] 1) as [_ Hnoerr].
  - intros n b H. destruct (n <? 0) eqn:E; [discriminate|]. injection H as <-. rewrite length_replicate. lia.
  - exact Hw.
  - vm_compute. reflexivity.
  - destruct Hnoerr as [Hwr _]; [reflexivity|]. destruct Hwr as (ok & iob' & E & _ & _ & Hc); [unfold overlaps; cbn; lia|].
    exists ok, iob'. split; [exact E|exact Hc].
Defined.

(** The first bytes are consumed and the rest, longer than the gap, is moved to
    the front: the [memcpy] is on overlapping ranges. *)
Example accommodate_overlaps : iobuf_write zeros sample [7; 8; 9; 10] = None.
Proof. reflexivity. Qed.

(** A needle of four bytes in a buffer that holds two: [memlen - sublen + 1]
    wraps and the search runs on, here to a match in the bytes that were
    consumed earlier or, without one, out of the allocation. *)
Example memfind_runs_past_the_end :
  memfind [13; 10; 13; 10] [1; 2; 13; 10; 13; 10] 2 = Some (Some 2%nat) /\
  memfind [13; 10; 13; 10] [1; 2; 13; 10] 2 = None.
Proof. split; reflexivity. Qed.
