(* ===== verification/Htbl.v ===== *)
(** The intrusive hash table of the BitTorrent daemon: [libbt/misc/hashtable.c].

    The objects carry their own chain links; a bucket is the list of the objects
    on its chain.  The equality is that of keys, the hash function and the load
    test (a product of floats in the code) are arguments, and so are the
    results of [calloc].  [None] is an access outside an array. *)
From S2P Require Import Prelude.
Local Open Scope Z_scope.

Section Htbl.
Context {K Obj : Type} `{EqDecision K} (key : Obj -> K) (hash : K -> Z) (overfull : nat -> nat -> bool).

Record htbl := Htbl { buckets : list (list Obj); buckcnt : nat; size : nat }.

Definition _htbl_create : htbl := Htbl (replicate 1 []) 1 0.

(** The index of a key's bucket. *)
Definition bi_of (k : K) (cnt : nat) : nat := Z.to_nat (hash k mod Z.of_nat cnt).

(** The chain [n] reversed in front of [p]. *)
Fixpoint bucket_rev (p n : list Obj) : list Obj :=
  match n with [] => p | o :: n => bucket_rev (o :: p) n end.

Definition bucket_insert (bs : list (list Obj)) (cnt : nat) (o : Obj) : option (list (list Obj)) :=
  let bi := bi_of (key o) cnt in
  chain ← aread bs bi;
  awrite bs bi (o :: chain).

Fixpoint insert_all (bs : list (list Obj)) (cnt : nat) (l : list Obj) : option (list (list Obj)) :=
  match l with [] => Some bs | o :: l => bs ← bucket_insert bs cnt o; insert_all bs cnt l end.

(** The loop over the old buckets. *)
Fixpoint rehash (bs : list (list Obj)) (cnt : nat) (old : list (list Obj)) : option (list (list Obj)) :=
  match old with
  | [] => Some bs
  | chain :: old => bs ← insert_all bs cnt (bucket_rev [] chain); rehash bs cnt old
  end.

(** [calloc_ok]: whether the new array can be had. *)
Definition _htbl_grow (calloc_ok : bool) (tbl : htbl) : option htbl :=
  let ncnt := (2 * buckcnt tbl + 1)%nat in
  if negb calloc_ok then Some tbl
  else bs ← rehash (replicate ncnt []) ncnt (buckets tbl); Some (Htbl bs ncnt (size tbl)).

Definition _htbl_insert (calloc_ok : bool) (tbl : htbl) (o : Obj) : option htbl :=
  bs ← bucket_insert (buckets tbl) (buckcnt tbl) o;
  let tbl := Htbl bs (buckcnt tbl) (S (size tbl)) in
  if overfull (size tbl) (buckcnt tbl) then _htbl_grow calloc_ok tbl else Some tbl.

Fixpoint chain_find (k : K) (chain : list Obj) : option nat :=
  match chain with
  | [] => None
  | o :: chain => if decide (key o = k) then Some O else S <$> chain_find k chain
  end.

Definition _htbl_find (tbl : htbl) (k : K) : option (option Obj) :=
  chain ← aread (buckets tbl) (bi_of k (buckcnt tbl));
  match chain_find k chain with
  | None => Some None
  | Some i => o ← aread chain i; Some (Some o)
  end.

Definition _htbl_remove (tbl : htbl) (k : K) : option (option Obj * htbl) :=
  let bi := bi_of k (buckcnt tbl) in
  chain ← aread (buckets tbl) bi;
  match chain_find k chain with
  | None => Some (None, tbl)
  | Some i =>
      o ← aread chain i;
      bs ← awrite (buckets tbl) bi (delete i chain);
      Some (Some o, Htbl bs (buckcnt tbl) (size tbl - 1))
  end.

Definition _htbl_size (tbl : htbl) : nat := size tbl.

(** ** Filling an array *)

(** The first bucket from [bi] on that is not empty. *)
Fixpoint next_bucket (fuel : nat) (bs : list (list Obj)) (bi : nat) : option (nat * list Obj) :=
  match fuel with
  | O => None
  | S fuel =>
      chain ← aread bs bi;
      match chain with [] => next_bucket fuel bs (S bi) | _ => Some (bi, chain) end
  end.

Fixpoint fill_loop (fuel : nat) (tbl : htbl) (v : list (option Obj)) (vi bi : nat) (chain : list Obj)
    : option (list (option Obj)) :=
  match fuel with
  | O => None
  | S fuel =>
      if decide (vi < size tbl)%nat then
        '(bi, chain) ← (match chain with
                       | [] => next_bucket (S (length (buckets tbl))) (buckets tbl) (S bi)
                       | _ => Some (bi, chain) end);
        match chain with
        | [] => None
        | o :: chain => v ← awrite v vi (Some o); fill_loop fuel tbl v (S vi) bi chain
        end
      else Some v
  end.

Definition _htbl_fillv (tbl : htbl) (v : list (option Obj)) : option (list (option Obj)) :=
  chain ← aread (buckets tbl) 0;
  fill_loop (S (size tbl)) tbl v 0 0 chain.

(** The array has room for one pointer. *)
Definition _htbl_tov (tbl : htbl) : option (list (option Obj)) := _htbl_fillv tbl (replicate 1 None).

(** ** Iteration *)

(** [obj] is the element [pos] of the chain [bi]; [ptr] is the link to it. *)
Record htbl_iter := Iter { tbl : htbl; bi : nat; cnt : nat; pos : nat; obj : Obj }.

(** [iter_next_bucket] from bucket [b], as the [cnt]-th object. *)
Definition iter_next_bucket (t : htbl) (b cnt : nat) : option htbl_iter :=
  '(b, chain) ← next_bucket (S (length (buckets t))) (buckets t) b;
  o ← aread chain 0;
  Some (Iter t b cnt 0 o).

(** [inl t]: no object, with the table. *)
Definition _htbl_iter_first (t : htbl) : option (htbl + htbl_iter) :=
  if decide (size t = 0%nat) then Some (inl t)
  else it ← iter_next_bucket t 0 1; Some (inr it).

Definition _htbl_iter_next (it : htbl_iter) : option (htbl + htbl_iter) :=
  if decide (cnt it = size (tbl it)) then Some (inl (tbl it))
  else
    chain ← aread (buckets (tbl it)) (bi it);
    match chain !! S (pos it) with
    | Some o => Some (inr (Iter (tbl it) (bi it) (S (cnt it)) (S (pos it)) o))
    | None => it ← iter_next_bucket (tbl it) (S (bi it)) (S (cnt it)); Some (inr it)
    end.

Definition _htbl_iter_del (it : htbl_iter) : option (htbl + htbl_iter) :=
  let t := tbl it in
  let n := (size t - 1)%nat in
  chain ← aread (buckets t) (bi it);
  if decide (n < cnt it)%nat then
    bs ← awrite (buckets t) (bi it) (take (pos it) chain);
    Some (inl (Htbl bs (buckcnt t) n))
  else
    match chain !! S (pos it) with
    | Some o =>
        bs ← awrite (buckets t) (bi it) (delete (pos it) chain);
        Some (inr (Iter (Htbl bs (buckcnt t) n) (bi it) (cnt it) (pos it) o))
    | None =>
        bs ← awrite (buckets t) (bi it) (take (pos it) chain);
        it ← iter_next_bucket (Htbl bs (buckcnt t) n) (S (bi it)) (cnt it); Some (inr it)
    end.

(** A client's loop: it visits every object and deletes some on the way. *)
Fixpoint sweep_loop (fuel : nat) (drops : Obj -> bool) (cur : htbl + htbl_iter) (seen : list Obj)
    : option (list Obj * htbl) :=
  match fuel with
  | O => None
  | S fuel =>
      match cur with
      | inl t => Some (seen, t)
      | inr it =>
          next ← (if drops (obj it) then _htbl_iter_del it else _htbl_iter_next it);
          sweep_loop fuel drops next (seen ++ [obj it])
      end
  end.

Definition sweep (drops : Obj -> bool) (t : htbl) : option (list Obj * htbl) :=
  cur ← _htbl_iter_first t; sweep_loop (S (size t)) drops cur [].

(** ** Invariant and abstraction *)

Definition in_place (bs : list (list Obj)) (n : nat) : Prop :=
  forall i chain o, bs !! i = Some chain -> o ∈ chain -> bi_of (key o) n = i.

Definition objects (t : htbl) : list Obj := concat (buckets t).

Record tinv (t : htbl) : Prop := {
  t_len : length (buckets t) = buckcnt t;
  t_pos : (0 < buckcnt t)%nat;
  t_place : in_place (buckets t) (buckcnt t);
  t_size : size t = length (objects t)
}.

(** The objects with a key, in the order a search meets them. *)
Definition with_key (k : K) (l : list Obj) : list Obj := filter (fun o => key o = k) l.
Definition stack (t : htbl) (k : K) : list Obj := with_key k (objects t).

Lemma with_key_app k l1 l2 : with_key k (l1 ++ l2) = with_key k l1 ++ with_key k l2.
Proof. apply filter_app. Qed.

Lemma with_key_none k l : (forall o, o ∈ l -> key o <> k) -> with_key k l = [].
Proof.
  intros Hl. induction l as [|o l IH]; [done|]. unfold with_key in *. rewrite filter_cons_False by (apply Hl; by left).
  apply IH. intros o' ?. apply Hl. by right.
Qed.

(** Only one chain has objects with the key. *)
Lemma with_key_concat k (cs : list (list Obj)) i c :
  cs !! i = Some c -> (forall j c', j <> i -> cs !! j = Some c' -> with_key k c' = []) ->
  with_key k (concat cs) = with_key k c.
Proof.
  revert i. induction cs as [|c0 cs IH]; intros i Hi Ho; [done|]. cbn [concat]. rewrite with_key_app.
  destruct i as [|i].
  - injection Hi as ->. rewrite <- app_nil_r. f_equal.
    assert (forall j c', cs !! j = Some c' -> with_key k c' = []) as Hn by (intros j c' ?; by apply (Ho (S j))).
    clear -Hn. induction cs as [|c0 cs IH]; [done|]. cbn [concat]. rewrite with_key_app, (Hn 0%nat c0 eq_refl).
    apply IH. intros j c' ?. by apply (Hn (S j)).
  - rewrite (Ho 0%nat c0) by done. apply (IH i); [done|]. intros j c' ? ?. apply (Ho (S j)); [lia|done].
Qed.

Lemma bi_of_lt k n : (0 < n)%nat -> (bi_of k n < n)%nat.
Proof. intros Hn. unfold bi_of. pose proof (Z.mod_pos_bound (hash k) (Z.of_nat n) ltac:(lia)). lia. Qed.

Lemma in_place_other k bs n j c :
  in_place bs n -> j <> bi_of k n -> bs !! j = Some c -> with_key k c = [].
Proof. intros Hp Hj Hc. apply with_key_none. intros o Ho <-. apply Hj. symmetry. by apply (Hp j c). Qed.

Lemma with_key_bucket k bs n c :
  in_place bs n -> bs !! bi_of k n = Some c -> with_key k (concat bs) = with_key k c.
Proof. intros Hp Hc. apply (with_key_concat k bs _ c Hc). intros j c' Hj. by apply (in_place_other k bs n j c'). Qed.

Lemma in_place_insert bs n i c c' :
  in_place bs n -> bs !! i = Some c -> (forall o, o ∈ c' -> bi_of (key o) n = i) -> in_place (<[i := c']> bs) n.
Proof.
  intros Hp Hi Hc j cj o Hj Ho. destruct (decide (i = j)) as [<-|].
  - rewrite list_lookup_insert_eq in Hj by (by eapply lookup_lt_Some). simplify_eq. by apply Hc.
  - rewrite list_lookup_insert_ne in Hj by done. by eapply Hp.
Qed.

(** A bucket replaced: the objects of each key. *)
Lemma with_key_update k bs n i c c' :
  in_place bs n -> bs !! i = Some c -> (forall o, o ∈ c' -> bi_of (key o) n = i) ->
  with_key k (concat (<[i := c']> bs)) = if decide (bi_of k n = i) then with_key k c' else with_key k (concat bs).
Proof.
  intros Hp Hi Hc. pose proof (in_place_insert _ _ _ _ _ Hp Hi Hc) as Hp'. pose proof (lookup_lt_Some _ _ _ Hi) as Hlt.
  destruct (decide _) as [<-|Hne].
  - apply (with_key_bucket k _ n); [done|]. by apply list_lookup_insert_eq.
  - destruct (bs !! bi_of k n) as [d|] eqn:Hd.
    + rewrite (with_key_bucket k bs n d Hp Hd). apply (with_key_bucket k _ n); [done|]. by rewrite list_lookup_insert_ne.
    + rewrite !with_key_none; [done| |].
      * intros o Ho <-. apply list_elem_of_In, in_concat in Ho as (x & Hx & Ho). apply list_elem_of_In, list_elem_of_lookup_1 in Hx as [j Hj].
        apply list_elem_of_In in Ho. rewrite (Hp _ _ _ Hj Ho) in Hd. congruence.
      * intros o Ho <-. apply list_elem_of_In, in_concat in Ho as (x & Hx & Ho). apply list_elem_of_In, list_elem_of_lookup_1 in Hx as [j Hj].
        apply list_elem_of_In in Ho. rewrite (Hp' _ _ _ Hj Ho) in Hd.
        destruct (decide (j = i)) as [->|]; [congruence|]. rewrite list_lookup_insert_ne in Hj by done. congruence.
Qed.

(** ** Inserting and growing *)

Lemma bucket_insert_ok bs n o :
  length bs = n -> (0 < n)%nat -> in_place bs n ->
  exists bs', bucket_insert bs n o = Some bs' /\ length bs' = n /\ in_place bs' n /\
    concat bs' ≡ₚ o :: concat bs /\ forall k, with_key k (concat bs') = with_key k [o] ++ with_key k (concat bs).
Proof.
  intros Hl Hn Hp. unfold bucket_insert, aread. pose proof (bi_of_lt (key o) n Hn) as Hb.
  destruct (lookup_lt_is_Some_2 bs (bi_of (key o) n) ltac:(lia)) as [c Hc]. rewrite Hc. cbn [mbind option_bind].
  rewrite awrite_ok by lia. eexists. split; [done|]. split; [by rewrite length_insert|].
  assert (forall o', o' ∈ o :: c -> bi_of (key o') n = bi_of (key o) n) as Hoc.
  { intros o' [->|Ho']%elem_of_cons; [done|]. by eapply Hp. }
  split; [by eapply in_place_insert|]. split.
  - destruct (concat_slot _ _ _ Hc) as (rest & Hp1 & Hp2). by rewrite Hp2, Hp1.
  - intros k. rewrite (with_key_update k bs n _ c) by done. destruct (decide _) as [E|E].
    + rewrite (with_key_bucket k bs n c Hp) by (by rewrite E). apply (with_key_app k [o] c).
    + rewrite (with_key_none k [o]); [done|]. intros o' ->%list_elem_of_singleton <-. done.
Qed.

Lemma bucket_rev_ok p l : bucket_rev p l = reverse l ++ p.
Proof. revert p. induction l as [|o l IH]; intros p; [done|]. cbn [bucket_rev]. rewrite IH, reverse_cons, <- app_assoc. done. Qed.

Lemma insert_all_ok l bs n :
  length bs = n -> (0 < n)%nat -> in_place bs n ->
  exists bs', insert_all bs n l = Some bs' /\ length bs' = n /\ in_place bs' n /\
    concat bs' ≡ₚ l ++ concat bs /\ forall k, with_key k (concat bs') = with_key k (reverse l) ++ with_key k (concat bs).
Proof.
  revert bs. induction l as [|o l IH]; intros bs Hl Hn Hp; [by exists bs|]. cbn [insert_all].
  destruct (bucket_insert_ok bs n o Hl Hn Hp) as (bs1 & -> & Hl1 & Hp1 & Hperm1 & Hk1). cbn [mbind option_bind].
  destruct (IH bs1 Hl1 Hn Hp1) as (bs2 & -> & Hl2 & Hp2 & Hperm2 & Hk2). exists bs2.
  split; [done|]. split; [done|]. split; [done|]. split.
  - rewrite Hperm2, Hperm1. cbn. by rewrite Permutation_middle.
  - intros k. rewrite Hk2, Hk1, reverse_cons, with_key_app, <- app_assoc. done.
Qed.

Lemma rehash_ok old bs n :
  length bs = n -> (0 < n)%nat -> in_place bs n ->
  exists bs', rehash bs n old = Some bs' /\ length bs' = n /\ in_place bs' n /\
    concat bs' ≡ₚ concat old ++ concat bs /\
    forall k, with_key k (concat bs') = with_key k (concat (reverse old)) ++ with_key k (concat bs).
Proof.
  revert bs. induction old as [|c old IH]; intros bs Hl Hn Hp; [by exists bs|]. cbn [rehash].
  rewrite bucket_rev_ok, app_nil_r.
  destruct (insert_all_ok (reverse c) bs n Hl Hn Hp) as (bs1 & -> & Hl1 & Hp1 & Hperm1 & Hk1). cbn [mbind option_bind].
  destruct (IH bs1 Hl1 Hn Hp1) as (bs2 & -> & Hl2 & Hp2 & Hperm2 & Hk2). exists bs2.
  split; [done|]. split; [done|]. split; [done|]. split.
  - rewrite Hperm2, Hperm1. cbn. rewrite reverse_Permutation. rewrite !app_assoc. by rewrite (Permutation_app_comm c).
  - intros k. rewrite Hk2, Hk1, reverse_involutive, reverse_cons, concat_app, with_key_app, <- app_assoc. cbn.
    by rewrite app_nil_r.
Qed.

(** Growing keeps every object, and the objects of a key in their order. *)
Lemma _htbl_grow_ok ok t :
  tinv t -> exists t', _htbl_grow ok t = Some t' /\ tinv t' /\ size t' = size t /\ forall k, stack t' k = stack t k.
Proof.
  intros Hi. pose proof Hi as [Hl Hpos Hp Hs]. unfold _htbl_grow. destruct ok; cbn [negb]; [|by exists t].
  set (n := (2 * buckcnt t + 1)%nat).
  destruct (rehash_ok (buckets t) (replicate n []) n) as (bs & -> & Hl' & Hp' & Hperm & Hk).
  { apply length_replicate. } { lia. }
  { intros i c o Hc Ho. apply lookup_replicate in Hc as [-> _]. by apply not_elem_of_nil in Ho. }
  assert (concat (replicate n ([] : list Obj)) = []) as E by (clear; by induction n).
  rewrite E in *. rewrite app_nil_r in Hperm. cbn [mbind option_bind]. eexists. split; [done|].
  split; [split; unfold objects in *; cbn; [done|lia|done|by rewrite Hperm]|]. split; [done|].
  intros k. unfold stack, objects. cbn [buckets]. rewrite Hk. change (with_key k []) with (@nil Obj). rewrite app_nil_r.
  pose proof (bi_of_lt k _ Hpos) as Hb. destruct (lookup_lt_is_Some_2 (buckets t) (bi_of k (buckcnt t)) ltac:(lia)) as [c Hc].
  rewrite (with_key_bucket k _ _ c Hp Hc). apply (with_key_concat k _ (length (buckets t) - S (bi_of k (buckcnt t)))).
  - rewrite reverse_lookup by lia. rewrite <- Hc. f_equal. lia.
  - intros j c' Hj Hc'. apply reverse_lookup_Some in Hc' as [Hc' ?].
    apply (in_place_other k (buckets t) (buckcnt t) (length (buckets t) - S j) c' Hp); [|exact Hc']. lia.
Qed.

Lemma _htbl_insert_ok ok t o :
  tinv t ->
  exists t', _htbl_insert ok t o = Some t' /\ tinv t' /\ size t' = S (size t) /\
    forall k, stack t' k = if decide (key o = k) then o :: stack t k else stack t k.
Proof.
  intros [Hl Hpos Hp Hs]. unfold _htbl_insert.
  destruct (bucket_insert_ok (buckets t) (buckcnt t) o Hl Hpos Hp) as (bs & -> & Hl' & Hp' & Hperm & Hk).
  cbn [mbind option_bind]. set (t1 := Htbl bs (buckcnt t) (S (size t))).
  assert (tinv t1) as Hi1 by (split; unfold objects in *; cbn; [done|done|done|rewrite Hperm; cbn; by rewrite Hs]).
  assert (forall k, stack t1 k = if decide (key o = k) then o :: stack t k else stack t k) as Hst.
  { intros k. unfold stack, objects. cbn [buckets]. rewrite Hk. unfold with_key at 1. rewrite filter_cons. by destruct (decide (key o = k)). }
  destruct (overfull _ _); [|by exists t1].
  destruct (_htbl_grow_ok ok t1 Hi1) as (t2 & -> & Hi2 & Hs2 & Hk2). exists t2. split; [done|]. split; [done|].
  split; [done|]. intros k. by rewrite Hk2.
Qed.

(** ** Finding and removing *)

Lemma chain_find_ok k c :
  match chain_find k c with
  | Some i => exists o, c !! i = Some o /\ key o = k /\ with_key k c = o :: with_key k (delete i c) /\
      forall k', k' <> k -> with_key k' (delete i c) = with_key k' c
  | None => with_key k c = []
  end.
Proof.
  induction c as [|o c IH]; cbn [chain_find]; [done|]. unfold with_key in *. destruct (decide (key o = k)) as [E|E].
  - exists o. split_and!; [done|done|by rewrite filter_cons_True|]. intros k' Hk'. cbn [delete list_delete]. rewrite filter_cons_False; [done|]. congruence.
  - destruct (chain_find k c) as [i|]; cbn [fmap option_fmap option_map].
    + destruct IH as (o' & Hi & Hk & Hf & Ho). exists o'. cbn [delete list_delete].
      split_and!; [done|done|by rewrite !filter_cons_False|].
      intros k' Hk'. rewrite !filter_cons. by rewrite Ho.
    + by rewrite filter_cons_False.
Qed.

Lemma _htbl_find_ok t k : tinv t -> _htbl_find t k = Some (head (stack t k)).
Proof.
  intros [Hl Hpos Hp Hs]. unfold _htbl_find, aread. pose proof (bi_of_lt k _ Hpos) as Hb.
  destruct (lookup_lt_is_Some_2 (buckets t) (bi_of k (buckcnt t)) ltac:(lia)) as [c Hc]. rewrite Hc. cbn [mbind option_bind].
  unfold stack, objects. rewrite (with_key_bucket k _ _ c Hp Hc). pose proof (chain_find_ok k c) as Hf.
  destruct (chain_find k c) as [i|]; [|by rewrite Hf]. destruct Hf as (o & Hi & _ & -> & _). by rewrite Hi.
Qed.

Lemma _htbl_remove_ok t k :
  tinv t ->
  exists t', _htbl_remove t k = Some (head (stack t k), t') /\ tinv t' /\
    forall k', stack t' k' = if decide (k' = k) then tail (stack t k) else stack t k'.
Proof.
  intros Hinv. pose proof Hinv as [Hl Hpos Hp Hs]. unfold _htbl_remove, aread. pose proof (bi_of_lt k _ Hpos) as Hb.
  destruct (lookup_lt_is_Some_2 (buckets t) (bi_of k (buckcnt t)) ltac:(lia)) as [c Hc]. rewrite Hc. cbn [mbind option_bind].
  assert (stack t k = with_key k c) as Hst by (unfold stack, objects; by apply with_key_bucket with (buckcnt t)).
  rewrite Hst. pose proof (chain_find_ok k c) as Hf. destruct (chain_find k c) as [i|].
  2: { exists t. rewrite Hf. split; [done|]. split; [done|]. intros k'. destruct (decide _) as [->|]; [by rewrite Hst|done]. }
  destruct Hf as (o & Hi & Hko & Hf & Ho). rewrite Hi. cbn [mbind option_bind]. rewrite awrite_ok by lia. cbn [mbind option_bind].
  rewrite Hf. eexists. split; [done|].
  assert (forall o', o' ∈ delete i c -> bi_of (key o') (buckcnt t) = bi_of k (buckcnt t)) as Hoc.
  { intros o' Ho'. apply (Hp _ c); [done|]. rewrite (delete_Permutation _ _ _ Hi). by right. }
  split; [split; cbn|].
  - by rewrite length_insert.
  - done.
  - by eapply in_place_insert.
  - destruct (concat_slot _ _ _ Hc) as (rest & Hp1 & Hp2). unfold objects in *. cbn. rewrite Hp2, Hs, Hp1.
    rewrite !length_app, (delete_Permutation _ _ _ Hi) at 1. cbn. lia.
  - intros k'. unfold stack, objects. cbn [buckets]. rewrite (with_key_update k' _ (buckcnt t) _ c) by done.
    destruct (decide (k' = k)) as [->|Hne]; [by rewrite decide_True|]. destruct (decide _) as [E|E]; [|done].
    rewrite Ho by done. symmetry. apply with_key_bucket with (buckcnt t); [done|]. by rewrite E.
Qed.

(** ** Iteration *)

Lemma next_bucket_ok fuel (bs : list (list Obj)) b :
  (length bs - b < fuel)%nat -> concat (drop b bs) <> [] ->
  exists b' o c, next_bucket fuel bs b = Some (b', o :: c) /\ bs !! b' = Some (o :: c) /\
    concat (drop b bs) = (o :: c) ++ concat (drop (S b') bs) /\ concat (take b' bs) = concat (take b bs).
Proof.
  revert b. induction fuel as [|fuel IH]; intros b Hf Hne; [lia|]. cbn [next_bucket]. unfold aread.
  destruct (bs !! b) as [c|] eqn:Hb; [|exfalso; apply Hne; by rewrite drop_ge by (by apply lookup_ge_None)].
  cbn [mbind option_bind]. pose proof (lookup_lt_Some _ _ _ Hb). destruct c as [|o c].
  - rewrite (drop_S _ _ _ Hb) in Hne |- *. cbn [concat app] in Hne |- *.
    destruct (IH (S b) ltac:(lia) Hne) as (b' & o & c & E & Hb' & Hc & Ht). exists b', o, c.
    split_and!; [done|done|done|]. rewrite Ht, (take_S_r _ _ _ Hb), concat_app. cbn. by rewrite app_nil_r.
  - exists b, o, c. split_and!; [done|done|by rewrite (drop_S _ _ _ Hb)|done].
Qed.

(** The iterator stands between the objects [kept] and [rest]. *)
Record at_obj (it : htbl_iter) (kept rest : list Obj) : Prop := {
  a_inv : tinv (tbl it);
  a_cnt : cnt it = S (length kept);
  a_chain : exists chain, buckets (tbl it) !! bi it = Some chain /\ chain !! pos it = Some (obj it) /\
    kept = concat (take (bi it) (buckets (tbl it))) ++ take (pos it) chain /\
    rest = drop (S (pos it)) chain ++ concat (drop (S (bi it)) (buckets (tbl it)))
}.

Lemma concat_split (bs : list (list Obj)) i c :
  bs !! i = Some c -> concat bs = concat (take i bs) ++ c ++ concat (drop (S i) bs).
Proof. intros Hi. rewrite <- (take_drop_middle _ _ _ Hi) at 1. by rewrite concat_app. Qed.

Lemma at_objects it kept rest : at_obj it kept rest -> objects (tbl it) = kept ++ obj it :: rest.
Proof.
  intros [_ _ (c & Hb & Hp & -> & ->)]. unfold objects. rewrite (concat_split _ _ _ Hb), <- app_assoc. f_equal.
  rewrite <- (take_drop_middle _ _ _ Hp) at 1. by rewrite <- app_assoc.
Qed.

Lemma at_size it kept rest : at_obj it kept rest -> size (tbl it) = (length kept + S (length rest))%nat.
Proof. intros Ha. rewrite (t_size _ (a_inv _ _ _ Ha)), (at_objects _ _ _ Ha), length_app. done. Qed.

Lemma iter_next_bucket_ok t b n o rest :
  tinv t -> concat (drop b (buckets t)) = o :: rest -> n = S (length (concat (take b (buckets t)))) ->
  exists it, iter_next_bucket t b n = Some it /\ tbl it = t /\ obj it = o /\
    at_obj it (concat (take b (buckets t))) rest.
Proof.
  intros Hi He ->. unfold iter_next_bucket.
  destruct (next_bucket_ok (S (length (buckets t))) (buckets t) b) as (b' & o' & c & -> & Hb & Hc & Ht); [lia|by rewrite He|].
  cbn [mbind option_bind aread lookup list_lookup]. eexists. split; [done|]. rewrite He in Hc. injection Hc as <- ->.
  split; [done|]. split; [done|]. split; [done|done|]. exists (o :: c). cbn [tbl bi pos obj].
  split_and!; [done|done| |done]. by rewrite Ht, app_nil_r.
Qed.

Lemma _htbl_iter_first_ok t :
  tinv t ->
  exists r, _htbl_iter_first t = Some r /\
    match objects t with
    | [] => r = inl t
    | o :: rest => exists it, r = inr it /\ tbl it = t /\ obj it = o /\ at_obj it [] rest
    end.
Proof.
  intros Hi. unfold _htbl_iter_first. pose proof (t_size _ Hi) as Hs. destruct (objects t) as [|o rest] eqn:E.
  - rewrite decide_True by done. by eexists.
  - rewrite decide_False by (rewrite Hs; done).
    destruct (iter_next_bucket_ok t 0 1 o rest Hi) as (it & -> & ? & ? & ?); [by rewrite drop_0|done|].
    eexists. split; [done|]. by exists it.
Qed.

Lemma _htbl_iter_next_ok it kept rest :
  at_obj it kept rest ->
  exists r, _htbl_iter_next it = Some r /\
    match rest with
    | [] => r = inl (tbl it)
    | o :: rest => exists it', r = inr it' /\ tbl it' = tbl it /\ obj it' = o /\ at_obj it' (kept ++ [obj it]) rest
    end.
Proof.
  intros Ha. pose proof (at_size _ _ _ Ha) as Hsz. destruct Ha as [Hi Hc (c & Hb & Hp & -> & ->)].
  unfold _htbl_iter_next, aread. rewrite Hb. cbn [mbind option_bind]. destruct (decide _) as [E|E].
  - eexists. split; [done|]. destruct (drop (S (pos it)) c ++ concat (drop (S (bi it)) (buckets (tbl it)))) as [|]; [done|]. cbn in Hsz. lia.
  - destruct (c !! S (pos it)) as [o|] eqn:Hn.
    + eexists. split; [done|]. rewrite (drop_S _ _ _ Hn). cbn [app]. eexists. split_and!; [done|done|done|].
      split; cbn [tbl bi cnt pos obj]; [done|rewrite length_app; cbn; lia|]. exists c.
      split_and!; [done|done| |done]. by rewrite (take_S_r _ _ _ Hp), app_assoc.
    + apply lookup_ge_None in Hn. rewrite (drop_ge c (S (pos it))) in * by done. cbn [app] in *.
      destruct (concat (drop _ _)) as [|o rest] eqn:He; [cbn in Hsz; lia|].
      assert (concat (take (S (bi it)) (buckets (tbl it))) =
        (concat (take (bi it) (buckets (tbl it))) ++ take (pos it) c) ++ [obj it]) as Hk.
      { rewrite (take_S_r _ _ _ Hb), concat_app, <- app_assoc. f_equal. cbn. rewrite app_nil_r.
        rewrite <- (take_S_r _ _ _ Hp). by rewrite take_ge. }
      destruct (iter_next_bucket_ok (tbl it) (S (bi it)) (S (cnt it)) o rest Hi He) as (it' & -> & ? & ? & ?).
      { rewrite Hk, length_app, Hc. cbn. lia. }
      eexists. split; [done|]. exists it'. rewrite <- Hk. done.
Qed.

(** The table without the current object. *)
Lemma unlinked it kept rest c :
  at_obj it kept rest -> buckets (tbl it) !! bi it = Some c ->
  let bs := <[bi it := take (pos it) c ++ drop (S (pos it)) c]> (buckets (tbl it)) in
  let t := Htbl bs (buckcnt (tbl it)) (size (tbl it) - 1) in
  awrite (buckets (tbl it)) (bi it) (take (pos it) c ++ drop (S (pos it)) c) = Some bs /\
  tinv t /\ objects t = kept ++ rest /\ take (bi it) bs = take (bi it) (buckets (tbl it)) /\
  drop (S (bi it)) bs = drop (S (bi it)) (buckets (tbl it)).
Proof.
  intros Ha Hb. pose proof (at_size _ _ _ Ha) as Hsz. pose proof (lookup_lt_Some _ _ _ Hb) as Hlt.
  destruct Ha as [[Hl Hpos Hp Hs] Hc (c' & Hb' & Hp' & -> & ->)]. rewrite Hb in Hb'. injection Hb' as <-. cbv zeta.
  assert (forall o, o ∈ take (pos it) c ++ drop (S (pos it)) c -> o ∈ c) as Hin.
  { intros o. rewrite <- (take_drop_middle _ _ _ Hp') at 3. rewrite !elem_of_app, elem_of_cons. tauto. }
  assert (objects (Htbl (<[bi it := take (pos it) c ++ drop (S (pos it)) c]> (buckets (tbl it))) (buckcnt (tbl it)) (size (tbl it) - 1))
    = (concat (take (bi it) (buckets (tbl it))) ++ take (pos it) c) ++ drop (S (pos it)) c ++ concat (drop (S (bi it)) (buckets (tbl it)))) as Ho.
  { unfold objects. cbn [buckets]. rewrite insert_take_drop, concat_app by done. cbn [concat]. by rewrite <- !app_assoc. }
  split; [by apply awrite_ok|]. split; [split; cbn [buckets buckcnt size]|].
  - by rewrite length_insert.
  - done.
  - apply (in_place_insert _ _ _ c); [done|done|]. intros o Ho'. apply (Hp _ c); [done|]. by apply Hin.
  - rewrite Ho, length_app. lia.
  - split; [exact Ho|]. split; [by apply take_insert_ge|]. apply drop_insert_lt. lia.
Qed.

Lemma _htbl_iter_del_ok it kept rest :
  at_obj it kept rest ->
  exists r, _htbl_iter_del it = Some r /\
    match rest with
    | [] => exists t, r = inl t /\ tinv t /\ objects t = kept
    | o :: rest => exists it', r = inr it' /\ obj it' = o /\ at_obj it' kept rest
    end.
Proof.
  intros Ha. pose proof (at_size _ _ _ Ha) as Hsz. pose proof Ha as [Hi Hc (c & Hb & Hp & Hk & Hr)].
  destruct (unlinked it kept rest c Ha Hb) as (Hw & Hi' & Ho & Ht & Hd).
  unfold _htbl_iter_del, aread. rewrite Hb. cbn [mbind option_bind].
  assert (c !! S (pos it) = None -> take (pos it) c = take (pos it) c ++ drop (S (pos it)) c) as Hlast.
  { intros Hn%lookup_ge_None. by rewrite drop_ge, app_nil_r. }
  destruct (decide (size (tbl it) - 1 < cnt it)%nat) as [E|E].
  - destruct rest as [|o rest]; [|cbn [length] in *; lia]. rewrite app_nil_r in Ho.
    assert (drop (S (pos it)) c = []) as Hn by (by destruct (drop (S (pos it)) c)).
    rewrite Hlast, Hw by (rewrite <- (Nat.add_0_r (S (pos it))), <- lookup_drop, Hn; done).
    cbn [mbind option_bind]. eexists. split; [done|]. eexists. split; [done|]. done.
  - destruct rest as [|o rest]; [cbn [length] in *; lia|]. destruct (c !! S (pos it)) as [o'|] eqn:Hn.
    + rewrite (drop_S _ _ _ Hn) in Hr. cbn [app] in Hr. injection Hr as <- Hr.
      rewrite delete_take_drop, Hw. cbn [mbind option_bind]. eexists. split; [done|]. eexists. split_and!; [done|done|].
      split; cbn [tbl bi cnt pos obj]; [done|done|]. eexists. cbn [buckets].
      assert (length (take (pos it) c) = pos it) as Hlp.
      { rewrite length_take. pose proof (lookup_lt_Some _ _ _ Hp). lia. }
      split_and!; [apply list_lookup_insert_eq; by eapply lookup_lt_Some| | |].
      * rewrite lookup_app_r by lia. rewrite Hlp, Nat.sub_diag, (drop_S _ _ _ Hn). done.
      * rewrite Ht, Hk. f_equal. by rewrite <- Hlp at 2; rewrite take_app_length.
      * rewrite Hd, Hr. f_equal. rewrite drop_app_ge by lia. rewrite Hlp, (drop_S _ _ _ Hn).
        by replace (S (pos it) - pos it)%nat with 1%nat by lia.
    + rewrite Hlast, Hw by done. cbn [mbind option_bind].
      rewrite (drop_ge c) in Hr by (by apply lookup_ge_None). cbn [app] in Hr.
      set (t' := Htbl _ _ _) in *.
      assert (concat (take (S (bi it)) (buckets t')) = kept) as Hkept.
      { rewrite (take_S_r _ _ (take (pos it) c ++ drop (S (pos it)) c)) by (apply list_lookup_insert_eq; by eapply lookup_lt_Some).
        unfold t'. cbn [buckets]. rewrite concat_app, Ht, Hk. f_equal. cbn. by rewrite app_nil_r, <- Hlast. }
      destruct (iter_next_bucket_ok t' (S (bi it)) (cnt it) o rest Hi') as (it' & -> & _ & ? & Hat).
      { unfold t'. cbn [buckets]. by rewrite Hd. } { by rewrite Hkept. }
      eexists. split; [done|]. exists it'. rewrite <- Hkept. done.
Qed.

Definition keep (drops : Obj -> bool) (l : list Obj) : list Obj := filter (fun o => drops o = false) l.

Lemma sweep_loop_ok drops fuel it kept rest seen :
  at_obj it kept rest -> (S (length rest) < fuel)%nat ->
  exists t, sweep_loop fuel drops (inr it) seen = Some (seen ++ obj it :: rest, t) /\ tinv t /\
    objects t = kept ++ keep drops (obj it :: rest).
Proof.
  revert it kept rest seen. induction fuel as [|fuel IH]; intros it kept rest seen Ha Hf; [lia|]. cbn [sweep_loop].
  unfold keep in *. rewrite filter_cons. destruct (drops (obj it)) eqn:Ed.
  - rewrite decide_False by done. destruct (_htbl_iter_del_ok it kept rest Ha) as (r & -> & Hr). cbn [mbind option_bind].
    destruct rest as [|o rest].
    + destruct Hr as (t & -> & Hi & Ho). destruct fuel as [|fuel]; [cbn in Hf; lia|]. exists t. split; [done|].
      split; [done|]. by rewrite Ho, app_nil_r.
    + destruct Hr as (it' & -> & Eo & Ha'). cbn [length] in Hf.
      destruct (IH it' kept rest (seen ++ [obj it]) Ha' ltac:(lia)) as (t & -> & Hi & Ho). exists t.
      rewrite Eo in *. rewrite <- app_assoc. done.
  - rewrite decide_True by done. destruct (_htbl_iter_next_ok it kept rest Ha) as (r & -> & Hr). cbn [mbind option_bind].
    destruct rest as [|o rest].
    + subst r. destruct fuel as [|fuel]; [cbn in Hf; lia|]. exists (tbl it). split; [done|]. split; [apply Ha|].
      by rewrite (at_objects _ _ _ Ha).
    + destruct Hr as (it' & -> & _ & Eo & Ha'). cbn [length] in Hf.
      destruct (IH it' (kept ++ [obj it]) rest (seen ++ [obj it]) Ha' ltac:(lia)) as (t & -> & Hi & Ho). exists t.
      rewrite Eo in *. rewrite <- app_assoc. split; [done|]. split; [done|]. by rewrite Ho, <- app_assoc.
Qed.

Lemma sweep_ok drops t :
  tinv t -> exists t', sweep drops t = Some (objects t, t') /\ tinv t' /\ objects t' = keep drops (objects t).
Proof.
  intros Hi. unfold sweep. destruct (_htbl_iter_first_ok t Hi) as (r & -> & Hr). cbn [mbind option_bind].
  pose proof (t_size _ Hi) as Hs. destruct (objects t) as [|o rest] eqn:E.
  - subst r. by exists t.
  - destruct Hr as (it & -> & Et & Eo & Ha). cbn [length] in Hs.
    destruct (sweep_loop_ok drops (S (size t)) it [] rest [] Ha ltac:(lia)) as (t' & H & Hi' & Ho).
    rewrite Eo in *. by exists t'.
Qed.

(** ** Filling an array *)

Lemma fill_loop_ok fuel t v vi b c done_ rest :
  tinv t -> objects t = done_ ++ rest -> vi = length done_ -> (length rest < fuel)%nat ->
  rest = c ++ concat (drop (S b) (buckets t)) -> (size t <= length v)%nat ->
  fill_loop fuel t v vi b c = Some (take vi v ++ (Some <$> rest) ++ drop (size t) v).
Proof.
  intros Hi. revert v vi b c done_ rest. induction fuel as [|fuel IH]; intros v vi b c dn rest Ho Hvi Hf Hr Hv; [lia|].
  cbn [fill_loop]. pose proof (t_size _ Hi) as Hs. rewrite Ho, length_app in Hs.
  destruct rest as [|o rest].
  - cbn [length] in Hs. rewrite decide_False by lia. cbn. replace vi with (size t) by lia. by rewrite take_drop.
  - cbn [length] in Hs, Hf. rewrite decide_True by lia.
    assert (exists b' c', match c with [] => next_bucket (S (length (buckets t))) (buckets t) (S b) | _ => Some (b, c) end
      = Some (b', o :: c') /\ rest = c' ++ concat (drop (S b') (buckets t))) as (b' & c' & -> & Hr').
    { destruct c as [|o' c]; [|injection Hr as <- Hr; by exists b, c].
      cbn [app] in Hr.
      destruct (next_bucket_ok (S (length (buckets t))) (buckets t) (S b)) as (b' & o' & c' & -> & _ & Hc & _); [lia|by rewrite <- Hr|].
      rewrite Hc in Hr. injection Hr as <- Hr. by exists b', c'. }
    cbn [mbind option_bind]. rewrite awrite_ok by lia. cbn [mbind option_bind].
    rewrite (IH _ _ _ _ (dn ++ [o]) rest); [|by rewrite <- app_assoc|rewrite length_app; cbn; lia|lia|done|by rewrite length_insert].
    f_equal. rewrite (take_S_r _ _ (Some o)) by (apply list_lookup_insert_eq; lia).
    rewrite take_insert_ge, drop_insert_lt, <- app_assoc by lia. done.
Qed.

Lemma _htbl_fillv_ok t v :
  tinv t -> (size t <= length v)%nat -> _htbl_fillv t v = Some ((Some <$> objects t) ++ drop (size t) v).
Proof.
  intros Hi Hv. unfold _htbl_fillv, aread. pose proof Hi as [Hl Hpos _ Hs].
  destruct (lookup_lt_is_Some_2 (buckets t) 0 ltac:(lia)) as [c Hc]. rewrite Hc. cbn [mbind option_bind].
  apply (fill_loop_ok (S (size t)) t v 0 0 c [] (objects t)); [done|done|done|lia| |done].
  unfold objects. by rewrite (concat_split _ _ _ Hc).
Qed.

Lemma _htbl_create_ok : tinv _htbl_create /\ objects _htbl_create = [].
Proof.
  split; [|done]. split; cbn; [done|lia| |done]. intros [|i] chain o Hi Ho; [|done]. injection Hi as <-.
  by apply not_elem_of_nil in Ho.
Qed.
End Htbl.

(** ** The properties *)

(** The table is a stack of objects per key, whatever the hash function and
    the load test, and whether the growth succeeds or not: inserting pushes the
    object on the stack of its key, finding gives the top, removing pops it,
    and no other key is touched; growth, which reverses every chain before it
    inserts, keeps the stacks in their order. *)
Theorem htbl_refines {K Obj} `{EqDecision K} (key : Obj -> K) (hash : K -> Z) (overfull : nat -> nat -> bool)
    (calloc_ok : bool) (t : htbl) (o : Obj) (k : K) :
  (tinv key hash _htbl_create /\ stack key _htbl_create k = []) /\
  (tinv key hash t ->
   (exists t', _htbl_insert key hash overfull calloc_ok t o = Some t' /\ tinv key hash t' /\
      _htbl_size t' = S (_htbl_size t) /\
      forall k, stack key t' k = if decide (key o = k) then o :: stack key t k else stack key t k) /\
   _htbl_find key hash t k = Some (head (stack key t k)) /\
   (exists t', _htbl_remove key hash t k = Some (head (stack key t k), t') /\ tinv key hash t' /\
      forall k', stack key t' k' = if decide (k' = k) then tail (stack key t k) else stack key t k')).
Proof.
  split.
  - destruct (_htbl_create_ok (Obj := Obj) key hash) as [H1 _]. split; [exact H1|reflexivity].
  - intros Hi. split_and!; [by apply _htbl_insert_ok|by apply _htbl_find_ok|by apply _htbl_remove_ok].
Qed.

(** An iteration that deletes any of the objects on its way visits every
    object exactly once, in the order of the buckets, and leaves exactly those
    it did not delete, in their order; filling an array that is large enough
    stores the same sequence. *)
Theorem htbl_iteration {K Obj} `{EqDecision K} (key : Obj -> K) (hash : K -> Z) (t : htbl)
    (drops : Obj -> bool) (v : list (option Obj)) :
  tinv key hash t ->
  (exists t', sweep drops t = Some (objects t, t') /\ tinv key hash t' /\
     objects t' = filter (fun o => drops o = false) (objects t)) /\
  ((_htbl_size t <= length v)%nat -> _htbl_fillv t v = Some ((Some <$> objects t) ++ drop (_htbl_size t) v)).
Proof.
  intros Hi. split; [exact (sweep_ok key hash (fun _ _ => false) drops t Hi)|]. intros Hv.
  exact (_htbl_fillv_ok key hash (fun _ _ => false) t v Hi Hv).
Qed.

(** Objects of a key and a name, hashed to their key. *)
Definition load (size buckcnt : nat) : bool := (2 * buckcnt <? size)%nat.

Definition demo : htbl :=
  match (t ← _htbl_insert fst id load true _htbl_create (4, 1); t ← _htbl_insert fst id load true t (4, 2);
         t ← _htbl_insert fst id load true t (9, 3); _htbl_insert fst id load true t (4, 5)) with
  | Some t => t
  | None => _htbl_create
  end.

Lemma demo_inv : tinv fst id demo.
Proof.
  unfold demo. pose proof (proj1 (_htbl_create_ok (Obj := Z * Z) fst id)) as H0.
  destruct (_htbl_insert_ok fst id load true _ (4, 1) H0) as (t1 & -> & H1 & _). cbn [mbind option_bind].
  destruct (_htbl_insert_ok fst id load true _ (4, 2) H1) as (t2 & -> & H2 & _). cbn [mbind option_bind].
  destruct (_htbl_insert_ok fst id load true _ (9, 3) H2) as (t3 & -> & H3 & _). cbn [mbind option_bind].
  destruct (_htbl_insert_ok fst id load true _ (4, 5) H3) as (t4 & -> & H4 & _). exact H4.
Qed.

Lemma htbl_refines_witness :
  (buckcnt demo = 3%nat) /\ _htbl_find fst id demo 4 = Some (Some (4, 5)).
Proof.
  split; [vm_compute; reflexivity|].
  destruct (htbl_refines fst id load true demo (4, 6) 4) as [_ Hr]. destruct (Hr demo_inv) as (_ & E & _).
  rewrite E. vm_compute. reflexivity.
Defined.

Lemma htbl_iteration_witness :
  exists t', sweep (fun o => o.2 <? 3) demo = Some (objects demo, t') /\ objects t' = [(9, 3); (4, 5)].
Proof.
  destruct (htbl_iteration fst id demo (fun o => o.2 <? 3) [] demo_inv) as [(t' & E & _ & Ho) _].
  exists t'. split; [exact E|]. rewrite Ho. vm_compute. reflexivity.
Defined.

(** [_htbl_tov] allocates one pointer and stores all of them. *)
Example tov_writes_past_the_end : _htbl_tov demo = None.
Proof. reflexivity. Qed.
