(* ===== verification/Scoreboard.v ===== *)
(** The scoreboard: [src/scoreboard.c], with [zevent_mpm_query] of [src/zevent.c].

    The table the server's processes share: one [process_score] per child and one
    [worker_score] per thread of a child.  An access outside the table is [None].
    The sizes of the C structures are arguments, and so is the clock. *)
From S2P Require Import Prelude.
Local Open Scope Z_scope.

Definition SERVER_DEAD : Z := 0.
Definition SERVER_STARTING : Z := 1.
Definition SERVER_READY : Z := 2.
Definition SERVER_GRACEFUL : Z := 9.
Definition SERVER_NUM_STATUS : Z := 11.

(** What [zevent_init] reads from the configuration; [zevent_my_generation] and
    [zevent_extended_status] with it. *)
Record conf := Conf {
  server_limit : Z; thread_limit : Z; zevent_daemons_limit : Z; zevent_threads_per_child : Z;
  min_spare_threads : Z; max_spare_threads : Z; zevent_daemons_to_start : Z;
  zevent_my_generation : Z; zevent_extended_status : bool
}.

(** The fields some operation reads or writes. *)
Record worker_score := WorkerScore {
  thread_num : Z; status : Z; my_access_count : Z; my_bytes_served : Z;
  conn_bytes : Z; conn_count : Z; start_time : Z; stop_time : Z; last_used : Z
}.
Record process_score := ProcessScore { pid : Z; generation : Z; quiescing : Z }.
Record scoreboard := Scoreboard {
  parent : list process_score; servers : list (list worker_score)
}.

#[export] Instance process_score_eq_dec : EqDecision process_score.
Proof. solve_decision. Defined.

Definition zero_worker : worker_score := WorkerScore 0 0 0 0 0 0 0 0 0.
Definition zero_process : process_score := ProcessScore 0 0 0.

(** ** Layout *)

Section Layout.
Variables sizeof_global sizeof_process sizeof_worker : Z.

Definition zevent_calc_scoreboard_size (c : conf) : Z :=
  let scoreboard_size := sizeof_global in
  let scoreboard_size := scoreboard_size + sizeof_process * server_limit c in
  scoreboard_size + sizeof_worker * server_limit c * thread_limit c.

(** The offsets of [parent] and of each row of [servers], and [more_storage] after
    the loop. *)
Definition zevent_init_scoreboard (c : conf) : Z * list Z * Z :=
  let more_storage := 0 in
  let more_storage := more_storage + sizeof_global in
  let parent := more_storage in
  let more_storage := more_storage + sizeof_process * server_limit c in
  let '(rows, more_storage) :=
    Nat.iter (Z.to_nat (server_limit c))
      (fun '(rows, more) => (rows ++ [more], more + thread_limit c * sizeof_worker))
      ([], more_storage) in
  (parent, rows, more_storage).
End Layout.

(** A new table is zeroed, and so is the table of an earlier run. *)
Definition zevent_create_scoreboard (c : conf) : scoreboard :=
  Scoreboard (replicate (Z.to_nat (server_limit c)) zero_process)
    (replicate (Z.to_nat (server_limit c))
       (replicate (Z.to_nat (thread_limit c)) zero_worker)).

(** ** Accesses *)

(** An index into an array of C; a negative one is outside. *)
Definition zread {A} (l : list A) (i : Z) : option A :=
  if i <? 0 then None else aread l (Z.to_nat i).
Definition zwrite {A} (l : list A) (i : Z) (x : A) : option (list A) :=
  if i <? 0 then None else awrite l (Z.to_nat i) x.

Definition get_parent (sb : scoreboard) (i : Z) : option process_score := zread (parent sb) i.
Definition set_parent (sb : scoreboard) (i : Z) (ps : process_score) : option scoreboard :=
  p ← zwrite (parent sb) i ps; Some (Scoreboard p (servers sb)).
Definition get_server (sb : scoreboard) (i j : Z) : option worker_score :=
  row ← zread (servers sb) i; zread row j.
Definition set_server (sb : scoreboard) (i j : Z) (ws : worker_score) : option scoreboard :=
  row ← zread (servers sb) i;
  row ← zwrite row j ws;
  rows ← zwrite (servers sb) i row;
  Some (Scoreboard (parent sb) rows).

(** The query codes of [zevent.h]; [None] is [APR_ENOTIMPL]. *)
Definition zevent_mpm_query (c : conf) (zevent_max_daemons_limit mpm_state query_code : Z) : option Z :=
  match query_code with
  | 1 => Some zevent_max_daemons_limit
  | 14 => Some 1
  | 4 => Some (server_limit c)
  | 5 => Some (thread_limit c)
  | 6 => Some (zevent_threads_per_child c)
  | 7 => Some 0
  | 8 => Some (min_spare_threads c)
  | 9 => Some 0
  | 10 => Some (max_spare_threads c)
  | 12 => Some (zevent_daemons_limit c)
  | 13 => Some mpm_state
  | _ => None
  end.
Definition ZEVENT_MPMQ_MAX_DAEMON_USED : Z := 1.
Definition ZEVENT_MPMQ_MAX_DAEMONS : Z := 12.

(** The loop of [find_child_by_pid]; [n] turns are left. *)
Fixpoint find_child_from (sb : scoreboard) (p : Z) (n : nat) (i : Z) : option Z :=
  match n with
  | O => Some (-1)
  | S n =>
      ps ← get_parent sb i;
      if pid ps =? p then Some i else find_child_from sb p n (i + 1)
  end.

(** The query does not use the arguments it is given as 0 here. *)
Definition find_child_by_pid (c : conf) (sb : scoreboard) (p : Z) : option Z :=
  max_daemons_limit ← zevent_mpm_query c 0 0 ZEVENT_MPMQ_MAX_DAEMONS;
  find_child_from sb p (Z.to_nat max_daemons_limit) 0.

Definition with_status (st : Z) (ws : worker_score) : worker_score :=
  WorkerScore (thread_num ws) st (my_access_count ws) (my_bytes_served ws) (conn_bytes ws)
    (conn_count ws) (start_time ws) (stop_time ws) (last_used ws).

Definition zevent_update_child_status_from_indexes (c : conf) (now : Z) (sb : scoreboard)
    (child_num t_num st : Z) : option (Z * scoreboard) :=
  if child_num <? 0 then Some (-1, sb)
  else
    ws ← get_server sb child_num t_num;
    let old_status := status ws in
    let ws := with_status (u8 st) ws in
    ps ← get_parent sb child_num;
    let ready := (st =? SERVER_READY) && (old_status =? SERVER_STARTING) in
    let ws :=
      if ready then
        WorkerScore (child_num * thread_limit c + t_num) (status ws) (my_access_count ws)
          (my_bytes_served ws) (conn_bytes ws) (conn_count ws) (start_time ws) (stop_time ws)
          (last_used ws)
      else ws in
    let ps := if ready then ProcessScore (pid ps) (zevent_my_generation c) (quiescing ps) else ps in
    let ws :=
      if zevent_extended_status c then
        let reset := (st =? SERVER_READY) || (st =? SERVER_DEAD) in
        let dead := st =? SERVER_DEAD in
        WorkerScore (thread_num ws) (status ws)
          (if dead then 0 else my_access_count ws) (if dead then 0 else my_bytes_served ws)
          (if reset then 0 else conn_bytes ws) (if reset then 0 else conn_count ws)
          (start_time ws) (stop_time ws) now
      else ws in
    sb ← set_server sb child_num t_num ws;
    sb ← set_parent sb child_num ps;
    Some (old_status, sb).

(** A handle is the pair of indices; [None] is a null pointer. *)
Definition zevent_update_child_status (c : conf) (now : Z) (sb : scoreboard)
    (sbh : option (Z * Z)) (st : Z) : option (Z * scoreboard) :=
  match sbh with
  | None => Some (-1, sb)
  | Some (child_num, t_num) => zevent_update_child_status_from_indexes c now sb child_num t_num st
  end.

Definition START_PREQUEST : Z := 1.
Definition STOP_PREQUEST : Z := 2.

Definition zevent_time_process_request (now : Z) (sb : scoreboard) (sbh : option (Z * Z))
    (st : Z) : option scoreboard :=
  match sbh with
  | None => Some sb
  | Some (child_num, t_num) =>
      if child_num <? 0 then Some sb
      else
        ws ← get_server sb child_num t_num;
        let times b e :=
          WorkerScore (thread_num ws) (status ws) (my_access_count ws) (my_bytes_served ws)
            (conn_bytes ws) (conn_count ws) b e (last_used ws) in
        if st =? START_PREQUEST then set_server sb child_num t_num (times now (stop_time ws))
        else if st =? STOP_PREQUEST then set_server sb child_num t_num (times (start_time ws) now)
        else Some sb
  end.

(** The result is the address: the indices, or [None] for NULL. *)
Definition zevent_get_scoreboard_worker (c : conf) (x y : Z) : option (Z * Z) :=
  if ((x <? 0) || (server_limit c <? x)) || ((y <? 0) || (thread_limit c <? y))
  then None else Some (x, y).
Definition zevent_get_scoreboard_process (c : conf) (x : Z) : option Z :=
  if (x <? 0) || (server_limit c <? x) then None else Some x.

(** ** Facts *)

(** The settings the table is made for: the limits the code uses lie inside it. *)
Record conf_ok (c : conf) : Prop := ConfOk {
  daemons_ok : 0 <= zevent_daemons_limit c <= server_limit c;
  threads_ok : 0 < zevent_threads_per_child c <= thread_limit c
}.

Record sb_ok (c : conf) (sb : scoreboard) : Prop := SbOk {
  parent_len : Z.of_nat (length (parent sb)) = Z.max 0 (server_limit c);
  servers_len : length (servers sb) = length (parent sb);
  rows_len : forall row, row ∈ servers sb -> Z.of_nat (length row) = Z.max 0 (thread_limit c)
}.

Lemma zread_Some {A} (l : list A) i :
  0 <= i < Z.of_nat (length l) -> exists x, zread l i = Some x /\ l !! Z.to_nat i = Some x.
Proof.
  intros H. destruct (lookup_lt_is_Some_2 l (Z.to_nat i)) as [x Hx]; [lia|].
  exists x. unfold zread, aread. by rewrite (proj2 (Z.ltb_ge i 0)) by lia.
Qed.

Lemma zread_nat {A} (l : list A) (i : nat) : zread l (Z.of_nat i) = l !! i.
Proof. unfold zread, aread. rewrite (proj2 (Z.ltb_ge _ _)), Nat2Z.id by lia. done. Qed.

Lemma zwrite_ok {A} (l : list A) i x :
  0 <= i < Z.of_nat (length l) -> zwrite l i x = Some (<[Z.to_nat i := x]> l).
Proof.
  intros H. unfold zwrite. rewrite (proj2 (Z.ltb_ge i 0)) by lia. apply awrite_ok. lia.
Qed.

Section Table.
Context (c : conf) (sb : scoreboard) (Hsb : sb_ok c sb).

Lemma get_parent_ok i :
  0 <= i < server_limit c ->
  exists ps, get_parent sb i = Some ps /\ parent sb !! Z.to_nat i = Some ps.
Proof. intros. apply zread_Some. destruct Hsb. lia. Qed.

Lemma set_parent_ok i ps :
  0 <= i < server_limit c ->
  set_parent sb i ps = Some (Scoreboard (<[Z.to_nat i := ps]> (parent sb)) (servers sb)).
Proof. intros. unfold set_parent. rewrite zwrite_ok by (destruct Hsb; lia). done. Qed.

Lemma set_parent_sb_ok i ps :
  sb_ok c (Scoreboard (<[i := ps]> (parent sb)) (servers sb)).
Proof. destruct Hsb. split; simpl; rewrite ?length_insert; done. Qed.

Lemma get_server_ok i j :
  0 <= i < server_limit c -> 0 <= j < thread_limit c ->
  exists row ws, servers sb !! Z.to_nat i = Some row /\ row !! Z.to_nat j = Some ws /\
    get_server sb i j = Some ws /\
    forall ws', set_server sb i j ws' =
      Some (Scoreboard (parent sb) (<[Z.to_nat i := <[Z.to_nat j := ws']> row]> (servers sb))).
Proof.
  intros Hi Hj. destruct Hsb as [H1 H2 H3].
  destruct (zread_Some (servers sb) i ltac:(lia)) as (row & E1 & E2).
  assert (Z.of_nat (length row) = Z.max 0 (thread_limit c)) as Hr.
  { apply H3. by eapply list_elem_of_lookup_2. }
  destruct (zread_Some row j ltac:(lia)) as (ws & E3 & E4).
  exists row, ws. split_and!; [done..|by unfold get_server; rewrite E1|].
  intros ws'. unfold set_server. rewrite E1. cbn [mbind option_bind].
  rewrite zwrite_ok by lia. cbn [mbind option_bind]. by rewrite zwrite_ok by lia.
Qed.

Lemma set_server_sb_ok i j row ws :
  servers sb !! i = Some row ->
  sb_ok c (Scoreboard (parent sb) (<[i := <[j := ws]> row]> (servers sb))).
Proof.
  intros E. destruct Hsb as [H1 H2 H3]. split; simpl; rewrite ?length_insert; try done.
  intros row' [k Hk]%list_elem_of_lookup_1.
  apply list_lookup_insert_Some in Hk as [(-> & <- & _)|[_ Hk]].
  - rewrite length_insert. apply H3. by eapply list_elem_of_lookup_2.
  - apply H3. by eapply list_elem_of_lookup_2.
Qed.
End Table.

(** Everything but one thread's status (and, when it becomes ready, the child's
    generation) is as before. *)
Definition pids (sb : scoreboard) : list Z := pid <$> parent sb.
Definition status_of (sb : scoreboard) (i j : nat) : option Z :=
  row ← servers sb !! i; status <$> row !! j.

Lemma update_status_ok c now sb i j st :
  sb_ok c sb -> 0 <= i < server_limit c -> 0 <= j < thread_limit c ->
  exists old sb',
    zevent_update_child_status_from_indexes c now sb i j st = Some (old, sb') /\ sb_ok c sb' /\
    status_of sb (Z.to_nat i) (Z.to_nat j) = Some old /\
    (forall i' j', status_of sb' i' j' =
       if decide ((i', j') = (Z.to_nat i, Z.to_nat j)) then Some (u8 st) else status_of sb i' j') /\
    exists ps, parent sb !! Z.to_nat i = Some ps /\
      parent sb' = <[Z.to_nat i :=
        if (st =? SERVER_READY) && (old =? SERVER_STARTING)
        then ProcessScore (pid ps) (zevent_my_generation c) (quiescing ps) else ps]> (parent sb).
Proof.
  intros Hsb Hi Hj. unfold zevent_update_child_status_from_indexes.
  rewrite (proj2 (Z.ltb_ge i 0)) by lia.
  destruct (get_server_ok c sb Hsb i j Hi Hj) as (row & ws & Hrow & Hws & E1 & E2).
  destruct (get_parent_ok c sb Hsb i Hi) as (ps & E3 & E4).
  rewrite E1. cbn [mbind option_bind]. rewrite E3. cbn [mbind option_bind]. rewrite E2.
  cbn [mbind option_bind].
  match goal with |- context [set_parent ?sb1 i ?ps1] =>
    assert (sb_ok c sb1) as Hsb1 by (by apply set_server_sb_ok);
    rewrite (set_parent_ok c sb1 Hsb1 i ps1 Hi) end.
  cbn [mbind option_bind]. eexists _, _. split; [done|]. split; [by apply (set_parent_sb_ok c _ Hsb1)|].
  split; [unfold status_of; rewrite Hrow; cbn [mbind option_bind]; by rewrite Hws|].
  split; [|exists ps; split; [done|by destruct (_ && _)]].
  intros i' j'. unfold status_of. cbn [servers]. destruct (decide (i' = Z.to_nat i)) as [->|Hne].
  - rewrite list_lookup_insert_eq by (by eapply lookup_lt_Some). rewrite Hrow. cbn [mbind option_bind].
    destruct (decide (j' = Z.to_nat j)) as [->|].
    + rewrite decide_True by done.
      rewrite list_lookup_insert_eq by (by eapply lookup_lt_Some). cbn [fmap option_fmap option_map].
      by destruct (zevent_extended_status c), (_ && _).
    + rewrite decide_False by congruence. by rewrite list_lookup_insert_ne by done.
  - rewrite list_lookup_insert_ne by done. by rewrite decide_False by congruence.
Qed.

Lemma update_status_pids c now sb i j st old sb' :
  zevent_update_child_status_from_indexes c now sb i j st = Some (old, sb') -> pids sb' = pids sb.
Proof.
  unfold zevent_update_child_status_from_indexes. intros H.
  destruct (i <? 0) eqn:Hi; [naive_solver|].
  inv_bind H. inv_bind H. inv_bind H. inv_bind H. simplify_eq.
  unfold set_server in E1. inv_bind E1. inv_bind E1. inv_bind E1. simplify_eq.
  unfold set_parent in E2. inv_bind E2. simplify_eq. unfold pids. cbn [parent].
  unfold get_parent, zread, aread in E0. unfold zwrite in E1. cbn [parent] in E1.
  rewrite Hi in *. apply awrite_Some in E1 as [-> Hlt].
  rewrite list_fmap_insert. apply list_insert_id. rewrite list_lookup_fmap, E0.
  by destruct (_ && _).
Qed.

(** [find_child_by_pid] returns the first slot with the pid. *)
Lemma find_child_from_ok sb p n i :
  0 <= i -> i + Z.of_nat n <= Z.of_nat (length (parent sb)) ->
  (exists k, i <= k < i + Z.of_nat n /\ find_child_from sb p n i = Some k /\
     pids sb !! Z.to_nat k = Some p /\ forall j, (Z.to_nat i <= j < Z.to_nat k)%nat -> pids sb !! j <> Some p) \/
  (find_child_from sb p n i = Some (-1) /\
     forall j, (Z.to_nat i <= j < Z.to_nat i + n)%nat -> pids sb !! j <> Some p).
Proof.
  revert i. induction n as [|n IH]; intros i Hi Hn; [right; split; [done|lia]|].
  cbn [find_child_from]. destruct (zread_Some (parent sb) i ltac:(lia)) as (ps & E1 & E2).
  unfold get_parent. rewrite E1. cbn [mbind option_bind].
  assert (pids sb !! Z.to_nat i = Some (pid ps)) as Hp by (unfold pids; by rewrite list_lookup_fmap, E2).
  destruct (pid ps =? p) eqn:E; [apply Z.eqb_eq in E|apply Z.eqb_neq in E].
  - left. exists i. rewrite Hp, E. split_and!; [lia|lia|done..|lia].
  - assert (forall j, (Z.to_nat i <= j)%nat -> j = Z.to_nat i \/ (Z.to_nat (i + 1) <= j)%nat) as Hcase by lia.
    destruct (IH (i + 1) ltac:(lia) ltac:(lia)) as [(k & Hk & Ek & Hpk & Hlow)|[Ek Hno]].
    + left. exists k. split_and!; [lia|lia|done|done|]. intros j Hj.
      destruct (Hcase j ltac:(lia)) as [->|]; [congruence|apply Hlow; lia].
    + right. split; [done|]. intros j Hj.
      destruct (Hcase j ltac:(lia)) as [->|]; [congruence|apply Hno; lia].
Qed.

Lemma find_child_ok c sb p :
  conf_ok c -> sb_ok c sb ->
  (exists k, 0 <= k < zevent_daemons_limit c /\ find_child_by_pid c sb p = Some k /\
     pids sb !! Z.to_nat k = Some p) \/
  (find_child_by_pid c sb p = Some (-1) /\
     forall j, (j < Z.to_nat (zevent_daemons_limit c))%nat -> pids sb !! j <> Some p).
Proof.
  intros [Hd _] [H1 _ _].
  destruct (find_child_from_ok sb p (Z.to_nat (zevent_daemons_limit c)) 0)
    as [(k & Hk & Ek & Hp & _)|[Ek Hno]]; [lia..| |].
  - left. exists k. split_and!; [lia|lia|done|done].
  - right. split; [done|]. intros j Hj. apply Hno. lia.
Qed.

Lemma create_scoreboard_ok c : sb_ok c (zevent_create_scoreboard c).
Proof.
  split; cbn; rewrite ?length_replicate; [lia|done|].
  intros row [_ ->]%elem_of_replicate_inv%(conj I). rewrite length_replicate. lia.
Qed.

(** ** Theorems *)

(** The table fills the shared memory exactly: [parent] follows the global
    record, the rows of [servers] follow [parent] without gap or overlap, and
    [more_storage] ends at the size that was allocated (the assertion the code
    has in a comment). *)
Theorem scoreboard_layout_tiles (sg sp sw : Z) (c : conf) (H : 0 <= server_limit c) :
  exists rows, zevent_init_scoreboard sg sp sw c =
      (sg, rows, zevent_calc_scoreboard_size sg sp sw c) /\
    Z.of_nat (length rows) = server_limit c /\
    forall i r, rows !! i = Some r ->
      r = sg + sp * server_limit c + Z.of_nat i * (thread_limit c * sw).
Proof.
  unfold zevent_init_scoreboard, zevent_calc_scoreboard_size.
  set (base := 0 + sg + sp * server_limit c).
  assert (forall n, exists rows,
    Nat.iter n (fun '(rows, more) => (rows ++ [more], more + thread_limit c * sw)) ([], base)
      = (rows, base + Z.of_nat n * (thread_limit c * sw)) /\ length rows = n /\
    forall i r, rows !! i = Some r -> r = base + Z.of_nat i * (thread_limit c * sw)) as Hn.
  { induction n as [|n (rows & E & Hl & Hr)]; [exists []; split_and!; [cbn; f_equal; lia|done|done]|].
    rewrite Nat.iter_succ, E. eexists. split; [f_equal; lia|].
    split; [rewrite length_app; cbn; lia|]. intros i r Hi.
    apply lookup_app_Some in Hi as [Hi|[Hi1 Hi2]]; [eauto|].
    apply list_lookup_singleton_Some in Hi2 as [Hi2 <-]. do 3 f_equal. lia. }
  destruct (Hn (Z.to_nat (server_limit c))) as (rows & E & Hl & Hr). exists rows.
  rewrite E, Z2Nat.id by lia. unfold base in *. split_and!; [f_equal; ring|lia|]. intros i r Hi. rewrite (Hr i r Hi). lia.
Qed.

Lemma scoreboard_layout_tiles_witness :
  exists rows, zevent_init_scoreboard 40 16 200 (Conf 3 2 3 2 1 4 1 0 false) =
    (40, rows, 1288) /\ length rows = 3%nat.
Proof.
  destruct (scoreboard_layout_tiles 40 16 200 (Conf 3 2 3 2 1 4 1 0 false)) as (rows & E & Hl & _);
    [cbn; lia|]. exists rows. split; [exact E|]. cbn in Hl. lia.
Defined.

(** The range checks of the two accessors let the index one past the end through. *)
Example get_scoreboard_worker_off_by_one :
  let c := Conf 3 2 3 2 1 4 1 0 false in
  let sb := zevent_create_scoreboard c in
  zevent_get_scoreboard_worker c 3 0 = Some (3, 0) /\ get_server sb 3 0 = None /\
  zevent_get_scoreboard_worker c 0 2 = Some (0, 2) /\ get_server sb 0 2 = None /\
  zevent_get_scoreboard_process c 3 = Some 3 /\ get_parent sb 3 = None.
Proof. split_and!; reflexivity. Qed.
