(* ===== verification/Mpm.v ===== *)
(** The parent process of the server: [src/zevent.c], with the reaping of
    [src/zevent_mpm.c] and the pipe of death of [src/pod.c].

    The parent forks children into slots of the scoreboard, notes their deaths
    and once a second keeps the number of idle threads between two bounds.
    [fork] is an argument, given the children alive; what the children do to the
    scoreboard, signals and deaths are steps between the turns of the main loop.
    Sleeping, logging and what a child runs after the fork are left out. *)
From S2P Require Import Prelude Scoreboard.
Local Open Scope Z_scope.

Definition MAX_SPAWN_RATE : Z := 32.
Definition ZEVENTEXIT_CHILDSICK : Z := 7.
Definition ZEVENTEXIT_CHILDFATAL : Z := 15.
Definition RESTART_CHAR : Z := 36.
Definition GRACEFUL_CHAR : Z := 33.

(** The parent's variables; [pod] is what was written to the pipe, [children] the
    processes forked and not reaped, [nforks] the number of calls of [fork]. *)
Record mpm := Mpm {
  sb : scoreboard; zevent_max_daemons_limit : Z; idle_spawn_rate : Z; hold_off : Z;
  sick_child_detected : bool; shutdown_pending : bool; restart_pending : bool; child_fatal : bool;
  pod : list Z; children : list Z; nforks : nat
}.

Definition set_sb (x : scoreboard) (s : mpm) : mpm :=
  Mpm x (zevent_max_daemons_limit s) (idle_spawn_rate s) (hold_off s) (sick_child_detected s)
    (shutdown_pending s) (restart_pending s) (child_fatal s) (pod s) (children s) (nforks s).
Definition set_max (x : Z) (s : mpm) : mpm :=
  Mpm (sb s) x (idle_spawn_rate s) (hold_off s) (sick_child_detected s)
    (shutdown_pending s) (restart_pending s) (child_fatal s) (pod s) (children s) (nforks s).
Definition set_rate (x h : Z) (s : mpm) : mpm :=
  Mpm (sb s) (zevent_max_daemons_limit s) x h (sick_child_detected s)
    (shutdown_pending s) (restart_pending s) (child_fatal s) (pod s) (children s) (nforks s).
Definition set_sick (b : bool) (s : mpm) : mpm :=
  Mpm (sb s) (zevent_max_daemons_limit s) (idle_spawn_rate s) (hold_off s) b
    (shutdown_pending s) (restart_pending s) (child_fatal s) (pod s) (children s) (nforks s).
Definition set_flags (shut rest fatal : bool) (s : mpm) : mpm :=
  Mpm (sb s) (zevent_max_daemons_limit s) (idle_spawn_rate s) (hold_off s) (sick_child_detected s)
    shut rest fatal (pod s) (children s) (nforks s).
Definition set_kernel (cs : list Z) (n : nat) (s : mpm) : mpm :=
  Mpm (sb s) (zevent_max_daemons_limit s) (idle_spawn_rate s) (hold_off s) (sick_child_detected s)
    (shutdown_pending s) (restart_pending s) (child_fatal s) (pod s) cs n.

(** Writing one byte to the pipe, which the model does not let fail. *)
Definition zevent_pod_signal (graceful : bool) (s : mpm) : mpm :=
  Mpm (sb s) (zevent_max_daemons_limit s) (idle_spawn_rate s) (hold_off s) (sick_child_detected s)
    (shutdown_pending s) (restart_pending s) (child_fatal s)
    (pod s ++ [if graceful then GRACEFUL_CHAR else RESTART_CHAR]) (children s) (nforks s).

Section Mpm.
Context (c : conf).
(** The result in the parent: -1, or the pid of a child that is not among those
    alive.  [now] is the clock. *)
Context (fork : nat -> list Z -> Z) (now : Z).

Definition do_fork (s : mpm) : Z * mpm :=
  let p := fork (nforks s) (children s) in
  (p, set_kernel (if p =? -1 then children s else p :: children s) (S (nforks s)) s).

(** The branch of the parent; [one_process] is off. *)
Definition make_child (slot : Z) (s : mpm) : option (Z * mpm) :=
  let s := if zevent_max_daemons_limit s <? slot + 1 then set_max (slot + 1) s else s in
  let '(p, s) := do_fork s in
  if p =? -1 then
    '(_, b) ← zevent_update_child_status_from_indexes c now (sb s) slot 0 SERVER_DEAD;
    Some (-1, set_sb b s)
  else
    ps ← get_parent (sb s) slot;
    b ← set_parent (sb s) slot (ProcessScore p (generation ps) 0);
    Some (0, set_sb b s).

Definition startup_children (number_to_start : Z) (s : mpm) : option mpm :=
  '(_, s) ←
    cfor (Z.to_nat (zevent_daemons_limit c)) 0 (fun i '(n, s) =>
      if n =? 0 then Some (inr (n, s))
      else
        ps ← get_parent (sb s) (Z.of_nat i);
        if negb (pid ps =? 0) then Some (inl (n, s))
        else
          '(r, s) ← make_child (Z.of_nat i) s;
          if r <? 0 then Some (inr (n, s)) else Some (inl (n - 1, s)))
      (number_to_start, s);
  Some s.

(** ** Idle maintenance *)

(** What the scan of a child's threads finds. *)
Record found := Found {
  any_dying_threads : bool; any_dead_threads : bool; all_dead_threads : bool;
  idle : Z; active : Z
}.

Definition scan_thread (ps : process_score) (st : Z) (f : found) : found :=
  let live := negb (pid ps =? 0) in
  Found (any_dying_threads f || (st =? SERVER_GRACEFUL))
    (any_dead_threads f || (st =? SERVER_DEAD))
    (all_dead_threads f && ((st =? SERVER_DEAD) || (st =? SERVER_GRACEFUL)))
    (if live && ((st <=? SERVER_READY) && (quiescing ps =? 0) && (generation ps =? zevent_my_generation c))
     then idle f + 1 else idle f)
    (if live && ((SERVER_READY <=? st) && (st <? SERVER_GRACEFUL)) then active f + 1 else active f).

Definition scan_threads (b : scoreboard) (i : Z) (ps : process_score) (idle0 active0 : Z) : option found :=
  cfor (Z.to_nat (zevent_threads_per_child c)) 0 (fun j f =>
    ws ← get_server b i (Z.of_nat j);
    Some (inl (scan_thread ps (status ws) f)))
    (Found false false true idle0 active0).

(** [free_slots] has [MAX_SPAWN_RATE] cells, uninitialised at first. *)
Record scan := Scan {
  idle_thread_count : Z; active_thread_count : Z;
  free_slots : list Z; free_length : Z; totally_free_length : Z;
  last_non_dead : Z; total_non_dead : Z
}.

Definition add_slot (i : Z) (all_dead : bool) (a : scan) : option scan :=
  if all_dead then
    x ← zread (free_slots a) (totally_free_length a);
    fs ← zwrite (free_slots a) (free_length a) x;
    fs ← zwrite fs (totally_free_length a) i;
    Some (Scan (idle_thread_count a) (active_thread_count a) fs (free_length a + 1)
            (totally_free_length a + 1) (last_non_dead a) (total_non_dead a))
  else
    fs ← zwrite (free_slots a) (free_length a) i;
    Some (Scan (idle_thread_count a) (active_thread_count a) fs (free_length a + 1)
            (totally_free_length a) (last_non_dead a) (total_non_dead a)).

Definition scan_slot (s : mpm) (n : nat) (a : scan) : option (scan + scan) :=
  let i := Z.of_nat n in
  if (zevent_max_daemons_limit s <=? i) && (totally_free_length a =? idle_spawn_rate s)
  then Some (inr a)
  else
    ps ← get_parent (sb s) i;
    f ← scan_threads (sb s) i ps (idle_thread_count a) (active_thread_count a);
    let a := Scan (idle f) (active f) (free_slots a) (free_length a) (totally_free_length a)
               (last_non_dead a) (total_non_dead a) in
    a ← (if any_dead_threads f && (totally_free_length a <? idle_spawn_rate s)
            && (free_length a <? MAX_SPAWN_RATE) && ((pid ps =? 0) || negb (quiescing ps =? 0))
         then add_slot i (all_dead_threads f) a else Some a);
    Some (inl
      (if any_dying_threads f then a
       else Scan (idle_thread_count a) (active_thread_count a) (free_slots a) (free_length a)
              (totally_free_length a) i (total_non_dead a + 1))).

Definition scan_slots (garbage : list Z) (s : mpm) : option scan :=
  cfor (Z.to_nat (zevent_daemons_limit c)) 0 (scan_slot s) (Scan 0 0 garbage 0 0 (-1) 0).

Definition spawn (fs : list Z) (n : Z) (s : mpm) : option mpm :=
  cfor (Z.to_nat n) 0 (fun i s =>
    slot ← zread fs (Z.of_nat i);
    '(_, s) ← make_child slot s;
    Some (inl s)) s.

Definition perform_idle_server_maintenance (garbage : list Z) (s : mpm) : option mpm :=
  a ← scan_slots garbage s;
  if sick_child_detected s && negb (active_thread_count a >? 0)
  then Some (set_flags true (restart_pending s) true s)
  else
    let s := set_sick false s in
    let s := set_max (last_non_dead a + 1) s in
    if idle_thread_count a >? max_spare_threads c then
      Some (set_rate 1 (hold_off s) (zevent_pod_signal true s))
    else if idle_thread_count a <? min_spare_threads c then
      if free_length a =? 0 then Some (set_rate 1 (hold_off s) s)
      else
        let n := if free_length a >? idle_spawn_rate s then idle_spawn_rate s else free_length a in
        s ← spawn (free_slots a) n s;
        if negb (hold_off s =? 0) then Some (set_rate (idle_spawn_rate s) (hold_off s - 1) s)
        else if idle_spawn_rate s <? MAX_SPAWN_RATE
        then Some (set_rate (idle_spawn_rate s * 2) (hold_off s) s)
        else Some s
    else Some (set_rate 1 (hold_off s) s).

(** ** The main loop *)

(** What [apr_proc_wait_all_procs] says: interrupted, a child with how it ended
    (whether it exited, and its status), or nothing.  The counter of the calls has
    no effect: what it was for is commented out. *)
Inductive wait_result := WaitEintr | WaitDone (p : Z) (exited : bool) (st : Z) | WaitNone.

Definition zevent_wait_or_timeout (rv : wait_result) : option (Z * bool * Z) :=
  match rv with
  | WaitEintr => None
  | WaitDone p exited st => Some (p, exited, st)
  | WaitNone => None
  end.

Definition zevent_process_child_status (exited : bool) (st : Z) : Z :=
  if exited then
    if st =? ZEVENTEXIT_CHILDSICK then st
    else if st =? ZEVENTEXIT_CHILDFATAL then ZEVENTEXIT_CHILDFATAL else 0
  else 0.

Definition reap (p : Z) (s : mpm) : mpm :=
  set_kernel (filter (fun q => q <> p) (children s)) (nforks s) s.

Definition mark_dead (slot : Z) (b : scoreboard) : option scoreboard :=
  b ← cfor (Z.to_nat (zevent_threads_per_child c)) 0 (fun i b =>
    '(_, b) ← zevent_update_child_status_from_indexes c now b slot (Z.of_nat i) SERVER_DEAD;
    Some (inl b)) b;
  ps ← get_parent b slot;
  set_parent b slot (ProcessScore 0 (generation ps) 0).

(** One turn of [server_main_loop]: [None] as the next state means that the
    function returns. *)
Definition server_main_turn (garbage : list Z) (rv : wait_result) (remaining : Z) (s : mpm) :
    option (option Z * mpm) :=
  match zevent_wait_or_timeout rv with
  | Some (p, exited, st) =>
      let s := reap p s in
      let processed_status := zevent_process_child_status exited st in
      if processed_status =? ZEVENTEXIT_CHILDFATAL
      then Some (None, set_flags true (restart_pending s) true s)
      else
        let s := if processed_status =? ZEVENTEXIT_CHILDSICK then set_sick true s else s in
        child_slot ← find_child_by_pid c (sb s) p;
        if child_slot >=? 0 then
          b ← mark_dead child_slot (sb s);
          let s := set_sb b s in
          if processed_status =? ZEVENTEXIT_CHILDSICK
          then Some (Some remaining, set_rate 1 (hold_off s) s)
          else if negb (remaining =? 0) && (child_slot <? zevent_daemons_limit c) then
            '(_, s) ← make_child child_slot s;
            Some (Some (remaining - 1), s)
          else Some (Some remaining, s)
        else Some (Some remaining, s)
  | None =>
      if negb (remaining =? 0) then
        s ← startup_children remaining s;
        Some (Some 0, s)
      else
        s ← perform_idle_server_maintenance garbage s;
        Some (Some remaining, s)
  end.

Definition pending (s : mpm) : bool := restart_pending s || shutdown_pending s.

(** ** [zevent_run] up to the main loop *)

(** The spare threads are raised first. *)
Definition run_conf : conf :=
  Conf (server_limit c) (thread_limit c) (zevent_daemons_limit c) (zevent_threads_per_child c)
    (min_spare_threads c)
    (if max_spare_threads c <? min_spare_threads c + zevent_threads_per_child c
     then min_spare_threads c + zevent_threads_per_child c else max_spare_threads c)
    (zevent_daemons_to_start c) (zevent_my_generation c) (zevent_extended_status c).

Definition initial (b : scoreboard) (kids : list Z) : mpm :=
  Mpm b (-1) 1 0 false false false false [] kids 0.

Definition zevent_run_start (is_graceful : bool) (s : mpm) : option (Z * mpm) :=
  let remaining := zevent_daemons_to_start c in
  let remaining := if remaining >? zevent_daemons_limit c then zevent_daemons_limit c else remaining in
  '(remaining, s) ←
    (if negb is_graceful then s ← startup_children remaining s; Some (0, s)
     else Some (remaining, set_rate (idle_spawn_rate s) 10 s));
  Some (remaining, set_flags false false (child_fatal s) s).

(** ** Steps *)

(** The call returns children of this process. *)
Definition waits_for (s : mpm) (rv : wait_result) : Prop :=
  match rv with WaitDone p _ _ => 0 < p /\ p ∈ children s | _ => True end.

(** Between the turns a child updates one of its threads, or notes that it is
    going down, and a signal arrives. *)
Inductive step : Z * mpm -> Z * mpm -> Prop :=
  | step_turn garbage rv remaining s remaining' s' :
      length garbage = Z.to_nat MAX_SPAWN_RATE -> pending s = false -> waits_for s rv ->
      server_main_turn garbage rv remaining s = Some (Some remaining', s') ->
      step (remaining, s) (remaining', s')
  | step_child_status remaining s i j st old b :
      0 <= i < server_limit c -> 0 <= j < thread_limit c -> 0 <= st < SERVER_NUM_STATUS ->
      zevent_update_child_status_from_indexes c now (sb s) i j st = Some (old, b) ->
      step (remaining, s) (remaining, set_sb b s)
  | step_child_quiesces remaining s i ps b :
      get_parent (sb s) i = Some ps ->
      set_parent (sb s) i (ProcessScore (pid ps) (generation ps) 1) = Some b ->
      step (remaining, s) (remaining, set_sb b s)
  | step_signal remaining s shut rest :
      step (remaining, s) (remaining, set_flags (shutdown_pending s || shut) (restart_pending s || rest) (child_fatal s) s).

(** ** Invariant *)

Hypothesis (Hc : conf_ok c).
Hypothesis (Hfork : forall n kids, fork n kids = -1 \/ (0 < fork n kids /\ fork n kids ∉ kids)).

(** Every pid of the table is a living child, in one slot only. *)
Record table_ok (tbl kids : list Z) : Prop := TableOk {
  ok_alive : forall i p, tbl !! i = Some p -> p <> 0 ->
    p ∈ kids /\ 0 < p /\ Z.of_nat i < zevent_daemons_limit c;
  ok_distinct : forall i j p, tbl !! i = Some p -> tbl !! j = Some p -> p <> 0 -> i = j
}.

Record mpm_ok (s : mpm) : Prop := MpmOk {
  ok_sb : sb_ok c (sb s);
  ok_rate : idle_spawn_rate s ∈ [1; 2; 4; 8; 16; 32];
  ok_hold : 0 <= hold_off s;
  ok_max : -1 <= zevent_max_daemons_limit s <= zevent_daemons_limit c;
  ok_table : table_ok (pids (sb s)) (children s)
}.

(** What the operations on the table leave alone. *)
Definition env (s : mpm) :=
  (idle_spawn_rate s, hold_off s, sick_child_detected s, (shutdown_pending s, restart_pending s, child_fatal s), pod s).

(** The reference for a series of forks: each takes the next slot. *)
Fixpoint fork_into (slots : list Z) (n : nat) (kids tbl : list Z) : list Z * list Z :=
  match slots with
  | [] => (kids, tbl)
  | i :: slots =>
      let p := fork n kids in
      if p =? -1 then fork_into slots (S n) kids tbl
      else fork_into slots (S n) (p :: kids) (<[Z.to_nat i := p]> tbl)
  end.

Lemma table_ok_fork i p tbl kids :
  table_ok tbl kids -> 0 < p -> p ∉ kids -> Z.of_nat i < zevent_daemons_limit c ->
  table_ok (<[i := p]> tbl) (p :: kids).
Proof.
  intros [H1 H2] Hp Hnew Hi. split.
  - intros k q [(-> & <- & _)|[_ Hk]]%list_lookup_insert_Some Hq; [set_solver by lia|].
    destruct (H1 k q Hk Hq) as (? & ? & ?). set_solver.
  - intros k j q [(-> & <- & _)|[Hne Hk]]%list_lookup_insert_Some
      [(-> & E & _)|[Hne' Hj]]%list_lookup_insert_Some Hq; simplify_eq; try done.
    + destruct Hnew. by apply (H1 j).
    + destruct Hnew. by apply (H1 k).
    + by eapply H2.
Qed.

Lemma table_ok_free i tbl kids p :
  table_ok tbl kids -> tbl !! i = Some p -> table_ok (<[i := 0]> tbl) (filter (fun q => q <> p) kids).
Proof.
  intros [H1 H2] Hi. split.
  - intros k q [(-> & <- & _)|[Hne Hk]]%list_lookup_insert_Some Hq; [done|].
    destruct (H1 k q Hk Hq) as (? & ? & ?). split_and!; [|done..].
    apply list_elem_of_filter. split; [|done]. intros ->. destruct Hne. by eapply H2.
  - intros k j q [(-> & <- & _)|[Hne Hk]]%list_lookup_insert_Some
      [(-> & E & _)|[Hne' Hj]]%list_lookup_insert_Some Hq; simplify_eq; try done. by eapply H2.
Qed.

Lemma table_ok_lost tbl kids p :
  table_ok tbl kids -> (forall i, tbl !! i = Some p -> p = 0) -> table_ok tbl (filter (fun q => q <> p) kids).
Proof.
  intros [H1 H2] Hp. split; [|done]. intros k q Hk Hq. destruct (H1 k q Hk Hq) as (? & ? & ?).
  split_and!; [|done..]. apply list_elem_of_filter. split; [|done]. intros ->. eauto.
Qed.

Lemma make_child_ok slot s :
  mpm_ok s -> 0 <= slot < zevent_daemons_limit c ->
  exists r s', make_child slot s = Some (r, s') /\ mpm_ok s' /\ env s' = env s /\
    nforks s' = S (nforks s) /\ r = (if fork (nforks s) (children s) =? -1 then -1 else 0) /\
    (children s', pids (sb s')) = fork_into [slot] (nforks s) (children s) (pids (sb s)).
Proof.
  intros [Hsb Hr Hh Hm Ht] Hs. unfold make_child.
  set (s1 := if _ <? _ then _ else _).
  assert (sb s1 = sb s /\ env s1 = env s /\ children s1 = children s /\ nforks s1 = nforks s /\
    -1 <= zevent_max_daemons_limit s1 <= zevent_daemons_limit c) as (E1 & E2 & E3 & E4 & E5).
  { unfold s1. destruct (_ <? _) eqn:E; simpl; split_and!; try done; lia. }
  clearbody s1. unfold do_fork. rewrite E3, E4. cbn [fork_into].
  assert (0 <= slot < server_limit c) as Hsl by (destruct Hc; lia).
  unfold env in *. simplify_eq.
  destruct (Z.eqb_spec (fork (nforks s) (children s)) (-1)) as [E|E].
  - cbn [sb set_kernel]. rewrite E1.
    destruct (update_status_ok c now (sb s) slot 0 SERVER_DEAD Hsb Hsl ltac:(destruct Hc; lia))
      as (old & b & Eb & Hb & _). rewrite Eb. cbn [mbind option_bind].
    eexists _, _. split; [done|]. pose proof (update_status_pids _ _ _ _ _ _ _ _ Eb) as Hp.
    split; [split; simpl; congruence|]. cbn. rewrite Hp. split_and!; congruence.
  - cbn [sb set_kernel]. rewrite E1.
    destruct (get_parent_ok c (sb s) Hsb slot Hsl) as (ps & Ep & Ep'). rewrite Ep.
    cbn [mbind option_bind]. rewrite (set_parent_ok c (sb s) Hsb) by done. cbn [mbind option_bind].
    assert (forall ps', pids (Scoreboard (<[Z.to_nat slot := ps']> (parent (sb s))) (servers (sb s)))
      = <[Z.to_nat slot := pid ps']> (pids (sb s))) as Hpids by (intros; apply list_fmap_insert).
    eexists _, _. split; [done|]. split.
    + split; cbn -[pids]; [by apply set_parent_sb_ok|congruence..|]. rewrite Hpids.
      destruct (Hfork (nforks s) (children s)) as [|[Hf1 Hf2]]; [done|].
      apply table_ok_fork; try done. lia.
    + cbn -[pids]. rewrite Hpids. cbn. split_and!; congruence.
Qed.

Lemma fork_into_app l1 l2 n kids tbl :
  fork_into (l1 ++ l2) n kids tbl =
  (let '(kids', tbl') := fork_into l1 n kids tbl in fork_into l2 (n + length l1) kids' tbl').
Proof.
  revert n kids tbl. induction l1 as [|i l1 IH]; intros n kids tbl; simpl; [by rewrite Nat.add_0_r|].
  case_match; rewrite IH, Nat.add_succ_comm; done.
Qed.

(** The state after forking into [slots], in that order. *)
Definition forked (slots : list Z) (s s' : mpm) : Prop :=
  mpm_ok s' /\ env s' = env s /\ nforks s' = (nforks s + length slots)%nat /\
  (children s', pids (sb s')) = fork_into slots (nforks s) (children s) (pids (sb s)).

Lemma forked_nil s : mpm_ok s -> forked [] s s.
Proof. intros. unfold forked. simpl. split_and!; [done..|lia|done]. Qed.

Lemma forked_snoc slots s s1 i :
  forked slots s s1 -> 0 <= i < zevent_daemons_limit c ->
  exists r s2, make_child i s1 = Some (r, s2) /\ forked (slots ++ [i]) s s2.
Proof.
  intros (H1 & H2 & H3 & H4) Hi.
  destruct (make_child_ok i s1 H1 Hi) as (r & s2 & E & K1 & K2 & K3 & _ & K4).
  exists r, s2. split; [done|]. unfold forked. rewrite fork_into_app, <- H4, K2, K3, H3, length_app.
  split_and!; [done..|simpl; lia|]. by rewrite K4, H3.
Qed.

Lemma spawn_ok fs n s :
  mpm_ok s -> 0 <= n <= Z.of_nat (length fs) ->
  (forall x, x ∈ take (Z.to_nat n) fs -> 0 <= x < zevent_daemons_limit c) ->
  exists s', spawn fs n s = Some s' /\ forked (take (Z.to_nat n) fs) s s'.
Proof.
  intros Hs Hn Hfs. unfold spawn.
  apply (cfor_total (fun i s1 => forked (take i fs) s s1)); [|done|by apply forked_nil].
  intros j s1 Hj Hf. destruct (lookup_lt_is_Some_2 fs j ltac:(lia)) as [x Hx].
  rewrite zread_nat, Hx. cbn [mbind option_bind].
  destruct (forked_snoc _ _ _ x Hf) as (r & s2 & E & Hf2).
  - apply Hfs. apply list_elem_of_lookup_2 with j. rewrite lookup_take_lt by lia. done.
  - rewrite E. cbn [mbind option_bind]. by erewrite take_S_r.
Qed.

(** The slots a start fills were empty, and no more than asked for. *)
Lemma startup_children_ok n s :
  mpm_ok s ->
  exists s' slots, startup_children n s = Some s' /\ forked slots s s' /\
    (0 <= n -> Z.of_nat (length slots) <= n).
Proof.
  intros Hs. unfold startup_children.
  destruct (cfor_total (fun (_ : nat) '(m, s1) => exists slots, forked slots s s1 /\
      (0 <= n -> 0 <= m /\ Z.of_nat (length slots) + m <= n))
    (fun '(m, s1) => exists slots, forked slots s s1 /\ (0 <= n -> Z.of_nat (length slots) <= n))
    (fun i '(n, s) =>
      if n =? 0 then Some (inr (n, s))
      else
        ps ← get_parent (sb s) (Z.of_nat i);
        if negb (pid ps =? 0) then Some (inl (n, s))
        else
          '(r, s) ← make_child (Z.of_nat i) s;
          if r <? 0 then Some (inr (n, s)) else Some (inl (n - 1, s)))
    (Z.to_nat (zevent_daemons_limit c)) 0%nat (n, s)) as ([m s'] & E & slots & H1 & H2).
  - intros j [m s1] Hj (slots & Hf & Hm).
    destruct (Z.eqb_spec m 0) as [->|Hm0]; [exists slots; split; [done|]; intros H; specialize (Hm H); lia|].
    assert (0 <= Z.of_nat j < zevent_daemons_limit c) as Hj' by lia.
    destruct Hf as (Hok & Hf).
    destruct (get_parent_ok c (sb s1) (ok_sb _ Hok) (Z.of_nat j)) as (ps & Ep & _);
      [destruct Hc; lia|]. rewrite Ep. cbn [mbind option_bind].
    destruct (negb (pid ps =? 0)); [by exists slots; split; [split|]|].
    destruct (forked_snoc slots s s1 (Z.of_nat j) (conj Hok Hf) Hj') as (r & s2 & E & Hf2).
    rewrite E. cbn [mbind option_bind].
    destruct (r <? 0); exists (slots ++ [Z.of_nat j]); (split; [done|]);
      intros H1; specialize (Hm H1); rewrite length_app; simpl; lia.
  - intros [m s1] (slots & Hf & Hm). exists slots. split; [done|]. intros H. specialize (Hm H). lia.
  - exists []. split; [by apply forked_nil|]. simpl. lia.
  - rewrite E. cbn [mbind option_bind]. eauto.
Qed.

(** ** The scan *)

(** What the scan should find, slot by slot. *)
Definition slot_statuses (b : scoreboard) (i : nat) : list Z :=
  from_option (fun row => take (Z.to_nat (zevent_threads_per_child c)) (status <$> row)) [] (servers b !! i).

Definition count_if (f : Z -> bool) (l : list Z) : Z := Z.of_nat (length (filter (fun x => f x = true) l)).

Definition idle_in (b : scoreboard) (i : nat) : Z :=
  match parent b !! i with
  | Some ps =>
      if negb (pid ps =? 0) && (quiescing ps =? 0) && (generation ps =? zevent_my_generation c)
      then count_if (fun st => st <=? SERVER_READY) (slot_statuses b i) else 0
  | None => 0
  end.

Definition active_in (b : scoreboard) (i : nat) : Z :=
  match parent b !! i with
  | Some ps =>
      if negb (pid ps =? 0)
      then count_if (fun st => (SERVER_READY <=? st) && (st <? SERVER_GRACEFUL)) (slot_statuses b i) else 0
  | None => 0
  end.

(** A slot a child may be forked into: some thread of it is dead, and it has no
    process or one that is going away. *)
Definition candidate (b : scoreboard) (i : nat) : bool :=
  match parent b !! i with
  | Some ps =>
      existsb (fun st => st =? SERVER_DEAD) (slot_statuses b i)
      && ((pid ps =? 0) || negb (quiescing ps =? 0))
  | None => false
  end.

Definition totally_free (b : scoreboard) (i : nat) : bool :=
  forallb (fun st => (st =? SERVER_DEAD) || (st =? SERVER_GRACEFUL)) (slot_statuses b i).

Fixpoint total (f : nat -> Z) (n : nat) : Z :=
  match n with O => 0 | S n => total f n + f n end.

Definition one (b : bool) : Z := if b then 1 else 0.
Definition candidates (b : scoreboard) (n : nat) : Z := total (fun i => one (candidate b i)) n.

Lemma candidates_mono b n m : (n <= m)%nat -> 0 <= candidates b n <= candidates b m.
Proof.
  assert (forall k, 0 <= candidates b k) as Hpos.
  { intros k. induction k as [|k IH]; cbn; [lia|]. unfold candidates in IH. destruct (candidate b k); cbn; lia. }
  intros Hle. split; [done|]. induction Hle as [|m Hle IH]; [lia|]. unfold candidates in *. cbn.
  destruct (candidate b m); cbn; lia.
Qed.

Lemma count_if_snoc f l x : count_if f (l ++ [x]) = count_if f l + one (f x).
Proof.
  unfold count_if. rewrite filter_app, length_app. unfold filter at 2. cbn.
  case_decide as H; [rewrite H|destruct (f x); [done|]]; cbn; lia.
Qed.

Lemma existsb_snoc {A} (f : A -> bool) l x : existsb f (l ++ [x]) = existsb f l || f x.
Proof. rewrite existsb_app. cbn. by rewrite orb_false_r. Qed.
Lemma forallb_snoc {A} (f : A -> bool) l x : forallb f (l ++ [x]) = forallb f l && f x.
Proof. rewrite forallb_app. cbn. by rewrite andb_true_r. Qed.

Lemma scan_threads_ok b i ps idle0 active0 :
  sb_ok c b -> parent b !! i = Some ps -> Z.of_nat i < server_limit c ->
  scan_threads b (Z.of_nat i) ps idle0 active0 =
  Some (Found (existsb (fun st => st =? SERVER_GRACEFUL) (slot_statuses b i))
    (existsb (fun st => st =? SERVER_DEAD) (slot_statuses b i)) (totally_free b i)
    (idle0 + idle_in b i) (active0 + active_in b i)).
Proof.
  intros Hsb Hps Hi. unfold idle_in, active_in, totally_free. rewrite Hps.
  destruct (lookup_lt_is_Some_2 (servers b) i) as [row Hrow]; [destruct Hsb; lia|].
  assert (Z.of_nat (length row) = Z.max 0 (thread_limit c)) as Hlen
    by (eapply rows_len; [done|by eapply list_elem_of_lookup_2]).
  unfold slot_statuses. rewrite Hrow. cbn [from_option].
  set (l := status <$> row). set (n := Z.to_nat _).
  set (live := negb (pid ps =? 0)).
  set (mine := (quiescing ps =? 0) && (generation ps =? zevent_my_generation c)).
  set (spec := fun j : nat => Found (existsb (fun st => st =? SERVER_GRACEFUL) (take j l))
    (existsb (fun st => st =? SERVER_DEAD) (take j l))
    (forallb (fun st => (st =? SERVER_DEAD) || (st =? SERVER_GRACEFUL)) (take j l))
    (idle0 + (if live && mine then count_if (fun st => st <=? SERVER_READY) (take j l) else 0))
    (active0 + (if live then count_if (fun st => (SERVER_READY <=? st) && (st <? SERVER_GRACEFUL)) (take j l) else 0))).
  destruct (cfor_total (fun j f => f = spec j) (fun f => f = spec n)
    (fun j f => ws ← get_server b (Z.of_nat i) (Z.of_nat j); Some (inl (scan_thread ps (status ws) f)))
    n 0%nat (Found false false true idle0 active0)) as (f & E & ->).
  - intros j f Hj ->.
    assert ((j < length row)%nat) as Hjr by (destruct Hc; lia).
    destruct (lookup_lt_is_Some_2 row j Hjr) as [ws Hws].
    unfold get_server. rewrite zread_nat, Hrow. cbn [mbind option_bind].
    rewrite zread_nat, Hws. cbn [mbind option_bind].
    assert (l !! j = Some (status ws)) as Hl by (unfold l; by rewrite list_lookup_fmap, Hws).
    unfold spec. rewrite (take_S_r _ _ _ Hl), !existsb_snoc, forallb_snoc, !count_if_snoc.
    unfold scan_thread. cbn [any_dying_threads any_dead_threads all_dead_threads idle active].
    fold live. f_equal.
    + unfold mine. destruct live, (quiescing ps =? 0), (generation ps =? _), (_ <=? _); cbn [andb one]; lia.
    + destruct live, (SERVER_READY <=? _), (_ <? _); cbn [andb one]; lia.
  - by intros ? ->.
  - unfold spec. rewrite !take_0. destruct (live && mine), live;
      change (count_if _ []) with 0; rewrite ?Z.add_0_r; done.
  - unfold scan_threads. fold n. rewrite E. unfold spec, mine. by rewrite <- andb_assoc.
Qed.

(** The recorded slots: those in use totally free come first. *)
Definition slots_of (a : scan) : list Z := take (Z.to_nat (free_length a)) (free_slots a).

Definition sorted_slots (free : Z -> bool) (t : Z) (l : list Z) : Prop :=
  forall k x, l !! k = Some x -> free x = bool_decide (Z.of_nat k < t).

Lemma add_slot_ok (free : Z -> bool) i a :
  0 <= totally_free_length a <= free_length a -> free_length a < Z.of_nat (length (free_slots a)) ->
  sorted_slots free (totally_free_length a) (slots_of a) ->
  exists a', add_slot i (free i) a = Some a' /\
    (idle_thread_count a', active_thread_count a', free_length a', totally_free_length a',
      last_non_dead a', total_non_dead a') =
    (idle_thread_count a, active_thread_count a, free_length a + 1,
      totally_free_length a + one (free i), last_non_dead a, total_non_dead a) /\
    length (free_slots a') = length (free_slots a) /\
    slots_of a' ≡ₚ i :: slots_of a /\
    sorted_slots free (totally_free_length a') (slots_of a').
Proof.
  destruct a as [ic ac fs fl tf ln tn]. unfold slots_of, add_slot. cbn -[take length].
  intros Ht Hf Hs. set (f := Z.to_nat fl). set (t := Z.to_nat tf).
  assert (Z.of_nat t = tf /\ Z.of_nat f = fl) as [Hzt Hzf] by lia.
  destruct (lookup_lt_is_Some_2 fs f ltac:(lia)) as [y Hy].
  assert (forall x, take (S f) (<[f := x]> fs) = take f fs ++ [x]) as Htake.
  { intros x. erewrite take_S_r by (apply list_lookup_insert_eq; lia). by rewrite take_insert_ge. }
  replace (Z.to_nat (fl + 1)) with (S f) by lia.
  assert (length (take f fs) = f) as Hlen by (rewrite length_take; lia).
  destruct (free i) eqn:Hi.
  - destruct (zread_Some fs tf ltac:(lia)) as (x & E1 & E2). rewrite E1. cbn [mbind option_bind].
    rewrite zwrite_ok by lia. cbn [mbind option_bind].
    rewrite zwrite_ok by (rewrite length_insert; lia). cbn [mbind option_bind].
    fold f t. fold t in E2. eexists. split; [done|]. cbn -[take]. fold f. 
    replace (Z.to_nat (fl + 1)) with (S f) by lia.
    rewrite !length_insert. split; [done|]. split; [done|].
    destruct (decide (t = f)) as [Htf|Htf].
    + rewrite Htf, list_insert_insert_eq, Htake. split; [by rewrite Permutation_app_comm|].
      intros k z Hk. apply lookup_app_Some in Hk as [Hk|[Hk1 Hk2]].
      * rewrite (Hs k z Hk). apply lookup_lt_Some in Hk. rewrite Hlen in Hk. apply bool_decide_ext. lia.
      * apply list_lookup_singleton_Some in Hk2 as [Hk2 <-]. rewrite Hi. symmetry. apply bool_decide_true. lia.
    + assert (t < f)%nat as Hlt by lia. rewrite take_insert_lt by lia. rewrite Htake.
      rewrite insert_app_l by lia. assert (take f fs !! t = Some x) as Hx by (by rewrite lookup_take_lt).
      split; [rewrite Permutation_app_comm; by apply insert_Permutation|].
      intros k z Hk. apply lookup_app_Some in Hk as [Hk|[Hk1 Hk2]].
      * apply list_lookup_insert_Some in Hk as [(-> & <- & _)|[Hne Hk]].
        -- rewrite Hi. symmetry. apply bool_decide_true. lia.
        -- rewrite (Hs k z Hk). apply bool_decide_ext. lia.
      * apply list_lookup_singleton_Some in Hk2 as [Hk2 <-]. rewrite length_insert in *.
        rewrite (Hs _ _ Hx). apply bool_decide_ext. lia.
  - rewrite zwrite_ok by lia. cbn [mbind option_bind]. fold f. eexists. split; [done|]. cbn -[take].
    replace (Z.to_nat (fl + 1)) with (S f) by lia. rewrite length_insert, Htake.
    split; [by rewrite Z.add_0_r|]. split; [done|]. split; [by rewrite Permutation_app_comm|].
    intros k z Hk. apply lookup_app_Some in Hk as [Hk|[Hk1 Hk2]]; [by apply Hs|].
    apply list_lookup_singleton_Some in Hk2 as [Hk2 <-]. rewrite Hi. symmetry. apply bool_decide_false. lia.
Qed.

Definition free_slot (b : scoreboard) (x : Z) : bool := totally_free b (Z.to_nat x).

(** What the scan has found when it is at slot [n]. *)
Record scan_inv (s : mpm) (n : nat) (a : scan) : Prop := ScanInv {
  si_idle : idle_thread_count a = total (idle_in (sb s)) n;
  si_active : active_thread_count a = total (active_in (sb s)) n;
  si_len : Z.of_nat (length (free_slots a)) = MAX_SPAWN_RATE;
  si_tf : 0 <= totally_free_length a <= free_length a;
  si_fl : free_length a <= MAX_SPAWN_RATE;
  si_rate : totally_free_length a <= idle_spawn_rate s;
  si_nodup : NoDup (slots_of a);
  si_cand : forall x, x ∈ slots_of a -> 0 <= x < Z.of_nat n /\ candidate (sb s) (Z.to_nat x) = true;
  si_sorted : sorted_slots (free_slot (sb s)) (totally_free_length a) (slots_of a);
  si_le : free_length a <= candidates (sb s) n;
  si_all : free_length a < MAX_SPAWN_RATE -> totally_free_length a < idle_spawn_rate s ->
    free_length a = candidates (sb s) n;
  si_last : -1 <= last_non_dead a < Z.of_nat n
}.

Lemma length_slots_of a :
  0 <= free_length a <= Z.of_nat (length (free_slots a)) -> Z.of_nat (length (slots_of a)) = free_length a.
Proof. intros. unfold slots_of. rewrite length_take. lia. Qed.

Lemma scan_slot_ok s n a :
  mpm_ok s -> Z.of_nat n < zevent_daemons_limit c -> scan_inv s n a ->
  match scan_slot s n a with
  | Some (inl a') => scan_inv s (S n) a'
  | Some (inr a') => a' = a /\ zevent_max_daemons_limit s <= Z.of_nat n /\
      totally_free_length a = idle_spawn_rate s
  | None => False
  end.
Proof.
  intros Hs Hn Ha. unfold scan_slot.
  destruct ((zevent_max_daemons_limit s <=? Z.of_nat n) && (totally_free_length a =? idle_spawn_rate s)) eqn:E;
    [split_and!; [done|lia..]|]. clear E.
  assert (Z.of_nat n < server_limit c) as Hn' by (destruct Hc; lia).
  destruct (get_parent_ok c (sb s) (ok_sb _ Hs) (Z.of_nat n) ltac:(lia)) as (ps & E1 & E2).
  rewrite Nat2Z.id in E2. rewrite E1. cbn [mbind option_bind].
  rewrite (scan_threads_ok _ _ _ _ _ (ok_sb _ Hs) E2 Hn'). cbn [mbind option_bind].
  cbn [any_dying_threads any_dead_threads all_dead_threads idle active free_length totally_free_length].
  set (a1 := Scan _ _ _ _ _ _ _).
  set (dying := existsb (fun st => st =? SERVER_GRACEFUL) (slot_statuses (sb s) n)). clearbody dying.
  set (cand := candidate (sb s) n).
  assert (existsb (fun st => st =? SERVER_DEAD) (slot_statuses (sb s) n) && ((pid ps =? 0) || negb (quiescing ps =? 0)) = cand)
    as Hcand by (unfold cand, candidate; by rewrite E2).
  assert (candidates (sb s) (S n) = candidates (sb s) n + one cand) as HS by done.
  destruct Ha as [I1 I2 I3 I4 I5 I6 I7 I8 I9 I10 I11 I12].
  assert (slots_of a1 = slots_of a) as Hsl by done.
  match goal with |- context [mbind _ (if ?g then _ else _)] => destruct g eqn:G end.
  - assert (totally_free_length a < idle_spawn_rate s /\ free_length a < MAX_SPAWN_RATE /\ cand = true)
      as (G1 & G2 & G3).
    { rewrite <- Hcand. destruct (existsb _ _), (_ || _); simpl in *; try lia; split_and!; try lia; done. }
    destruct (add_slot_ok (free_slot (sb s)) (Z.of_nat n) a1) as (a2 & E3 & Hf & Hlen & Hperm & Hso);
      [cbn; lia..|done|].
    assert (free_slot (sb s) (Z.of_nat n) = totally_free (sb s) n) as Hfr
      by (unfold free_slot; by rewrite Nat2Z.id).
    rewrite Hfr in E3. rewrite E3. cbn [mbind option_bind]. rewrite G3 in HS. cbn [one] in HS.
    clear E3. simplify_eq Hf. clear Hf. intros F1 F2 F3 F4 F5 F6. cbn in F1, F2, F3, F4, F5, F6.
    assert (0 <= one (free_slot (sb s) (Z.of_nat n)) <= 1) as Hone by (destruct free_slot; cbn; lia).
    match goal with |- scan_inv _ _ ?a' =>
      assert (slots_of a' = slots_of a2 /\ idle_thread_count a' = idle_thread_count a2 /\
        active_thread_count a' = active_thread_count a2 /\ free_slots a' = free_slots a2 /\
        free_length a' = free_length a2 /\ totally_free_length a' = totally_free_length a2 /\
        (last_non_dead a' = last_non_dead a2 \/ last_non_dead a' = Z.of_nat n))
        as (K1 & K2 & K3 & K4 & K5 & K6 & K7) by (destruct dying; split_and!; first [done|by left|by right]);
      generalize dependent a' end.
    intros a' K1 K2 K3 K4 K5 K6 K7.
    split; rewrite ?K1, ?K2, ?K3, ?K4, ?K5, ?K6; try lia; try done.
    + rewrite F1, I1. done.
    + rewrite F2, I2. done.
    + rewrite Hlen. done.
    + rewrite Hperm. apply NoDup_cons. split; [|done]. intros Hin. rewrite Hsl in Hin.
      destruct (I8 _ Hin). lia.
    + intros x Hx. rewrite Hperm, Hsl in Hx. apply elem_of_cons in Hx as [->|Hx].
      * rewrite Nat2Z.id. split; [lia|done].
      * destruct (I8 _ Hx). split; [lia|done].
  - cbn [mbind option_bind].
    assert (free_length a < MAX_SPAWN_RATE -> totally_free_length a < idle_spawn_rate s -> cand = false) as Hno.
    { intros ? ?. rewrite <- Hcand. destruct (existsb _ _), (_ || _); try done. lia. }
    assert (0 <= one cand) as Hone by (destruct cand; cbn; lia).
    match goal with |- scan_inv _ _ ?a' =>
      assert (slots_of a' = slots_of a /\ idle_thread_count a' = idle_thread_count a1 /\
        active_thread_count a' = active_thread_count a1 /\ free_slots a' = free_slots a /\
        free_length a' = free_length a /\ totally_free_length a' = totally_free_length a /\
        (last_non_dead a' = last_non_dead a \/ last_non_dead a' = Z.of_nat n))
        as (K1 & K2 & K3 & K4 & K5 & K6 & K7) by (destruct dying; split_and!; first [done|by left|by right]);
      generalize dependent a' end.
    intros a' K1 K2 K3 K4 K5 K6 K7.
    split; rewrite ?K1, ?K2, ?K3, ?K4, ?K5, ?K6; try lia; try done.
    + cbn. rewrite I1. done.
    + cbn. rewrite I2. done.
    + intros x Hx. destruct (I8 _ Hx). split; [lia|done].
    + intros H1 H2. rewrite HS, (I11 H1 H2), (Hno H1 H2). cbn. lia.
Qed.

Lemma scan_slots_ok garbage s :
  mpm_ok s -> length garbage = Z.to_nat MAX_SPAWN_RATE ->
  exists a n, scan_slots garbage s = Some a /\ scan_inv s n a /\
    Z.of_nat n <= zevent_daemons_limit c /\
    (Z.of_nat n = zevent_daemons_limit c \/
     (zevent_max_daemons_limit s <= Z.of_nat n /\ totally_free_length a = idle_spawn_rate s)).
Proof.
  intros Hs Hg. unfold scan_slots.
  destruct (cfor_total (fun n a => scan_inv s n a)
    (fun a => exists n, scan_inv s n a /\ Z.of_nat n <= zevent_daemons_limit c /\
      (Z.of_nat n = zevent_daemons_limit c \/
       (zevent_max_daemons_limit s <= Z.of_nat n /\ totally_free_length a = idle_spawn_rate s)))
    (scan_slot s) (Z.to_nat (zevent_daemons_limit c)) 0%nat (Scan 0 0 garbage 0 0 (-1) 0))
    as (a & E & n & H1 & H2 & H3).
  - intros n a Hn Ha. pose proof (scan_slot_ok s n a Hs ltac:(lia) Ha) as H.
    destruct (scan_slot s n a) as [[a'|a']|]; [done| |done]. destruct H as (-> & ? & ?).
    exists n. split_and!; [done|lia|by right].
  - intros a Ha. destruct Hc. eexists. split; [done|]. lia.
  - assert (0 < idle_spawn_rate s) by (pose proof (ok_rate _ Hs); set_solver by lia).
    split; cbn; try done; try lia; [unfold MAX_SPAWN_RATE in *; lia|constructor|].
    intros x Hx%elem_of_nil. done.
  - eauto 10.
Qed.

(** The slots that are used: as many as the rate allows, or all there are. *)
Lemma chosen_slots s n a :
  mpm_ok s -> scan_inv s n a -> Z.of_nat n <= zevent_daemons_limit c ->
  (Z.of_nat n = zevent_daemons_limit c \/ totally_free_length a = idle_spawn_rate s) ->
  let k := Z.min (idle_spawn_rate s) (free_length a) in
  let slots := take (Z.to_nat k) (free_slots a) in
  k = Z.min (idle_spawn_rate s) (candidates (sb s) (Z.to_nat (zevent_daemons_limit c))) /\
  Z.of_nat (length slots) = k /\ NoDup slots /\
  (forall x, x ∈ slots -> 0 <= x < zevent_daemons_limit c /\ candidate (sb s) (Z.to_nat x) = true) /\
  sorted_slots (free_slot (sb s)) (totally_free_length a) slots.
Proof.
  intros Hs [I1 I2 I3 I4 I5 I6 I7 I8 I9 I10 I11 I12] Hn Hend k slots.
  assert (0 < idle_spawn_rate s <= MAX_SPAWN_RATE) as Hr
    by (unfold MAX_SPAWN_RATE; pose proof (ok_rate _ Hs); set_solver by lia).
  pose proof (candidates_mono (sb s) n (Z.to_nat (zevent_daemons_limit c)) ltac:(lia)) as Hmono.
  assert (slots = take (Z.to_nat k) (slots_of a)) as Hsl.
  { unfold slots, slots_of. rewrite take_take. f_equal. lia. }
  assert (Z.of_nat n = zevent_daemons_limit c -> n = Z.to_nat (zevent_daemons_limit c)) as Hnn by lia.
  split_and!.
  - unfold k. destruct Hend as [He|He]; [|lia]. rewrite <- (Hnn He) in *.
    destruct (decide (free_length a < MAX_SPAWN_RATE)); [|lia].
    destruct (decide (totally_free_length a < idle_spawn_rate s)); [|lia].
    rewrite <- I11 by done. lia.
  - unfold slots. rewrite length_take. lia.
  - rewrite Hsl. eapply sublist_NoDup; [done|apply sublist_take].
  - intros x Hx. rewrite Hsl in Hx. destruct (I8 x) as [H1 H2]; [apply elem_of_take in Hx as (i & Hi & _); by eapply list_elem_of_lookup_2|].
    split; [lia|done].
  - intros j x Hj. rewrite Hsl in Hj. apply I9. apply lookup_take_Some in Hj. tauto.
Qed.

(** ** The turns *)

Lemma set_max_ok s m :
  mpm_ok s -> -1 <= m <= zevent_daemons_limit c -> mpm_ok (set_max m (set_sick false s)).
Proof. intros [? ? ? ? ?] ?. split; done. Qed.

Lemma set_rate_ok s r h : mpm_ok s -> r ∈ [1; 2; 4; 8; 16; 32] -> 0 <= h -> mpm_ok (set_rate r h s).
Proof. intros [? ? ? ? ?] ? ?. split; done. Qed.

Lemma rate_doubles r :
  r ∈ [1; 2; 4; 8; 16; 32] -> (if r <? MAX_SPAWN_RATE then r * 2 else r) = Z.min MAX_SPAWN_RATE (2 * r).
Proof. unfold MAX_SPAWN_RATE. set_unfold. intros Hr. destruct (r <? 32) eqn:E; lia. Qed.

Lemma mark_dead_ok slot b :
  sb_ok c b -> 0 <= slot < zevent_daemons_limit c ->
  exists b', mark_dead slot b = Some b' /\ sb_ok c b' /\
    pids b' = <[Z.to_nat slot := 0]> (pids b) /\
    (forall j, (j < Z.to_nat (zevent_threads_per_child c))%nat ->
       status_of b' (Z.to_nat slot) j = Some SERVER_DEAD).
Proof.
  intros Hb Hs. assert (0 <= slot < server_limit c) as Hsl by (destruct Hc; lia). unfold mark_dead.
  destruct (cfor_total (fun i b' => sb_ok c b' /\ pids b' = pids b /\
      forall j, (j < i)%nat -> status_of b' (Z.to_nat slot) j = Some SERVER_DEAD)
    (fun b' => sb_ok c b' /\ pids b' = pids b /\
      forall j, (j < Z.to_nat (zevent_threads_per_child c))%nat ->
        status_of b' (Z.to_nat slot) j = Some SERVER_DEAD)
    (fun i b => '(_, b) ← zevent_update_child_status_from_indexes c now b slot (Z.of_nat i) SERVER_DEAD;
                Some (inl b))
    (Z.to_nat (zevent_threads_per_child c)) 0%nat b) as (b' & E & Hb' & Hp & Hd); [|done|by split_and!; [|done|lia]|].
  - intros i b1 Hi (H1 & H2 & H3).
    destruct (update_status_ok c now b1 slot (Z.of_nat i) SERVER_DEAD H1 Hsl ltac:(destruct Hc; lia))
      as (old & b2 & E & K1 & _ & K2 & _).
    rewrite E. cbn [mbind option_bind]. split; [done|].
    split; [by rewrite (update_status_pids _ _ _ _ _ _ _ _ E)|].
    intros j Hj. rewrite K2, Nat2Z.id. case_decide as Hd; [done|]. apply H3.
    assert (j <> i) by congruence. lia.
  - rewrite E. cbn [mbind option_bind].
    destruct (get_parent_ok c b' Hb' slot Hsl) as (ps & E1 & _). rewrite E1. cbn [mbind option_bind].
    rewrite (set_parent_ok c b' Hb') by done. eexists. split; [done|].
    split; [by apply set_parent_sb_ok|]. split; [|done].
    unfold pids. cbn [parent]. rewrite list_fmap_insert. fold (pids b'). by rewrite Hp.
Qed.

(** A child that is reaped leaves the table. *)
Lemma reap_lost_ok s p :
  mpm_ok s -> (forall j, (j < Z.to_nat (zevent_daemons_limit c))%nat -> pids (sb s) !! j <> Some p) ->
  mpm_ok (reap p s).
Proof.
  intros [? ? ? ? Ht] Hno. split; try done. apply table_ok_lost; [done|]. intros i Hi.
  destruct (decide (p = 0)); [done|]. destruct (ok_alive _ _ Ht i p Hi) as (_ & _ & Hlt); [done|].
  destruct (Hno i); [lia|done].
Qed.

Lemma reap_found_ok s p k b h :
  mpm_ok s -> pids (sb s) !! k = Some p -> sb_ok c b -> pids b = <[k := 0]> (pids (sb s)) ->
  mpm_ok (set_sb b (set_sick h (reap p s))).
Proof.
  intros [? ? ? ? Ht] Hk Hb Hp. split; try done. cbn [sb set_sb children set_sick reap set_kernel].
  rewrite Hp. by apply table_ok_free.
Qed.

Lemma maintenance_sick garbage s a :
  scan_slots garbage s = Some a -> sick_child_detected s && negb (active_thread_count a >? 0) = true ->
  perform_idle_server_maintenance garbage s = Some (set_flags true (restart_pending s) true s).
Proof. intros E H. unfold perform_idle_server_maintenance. rewrite E. cbn [mbind option_bind]. by rewrite H. Qed.

(** The outcome when the server is not given up. *)
Definition maintained (idle : Z) (s s' : mpm) : Prop :=
  let cands := candidates (sb s) (Z.to_nat (zevent_daemons_limit c)) in
  mpm_ok s' /\ sick_child_detected s' = false /\
  (shutdown_pending s', restart_pending s', child_fatal s') = (shutdown_pending s, restart_pending s, child_fatal s) /\
  exists slots,
    NoDup slots /\
    (forall x, x ∈ slots -> 0 <= x < zevent_daemons_limit c /\ candidate (sb s) (Z.to_nat x) = true) /\
    (exists t, sorted_slots (free_slot (sb s)) t slots) /\
    (children s', pids (sb s')) = fork_into slots (nforks s) (children s) (pids (sb s)) /\
    (pod s', idle_spawn_rate s', Z.of_nat (length slots)) =
      if max_spare_threads c <? idle then (pod s ++ [GRACEFUL_CHAR], 1, 0)
      else if min_spare_threads c <=? idle then (pod s, 1, 0)
      else (pod s,
            if cands =? 0 then 1
            else if hold_off s =? 0 then Z.min MAX_SPAWN_RATE (2 * idle_spawn_rate s) else idle_spawn_rate s,
            Z.min (idle_spawn_rate s) cands).

Lemma maintenance_runs garbage s a n :
  mpm_ok s -> scan_slots garbage s = Some a -> scan_inv s n a -> Z.of_nat n <= zevent_daemons_limit c ->
  (Z.of_nat n = zevent_daemons_limit c \/ totally_free_length a = idle_spawn_rate s) ->
  sick_child_detected s && negb (active_thread_count a >? 0) = false ->
  exists s', perform_idle_server_maintenance garbage s = Some s' /\ maintained (idle_thread_count a) s s'.
Proof.
  intros Hs E Ha Hn Hend Hsick. unfold perform_idle_server_maintenance. rewrite E. cbn [mbind option_bind].
  rewrite Hsick. clear E Hsick.
  destruct (chosen_slots s n a Hs Ha Hn Hend) as (Hk & Hlen & Hnd & Hcand & Hsort).
  pose proof (ok_rate _ Hs) as Hr. pose proof (ok_hold _ Hs) as Hh.
  assert (0 < idle_spawn_rate s) as Hr0 by set_solver by lia.
  assert (mpm_ok (set_max (last_non_dead a + 1) (set_sick false s))) as Hs1
    by (apply set_max_ok; [done|]; pose proof (si_last _ _ _ Ha); lia).
  set (s1 := set_max _ _) in *.
  assert (1 ∈ [1; 2; 4; 8; 16; 32]) as H1 by set_solver.
  assert (forall s2, mpm_ok s2 -> mpm_ok (set_rate 1 (hold_off s2) s2)) as Hone.
  { intros s2 H2. apply set_rate_ok; [done..|]. apply (ok_hold _ H2). }
  rewrite !Z.gtb_ltb. cbn [max_spare_threads].
  unfold maintained. destruct (max_spare_threads c <? idle_thread_count a) eqn:E1.
  { eexists. split; [done|]. split_and!; [|done..|].
    - apply (Hone (zevent_pod_signal true s1)). destruct Hs1. by split.
    - exists []. split_and!; [constructor|by intros ? ?%elem_of_nil|exists 0; by intros ? ?|done|done]. }
  rewrite (Z.leb_antisym (idle_thread_count a)).
  destruct (idle_thread_count a <? min_spare_threads c) eqn:E2; cbn [negb].
  2:{ eexists. split; [done|]. split_and!; [by apply Hone|done..|].
      exists []. split_and!; [constructor|by intros ? ?%elem_of_nil|exists 0; by intros ? ?|done|done]. }
  destruct (Z.eqb_spec (free_length a) 0) as [Hf|Hf].
  { eexists. split; [done|]. split_and!; [by apply Hone|done..|].
    exists []. split_and!; [constructor|by intros ? ?%elem_of_nil|exists 0; by intros ? ?|done|].
    rewrite <- Hk, Hf, (proj2 (Z.eqb_eq (candidates _ _) 0)); [cbn; f_equal; lia|].
    pose proof (candidates_mono (sb s) n (Z.to_nat (zevent_daemons_limit c)) ltac:(lia)). lia. }
  pose proof (si_tf _ _ _ Ha) as Htf. pose proof (si_len _ _ _ Ha) as Hfl. pose proof (si_fl _ _ _ Ha) as Hfl'.
  cbn [idle_spawn_rate s1 set_max set_sick].
  set (k := if idle_spawn_rate s <? free_length a then idle_spawn_rate s else free_length a).
  assert (k = Z.min (idle_spawn_rate s) (free_length a)) as Hk' 
    by (unfold k; destruct (Z.ltb_spec (idle_spawn_rate s) (free_length a)); lia).
  rewrite <- Hk' in *. clearbody k.
  destruct (spawn_ok (free_slots a) k s1 Hs1) as (s2 & Es & Hok & Henv & Hnf & Hres);
    [lia|intros x Hx; by apply Hcand|].
  change (idle_spawn_rate s1) with (idle_spawn_rate s) in *. 
  rewrite Es. cbn [mbind option_bind].
  assert (idle_spawn_rate s2 = idle_spawn_rate s /\ hold_off s2 = hold_off s /\ sick_child_detected s2 = false /\
    (shutdown_pending s2, restart_pending s2, child_fatal s2) = (shutdown_pending s, restart_pending s, child_fatal s) /\
    pod s2 = pod s) as (F1 & F2 & F3 & F4 & F5) 
    by (change (env s1) with (idle_spawn_rate s, hold_off s, false,
          (shutdown_pending s, restart_pending s, child_fatal s), pod s) in Henv;
        unfold env in Henv; injection Henv as ? ? ? ? ? ? ?; split_and!; congruence).
  set (s3 := if negb (hold_off s2 =? 0) then _ else _).
  assert (exists s', s3 = Some s' /\ mpm_ok s' /\ sick_child_detected s' = sick_child_detected s2 /\
    (shutdown_pending s', restart_pending s', child_fatal s') = (shutdown_pending s2, restart_pending s2, child_fatal s2) /\
    children s' = children s2 /\ sb s' = sb s2 /\ pod s' = pod s2 /\
    idle_spawn_rate s' = (if hold_off s =? 0 then Z.min MAX_SPAWN_RATE (2 * idle_spawn_rate s) else idle_spawn_rate s))
    as (s' & E3 & G1 & G2 & G3 & G4 & G5 & G6 & G7).
  { unfold s3. rewrite F2. destruct (Z.eqb_spec (hold_off s) 0) as [Hz|Hz]; cbn [negb].
    - rewrite <- (rate_doubles _ Hr), F1. destruct (idle_spawn_rate s <? MAX_SPAWN_RATE) eqn:E4.
      + eexists. split; [done|]. split_and!; try done. apply set_rate_ok; [done| |lia].
        unfold MAX_SPAWN_RATE in E4. clear -Hr E4. set_unfold. lia.
      + eexists. split; [done|]. split_and!; done.
    - eexists. split; [done|]. split_and!; try done. apply set_rate_ok; [done| |lia]. by rewrite F1. }
  exists s'. split; [done|]. rewrite G2, G3, G4, G5, G6, G7, F3, F4, F5. split_and!; [done..|].
  exists (take (Z.to_nat k) (free_slots a)). split_and!; [done..|by eexists|done|].
  rewrite Hlen, (proj2 (Z.eqb_neq (candidates _ _) 0)); [by rewrite <- Hk|]. lia.
Qed.

Lemma perform_ok garbage s :
  mpm_ok s -> length garbage = Z.to_nat MAX_SPAWN_RATE ->
  exists s', perform_idle_server_maintenance garbage s = Some s' /\ mpm_ok s'.
Proof.
  intros Hs Hg. destruct (scan_slots_ok garbage s Hs Hg) as (a & n & E & Ha & Hn & Hend).
  destruct (sick_child_detected s && negb (active_thread_count a >? 0)) eqn:Hsick.
  - rewrite (maintenance_sick _ _ _ E Hsick). eexists. split; [done|]. by destruct Hs.
  - destruct (maintenance_runs garbage s a n Hs E Ha Hn ltac:(tauto) Hsick) as (s' & -> & Hm & _). eauto.
Qed.

(** What a turn does with the slot of a dead child that was not fatal. *)
Definition slot_freed (k : nat) (sick : bool) (remaining remaining' : Z) (s s' : mpm) : Prop :=
  let freed := <[k := 0]> (pids (sb s)) in
  let alive := filter (fun q => Some q <> pids (sb s) !! k) (children s) in
  sick_child_detected s' = sick_child_detected s || sick /\
  if sick || (remaining =? 0) then
    pids (sb s') = freed /\ children s' = alive /\ remaining' = remaining /\
    idle_spawn_rate s' = (if sick then 1 else idle_spawn_rate s) /\
    forall j, (j < Z.to_nat (zevent_threads_per_child c))%nat -> status_of (sb s') k j = Some SERVER_DEAD
  else
    (children s', pids (sb s')) = fork_into [Z.of_nat k] (nforks s) alive freed /\
    remaining' = remaining - 1 /\ idle_spawn_rate s' = idle_spawn_rate s.

Lemma turn_death_found garbage remaining s p exited st k :
  mpm_ok s -> pids (sb s) !! k = Some p -> p <> 0 ->
  zevent_process_child_status exited st <> ZEVENTEXIT_CHILDFATAL ->
  exists remaining' s', server_main_turn garbage (WaitDone p exited st) remaining s = Some (Some remaining', s') /\
    mpm_ok s' /\
    slot_freed k (zevent_process_child_status exited st =? ZEVENTEXIT_CHILDSICK) remaining remaining' s s'.
Proof.
  intros Hs Hk Hp Hst. unfold server_main_turn, slot_freed. cbn [zevent_wait_or_timeout].
  rewrite (proj2 (Z.eqb_neq _ _) Hst). rewrite Hk.
  assert (filter (fun q => Some q <> Some p) (children s) = filter (fun q => q <> p) (children s)) as ->
    by (apply list_filter_iff; naive_solver).
  set (sick := zevent_process_child_status exited st =? ZEVENTEXIT_CHILDSICK). clearbody sick. clear Hst.
  set (s1 := if sick then _ else _).
  assert (s1 = set_sick (sick_child_detected s || sick) (reap p s)) as ->
    by (unfold s1; destruct sick, s as [? ? ? ? [] ? ? ? ? ? ?]; done).
  cbn [sb set_sick reap set_kernel].
  destruct (find_child_ok c (sb s) p Hc (ok_sb _ Hs)) as [(k' & Hk' & E & Hp')|[_ Hno]].
  2:{ destruct (Hno k); [|done]. destruct (ok_alive _ _ (ok_table _ Hs) k p Hk Hp). lia. }
  assert (k = Z.to_nat k') as -> by (by eapply (ok_distinct _ _ (ok_table _ Hs))).
  rewrite E. cbn [mbind option_bind]. rewrite Z.geb_leb, (proj2 (Z.leb_le 0 k')) by lia.
  destruct (mark_dead_ok k' (sb s) (ok_sb _ Hs) Hk') as (b & Eb & Hb & Hpb & Hdead). rewrite Eb.
  cbn [mbind option_bind].
  pose proof (reap_found_ok s p (Z.to_nat k') b (sick_child_detected s || sick) Hs Hk Hb Hpb) as H1.
  set (s2 := set_sb b _) in *.
  destruct sick; cbn [orb].
  - eexists _, _. split; [done|]. split; [apply set_rate_ok; [done|set_solver|apply (ok_hold _ Hs)]|].
    split_and!; done.
  - destruct (Z.eqb_spec remaining 0) as [->|Hr]; cbn [negb andb].
    + eexists _, _. split; [done|]. split; [done|]. split_and!; done.
    + rewrite (proj2 (Z.ltb_lt k' _)) by lia.
      destruct (make_child_ok k' s2 H1 Hk') as (r & s3 & E3 & H3 & Henv & _ & _ & Hf).
      rewrite E3. cbn [mbind option_bind]. eexists _, _. split; [done|]. split; [done|].
      rewrite Z2Nat.id by lia. rewrite Hf. unfold env in Henv. injection Henv as F1 F2 F3 F4 F5 F6 F7.
      split_and!; [congruence| |done|congruence]. cbn [sb set_sb s2]. by rewrite Hpb.
Qed.

Lemma turn_ok garbage rv remaining s :
  mpm_ok s -> length garbage = Z.to_nat MAX_SPAWN_RATE -> waits_for s rv ->
  exists r s', server_main_turn garbage rv remaining s = Some (r, s') /\ (r <> None -> mpm_ok s').
Proof.
  intros Hs Hg Hrv.
  assert (exists r s', (if negb (remaining =? 0) then
        s ← startup_children remaining s; Some (Some 0, s)
      else s ← perform_idle_server_maintenance garbage s; Some (Some remaining, s)) = Some (r, s') /\
      (r <> None -> mpm_ok s')) as Hidle.
  { destruct (negb (remaining =? 0)).
    - destruct (startup_children_ok remaining s Hs) as (s' & slots & -> & [H1 _] & _). eauto.
    - destruct (perform_ok garbage s Hs Hg) as (s' & -> & H1). eauto. }
  destruct rv as [|p exited st|]; [exact Hidle| |exact Hidle]. clear Hidle.
  destruct (decide (zevent_process_child_status exited st = ZEVENTEXIT_CHILDFATAL)) as [E|E].
  - unfold server_main_turn. cbn [zevent_wait_or_timeout]. rewrite E. cbn. eexists _, _. by split.
  - destruct (find_child_ok c (sb s) p Hc (ok_sb _ Hs)) as [(k & Hk & E1 & Hp)|[E1 Hno]].
    + destruct (turn_death_found garbage remaining s p exited st _ Hs Hp ltac:(cbn in Hrv; lia) E)
        as (r & s' & -> & H1 & _). eauto.
    + unfold server_main_turn. cbn [zevent_wait_or_timeout]. rewrite (proj2 (Z.eqb_neq _ _) E).
      pose proof (reap_lost_ok s p Hs Hno) as H1.
      set (s1 := if _ =? _ then _ else _).
      assert (mpm_ok s1 /\ sb s1 = sb s) as [H2 H3]
        by (unfold s1; destruct (_ =? _); split; try done; by destruct H1).
      rewrite H3, E1. cbn. eauto.
Qed.

Lemma initial_ok kids : mpm_ok (initial (zevent_create_scoreboard c) kids).
Proof.
  pose proof (create_scoreboard_ok c) as Hsb.
  assert (forall i p, pids (zevent_create_scoreboard c) !! i = Some p -> p = 0) as Hz.
  { intros i p Hp. unfold pids, zevent_create_scoreboard in Hp. cbn in Hp.
    rewrite fmap_replicate in Hp. by apply lookup_replicate in Hp as [-> _]. }
  split; cbn -[pids zevent_create_scoreboard]; [done|set_solver|lia|destruct Hc; lia|].
  split; intros; exfalso; eauto.
Qed.

Lemma run_start_ok is_graceful s :
  mpm_ok s -> exists remaining s', zevent_run_start is_graceful s = Some (remaining, s') /\ mpm_ok s'.
Proof.
  intros Hs. unfold zevent_run_start. destruct is_graceful; cbn [negb].
  - cbn [mbind option_bind]. eexists _, _. split; [done|]. destruct Hs. by split.
  - match goal with |- context [startup_children ?n s] =>
      destruct (startup_children_ok n s Hs) as (s' & slots & -> & [H1 _] & _) end.
    cbn [mbind option_bind]. eexists _, _. split; [done|]. destruct H1. by split.
Qed.

Lemma step_ok r s r' s' : mpm_ok s -> step (r, s) (r', s') -> mpm_ok s'.
Proof.
  intros Hs H. inversion H; subst.
  - destruct (turn_ok garbage rv r s) as (x & y & E & Hy); [done..|].
    assert (Some (x, y) = Some (Some r', s')) as [= -> ->] by congruence. by apply Hy.
  - destruct (update_status_ok c now (sb s) i j st (ok_sb _ Hs)) as (old' & b' & E & Hb & _); [done..|].
    match goal with E' : _ = Some (_, b) |- _ => rewrite E in E'; injection E' as -> ->;
      pose proof (update_status_pids _ _ _ _ _ _ _ _ E) as Hp end.
    destruct Hs. split; try done. cbn -[pids]. by rewrite Hp.
  - match goal with E1 : get_parent _ _ = _, E2 : set_parent _ _ _ = _ |- _ => revert E1 E2 end.
    unfold set_parent, get_parent, zread, zwrite, aread. destruct (i <? 0); [done|]. intros E1 E2.
    inv_bind E2. apply awrite_Some in E as [-> Hlt]. injection E2 as <-.
    assert (pids (Scoreboard (<[Z.to_nat i := ProcessScore (pid ps) (generation ps) 1]> (parent (sb s)))
      (servers (sb s))) = pids (sb s)) as Hp.
    { unfold pids. cbn [parent]. rewrite list_fmap_insert. apply list_insert_id.
      by rewrite list_lookup_fmap, E1. }
    destruct Hs. split; try done; cbn -[pids]; [by apply set_parent_sb_ok|by rewrite Hp].
  - destruct Hs. by split.
Qed.

(** The states the main loop is in, from the start of the server on. *)
Definition reachable (is_graceful : bool) (kids : list Z) (x : Z * mpm) : Prop :=
  exists x0, zevent_run_start is_graceful (initial (zevent_create_scoreboard c) kids) = Some x0 /\
    rtc step x0 x.

End Mpm.

(** ** Theorems *)

Section Theorems.
Context (c : conf) (fork : nat -> list Z -> Z) (now : Z).

(** C28: With a configuration that fits the limits ([conf_ok]: not more daemons than the
    server limit, and between one thread and the thread limit for each child), and a
    [fork] that fails or returns the pid of a new process: in every state the main loop
    reaches, whatever the children write and whichever signals and deaths arrive, the
    table keeps its shape, each nonzero pid in it is one living child in one slot, the
    spawn rate is a power of two up to 32, and the next turn runs without an access
    outside the table, the rows or the 32 free slots. The code does not check the number
    of threads against the limit; beyond it the scan leaves the row of its child
    ([threads_beyond_the_limit]). *)
Theorem mpm_invariant (is_graceful : bool) (kids : list Z) (remaining : Z) (s : mpm)
    (Hc : conf_ok c)
    (Hfork : forall n l, fork n l = -1 \/ (0 < fork n l /\ fork n l ∉ l))
    (Hreach : reachable c fork now is_graceful kids (remaining, s)) :
  mpm_ok c s /\
  forall garbage rv, length garbage = Z.to_nat MAX_SPAWN_RATE -> waits_for s rv ->
    is_Some (server_main_turn c fork now garbage rv remaining s).
Proof.
  assert (mpm_ok c s) as Hs.
  { destruct Hreach as ([r0 s0] & E & Hsteps).
    destruct (run_start_ok c fork now Hc Hfork is_graceful (initial (zevent_create_scoreboard c) kids))
      as (r1 & s1 & E1 & H1); [by apply (initial_ok c fork)|].
    rewrite E in E1. injection E1 as -> ->.
    remember (r1, s1) as x eqn:Hx. remember (remaining, s) as y eqn:Hy. clear E.
    revert r1 s1 Hx H1. induction Hsteps as [x|x [r2 s2] y Hst _ IH]; intros r1 s1 -> H1; [by simplify_eq|].
    eapply IH; [done..|]. by eapply step_ok. }
  split; [done|]. intros garbage rv Hg Hrv.
  destruct (turn_ok c fork now Hc Hfork garbage rv remaining s Hs Hg Hrv) as (r & s' & -> & _). eauto.
Qed.

(** The maintenance counts the idle and active threads of the scanned slots,
    which include all that are in use.  A sick child and no active thread end the
    server; otherwise one child is told to go when there are too many idle
    threads, and when there are too few exactly min(rate, free slots) forks are
    tried into distinct free slots, wholly free ones first, and the rate doubles
    up to 32 unless it is held off. *)
Theorem idle_maintenance_correct (garbage : list Z) (s : mpm)
    (Hc : conf_ok c)
    (Hfork : forall n l, fork n l = -1 \/ (0 < fork n l /\ fork n l ∉ l))
    (Hs : mpm_ok c s) (Hg : length garbage = Z.to_nat MAX_SPAWN_RATE) :
  exists n, Z.min (zevent_max_daemons_limit s) (zevent_daemons_limit c) <= Z.of_nat n <= zevent_daemons_limit c /\
    if sick_child_detected s && negb (0 <? total (active_in c (sb s)) n)
    then perform_idle_server_maintenance c fork now garbage s = Some (set_flags true (restart_pending s) true s)
    else exists s', perform_idle_server_maintenance c fork now garbage s = Some s' /\
      maintained c fork (total (idle_in c (sb s)) n) s s'.
Proof.
  destruct (scan_slots_ok c fork Hc Hfork garbage s Hs Hg) as (a & n & E & Ha & Hn & Hend).
  exists n. split; [lia|]. rewrite <- (si_active _ _ _ _ Ha), <- (si_idle _ _ _ _ Ha), <- Z.gtb_ltb.
  destruct (sick_child_detected s && negb (active_thread_count a >? 0)) eqn:Hsick.
  - by eapply maintenance_sick.
  - apply (maintenance_runs c fork now Hc Hfork garbage s a n Hs E Ha Hn); [tauto|done].
Qed.

(** A child of the table that dies without a fatal error gives its slot back:
    all its threads are marked dead and its pid is cleared; a resource shortage
    sets the rate to 1; and if children of a restart are still to be started, one
    is forked into the same slot. *)
Theorem dead_child_frees_slot (garbage : list Z) (remaining : Z) (s : mpm) (p : Z) (exited : bool) (st : Z) (k : nat)
    (Hc : conf_ok c)
    (Hfork : forall n l, fork n l = -1 \/ (0 < fork n l /\ fork n l ∉ l))
    (Hs : mpm_ok c s) (Hk : pids (sb s) !! k = Some p) (Hp : p <> 0)
    (Hst : zevent_process_child_status exited st <> ZEVENTEXIT_CHILDFATAL) :
  exists remaining' s', server_main_turn c fork now garbage (WaitDone p exited st) remaining s = Some (Some remaining', s') /\
    mpm_ok c s' /\
    slot_freed c fork k (zevent_process_child_status exited st =? ZEVENTEXIT_CHILDSICK) remaining remaining' s s'.
Proof. by apply turn_death_found. Qed.
End Theorems.

(** ** A concrete server: three slots of two threads, and a kernel that hands out
    the next pid. *)
Module Ex.
Definition c : conf := Conf 3 2 3 2 2 5 1 0 false.
Definition fork (n : nat) (kids : list Z) : Z := foldr Z.max 99 kids + 1.
Definition garbage : list Z := replicate 32 7.

Lemma fork_ok n l : fork n l = -1 \/ (0 < fork n l /\ fork n l ∉ l).
Proof.
  right. unfold fork.
  assert (0 <= foldr Z.max 99 l /\ forall x, x ∈ l -> x <= foldr Z.max 99 l) as [H0 H].
  { induction l as [|y l [IH1 IH2]]; cbn; [split; [lia|by intros x Hx%elem_of_nil]|].
    split; [lia|]. intros x [->|Hx]%elem_of_cons; [lia|]. specialize (IH2 x Hx). lia. }
  split; [lia|]. intros Hin. specialize (H _ Hin). lia.
Defined.

Lemma c_ok : conf_ok c.
Proof. split; cbn; lia. Defined.

(** One child in slot 0, its two threads starting. *)
Definition s1 : mpm :=
  from_option snd (initial (Scoreboard [] []) [])
    (zevent_run_start c fork 0 false (initial (zevent_create_scoreboard c) [])).

Lemma s1_ok : mpm_ok c s1.
Proof.
  split; try (vm_compute; intuition congruence).
  - split; [done|done|]. intros row Hrow. vm_compute in Hrow. set_unfold. by intuition subst.
  - vm_compute. set_solver.
  - split.
    + intros i p Hi Hp. change (pids (sb s1)) with [100; 0; 0] in Hi. change (children s1) with [100].
      destruct i as [|[|[|]]]; simplify_eq/=; try done. split; [set_solver|]. cbn. lia.
    + intros i j p Hi Hj Hp. change (pids (sb s1)) with [100; 0; 0] in Hi, Hj.
      destruct i as [|[|[|]]], j as [|[|[|]]]; simplify_eq/=; done.
Defined.
End Ex.

(** A start, and a turn of maintenance after it. *)
Lemma mpm_invariant_witness :
  exists s, reachable Ex.c Ex.fork 0 false [] (0, s) /\ pids (sb s) = [100; 0; 0] /\ mpm_ok Ex.c s.
Proof.
  set (s2 := from_option (fun x => snd x) Ex.s1 (server_main_turn Ex.c Ex.fork 0 Ex.garbage WaitNone 0 Ex.s1)).
  assert (reachable Ex.c Ex.fork 0 false [] (0, s2)) as Hr.
  { exists (0, Ex.s1). split; [vm_compute; reflexivity|]. apply rtc_once.
    apply (step_turn _ _ _ Ex.garbage WaitNone); [done|vm_compute; reflexivity|done|vm_compute; reflexivity]. }
  exists s2. split; [exact Hr|]. split; [vm_compute; reflexivity|].
  apply (mpm_invariant Ex.c Ex.fork 0 false [] 0 s2 Ex.c_ok Ex.fork_ok Hr).
Defined.

Lemma idle_maintenance_correct_witness :
  exists s', perform_idle_server_maintenance Ex.c Ex.fork 0 Ex.garbage Ex.s1 = Some s' /\ mpm_ok Ex.c s'.
Proof.
  destruct (idle_maintenance_correct Ex.c Ex.fork 0 Ex.garbage Ex.s1 Ex.c_ok Ex.fork_ok Ex.s1_ok eq_refl)
    as (n & _ & H). change (sick_child_detected Ex.s1) with false in H.
  destruct H as (s' & E & Hok & _). exists s'. split; [exact E|exact Hok].
Defined.

Lemma dead_child_frees_slot_witness :
  exists r s', server_main_turn Ex.c Ex.fork 0 [] (WaitDone 100 true 7) 0 Ex.s1 = Some (Some r, s') /\ mpm_ok Ex.c s'.
Proof.
  destruct (dead_child_frees_slot Ex.c Ex.fork 0 [] 0 Ex.s1 100 true 7 0 Ex.c_ok Ex.fork_ok Ex.s1_ok)
    as (r & s' & E & H & _); [vm_compute; reflexivity|discriminate|vm_compute; discriminate|].
  exists r, s'. split; [exact E|exact H].
Defined.

(** With more threads per child than rows have room for, which nothing in
    [zevent_init] excludes, the scan leaves the row of its child. *)
Example threads_beyond_the_limit :
  let c := Conf 3 2 3 4 2 5 1 0 false in
  perform_idle_server_maintenance c Ex.fork 0 Ex.garbage (initial (zevent_create_scoreboard c) []) = None.
Proof. vm_compute. reflexivity. Qed.

(** A child that is going down and has a graceful thread does not count as alive:
    after the maintenance its slot lies beyond [zevent_max_daemons_limit], which
    bounds the loops that reclaim the children at shutdown. *)
Definition two_children : scoreboard :=
  let w st := WorkerScore 0 st 0 0 0 0 0 0 0 in
  Scoreboard [ProcessScore 100 0 0; ProcessScore 101 0 1]
    [[w SERVER_READY; w SERVER_READY]; [w SERVER_GRACEFUL; w SERVER_READY]].

Example quiescing_child_beyond_max :
  let c := Conf 2 2 2 2 1 9 2 0 false in
  let s := Mpm two_children 2 1 0 false false false false [] [101; 100] 2 in
  exists s', perform_idle_server_maintenance c Ex.fork 0 Ex.garbage s = Some s' /\
    zevent_max_daemons_limit s' = 1 /\ pids (sb s') = [100; 101] /\ 101 ∈ children s'.
Proof. eexists. split; [vm_compute; reflexivity|]. vm_compute. split_and!; [done|done|set_solver]. Qed.

(** The slot of a child that is going down may be given to a new one while the
    old one lives: its death is then not found in the table. *)
Example quiescing_child_forgotten :
  let c := Conf 2 2 2 2 9 12 2 0 false in
  let w st := WorkerScore 0 st 0 0 0 0 0 0 0 in
  let b := Scoreboard [ProcessScore 100 0 0; ProcessScore 101 0 1]
    [[w SERVER_READY; w SERVER_READY]; [w SERVER_DEAD; w SERVER_GRACEFUL]] in
  let s := Mpm b 2 1 0 false false false false [] [101; 100] 2 in
  exists s', perform_idle_server_maintenance c Ex.fork 0 Ex.garbage s = Some s' /\
    pids (sb s') = [100; 102] /\ 101 ∈ children s' /\ find_child_by_pid c (sb s') 101 = Some (-1).
Proof. eexists. split; [vm_compute; reflexivity|]. vm_compute. split_and!; [done|set_solver|done]. Qed.
