(* ===== verification/Reclaim.v ===== *)
(** Reclaiming the children at shutdown: [src/zevent_mpm.c], and the letters of the
    pipe of death of [src/pod.c].

    Whether a child has not ended when it is waited for ([APR_CHILD_NOTDONE]) and
    the clock are arguments; [kill] is recorded.  The extra processes are a list
    without sharing, so its walk with a saved [next] is a walk over the list as it
    was at the start. *)
From S2P Require Import Prelude Scoreboard.
Local Open Scope Z_scope.

Inductive action_t := DO_NOTHING | SEND_SIGTERM | SEND_SIGKILL | GIVEUP.
#[export] Instance action_eq_dec : EqDecision action_t.
Proof. solve_decision. Defined.

Definition SIGTERM : Z := 15.
Definition SIGKILL : Z := 9.
Definition seconds (n : Z) : Z := n * 1000000.

(** [signals] is what was sent, [nwaits] the number of waits. *)
Record procs := Procs {
  sb : scoreboard; extras : list Z; signals : list (Z * Z); nwaits : nat
}.

Definition zevent_register_extra_mpm_process (p : Z) (s : procs) : procs :=
  Procs (sb s) (p :: extras s) (signals s) (nwaits s).

(** Unlinking the first record of the pid. *)
Fixpoint unlink (p : Z) (l : list Z) : bool * list Z :=
  match l with
  | [] => (false, [])
  | q :: l => if q =? p then (true, l) else let '(b, l) := unlink p l in (b, q :: l)
  end.

Definition zevent_unregister_extra_mpm_process (p : Z) (s : procs) : Z * procs :=
  let '(found, l) := unlink p (extras s) in
  (if found then 1 else 0, Procs (sb s) l (signals s) (nwaits s)).

Definition action_table : list (action_t * Z) :=
  [(DO_NOTHING, 0); (SEND_SIGTERM, seconds 3); (SEND_SIGTERM, seconds 5);
   (SEND_SIGTERM, seconds 7); (SEND_SIGKILL, seconds 9); (GIVEUP, seconds 10)].

Section Reclaim.
Context (notdone : nat -> Z -> bool) (apr_time_now : nat -> Z).

Definition reclaim_one_pid (p : Z) (action : action_t) (s : procs) : bool * procs :=
  if p <? 1 then (true, s)
  else
    let waited l := Procs (sb s) (extras s) (signals s ++ l) (S (nwaits s)) in
    if negb (notdone (nwaits s) p) then (true, waited [])
    else
      (false, waited match action with
                     | SEND_SIGTERM => [(p, SIGTERM)]
                     | SEND_SIGKILL => [(p, SIGKILL)]
                     | DO_NOTHING | GIVEUP => []
                     end).

(** The scan of the slots: [MPM_CHILD_PID], [MPM_NOTE_CHILD_KILLED]. *)
Definition reclaim_slot (action : action_t) (i : nat) (x : Z * procs) : option ((Z * procs) + (Z * procs)) :=
  let '(not_dead_yet, s) := x in
  ps ← get_parent (sb s) (Z.of_nat i);
  if pid ps =? 0 then Some (inl (not_dead_yet, s))
  else
    let '(gone, s) := reclaim_one_pid (pid ps) action s in
    if gone then
      b ← set_parent (sb s) (Z.of_nat i) (ProcessScore 0 (generation ps) (quiescing ps));
      Some (inl (not_dead_yet, Procs b (extras s) (signals s) (nwaits s)))
    else Some (inl (not_dead_yet + 1, s)).

Definition reclaim_extra (action : action_t) (x : Z * procs) (p : Z) : Z * procs :=
  let '(not_dead_yet, s) := x in
  let '(gone, s) := reclaim_one_pid p action s in
  if gone then (not_dead_yet, (zevent_unregister_extra_mpm_process p s).2)
  else (not_dead_yet + 1, s).

(** One pass over the slots and the extra processes. *)
Definition reclaim_pass (max_daemons : Z) (action : action_t) (s : procs) : option (Z * procs) :=
  '(not_dead_yet, s) ← cfor (Z.to_nat max_daemons) 0 (reclaim_slot action) (0, s);
  Some (foldl (reclaim_extra action) (not_dead_yet, s) (extras s)).

(** The loop: the time to sleep, the next action, and the number of times the
    clock was read since the start. *)
Record progress := Progress { waittime : Z; next_action : nat; reads : nat; ps : procs }.

Definition reclaim_turn (max_daemons : Z) (g : progress) : option (progress + progress) :=
  let w := waittime g * 4 in
  let w := if w >? seconds 1 then seconds 1 else w in
  '(_, action_time) ← aread action_table (next_action g);
  let reads' := S (reads g) in
  let due := action_time <=? apr_time_now reads' - apr_time_now 0 in
  let cur_action := if due then next_action g else 0%nat in
  let next := if due then S (next_action g) else next_action g in
  '(cur, _) ← aread action_table cur_action;
  '(not_dead_yet, s) ← reclaim_pass max_daemons cur (ps g);
  let g := Progress w next reads' s in
  if (not_dead_yet >? 0) && negb (bool_decide (cur = GIVEUP)) then Some (inl g) else Some (inr g).

(** The loop takes 13 turns at most, see below. *)
Definition zevent_reclaim_child_processes (max_daemons : Z) (s : procs) : option progress :=
  cloop 14 (reclaim_turn max_daemons) (Progress (1024 * 16) 1 0 s).

Definition zevent_relieve_child_processes (max_daemons : Z) (s : procs) : option procs :=
  '(_, s) ← reclaim_pass max_daemons DO_NOTHING s; Some s.
End Reclaim.

(** [zevent_mpm_safe_kill], with the results of [getpgid], [getpgrp] and [kill]:
    0 is success. *)
Definition APR_EINVAL : Z := 22.
Definition zevent_mpm_safe_kill (getpgid getpgrp errno kill p : Z) : Z :=
  if p <? 1 then APR_EINVAL
  else if getpgid =? -1 then errno
  else if negb (getpgid =? getpgrp) then APR_EINVAL
  else if negb (kill =? 0) then errno else 0.

(** ** The pipe of death: what is written, and what a child makes of it *)

Inductive pod_message := ZEVENT_NORESTART | ZEVENT_RESTART | ZEVENT_GRACEFUL.

(** [rc] and [ch] are the result of [read] and the byte. *)
Definition zevent_pod_check (rc ch : Z) : pod_message :=
  if rc =? 1 then
    if ch =? 36 then ZEVENT_RESTART else if ch =? 33 then ZEVENT_GRACEFUL else ZEVENT_NORESTART
  else ZEVENT_NORESTART.

(** [write] says whether the write of the byte number [i] succeeds. *)
Definition pod_signal_internal (write : nat -> bool) (graceful : bool) (pipe : list Z) : bool * list Z :=
  if write (length pipe) then (true, pipe ++ [if graceful then 33 else 36]) else (false, pipe).

Fixpoint zevent_pod_killpg (write : nat -> bool) (num : nat) (graceful : bool) (pipe : list Z) : list Z :=
  match num with
  | O => pipe
  | S num =>
      let '(ok, pipe) := pod_signal_internal write graceful pipe in
      if ok then zevent_pod_killpg write num graceful pipe else pipe
  end.

(** ** Facts *)

Definition live (i : nat) (tbl : list Z) : Z :=
  Z.of_nat (length (filter (fun p => p <> 0) (take i tbl))).

Lemma live_S i tbl p : tbl !! i = Some p -> live (S i) tbl = live i tbl + (if p =? 0 then 0 else 1).
Proof.
  intros Hi. unfold live. erewrite take_S_r by done. rewrite filter_app, length_app.
  destruct (Z.eqb_spec p 0) as [->|Hp]; [rewrite filter_cons_False by (intros H; by apply H)|
    rewrite filter_cons_True by done]; cbn; lia.
Qed.

(** The pid's share of the signals. *)
Definition sent_to (p : Z) (s : procs) : list Z :=
  snd <$> filter (fun x => x.1 = p) (signals s).

Definition sends (action : action_t) : list Z :=
  match action with SEND_SIGTERM => [SIGTERM] | SEND_SIGKILL => [SIGKILL] | _ => [] end.

Section Facts.
Context (notdone : nat -> Z -> bool) (c : conf).

Lemma reclaim_one_pid_ok p action s gone s' :
  reclaim_one_pid notdone p action s = (gone, s') ->
  sb s' = sb s /\ extras s' = extras s /\
  (forall q, q <> p -> sent_to q s' = sent_to q s) /\
  ((forall n, notdone n p = true) -> 0 < p -> gone = false /\ sent_to p s' = sent_to p s ++ sends action).
Proof.
  unfold reclaim_one_pid, sent_to. destruct (Z.ltb_spec p 1).
  { intros [= <- <-]. split_and!; try done. intros; lia. }
  destruct (notdone (nwaits s) p) eqn:E; cbn [negb]; intros [= <- <-]; cbn; (split_and!; [done|done|..]).
  - intros q Hq. rewrite filter_app, fmap_app.
    destruct action; rewrite ?filter_cons_False, ?filter_nil by (cbn; congruence); by rewrite app_nil_r.
  - intros _ _. split; [done|]. rewrite filter_app, fmap_app. f_equal.
    destruct action; rewrite ?filter_cons_True, ?filter_nil by done; done.
  - intros q Hq. by rewrite app_nil_r.
  - intros Hn. rewrite Hn in E. done.
Qed.
(** A child that never ends: in slot [k] only, and not an extra process. *)
Record straggler (p : Z) (k : nat) (s : procs) : Prop := Straggler {
  st_pid : 0 < p;
  st_slot : pids (sb s) !! k = Some p;
  st_only : forall j, pids (sb s) !! j = Some p -> j = k;
  st_extra : p ∉ extras s;
  st_never : forall n, notdone n p = true
}.

Lemma pids_set_parent i q g z (b : scoreboard) :
  pids (Scoreboard (<[i := ProcessScore q g z]> (parent b)) (servers b)) = <[i := q]> (pids b).
Proof. apply list_fmap_insert. Qed.

(** The state after slot [i] of a pass. *)
Record slots_inv (action : action_t) (s : procs) (i : nat) (x : Z * procs) : Prop := SlotsInv {
  sl_sb : sb_ok c (sb x.2);
  sl_extras : extras x.2 = extras s;
  sl_count : x.1 = live i (pids (sb x.2));
  sl_rest : forall j, (i <= j)%nat -> pids (sb x.2) !! j = pids (sb s) !! j;
  sl_old : forall j p, pids (sb x.2) !! j = Some p -> p <> 0 -> pids (sb s) !! j = Some p;
  sl_strag : forall p k, straggler p k s -> pids (sb x.2) !! k = Some p /\
    sent_to p x.2 = sent_to p s ++ (if decide (k < i)%nat then sends action else [])
}.

Lemma reclaim_slot_ok action s i x :
  Z.of_nat i < server_limit c -> slots_inv action s i x ->
  match reclaim_slot notdone action i x with
  | Some (inl x') => slots_inv action s (S i) x'
  | _ => False
  end.
Proof.
  destruct x as [nd s1]. intros Hi [H1 H2 H3 H4 H5 H6]. cbn [fst snd] in *. unfold reclaim_slot.
  destruct (get_parent_ok c (sb s1) H1 (Z.of_nat i) ltac:(lia)) as (pr & E1 & E2).
  rewrite E1. cbn [mbind option_bind]. rewrite Nat2Z.id in E2.
  assert (pids (sb s1) !! i = Some (pid pr)) as Hp by (unfold pids; by rewrite list_lookup_fmap, E2).
  assert (forall p k, straggler p k s -> pid pr <> p -> k <> i) as Hne.
  { intros p k Hs Hneq ->. destruct (H6 p i Hs) as [E _]. congruence. }
  assert (forall k (a b : list Z), k <> i -> (if decide (k < S i)%nat then a else b) = (if decide (k < i)%nat then a else b)) as Hdec
    by (intros; repeat case_decide; done || lia).
  destruct (Z.eqb_spec (pid pr) 0) as [Hz|Hz].
  { split; cbn [fst snd]; try done.
    - by rewrite (live_S _ _ _ Hp), Hz, Z.add_0_r.
    - intros j Hj. apply H4. lia.
    - intros p k Hs. rewrite Hdec; [by apply H6|]. apply (Hne p); [done|].
      pose proof (st_pid _ _ _ Hs). lia. }
  destruct (reclaim_one_pid notdone (pid pr) action s1) as [gone s2] eqn:E3.
  destruct (reclaim_one_pid_ok _ _ _ _ _ E3) as (F1 & F2 & F3 & F4).
  destruct gone.
  - rewrite F1, (set_parent_ok c _ H1) by lia. cbn [mbind option_bind]. rewrite Nat2Z.id.
    assert (i < length (pids (sb s1)))%nat as Hlt by (by eapply lookup_lt_Some).
    assert (forall p k, straggler p k s -> pid pr <> p) as Hnp.
    { intros p k Hs <-. destruct F4 as [? _]; [apply (st_never _ _ _ Hs)|apply (st_pid _ _ _ Hs)|done]. }
    split; cbn [fst snd sb extras]; rewrite ?pids_set_parent.
    + by apply set_parent_sb_ok.
    + congruence.
    + rewrite (live_S _ _ 0) by (by apply list_lookup_insert_eq). cbn. unfold live in *.
      rewrite take_insert_ge by lia. lia.
    + intros j Hj. rewrite list_lookup_insert_ne by lia. apply H4. lia.
    + intros j p Hj Hp0. apply list_lookup_insert_Some in Hj as [(_ & <- & _)|[_ Hj]]; [done|eauto].
    + intros p k Hs. destruct (H6 p k Hs) as [K1 K2]. pose proof (Hnp p k Hs) as Hn.
      rewrite Hdec by (by eapply Hne). rewrite list_lookup_insert_ne by (by apply not_eq_sym; eapply Hne).
      split; [done|]. rewrite <- K2. by rewrite <- (F3 p) by congruence.
  - split; cbn [fst snd]; rewrite ?F1; try done.
    + congruence.
    + rewrite (live_S _ _ _ Hp). destruct (Z.eqb_spec (pid pr) 0); lia.
    + intros j Hj. apply H4. lia.
    + intros p k Hs. destruct (H6 p k Hs) as [K1 K2]. split; [done|].
      destruct (decide (p = pid pr)) as [->|Hn].
      * destruct F4 as [_ ->]; [apply (st_never _ _ _ Hs)|apply (st_pid _ _ _ Hs)|].
        assert (i = k) as -> by (apply (st_only _ _ _ Hs); by rewrite <- (H4 i)).
        rewrite K2, decide_False, decide_True by lia. by rewrite app_nil_r.
      * rewrite F3, Hdec by (done || by eapply Hne; eauto). done.
Qed.

Lemma unlink_extra_ok p l : p ∈ l -> exists l', unlink p l = (true, l') /\ l ≡ₚ p :: l'.
Proof.
  induction l as [|q l IH]; [by intros ?%elem_of_nil|]. intros Hp. cbn.
  destruct (Z.eqb_spec q p) as [->|Hq]; [by exists l|].
  apply elem_of_cons in Hp as [->|Hp]; [done|]. destruct (IH Hp) as (l' & -> & E).
  exists (q :: l'). split; [done|]. rewrite E. apply Permutation_swap.
Qed.

(** The walk over the extra processes keeps those that are not done. *)
Lemma reclaim_extras_ok action l : forall nd s kept,
  extras s ≡ₚ kept ++ l ->
  let r := foldl (reclaim_extra notdone action) (nd, s) l in
  sb r.2 = sb s /\ (r.1 = nd + Z.of_nat (length (extras r.2)) - Z.of_nat (length kept)) /\
  (forall q, q ∈ extras r.2 -> q ∈ kept ++ l) /\
  (forall q, q ∉ l -> sent_to q r.2 = sent_to q s).
Proof.
  induction l as [|p l IH]; intros nd s kept Hex; cbn [foldl].
  - rewrite app_nil_r in Hex. cbn. split_and!; [done|rewrite Hex; lia| |done].
    intros q Hq. rewrite app_nil_r. by rewrite <- Hex.
  - destruct (reclaim_one_pid notdone p action s) as [gone s1] eqn:E.
    assert (reclaim_extra notdone action (nd, s) p =
      if gone then (nd, (zevent_unregister_extra_mpm_process p s1).2) else (nd + 1, s1)) as ->
      by (unfold reclaim_extra; by rewrite E).
    destruct (reclaim_one_pid_ok _ _ _ _ _ E) as (F1 & F2 & F3 & _).
    destruct gone.
    + unfold zevent_unregister_extra_mpm_process.
      destruct (unlink_extra_ok p (extras s1)) as (l' & -> & Hl'); [rewrite F2, Hex; set_solver|]. cbn [snd].
      set (s2 := Procs _ _ _ _). specialize (IH nd s2 kept). cbn [extras s2] in IH.
      destruct IH as (K1 & K2 & K3 & K4).
      { apply (Permutation_cons_inv (a := p)). rewrite <- Hl', F2, Hex. by rewrite Permutation_middle. }
      split_and!; [by rewrite K1|done|set_solver|].
      intros q Hq. rewrite K4 by set_solver. rewrite <- (F3 q) by set_solver. done.
    + specialize (IH (nd + 1) s1 (kept ++ [p])). destruct IH as (K1 & K2 & K3 & K4).
      { rewrite F2, Hex, <- app_assoc. done. }
      split_and!; [by rewrite K1|rewrite K2, length_app; cbn; lia|set_solver|].
      intros q Hq. rewrite K4 by set_solver. apply F3. set_solver.
Qed.

(** A pass counts what is left. *)
Lemma reclaim_pass_ok action max_daemons s :
  sb_ok c (sb s) -> max_daemons <= server_limit c ->
  exists nd s', reclaim_pass notdone max_daemons action s = Some (nd, s') /\ sb_ok c (sb s') /\
    nd = live (Z.to_nat max_daemons) (pids (sb s')) + Z.of_nat (length (extras s')) /\
    (forall j, (Z.to_nat max_daemons <= j)%nat -> pids (sb s') !! j = pids (sb s) !! j) /\
    (forall p k, straggler p k s -> (k < Z.to_nat max_daemons)%nat ->
       straggler p k s' /\ sent_to p s' = sent_to p s ++ sends action).
Proof.
  intros Hs Hm. unfold reclaim_pass.
  destruct (cfor_total (slots_inv action s) (slots_inv action s (Z.to_nat max_daemons))
    (reclaim_slot notdone action) (Z.to_nat max_daemons) 0%nat (0, s)) as ([nd s1] & E & [H1 H2 H3 H4 H5 H6]).
  - intros i x Hi Hx. pose proof (reclaim_slot_ok action s i x ltac:(lia) Hx) as H.
    destruct (reclaim_slot notdone action i x) as [[?|?]|]; done.
  - done.
  - split; cbn [fst snd]; try done. intros p k Hs'. rewrite decide_False, app_nil_r by lia.
    split; [apply (st_slot _ _ _ Hs')|done].
  - rewrite E. cbn [mbind option_bind]. cbn [fst snd] in *.
    destruct (reclaim_extras_ok action (extras s1) nd s1 [] ltac:(done)) as (K1 & K2 & K3 & K4).
    destruct (foldl _ _ _) as [nd' s2]. cbn [fst snd] in *. exists nd', s2. rewrite K1.
    split_and!; [done..|cbn in K2; lia|done|].
    intros p k Hp Hk. destruct (H6 p k Hp) as [G1 G2]. rewrite decide_True in G2 by lia.
    assert (p ∉ extras s1) as Hpe by (rewrite H2; apply (st_extra _ _ _ Hp)).
    pose proof (st_pid _ _ _ Hp). split; [|by rewrite K4, G2].
    split; rewrite ?K1; try done.
    + intros j Hj. apply (st_only _ _ _ Hp). apply H5; [done|lia].
    + intros Hin. apply Hpe. by apply K3.
    + apply (st_never _ _ _ Hp).
Qed.

End Facts.

(** ** The loop *)

(** The length of the sleep of turn [k], and of those before it. *)
Definition sleeps (k : nat) : Z := Z.min (seconds 1) (1024 * 16 * 4 ^ Z.of_nat k).
Fixpoint slept (k : nat) : Z := match k with O => 0 | S k => slept k + sleeps k end.

Lemma sleeps_next k : (let w := sleeps k * 4 in if w >? seconds 1 then seconds 1 else w) = sleeps (S k).
Proof.
  unfold sleeps, seconds. rewrite Nat2Z.inj_succ, Z.pow_succ_r by lia.
  assert (0 < 4 ^ Z.of_nat k) by (apply Z.pow_pos_nonneg; lia). cbv zeta.
  destruct (Z.gtb_spec (Z.min (1 * 1000000) (1024 * 16 * 4 ^ Z.of_nat k) * 4) (1 * 1000000)); lia.
Qed.

(** By turn [turn_of n] the action number [n] is due. *)
Definition turn_of (n : nat) : nat := nth n [0; 5; 7; 9; 11; 12]%nat 0%nat.

Lemma turn_of_due n : (1 <= n <= 5)%nat ->
  exists a t, action_table !! n = Some (a, t) /\ t <= slept (S (turn_of n)) /\
    (S (turn_of n) <= if decide (n = 5) then 13 else turn_of (S n))%nat /\ (a = GIVEUP <-> n = 5%nat).
Proof.
  intros Hn. destruct n as [|[|[|[|[|[|n]]]]]]; try lia;
    (eexists _, _; split; [done|]; split; [vm_compute; discriminate|]; split; [vm_compute; lia|done]).
Qed.

(** What has been sent to a child that does not end once [n] is the next action. *)
Definition escalation (n : nat) : list Z := concat (map (fun x => sends x.1) (take (n - 1) (tail action_table))).

Lemma escalation_S n a t : (1 <= n)%nat -> action_table !! n = Some (a, t) ->
  escalation (S n) = escalation n ++ sends a.
Proof.
  intros Hn Ha. unfold escalation. destruct n as [|n]; [lia|]. replace (S (S n) - 1)%nat with (S n) by lia.
  replace (S n - 1)%nat with n by lia. erewrite take_S_r by exact Ha.
  rewrite map_app, concat_app. cbn [map concat fst]. by rewrite app_nil_r.
Qed.

Lemma live_nonneg i tbl : 0 <= live i tbl.
Proof. unfold live. lia. Qed.

Lemma live_zero n tbl i p : live n tbl = 0 -> (i < n)%nat -> tbl !! i = Some p -> p = 0.
Proof.
  unfold live. intros Hl Hi Hp. destruct (decide (p = 0)) as [|Hn]; [done|].
  assert (p ∈ filter (fun p => p <> 0) (take n tbl)) as Hin.
  { apply list_elem_of_filter. split; [done|]. apply elem_of_take. by exists i. }
  destruct (filter _ _); [by apply elem_of_nil in Hin|done].
Qed.

Lemma elapsed (now : nat -> Z) k :
  (forall k, now k + sleeps k <= now (S k)) -> slept k <= now k - now 0%nat.
Proof. intros Hc. induction k as [|k IH]; cbn [slept]; [lia|]. specialize (Hc k). lia. Qed.

Section Loop.
Context (notdone : nat -> Z -> bool) (apr_time_now : nat -> Z) (c : conf) (max_daemons : Z) (s0 : procs).
Context (Hclock : forall k, apr_time_now k + sleeps k <= apr_time_now (S k)).
Context (Hmax : max_daemons <= server_limit c).

Record loop_inv (g : progress) : Prop := LoopInv {
  lp_sb : sb_ok c (sb (ps g));
  lp_wait : waittime g = sleeps (reads g);
  lp_next : (1 <= next_action g <= 5)%nat;
  lp_turn : (reads g <= turn_of (next_action g))%nat;
  lp_strag : forall p k, straggler notdone p k s0 -> (k < Z.to_nat max_daemons)%nat ->
    straggler notdone p k (ps g) /\ sent_to p (ps g) = sent_to p s0 ++ escalation (next_action g)
}.

(** How the loop ends. *)
Definition loop_post (g : progress) : Prop :=
  (reads g <= 13)%nat /\ sb_ok c (sb (ps g)) /\
  (next_action g = 6%nat \/
   ((forall i p, (i < Z.to_nat max_daemons)%nat -> pids (sb (ps g)) !! i = Some p -> p = 0) /\ extras (ps g) = [])) /\
  forall p k, straggler notdone p k s0 -> (k < Z.to_nat max_daemons)%nat ->
    pids (sb (ps g)) !! k = Some p /\ sent_to p (ps g) = sent_to p s0 ++ [SIGTERM; SIGTERM; SIGTERM; SIGKILL].

Lemma reclaim_turn_ok g :
  loop_inv g ->
  turn loop_inv (fun g => 13 - reads g)%nat loop_post g (reclaim_turn notdone apr_time_now max_daemons g).
Proof.
  destruct g as [w n k s]. intros [H1 H2 H3 H4 H5]. cbn -[turn_of escalation] in H1, H2, H3, H4, H5. unfold reclaim_turn.
  cbn [waittime next_action reads ps]. rewrite H2, sleeps_next.
  destruct (turn_of_due n H3) as (a & t & Ha & Ht & Hn & Hg). unfold aread. rewrite Ha. cbn [mbind option_bind].
  pose proof (elapsed _ (S k) Hclock) as He.
  set (due := t <=? _). set (cur := if due then a else DO_NOTHING). set (n' := if due then S n else n).
  assert (exists t', action_table !! (if due then n else 0%nat) = Some (cur, t')) as (t' & Hcur)
    by (unfold cur; destruct due; eauto). rewrite Hcur. cbn [mbind option_bind].
  assert (n' = n -> due = false) as Hnd by (unfold n'; destruct due; [lia|done]).
  assert ((S k <= if decide (n' = 6) then 13 else turn_of n')%nat /\ (1 <= n' <= 6)%nat /\ (cur = GIVEUP <-> n' = 6%nat))
    as (Hk & Hn' & Hcg).
  { unfold n', cur, due. destruct (Z.leb_spec t (apr_time_now (S k) - apr_time_now 0)) as [Hd|Hd].
    - destruct (decide (S n = 6%nat)) as [|Hx]; [rewrite decide_True in Hn by lia|rewrite decide_False in Hn by lia];
        (split; [lia|]; split; [lia|]; rewrite Hg; lia).
    - rewrite decide_False by lia. split; [|split; [lia|split; [done|lia]]].
      destruct (decide (k = turn_of n)) as [->|]; [lia|lia]. }
  destruct (reclaim_pass_ok notdone c cur max_daemons s H1 Hmax) as (nd & s' & E & K1 & K2 & _ & K3).
  rewrite E. cbn [mbind option_bind].
  assert (forall p i, straggler notdone p i s0 -> (i < Z.to_nat max_daemons)%nat ->
    straggler notdone p i s' /\ sent_to p s' = sent_to p s0 ++ escalation n') as Hst.
  { intros p i Hp Hi. destruct (H5 p i Hp Hi) as [G1 G2]. destruct (K3 p i G1 Hi) as [G3 G4].
    split; [done|]. rewrite G4, G2, <- app_assoc. f_equal. unfold n', cur. destruct due.
    - symmetry. by apply (escalation_S n a t); [lia|].
    - by rewrite app_nil_r. }
  pose proof (live_nonneg (Z.to_nat max_daemons) (pids (sb s'))) as Hl.
  destruct ((nd >? 0) && negb (bool_decide (cur = GIVEUP))) eqn:Hend.
  - apply andb_prop in Hend as [_ Hend]. apply negb_true_iff, bool_decide_eq_false in Hend.
    assert (n' <> 6%nat) as Hn6 by tauto. rewrite decide_False in Hk by done.
    split; [split; cbn; [done|done|lia|done|done]|].
    cbn. assert (turn_of n <= 12)%nat by (destruct n as [|[|[|[|[|[|n]]]]]]; cbn; lia). lia.
  - unfold turn, loop_post. cbn [reads ps next_action].
    assert (S k <= 13)%nat as Hk13.
    { destruct (decide (n' = 6%nat)); [done|].
      assert (turn_of n' <= 12)%nat by (destruct n' as [|[|[|[|[|[|x]]]]]]; cbn; lia). lia. }
    split_and!; [done|done| |].
    + apply andb_false_iff in Hend as [Hend|Hend].
      * right. assert (nd = 0 /\ length (extras s') = 0%nat) as [Hz He0] by lia.
        split; [|by apply nil_length_inv]. intros i p Hi. apply (live_zero (Z.to_nat max_daemons)); [lia|done].
      * left. apply Hcg. by apply negb_false_iff, bool_decide_eq_true in Hend.
    + intros p i Hp Hi. destruct (Hst p i Hp Hi) as [G1 G2]. split; [apply (st_slot _ _ _ _ G1)|].
      assert (n' = 6%nat) as Hn6.
      { apply Hcg. apply andb_false_iff in Hend as [Hend|Hend].
        - pose proof (live_zero (Z.to_nat max_daemons) (pids (sb s')) i p ltac:(lia) Hi (st_slot _ _ _ _ G1)).
          pose proof (st_pid _ _ _ _ G1). lia.
        - by apply negb_false_iff, bool_decide_eq_true in Hend. }
      by rewrite G2, Hn6.
Qed.
End Loop.

(** ** Theorems *)

(** C40: When the clock advances by at least what was slept, and the limit that is passed
    ([max_daemons], in the code [zevent_max_daemons_limit]) lies within the scoreboard,
    reclaiming ends after at most 13 turns without reading past the table of actions or
    the scoreboard: either every child in a slot below that limit and every extra process
    is gone, or the last action was reached. A child in such a slot that never ends is
    sent SIGTERM three times and then SIGKILL, and its slot is kept. Children in slots
    from the limit on are not looked at ([reclaim_beyond_the_limit]). *)
Theorem reclaim_ends (notdone : nat -> Z -> bool) (now : nat -> Z) (c : conf) (max_daemons : Z) (s : procs)
    (Hclock : forall k, now k + sleeps k <= now (S k)) (Hsb : sb_ok c (sb s))
    (Hmax : max_daemons <= server_limit c) :
  exists g, zevent_reclaim_child_processes notdone now max_daemons s = Some g /\
    loop_post notdone c max_daemons s g.
Proof.
  apply (cloop_total (loop_inv notdone c max_daemons s) (fun g => 13 - reads g)%nat).
  - intros g. by apply reclaim_turn_ok.
  - split; cbn; [done|done|lia|lia|]. intros p k Hp _. split; [done|by rewrite app_nil_r].
  - cbn. lia.
Qed.

(** A child that never ends next to one that is gone at once. *)
Lemma reclaim_ends_witness :
  let c := Conf 3 1 3 1 1 2 1 0 false in
  let w := WorkerScore 0 2 0 0 0 0 0 0 0 in
  let b := Scoreboard [ProcessScore 100 0 0; ProcessScore 0 0 0; ProcessScore 101 0 0] [[w]; [w]; [w]] in
  let s := Procs b [77] [] 0 in
  exists g, zevent_reclaim_child_processes (fun _ p => p =? 100) slept 3 s = Some g /\
    pids (sb (ps g)) = [100; 0; 0] /\ extras (ps g) = [] /\ reads g = 13%nat /\
    sent_to 100 (ps g) = [15; 15; 15; 9].
Proof.
  intros c w b s.
  destruct (reclaim_ends (fun _ p => p =? 100) slept c 3 s) as (g & E & H).
  - intros k. cbn. lia.
  - split; [done|done|]. intros row Hrow. cbn in Hrow. set_unfold. by intuition subst.
  - done.
  - exists g. split; [exact E|]. vm_compute in E. injection E as <-. split_and!; reflexivity.
Defined.

(** Children beyond the limit that is passed, [zevent_max_daemons_limit], are left
    out. *)
Example reclaim_beyond_the_limit :
  let w := WorkerScore 0 2 0 0 0 0 0 0 0 in
  let b := Scoreboard [ProcessScore 100 0 0; ProcessScore 101 0 1] [[w]; [w]] in
  exists g, zevent_reclaim_child_processes (fun _ _ => true) slept 1 (Procs b [] [] 0) = Some g /\
    sent_to 100 (ps g) = [15; 15; 15; 9] /\ sent_to 101 (ps g) = [].
Proof. eexists. split; [vm_compute; reflexivity|]. by split. Qed.

(** A byte written is the message read. *)
Lemma pod_signal_check write graceful pipe :
  write (length pipe) = true ->
  exists ch, pod_signal_internal write graceful pipe = (true, pipe ++ [ch]) /\
    zevent_pod_check 1 ch = if graceful then ZEVENT_GRACEFUL else ZEVENT_RESTART.
Proof. unfold pod_signal_internal. intros ->. eexists. split; [done|]. by destruct graceful. Qed.
