(* ===== verification/Md5.v ===== *)
(** MD5: [minidownloader/md5.c], on a little-endian machine where [unsigned long]
    has 32 bits, as on the platform of the downloader.

    The compression function is equal to the one of RFC 1321, which is driven by
    tables, and any series of updates followed by [MD5Final] gives the digest of
    the whole message. *)
From S2P Require Import Prelude.
Local Open Scope Z_scope.

(** The context: [buf] are four words, [bits] the low and the high word of the bit
    count, [in_] 64 bytes. *)
Definition quad : Type := Z * Z * Z * Z.
Record MD5Context := Context_ { buf : quad; bits0 : Z; bits1 : Z; in_ : list Z }.

(** Words and bytes. *)
Definition le32 (l : list Z) (i : nat) : Z :=
  let b k := nth (4 * i + k) l 0 in
  b 0%nat + 2 ^ 8 * b 1%nat + 2 ^ 16 * b 2%nat + 2 ^ 24 * b 3%nat.
Definition bytes32 (x : Z) : list Z :=
  [u8 x; u8 (Z.shiftr x 8); u8 (Z.shiftr x 16); u8 (Z.shiftr x 24)].

(** [garbage] is what the context held. *)
Definition MD5Init (garbage : list Z) : MD5Context :=
  Context_ (0x67452301, 0xefcdab89, 0x98badcfe, 0x10325476) 0 0 garbage.

Definition F1 (x y z : Z) : Z := Z.lxor z (Z.land x (Z.lxor y z)).
Definition F2 (x y z : Z) : Z := F1 z x y.
Definition F3 (x y z : Z) : Z := Z.lxor (Z.lxor x y) z.
Definition F4 (x y z : Z) : Z := Z.lxor y (Z.lor x (u32 (Z.lnot z))).

Definition MD5STEP (f : Z -> Z -> Z -> Z) (w x y z data s : Z) : Z :=
  let w := u32 (w + u32 (f x y z + u32 data)) in
  let w := Z.lor (u32 (Z.shiftl w s)) (Z.shiftr w (32 - s)) in
  u32 (w + x).

(** An assignment to a variable, kept apart from the [let] of the logic, which the
    conversion would unfold 64 deep. *)
Definition assign {A B} (e : A) (k : A -> B) : B := k e.
Notation "x ::= e ; k" := (assign e (fun x => k))
  (at level 100, e at level 99, k at level 200, right associativity).

(** [in_] is the block as words. *)
Definition MD5Transform (buf : quad) (in_ : nat -> Z) : quad :=
  let '(buf0, buf1, buf2, buf3) := buf in
  let a := buf0 in
  let b := buf1 in
  let c := buf2 in
  let d := buf3 in
  a ::= MD5STEP F1 a b c d (in_ 0%nat + 0xd76aa478) 7;
  d ::= MD5STEP F1 d a b c (in_ 1%nat + 0xe8c7b756) 12;
  c ::= MD5STEP F1 c d a b (in_ 2%nat + 0x242070db) 17;
  b ::= MD5STEP F1 b c d a (in_ 3%nat + 0xc1bdceee) 22;
  a ::= MD5STEP F1 a b c d (in_ 4%nat + 0xf57c0faf) 7;
  d ::= MD5STEP F1 d a b c (in_ 5%nat + 0x4787c62a) 12;
  c ::= MD5STEP F1 c d a b (in_ 6%nat + 0xa8304613) 17;
  b ::= MD5STEP F1 b c d a (in_ 7%nat + 0xfd469501) 22;
  a ::= MD5STEP F1 a b c d (in_ 8%nat + 0x698098d8) 7;
  d ::= MD5STEP F1 d a b c (in_ 9%nat + 0x8b44f7af) 12;
  c ::= MD5STEP F1 c d a b (in_ 10%nat + 0xffff5bb1) 17;
  b ::= MD5STEP F1 b c d a (in_ 11%nat + 0x895cd7be) 22;
  a ::= MD5STEP F1 a b c d (in_ 12%nat + 0x6b901122) 7;
  d ::= MD5STEP F1 d a b c (in_ 13%nat + 0xfd987193) 12;
  c ::= MD5STEP F1 c d a b (in_ 14%nat + 0xa679438e) 17;
  b ::= MD5STEP F1 b c d a (in_ 15%nat + 0x49b40821) 22;
  a ::= MD5STEP F2 a b c d (in_ 1%nat + 0xf61e2562) 5;
  d ::= MD5STEP F2 d a b c (in_ 6%nat + 0xc040b340) 9;
  c ::= MD5STEP F2 c d a b (in_ 11%nat + 0x265e5a51) 14;
  b ::= MD5STEP F2 b c d a (in_ 0%nat + 0xe9b6c7aa) 20;
  a ::= MD5STEP F2 a b c d (in_ 5%nat + 0xd62f105d) 5;
  d ::= MD5STEP F2 d a b c (in_ 10%nat + 0x02441453) 9;
  c ::= MD5STEP F2 c d a b (in_ 15%nat + 0xd8a1e681) 14;
  b ::= MD5STEP F2 b c d a (in_ 4%nat + 0xe7d3fbc8) 20;
  a ::= MD5STEP F2 a b c d (in_ 9%nat + 0x21e1cde6) 5;
  d ::= MD5STEP F2 d a b c (in_ 14%nat + 0xc33707d6) 9;
  c ::= MD5STEP F2 c d a b (in_ 3%nat + 0xf4d50d87) 14;
  b ::= MD5STEP F2 b c d a (in_ 8%nat + 0x455a14ed) 20;
  a ::= MD5STEP F2 a b c d (in_ 13%nat + 0xa9e3e905) 5;
  d ::= MD5STEP F2 d a b c (in_ 2%nat + 0xfcefa3f8) 9;
  c ::= MD5STEP F2 c d a b (in_ 7%nat + 0x676f02d9) 14;
  b ::= MD5STEP F2 b c d a (in_ 12%nat + 0x8d2a4c8a) 20;
  a ::= MD5STEP F3 a b c d (in_ 5%nat + 0xfffa3942) 4;
  d ::= MD5STEP F3 d a b c (in_ 8%nat + 0x8771f681) 11;
  c ::= MD5STEP F3 c d a b (in_ 11%nat + 0x6d9d6122) 16;
  b ::= MD5STEP F3 b c d a (in_ 14%nat + 0xfde5380c) 23;
  a ::= MD5STEP F3 a b c d (in_ 1%nat + 0xa4beea44) 4;
  d ::= MD5STEP F3 d a b c (in_ 4%nat + 0x4bdecfa9) 11;
  c ::= MD5STEP F3 c d a b (in_ 7%nat + 0xf6bb4b60) 16;
  b ::= MD5STEP F3 b c d a (in_ 10%nat + 0xbebfbc70) 23;
  a ::= MD5STEP F3 a b c d (in_ 13%nat + 0x289b7ec6) 4;
  d ::= MD5STEP F3 d a b c (in_ 0%nat + 0xeaa127fa) 11;
  c ::= MD5STEP F3 c d a b (in_ 3%nat + 0xd4ef3085) 16;
  b ::= MD5STEP F3 b c d a (in_ 6%nat + 0x04881d05) 23;
  a ::= MD5STEP F3 a b c d (in_ 9%nat + 0xd9d4d039) 4;
  d ::= MD5STEP F3 d a b c (in_ 12%nat + 0xe6db99e5) 11;
  c ::= MD5STEP F3 c d a b (in_ 15%nat + 0x1fa27cf8) 16;
  b ::= MD5STEP F3 b c d a (in_ 2%nat + 0xc4ac5665) 23;
  a ::= MD5STEP F4 a b c d (in_ 0%nat + 0xf4292244) 6;
  d ::= MD5STEP F4 d a b c (in_ 7%nat + 0x432aff97) 10;
  c ::= MD5STEP F4 c d a b (in_ 14%nat + 0xab9423a7) 15;
  b ::= MD5STEP F4 b c d a (in_ 5%nat + 0xfc93a039) 21;
  a ::= MD5STEP F4 a b c d (in_ 12%nat + 0x655b59c3) 6;
  d ::= MD5STEP F4 d a b c (in_ 3%nat + 0x8f0ccc92) 10;
  c ::= MD5STEP F4 c d a b (in_ 10%nat + 0xffeff47d) 15;
  b ::= MD5STEP F4 b c d a (in_ 1%nat + 0x85845dd1) 21;
  a ::= MD5STEP F4 a b c d (in_ 8%nat + 0x6fa87e4f) 6;
  d ::= MD5STEP F4 d a b c (in_ 15%nat + 0xfe2ce6e0) 10;
  c ::= MD5STEP F4 c d a b (in_ 6%nat + 0xa3014314) 15;
  b ::= MD5STEP F4 b c d a (in_ 13%nat + 0x4e0811a1) 21;
  a ::= MD5STEP F4 a b c d (in_ 4%nat + 0xf7537e82) 6;
  d ::= MD5STEP F4 d a b c (in_ 11%nat + 0xbd3af235) 10;
  c ::= MD5STEP F4 c d a b (in_ 2%nat + 0x2ad7d2bb) 15;
  b ::= MD5STEP F4 b c d a (in_ 9%nat + 0xeb86d391) 21;
  (u32 (buf0 + a), u32 (buf1 + b), u32 (buf2 + c), u32 (buf3 + d)).

(** A transformation of the block that is in the context. *)
Definition transform (ctx : MD5Context) : MD5Context :=
  Context_ (MD5Transform (buf ctx) (le32 (in_ ctx))) (bits0 ctx) (bits1 ctx) (in_ ctx).
Definition with_in (l : list Z) (ctx : MD5Context) : MD5Context :=
  Context_ (buf ctx) (bits0 ctx) (bits1 ctx) l.

(** The loop over whole blocks, then what remains. *)
Definition update_turn (x : MD5Context * list Z) : option ((MD5Context * list Z) + MD5Context) :=
  let '(ctx, data) := x in
  if (64 <=? length data)%nat then
    b ← mread data 0 64;
    l ← mwrite (in_ ctx) 0 b;
    Some (inl (transform (with_in l ctx), drop 64 data))
  else
    l ← mwrite (in_ ctx) 0 data;
    Some (inr (with_in l ctx)).

(** [data] are the [len] bytes at [buf]; [len] is a 32-bit unsigned. *)
Definition MD5Update (ctx : MD5Context) (data : list Z) : option MD5Context :=
  let len := Z.of_nat (length data) in
  let t := bits0 ctx in
  let b0 := u32 (t + u32 (Z.shiftl len 3)) in
  let b1 := if b0 <? t then u32 (bits1 ctx + 1) else bits1 ctx in
  let b1 := u32 (b1 + Z.shiftr len 29) in
  let ctx := Context_ (buf ctx) b0 b1 (in_ ctx) in
  let t := Z.to_nat (Z.land (Z.shiftr t 3) 0x3f) in
  let loop x := cloop (S (length data / 64)) update_turn x in
  if (t =? 0)%nat then loop (ctx, data)
  else
    let p := t in
    let t := (64 - t)%nat in
    if (length data <? t)%nat then
      l ← mwrite (in_ ctx) p data;
      Some (with_in l ctx)
    else
      b ← mread data 0 t;
      l ← mwrite (in_ ctx) p b;
      loop (transform (with_in l ctx), drop t data).

(** The digest, and the context with as many bytes cleared as a pointer has. *)
Definition MD5Final (ctx : MD5Context) : option (list Z * MD5Context) :=
  let count := Z.to_nat (Z.land (Z.shiftr (bits0 ctx) 3) 0x3f) in
  l ← mwrite (in_ ctx) count [0x80];
  let p := S count in
  let count := (64 - 1 - count)%nat in
  ctx ← (if (count <? 8)%nat then
           l ← mwrite l p (replicate count 0);
           let ctx := transform (with_in l ctx) in
           l ← mwrite (in_ ctx) 0 (replicate 56 0);
           Some (with_in l ctx)
         else
           l ← mwrite l p (replicate (count - 8) 0);
           Some (with_in l ctx));
  l ← mwrite (in_ ctx) 56 (bytes32 (bits0 ctx));
  l ← mwrite l 60 (bytes32 (bits1 ctx));
  let ctx := transform (with_in l ctx) in
  let '(a, b, c, d) := buf ctx in
  Some (bytes32 a ++ bytes32 b ++ bytes32 c ++ bytes32 d,
        Context_ (0, b, c, d) (bits0 ctx) (bits1 ctx) (in_ ctx)).

(** ** The reference: RFC 1321 *)
Module Rfc.
(** [T[i]], the integer part of 2^32 |sin i|. *)
Definition T : list Z :=
  [0xd76aa478; 0xe8c7b756; 0x242070db; 0xc1bdceee; 0xf57c0faf; 0x4787c62a;
   0xa8304613; 0xfd469501; 0x698098d8; 0x8b44f7af; 0xffff5bb1; 0x895cd7be;
   0x6b901122; 0xfd987193; 0xa679438e; 0x49b40821; 0xf61e2562; 0xc040b340;
   0x265e5a51; 0xe9b6c7aa; 0xd62f105d; 0x02441453; 0xd8a1e681; 0xe7d3fbc8;
   0x21e1cde6; 0xc33707d6; 0xf4d50d87; 0x455a14ed; 0xa9e3e905; 0xfcefa3f8;
   0x676f02d9; 0x8d2a4c8a; 0xfffa3942; 0x8771f681; 0x6d9d6122; 0xfde5380c;
   0xa4beea44; 0x4bdecfa9; 0xf6bb4b60; 0xbebfbc70; 0x289b7ec6; 0xeaa127fa;
   0xd4ef3085; 0x04881d05; 0xd9d4d039; 0xe6db99e5; 0x1fa27cf8; 0xc4ac5665;
   0xf4292244; 0x432aff97; 0xab9423a7; 0xfc93a039; 0x655b59c3; 0x8f0ccc92;
   0xffeff47d; 0x85845dd1; 0x6fa87e4f; 0xfe2ce6e0; 0xa3014314; 0x4e0811a1;
   0xf7537e82; 0xbd3af235; 0x2ad7d2bb; 0xeb86d391].
Definition shifts : list (list Z) := [[7; 12; 17; 22]; [5; 9; 14; 20]; [4; 11; 16; 23]; [6; 10; 15; 21]].
Definition not (x : Z) : Z := u32 (Z.lnot x).

Definition fn (round : nat) (x y z : Z) : Z :=
  match round with
  | 0%nat => Z.lor (Z.land x y) (Z.land (Z.lnot x) z)
  | 1%nat => Z.lor (Z.land x z) (Z.land y (Z.lnot z))
  | 2%nat => Z.lxor (Z.lxor x y) z
  | _ => Z.lxor y (Z.lor x (not z))
  end.
Definition index (round i : nat) : nat :=
  match round with
  | 0%nat => i
  | 1%nat => ((5 * i + 1) mod 16)%nat
  | 2%nat => ((3 * i + 5) mod 16)%nat
  | _ => ((7 * i) mod 16)%nat
  end.
Definition rotl (x s : Z) : Z := Z.lor (u32 (Z.shiftl x s)) (Z.shiftr x (32 - s)).

(** Operation [i] of 64; the four registers move round. *)
Definition op (block : nat -> Z) (r : quad) (i : nat) : quad :=
  let '(a, b, c, d) := r in
  let round := (i / 16)%nat in
  let s := nth (i mod 4) (nth round shifts []) 0 in
  (d, u32 (rotl (u32 (a + u32 (fn round b c d + u32 (block (index round (i mod 16)) + nth i T 0)))) s + b), b, c).

Definition compress (buf : quad) (block : nat -> Z) : quad :=
  let '(a0, b0, c0, d0) := buf in
  let '(a, b, c, d) := foldl (op block) buf (seq 0 64) in
  (u32 (a0 + a), u32 (b0 + b), u32 (c0 + c), u32 (d0 + d)).

(** Blocks of 64 bytes from the front. *)
Fixpoint blocks (n : nat) (buf : quad) (l : list Z) : quad :=
  match n with
  | 0%nat => buf
  | S n => blocks n (compress buf (le32 (take 64 l))) (drop 64 l)
  end.

(** One bit, zeros up to 56 bytes modulo 64, and the length in bits. *)
Definition padding (n : nat) : list Z :=
  0x80 :: replicate ((55 + 64 - n mod 64) mod 64) 0 ++
  bytes32 (u32 (8 * Z.of_nat n)) ++ bytes32 (u32 (8 * Z.of_nat n / 2 ^ 32)).

Definition start : quad := (0x67452301, 0xefcdab89, 0x98badcfe, 0x10325476).
Definition digest (m : list Z) : list Z :=
  let padded := m ++ padding (length m) in
  let '(a, b, c, d) := blocks (length padded / 64) start padded in
  bytes32 a ++ bytes32 b ++ bytes32 c ++ bytes32 d.
End Rfc.

(** ** The compression function *)

Lemma F1_fn x y z : F1 x y z = Rfc.fn 0 x y z.
Proof.
  unfold F1, Rfc.fn. apply Z.bits_inj'. intros n Hn.
  rewrite Z.lxor_spec, Z.lor_spec, !Z.land_spec, Z.lxor_spec, Z.lnot_spec by done.
  by destruct (Z.testbit x n), (Z.testbit y n), (Z.testbit z n).
Qed.

Lemma F2_fn x y z : F2 x y z = Rfc.fn 1 x y z.
Proof.
  unfold F2, F1, Rfc.fn. apply Z.bits_inj'. intros n Hn.
  rewrite Z.lxor_spec, Z.lor_spec, !Z.land_spec, Z.lxor_spec, Z.lnot_spec by done.
  by destruct (Z.testbit x n), (Z.testbit y n), (Z.testbit z n).
Qed.

Lemma F3_fn x y z : F3 x y z = Rfc.fn 2 x y z.
Proof. done. Qed.
Lemma F4_fn x y z : F4 x y z = Rfc.fn 3 x y z.
Proof. done. Qed.

(** One step of the code is one operation of the reference. *)
Lemma md5_step block (G : quad -> quad) f a b c d i l round g k s K :
  (i / 16)%nat = round -> (forall x y z, f x y z = Rfc.fn round x y z) ->
  Rfc.index round (i mod 16) = g -> nth i Rfc.T 0 = k -> nth (i mod 4) (nth round Rfc.shifts []) 0 = s ->
  (forall v, K v = G (foldl (Rfc.op block) (d, v, b, c) l)) ->
  assign (MD5STEP f a b c d (block g + k) s) K = G (foldl (Rfc.op block) (a, b, c, d) (i :: l)).
Proof.
  intros <- Hf <- <- <- HK. unfold assign. rewrite HK. cbn [foldl]. unfold Rfc.op at 3, MD5STEP.
  by rewrite Hf.
Qed.

Ltac md5_steps f_fn :=
  do 16 (eapply md5_step; [reflexivity|exact f_fn|reflexivity..|intros ?]).

Lemma transform_rfc (b : quad) (block : nat -> Z) : MD5Transform b block = Rfc.compress b block.
Proof.
  destruct b as [[[a b] c] d]. cbv beta iota zeta delta [MD5Transform Rfc.compress].
  set (G := fun r : quad => let '(a', b', c', d') := r in
    (u32 (a + a'), u32 (b + b'), u32 (c + c'), u32 (d + d'))).
  change (?x = _) with (x = G (foldl (Rfc.op block) (a, b, c, d) (seq 0 64))).
  change (seq 0 64) with ltac:(let l := eval vm_compute in (seq 0 64) in exact l).
  md5_steps F1_fn. md5_steps F2_fn. md5_steps F3_fn. md5_steps F4_fn. reflexivity.
Qed.

#[local] Opaque MD5Transform Rfc.compress.

(** ** Blocks *)

Lemma blocks_app n b l l' : (64 * n <= length l)%nat -> Rfc.blocks n b (l ++ l') = Rfc.blocks n b l.
Proof.
  revert b l. induction n as [|n IH]; intros b l Hn; [done|]. cbn [Rfc.blocks].
  rewrite take_app_le, drop_app_le by lia. apply IH. rewrite length_drop. lia.
Qed.

Lemma blocks_S n b l :
  Rfc.blocks (S n) b l = Rfc.compress (Rfc.blocks n b l) (le32 (take 64 (drop (64 * n) l))).
Proof.
  revert b l. induction n as [|n IH]; intros b l; [done|].
  change (Rfc.blocks (S (S n)) b l) with (Rfc.blocks (S n) (Rfc.compress b (le32 (take 64 l))) (drop 64 l)).
  rewrite IH, drop_drop. cbn [Rfc.blocks]. do 4 f_equal. lia.
Qed.

(** A block completed by what has been held back. *)
Lemma blocks_next l r q :
  length l = (64 * q)%nat -> length r = 64%nat ->
  Rfc.blocks (S q) Rfc.start (l ++ r) = Rfc.compress (Rfc.blocks q Rfc.start l) (le32 r).
Proof.
  intros Hl Hr. rewrite blocks_S, blocks_app by lia. rewrite drop_app_length' by done. by rewrite take_ge by lia.
Qed.

(** ** The context stands for the bytes absorbed so far

    [done] are the bytes of whole blocks, [rest] those still in [in_]. *)
Record absorbed (q : nat) (done rest : list Z) (ctx : MD5Context) : Prop := Absorbed {
  ab_done : length done = (64 * q)%nat;
  ab_buf : buf ctx = Rfc.blocks q Rfc.start done;
  ab_len : length (in_ ctx) = 64%nat;
  ab_rest : take (length rest) (in_ ctx) = rest;
  ab_room : (length rest < 64)%nat
}.

Record counted (m : list Z) (ctx : MD5Context) : Prop := Counted {
  ct_0 : 0 <= bits0 ctx < 2 ^ 32;
  ct_1 : 0 <= bits1 ctx < 2 ^ 32;
  ct_sum : bits0 ctx + 2 ^ 32 * bits1 ctx = (8 * Z.of_nat (length m)) mod 2 ^ 64
}.

(** A full block is in [in_]. *)
Lemma transform_ok q done ctx :
  length done = (64 * q)%nat -> buf ctx = Rfc.blocks q Rfc.start done -> length (in_ ctx) = 64%nat ->
  buf (transform ctx) = Rfc.blocks (S q) Rfc.start (done ++ in_ ctx).
Proof. intros Hd Hb Hl. unfold transform. cbn [buf]. rewrite transform_rfc, Hb, blocks_next; done. Qed.

Lemma mwrite_in (l bs : list Z) p :
  length l = 64%nat -> (p + length bs <= 64)%nat ->
  exists l', mwrite l p bs = Some l' /\ length l' = 64%nat /\
    take (p + length bs) l' = take p l ++ bs /\ (p + length bs = 64 -> l' = take p l ++ bs)%nat.
Proof.
  intros Hl Hp. exists (take p l ++ bs ++ drop (p + length bs) l). rewrite mwrite_ok by lia.
  split; [done|]. split; [rewrite !length_app, length_take, length_drop; lia|]. split.
  - rewrite app_assoc. apply take_app_length'. rewrite length_app, length_take. lia.
  - intros E. rewrite (drop_ge l) by lia. by rewrite app_nil_r.
Qed.

Lemma update_loop_ok q done data ctx :
  length done = (64 * q)%nat -> buf ctx = Rfc.blocks q Rfc.start done -> length (in_ ctx) = 64%nat ->
  exists ctx' q' done' rest', cloop (S (length data / 64)) update_turn (ctx, data) = Some ctx' /\
    absorbed q' done' rest' ctx' /\ done' ++ rest' = done ++ data /\
    bits0 ctx' = bits0 ctx /\ bits1 ctx' = bits1 ctx.
Proof.
  intros H1 H2 H3.
  set (I := fun x : MD5Context * list Z => exists q1 done1, length done1 = (64 * q1)%nat /\
    buf x.1 = Rfc.blocks q1 Rfc.start done1 /\ length (in_ x.1) = 64%nat /\
    done1 ++ x.2 = done ++ data /\ bits0 x.1 = bits0 ctx /\ bits1 x.1 = bits1 ctx).
  set (Q := fun ctx' => exists q' done' rest', absorbed q' done' rest' ctx' /\ done' ++ rest' = done ++ data /\
    bits0 ctx' = bits0 ctx /\ bits1 ctx' = bits1 ctx).
  assert (forall x, I x -> turn I (fun x => length x.2 / 64)%nat Q x (update_turn x)) as Hturn.
  2:{ destruct (cloop_total I (fun x => length x.2 / 64)%nat Q update_turn Hturn (S (length data / 64)) (ctx, data))
        as (ctx' & E & q' & done' & rest' & HQ); [by exists q, done|cbn; lia|by exists ctx', q', done', rest']. }
  intros [c1 d1] (q1 & done1 & K1 & K2 & K3 & K4 & K5 & K6). cbn [fst snd] in *. unfold update_turn.
  destruct (Nat.leb_spec 64 (length d1)) as [Hlen|Hlen].
  - rewrite mread_ok, drop_0 by lia. cbn [mbind option_bind].
    destruct (mwrite_in (in_ c1) (take 64 d1) 0) as (l & E & L1 & L2 & L3); [done|rewrite length_take; lia|]. rewrite E.
    cbn [mbind option_bind turn]. specialize (L3 ltac:(rewrite length_take; lia)). cbn [take app] in L3. subst l.
    split.
    + exists (S q1), (done1 ++ take 64 d1). cbn [fst snd].
      split; [rewrite length_app, length_take; lia|]. split; [by apply (transform_ok q1 done1 (with_in (take 64 d1) c1))|].
      split; [done|]. split; [by rewrite <- app_assoc, take_drop|done].
    + cbn [snd]. rewrite length_drop. assert (length d1 / 64 = (length d1 - 64) / 64 + 1)%nat; [|lia].
      rewrite <- (Nat.div_add _ 1 64) by lia. f_equal. lia.
  - destruct (mwrite_in (in_ c1) d1 0) as (l & E & L1 & L2 & _); [done|lia|]. rewrite E.
    cbn [mbind option_bind turn]. exists q1, done1, d1. split; [|done]. by split.
Qed.

(** ** The bit count *)

Lemma count_low b n : b = (8 * Z.of_nat n) mod 2 ^ 32 -> Z.to_nat (Z.land (Z.shiftr b 3) 0x3f) = (n mod 64)%nat.
Proof.
  intros ->. change 0x3f with (Z.ones 6). rewrite Z.land_ones, Z.shiftr_div_pow2 by lia.
  change (2 ^ 32) with (8 * 2 ^ 29). rewrite Z.mul_mod_distr_l by lia. change (2 ^ 3) with 8.
  rewrite (Z.mul_comm 8), Z.div_mul by lia. change (2 ^ 29) with (2 ^ 6 * 2 ^ 23).
  rewrite Z.rem_mul_r by lia. rewrite (Z.mul_comm (2 ^ 6)), Z.mod_add, Z.mod_mod by lia.
  change (2 ^ 6) with (Z.of_nat 64). rewrite <- Nat2Z.inj_mod. by rewrite Nat2Z.id.
Qed.

Lemma counted_words m ctx : counted m ctx ->
  bits0 ctx = u32 (8 * Z.of_nat (length m)) /\ bits1 ctx = u32 (8 * Z.of_nat (length m) / 2 ^ 32).
Proof.
  intros [H0 H1 Hs]. unfold wrap.
  pose proof (Z.div_mod (8 * Z.of_nat (length m)) (2 ^ 64) ltac:(lia)) as Hd. rewrite <- Hs in Hd.
  set (x := 8 * Z.of_nat (length m)) in *. set (k := x / 2 ^ 64) in *.
  assert (x = bits0 ctx + 2 ^ 32 * (bits1 ctx + 2 ^ 32 * k)) as Hx by lia.
  assert (x / 2 ^ 32 = bits1 ctx + 2 ^ 32 * k) as Hq
    by (symmetry; apply (Z.div_unique_pos _ _ _ (bits0 ctx)); lia).
  split.
  - apply (Z.mod_unique_pos _ _ (bits1 ctx + 2 ^ 32 * k)); lia.
  - rewrite Hq. apply (Z.mod_unique_pos _ _ k); lia.
Qed.

Lemma count_update m data ctx :
  counted m ctx -> Z.of_nat (length data) < 2 ^ 32 ->
  let len := Z.of_nat (length data) in
  let b0 := u32 (bits0 ctx + u32 (Z.shiftl len 3)) in
  let b1 := if b0 <? bits0 ctx then u32 (bits1 ctx + 1) else bits1 ctx in
  let b1 := u32 (b1 + Z.shiftr len 29) in
  forall x l, counted (m ++ data) (Context_ x b0 b1 l).
Proof.
  intros [H0 H1 Hs] Hl len b0 b1 b1' x l. split; cbn; [apply wrap_range; lia..|].
  rewrite length_app, Nat2Z.inj_add. fold len.
  assert (Z.shiftl len 3 = 8 * len) as E1 by (rewrite Z.shiftl_mul_pow2 by lia; lia).
  assert (Z.shiftr len 29 = 8 * len / 2 ^ 32) as E2.
  { rewrite Z.shiftr_div_pow2 by lia. change (2 ^ 32) with (8 * 2 ^ 29). by rewrite Z.div_mul_cancel_l by lia. }
  pose proof (Z.div_mod (8 * len) (2 ^ 32) ltac:(lia)) as Hd. pose proof (Z.mod_pos_bound (8 * len) (2 ^ 32) ltac:(lia)) as Hr.
  set (y := 8 * len / 2 ^ 32) in *. set (r := (8 * len) mod 2 ^ 32) in *.
  assert (b0 = u32 (bits0 ctx + r)) as Hb0 by (unfold b0; by rewrite E1).
  assert (exists c, b0 + 2 ^ 32 * c = bits0 ctx + r /\ exists k, b1' = bits1 ctx + c + y - 2 ^ 32 * k)
    as (c & Hc & k & Hk).
  { destruct (decide (bits0 ctx + r < 2 ^ 32)).
    - assert (b0 = bits0 ctx + r) as Hb by (rewrite Hb0; apply wrap_small; lia).
      exists 0. split; [lia|]. unfold b1', b1. rewrite (proj2 (Z.ltb_ge _ _)) by lia. rewrite E2.
      unfold wrap. exists ((bits1 ctx + y) / 2 ^ 32). rewrite Z.mod_eq by lia. lia.
    - assert (b0 = bits0 ctx + r - 2 ^ 32) as Hb.
      { rewrite Hb0. unfold wrap. symmetry. apply (Z.mod_unique_pos _ _ 1); lia. }
      exists 1. split; [lia|]. unfold b1', b1. rewrite (proj2 (Z.ltb_lt _ _)) by lia. rewrite E2. unfold wrap.
      rewrite Z.add_mod_idemp_l by lia. exists ((bits1 ctx + 1 + y) / 2 ^ 32). rewrite Z.mod_eq by lia. lia. }
  assert (0 <= b0 < 2 ^ 32 /\ 0 <= b1' < 2 ^ 32) by (split; apply wrap_range; lia).
  pose proof (Z.div_mod (8 * Z.of_nat (length m)) (2 ^ 64) ltac:(lia)) as Hdm. rewrite <- Hs in Hdm.
  apply (Z.mod_unique_pos _ _ (8 * Z.of_nat (length m) / 2 ^ 64 + k)); [|].
  - change (2 ^ 64) with (2 ^ 32 * 2 ^ 32). nia.
  - clearbody b0 b1' y r. lia.
Qed.

(** The context after the bytes [m]. *)
Definition represents (m : list Z) (ctx : MD5Context) : Prop :=
  counted m ctx /\ exists q done rest, absorbed q done rest ctx /\ m = done ++ rest.

Lemma represents_mod q done rest ctx :
  absorbed q done rest ctx -> (length (done ++ rest) mod 64 = length rest)%nat.
Proof.
  intros [H1 _ _ _ H5]. rewrite length_app, H1, Nat.mul_comm, Nat.add_comm.
  rewrite Nat.Div0.mod_add. by apply Nat.mod_small.
Qed.

Lemma init_ok garbage : length garbage = 64%nat -> represents [] (MD5Init garbage).
Proof. intros Hg. split; [done|]. exists 0%nat, [], []. split; [|done]. split; cbn; done || lia. Qed.

Lemma update_ok m data ctx :
  represents m ctx -> Z.of_nat (length data) < 2 ^ 32 ->
  exists ctx', MD5Update ctx data = Some ctx' /\ represents (m ++ data) ctx'.
Proof.
  intros (Hc & q & done & rest & Hab & ->) Hlen. unfold MD5Update.
  pose proof (count_update _ data ctx Hc Hlen) as Hc'. cbv zeta in Hc'.
  rewrite (count_low _ (length (done ++ rest))) by apply (counted_words _ _ Hc).
  rewrite (represents_mod _ _ _ _ Hab). destruct Hab as [H1 H2 H3 H4 H5].
  set (b0 := u32 (bits0 ctx + _)) in *. set (b1 := u32 (_ + Z.shiftr _ _)) in *.
  set (c1 := Context_ (buf ctx) b0 b1 (in_ ctx)).
  assert (forall q' done' d' c', length done' = (64 * q')%nat -> buf c' = Rfc.blocks q' Rfc.start done' ->
    length (in_ c') = 64%nat -> bits0 c' = b0 -> bits1 c' = b1 -> done' ++ d' = (done ++ rest) ++ data ->
    exists ctx', cloop (S (length d' / 64)) update_turn (c', d') = Some ctx' /\ represents ((done ++ rest) ++ data) ctx')
    as Hloop.
  { intros q' done' d' c' K1 K2 K3 K4 K5 K6.
    destruct (update_loop_ok q' done' d' c' K1 K2 K3) as (ctx' & q2 & done2 & rest2 & E & L1 & L2 & L3 & L4).
    exists ctx'. split; [done|]. rewrite <- K6, <- L2. split.
    - rewrite L2, K6. specialize (Hc' (buf ctx') (in_ ctx')). rewrite <- K4, <- L3, <- K5, <- L4 in Hc'.
      by destruct ctx'.
    - by exists q2, done2, rest2. }
  destruct (Nat.eqb_spec (length rest) 0) as [Hr|Hr].
  - apply nil_length_inv in Hr as ->. rewrite app_nil_r in *.
    apply (Hloop q done data c1); done.
  - destruct (Nat.ltb_spec (length data) (64 - length rest)) as [Hs|Hs].
    + destruct (mwrite_in (in_ c1) data (length rest)) as (l & E & L1 & L2 & _); [done|lia|].
      rewrite E. cbn [mbind option_bind]. eexists. split; [done|]. split; [apply Hc'|].
      exists q, done, (rest ++ data). split; [|by rewrite app_assoc].
      split; cbn [buf in_ with_in]; [done|done|done| |rewrite length_app; lia].
      rewrite length_app, L2. cbn [in_ c1]. by rewrite H4.
    + rewrite mread_ok, drop_0 by lia. cbn [mbind option_bind].
      destruct (mwrite_in (in_ c1) (take (64 - length rest) data) (length rest)) as (l & E & L1 & _ & L3);
        [done|rewrite length_take; lia|].
      rewrite E. cbn [mbind option_bind]. specialize (L3 ltac:(rewrite length_take; lia)).
      cbn [in_ c1] in L3. rewrite H4 in L3. subst l.
      replace (length data / 64)%nat with (length data / 64)%nat by done.
      assert (length (done ++ rest ++ take (64 - length rest) data) = (64 * S q)%nat) as Hd.
      { rewrite !length_app, length_take, H1. lia. }
      destruct (Hloop (S q) (done ++ rest ++ take (64 - length rest) data) (drop (64 - length rest) data)
        (transform (with_in (rest ++ take (64 - length rest) data) c1))) as (ctx' & E' & Hrep);
        [done|by apply (transform_ok q done (with_in _ c1))|done..| |].
      { rewrite <- !app_assoc. do 2 f_equal. by rewrite take_drop. }
      exists ctx'. split; [|done]. eapply cloop_mono; [exact E'|].
      rewrite length_drop. apply le_n_S, Nat.Div0.div_le_mono. lia.
Qed.

Lemma updates_ok chunks : forall m ctx,
  represents m ctx -> Forall (fun d => Z.of_nat (length d) < 2 ^ 32) chunks ->
  exists ctx', foldl (fun o d => c ← o; MD5Update c d) (Some ctx) chunks = Some ctx' /\
    represents (m ++ concat chunks) ctx'.
Proof.
  induction chunks as [|d chunks IH]; intros m ctx Hm Hall; cbn [foldl concat].
  - exists ctx. by rewrite app_nil_r.
  - apply Forall_cons in Hall as [Hd Hall]. cbn [mbind option_bind].
    destruct (update_ok m d ctx Hm Hd) as (c1 & -> & H1). rewrite app_assoc. by apply IH.
Qed.

(** The last block, or the last two. *)
Lemma bytes32_length x : length (bytes32 x) = 4%nat.
Proof. done. Qed.

Lemma final_block (l : list Z) b0 b1 :
  length l = 64%nat ->
  exists l1 l2, mwrite l 56 (bytes32 b0) = Some l1 /\ mwrite l1 60 (bytes32 b1) = Some l2 /\
    l2 = take 56 l ++ bytes32 b0 ++ bytes32 b1 /\ length l2 = 64%nat.
Proof.
  intros Hl. destruct (mwrite_in l (bytes32 b0) 56) as (l1 & E1 & L1 & T1 & _); [done|rewrite bytes32_length; lia|].
  destruct (mwrite_in l1 (bytes32 b1) 60) as (l2 & E2 & L2 & _ & T2); [done|rewrite bytes32_length; lia|].
  exists l1, l2. split; [done|]. split; [done|]. split; [|done].
  rewrite (T2 eq_refl). change 60%nat with (56 + length (bytes32 b0))%nat. by rewrite T1, <- app_assoc.
Qed.

Definition quad_bytes (r : quad) : list Z :=
  let '(a, b, c, d) := r in bytes32 a ++ bytes32 b ++ bytes32 c ++ bytes32 d.

Lemma final_ok m ctx :
  represents m ctx -> exists ctx', MD5Final ctx = Some (Rfc.digest m, ctx').
Proof.
  intros (Hc & q & done & rest & Hab & ->). unfold MD5Final.
  destruct (counted_words _ _ Hc) as [Hb0 Hb1].
  rewrite (count_low _ (length (done ++ rest))) by done.
  pose proof (represents_mod _ _ _ _ Hab) as Hmod. rewrite Hmod.
  destruct Hab as [H1 H2 H3 H4 H5]. set (p := length rest) in *.
  destruct (mwrite_in (in_ ctx) [0x80] p) as (l1 & E1 & L1 & T1 & _); [done|cbn; lia|].
  rewrite E1. cbn [mbind option_bind]. cbn [length] in T1. rewrite H4 in T1.
  set (tail1 := bytes32 (u32 (8 * Z.of_nat (length (done ++ rest)))) ++
    bytes32 (u32 (8 * Z.of_nat (length (done ++ rest)) / 2 ^ 32))).
  assert (forall q' done' c', length done' = (64 * q')%nat -> buf c' = Rfc.blocks q' Rfc.start done' ->
    length (in_ c') = 64%nat -> bits0 c' = bits0 ctx -> bits1 c' = bits1 ctx ->
    done' ++ take 56 (in_ c') ++ tail1 = (done ++ rest) ++ Rfc.padding (length (done ++ rest)) ->
    exists ctx', (l ← mwrite (in_ c') 56 (bytes32 (bits0 c'));
      l ← mwrite l 60 (bytes32 (bits1 c'));
      let ctx := transform (with_in l c') in
      let '(a, b, c, d) := buf ctx in
      Some (bytes32 a ++ bytes32 b ++ bytes32 c ++ bytes32 d,
        Context_ (0, b, c, d) (bits0 ctx) (bits1 ctx) (in_ ctx))) = Some (Rfc.digest (done ++ rest), ctx')) as Hend.
  { intros q' done' c' K1 K2 K3 K4 K5 K6.
    destruct (final_block (in_ c') (bits0 c') (bits1 c') K3) as (l2 & l3 & -> & E3 & E4 & L3).
    cbn [mbind option_bind]. rewrite E3. cbn [mbind option_bind].
    pose proof (transform_ok q' done' (with_in l3 c') K1 K2 L3) as Hbuf. cbn [in_ with_in] in Hbuf.
    assert (done' ++ l3 = (done ++ rest) ++ Rfc.padding (length (done ++ rest))) as Hpad
      by (rewrite E4, K4, K5, Hb0, Hb1; exact K6).
    rewrite Hpad in Hbuf. unfold Rfc.digest.
    assert (length ((done ++ rest) ++ Rfc.padding (length (done ++ rest))) / 64 = S q')%nat as Hn.
    { rewrite <- K6, !length_app, length_take, K1, K3. unfold tail1. rewrite length_app, !bytes32_length.
      replace (64 * q' + (56 `min` 64 + (4 + 4)))%nat with (S q' * 64)%nat by lia. by apply Nat.div_mul. }
    rewrite Hn, <- Hbuf. destruct (buf (transform (with_in l3 c'))) as [[[a b] c] d]. eauto. }
  unfold Rfc.padding in Hend. rewrite Hmod in Hend.
  destruct (Nat.ltb_spec (64 - 1 - p) 8) as [Hs|Hs].
  - destruct (mwrite_in l1 (replicate (64 - 1 - p) 0) (S p)) as (l2 & E2 & L2 & _ & T2);
      [done|rewrite length_replicate; lia|]. rewrite E2. cbn [mbind option_bind].
    specialize (T2 ltac:(rewrite length_replicate; lia)).
    replace (S p) with (p + 1)%nat in T2 by lia. rewrite T1 in T2.
    destruct (mwrite_in (in_ (transform (with_in l2 ctx))) (replicate 56 0) 0) as (l3 & E3 & L3 & T3 & _);
      [done|rewrite length_replicate; lia|]. rewrite E3. cbn [mbind option_bind].
    apply (Hend (S q) (done ++ l2) (with_in l3 (transform (with_in l2 ctx)))).
    + rewrite length_app, L2, H1. lia.
    + by apply (transform_ok q done (with_in l2 ctx)).
    + done.
    + done.
    + done.
    + cbn [in_ with_in]. rewrite length_replicate in T3. cbn [Nat.add take app] in T3. rewrite T3, T2.
      assert ((55 + 64 - p) mod 64 = 64 - 1 - p + 56)%nat as -> by (rewrite Nat.mod_small by lia; lia).
      rewrite replicate_add, <- !app_assoc. done.
  - destruct (mwrite_in l1 (replicate (64 - 1 - p - 8) 0) (S p)) as (l2 & E2 & L2 & T2 & _);
      [done|rewrite length_replicate; lia|]. rewrite E2. cbn [mbind option_bind].
    rewrite length_replicate in T2. replace (S p + (64 - 1 - p - 8))%nat with 56%nat in T2 by lia.
    replace (S p) with (p + 1)%nat in T2 by lia. rewrite T1 in T2.
    apply (Hend q done (with_in l2 ctx)); [done..|].
    cbn [in_ with_in]. rewrite T2.
    assert ((55 + 64 - p) mod 64 = 64 - 1 - p - 8)%nat as ->.
    { replace (55 + 64 - p)%nat with (55 - p + 1 * 64)%nat by lia. rewrite Nat.Div0.mod_add.
      rewrite Nat.mod_small by lia. lia. }
    rewrite <- !app_assoc. done.
Qed.

(** ** The types *)

Definition bytes (l : list Z) : Prop := Forall (fun b => 0 <= b < 256) l.
Definition words (r : quad) : Prop :=
  let '(a, b, c, d) := r in 0 <= a < 2 ^ 32 /\ 0 <= b < 2 ^ 32 /\ 0 <= c < 2 ^ 32 /\ 0 <= d < 2 ^ 32.

Record ctx_ok (ctx : MD5Context) : Prop := CtxOk {
  ok_buf : words (buf ctx);
  ok_bits0 : 0 <= bits0 ctx < 2 ^ 32;
  ok_bits1 : 0 <= bits1 ctx < 2 ^ 32;
  ok_in : bytes (in_ ctx);
  ok_len : length (in_ ctx) = 64%nat
}.

Lemma bytes_bytes32 x : bytes (bytes32 x).
Proof. unfold bytes, bytes32. repeat constructor; apply (wrap_range 8); lia. Qed.

Lemma transform_words b block : words (MD5Transform b block).
Proof.
  rewrite transform_rfc. with_strategy transparent [Rfc.compress] unfold Rfc.compress.
  destruct b as [[[a b] c] d]. destruct (foldl _ _ _) as [[[a' b'] c'] d'].
  cbn [words]. split_and!; apply wrap_range; lia.
Qed.

Lemma transform_ctx_ok ctx : ctx_ok ctx -> ctx_ok (transform ctx).
Proof. intros []. split; cbn; try done. apply transform_words. Qed.

(** Storing bytes in the block that fit in it. *)
Lemma data_store_ok ctx p bs :
  ctx_ok ctx -> bytes bs -> (p + length bs <= 64)%nat ->
  exists l, mwrite (in_ ctx) p bs = Some l /\ ctx_ok (with_in l ctx).
Proof.
  intros [H1 H2 H3 H4 H5] Hbs Hp. rewrite mwrite_ok by lia. eexists. split; [done|]. split; cbn; try done.
  - unfold bytes in *. by repeat first [apply Forall_app_2|apply Forall_take|apply Forall_drop].
  - rewrite !length_app, length_take, length_drop. lia.
Qed.

Lemma update_turn_ok ctx data :
  ctx_ok ctx -> bytes data ->
  turn (fun x => ctx_ok x.1 /\ bytes x.2) (fun x => length x.2 / 64)%nat ctx_ok (ctx, data) (update_turn (ctx, data)).
Proof.
  intros Hc Hd. unfold update_turn. destruct (Nat.leb_spec 64 (length data)) as [Hl|Hl].
  - rewrite mread_ok, drop_0 by lia. cbn [mbind option_bind].
    destruct (data_store_ok ctx 0 (take 64 data)) as (l & -> & Hok);
      [done|by apply Forall_take|rewrite length_take; lia|].
    cbn [mbind option_bind turn fst snd]. split; [split; [by apply transform_ctx_ok|by apply Forall_drop]|].
    rewrite length_drop. assert (length data / 64 = (length data - 64) / 64 + 1)%nat; [|lia].
    rewrite <- (Nat.div_add _ 1 64) by lia. f_equal. lia.
  - destruct (data_store_ok ctx 0 data) as (l & -> & Hok); [done|done|lia|]. done.
Qed.

Lemma update_loop_types ctx data fuel :
  ctx_ok ctx -> bytes data -> (length data / 64 < fuel)%nat ->
  exists ctx', cloop fuel update_turn (ctx, data) = Some ctx' /\ ctx_ok ctx'.
Proof.
  intros Hc Hd Hf.
  apply (cloop_total (fun x => ctx_ok x.1 /\ bytes x.2) (fun x => length x.2 / 64)%nat); [|done|done].
  intros [c d] [H1 H2]. by apply update_turn_ok.
Qed.

Lemma count_range b : (Z.to_nat (Z.land (Z.shiftr b 3) 0x3f) < 64)%nat.
Proof.
  change 0x3f with (Z.ones 6). rewrite Z.land_ones by lia.
  pose proof (Z.mod_pos_bound (Z.shiftr b 3) (2 ^ 6) ltac:(lia)). lia.
Qed.

Lemma update_types ctx data :
  ctx_ok ctx -> bytes data -> exists ctx', MD5Update ctx data = Some ctx' /\ ctx_ok ctx'.
Proof.
  intros [H1 H2 H3 H4 H5] Hd. unfold MD5Update. cbv zeta.
  match goal with |- context [with_in _ ?c] => set (c1 := c) end.
  assert (ctx_ok c1) as Hc1 by (split; cbn; [done|apply wrap_range; lia|apply wrap_range; lia|done|done]).
  change (in_ ctx) with (in_ c1). pose proof (count_range (bits0 ctx)) as Ht. set (t := Z.to_nat _) in *.
  destruct (t =? 0)%nat; [apply update_loop_types; [done|done|lia]|].
  destruct (Nat.ltb_spec (length data) (64 - t)) as [Hs|Hs].
  - destruct (data_store_ok c1 t data) as (l & -> & Hok); [done|done|lia|]. by exists (with_in l c1).
  - rewrite mread_ok, drop_0 by lia. cbn [mbind option_bind].
    destruct (data_store_ok c1 t (take (64 - t) data)) as (l & -> & Hok);
      [done|by apply Forall_take|rewrite length_take; lia|].
    cbn [mbind option_bind]. apply update_loop_types; [by apply transform_ctx_ok|by apply Forall_drop|].
    rewrite length_drop. apply Nat.lt_succ_r, Nat.Div0.div_le_mono. lia.
Qed.

Lemma final_types ctx :
  ctx_ok ctx -> exists digest ctx', MD5Final ctx = Some (digest, ctx') /\
    length digest = 16%nat /\ bytes digest /\ ctx_ok ctx'.
Proof.
  intros Hc. unfold MD5Final. cbv zeta. pose proof (count_range (bits0 ctx)) as Ht. set (t := Z.to_nat _) in *.
  assert (forall n, bytes (replicate n 0)) as Hz by (intros; apply Forall_replicate; lia).
  destruct (data_store_ok ctx t [0x80]) as (l & -> & H1); [done|repeat constructor; lia|cbn; lia|].
  cbn [mbind option_bind].
  set (mid := if (_ <? _)%nat then _ else _).
  assert (exists c2, mid = Some c2 /\ ctx_ok c2) as (c2 & -> & H2).
  { unfold mid. destruct (Nat.ltb_spec (64 - 1 - t) 8).
    - destruct (data_store_ok (with_in l ctx) (S t) (replicate (64 - 1 - t) 0)) as (l2 & E2 & H2);
        [done|done|rewrite length_replicate; lia|]. cbn [in_ with_in] in E2. rewrite E2. cbn [mbind option_bind].
      apply transform_ctx_ok in H2.
      destruct (data_store_ok _ 0 (replicate 56 0) H2) as (l3 & E3 & H3); [done|rewrite length_replicate; lia|].
      change (with_in l2 (with_in l ctx)) with (with_in l2 ctx) in *. rewrite E3. by eexists.
    - destruct (data_store_ok (with_in l ctx) (S t) (replicate (64 - 1 - t - 8) 0)) as (l2 & E2 & H2);
        [done|done|rewrite length_replicate; lia|]. cbn [in_ with_in] in E2. rewrite E2. by eexists. }
  cbn [mbind option_bind].
  destruct (data_store_ok c2 56 (bytes32 (bits0 c2))) as (l3 & -> & H3); [done|apply bytes_bytes32|rewrite bytes32_length; lia|].
  cbn [mbind option_bind].
  destruct (data_store_ok (with_in l3 c2) 60 (bytes32 (bits1 c2))) as (l4 & E4 & H4);
    [done|apply bytes_bytes32|rewrite bytes32_length; lia|].
  cbn [in_ with_in] in E4. rewrite E4. cbn [mbind option_bind].
  change (with_in l4 (with_in l3 c2)) with (with_in l4 c2) in H4.
  apply transform_ctx_ok in H4. destruct H4 as [K1 K2 K3 K4 K5].
  destruct (buf (transform (with_in l4 c2))) as [[[a b] c] d]. eexists _, _. split; [done|]. split; [done|].
  split; [unfold bytes; repeat apply Forall_app_2; apply bytes_bytes32|].
  split; try done. cbn in K1 |- *. intuition lia.
Qed.

(** ** Theorems *)

(** C31: Any series of updates, each of less than 2^32 bytes, followed by
    [MD5Final] returns the MD5 digest of RFC 1321 of the bytes concatenated; no
    access leaves the context. *)
Theorem md5_correct (garbage : list Z) (chunks : list (list Z))
    (Hg : length garbage = 64%nat) (Hc : Forall (fun d => Z.of_nat (length d) < 2 ^ 32) chunks) :
  exists ctx ctx', foldl (fun o d => c ← o; MD5Update c d) (Some (MD5Init garbage)) chunks = Some ctx /\
    MD5Final ctx = Some (Rfc.digest (concat chunks), ctx').
Proof.
  destruct (updates_ok chunks [] (MD5Init garbage) (init_ok garbage Hg) Hc) as (ctx & E & Hr).
  destruct (final_ok _ ctx Hr) as (ctx' & E'). exists ctx, ctx'. by split.
Qed.

(** "message digest" in two pieces. *)
Lemma md5_correct_witness :
  exists ctx ctx', (c ← MD5Update (MD5Init (replicate 64 7)) [109; 101; 115; 115; 97; 103; 101];
      MD5Update c [32; 100; 105; 103; 101; 115; 116]) = Some ctx /\
    MD5Final ctx = Some ([249; 107; 105; 125; 124; 183; 147; 141; 82; 90; 47; 49; 170; 241; 97; 208], ctx').
Proof.
  destruct (md5_correct (replicate 64 7) [[109; 101; 115; 115; 97; 103; 101]; [32; 100; 105; 103; 101; 115; 116]])
    as (ctx & ctx' & E & E'); [reflexivity|repeat constructor|].
  exists ctx, ctx'. split; [exact E|]. rewrite E'. vm_compute (Rfc.digest _). reflexivity.
Defined.

(** The operations keep the types of the context: four words and the counters
    of 32 bits and 64 bytes, for input of any length; the digest is 16 bytes. *)
Theorem md5_types (garbage data : list Z) (ctx : MD5Context)
    (Hg : bytes garbage /\ length garbage = 64%nat) (Hctx : ctx_ok ctx) (Hd : bytes data) :
  ctx_ok (MD5Init garbage) /\
  (exists ctx', MD5Update ctx data = Some ctx' /\ ctx_ok ctx') /\
  (exists digest ctx', MD5Final ctx = Some (digest, ctx') /\ length digest = 16%nat /\ bytes digest /\ ctx_ok ctx').
Proof.
  split_and!; [|by apply update_types|by apply final_types].
  destruct Hg. split; cbn; try done; lia.
Qed.

Lemma md5_types_witness :
  let ctx := Context_ (1, 2, 3, 4294967295) 4294967288 4294967295 (replicate 64 255) in
  exists ctx', MD5Update ctx [255; 0; 1] = Some ctx' /\ ctx_ok ctx'.
Proof.
  intros ctx.
  assert (bytes (replicate 64 255)) as Hb by (apply Forall_replicate; lia).
  destruct (md5_types (replicate 64 255) [255; 0; 1] ctx) as (_ & H & _).
  - split; [exact Hb|reflexivity].
  - split; cbn; [lia..|exact Hb|reflexivity].
  - repeat constructor; lia.
  - exact H.
Defined.
