(* ===== verification/Utf8.v ===== *)
(** Text conversion: [minidownloader/encode.c] and its copy in
    [libbt/misc/http_client.c], with [http_uri_encode].

    Both directions are loops over pointers with the amounts left kept in
    [size_t]s of 32 bits.  The input is the list from the pointer on, the output
    an array with the position of the pointer. *)
From S2P Require Import Prelude.
Local Open Scope Z_scope.

(** The pointers and the amounts left. *)
Record conv := Conv { inp : list Z; in_left : Z; out : list Z; pos : nat; out_left : Z }.

Definition uncons (l : list Z) : option (Z * list Z) :=
  match l with [] => None | x :: l => Some (x, l) end.

(** [*(out++) = x] *)
Definition put (x : Z) (o : list Z * nat) : option (list Z * nat) :=
  l ← awrite o.1 o.2 x; Some (l, S o.2).

(** ** [conv_utf8_to_ucs2] *)

(** The mask of the leading bits and the number of bytes that follow. *)
Definition lead_turn (ch : Z) (x : Z * Z) : option ((Z * Z) + option (Z * Z)) :=
  let '(mask, expect) := x in
  if Z.land ch mask =? mask then
    let mask := Z.lor mask (Z.shiftr mask 1) in
    let expect := expect + 1 in
    if expect >? 3 then Some (inr None) else Some (inl (mask, expect))
  else Some (inr (Some (mask, expect))).

Definition lead (ch : Z) : option (option (Z * Z)) := cloop 4 (lead_turn ch) (0xe0, 1).

(** The checks of overlong forms, surrogates and the range; [true] is an error. *)
Definition bad_lead (mask expect newch : Z) (l : list Z) : option bool :=
  if expect =? 1 then Some (Z.land newch 0x1e =? 0)
  else
    '(c, _) ← uncons l;
    if (newch =? 0) && (Z.land (Z.land c 0x3f) (Z.shiftl mask 1) =? 0) then Some true
    else if expect =? 2 then Some ((newch =? 0xd) && negb (Z.land c 0x20 =? 0))
    else if expect =? 3 then
      if newch >? 4 then Some true else Some ((newch =? 4) && negb (Z.land c 0x30 =? 0))
    else Some false.

(** The continuation bytes; [None] inside is the return of -1. *)
Fixpoint continuation (n : nat) (newch : Z) (l : list Z) : option (option (Z * list Z)) :=
  match n with
  | O => Some (Some (newch, l))
  | S n =>
      '(c, l) ← uncons l;
      if negb (Z.land c 0xc0 =? 0x80) then Some None
      else continuation n (Z.lor (Z.shiftl newch 6) (Z.land c 0x3f)) l
  end.

(** A turn goes on, or returns a code with the amounts left. *)
Definition utf8_turn (s : conv) : option (conv + Z * conv) :=
  if (in_left s =? 0) || (out_left s =? 0) then Some (inr (0, s))
  else
    '(ch, l) ← uncons (inp s);
    if Z.land ch 0x80 =? 0 then
      o ← put ch (out s, pos s);
      Some (inl (Conv l (u32 (in_left s - 1)) o.1 o.2 (u32 (out_left s - 1))))
    else if negb (Z.land ch 0xc0 =? 0xc0) then Some (inr (-1, s))
    else
      r ← lead ch;
      match r with
      | None => Some (inr (-1, s))
      | Some (mask, expect) =>
          let newch := Z.land ch (Z.lnot mask) in
          let eating := expect + 1 in
          if in_left s <=? expect then Some (inr (-1, s))
          else
            bad ← bad_lead mask expect newch l;
            if bad : bool then Some (inr (-1, s))
            else if out_left s <? (if expect >? 2 then 1 else 0) + 1 then Some (inr (0, s))
            else
              r ← continuation (Z.to_nat expect) newch l;
              match r with
              | None => Some (inr (-1, s))
              | Some (newch, l) =>
                  let n := u32 (in_left s - eating) in
                  if newch <? 0x10000 then
                    o ← put (u16 newch) (out s, pos s);
                    Some (inl (Conv l n o.1 o.2 (u32 (out_left s - 1))))
                  else
                    let newch := newch - 0x10000 in
                    o ← put (u16 (Z.lor 0xd800 (Z.shiftr newch 10))) (out s, pos s);
                    o ← put (u16 (Z.lor 0xdc00 (Z.land newch 0x3ff))) o;
                    Some (inl (Conv l n o.1 o.2 (u32 (out_left s - 2))))
              end
      end.

(** The loop ends because each turn reads a byte. *)
Definition conv_utf8_to_ucs2 (s : conv) : option (Z * conv) :=
  cloop (S (length (inp s))) utf8_turn s.

(** ** [conv_ucs2_to_utf8] *)

(** [need] counts the groups of five bits above the low eleven. *)
Definition need_of (newch : Z) : option Z :=
  cloop 5 (fun '(require, need) =>
    if require =? 0 then Some (inr need) else Some (inl (Z.shiftr require 5, need + 1)))
    (Z.shiftr newch 11, 1).

(** The bytes are written from the last one back; [inv] is the pointer. *)
Fixpoint put_back (need : nat) (inv : nat) (ch newch : Z) (o : list Z) : option (list Z) :=
  match need with
  | O => awrite o (inv - 1) (u8 (Z.lor ch newch))
  | S need =>
      let ch := Z.lor ch (Z.shiftr ch 1) in
      o ← awrite o (inv - 1) (u8 (Z.lor 0x80 (Z.land newch 0x3f)));
      put_back need (inv - 1) ch (Z.shiftr newch 6) o
  end.

(** The code point and the input behind it; [None] inside is the return of -1. *)
Definition ucs2_char (ch : Z) (l : list Z) (in_left : Z) : option (option (Z * list Z)) :=
  if Z.land ch 0xfc00 =? 0xdc00 then Some None
  else if Z.land ch 0xfc00 =? 0xd800 then
    if in_left <? 2 then Some None
    else
      '(c, l) ← uncons l;
      if negb (Z.land c 0xfc00 =? 0xdc00) then Some None
      else Some (Some (Z.lor (Z.shiftl (Z.land ch 0x3ff) 10) (Z.land c 0x3ff) + 0x10000, l))
  else Some (Some (ch, l)).

Definition ucs2_turn (s : conv) : option (conv + Z * conv) :=
  if in_left s =? 0 then Some (inr (0, s))
  else
    '(ch, l) ← uncons (inp s);
    if ch <? 0x80 then
      o ← put (u8 ch) (out s, pos s);
      Some (inl (Conv l (u32 (in_left s - 1)) o.1 o.2 (u32 (out_left s - 1))))
    else
      r ← ucs2_char ch l (in_left s);
      match r with
      | None => Some (inr (-1, s))
      | Some (newch, l) =>
          need ← need_of newch;
          if need >=? out_left s then Some (inr (0, s))
          else
            let p := (pos s + Z.to_nat need + 1)%nat in
            o ← put_back (Z.to_nat need) p 0x80 newch (out s);
            Some (inl (Conv l (u32 (in_left s - ((if need >? 2 then 1 else 0) + 1))) o p
                         (u32 (out_left s - (need + 1)))))
      end.

Definition conv_ucs2_to_utf8 (s : conv) : option (Z * conv) :=
  cloop (S (length (inp s))) ucs2_turn s.

(** ** The reference: code points *)

(** A Unicode scalar value: a code point that is no surrogate. *)
Definition scalar (cp : Z) : Prop := 0 <= cp < 0xd800 \/ 0xe000 <= cp < 0x110000.

Definition utf8 (cp : Z) : list Z :=
  if cp <? 0x80 then [cp]
  else if cp <? 0x800 then [0xc0 + cp / 64; 0x80 + cp mod 64]
  else if cp <? 0x10000 then [0xe0 + cp / 4096; 0x80 + cp / 64 mod 64; 0x80 + cp mod 64]
  else [0xf0 + cp / 262144; 0x80 + cp / 4096 mod 64; 0x80 + cp / 64 mod 64; 0x80 + cp mod 64].

Definition utf16 (cp : Z) : list Z :=
  if cp <? 0x10000 then [cp] else [0xd800 + (cp - 0x10000) / 1024; 0xdc00 + (cp - 0x10000) mod 1024].

Definition utf8s (cps : list Z) : list Z := concat (map utf8 cps).
Definition utf16s (cps : list Z) : list Z := concat (map utf16 cps).

(** ** Bytes *)

(** A fact of single bytes is checked on each of them. *)
Lemma byte_ind (P : Z -> bool) :
  forallb (fun n => P (Z.of_nat n)) (seq 0 256) = true -> forall c, 0 <= c < 256 -> P c = true.
Proof.
  intros H c Hc. rewrite forallb_forall in H. specialize (H (Z.to_nat c)).
  rewrite Z2Nat.id in H by lia. apply H. apply in_seq. lia.
Qed.

Definition cont (c : Z) : bool := (0x80 <=? c) && (c <? 0xc0).

Lemma byte_high c : 0 <= c < 256 -> (Z.land c 0x80 =? 0) = (c <? 0x80).
Proof. intros Hc. apply eqb_prop. revert c Hc. apply byte_ind. reflexivity. Qed.

Lemma byte_two c : 0 <= c < 256 -> (Z.land c 0xc0 =? 0xc0) = (0xc0 <=? c).
Proof. intros Hc. apply eqb_prop. revert c Hc. apply byte_ind. reflexivity. Qed.

Lemma byte_cont c : 0 <= c < 256 -> (Z.land c 0xc0 =? 0x80) = cont c.
Proof. intros Hc. apply eqb_prop. revert c Hc. apply byte_ind. reflexivity. Qed.

Lemma byte_lead c : 0xc0 <= c < 256 ->
  lead c = Some (if c <? 0xe0 then Some (0xe0, 1) else if c <? 0xf0 then Some (0xf0, 2)
                 else if c <? 0xf8 then Some (0xf8, 3) else None).
Proof.
  intros Hc.
  assert (forall c, 0 <= c < 256 -> (c <? 0xc0) || bool_decide (lead c = Some (if c <? 0xe0 then Some (0xe0, 1)
    else if c <? 0xf0 then Some (0xf0, 2) else if c <? 0xf8 then Some (0xf8, 3) else None)) = true) as H
    by (apply byte_ind; reflexivity).
  specialize (H c ltac:(lia)). rewrite (proj2 (Z.ltb_ge c 0xc0)) in H by lia. by apply bool_decide_eq_true in H.
Qed.

Lemma byte_payload c : 0xc0 <= c < 0xf8 ->
  (c < 0xe0 -> Z.land c (Z.lnot 0xe0) = c - 0xc0) /\
  (0xe0 <= c < 0xf0 -> Z.land c (Z.lnot 0xf0) = c - 0xe0) /\
  (0xf0 <= c -> Z.land c (Z.lnot 0xf8) = c - 0xf0).
Proof.
  intros Hc.
  assert (forall c, 0 <= c < 256 -> (c <? 0xc0) || (0xf8 <=? c) ||
    ((negb (c <? 0xe0) || (Z.land c (Z.lnot 0xe0) =? c - 0xc0)) &&
     (negb ((0xe0 <=? c) && (c <? 0xf0)) || (Z.land c (Z.lnot 0xf0) =? c - 0xe0)) &&
     (negb (0xf0 <=? c) || (Z.land c (Z.lnot 0xf8) =? c - 0xf0))) = true) as H
    by (apply byte_ind; reflexivity).
  specialize (H c ltac:(lia)). lia.
Qed.

(** The bits the checks look at, in a continuation byte. *)
Lemma byte_checks c : 0 <= c < 256 -> cont c = true ->
  (Z.land (Z.land c 0x3f) (Z.shiftl 0xf0 1) =? 0) = (c <? 0xa0) /\
  (Z.land (Z.land c 0x3f) (Z.shiftl 0xf8 1) =? 0) = (c <? 0x90) /\
  (Z.land c 0x20 =? 0) = (c <? 0xa0) /\ (Z.land c 0x30 =? 0) = (c <? 0x90).
Proof.
  intros Hc Hcont.
  assert (forall c, 0 <= c < 256 -> negb (cont c) ||
    (Bool.eqb (Z.land (Z.land c 0x3f) (Z.shiftl 0xf0 1) =? 0) (c <? 0xa0) &&
     Bool.eqb (Z.land (Z.land c 0x3f) (Z.shiftl 0xf8 1) =? 0) (c <? 0x90) &&
     Bool.eqb (Z.land c 0x20 =? 0) (c <? 0xa0) && Bool.eqb (Z.land c 0x30 =? 0) (c <? 0x90)) = true) as H
    by (apply byte_ind; reflexivity).
  specialize (H c Hc). rewrite Hcont in H. cbn [negb orb] in H.
  apply andb_prop in H as [[[H1 H2]%andb_prop H3]%andb_prop H4].
  split_and!; by apply eqb_prop.
Qed.

Lemma join6 a c : 0 <= c < 256 -> cont c = true -> Z.lor (Z.shiftl a 6) (Z.land c 0x3f) = a * 64 + (c - 0x80).
Proof.
  intros Hc Hcont. change 0x3f with (Z.ones 6). rewrite Z.land_ones by lia.
  pose proof (Z.mod_pos_bound c (2 ^ 6) ltac:(lia)). rewrite lor_shift by lia.
  unfold cont in Hcont. assert (c mod 2 ^ 6 = c - 0x80); [|lia].
  symmetry. apply (Z.mod_unique_pos _ _ 2); lia.
Qed.

(** The continuation loop in arithmetic. *)
Lemma continuation_cons n newch c l :
  0 <= c < 256 ->
  continuation (S n) newch (c :: l) =
    if cont c then continuation n (newch * 64 + (c - 0x80)) l else Some None.
Proof.
  intros Hc. cbn [continuation uncons mbind option_bind]. rewrite byte_cont by done.
  destruct (cont c) eqn:E; [|done]. cbn [negb]. by rewrite join6.
Qed.

(** ** States of a conversion: [w] has been written, [g] is what follows *)

Definition at_ (l : list Z) (w g : list Z) (m : Z) : conv :=
  Conv l (Z.of_nat (length l)) (w ++ g) (length w) m.

Lemma awrite_app (w g : list Z) k x :
  (k < length g)%nat -> awrite (w ++ g) (length w + k) x = Some (w ++ <[k := x]> g).
Proof. intros Hk. rewrite awrite_ok by (rewrite length_app; lia). by rewrite insert_app_r. Qed.

Lemma put_app x w y g : put x (w ++ y :: g, length w) = Some ((w ++ [x]) ++ g, length (w ++ [x])).
Proof.
  unfold put. cbn [fst snd]. rewrite <- (Nat.add_0_r (length w)), awrite_app by (cbn; lia).
  cbn [mbind option_bind]. rewrite length_app, <- app_assoc. do 2 f_equal. cbn. lia.
Qed.

(** One turn reads one character or refuses. *)
Definition good_turn (enc_in enc_out : Z -> list Z) (l w g : list Z) (m : Z) (r : option (conv + Z * conv)) : Prop :=
  (exists cp l', scalar cp /\ l = enc_in cp ++ l' /\
     r = Some (inl (at_ l' (w ++ enc_out cp) (drop (length (enc_out cp)) g) (m - Z.of_nat (length (enc_out cp)))))) \/
  (r = Some (inr (-1, at_ l w g m)) /\ forall cp l', scalar cp -> l <> enc_in cp ++ l').

(** ** Decoding UTF-8 *)

Ltac divmod := Z.to_euclidean_division_equations; lia.

(** No code point has an encoding that the input starts with: each form of the
    encoding is compared byte by byte. *)
Ltac no_char :=
  let cp := fresh "cp" in let l' := fresh "l'" in let Hsc := fresh "Hsc" in let E := fresh "E" in
  intros cp l' Hsc E; unfold utf8 in E; unfold cont, scalar in *;
  destruct (Z.ltb_spec cp 0x80); [|destruct (Z.ltb_spec cp 0x800); [|destruct (Z.ltb_spec cp 0x10000)]];
  simplify_eq/=; divmod.

(** Equality of two encodings, byte by byte. *)
Ltac bytes_eq := cbn [app]; repeat first [reflexivity | apply (f_equal2 cons); [divmod|]].

Section Decode.
Context (w g : list Z) (m : Z).

Definition room (l : list Z) : Prop := (length l <= length g)%nat /\ Z.of_nat (length l) <= m < 2 ^ 32.

Lemma emit newch l' n :
  (2 <= length g)%nat -> 2 <= m < 2 ^ 32 -> n = Z.of_nat (length l') -> 0 <= newch < 0x110000 ->
  (if newch <? 0x10000 then
     o ← put (u16 newch) (w ++ g, length w);
     Some (inl (Conv l' n o.1 o.2 (u32 (m - 1))))
   else
     o ← put (u16 (Z.lor 0xd800 (Z.shiftr (newch - 0x10000) 10))) (w ++ g, length w);
     o ← put (u16 (Z.lor 0xdc00 (Z.land (newch - 0x10000) 0x3ff))) o;
     Some (inl (Conv l' n o.1 o.2 (u32 (m - 2))))) =
  Some (inl (at_ l' (w ++ utf16 newch) (drop (length (utf16 newch)) g) (m - Z.of_nat (length (utf16 newch)))))
  :> option (conv + Z * conv).
Proof.
  intros Hg Hm -> Hn. unfold utf16. destruct g as [|y1 [|y2 g']]; [cbn in Hg; lia..|].
  destruct (Z.ltb_spec newch 0x10000).
  - rewrite (wrap_small 16), put_app by lia. cbn [mbind option_bind fst snd].
    by rewrite (wrap_small 32) by lia.
  - set (x := newch - 0x10000).
    rewrite Z.shiftr_div_pow2 by lia. change 0x3ff with (Z.ones 10). rewrite Z.land_ones by lia.
    change (2 ^ 10) with 1024.
    change 0xd800 with (Z.shiftl 0x36 10) at 1. change 0xdc00 with (Z.shiftl 0x37 10) at 1.
    rewrite !lor_shift by (unfold x; try divmod). rewrite !(wrap_small 16) by (unfold x; divmod).
    rewrite put_app. cbn [mbind option_bind]. rewrite put_app. cbn [mbind option_bind fst snd].
    rewrite (wrap_small 32) by lia. unfold at_. cbn [length drop]. by rewrite <- !app_assoc.
Qed.

Notation good := (good_turn utf8 utf16).

Lemma turn_ascii c l :
  0 <= c < 0x80 -> room (c :: l) ->
  good (c :: l) w g m (utf8_turn (at_ (c :: l) w g m)).
Proof.
  intros Hc [Hg Hm]. cbn [length] in Hg, Hm. left. exists c, l. unfold utf8, utf16, utf8_turn, at_. cbn [in_left out_left inp out pos uncons].
  destruct g as [|y g']; [cbn in Hg; lia|]. 
  rewrite (proj2 (Z.eqb_neq _ 0)) by (cbn; lia). rewrite (proj2 (Z.eqb_neq m 0)) by lia. cbn [orb mbind option_bind].
  rewrite byte_high, !(proj2 (Z.ltb_lt _ _)) by lia. rewrite put_app. cbn [mbind option_bind fst snd length drop].
  split; [unfold scalar; lia|]. split; [done|]. rewrite !(wrap_small 32) by lia. do 3 f_equal; lia.
Qed.

Lemma turn_refused c l : 0x80 <= c < 0xc0 -> room (c :: l) -> good (c :: l) w g m (utf8_turn (at_ (c :: l) w g m)).
Proof.
  intros Hc [Hg Hm]. cbn [length] in Hg, Hm. right. split; [|clear Hm; no_char]. unfold utf8_turn, at_. cbn [in_left out_left inp uncons].
  rewrite (proj2 (Z.eqb_neq _ 0)) by (cbn; lia). rewrite (proj2 (Z.eqb_neq m 0)) by lia. cbn [orb mbind option_bind].
  rewrite byte_high, byte_two by lia. rewrite (proj2 (Z.ltb_ge c _)), (proj2 (Z.leb_gt _ c)) by lia. done.
Qed.

(** A byte that starts a longer character. *)
Lemma turn_lead c l :
  0xc0 <= c < 256 -> room (c :: l) ->
  utf8_turn (at_ (c :: l) w g m) =
  match (if c <? 0xe0 then Some (0xe0, 1) else if c <? 0xf0 then Some (0xf0, 2)
         else if c <? 0xf8 then Some (0xf8, 3) else None) with
  | None => Some (inr (-1, at_ (c :: l) w g m))
  | Some (mask, expect) =>
      if Z.of_nat (length l) <? expect then Some (inr (-1, at_ (c :: l) w g m))
      else
        bad ← bad_lead mask expect (Z.land c (Z.lnot mask)) l;
        if bad : bool then Some (inr (-1, at_ (c :: l) w g m))
        else
          r ← continuation (Z.to_nat expect) (Z.land c (Z.lnot mask)) l;
          match r with
          | None => Some (inr (-1, at_ (c :: l) w g m))
          | Some (newch, l') =>
              if newch <? 0x10000 then
                o ← put (u16 newch) (w ++ g, length w);
                Some (inl (Conv l' (Z.of_nat (length l) - expect) o.1 o.2 (u32 (m - 1))))
              else
                o ← put (u16 (Z.lor 0xd800 (Z.shiftr (newch - 0x10000) 10))) (w ++ g, length w);
                o ← put (u16 (Z.lor 0xdc00 (Z.land (newch - 0x10000) 0x3ff))) o;
                Some (inl (Conv l' (Z.of_nat (length l) - expect) o.1 o.2 (u32 (m - 2))))
          end
  end.
Proof.
  intros Hc [Hg Hm]. cbn [length] in Hg, Hm. unfold utf8_turn, at_. cbn [in_left out_left inp out pos uncons].
  cbn [length].
  rewrite (proj2 (Z.eqb_neq _ 0)) by lia. rewrite (proj2 (Z.eqb_neq m 0)) by lia. cbn [orb mbind option_bind].
  rewrite byte_high, byte_two, byte_lead by lia. rewrite (proj2 (Z.ltb_ge c 0x80)), (proj2 (Z.leb_le _ c)) by lia.
  cbn [negb mbind option_bind].
  assert (forall expect, 1 <= expect <= 3 ->
    (Z.of_nat (S (length l)) <=? expect) = (Z.of_nat (length l) <? expect) /\
    (expect <= Z.of_nat (length l) -> (m <? (if expect >? 2 then 1 else 0) + 1) = false) /\
    (expect <= Z.of_nat (length l) -> u32 (Z.of_nat (S (length l)) - (expect + 1)) = Z.of_nat (length l) - expect)) as Hamount.
  { intros expect He. split; [apply Bool.eq_iff_eq_true; rewrite Z.leb_le, Z.ltb_lt; lia|]. split; [intros; destruct (expect >? 2); lia|].
    intros Hle. rewrite wrap_small by lia. lia. }
  destruct (if c <? 0xe0 then _ else _) as [[mask expect]|] eqn:E; [|done].
  assert (1 <= expect <= 3) as He by (repeat case_match; simplify_eq; lia).
  destruct (Hamount expect He) as (-> & Hlt & Hn).
  destruct (Z.ltb_spec (Z.of_nat (length l)) expect); [done|]. by rewrite Hlt, Hn by done.
Qed.

Lemma turn_two c l :
  0xc0 <= c < 0xe0 -> Forall (fun b => 0 <= b < 256) l -> room (c :: l) ->
  good (c :: l) w g m (utf8_turn (at_ (c :: l) w g m)).
Proof.
  intros Hc Hb Hroom. rewrite turn_lead by (done || lia). destruct Hroom as [Hg Hm]. rewrite (proj2 (Z.ltb_lt c 0xe0)) by lia.
  destruct l as [|c1 l]; [right; split; [done|]; clear Hm; no_char|]. apply Forall_cons in Hb as [Hc1 _].
  cbn [length] in Hg, Hm |- *. rewrite (proj2 (Z.ltb_ge _ 1)) by lia.
  destruct (byte_payload c ltac:(lia)) as (-> & _ & _); [|lia].
  unfold bad_lead. cbn [Z.eqb Pos.eqb mbind option_bind].
  assert (forall c, 0 <= c < 256 -> (c <? 0xc0) || (0xe0 <=? c) ||
    Bool.eqb (Z.land (c - 0xc0) 0x1e =? 0) (c <? 0xc2) = true) as Hlow by (apply byte_ind; reflexivity).
  specialize (Hlow c ltac:(lia)). rewrite (proj2 (Z.ltb_ge c 0xc0)), (proj2 (Z.leb_gt _ c)) in Hlow by lia.
  apply eqb_prop in Hlow. rewrite Hlow.
  destruct (Z.ltb_spec c 0xc2); [right; split; [done|]; clear Hm; no_char|].
  change (Z.to_nat 1) with 1%nat. rewrite continuation_cons by done.
  destruct (cont c1) eqn:Hk; [|right; split; [done|]; clear Hm; no_char].
  cbn [continuation mbind option_bind]. rewrite emit by (unfold cont in Hk; lia).
  left. unfold cont in Hk. eexists _, l. split; [|split; [|done]]; [unfold scalar; lia|].
  unfold utf8. rewrite (proj2 (Z.ltb_ge _ 0x80)), (proj2 (Z.ltb_lt _ 0x800)) by lia. cbn [app].
  clear Hm. bytes_eq.
Qed.

Lemma turn_three c l :
  0xe0 <= c < 0xf0 -> Forall (fun b => 0 <= b < 256) l -> room (c :: l) ->
  good (c :: l) w g m (utf8_turn (at_ (c :: l) w g m)).
Proof.
  intros Hc Hb Hroom. rewrite turn_lead by (done || lia). destruct Hroom as [Hg Hm].
  rewrite (proj2 (Z.ltb_ge c 0xe0)), (proj2 (Z.ltb_lt c 0xf0)) by lia.
  destruct l as [|c1 [|c2 l]]; [right; split; [done|]; clear Hm; no_char..|].
  apply Forall_cons in Hb as [Hc1 [Hc2 _]%Forall_cons].
  cbn [length] in Hg, Hm |- *. rewrite (proj2 (Z.ltb_ge _ 2)) by lia.
  destruct (byte_payload c ltac:(lia)) as (_ & -> & _); [|lia].
  unfold bad_lead. cbn [Z.eqb Pos.eqb uncons mbind option_bind].
  change (Z.to_nat 2) with 2%nat. rewrite continuation_cons by done.
  set (bad := if (c - 224 =? 0) && _ then _ else _).
  assert (exists b, bad = Some b /\ (cont c1 = true -> b = ((c =? 0xe0) && (c1 <? 0xa0) || (c =? 0xed) && negb (c1 <? 0xa0))))
    as (b & -> & Hbad).
  { unfold bad. destruct (cont c1) eqn:Hk.
    - destruct (byte_checks c1 Hc1 Hk) as (-> & _ & -> & _).
      destruct (Z.eqb_spec (c - 224) 0), (Z.eqb_spec c 0xe0), (Z.eqb_spec (c - 224) 0xd), (Z.eqb_spec c 0xed),
        (c1 <? 0xa0); try lia; by eexists.
    - repeat case_match; by eexists. }
  cbn [mbind option_bind].
  destruct (cont c1) eqn:Hk1.
  2:{ right. split; [by destruct b|]. clear Hm; no_char. }
  specialize (Hbad eq_refl). rewrite continuation_cons by done. destruct b.
  { right. split; [done|]. clear Hm. symmetry in Hbad. no_char. }
  destruct (cont c2) eqn:Hk2; [|right; split; [done|]; clear Hm; no_char].
  unfold cont in Hk1, Hk2. cbn [continuation mbind option_bind]. rewrite emit by lia.
  left. eexists _, l. split; [|split; [|done]]; [unfold scalar; lia|].
  unfold utf8. rewrite (proj2 (Z.ltb_ge _ 0x80)), (proj2 (Z.ltb_ge _ 0x800)), (proj2 (Z.ltb_lt _ 0x10000)) by lia.
  clear Hm. bytes_eq.
Qed.

Lemma turn_four c l :
  0xf0 <= c < 256 -> Forall (fun b => 0 <= b < 256) l -> room (c :: l) ->
  good (c :: l) w g m (utf8_turn (at_ (c :: l) w g m)).
Proof.
  intros Hc Hb Hroom. rewrite turn_lead by (done || lia). destruct Hroom as [Hg Hm].
  rewrite (proj2 (Z.ltb_ge c 0xe0)), (proj2 (Z.ltb_ge c 0xf0)) by lia.
  destruct (Z.ltb_spec c 0xf8) as [Hc8|]; [|right; split; [done|]; clear Hm; no_char].
  destruct l as [|c1 [|c2 [|c3 l]]]; [right; split; [done|]; clear Hm; no_char..|].
  apply Forall_cons in Hb as [Hc1 [Hc2 [Hc3 _]%Forall_cons]%Forall_cons].
  cbn [length] in Hg, Hm |- *. rewrite (proj2 (Z.ltb_ge _ 3)) by lia.
  destruct (byte_payload c ltac:(lia)) as (_ & _ & ->); [|lia].
  unfold bad_lead. cbn [Z.eqb Pos.eqb uncons mbind option_bind].
  change (Z.to_nat 3) with 3%nat. rewrite continuation_cons by done.
  set (bad := if (c - 240 =? 0) && _ then _ else _).
  assert (exists b, bad = Some b /\ (cont c1 = true -> b = ((c =? 0xf0) && (c1 <? 0x90) || (0xf4 <? c) || (c =? 0xf4) && negb (c1 <? 0x90))))
    as (b & -> & Hbad).
  { unfold bad. rewrite Z.gtb_ltb. destruct (cont c1) eqn:Hk.
    - destruct (byte_checks c1 Hc1 Hk) as (_ & -> & _ & ->).
      destruct (Z.eqb_spec (c - 240) 0), (Z.eqb_spec c 0xf0), (Z.ltb_spec 4 (c - 240)), (Z.ltb_spec 0xf4 c),
        (Z.eqb_spec (c - 240) 4), (Z.eqb_spec c 0xf4), (c1 <? 0x90); try lia; by eexists.
    - repeat case_match; by eexists. }
  cbn [mbind option_bind].
  destruct (cont c1) eqn:Hk1.
  2:{ right. split; [by destruct b|]. clear Hm; no_char. }
  specialize (Hbad eq_refl). rewrite continuation_cons by done. destruct b.
  { right. split; [done|]. clear Hm. symmetry in Hbad. no_char. }
  destruct (cont c2) eqn:Hk2; [|right; split; [done|]; clear Hm; no_char].
  rewrite continuation_cons by done.
  destruct (cont c3) eqn:Hk3; [|right; split; [done|]; clear Hm; no_char].
  unfold cont in Hk1, Hk2, Hk3. cbn [continuation mbind option_bind]. rewrite emit by lia.
  left. eexists _, l. split; [|split; [|done]]; [unfold scalar; lia|].
  unfold utf8. rewrite (proj2 (Z.ltb_ge _ 0x80)), (proj2 (Z.ltb_ge _ 0x800)), (proj2 (Z.ltb_ge _ 0x10000)) by lia.
  clear Hm. bytes_eq.
Qed.

Lemma utf8_turn_ok l :
  l <> [] -> Forall (fun b => 0 <= b < 256) l -> room l ->
  good l w g m (utf8_turn (at_ l w g m)).
Proof.
  intros Hne Hb Hl. destruct l as [|c l]; [done|]. apply Forall_cons in Hb as [Hc Hb].
  destruct (Z.ltb_spec c 0x80); [apply turn_ascii; [lia|done]|].
  destruct (Z.ltb_spec c 0xc0); [apply turn_refused; [lia|done]|].
  destruct (Z.ltb_spec c 0xe0); [apply turn_two; [lia|done..]|].
  destruct (Z.ltb_spec c 0xf0); [apply turn_three; [lia|done..]|apply turn_four; [lia|done..]].
Qed.
End Decode.

(** ** Loops over characters

    Both conversions are a loop of such turns; [enc_in] is the encoding of the
    input, in which a text starts with one code point at most, and [enc_out] that
    of the output.  [big] bounds how much longer the output may be. *)
Definition encs (enc : Z -> list Z) (cps : list Z) : list Z := concat (map enc cps).

Section Loop.
Context (enc_in enc_out : Z -> list Z) (unit_ok : Z -> Prop) (big : nat) (body : conv -> option (conv + Z * conv)).
Context (Hpos : forall cp, enc_in cp <> []).
Context (Hbig : forall cp, scalar cp -> (length (enc_out cp) <= big * length (enc_in cp))%nat).
Context (Hprefix : forall a b l1 l2, scalar a -> scalar b -> enc_in a ++ l1 = enc_in b ++ l2 -> a = b /\ l1 = l2).
Context (Hend : forall w g m, body (at_ [] w g m) = Some (inr (0, at_ [] w g m))).
Context (Hturn : forall l w g m, l <> [] -> Forall unit_ok l -> Z.of_nat (length l) < 2 ^ 32 ->
  (big * length l <= length g)%nat -> Z.of_nat (big * length l) <= m < 2 ^ 32 ->
  good_turn enc_in enc_out l w g m (body (at_ l w g m))).

(** The text is converted, or refused when it is the encoding of no text. *)
Lemma convert_ok fuel l w g m :
  (length l < fuel)%nat -> Forall unit_ok l -> Z.of_nat (length l) < 2 ^ 32 ->
  (big * length l <= length g)%nat -> Z.of_nat (big * length l) <= m < 2 ^ 32 ->
  (exists cps, Forall scalar cps /\ l = encs enc_in cps /\
     cloop fuel body (at_ l w g m) =
     Some (0, at_ [] (w ++ encs enc_out cps) (drop (length (encs enc_out cps)) g)
                (m - Z.of_nat (length (encs enc_out cps))))) \/
  ((exists s', cloop fuel body (at_ l w g m) = Some (-1, s')) /\
   forall cps, Forall scalar cps -> l <> encs enc_in cps).
Proof.
  revert l w g m. induction fuel as [|fuel IH]; intros l w g m Hf Hl Hn Hg Hm; [lia|]. cbn [cloop].
  destruct (decide (l = [])) as [->|Hne].
  { left. exists []. rewrite Hend. cbn. rewrite app_nil_r, drop_0, Z.sub_0_r. done. }
  destruct (Hturn l w g m Hne Hl Hn Hg Hm) as [(cp & l' & Hcp & -> & ->)|[-> Hno]].
  - pose proof (Hbig cp Hcp) as Hb. rewrite length_app in *.
    assert (length (enc_in cp) <> 0)%nat as Hp by (intros Hz; apply (Hpos cp); by apply nil_length_inv).
    apply Forall_app in Hl as [_ Hl'].
    destruct (IH l' (w ++ enc_out cp) (drop (length (enc_out cp)) g) (m - Z.of_nat (length (enc_out cp))))
      as [(cps & Hcps & -> & E)|[(s' & E) Hno]]; [lia|done|lia|rewrite length_drop; lia|lia| |].
    + left. exists (cp :: cps). split; [by constructor|]. split; [done|]. rewrite E.
      unfold encs. cbn [map concat]. rewrite <- app_assoc, drop_drop, length_app. do 3 f_equal. lia.
    + right. split; [by exists s'|]. intros [|cp2 cps] Hcps E2.
      * apply (Hpos cp). by apply app_eq_nil in E2 as [? _].
      * apply Forall_cons in Hcps as [H2 Hcps]. cbn [encs map concat] in E2.
        destruct (Hprefix _ _ _ _ Hcp H2 E2) as [-> ->]. by apply (Hno cps).
  - right. split; [by eexists|]. intros [|cp cps] Hcps E; [done|].
    apply Forall_cons in Hcps as [Hcp _]. by apply (Hno cp (encs enc_in cps)).
Qed.
End Loop.

Lemma utf8_prefix a b l1 l2 : scalar a -> scalar b -> utf8 a ++ l1 = utf8 b ++ l2 -> a = b /\ l1 = l2.
Proof.
  unfold scalar, utf8. intros Ha Hb E.
  destruct (Z.ltb_spec a 0x80); [|destruct (Z.ltb_spec a 0x800); [|destruct (Z.ltb_spec a 0x10000)]];
  (destruct (Z.ltb_spec b 0x80); [|destruct (Z.ltb_spec b 0x800); [|destruct (Z.ltb_spec b 0x10000)]]);
    cbn [app] in E; simplify_eq; (split; [divmod|done]) || (exfalso; divmod).
Qed.

Lemma utf16_prefix a b l1 l2 : scalar a -> scalar b -> utf16 a ++ l1 = utf16 b ++ l2 -> a = b /\ l1 = l2.
Proof.
  unfold scalar, utf16. intros Ha Hb E.
  destruct (Z.ltb_spec a 0x10000); (destruct (Z.ltb_spec b 0x10000));
    cbn [app] in E; simplify_eq; (split; [divmod|done]) || (exfalso; divmod) || done.
Qed.

(** ** Encoding to UTF-8 *)

Lemma need_of_ok cp : 0 <= cp < 0x110000 ->
  need_of cp = Some (if cp <? 0x800 then 1 else if cp <? 0x10000 then 2 else 3).
Proof.
  intros Hc. unfold need_of. rewrite Z.shiftr_div_pow2 by lia. change (2 ^ 11) with 2048.
  set (r := cp / 2048). assert (0 <= r < 544) as Hr by (unfold r; divmod).
  assert ((cp < 0x800 <-> r = 0) /\ (cp < 0x10000 <-> r < 32)) as [H1 H2] by (unfold r; split; split; intros; divmod).
  clearbody r. cbn [cloop].
  destruct (Z.eqb_spec r 0); [rewrite (proj2 (Z.ltb_lt cp 0x800)) by lia; done|].
  rewrite (proj2 (Z.ltb_ge cp 0x800)) by lia. rewrite (Z.shiftr_div_pow2 r) by lia. change (2 ^ 5) with 32.
  set (q := r / 32). assert (0 <= q < 32 /\ (r < 32 <-> q = 0)) as [Hq H3] by (unfold q; split; [divmod|split; intros; divmod]).
  clearbody q. destruct (Z.eqb_spec q 0); [rewrite (proj2 (Z.ltb_lt cp 0x10000)) by lia; done|].
  rewrite (proj2 (Z.ltb_ge cp 0x10000)) by lia. rewrite (Z.shiftr_div_pow2 q) by lia. change (2 ^ 5) with 32.
  by rewrite (Z.div_small q 32) by lia.
Qed.

(** The last six bits with the mark of a continuation byte, and the lead byte. *)
Lemma tail_byte x : 0 <= x -> u8 (Z.lor 0x80 (Z.land x 0x3f)) = 0x80 + x mod 64.
Proof.
  intros Hx. change 0x3f with (Z.ones 6). rewrite Z.land_ones by lia. change (2 ^ 6) with 64.
  pose proof (Z.mod_pos_bound x 64 ltac:(lia)). change 0x80 with (Z.shiftl 2 6) at 1.
  rewrite lor_shift by lia. rewrite wrap_small by lia. lia.
Qed.

Lemma lead_byte a k x : 0 <= k -> 0 <= x < 2 ^ k -> 0 <= a -> (a + 1) * 2 ^ k <= 256 ->
  u8 (Z.lor (a * 2 ^ k) x) = a * 2 ^ k + x.
Proof.
  intros Hk Hx Ha Hle. rewrite <- Z.shiftl_mul_pow2, lor_shift by done. rewrite Z.shiftl_mul_pow2 by done.
  apply wrap_small. change (2 ^ 8) with 256. nia.
Qed.

Lemma put_back_ok w g cp :
  0x80 <= cp < 0x110000 -> (length (utf8 cp) <= length g)%nat ->
  put_back (length (utf8 cp) - 1) (length w + length (utf8 cp)) 0x80 cp (w ++ g) =
  Some ((w ++ utf8 cp) ++ drop (length (utf8 cp)) g).
Proof.
  assert (forall k (g : list Z) x, (k < length g)%nat ->
    awrite (w ++ g) (length w + S k - 1) x = Some (w ++ <[k := x]> g)) as Haw.
  { intros k g0 x Hk. rewrite <- awrite_app by done. f_equal. lia. }
  assert (forall x, 0 <= x -> Z.shiftr x 6 = x / 64) as Hsh by (intros; by rewrite Z.shiftr_div_pow2 by lia).
  intros Hc. unfold utf8. rewrite (proj2 (Z.ltb_ge cp 0x80)) by lia.
  destruct (Z.ltb_spec cp 0x800); [|destruct (Z.ltb_spec cp 0x10000)]; cbn [length Nat.sub]; intros Hg.
  - destruct g as [|y0 [|y1 g']]; cbn [length] in Hg; try lia. cbn [put_back].
    rewrite Haw by (cbn; lia). cbn [mbind option_bind]. rewrite tail_byte, Hsh by lia.
    replace (length w + 2 - 1 - 1)%nat with (length w + 1 - 1)%nat by lia. rewrite Haw by (cbn; lia).
    change (Z.lor 128 (Z.shiftr 128 1)) with (6 * 2 ^ 5). rewrite lead_byte by (lia || divmod).
    cbn. by rewrite <- app_assoc.
  - destruct g as [|y0 [|y1 [|y2 g']]]; cbn [length] in Hg; try lia. cbn [put_back].
    rewrite Haw by (cbn; lia). cbn [mbind option_bind].
    replace (length w + 3 - 1)%nat with (length w + 2)%nat by lia. rewrite Haw by (cbn; lia). cbn [mbind option_bind].
    replace (length w + 2 - 1 - 1)%nat with (length w + 1 - 1)%nat by lia. rewrite Haw by (cbn; lia).
    rewrite (Hsh cp), (Hsh (cp / 64)), !tail_byte by divmod.
    change (Z.lor _ (Z.shiftr _ 1)) with (14 * 2 ^ 4). rewrite Z.div_div by lia.
    rewrite lead_byte by (lia || divmod). cbn. by rewrite <- app_assoc.
  - destruct g as [|y0 [|y1 [|y2 [|y3 g']]]]; cbn [length] in Hg; try lia. cbn [put_back].
    rewrite Haw by (cbn; lia). cbn [mbind option_bind].
    replace (length w + 4 - 1)%nat with (length w + 3)%nat by lia. rewrite Haw by (cbn; lia). cbn [mbind option_bind].
    replace (length w + 3 - 1)%nat with (length w + 2)%nat by lia. rewrite Haw by (cbn; lia). cbn [mbind option_bind].
    replace (length w + 2 - 1 - 1)%nat with (length w + 1 - 1)%nat by lia. rewrite Haw by (cbn; lia).
    rewrite (Hsh cp), (Hsh (cp / 64)), (Hsh (cp / 64 / 64)), !tail_byte by divmod.
    change (Z.lor _ (Z.shiftr _ 1)) with (30 * 2 ^ 3). rewrite !Z.div_div by lia.
    rewrite lead_byte by (lia || divmod). cbn. by rewrite <- app_assoc.
Qed.

Lemma high_bits c : 0 <= c < 0x10000 -> Z.land c 0xfc00 = c / 1024 * 1024.
Proof.
  intros Hc. replace 0xfc00 with (Z.ldiff (Z.ones 16) (Z.ones 10)) by reflexivity.
  rewrite Z.ldiff_land, Z.land_assoc, Z.land_ones, Z.mod_small by lia.
  rewrite <- Z.ldiff_land, Z.ldiff_ones_r, Z.shiftr_div_pow2, Z.shiftl_mul_pow2 by lia. done.
Qed.

Lemma ucs2_char_ok c l :
  0 <= c < 0x10000 -> 0x80 <= c -> Forall (fun x => 0 <= x < 0x10000) l ->
  (exists cp l', scalar cp /\ c :: l = utf16 cp ++ l' /\ 0x80 <= cp /\
     ucs2_char c l (Z.of_nat (length (c :: l))) = Some (Some (cp, l'))) \/
  (ucs2_char c l (Z.of_nat (length (c :: l))) = Some None /\ forall cp l', scalar cp -> c :: l <> utf16 cp ++ l').
Proof.
  intros Hc Hc' Hl. unfold ucs2_char. rewrite high_bits by done.
  assert (forall c cp l l', scalar cp -> c :: l = utf16 cp ++ l' -> 0xdc00 <= c < 0xe000 -> False) as Hlow.
  { intros ? cp ? ? Hs E ?. unfold scalar, utf16 in *. destruct (Z.ltb_spec cp 0x10000); simplify_eq/=; divmod. }
  destruct (Z.eqb_spec (c / 1024 * 1024) 0xdc00) as [E|E].
  { right. split; [done|]. intros cp l' Hs E'. eapply Hlow; [done..|divmod]. }
  destruct (Z.eqb_spec (c / 1024 * 1024) 0xd800) as [E1|E1].
  - destruct l as [|c1 l].
    { right. split; [done|]. intros cp l' Hs E'. unfold scalar, utf16 in *.
      destruct (Z.ltb_spec cp 0x10000); simplify_eq/=; divmod. }
    apply Forall_cons in Hl as [Hc1 _]. rewrite (proj2 (Z.ltb_ge _ 2)) by (cbn; lia).
    cbn [uncons mbind option_bind]. rewrite high_bits by done.
    destruct (Z.eqb_spec (c1 / 1024 * 1024) 0xdc00) as [E2|E2]; cbn [negb].
    + left. change 0x3ff with (Z.ones 10). rewrite !Z.land_ones by lia. change (2 ^ 10) with 1024.
      pose proof (Z.mod_pos_bound c1 1024 ltac:(lia)). rewrite lor_shift by (lia || done).
      change (2 ^ 10) with 1024. eexists _, l. split; [|split; [|split; [|reflexivity]]]; [unfold scalar; divmod| |divmod].
      unfold utf16. rewrite (proj2 (Z.ltb_ge _ 0x10000)) by divmod. bytes_eq.
    + right. split; [done|]. intros cp l' Hs E'. unfold scalar, utf16 in *.
      destruct (Z.ltb_spec cp 0x10000); simplify_eq/=; divmod.
  - left. exists c, l. split; [unfold scalar; divmod|]. split; [|done].
    unfold utf16. by rewrite (proj2 (Z.ltb_lt c 0x10000)) by lia.
Qed.

Lemma utf8_length cp : scalar cp ->
  Z.of_nat (length (utf8 cp)) = (if cp <? 0x80 then 1 else if cp <? 0x800 then 2 else if cp <? 0x10000 then 3 else 4) /\
  Z.of_nat (length (utf16 cp)) = (if cp <? 0x10000 then 1 else 2).
Proof. intros _. unfold utf8, utf16. repeat case_match; split; cbn; lia. Qed.

Lemma ucs2_turn_ok l w g m :
  l <> [] -> Forall (fun x => 0 <= x < 0x10000) l -> Z.of_nat (length l) < 2 ^ 32 ->
  (3 * length l <= length g)%nat -> Z.of_nat (3 * length l) <= m < 2 ^ 32 ->
  good_turn utf16 utf8 l w g m (ucs2_turn (at_ l w g m)).
Proof.
  intros Hne Hw Hl Hg Hm. destruct l as [|c l]; [done|]. apply Forall_cons in Hw as [Hc Hw].
  unfold ucs2_turn, at_. cbn [in_left out_left inp out pos uncons].
  rewrite (proj2 (Z.eqb_neq _ 0)) by (cbn; lia). cbn [mbind option_bind].
  destruct (Z.ltb_spec c 0x80).
  - left. exists c, l. destruct g as [|y g']; [cbn in Hg; lia|].
    rewrite put_app. cbn [mbind option_bind fst snd]. rewrite !(wrap_small _ _) by (cbn in *; lia).
    split; [unfold scalar; lia|]. unfold utf16, utf8. rewrite !(proj2 (Z.ltb_lt _ _)) by lia.
    split; [done|]. unfold at_. cbn [length drop]. do 3 f_equal; lia.
  - destruct (ucs2_char_ok c l Hc ltac:(lia) Hw) as [(cp & l' & Hcp & E & Hge & ->)|[-> Hno]]; [|right; done].
    left. exists cp, l'. split; [done|]. split; [done|].
    assert (0x80 <= cp < 0x110000) as Hr by (unfold scalar in Hcp; lia).
    cbn [mbind option_bind]. rewrite need_of_ok by lia. cbn [mbind option_bind].
    destruct (utf8_length cp Hcp) as [L8 L16]. rewrite (proj2 (Z.ltb_ge cp 0x80)) in L8 by lia.
    assert (length (c :: l) = (length (utf16 cp) + length l')%nat) as El by (rewrite E; apply length_app).
    set (need := if cp <? 0x800 then 1 else if cp <? 0x10000 then 2 else 3).
    assert (need = Z.of_nat (length (utf8 cp)) - 1 /\ (if need >? 2 then 1 else 0) + 1 = Z.of_nat (length (utf16 cp)) /\
      1 <= need /\ need < m) as (Hn & Hn2 & Hn1 & Hlt).
    { unfold need. cbn [length] in Hm, El.
      destruct (Z.ltb_spec cp 0x800); [|destruct (Z.ltb_spec cp 0x10000)]; cbn;
        rewrite ?(proj2 (Z.ltb_lt cp 0x10000)) in L16 by lia; rewrite ?(proj2 (Z.ltb_ge cp 0x10000)) in L16 by lia; lia. }
    rewrite Z.geb_leb, (proj2 (Z.leb_gt _ need)) by lia. rewrite Hn2.
    replace (Z.to_nat need) with (length (utf8 cp) - 1)%nat by lia.
    replace (length w + (length (utf8 cp) - 1) + 1)%nat with (length w + length (utf8 cp))%nat by lia.
    rewrite put_back_ok; [|done|].
    2:{ cbn [length] in Hg, El. destruct (cp <? 0x800), (cp <? 0x10000); lia. }
    cbn [mbind option_bind]. unfold at_. rewrite length_app, El. do 3 f_equal; rewrite wrap_small; lia.
Qed.

(** ** [http_uri_encode] *)

Definition unreserved (c : Z) : bool :=
  ((65 <=? c) && (c <=? 90)) || ((97 <=? c) && (c <=? 122)) || ((48 <=? c) && (c <=? 57))
  || (c =? 46) || (c =? 45) || (c =? 95) || (c =? 47).

(** A digit of [sprintf] with the format 02x. *)
Definition hex (d : Z) : Z := if d <? 10 then 48 + d else 87 + d.

(** The loop up to [strlen]; the result is what is written behind [enc_uri]. *)
Fixpoint uri_bytes (l : list Z) : list Z :=
  match l with
  | [] => []
  | c :: l =>
      if c =? 0 then []
      else if unreserved c then c :: uri_bytes l
      else 37 :: hex (c / 16) :: hex (c mod 16) :: uri_bytes l
  end.

(** [uri] are [inwords] words; the allocation succeeds. *)
Definition http_uri_encode (uri : list Z) : option (Z * list Z) :=
  let inwords := Z.of_nat (length uri) in
  let outwords := u32 (3 * inwords + 1) in
  let utf8_uri := replicate (Z.to_nat outwords) 0 in
  '(ret, s) ← conv_ucs2_to_utf8 (Conv uri inwords utf8_uri 0 outwords);
  if negb (ret =? 0) then Some (-1, []) else Some (0, uri_bytes (out s)).

(** The reference decoder of percent encoding. *)
Definition unhex (d : Z) : Z := if d <? 58 then d - 48 else d - 87.
Fixpoint percent_decode (l : list Z) : list Z :=
  match l with
  | 37 :: a :: b :: l => (16 * unhex a + unhex b) :: percent_decode l
  | c :: l => c :: percent_decode l
  | [] => []
  end.

Lemma unhex_hex d : 0 <= d < 16 -> unhex (hex d) = d.
Proof.
  intros Hd. unfold hex. destruct (Z.ltb_spec d 10); unfold unhex.
  - rewrite (proj2 (Z.ltb_lt _ 58)) by lia. lia.
  - rewrite (proj2 (Z.ltb_ge _ 58)) by lia. lia.
Qed.

Lemma percent_decode_plain c l : c <> 37 -> percent_decode (c :: l) = c :: percent_decode l.
Proof.
  intros Hc. cbn [percent_decode]. repeat (match goal with |- context [match ?x with _ => _ end] => is_var x; destruct x end);
    first [reflexivity|done].
Qed.

Lemma uri_bytes_decode bs z :
  Forall (fun b => 0 < b < 256) bs -> percent_decode (uri_bytes (bs ++ 0 :: z)) = bs.
Proof.
  induction 1 as [|b bs Hb _ IH]; [done|]. cbn [app uri_bytes].
  rewrite (proj2 (Z.eqb_neq b 0)) by lia. destruct (unreserved b) eqn:E.
  - rewrite percent_decode_plain, IH; [done|]. intros ->. done.
  - cbn [percent_decode]. rewrite IH, !unhex_hex by divmod. f_equal. divmod.
Qed.

Lemma uri_bytes_chars bs :
  Forall (fun b => 0 <= b < 256) bs -> Forall (fun c => unreserved c = true \/ c = 37) (uri_bytes bs).
Proof.
  assert (forall d, 0 <= d < 16 -> unreserved (hex d) = true) as Hh.
  { intros d Hd. unfold hex, unreserved. destruct (Z.ltb_spec d 10); lia. }
  induction 1 as [|b bs Hb _ IH]; [constructor|]. cbn [uri_bytes].
  destruct (b =? 0); [constructor|]. destruct (unreserved b) eqn:E; [constructor; [by left|done]|].
  repeat (apply Forall_cons; split); [by right|left; apply Hh; divmod..|done].
Qed.

(** ** Theorems *)

Lemma utf8_nonempty cp : utf8 cp <> [].
Proof. unfold utf8. by repeat case_match. Qed.
Lemma utf16_nonempty cp : utf16 cp <> [].
Proof. unfold utf16. by repeat case_match. Qed.

Lemma decode_ok l g m fuel w :
  (length l < fuel)%nat -> Forall (fun b => 0 <= b < 256) l -> (length l <= length g)%nat ->
  Z.of_nat (length l) <= m < 2 ^ 32 ->
  (exists cps, Forall scalar cps /\ l = utf8s cps /\
     cloop fuel utf8_turn (at_ l w g m) =
     Some (0, at_ [] (w ++ utf16s cps) (drop (length (utf16s cps)) g) (m - Z.of_nat (length (utf16s cps))))) \/
  ((exists s', cloop fuel utf8_turn (at_ l w g m) = Some (-1, s')) /\
   forall cps, Forall scalar cps -> l <> utf8s cps).
Proof.
  intros Hf Hb Hg Hm.
  apply (convert_ok utf8 utf16 (fun b => 0 <= b < 256) 1); try done; try lia.
  - apply utf8_nonempty.
  - intros cp Hcp. destruct (utf8_length cp Hcp) as [L1 L2]. repeat case_match; lia.
  - intros. by eapply utf8_prefix.
  - intros l0 w0 g0 m0 Hne Hb0 Hl0 Hg0 Hm0. apply utf8_turn_ok; [done|done|]. split; lia.
Qed.

Lemma encode_ok l g m fuel w :
  (length l < fuel)%nat -> Forall (fun x => 0 <= x < 0x10000) l -> (3 * length l <= length g)%nat ->
  Z.of_nat (3 * length l) <= m < 2 ^ 32 ->
  (exists cps, Forall scalar cps /\ l = utf16s cps /\
     cloop fuel ucs2_turn (at_ l w g m) =
     Some (0, at_ [] (w ++ utf8s cps) (drop (length (utf8s cps)) g) (m - Z.of_nat (length (utf8s cps))))) \/
  ((exists s', cloop fuel ucs2_turn (at_ l w g m) = Some (-1, s')) /\
   forall cps, Forall scalar cps -> l <> utf16s cps).
Proof.
  intros Hf Hb Hg Hm.
  apply (convert_ok utf16 utf8 (fun x => 0 <= x < 0x10000) 3); try done; try lia.
  - apply utf16_nonempty.
  - intros cp Hcp. destruct (utf8_length cp Hcp) as [L1 L2]. repeat case_match; lia.
  - intros. by eapply utf16_prefix.
  - apply ucs2_turn_ok.
Qed.

Lemma utf8s_bytes cps : Forall scalar cps -> Forall (fun b => 0 <= b < 256) (utf8s cps).
Proof.
  induction 1 as [|cp cps Hcp _ IH]; [constructor|]. unfold utf8s. cbn [map concat].
  apply Forall_app_2; [|exact IH]. unfold scalar in Hcp. unfold utf8.
  destruct (Z.ltb_spec cp 0x80); [|destruct (Z.ltb_spec cp 0x800); [|destruct (Z.ltb_spec cp 0x10000)]];
    repeat (apply Forall_cons; split); try divmod; constructor.
Qed.

Lemma utf8s_length cps : Forall scalar cps -> (length (utf8s cps) <= 3 * length (utf16s cps))%nat.
Proof.
  induction 1 as [|cp cps Hcp _ IH]; [done|]. unfold utf8s, utf16s in *. cbn [map concat].
  rewrite !length_app. destruct (utf8_length cp Hcp) as [L1 L2]. repeat case_match; lia.
Qed.

Lemma utf8s_injective a b : Forall scalar a -> Forall scalar b -> utf8s a = utf8s b -> a = b.
Proof.
  intros Ha. revert b. induction Ha as [|x a Hx _ IH]; intros [|y b] Hb E; [done|..].
  - symmetry in E. apply app_eq_nil in E as [E _]. by apply utf8_nonempty in E.
  - apply app_eq_nil in E as [E _]. by apply utf8_nonempty in E.
  - apply Forall_cons in Hb as [Hy Hb]. destruct (utf8_prefix _ _ _ _ Hx Hy E) as [-> E']. f_equal. by apply IH.
Qed.

Lemma conv_start l g m : Conv l (Z.of_nat (length l)) g 0 m = at_ l [] g m.
Proof. done. Qed.

(** C32: With as many words of room as bytes, the decoder accepts exactly the
    well-formed UTF-8 texts, overlong forms, surrogates and values past 0x10ffff
    refused, and writes their UTF-16 form inside the buffer. *)
Theorem utf8_decode_correct (l g : list Z) (m : Z)
    (Hl : Forall (fun b => 0 <= b < 256) l) (Hg : (length l <= length g)%nat)
    (Hm : Z.of_nat (length l) <= m < 2 ^ 32) :
  (exists cps, Forall scalar cps /\ l = utf8s cps /\
     conv_utf8_to_ucs2 (Conv l (Z.of_nat (length l)) g 0 m) =
     Some (0, Conv [] 0 (utf16s cps ++ drop (length (utf16s cps)) g) (length (utf16s cps))
                (m - Z.of_nat (length (utf16s cps))))) \/
  ((exists s', conv_utf8_to_ucs2 (Conv l (Z.of_nat (length l)) g 0 m) = Some (-1, s')) /\
   forall cps, Forall scalar cps -> l <> utf8s cps).
Proof. apply (decode_ok l g m (S (length l)) []); [lia|done..]. Qed.

Lemma utf8_decode_correct_witness :
  exists cps, [65; 226; 130; 172] = utf8s cps /\
    conv_utf8_to_ucs2 (Conv [65; 226; 130; 172] 4 [7; 7; 7; 7] 0 4) = Some (0, Conv [] 0 [65; 8364; 7; 7] 2 2).
Proof.
  destruct (utf8_decode_correct [65; 226; 130; 172] [7; 7; 7; 7] 4) as [(cps & _ & E & _)|[(s' & E) _]].
  - repeat constructor; lia.
  - cbn. lia.
  - cbn. lia.
  - exists cps. split; [exact E|]. vm_compute. reflexivity.
  - vm_compute in E. discriminate.
Defined.

(** A text of UTF-16 words is converted to UTF-8 and back to the same words;
    with three bytes of room per word the encoder refuses exactly the texts with
    an unpaired surrogate. *)
Theorem utf_roundtrip (l g g' : list Z) (m m' : Z)
    (Hl : Forall (fun x => 0 <= x < 0x10000) l) (Hg : (3 * length l <= length g)%nat)
    (Hm : Z.of_nat (3 * length l) <= m < 2 ^ 32) (Hg' : (3 * length l <= length g')%nat)
    (Hm' : Z.of_nat (3 * length l) <= m' < 2 ^ 32) :
  (exists s s', conv_ucs2_to_utf8 (Conv l (Z.of_nat (length l)) g 0 m) = Some (0, s) /\
     conv_utf8_to_ucs2 (Conv (take (pos s) (out s)) (Z.of_nat (pos s)) g' 0 m') = Some (0, s') /\
     take (pos s') (out s') = l /\ exists cps, Forall scalar cps /\ l = utf16s cps) \/
  ((exists s, conv_ucs2_to_utf8 (Conv l (Z.of_nat (length l)) g 0 m) = Some (-1, s)) /\
   forall cps, Forall scalar cps -> l <> utf16s cps).
Proof.
  destruct (encode_ok l g m (S (length l)) []) as [(cps & Hcps & El & E)|H]; [lia|done..| |by right].
  left. pose proof (utf8s_length cps Hcps) as Hlen. rewrite <- El in Hlen.
  destruct (decode_ok (utf8s cps) g' m' (S (length (utf8s cps))) []) as [(cps' & Hcps' & E1 & E2)|[_ Hno]];
    [lia|by apply utf8s_bytes|lia|lia| |by destruct (Hno cps)].
  apply utf8s_injective in E1 as <-; [|done..].
  eexists _, _. split; [exact E|]. cbn [pos out at_ app]. rewrite take_app_length.
  split; [exact E2|]. cbn [pos out at_ app]. rewrite take_app_length. split; [done|]. by exists cps.
Qed.

Lemma utf_roundtrip_witness :
  exists s s', conv_ucs2_to_utf8 (Conv [65; 55357; 56832] 3 (replicate 9 0) 0 9) = Some (0, s) /\
    take (pos s) (out s) = [65; 240; 159; 152; 128] /\
    conv_utf8_to_ucs2 (Conv (take (pos s) (out s)) (Z.of_nat (pos s)) (replicate 9 0) 0 9) = Some (0, s') /\
    take (pos s') (out s') = [65; 55357; 56832].
Proof.
  destruct (utf_roundtrip [65; 55357; 56832] (replicate 9 0) (replicate 9 0) 9 9)
    as [(s & s' & E & E' & H & _)|[(s & E) _]]; [repeat constructor; lia|cbn; lia..| |].
  - exists s, s'. split; [exact E|]. split; [vm_compute in E; injection E as <-; reflexivity|]. split; [exact E'|exact H].
  - vm_compute in E. discriminate.
Defined.

(** [http_uri_encode] of a text without a zero writes characters of a URI only,
    which percent-decode to the text's UTF-8 form, inside the buffer it allocates;
    a text with an unpaired surrogate is refused. *)
Theorem http_uri_encode_correct (uri : list Z)
    (Hu : Forall (fun x => 0 < x < 0x10000) uri) (Hn : 3 * Z.of_nat (length uri) + 1 < 2 ^ 32) :
  (exists cps enc, Forall scalar cps /\ uri = utf16s cps /\ http_uri_encode uri = Some (0, enc) /\
     percent_decode enc = utf8s cps /\ Forall (fun c => unreserved c = true \/ c = 37) enc) \/
  (http_uri_encode uri = Some (-1, []) /\ forall cps, Forall scalar cps -> uri <> utf16s cps).
Proof.
  unfold http_uri_encode. rewrite (wrap_small 32) by lia.
  set (n := Z.to_nat (3 * Z.of_nat (length uri) + 1)).
  assert (n = 3 * length uri + 1)%nat as En by lia.
  assert (Forall (fun x => 0 <= x < 0x10000) uri) as Hu' by (eapply Forall_impl; [exact Hu|]; cbn; lia).
  unfold conv_ucs2_to_utf8. cbn [inp]. rewrite conv_start.
  destruct (encode_ok uri (replicate n 0) (3 * Z.of_nat (length uri) + 1) (S (length uri)) [])
    as [(cps & Hcps & El & ->)|[(s' & ->) Hno]]; [lia|done|rewrite length_replicate; lia|lia|left|by right].
  cbn [mbind option_bind Z.eqb negb out at_ app].
  pose proof (utf8s_length cps Hcps) as Hlen. rewrite <- El in Hlen. rewrite drop_replicate.
  assert (Forall (fun b => 0 < b < 256) (utf8s cps)) as Hpos.
  { rewrite El in Hu. clear -Hu Hcps. induction Hcps as [|cp cps Hcp Hcps IH]; [constructor|].
    unfold utf16s, utf8s in *. cbn [map concat] in *. apply Forall_app in Hu as [H1 H2].
    apply Forall_app_2; [|by apply IH]. unfold scalar in Hcp.
    assert (0 < cp) as Hcp0.
    { unfold utf16 in H1. destruct (Z.ltb_spec cp 0x10000); [|lia]. apply Forall_cons in H1 as [? _]. lia. }
    unfold utf8. destruct (Z.ltb_spec cp 0x80); [|destruct (Z.ltb_spec cp 0x800); [|destruct (Z.ltb_spec cp 0x10000)]];
      repeat (apply Forall_cons; split); try divmod; constructor. }
  destruct (n - length (utf8s cps))%nat as [|k] eqn:Ek; [lia|]. cbn [replicate].
  exists cps, (uri_bytes (utf8s cps ++ 0 :: replicate k 0)). split; [done|]. split; [done|]. split; [done|].
  split; [by apply uri_bytes_decode|]. apply uri_bytes_chars. apply Forall_app_2; [by apply utf8s_bytes|].
  constructor; [lia|]. apply Forall_replicate. lia.
Qed.

Lemma http_uri_encode_correct_witness :
  http_uri_encode [47; 233] = Some (0, [47; 37; 99; 51; 37; 97; 57]) /\
  percent_decode [47; 37; 99; 51; 37; 97; 57] = utf8s [47; 233].
Proof.
  destruct (http_uri_encode_correct [47; 233]) as [(cps & enc & _ & _ & E & E' & _)|[E _]];
    [repeat constructor; lia|cbn; lia| |vm_compute in E; discriminate].
  split; vm_compute; reflexivity.
Defined.

(** The branch for ASCII writes without asking for room, and the amount left wraps
    around. *)
Example ascii_needs_no_room :
  exists s, conv_ucs2_to_utf8 (Conv [65; 66] 2 [0; 0] 0 1) = Some (0, s) /\ out s = [65; 66] /\ out_left s = 4294967295.
Proof. eexists. split; [vm_compute; reflexivity|]. by split. Qed.

Example ascii_overflow : conv_ucs2_to_utf8 (Conv [65; 66] 2 [0] 0 1) = None.
Proof. reflexivity. Qed.
