(* ===== verification/Ini.v ===== *)
(** The configuration reader: [src/iniparser.c], over the dictionary of [Dict].

    A string is the list of its characters without the terminator; characters are
    those of the C locale.  [fgets], [sscanf], [strtol] and the character classes
    are the standard library's.  The loader reads [line[-1]] on a blank line: the
    byte in front of the array is the argument [before].  Messages on the standard
    error are left out. *)
From S2P Require Import Prelude Dict.
Local Open Scope Z_scope.

Definition ASCIILINESZ : nat := 1024.

(** A pointer that is no string of a dictionary: its character is no character. *)
Definition INI_INVALID_KEY : option cstr := Some [-1].

Inductive line_status :=
  | LINE_UNPROCESSED | LINE_ERROR | LINE_EMPTY | LINE_COMMENT | LINE_SECTION | LINE_VALUE.

(** ** The standard library *)

Definition isspace (c : Z) : bool := (c =? 32) || ((9 <=? c) && (c <=? 13)).
Definition tolower (c : Z) : Z := if (65 <=? c) && (c <=? 90) then c + 32 else c.

Fixpoint take_while (f : Z -> bool) (l : cstr) : cstr :=
  match l with [] => [] | c :: l => if f c then c :: take_while f l else [] end.
Fixpoint drop_while (f : Z -> bool) (l : cstr) : cstr :=
  match l with [] => [] | c :: l' => if f c then drop_while f l' else l end.

(** The characters up to a terminator. *)
Definition cstring (l : list Z) : cstr := take_while (fun c => negb (c =? 0)) l.

(** [fgets] with room for [n] characters, the terminator included: what is stored
    and the rest of the file; [None] is NULL. *)
Fixpoint fgets_chars (n : nat) (file : list Z) : list Z * list Z :=
  match n, file with
  | S n, c :: file =>
      if c =? 10 then ([c], file) else let '(l, rest) := fgets_chars n file in (c :: l, rest)
  | _, _ => ([], file)
  end.
Definition fgets (n : nat) (file : list Z) : option (list Z * list Z) :=
  match file with
  | [] => if (n <=? 1)%nat then Some ([], []) else None
  | _ => Some (fgets_chars (n - 1) file)
  end.

(** The directives of the formats: a character, white space, a set.  [sscanf] is
    the list of the strings it assigns. *)
Inductive directive := Lit (c : Z) | White | Set_ (f : Z -> bool).
Fixpoint sscanf (l : cstr) (fmt : list directive) : list cstr :=
  match fmt with
  | [] => []
  | Lit c :: fmt => match l with c' :: l => if c' =? c then sscanf l fmt else [] | [] => [] end
  | White :: fmt => sscanf (drop_while isspace l) fmt
  | Set_ f :: fmt =>
      match take_while f l with [] => [] | s => s :: sscanf (drop_while f l) fmt end
  end.

Definition eqc (c : Z) : Z -> bool := fun x => x =? c.
Definition neqc (c : Z) : Z -> bool := fun x => negb (x =? c).

(** [strtol] with base 0. *)
Definition digit (base c : Z) : option Z :=
  let v := if (48 <=? c) && (c <=? 57) then c - 48
           else if (97 <=? tolower c) && (tolower c <=? 122) then tolower c - 87 else 99 in
  if v <? base then Some v else None.
Fixpoint digits (base acc : Z) (l : cstr) : Z :=
  match l with
  | [] => acc
  | c :: l => match digit base c with Some v => digits base (acc * base + v) l | None => acc end
  end.
Definition strtol0 (l : cstr) : Z :=
  let l := drop_while isspace l in
  let '(sign, l) := match l with c :: l' => if c =? 45 then (-1, l') else if c =? 43 then (1, l') else (1, l)
                            | [] => (1, []) end in
  let '(base, l) :=
    match l with
    | 48 :: x :: y :: l' => if (tolower x =? 120) && bool_decide (is_Some (digit 16 y)) then (16, y :: l') else (8, l)
    | 48 :: _ => (8, l)
    | _ => (10, l)
    end in
  Z.max (- 2 ^ 63) (Z.min (2 ^ 63 - 1) (sign * digits base 0 l)).

(** ** Strings *)

(** Both write to an array of [ASCIILINESZ + 1]. *)
Definition strlwc (s : cstr) : cstr := tolower <$> take ASCIILINESZ s.

Fixpoint strip_end (l : cstr) : cstr :=
  match l with
  | [] => []
  | c :: l => match strip_end l with [] => if isspace c then [] else [c] | l' => c :: l' end
  end.

Definition strstrip (s : cstr) : option cstr :=
  let s := drop_while isspace s in
  _ ← ensure (length s <=? ASCIILINESZ)%nat;
  Some (strip_end s).

(** ** Reading the dictionary *)

(** The keys without a colon, in the order of the slots. *)
Definition has_colon (k : cstr) : bool := existsb (eqc 58) k.

Definition iniparser_getnsec (d : dictionary) : option Z :=
  keys ← key d;
  keys ← mread keys 0 (Z.to_nat (size d));
  Some (foldl (fun nsec o => match o with
                             | Some k => if has_colon k then nsec else nsec + 1
                             | None => nsec end) 0 keys).

Fixpoint secname_from (keys : list (option cstr)) (foundsec n : Z) : option cstr :=
  match keys with
  | [] => None
  | Some k :: keys =>
      if has_colon k then secname_from keys foundsec n
      else if foundsec + 1 >? n then Some k else secname_from keys (foundsec + 1) n
  | None :: keys => secname_from keys foundsec n
  end.

(** [None] inside is NULL. *)
Definition iniparser_getsecname (d : dictionary) (n : Z) : option (option cstr) :=
  if n <? 0 then Some None
  else keys ← key d; keys ← mread keys 0 (Z.to_nat (size d)); Some (secname_from keys 0 n).

Definition iniparser_getstring (d : dictionary) (k : option cstr) (def : option cstr) : option (option cstr) :=
  match k with
  | None => Some def
  | Some k => dictionary_get d (strlwc k) def
  end.

(** A NULL value is dereferenced. *)
Definition iniparser_getint (d : dictionary) (k : option cstr) (notfound : Z) : option Z :=
  str ← iniparser_getstring d k INI_INVALID_KEY;
  if bool_decide (str = INI_INVALID_KEY) then Some notfound
  else s ← str; Some (s32 (strtol0 s)).

Definition iniparser_getboolean (d : dictionary) (k : option cstr) (notfound : Z) : option Z :=
  str ← iniparser_getstring d k INI_INVALID_KEY;
  if bool_decide (str = INI_INVALID_KEY) then Some notfound
  else
    c ← str;
    let c0 := default 0 (head c) in
    if bool_decide (c0 ∈ [121; 89; 49; 116; 84]) then Some 1
    else if bool_decide (c0 ∈ [110; 78; 48; 102; 70]) then Some 0
    else Some notfound.

Definition iniparser_find_entry (d : dictionary) (entry : cstr) : option Z :=
  str ← iniparser_getstring d (Some entry) INI_INVALID_KEY;
  Some (if bool_decide (str = INI_INVALID_KEY) then 0 else 1).

Definition iniparser_set (m : memory) (d : dictionary) (entry : cstr) (v : option cstr) : option (Z * dictionary) :=
  dictionary_set m d (strlwc entry) v.
Definition iniparser_unset (d : dictionary) (entry : cstr) : option dictionary :=
  dictionary_unset d (strlwc entry).

(** ** Writing *)

(** What is printed; %s of NULL is "(null)" as in the GNU library. *)
Definition null_string : cstr := [40; 110; 117; 108; 108; 41].

(** Left-justified in [w] columns. *)
Definition pad (w : nat) (s : cstr) : cstr := s ++ replicate (w - length s) 32.

Definition dump_entry (secname : cstr) (slot : option cstr * option cstr) : list Z :=
  match slot with
  | (Some k, v) =>
      if bool_decide (take (length secname + 1) k = secname ++ [58]) then
        pad 30 (drop (length secname + 1) k) ++ [32; 61; 32] ++ default [] v ++ [10]
      else []
  | (None, _) => []
  end.

Definition iniparser_dump_ini (d : dictionary) : option (list Z) :=
  nsec ← iniparser_getnsec d;
  keys ← key d; keys ← mread keys 0 (Z.to_nat (size d));
  vals ← val d; vals ← mread vals 0 (Z.to_nat (size d));
  if nsec <? 1 then
    Some (concat (map (fun slot => match slot with
                                   | (Some k, v) => k ++ [32; 61; 32] ++ default null_string v ++ [10]
                                   | (None, _) => [] end) (zip keys vals)))
  else
    out ← foldl (fun out i =>
      out ← out;
      secname ← iniparser_getsecname d (Z.of_nat i);
      secname ← secname;
      _ ← ensure (length secname + 2 <=? ASCIILINESZ + 1)%nat;
      Some (out ++ [10; 91] ++ secname ++ [93; 10] ++ concat (map (dump_entry secname) (zip keys vals))))
      (Some []) (seq 0 (Z.to_nat nsec));
    Some (out ++ [10]).

Definition iniparser_dump (d : dictionary) : option (list Z) :=
  keys ← key d; keys ← mread keys 0 (Z.to_nat (size d));
  vals ← val d; vals ← mread vals 0 (Z.to_nat (size d));
  Some (concat (map (fun slot => match slot with
    | (Some k, Some v) => [91] ++ k ++ [93; 61; 91] ++ v ++ [93; 10]
    | (Some k, None) => [91] ++ k ++ [93; 61; 85; 78; 68; 69; 70; 10]
    | (None, _) => [] end) (zip keys vals))).

(** ** Parsing *)

Definition fmt_section : list directive := [Lit 91; Set_ (neqc 93)].
Definition fmt_double : list directive :=
  [Set_ (neqc 61); White; Lit 61; White; Lit 34; Set_ (neqc 34); Lit 34].
Definition fmt_single : list directive :=
  [Set_ (neqc 61); White; Lit 61; White; Lit 39; Set_ (neqc 39); Lit 39].
Definition fmt_plain : list directive :=
  [Set_ (neqc 61); White; Lit 61; White; Set_ (fun c => neqc 59 c && neqc 35 c)].
Definition fmt_comment : list directive :=
  [Set_ (neqc 61); White; Lit 61; White; Set_ (fun c => eqc 59 c || eqc 35 c)].
Definition fmt_empty : list directive := [Set_ (neqc 61); White; Set_ (eqc 61)].

(** The first format that assigns a key and a value. *)
Fixpoint first_match (l : cstr) (fmts : list (list directive)) : option (cstr * cstr) :=
  match fmts with
  | [] => None
  | fmt :: fmts => match sscanf l fmt with [k; v] => Some (k, v) | _ => first_match l fmts end
  end.

(** The status and the new contents of the three arrays; a section line without a
    name leaves the old section.  What a format that fails leaves in the arrays of the
    key and the value is never read, and not kept here. *)
Definition iniparser_line (input_line section key_ value : cstr) : option (line_status * (cstr * cstr * cstr)) :=
  line ← strstrip input_line;
  match line with
  | [] => Some (LINE_EMPTY, (section, key_, value))
  | c :: _ =>
      if c =? 35 then Some (LINE_COMMENT, (section, key_, value))
      else if (c =? 91) && bool_decide (last line = Some 93) then
        let section := default section (head (sscanf line fmt_section)) in
        section ← strstrip section;
        Some (LINE_SECTION, (strlwc section, key_, value))
      else
        match first_match line [fmt_double; fmt_single; fmt_plain] with
        | Some (k, v) =>
            k ← strstrip k;
            v ← strstrip v;
            let v := if bool_decide (v = [34; 34]) || bool_decide (v = [39; 39]) then [] else v in
            Some (LINE_VALUE, (section, strlwc k, v))
        | None =>
            match first_match line [fmt_comment; fmt_empty] with
            | Some (k, _) => k ← strstrip k; Some (LINE_VALUE, (section, strlwc k, []))
            | None => Some (LINE_ERROR, (section, key_, value))
            end
        end
  end.

(** The variables of [iniparser_load]. *)
Record loader := Loader {
  file : list Z; line : cstr; last_ : nat;
  section : cstr; key_ : cstr; value : cstr; dict : dictionary; errs : Z
}.

(** [line[len]] for [len] from -1 on. *)
Definition char_at (before : Z) (l : cstr) (len : Z) : Z :=
  if len <? 0 then before else nth (Z.to_nat len) l 0.

Definition load_turn (m : memory) (before : Z) (s : loader) : option (loader + option dictionary) :=
  match fgets (ASCIILINESZ - last_ s) (file s) with
  | None => Some (inr (if errs s =? 0 then Some (dict s) else None))
  | Some (got, rest) =>
      let l := cstring (take (last_ s) (line s) ++ got) in
      let len := Z.of_nat (length l) - 1 in
      if negb (char_at before l len =? 10) then Some (inr None)
      else
        let l := strip_end l in
        let len := Z.of_nat (length l) - 1 in
        if char_at before l len =? 92 then
          _ ← ensure (0 <=? len);
          Some (inl (Loader rest l (Z.to_nat len) (section s) (key_ s) (value s) (dict s) (errs s)))
        else
          '(st, (sec, k, v)) ← iniparser_line l (section s) (key_ s) (value s);
          '(e, d) ←
            match st with
            | LINE_SECTION => dictionary_set m (dict s) sec None
            | LINE_VALUE =>
                _ ← ensure (length sec + 1 + length k <=? ASCIILINESZ)%nat;
                dictionary_set m (dict s) (sec ++ [58] ++ k) (Some v)
            | LINE_ERROR => Some (errs s + 1, dict s)
            | _ => Some (errs s, dict s)
            end;
          let s := Loader rest [] 0 sec k v d e in
          if e <? 0 then Some (inr None) else Some (inl s)
  end.

(** The file is opened and the dictionary made; each turn reads a character. *)
Definition iniparser_load (m : memory) (before : Z) (content : list Z) : option (option dictionary) :=
  cloop (S (length content)) (load_turn m before) (Loader content [] 0 [] [] [] (dictionary_new 0) 0).

(** ** Strings *)

Lemma take_while_app f (a b : cstr) c :
  Forall (fun x => f x = true) a -> f c = false -> take_while f (a ++ c :: b) = a.
Proof. induction 1 as [|x a Hx _ IH]; intros Hc; cbn; [by rewrite Hc|]. by rewrite Hx, IH. Qed.

Lemma take_while_all f (a : cstr) : Forall (fun x => f x = true) a -> take_while f a = a.
Proof. induction 1 as [|x a Hx _ IH]; cbn; [done|]. by rewrite Hx, IH. Qed.

Lemma drop_while_app f (a b : cstr) c :
  Forall (fun x => f x = true) a -> f c = false -> drop_while f (a ++ c :: b) = c :: b.
Proof. induction 1 as [|x a Hx _ IH]; intros Hc; cbn; [by rewrite Hc|]. by rewrite Hx, IH. Qed.

Lemma drop_while_all f (a : cstr) : Forall (fun x => f x = true) a -> drop_while f a = [].
Proof. induction 1 as [|x a Hx _ IH]; cbn; [done|]. by rewrite Hx, IH. Qed.

Lemma strip_end_blank l : Forall (fun c => isspace c = true) l -> strip_end l = [].
Proof. induction 1 as [|c l Hc _ IH]; cbn; [done|]. by rewrite IH, Hc. Qed.

Lemma strip_end_app l b : Forall (fun c => isspace c = true) b -> strip_end (l ++ b) = strip_end l.
Proof. intros Hb. induction l as [|c l IH]; cbn; [by apply strip_end_blank|]. by rewrite IH. Qed.

Lemma strip_end_length l : (length (strip_end l) <= length l)%nat.
Proof.
  induction l as [|x l IH]; cbn; [done|].
  destruct (strip_end l); [destruct (isspace x); cbn; lia|]. cbn in *. lia.
Qed.

Lemma strip_end_idem l : strip_end (strip_end l) = strip_end l.
Proof.
  induction l as [|x l IH]; [done|]. cbn. destruct (strip_end l) as [|y l'] eqn:E.
  - destruct (isspace x) eqn:Ex; cbn; [done|by rewrite Ex].
  - change (strip_end (x :: y :: l')) with
      (match strip_end (y :: l') with [] => if isspace x then [] else [x] | l' => x :: l' end). by rewrite IH.
Qed.

Lemma drop_while_length f (l : cstr) : (length (drop_while f l) <= length l)%nat.
Proof. induction l as [|x l IH]; cbn; [done|]. destruct (f x); cbn; lia. Qed.

(** A string that ends in no blank. *)
Lemma strip_end_last l c : isspace c = false -> strip_end (l ++ [c]) = l ++ [c].
Proof. intros Hc. induction l as [|x l IH]; cbn; [by rewrite Hc|]. rewrite IH. by destruct l. Qed.

(** No blanks at either end. *)
Definition trimmed (s : cstr) : Prop := drop_while isspace s = s /\ strip_end s = s.

Lemma trimmed_last s : trimmed s -> s <> [] -> exists l c, s = l ++ [c] /\ isspace c = false.
Proof.
  intros [_ Hs] Hne. destruct s as [|c l _] using rev_ind; [done|]. exists l, c. split; [done|].
  destruct (isspace c) eqn:E; [|done]. rewrite (strip_end_app l [c]) in Hs by (by repeat constructor).
  pose proof (strip_end_length l) as Hle. rewrite Hs, length_app in Hle. cbn in Hle. lia.
Qed.

Lemma trimmed_head c s : trimmed (c :: s) -> isspace c = false.
Proof.
  intros [H _]. destruct (isspace c) eqn:E; [|done]. cbn in H. rewrite E in H.
  pose proof (drop_while_length isspace s) as Hle. rewrite H in Hle. cbn in Hle. lia.
Qed.

Lemma strstrip_blanks s a b :
  trimmed s -> s <> [] -> Forall (fun c => isspace c = true) a -> Forall (fun c => isspace c = true) b ->
  (length (s ++ b) <= ASCIILINESZ)%nat -> strstrip (a ++ s ++ b) = Some s.
Proof.
  intros Ht Hne Ha Hb Hl. unfold strstrip. destruct s as [|c s]; [done|].
  pose proof (trimmed_head c s Ht) as Hc.
  rewrite <- app_comm_cons, drop_while_app by done. rewrite app_comm_cons.
  rewrite (proj2 (Nat.leb_le _ _) Hl). cbn [ensure mbind option_bind].
  by rewrite strip_end_app, (proj2 Ht).
Qed.

Lemma strstrip_trimmed s : trimmed s -> (length s <= ASCIILINESZ)%nat -> strstrip s = Some s.
Proof. intros [H1 H2] Hl. unfold strstrip. rewrite H1, (proj2 (Nat.leb_le _ _) Hl). cbn. by rewrite H2. Qed.

Definition lowered (s : cstr) : Prop := tolower <$> s = s.

Lemma strlwc_lowered s : lowered s -> (length s <= ASCIILINESZ)%nat -> strlwc s = s.
Proof. intros Hs Hl. unfold strlwc. by rewrite take_ge. Qed.

Lemma fgets_line (text rest : list Z) n :
  Forall (fun c => c <> 10) text -> (length text + 2 <= n)%nat ->
  fgets n (text ++ 10 :: rest) = Some (text ++ [10], rest).
Proof.
  intros Ht Hn. unfold fgets.
  assert (fgets_chars (n - 1) (text ++ 10 :: rest) = (text ++ [10], rest)) as ->.
  { destruct n as [|n]; [lia|]. replace (S n - 1)%nat with n by lia. assert (length text < n)%nat as Hlt by lia. clear Hn.
    revert n Hlt. induction Ht as [|c text Hc _ IH]; intros [|n] Hlt; cbn in Hlt; try lia; cbn [app fgets_chars]; [done|].
    rewrite (proj2 (Z.eqb_neq c 10)) by done. rewrite IH by lia. done. }
  by destruct text.
Qed.

Lemma cstring_id l : Forall (fun c => c <> 0) l -> cstring l = l.
Proof.
  intros Hl. apply take_while_all. eapply Forall_impl; [exact Hl|]. cbn. intros c Hc.
  by rewrite (proj2 (Z.eqb_neq c 0)).
Qed.

(** ** Files of clean lines *)

Inductive item :=
  | Blank (n : nat)
  | Comment (text : cstr)
  | Section_ (name : cstr)
  | Plain (key : cstr) (n : nat) (v : cstr)
  | Quoted (q : Z) (key v : cstr)
  | Empty (key : cstr) (n : nat)
  | Bad (text : cstr).

Definition text (it : item) : cstr :=
  match it with
  | Blank n => replicate n 32
  | Comment t => 35 :: t
  | Section_ s => 91 :: s ++ [93]
  | Plain k n v => k ++ replicate n 32 ++ [32; 61; 32] ++ v
  | Quoted q k v => k ++ [32; 61; 32; q] ++ v ++ [q]
  | Empty k n => k ++ replicate n 32 ++ [32; 61; 32]
  | Bad t => t
  end.

Definition render (items : list item) : list Z := concat (map (fun it => text it ++ [10]) items).

(** A character of a line. *)
Definition plain_char (c : Z) : Prop := c <> 10 /\ c <> 0.

(** Names and keys as the reader stores them. *)
Record clean_word (stop : Z) (s : cstr) : Prop := CleanWord {
  cw_ne : s <> [];
  cw_chars : Forall plain_char s;
  cw_trim : trimmed s;
  cw_lower : lowered s;
  cw_len : (length s <= 480)%nat;
  cw_stop : Forall (fun c => c <> stop) s
}.

Record clean_key (s : cstr) : Prop := CleanKey {
  ck_word : clean_word 61 s;
  ck_head : head s <> Some 35 /\ head s <> Some 91
}.

Record clean_value (s : cstr) : Prop := CleanValue {
  cv_ne : s <> [];
  cv_chars : Forall plain_char s;
  cv_trim : trimmed s;
  cv_len : (length s <= 480)%nat
}.

Definition clean (before : Z) (it : item) : Prop :=
  match it with
  | Blank n => before <> 92 /\ (n <= 1000)%nat
  | Comment t => Forall plain_char t /\ (length t <= 999)%nat /\ last (strip_end (35 :: t)) <> Some 92
  | Section_ s => clean_word 93 s
  | Plain k n v =>
      clean_key k /\ (n <= 30)%nat /\ clean_value v /\ Forall (fun c => c <> 59 /\ c <> 35) v /\
      head v <> Some 34 /\ head v <> Some 39 /\ last v <> Some 92
  | Quoted q k v =>
      clean_key k /\ (q = 34 \/ q = 39) /\ clean_value v /\ Forall (fun c => c <> q) v /\
      v <> [34; 34] /\ v <> [39; 39]
  | Empty k n => clean_key k /\ (n <= 30)%nat
  | Bad t =>
      clean_value t /\ head t <> Some 35 /\ head t <> Some 91 /\ Forall (fun c => c <> 61) t /\ last t <> Some 92
  end.

(** ** Parsing a line *)

Lemma trimmed_intro c s l c' : c :: s = l ++ [c'] -> isspace c = false -> isspace c' = false -> trimmed (c :: s).
Proof. intros E Hc Hc'. split; [cbn; by rewrite Hc|]. rewrite E. by apply strip_end_last. Qed.

Lemma spaces_blank n : Forall (fun c => isspace c = true) (replicate n 32).
Proof. by apply Forall_replicate. Qed.

(** What is in front of the equality sign, and what the formats do with it. *)
Lemma sscanf_key k n r fmt :
  k <> [] -> Forall (fun c => c <> 61) k ->
  sscanf (k ++ replicate n 32 ++ 32 :: 61 :: r) (Set_ (neqc 61) :: White :: Lit 61 :: White :: fmt) =
  (k ++ replicate n 32 ++ [32]) :: sscanf (drop_while isspace r) fmt.
Proof.
  intros Hne Hk.
  assert (k ++ replicate n 32 ++ 32 :: 61 :: r = (k ++ replicate n 32 ++ [32]) ++ 61 :: r) as ->
    by (by rewrite <- !app_assoc).
  assert (Forall (fun x => neqc 61 x = true) (k ++ replicate n 32 ++ [32])) as Hf.
  { unfold neqc. repeat apply Forall_app_2; [|by apply Forall_replicate|by repeat constructor].
    eapply Forall_impl; [exact Hk|]. cbn. intros c Hc. by rewrite (proj2 (Z.eqb_neq c 61)). }
  cbn [sscanf]. rewrite take_while_app, drop_while_app by done.
  destruct (k ++ replicate n 32 ++ [32]) eqn:E; [by destruct k|]. cbn. done.
Qed.

Lemma strstrip_key k n :
  clean_key k -> (n <= 30)%nat -> strstrip (k ++ replicate n 32 ++ [32]) = Some k.
Proof.
  intros [[H1 H2 H3 H4 H5 H6] _] Hn. apply (strstrip_blanks k [] (replicate n 32 ++ [32])); try done.
  - apply Forall_app_2; [apply spaces_blank|by repeat constructor].
  - rewrite !length_app, length_replicate. unfold ASCIILINESZ. cbn. lia.
Qed.

(** Lines that start with a key. *)
Lemma line_key k x l s kk v :
  clean_key k -> trimmed (k ++ x) -> (length (k ++ x) <= ASCIILINESZ)%nat -> k ++ x = l ->
  iniparser_line l s kk v =
    match first_match l [fmt_double; fmt_single; fmt_plain] with
    | Some (k, v) =>
        k ← strstrip k;
        v ← strstrip v;
        let v := if bool_decide (v = [34; 34]) || bool_decide (v = [39; 39]) then [] else v in
        Some (LINE_VALUE, (s, strlwc k, v))
    | None =>
        match first_match l [fmt_comment; fmt_empty] with
        | Some (k, _) => k ← strstrip k; Some (LINE_VALUE, (s, strlwc k, []))
        | None => Some (LINE_ERROR, (s, kk, v))
        end
    end.
Proof.
  intros [[H1 _ _ _ _ _] [H2 H3]] Ht Hl <-. unfold iniparser_line. rewrite strstrip_trimmed by done.
  cbn [mbind option_bind]. destruct k as [|c k]; [done|]. cbn [app].
  rewrite (proj2 (Z.eqb_neq c 35)), (proj2 (Z.eqb_neq c 91)) by (intros ->; done). done.
Qed.

Lemma value_format v f : clean_value v -> Forall (fun c => f c = true) v -> sscanf v [Set_ f] = [v].
Proof.
  intros [Hne _ _ _] Hf. cbn [sscanf]. rewrite take_while_all by done. by destruct v.
Qed.

Lemma drop_space v : clean_value v -> drop_while isspace (32 :: v) = v.
Proof. intros [Hne _ [H _] _]. exact H. Qed.

Lemma key_head k : clean_key k -> exists c k', k = c :: k' /\ isspace c = false.
Proof.
  intros [[H1 _ H3 _ _ _] _]. destruct k as [|c k]; [done|]. exists c, k. split; [done|]. by eapply trimmed_head.
Qed.

Lemma key_app_ne k x : clean_key k -> k ++ x <> [].
Proof. intros Hk. destruct (key_head k Hk) as (c & k' & -> & _). done. Qed.

Lemma trimmed_key_value k x l c : clean_key k -> k ++ x = l ++ [c] -> isspace c = false -> trimmed (k ++ x).
Proof.
  intros Hk E Hc. destruct (key_head k Hk) as (c0 & k' & -> & Hc0). by eapply (trimmed_intro c0 (k' ++ x)).
Qed.

Lemma not_both_quotes v : head v <> Some 34 -> head v <> Some 39 ->
  bool_decide (v = [34; 34]) || bool_decide (v = [39; 39]) = false.
Proof. intros H1 H2. rewrite !bool_decide_false; [done|intros ->; done..]. Qed.

Lemma line_plain before k n v s kk vv :
  clean before (Plain k n v) ->
  iniparser_line (strip_end (text (Plain k n v))) s kk vv = Some (LINE_VALUE, (s, k, v)) /\
  last (strip_end (text (Plain k n v))) <> Some 92 /\ strip_end (text (Plain k n v)) <> [].
Proof.
  intros (Hk & Hn & Hv & Hno & Hq1 & Hq2 & Hb). cbn [text].
  pose proof (cv_ne _ Hv) as Hne. destruct (trimmed_last v (cv_trim _ Hv) Hne) as (l & c & El & Hc).
  assert (k ++ replicate n 32 ++ [32; 61; 32] ++ v = (k ++ replicate n 32 ++ [32; 61; 32] ++ l) ++ [c]) as E
    by (rewrite El; by rewrite <- !app_assoc).
  pose proof (trimmed_key_value k _ _ c Hk E Hc) as Ht. rewrite (proj2 Ht).
  assert (last (k ++ replicate n 32 ++ [32; 61; 32] ++ v) = last v) as Hlast
    by (rewrite E, El, !last_snoc; done).
  split; [|split; [by rewrite Hlast|by apply key_app_ne]].
  rewrite (line_key k _ _ _ _ _ Hk Ht); [|rewrite !length_app, length_replicate; cbn; unfold ASCIILINESZ;
    pose proof (cv_len _ Hv); pose proof (cw_len _ _ (ck_word _ Hk)); lia|done].
  pose proof (cw_ne _ _ (ck_word _ Hk)) as Hkne. pose proof (cw_stop _ _ (ck_word _ Hk)) as Hk61.
  cbn [app]. unfold first_match, fmt_double, fmt_single, fmt_plain.
  rewrite !sscanf_key, drop_space, value_format by (done || (eapply Forall_impl; [exact Hno|];
    cbn; intros x [? ?]; unfold neqc; lia)).
  destruct v as [|c0 v']; [done|]. cbn [sscanf].
  rewrite (proj2 (Z.eqb_neq c0 34)), (proj2 (Z.eqb_neq c0 39)) by (intros ->; done).
  rewrite strstrip_key by done. cbn [mbind option_bind].
  rewrite strstrip_trimmed; [|apply (cv_trim _ Hv)|pose proof (cv_len _ Hv); unfold ASCIILINESZ; lia].
  cbn [mbind option_bind]. rewrite not_both_quotes by done.
  rewrite strlwc_lowered; [done|apply (cw_lower _ _ (ck_word _ Hk))|pose proof (cw_len _ _ (ck_word _ Hk)); unfold ASCIILINESZ; lia].
Qed.

Lemma line_quoted before q k v s kk vv :
  clean before (Quoted q k v) ->
  iniparser_line (strip_end (text (Quoted q k v))) s kk vv = Some (LINE_VALUE, (s, k, v)) /\
  last (strip_end (text (Quoted q k v))) <> Some 92 /\ strip_end (text (Quoted q k v)) <> [].
Proof.
  intros (Hk & Hq & Hv & Hno & Hv1 & Hv2). cbn [text].
  pose proof (cv_ne _ Hv) as Hne.
  assert (k ++ [32; 61; 32; q] ++ v ++ [q] = (k ++ [32; 61; 32; q] ++ v) ++ [q]) as E by (by rewrite <- !app_assoc).
  assert (isspace q = false) as Hc by (by destruct Hq as [-> | ->]).
  pose proof (trimmed_key_value k _ _ q Hk E Hc) as Ht. rewrite (proj2 Ht).
  split; [|split; [rewrite E, last_snoc; by destruct Hq as [-> | ->]|by apply key_app_ne]].
  rewrite (line_key k _ _ _ _ _ Hk Ht); [|rewrite !length_app; cbn; unfold ASCIILINESZ;
    pose proof (cv_len _ Hv); pose proof (cw_len _ _ (ck_word _ Hk)); lia|done].
  pose proof (cw_ne _ _ (ck_word _ Hk)) as Hkne. pose proof (cw_stop _ _ (ck_word _ Hk)) as Hk61.
  assert (first_match (k ++ [32; 61; 32; q] ++ v ++ [q]) [fmt_double; fmt_single; fmt_plain] = Some (k ++ [32], v)) as ->.
  { cbn [app]. pose proof (fun r fmt => sscanf_key k 0 r fmt Hkne Hk61) as Hs. cbn [replicate app] in Hs.
    unfold first_match, fmt_double, fmt_single. rewrite !Hs.
    assert (drop_while isspace (32 :: q :: v ++ [q]) = q :: v ++ [q]) as -> by (cbn; by rewrite Hc).
    destruct Hq as [-> | ->]; cbn [sscanf].
    - rewrite Z.eqb_refl. rewrite take_while_app, drop_while_app by
        (done || (eapply Forall_impl; [exact Hno|]; cbn; intros x ?; unfold neqc; lia)). by destruct v.
    - rewrite (proj2 (Z.eqb_neq 39 34)), Z.eqb_refl by done. rewrite take_while_app, drop_while_app by
        (done || (eapply Forall_impl; [exact Hno|]; cbn; intros x ?; unfold neqc; lia)). by destruct v. }
  pose proof (strstrip_key k 0 Hk ltac:(lia)) as Hs. cbn [replicate app] in Hs. rewrite Hs. cbn [mbind option_bind].
  rewrite strstrip_trimmed; [|apply (cv_trim _ Hv)|pose proof (cv_len _ Hv); unfold ASCIILINESZ; lia].
  cbn [mbind option_bind]. rewrite !bool_decide_false by done. cbn [orb].
  rewrite strlwc_lowered; [done|apply (cw_lower _ _ (ck_word _ Hk))|pose proof (cw_len _ _ (ck_word _ Hk)); unfold ASCIILINESZ; lia].
Qed.

Lemma line_empty_value before k n s kk vv :
  clean before (Empty k n) ->
  iniparser_line (strip_end (text (Empty k n))) s kk vv = Some (LINE_VALUE, (s, k, [])) /\
  last (strip_end (text (Empty k n))) <> Some 92 /\ strip_end (text (Empty k n)) <> [].
Proof.
  intros (Hk & Hn). cbn [text].
  assert (k ++ replicate n 32 ++ [32; 61; 32] = (k ++ replicate n 32 ++ [32; 61]) ++ [32]) as ->
    by (by rewrite <- !app_assoc).
  rewrite strip_end_app by (by repeat constructor).
  assert (k ++ replicate n 32 ++ [32; 61] = (k ++ replicate n 32 ++ [32]) ++ [61]) as E by (by rewrite <- !app_assoc).
  pose proof (trimmed_key_value k _ _ 61 Hk E eq_refl) as Ht. rewrite (proj2 Ht).
  split; [|split; [by rewrite E, last_snoc|by apply key_app_ne]].
  rewrite (line_key k _ _ _ _ _ Hk Ht); [|rewrite !length_app, length_replicate; cbn; unfold ASCIILINESZ;
    pose proof (cw_len _ _ (ck_word _ Hk)); lia|done].
  pose proof (cw_ne _ _ (ck_word _ Hk)) as Hkne. pose proof (cw_stop _ _ (ck_word _ Hk)) as Hk61.
  assert (first_match (k ++ replicate n 32 ++ [32; 61]) [fmt_double; fmt_single; fmt_plain] = None) as ->
    by (unfold first_match, fmt_double, fmt_single, fmt_plain; by rewrite !sscanf_key).
  assert (first_match (k ++ replicate n 32 ++ [32; 61]) [fmt_comment; fmt_empty] = Some (k ++ replicate n 32 ++ [32], [61])) as ->.
  { unfold first_match, fmt_comment, fmt_empty. rewrite sscanf_key by done. cbn [drop_while sscanf take_while].
    rewrite E.
    assert (Forall (fun x => neqc 61 x = true) (k ++ replicate n 32 ++ [32])) as Hf.
    { unfold neqc. repeat apply Forall_app_2; [|by apply Forall_replicate|by repeat constructor].
      eapply Forall_impl; [exact Hk61|]. cbn. intros c Hc. by rewrite (proj2 (Z.eqb_neq c 61)). }
    rewrite take_while_app, drop_while_app by done. by destruct k. }
  rewrite strstrip_key by done. cbn [mbind option_bind].
  rewrite strlwc_lowered; [done|apply (cw_lower _ _ (ck_word _ Hk))|pose proof (cw_len _ _ (ck_word _ Hk)); unfold ASCIILINESZ; lia].
Qed.

Lemma line_bad before t s kk vv :
  clean before (Bad t) ->
  iniparser_line (strip_end (text (Bad t))) s kk vv = Some (LINE_ERROR, (s, kk, vv)) /\
  last (strip_end (text (Bad t))) <> Some 92 /\ strip_end (text (Bad t)) <> [].
Proof.
  intros (Hv & H1 & H2 & H3 & Hb). cbn [text]. pose proof (cv_trim _ Hv) as Ht. pose proof (cv_ne _ Hv) as Hne.
  rewrite (proj2 Ht). split; [|done]. unfold iniparser_line.
  rewrite strstrip_trimmed; [|done|pose proof (cv_len _ Hv); unfold ASCIILINESZ; lia]. cbn [mbind option_bind].
  destruct t as [|c t]; [done|]. rewrite (proj2 (Z.eqb_neq c 35)), (proj2 (Z.eqb_neq c 91)) by (intros ->; done).
  cbn [andb].
  assert (forall fmt, sscanf (c :: t) (Set_ (neqc 61) :: White :: Lit 61 :: fmt) = [c :: t] /\
    sscanf (c :: t) (Set_ (neqc 61) :: White :: Set_ (eqc 61) :: fmt) = [c :: t]) as Hs.
  { assert (Forall (fun x => neqc 61 x = true) (c :: t)) as Hf.
    { eapply Forall_impl; [exact H3|]. cbn. unfold neqc. intros; lia. }
    intros fmt. split; cbn [sscanf];
      rewrite take_while_all, (drop_while_all (neqc 61)) by done; done. }
  unfold first_match, fmt_double, fmt_single, fmt_plain, fmt_comment, fmt_empty.
  by rewrite !(proj1 (Hs _)), (proj2 (Hs _)).
Qed.

Lemma line_section before n s kk vv :
  clean before (Section_ n) ->
  iniparser_line (strip_end (text (Section_ n))) s kk vv = Some (LINE_SECTION, (n, kk, vv)) /\
  last (strip_end (text (Section_ n))) <> Some 92 /\ strip_end (text (Section_ n)) <> [].
Proof.
  intros [H1 H2 H3 H4 H5 H6]. cbn [text].
  pose proof (trimmed_intro 91 (n ++ [93]) (91 :: n) 93 eq_refl eq_refl eq_refl) as Ht. rewrite (proj2 Ht).
  assert (last (91 :: n ++ [93]) = Some 93) as Hl by (rewrite app_comm_cons; apply last_snoc).
  split; [|split; [by rewrite Hl|done]]. unfold iniparser_line.
  rewrite strstrip_trimmed; [|done|cbn; rewrite length_app; cbn; unfold ASCIILINESZ; lia]. cbn [mbind option_bind].
  rewrite Hl, bool_decide_true by done. cbn [Z.eqb Pos.eqb andb]. unfold fmt_section. cbn [sscanf Z.eqb Pos.eqb].
  rewrite take_while_app by (done || (eapply Forall_impl; [exact H6|]; cbn; unfold neqc; intros; lia)).
  destruct n as [|c n]; [done|]. cbn [head default from_option]. unfold id.
  rewrite strstrip_trimmed by (done || unfold ASCIILINESZ; lia). cbn [mbind option_bind].
  rewrite strlwc_lowered by (done || unfold ASCIILINESZ; lia). done.
Qed.

Lemma line_comment before t s kk vv :
  clean before (Comment t) ->
  iniparser_line (strip_end (text (Comment t))) s kk vv = Some (LINE_COMMENT, (s, kk, vv)) /\
  last (strip_end (text (Comment t))) <> Some 92 /\ strip_end (text (Comment t)) <> [].
Proof.
  intros (H1 & H2 & H3). cbn [text].
  assert (exists l, strip_end (35 :: t) = 35 :: l /\ (length l <= length t)%nat /\ strip_end l = l) as (l & E & Hl & Hi).
  { exists (strip_end t). split_and!; [|apply strip_end_length|apply strip_end_idem].
    cbn. by destruct (strip_end t). }
  rewrite E in *. split; [|done]. unfold iniparser_line.
  assert (strip_end (35 :: l) = 35 :: l) as Hs by (cbn; rewrite Hi; by destruct l).
  rewrite strstrip_trimmed; [done|by split|cbn; unfold ASCIILINESZ; lia].
Qed.

Lemma line_blank n s kk vv :
  iniparser_line (strip_end (text (Blank n))) s kk vv = Some (LINE_EMPTY, (s, kk, vv)) /\ strip_end (text (Blank n)) = [].
Proof. cbn [text]. rewrite strip_end_blank by apply spaces_blank. by split. Qed.

(** ** Loading clean lines *)

(** What a line does to the section, the map and the count of errors: a section or
    value line overwrites the count. *)
Definition meaning_turn (st : cstr * gmap cstr (option cstr) * Z) (it : item) : cstr * gmap cstr (option cstr) * Z :=
  let '(sec, M, e) := st in
  match it with
  | Blank _ | Comment _ => st
  | Section_ s => (s, <[s := None]> M, 0)
  | Plain k _ v | Quoted _ k v => (sec, <[sec ++ 58 :: k := Some v]> M, 0)
  | Empty k _ => (sec, <[sec ++ 58 :: k := Some []]> M, 0)
  | Bad _ => (sec, M, e + 1)
  end.
Definition meaning (items : list item) : cstr * gmap cstr (option cstr) * Z :=
  foldl meaning_turn ([], ∅, 0) items.

Lemma dictionary_set_size m d k v r d' :
  dictionary_set m d k v = Some (r, d') -> n d' <= n d + 1 /\ size d' <= Z.max (size d) (2 * n d).
Proof.
  unfold dictionary_set. intros H. apply bind_Some in H as (i & _ & H). case_match.
  - repeat (apply bind_Some in H as (? & _ & H)). simplify_eq/=. lia.
  - apply bind_Some in H as ([ok d1] & Hg & H).
    assert (n d1 = n d /\ size d1 <= Z.max (size d) (2 * n d)) as [Hn Hs].
    { unfold grow in Hg. destruct (n d =? size d) eqn:E; [|simplify_eq/=; lia].
      repeat (apply bind_Some in Hg as (? & _ & Hg)).
      repeat case_match; simplify_eq/=; lia. }
    destruct ok; [|simplify_eq/=; lia].
    unfold insert_slot in H. repeat (apply bind_Some in H as (? & _ & H)). simplify_eq/=. lia.
Qed.

Lemma char_at_last before l c : char_at before (l ++ [c]) (Z.of_nat (length (l ++ [c])) - 1) = c.
Proof.
  unfold char_at. rewrite length_app. cbn [length].
  rewrite (proj2 (Z.ltb_ge _ _)) by lia. rewrite app_nth2 by lia.
  by replace (_ - _)%nat with 0%nat by lia.
Qed.

Lemma char_at_ne before l :
  (l = [] /\ before <> 92) \/ (l <> [] /\ last l <> Some 92) ->
  char_at before l (Z.of_nat (length l) - 1) =? 92 = false.
Proof.
  intros [[-> Hb]|[Hne Hl]]; [by apply Z.eqb_neq|].
  destruct l as [|c l _] using rev_ind; [done|]. rewrite char_at_last. rewrite last_snoc in Hl.
  apply Z.eqb_neq. by intros ->.
Qed.

(** A turn that reads a line without a continuation. *)
Lemma load_turn_line m before t rest sec k v d e st sec' k' v' :
  Forall plain_char t -> (length t <= 1000)%nat ->
  (strip_end t = [] /\ before <> 92) \/ (strip_end t <> [] /\ last (strip_end t) <> Some 92) ->
  iniparser_line (strip_end t) sec k v = Some (st, (sec', k', v')) ->
  load_turn m before (Loader (t ++ 10 :: rest) [] 0 sec k v d e) =
    '(e, d) ← match st with
              | LINE_SECTION => dictionary_set m d sec' None
              | LINE_VALUE =>
                  _ ← ensure (length sec' + 1 + length k' <=? ASCIILINESZ)%nat;
                  dictionary_set m d (sec' ++ [58] ++ k') (Some v')
              | LINE_ERROR => Some (e + 1, d)
              | _ => Some (e, d)
              end;
    if e <? 0 then Some (inr None) else Some (inl (Loader rest [] 0 sec' k' v' d e)).
Proof.
  intros Ht Hl Hb Hline. unfold load_turn. cbn [file line last_ section key_ value dict errs].
  rewrite fgets_line; [|eapply Forall_impl; [exact Ht|by intros ? [? ?]]|unfold ASCIILINESZ; lia].
  cbn [take app].
  rewrite cstring_id by (apply Forall_app_2; [eapply Forall_impl; [exact Ht|by intros ? [? ?]]|by repeat constructor]).
  rewrite char_at_last. cbn [Z.eqb Pos.eqb negb]. rewrite (strip_end_app t [10]) by (by repeat constructor).
  rewrite char_at_ne by done. rewrite Hline. cbn [mbind option_bind]. reflexivity.
Qed.

Lemma clean_text before it : clean before it -> Forall plain_char (text it) /\ (length (text it) <= 1000)%nat.
Proof.
  assert (forall n, Forall plain_char (replicate n 32)) as Hr by (intros; by apply Forall_replicate).
  assert (forall k, clean_key k -> Forall plain_char k /\ (length k <= 480)%nat) as Hkey by (by intros k [[] _]).
  assert (forall k, clean_value k -> Forall plain_char k /\ (length k <= 480)%nat) as Hval by (by intros k []).
  destruct it; cbn [clean text].
  - intros [_ H]. rewrite length_replicate. done.
  - intros (H & H' & _). split; [by constructor|]. cbn. lia.
  - intros [_ H _ _ H' _]. split; [constructor; [done|]; apply Forall_app_2; [done|by repeat constructor]|].
    cbn. rewrite length_app. cbn. lia.
  - intros (Hk%Hkey & Hn & Hv%Hval & _). split.
    + repeat apply Forall_app_2; [apply Hk|apply Hr|by repeat constructor|apply Hv].
    + rewrite !length_app, length_replicate. cbn. lia.
  - intros (Hk%Hkey & Hq & Hv%Hval & _). split.
    + destruct Hq as [-> | ->];
        repeat apply Forall_app_2; (apply Hk || apply Hv || by repeat constructor).
    + rewrite !length_app. cbn. lia.
  - intros (Hk%Hkey & Hn). split.
    + repeat apply Forall_app_2; [apply Hk|apply Hr|by repeat constructor].
    + rewrite !length_app, length_replicate. cbn. lia.
  - intros (Hv%Hval & _). split; [apply Hv|lia].
Qed.

(** The loader in front of the lines [items], with the section, map and errors [st];
    [b] bounds the entries. *)
Record loads (items : list item) (st : cstr * gmap cstr (option cstr) * Z) (b : Z) (s : loader) : Prop := Loads {
  ld_file : file s = render items;
  ld_line : line s = [] /\ last_ s = 0%nat;
  ld_section : section s = st.1.1 /\ (length (section s) <= 480)%nat;
  ld_dict : represents (dict s) st.1.2;
  ld_errs : errs s = st.2 /\ 0 <= errs s;
  ld_size : n (dict s) <= b /\ size (dict s) <= 128 + 2 * b
}.

(** What the dictionary makes of a section or value line. *)
Lemma loads_set items rest b s M k o sec kk vv st :
  represents (dict s) M -> n (dict s) <= b /\ size (dict s) <= 128 + 2 * b -> b < 2 ^ 25 ->
  (length sec <= 480)%nat -> rest = render items -> st = (sec, <[k := o]> M, 0) ->
  exists s', ('(e, d) ← dictionary_set enough (dict s) k o;
    if e <? 0 then Some (inr None) else Some (inl (Loader rest [] 0 sec kk vv d e))) =
    Some (inl s' : loader + option dictionary) /\ loads items st (b + 1) s'.
Proof.
  intros HM [Hn Hs] Hb Hsec -> ->.
  destruct (set_ok (dict s) M k o HM ltac:(lia)) as (d' & Hset & HM').
  pose proof (dictionary_set_size _ _ _ _ _ _ Hset) as [Hn' Hs']. rewrite Hset. cbn [mbind option_bind].
  eexists. split; [reflexivity|]. split; cbn; try done. lia.
Qed.

Lemma load_item before it items st b s :
  clean before it -> loads (it :: items) st b s -> b < 2 ^ 25 ->
  exists s', load_turn enough before s = Some (inl s') /\ loads items (meaning_turn st it) (b + 1) s'.
Proof.
  intros Hc [Hf [Hl Hl'] [Hs Hslen] Hd [He He0] Hsz] Hb.
  pose proof (clean_text before it Hc) as [Ht Htl].
  destruct s as [f l la sec k v d e], st as [[sec' M] e']. cbn in Hf, Hl, Hl', Hs, He, Hd, Hsz, Hslen, He0.
  subst f l la sec' e'. unfold render. cbn [map concat]. rewrite <- app_assoc. cbn [app].
  set (rest := concat _).
  assert (forall n, strip_end (text (Blank n)) = []) as Hblank by (intros; apply (line_blank _ [] [] [])).
  destruct it as [nb|t|nm|ky nb w|q ky w|ky nb|t]; cbn [meaning_turn].
  1: edestruct (line_blank nb sec k v) as [Hline _].
  2: destruct (line_comment before t sec k v Hc) as (Hline & Hne).
  3: destruct (line_section before nm sec k v Hc) as (Hline & Hne).
  4: destruct (line_plain before ky nb w sec k v Hc) as (Hline & Hne).
  5: destruct (line_quoted before q ky w sec k v Hc) as (Hline & Hne).
  6: destruct (line_empty_value before ky nb sec k v Hc) as (Hline & Hne).
  7: destruct (line_bad before t sec k v Hc) as (Hline & Hne).
  1: rewrite (load_turn_line _ _ _ _ _ _ _ _ _ _ _ _ _ Ht Htl (or_introl (conj (Hblank _) (proj1 Hc))) Hline).
  2-7: rewrite (load_turn_line _ _ _ _ _ _ _ _ _ _ _ _ _ Ht Htl
         (or_intror (conj (proj2 Hne) (proj1 Hne))) Hline).
  1, 2, 7: cbn [mbind option_bind]; rewrite (proj2 (Z.ltb_ge _ _)) by lia;
    (eexists; split; [reflexivity|]; split; cbn; try done; lia).
  1: cbn [clean] in Hc; apply (loads_set items rest b (Loader [] [] 0 sec k v d e) M); try done; apply (cw_len _ _ Hc).
  all: assert (length ky <= 480)%nat by (apply (cw_len 61); apply (ck_word ky); apply Hc);
    rewrite (proj2 (Nat.leb_le _ _)) by (unfold ASCIILINESZ; lia); cbn [ensure mbind option_bind app];
    by apply (loads_set items rest b (Loader [] [] 0 sec k v d e) M).
Qed.

Lemma load_items before items : forall st b s fuel,
  Forall (clean before) items -> loads items st b s -> b + Z.of_nat (length items) < 2 ^ 25 ->
  (length items < fuel)%nat ->
  let st' := foldl meaning_turn st items in
  exists d, cloop fuel (load_turn enough before) s = Some (if st'.2 =? 0 then Some d else None) /\ represents d st'.1.2.
Proof.
  induction items as [|it items IH]; intros st b s [|fuel] Hc Hs Hb Hfuel; cbn [length] in *; try lia.
  - destruct Hs as [Hf [_ Hl] _ Hd [He _] _]. exists (dict s). split; [|done].
    cbn [cloop]. unfold load_turn. rewrite Hf, Hl. cbn. by rewrite He.
  - apply Forall_cons in Hc as [Hit Hc].
    destruct (load_item before it items st b s Hit Hs ltac:(lia)) as (s' & Hturn & Hs').
    cbn [cloop foldl]. rewrite Hturn. apply (IH _ (b + 1)); [done|done|lia|lia].
Qed.

Lemma render_length items : (length items <= length (render items))%nat.
Proof.
  unfold render. induction items as [|it items IH]; cbn; [done|]. rewrite !length_app. cbn. lia.
Qed.

Lemma load_render before items :
  Forall (clean before) items -> Z.of_nat (length items) < 2 ^ 25 ->
  exists d, iniparser_load enough before (render items) = Some (if (meaning items).2 =? 0 then Some d else None) /\
    represents d (meaning items).1.2.
Proof.
  intros Hc Hl. unfold iniparser_load.
  apply (load_items before items ([], ∅, 0) 0 (Loader (render items) [] 0 [] [] [] (dictionary_new 0) 0)
    (S (length (render items)))); [done| |lia|pose proof (render_length items); lia].
  split; cbn [file line last_ section dict errs fst snd]; try done; [split; [done|cbn; lia]|apply new_ok].
Qed.

(** ** Writing a dictionary and loading it again *)

(** The section names, in the order of the slots. *)
Definition sections (keys : list (option cstr)) : list cstr :=
  omap (fun o => k ← o; if has_colon k then None else Some k) keys.

Lemma secname_from_sections keys : forall f n, f <= n ->
  secname_from keys f n = sections keys !! Z.to_nat (n - f).
Proof.
  unfold sections. induction keys as [|[k|] keys IH]; intros f m Hle; cbn; [done| |by apply IH].
  destruct (has_colon k); [by apply IH|]. destruct (f + 1 >? m) eqn:E.
  - by replace (Z.to_nat (m - f)) with 0%nat by lia.
  - rewrite IH by lia. by replace (Z.to_nat (m - f)) with (S (Z.to_nat (m - (f + 1)))) by lia.
Qed.

Lemma count_sections keys : forall a,
  foldl (fun nsec o => match o with Some k => if has_colon k then nsec else nsec + 1 | None => nsec end) a keys =
  a + Z.of_nat (length (sections keys)).
Proof.
  unfold sections. induction keys as [|[k|] keys IH]; intros a; cbn [foldl omap list_omap mbind option_bind];
    [cbn; lia| |by rewrite IH].
  destruct (has_colon k); rewrite IH; cbn [length]; lia.
Qed.

Lemma elem_of_sections keys k : k ∈ sections keys <-> Some k ∈ keys /\ has_colon k = false.
Proof.
  unfold sections. rewrite list_elem_of_omap. split.
  - intros (o & Ho & Hk). apply bind_Some in Hk as (k' & -> & Hk). destruct (has_colon k') eqn:E; by simplify_eq.
  - intros [Hk E]. exists (Some k). split; [done|]. cbn. by rewrite E.
Qed.

(** The value line of a slot below a section. *)
Definition entry_item (secname : cstr) (slot : option cstr * option cstr) : option item :=
  match slot with
  | (Some k, v) =>
      if bool_decide (take (length secname + 1) k = secname ++ [58]) then
        let k := drop (length secname + 1) k in
        Some (match default [] v with [] => Empty k (30 - length k) | w => Plain k (30 - length k) w end)
      else None
  | (None, _) => None
  end.
Definition section_items (slots : list (option cstr * option cstr)) (secname : cstr) : list item :=
  Blank 0 :: Section_ secname :: omap (entry_item secname) slots.

Lemma render_app a b : render (a ++ b) = render a ++ render b.
Proof. unfold render. by rewrite map_app, concat_app. Qed.

Lemma render_entries sec slots : render (omap (entry_item sec) slots) = concat (map (dump_entry sec) slots).
Proof.
  induction slots as [|[[k|] v] slots IH]; [done| |exact IH].
  cbn [map concat omap list_omap]. rewrite <- IH. unfold entry_item at 1, dump_entry.
  destruct (bool_decide _); [|done]. cbn zeta.
  set (key := drop _ k). clearbody key.
  unfold render, pad. cbn [map concat]. f_equal.
  destruct (default [] v); cbn [text]; by rewrite <- !app_assoc.
Qed.

Lemma dump_sections slots cnt (get : nat -> option (option cstr)) (secs : list cstr) :
  (forall i, get i = Some (secs !! i)) -> Forall (fun s => (length s <= 480)%nat) secs ->
  (cnt <= length secs)%nat ->
  foldl (fun out i =>
    out ← out; secname ← get i; secname ← secname;
    _ ← ensure (length secname + 2 <=? ASCIILINESZ + 1)%nat;
    Some (out ++ [10; 91] ++ secname ++ [93; 10] ++ concat (map (dump_entry secname) slots)))
    (Some []) (seq 0 cnt) = Some (render (concat (map (section_items slots) (take cnt secs)))).
Proof.
  intros Hget Hlen. induction cnt as [|i IH]; intros Hle; [done|].
  rewrite seq_S, foldl_app, IH by lia. cbn [foldl mbind option_bind]. rewrite Hget.
  destruct (lookup_lt_is_Some_2 secs i ltac:(lia)) as [sec Hsec].
  change (0 + i)%nat with i. rewrite Hsec. cbn [mbind option_bind].
  assert (length sec <= 480)%nat by (by eapply (Forall_lookup_1 (fun s : cstr => length s <= 480)%nat)).
  rewrite (proj2 (Nat.leb_le _ _)) by (unfold ASCIILINESZ; lia). cbn [ensure mbind option_bind].
  rewrite (take_S_r _ _ _ Hsec), map_app, concat_app, render_app. cbn [map concat]. rewrite app_nil_r.
  f_equal. f_equal. unfold section_items. rewrite <- render_entries. unfold render. cbn [map concat text replicate app]. by rewrite <- !app_assoc.
Qed.

(** The pairs a section writes, and the map a list of pairs writes. *)
Definition entry_pair (secname : cstr) (slot : option cstr * option cstr) : option (cstr * option cstr) :=
  k ← slot.1; if bool_decide (take (length secname + 1) k = secname ++ [58]) then Some (k, slot.2) else None.
Definition section_pairs (slots : list (option cstr * option cstr)) (secname : cstr) : list (cstr * option cstr) :=
  (secname, None) :: omap (entry_pair secname) slots.
Definition write (M : gmap cstr (option cstr)) (kv : cstr * option cstr) : gmap cstr (option cstr) := <[kv.1 := kv.2]> M.

Lemma write_all (M M0 : gmap cstr (option cstr)) L :
  Forall (fun kv => M !! kv.1 = Some kv.2) L -> M0 ⊆ M ->
  foldl write M0 L ⊆ M /\ forall k, k ∈ dom M0 \/ k ∈ L.*1 -> k ∈ dom (foldl write M0 L).
Proof.
  intros HL. revert M0. induction HL as [|[k v] L Hk _ IH]; intros M0 HM; cbn [foldl].
  - split; [done|]. intros k [Hk|Hk]; [done|by apply not_elem_of_nil in Hk].
  - destruct (IH (write M0 (k, v))) as [H1 H2]; [by apply insert_subseteq_l|]. split; [done|].
    intros k' Hk'. apply H2. unfold write. rewrite dom_insert_L. cbn in *.
    destruct Hk' as [Hk'|[-> |Hk']%elem_of_cons]; set_solver.
Qed.

Lemma write_all_eq (M : gmap cstr (option cstr)) L :
  Forall (fun kv => M !! kv.1 = Some kv.2) L -> (forall k, is_Some (M !! k) -> k ∈ L.*1) -> foldl write ∅ L = M.
Proof.
  intros HL Hdom. destruct (write_all M ∅ L HL) as [H1 H2]; [apply map_empty_subseteq|].
  apply map_eq. intros k. destruct (M !! k) as [v|] eqn:E.
  - destruct (foldl write ∅ L !! k) as [v'|] eqn:E'.
    + pose proof (lookup_weaken _ _ _ _ E' H1). congruence.
    + apply not_elem_of_dom in E'. destruct E'. apply H2. right. by apply Hdom.
  - destruct (foldl write ∅ L !! k) as [v'|] eqn:E'; [|done].
    pose proof (lookup_weaken _ _ _ _ E' H1). congruence.
Qed.

(** A map whose dump is a file of clean lines. *)
Definition dumpable_value (w : cstr) : Prop :=
  w = [] \/ (clean_value w /\ Forall (fun c => c <> 59 /\ c <> 35) w /\
            head w <> Some 34 /\ head w <> Some 39 /\ last w <> Some 92).
Definition dumpable_entry (M : gmap cstr (option cstr)) (k : cstr) (v : option cstr) : Prop :=
  if has_colon k then
    exists sec key w, k = sec ++ 58 :: key /\ has_colon sec = false /\ is_Some (M !! sec) /\ v = Some w /\
      clean_key key /\ dumpable_value w
  else v = None /\ clean_word 93 k.
Definition dumpable (M : gmap cstr (option cstr)) : Prop :=
  (exists sec, is_Some (M !! sec) /\ has_colon sec = false) /\ map_Forall (dumpable_entry M) M.

Lemma has_colon_app a b : has_colon (a ++ b) = has_colon a || has_colon b.
Proof. apply existsb_app. Qed.

(** The section of an entry is what is in front of the first colon. *)
Lemma section_prefix sec sec' key :
  has_colon sec = false -> has_colon sec' = false ->
  take (length sec' + 1) (sec ++ 58 :: key) = sec' ++ [58] -> sec' = sec.
Proof.
  intros H H' E.
  assert (sec ++ 58 :: key = sec' ++ 58 :: drop (length sec' + 1) (sec ++ 58 :: key)) as Eq
    by (rewrite <- (take_drop (length sec' + 1) (sec ++ 58 :: key)) at 1; rewrite E, <- app_assoc; done).
  clear E. revert Eq. generalize (drop (length sec' + 1) (sec ++ 58 :: key)). intros r Eq. revert r sec' H' Eq.
  induction sec as [|c sec IH]; intros r [|c' sec'] H' Eq; [done| | |].
  - exfalso. injection Eq as <- _. done.
  - exfalso. injection Eq as -> _. done.
  - injection Eq as <- Eq. cbn in H, H'. apply orb_false_iff in H as [_ H]. apply orb_false_iff in H' as [_ H'].
    f_equal. by eapply IH.
Qed.

(** ** Items of a dumpable map *)

Section dump.
Context (M : gmap cstr (option cstr)) (slots : list (option cstr * option cstr)).
Context (HM : map_Forall (dumpable_entry M) M).
Context (Hslots : forall k v, (Some k, v) ∈ slots -> M !! k = Some v).

(** A slot below a section, as a line. *)
Lemma entry_line sec o v it :
  has_colon sec = false -> (o, v) ∈ slots -> entry_item sec (o, v) = Some it ->
  exists k, o = Some k /\ entry_pair sec (o, v) = Some (k, v) /\ M !! k = Some v /\
    (forall before, clean before it) /\
    forall M' e, meaning_turn (sec, M', e) it = (sec, <[k := v]> M', 0).
Proof.
  intros Hsec Hin Hit. destruct o as [k|]; [|done]. exists k. cbn in *.
  case_bool_decide as E; [|done]. pose proof (Hslots k v Hin) as Hk. pose proof (HM k v Hk) as He.
  unfold dumpable_entry in He.
  assert (has_colon k = true) as Hc.
  { rewrite <- (take_drop (length sec + 1) k), E, !has_colon_app. cbn. by rewrite orb_true_r. }
  rewrite Hc in He. destruct He as (sec' & key & w & -> & Hs' & _ & -> & Hkey & Hw).
  apply section_prefix in E as <-; [|done..].
  assert (drop (length sec + 1) (sec ++ 58 :: key) = key) as Ed.
  { change (58 :: key) with ([58] ++ key). rewrite app_assoc. apply drop_app_length'. by rewrite length_app. }
  rewrite Ed in Hit. split_and!; try done.
  - intros before. injection Hit as <-. cbn. destruct w as [|c w]; cbn.
    + split; [done|lia].
    + destruct Hw as [Hw|(? & ? & ? & ? & ?)]; [done|]. split_and!; (done || lia).
  - intros M' e. injection Hit as <-. by destruct w.
Qed.

Lemma entries_meaning sec l M' :
  has_colon sec = false -> l ⊆ slots ->
  foldl meaning_turn (sec, M', 0) (omap (entry_item sec) l) = (sec, foldl write M' (omap (entry_pair sec) l), 0) /\
  (forall before, Forall (clean before) (omap (entry_item sec) l)).
Proof.
  intros Hsec. revert M'. induction l as [|[o v] l IH]; intros M' Hl; [done|].
  assert ((o, v) ∈ slots) as Hin by (apply Hl; constructor). assert (l ⊆ slots) as Hl' by set_solver.
  cbn [omap list_omap]. destruct (entry_item sec (o, v)) as [it|] eqn:E.
  - destruct (entry_line sec o v it Hsec Hin E) as (k & -> & -> & _ & Hc & Ht). cbn [foldl]. rewrite Ht.
    change (<[k := v]> M') with (write M' (k, v)). destruct (IH (write M' (k, v)) Hl') as [-> H].
    split; [done|]. intros before. constructor; [apply Hc|apply H].
  - assert (entry_pair sec (o, v) = None) as ->; [|by apply IH].
    unfold entry_item, entry_pair in *. destruct o as [k|]; [|done]. cbn. by case_bool_decide.
Qed.

Lemma sections_meaning secs : forall sec M' e,
  Forall (fun s => has_colon s = false /\ M !! s = Some None /\ clean_word 93 s) secs -> (e = 0 \/ secs <> []) ->
  exists sec', foldl meaning_turn (sec, M', e) (concat (map (section_items slots) secs)) =
    (sec', foldl write M' (concat (map (section_pairs slots) secs)), 0) /\
  (forall before, before <> 92 -> Forall (clean before) (concat (map (section_items slots) secs))).
Proof.
  induction secs as [|s secs IH]; intros sec M' e Hs He; cbn [map concat].
  - exists sec. destruct He as [-> |]; done.
  - apply Forall_cons in Hs as [(Hc & HMs & Hw) Hs]. unfold section_items at 1 3. unfold section_pairs at 1.
    rewrite <- !app_comm_cons. cbn [foldl meaning_turn]. rewrite !foldl_app.
    destruct (entries_meaning s slots (<[s := None]> M') Hc ltac:(done)) as [-> Hcl].
    destruct (IH s (foldl write (write M' (s, None)) (omap (entry_pair s) slots)) 0 Hs (or_introl eq_refl)) as (sec' & E & Hcl').
    exists sec'. split; [exact E|]. intros before Hb. constructor; [split; [done|lia]|]. constructor; [done|].
    apply Forall_app_2; [apply Hcl|by apply Hcl'].
Qed.
End dump.

(** ** What is written is read back *)

Lemma dump_render d keys vals hs :
  dict_inv d keys vals hs -> sections keys <> [] -> Forall (fun s => (length s <= 480)%nat) (sections keys) ->
  iniparser_dump_ini d =
    Some (render (concat (map (section_items (zip keys vals)) (sections keys)) ++ [Blank 0])).
Proof.
  intros Hi Hne Hlen. destruct (inv_lens _ _ _ _ Hi) as (L1 & L2 & _).
  assert (iniparser_getnsec d = Some (Z.of_nat (length (sections keys)))) as Hn.
  { unfold iniparser_getnsec. rewrite (inv_key _ _ _ _ Hi). cbn [mbind option_bind].
    rewrite mread_ok by lia. cbn [mbind option_bind]. rewrite drop_0, take_ge, count_sections by lia. done. }
  unfold iniparser_dump_ini. rewrite Hn, (inv_key _ _ _ _ Hi). cbn [mbind option_bind].
  rewrite mread_ok by lia. cbn [mbind option_bind]. rewrite (inv_val _ _ _ _ Hi). cbn [mbind option_bind].
  rewrite mread_ok by lia. cbn [mbind option_bind]. rewrite !drop_0, !take_ge by lia.
  rewrite (proj2 (Z.ltb_ge _ _)) by (destruct (sections keys); [done|cbn; lia]).
  rewrite Nat2Z.id.
  match goal with |- context [foldl ?f (Some []) ?l] =>
    assert (foldl f (Some []) l = Some (render (concat (map (section_items (zip keys vals))
      (take (length (sections keys)) (sections keys)))))) as Hd end.
  { apply (dump_sections (zip keys vals) (length (sections keys))
      (fun i => iniparser_getsecname d (Z.of_nat i))); [intros i|done|done].
    unfold iniparser_getsecname. rewrite (proj2 (Z.ltb_ge _ _)) by lia.
    rewrite (inv_key _ _ _ _ Hi). cbn [mbind option_bind]. rewrite mread_ok by lia. cbn [mbind option_bind].
    rewrite drop_0, take_ge, secname_from_sections by lia. by rewrite Z.sub_0_r, Nat2Z.id. }
  rewrite Hd. cbn [mbind option_bind]. rewrite firstn_all, render_app. reflexivity.
Qed.

Lemma slots_zip keys vals M k v : slots_map keys vals M -> (Some k, v) ∈ zip keys vals <-> M !! k = Some v.
Proof.
  intros HM. rewrite (HM k v), list_elem_of_lookup. split; intros [i Hi]; exists i.
  - apply lookup_zip_with_Some in Hi as (? & ? & [= <- <-] & ? & ?). done.
  - apply lookup_zip_with_Some. by exists (Some k), v.
Qed.

(** Every pair of a dumpable map is written, with the value it has. *)
Lemma pairs_all keys vals M :
  slots_map keys vals M -> length keys = length vals -> dumpable M ->
  Forall (fun s => has_colon s = false /\ M !! s = Some None /\ clean_word 93 s) (sections keys) /\
  foldl write ∅ (concat (map (section_pairs (zip keys vals)) (sections keys))) = M.
Proof.
  intros Hs Hlen [_ HM].
  assert (forall k, k ∈ sections keys <-> has_colon k = false /\ M !! k = Some None /\ clean_word 93 k) as Hsec.
  { intros k. rewrite elem_of_sections. split.
    - intros [[i Hi]%list_elem_of_lookup Hc].
      destruct (lookup_lt_is_Some_2 vals i) as [v Hv]; [apply lookup_lt_Some in Hi; lia|].
      assert (M !! k = Some v) as Hk by (apply Hs; by exists i). pose proof (HM k v Hk) as He.
      unfold dumpable_entry in He. rewrite Hc in He. destruct He as [-> He]. done.
    - intros (Hc & Hk & _). apply Hs in Hk as (i & Hi & _). by apply list_elem_of_lookup_2 in Hi. }
  split; [apply Forall_forall; intros s Hin; by apply Hsec|].
  assert (forall kv, kv ∈ concat (map (section_pairs (zip keys vals)) (sections keys)) <->
    exists s, s ∈ sections keys /\ kv ∈ section_pairs (zip keys vals) s) as Hin.
  { intros kv. rewrite list_elem_of_In, in_concat. setoid_rewrite in_map_iff. setoid_rewrite list_elem_of_In.
    split; [intros (l & (s & <- & ?) & ?)|intros (s & ? & ?)]; eauto 6. }
  apply write_all_eq.
  - apply Forall_forall. intros kv (s & Hs' & Hkv)%Hin. apply Hsec in Hs' as (_ & Hs' & _).
    apply elem_of_cons in Hkv as [-> |Hkv]; [done|].
    apply list_elem_of_omap in Hkv as ([o w] & Hin' & E). apply bind_Some in E as (k & Ek & E). cbn in Ek. subst o.
    case_bool_decide; simplify_eq/=. by apply (slots_zip keys vals M).
  - intros k [v Hk]. apply list_elem_of_fmap. pose proof (HM k v Hk) as He. unfold dumpable_entry in He.
    destruct (has_colon k) eqn:Hc.
    + destruct He as (sec & key & w & -> & Hsc & [o Ho] & -> & _). pose proof (HM sec o Ho) as Hse.
      unfold dumpable_entry in Hse. rewrite Hsc in Hse. destruct Hse as [-> Hse].
      exists (sec ++ 58 :: key, Some w). split; [done|]. apply Hin. exists sec. split; [by apply Hsec|].
      apply elem_of_cons. right. apply list_elem_of_omap. exists (Some (sec ++ 58 :: key), Some w).
      split; [by apply (slots_zip keys vals M)|]. cbn. rewrite bool_decide_true; [done|].
      change (58 :: key) with ([58] ++ key). rewrite app_assoc. apply take_app_length'. by rewrite length_app.
    + destruct He as [-> He]. exists (k, None). split; [done|]. apply Hin. exists k. split; [by apply Hsec|]. constructor.
Qed.

(** C30: a dictionary whose sections, keys and values are clean, with a section for
    every key, is written by [iniparser_dump_ini], and loading what was written gives
    a dictionary that stands for the same map. *)
Theorem ini_dump_load d M before :
  represents d M -> dumpable M -> before <> 92 ->
  exists out, iniparser_dump_ini d = Some out /\
    (Z.of_nat (length out) < 2 ^ 25 ->
     exists d', iniparser_load enough before out = Some (Some d') /\ represents d' M).
Proof.
  intros (keys & vals & hs & Hi & Hs) HM Hb. destruct (inv_lens _ _ _ _ Hi) as (L1 & L2 & _).
  destruct (pairs_all keys vals M Hs ltac:(lia) HM) as [Hsecs HMw]. destruct HM as [(s0 & [o0 Hs0] & Hc0) HM].
  assert (sections keys <> []) as Hne.
  { apply (Hs s0 o0) in Hs0 as (i & Hk & _). apply list_elem_of_lookup_2 in Hk.
    assert (s0 ∈ sections keys) as H by (by apply elem_of_sections). intros E. rewrite E in H. by apply not_elem_of_nil in H. }
  eexists. split.
  { apply (dump_render d keys vals hs Hi Hne). eapply Forall_impl; [exact Hsecs|].
    intros s (_ & _ & Hw). pose proof (cw_len _ _ Hw). lia. }
  intros Hlen. destruct (sections_meaning M (zip keys vals) HM) with (secs := sections keys)
    (sec := @nil Z) (M' := (∅ : gmap cstr (option cstr))) (e := 0) as (sec' & Hmean & Hclean).
  { intros k v. by apply (slots_zip keys vals M). }
  { done. }
  { by left. }
  set (items := concat (map (section_items _) _)) in *.
  destruct (load_render before (items ++ [Blank 0])) as (d' & Hd & HM').
  { apply Forall_app_2; [by apply Hclean|]. constructor; [split; [done|lia]|done]. }
  { pose proof (render_length (items ++ [Blank 0])). lia. }
  assert (meaning (items ++ [Blank 0]) = (sec', M, 0)) as E.
  { unfold meaning. rewrite foldl_app. etrans; [exact (f_equal (fun st => foldl meaning_turn st [Blank 0]) Hmean)|].
    cbn [foldl meaning_turn]. by rewrite HMw. }
  rewrite E in Hd, HM'. by exists d'.
Qed.

(** loading a file of clean lines (blank, comment, section, the three forms of
    value, and lines that are none of them) gives a dictionary that stands for the
    map the lines denote, later lines over earlier ones, unless there is a syntax
    error after the last section or value line, when it gives NULL: an earlier error
    is forgotten. *)
Theorem ini_load_correct before items :
  Forall (clean before) items -> Z.of_nat (length items) < 2 ^ 25 ->
  let '(_, M, e) := meaning items in
  exists d, iniparser_load enough before (render items) = Some (if e =? 0 then Some d else None) /\ represents d M.
Proof.
  intros Hc Hl. destruct (load_render before items Hc Hl) as (d & Hd & HM). destruct (meaning items) as [[sec M] e].
  by exists d.
Qed.

(** ** Access *)

(** Entries are found whatever the case of the letters; the value set is the value
    read, by any spelling of the key. *)
Theorem ini_access d M entry v :
  represents d M -> size d < 2 ^ 27 ->
  exists d', iniparser_set enough d entry v = Some (0, d') /\ represents d' (<[strlwc entry := v]> M) /\
    (forall k def, strlwc k = strlwc entry -> iniparser_getstring d' (Some k) def = Some v) /\
    (forall k def, strlwc k <> strlwc entry -> iniparser_getstring d' (Some k) def = Some (default def (M !! strlwc k))) /\
    exists d'', iniparser_unset d' entry = Some d'' /\ represents d'' (delete (strlwc entry) M).
Proof.
  intros HM Hs. destruct (set_ok d M (strlwc entry) v HM Hs) as (d' & Hset & HM'). exists d'.
  split; [exact Hset|]. split; [exact HM'|]. unfold iniparser_getstring. split_and!.
  - intros k def E. by rewrite (get_ok _ _ _ _ HM'), E, lookup_insert_eq.
  - intros k def E. by rewrite (get_ok _ _ _ _ HM'), lookup_insert_ne.
  - destruct (unset_ok _ _ (strlwc entry) HM') as (d'' & Hu & HM''). exists d''. split; [exact Hu|].
    by rewrite delete_insert_eq in HM''.
Qed.

(** ** What the code does outside the clean files *)

(** A blank line makes the loader read the byte in front of the array: a backslash
    there leaves the following store out of bounds. *)
Example blank_line_reads_before : iniparser_load enough 92 [10] = None.
Proof. vm_compute. reflexivity. Qed.

(** A last line without a newline is reported as too long. *)
Example last_line_needs_newline : iniparser_load enough 0 [97; 61; 49] = Some None.
Proof. vm_compute. reflexivity. Qed.

(** An empty section name keeps the section before it. *)
Example empty_section_name :
  iniparser_line [91; 93] [111; 108; 100] [] [] = Some (LINE_SECTION, ([111; 108; 100], [], [])).
Proof. vm_compute. reflexivity. Qed.

(** The syntax error of the first line is forgotten by the section of the second. *)
Example error_forgotten : exists d, iniparser_load enough 0 [98; 10; 91; 115; 93; 10] = Some (Some d).
Proof. eexists. vm_compute. reflexivity. Qed.

(** The integer of a section dereferences NULL. *)
Example getint_of_section :
  ('(_, d) ← iniparser_set enough (dictionary_new 0) [115] None; iniparser_getint d (Some [115]) 0) = None.
Proof. vm_compute. reflexivity. Qed.

(** A long section and a long key overflow the buffer of their join. *)
Example long_names_overflow :
  iniparser_load enough 0 ((91 :: replicate 600 97 ++ [93; 10]) ++ (replicate 600 98 ++ [61; 49; 10])) = None.
Proof. vm_compute. reflexivity. Qed.

(** ** Witnesses *)

Lemma ini_load_correct_witness :
  exists d, iniparser_load enough 0 (render [Section_ [97]; Plain [98] 0 [49]; Bad [120]; Comment [35]; Section_ [99]]) =
    Some (Some d) /\ represents d (<[ [99] := None ]> (<[ [97; 58; 98] := Some [49] ]> (<[ [97] := None ]> ∅))).
Proof.
  apply (ini_load_correct 0 [Section_ [97]; Plain [98] 0 [49]; Bad [120]; Comment [35]; Section_ [99]]); [|done].
  assert (forall c s, (c = 97 \/ c = 98 \/ c = 99) -> s <> c -> clean_word s [c]) as Hw.
  { intros c s Hc Hs. split; try (by destruct Hc as [-> |[-> | ->]]).
    - destruct Hc as [-> |[-> | ->]]; by repeat constructor.
    - cbn. lia.
    - by repeat constructor. }
  assert (forall c, c = 49 \/ c = 120 -> clean_value [c]) as Hv.
  { intros c Hc. split; try (by destruct Hc as [-> | ->]).
    - destruct Hc as [-> | ->]; by repeat constructor.
    - cbn. lia. }
  repeat (apply Forall_cons; split); [| | | | |by apply Forall_nil]; cbn [clean].
  - apply Hw; lia.
  - split_and!; [split; [apply Hw; lia|done]|lia|apply Hv; lia|by repeat constructor|done..].
  - split_and!; [apply Hv; lia|done|done|by repeat constructor|done].
  - split_and!; [by repeat constructor|cbn; lia|done].
  - apply Hw; lia.
Defined.

Lemma ini_dump_load_witness :
  exists d out, represents d (<[ [97; 58; 98] := Some [49] ]> (<[ [97] := None ]> ∅)) /\
    iniparser_dump_ini d = Some out /\
    (Z.of_nat (length out) < 2 ^ 25 -> exists d', iniparser_load enough 0 out = Some (Some d') /\
      represents d' (<[ [97; 58; 98] := Some [49] ]> (<[ [97] := None ]> ∅))).
Proof.
  destruct (set_ok _ _ [97] None (new_ok 0) eq_refl) as (d1 & E1 & H1).
  destruct (set_ok d1 _ [97; 58; 98] (Some [49]) H1) as (d & _ & H).
  { pose proof (dictionary_set_size _ _ _ _ _ _ E1) as [_ Hs].
    change (size d1 <= 128) in Hs. lia. }
  exists d. destruct (ini_dump_load d _ 0 H) as (out & Ho & Hl); [|done|by exists out].
  split; [by exists [97]|]. intros k v [[<- <-]|[Hne [[<- <-]|[_ Hk]]%lookup_insert_Some]]%lookup_insert_Some; [| |done].
  - exists [97], [98], [49]. split_and!; try done.
    + split; [|done]. split; try done; [by repeat constructor|cbn; lia|by repeat constructor].
    + right. split_and!; try done; [|by repeat constructor]. split; try done; [by repeat constructor|cbn; lia].
  - split; [done|]. split; try done; [by repeat constructor|cbn; lia|by repeat constructor].
Defined.
