(* ===== verification/Bitfield.v ===== *)
(** The bit fields of the BitTorrent library: [set_bit], [clear_bit] and [has_bit] of
    [libbt/misc/subr.c], over an array of bytes, the highest bit of a byte first. *)
From S2P Require Import Prelude.
Local Open Scope Z_scope.

(** The bit of an index in its byte. *)
Definition bit_of (index : nat) : Z := 7 - Z.of_nat (index mod 8).

Definition set_bit (bits : list Z) (index : nat) : option (list Z) :=
  b ← aread bits (index / 8);
  awrite bits (index / 8) (u8 (Z.lor b (Z.shiftl 1 (bit_of index)))).
Definition clear_bit (bits : list Z) (index : nat) : option (list Z) :=
  b ← aread bits (index / 8);
  awrite bits (index / 8) (u8 (Z.land b (Z.lnot (Z.shiftl 1 (bit_of index))))).
Definition has_bit (bits : list Z) (index : nat) : option bool :=
  b ← aread bits (index / 8);
  Some (negb (Z.land b (Z.shiftl 1 (bit_of index)) =? 0)).

(** The value of a bit, false outside. *)
Definition bit (bits : list Z) (index : nat) : bool := Z.testbit (nth (index / 8) bits 0) (bit_of index).

(** A field of [n] bits. *)
Definition fits (bits : list Z) (n : nat) : Prop := (n <= 8 * length bits)%nat.

Lemma bit_of_range i : 0 <= bit_of i <= 7.
Proof. unfold bit_of. pose proof (Nat.mod_upper_bound i 8 ltac:(lia)). lia. Qed.

Lemma bit_of_inj i j : (i / 8 = j / 8)%nat -> bit_of i = bit_of j -> i = j.
Proof.
  unfold bit_of. intros Hd Hm. rewrite (Nat.div_mod_eq i 8), (Nat.div_mod_eq j 8), Hd. f_equal. lia.
Qed.

Lemma land_single b k : 0 <= k -> negb (Z.land b (Z.shiftl 1 k) =? 0) = Z.testbit b k.
Proof.
  intros Hk. rewrite Z.shiftl_1_l. destruct (Z.testbit b k) eqn:E.
  - apply negb_true_iff, Z.eqb_neq. intros H.
    assert (Z.testbit (Z.land b (2 ^ k)) k = true) as Ht by (by rewrite Z.land_spec, E, Z.pow2_bits_true).
    by rewrite H, Z.bits_0 in Ht.
  - apply negb_false_iff, Z.eqb_eq. apply Z.bits_inj'. intros j Hj. rewrite Z.land_spec, Z.bits_0.
    destruct (Z.eq_dec k j) as [<-|Hne]; [by rewrite E|]. by rewrite Z.pow2_bits_false, andb_false_r.
Qed.

Lemma in_bytes bits n i : fits bits n -> (i < n)%nat -> (i / 8 < length bits)%nat.
Proof. unfold fits. intros H Hi. apply Nat.Div0.div_lt_upper_bound. lia. Qed.

Lemma has_bit_ok bits n i : fits bits n -> (i < n)%nat -> has_bit bits i = Some (bit bits i).
Proof.
  intros Hf Hi. unfold has_bit, bit. pose proof (in_bytes _ _ _ Hf Hi) as Hlt.
  unfold aread. destruct (lookup_lt_is_Some_2 bits (i / 8) Hlt) as [b Hb].
  rewrite Hb. cbn [mbind option_bind]. rewrite (nth_lookup_Some _ _ _ _ Hb).
  rewrite land_single; [done|apply bit_of_range].
Qed.

(** What a write of one byte does to all bits. *)
Lemma write_byte bits i f b v :
  bits !! (i / 8)%nat = Some b ->
  (forall k, 0 <= k <= 7 -> Z.testbit (f b) k = if k =? bit_of i then v else Z.testbit b k) ->
  exists bits', awrite bits (i / 8) (u8 (f b)) = Some bits' /\ length bits' = length bits /\
    forall j, bit bits' j = if decide (j = i) then v else bit bits j.
Proof.
  intros Hb Hf. pose proof (lookup_lt_Some _ _ _ Hb) as Hlt. rewrite awrite_ok by done.
  eexists. split; [done|]. split; [apply length_insert|]. intros j. unfold bit.
  destruct (decide (i / 8 = j / 8)%nat) as [E|E].
  - rewrite <- E, (nth_lookup_Some _ _ _ _ (list_lookup_insert_eq _ _ _ Hlt)), (nth_lookup_Some _ _ _ _ Hb).
    pose proof (bit_of_range j). unfold wrap. rewrite Z.mod_pow2_bits_low, Hf by lia.
    destruct (Z.eqb_spec (bit_of j) (bit_of i)) as [Ej|Ej].
    + rewrite decide_True; [done|]. apply bit_of_inj; [by rewrite E|done].
    + rewrite decide_False; [done|]. by intros ->.
  - rewrite decide_False by (by intros ->). f_equal. rewrite !nth_lookup. f_equal. by apply list_lookup_insert_ne.
Qed.

Lemma set_bit_ok bits n i : fits bits n -> (i < n)%nat ->
  exists bits', set_bit bits i = Some bits' /\ length bits' = length bits /\
    forall j, bit bits' j = if decide (j = i) then true else bit bits j.
Proof.
  intros Hf Hi. pose proof (in_bytes _ _ _ Hf Hi) as Hlt. pose proof (bit_of_range i).
  destruct (lookup_lt_is_Some_2 bits (i / 8) Hlt) as [b Hb]. unfold set_bit, aread. rewrite Hb. cbn [mbind option_bind].
  apply (write_byte bits i (fun b => Z.lor b (Z.shiftl 1 (bit_of i))) b true Hb). intros k Hk.
  rewrite Z.lor_spec, Z.shiftl_1_l, Z.pow2_bits_eqb by lia.
  destruct (Z.eqb_spec (bit_of i) k) as [->|]; destruct (Z.eqb_spec k (bit_of i)); try lia; by rewrite ?Z.eqb_refl, ?orb_true_r, ?orb_false_r.
Qed.

Lemma clear_bit_ok bits n i : fits bits n -> (i < n)%nat ->
  exists bits', clear_bit bits i = Some bits' /\ length bits' = length bits /\
    forall j, bit bits' j = if decide (j = i) then false else bit bits j.
Proof.
  intros Hf Hi. pose proof (in_bytes _ _ _ Hf Hi) as Hlt. pose proof (bit_of_range i).
  destruct (lookup_lt_is_Some_2 bits (i / 8) Hlt) as [b Hb]. unfold clear_bit, aread. rewrite Hb. cbn [mbind option_bind].
  apply (write_byte bits i (fun b => Z.land b (Z.lnot (Z.shiftl 1 (bit_of i)))) b false Hb). intros k Hk.
  rewrite Z.land_spec, Z.lnot_spec, Z.shiftl_1_l, Z.pow2_bits_eqb by lia.
  destruct (Z.eqb_spec (bit_of i) k), (Z.eqb_spec k (bit_of i)); try lia; cbn; by rewrite ?andb_false_r, ?andb_true_r.
Qed.

(** A field of zeros. *)
Lemma bit_zeros m i : bit (replicate m 0) i = false.
Proof.
  unfold bit. rewrite nth_lookup. destruct (replicate m 0 !! (i / 8)%nat) as [b|] eqn:E; [|apply Z.bits_0].
  apply lookup_replicate in E as [-> _]. apply Z.bits_0.
Qed.

(** [ceil(n / 8.0)] bytes hold [n] bits. *)
Definition field_bytes (n : nat) : nat := (n + 7) / 8.

Lemma fits_bytes n bits : length bits = field_bytes n -> fits bits n.
Proof. unfold fits, field_bytes. intros ->. pose proof (Nat.div_mod_eq (n + 7) 8). pose proof (Nat.mod_upper_bound (n + 7) 8 ltac:(lia)). lia. Qed.

(** The number of bits set among the first [n]. *)
Definition count_bits (f : nat -> bool) (n : nat) : nat := length (filter (fun i => f i = true) (seq 0 n)).

Lemma count_bits_S f n : count_bits f (S n) = (count_bits f n + if f n then 1 else 0)%nat.
Proof.
  unfold count_bits. rewrite seq_S, filter_app, length_app, filter_cons, filter_nil. cbn [Nat.add].
  destruct (f n); case_decide; done.
Qed.

Lemma count_bits_ext f g n : (forall i, (i < n)%nat -> f i = g i) -> count_bits f n = count_bits g n.
Proof.
  induction n as [|n IH]; intros H; [done|]. rewrite !count_bits_S, IH, (H n) by (intros; try apply H; lia). done.
Qed.

Lemma count_bits_le f n : (count_bits f n <= n)%nat.
Proof. induction n as [|n IH]; [done|]. rewrite count_bits_S. destruct (f n); lia. Qed.

(** One bit more. *)
Lemma count_bits_flip f g n i : (i < n)%nat -> f i = false -> g i = true ->
  (forall j, (j < n)%nat -> j <> i -> g j = f j) -> count_bits g n = S (count_bits f n).
Proof.
  induction n as [|n IH]; intros Hi Hf Hg H; [lia|]. rewrite !count_bits_S.
  destruct (decide (i = n)) as [->|Hne].
  - rewrite Hf, Hg, (count_bits_ext g f) by (intros; apply H; lia). lia.
  - rewrite IH, (H n) by (done || lia || (intros; apply H; lia)). lia.
Qed.

Lemma count_bits_pos f n : (0 < count_bits f n)%nat <-> exists i, (i < n)%nat /\ f i = true.
Proof.
  induction n as [|n IH]; [cbn; split; [lia|intros (? & ? & _); lia]|]. rewrite count_bits_S. split.
  - intros H. destruct (f n) eqn:E; [exists n; split; [lia|done]|].
    destruct (proj1 IH ltac:(lia)) as (i & Hi & Hf). exists i. split; [lia|done].
  - intros (i & Hi & Hf). destruct (decide (i = n)) as [->|Hne]; [rewrite Hf; lia|].
    assert (0 < count_bits f n)%nat by (apply IH; exists i; split; [lia|done]). lia.
Qed.

Lemma count_bits_full f n : count_bits f n = n <-> forall i, (i < n)%nat -> f i = true.
Proof.
  induction n as [|n IH]; [split; [lia|done]|]. rewrite count_bits_S. pose proof (count_bits_le f n). split.
  - intros E i Hi. destruct (f n) eqn:En; [|lia]. destruct (decide (i = n)) as [->|Hne]; [done|].
    apply IH; lia.
  - intros Hf. rewrite (Hf n), (proj2 IH) by (intros; try apply Hf; lia). lia.
Qed.
