(* ===== verification/BtPeer.v ===== *)
(** A peer of the BitTorrent daemon: [libbt/btpd/peer.c], with the types of
    [net_buf.h] and [net_types.h] and the bookkeeping of [net_write] in [net.c].

    The peers are those that speak the BitTorrent protocol (BT_PEER); sources over
    HTTP are left out, and so are the clocks and the events of the sockets.  The
    functions that touch one peer are functions on its record.  A message of the
    queue is known by its place there. *)
From S2P Require Import Prelude Bitfield.
Local Open Scope Z_scope.

Definition PIECE_BLOCKLEN : Z := 2 ^ 14.
Definition MAXPIECEMSGS : Z := 128.
Definition MAXPIPEDREQUESTS : Z := 10.

(** The flags, as places in the word. *)
Definition PF_I_WANT : Z := 0.
Definition PF_I_CHOKE : Z := 1.
Definition PF_P_WANT : Z := 2.
Definition PF_P_CHOKE : Z := 3.
Definition PF_ATTACHED : Z := 6.
Definition PF_NO_REQUESTS : Z := 7.
Definition PF_DO_UNWANT : Z := 9.
Definition PF_SUSPECT : Z := 10.
Definition PF_BANNED : Z := 11.

(** The buffers of the queue, with what their accessors read. *)
Inductive net_buf :=
  | NB_CHOKE | NB_UNCHOKE | NB_INTEREST | NB_UNINTEREST
  | NB_HAVE (index : Z)
  | NB_BITFIELD
  | NB_REQUEST (index begin length : Z)
  | NB_PIECE (index begin length : Z)
  | NB_CANCEL (index begin length : Z)
  | NB_TORRENTDATA (len : Z)
  | NB_MULTIHAVE (len : Z)
  | NB_BITDATA (len : Z)
  | NB_SHAKE
  | NB_KEEPALIVE.

(** [nb->len]; that of the data is the one it has once it is filled. *)
Definition nb_len (nb : net_buf) : Z :=
  match nb with
  | NB_CHOKE | NB_UNCHOKE | NB_INTEREST | NB_UNINTEREST => 5
  | NB_HAVE _ => 9
  | NB_BITFIELD => 5
  | NB_REQUEST _ _ _ | NB_CANCEL _ _ _ => 17
  | NB_PIECE _ _ _ => 13
  | NB_TORRENTDATA len | NB_MULTIHAVE len | NB_BITDATA len => len
  | NB_SHAKE => 68
  | NB_KEEPALIVE => 4
  end.

(** A request: its peer, and the fields of its message. *)
Record block_request := Req { rq_p : nat; rq_index : nat; rq_begin : Z; rq_length : Z }.
#[export] Instance block_request_eq_dec : EqDecision block_request.
Proof. solve_decision. Defined.

#[export] Instance net_buf_eq_dec : EqDecision net_buf.
Proof. solve_decision. Defined.

Definition rq_msg (r : block_request) : net_buf := NB_REQUEST (Z.of_nat (rq_index r)) (rq_begin r) (rq_length r).

Record peer := Peer {
  piece_field : list Z; bad_field : option (list Z);
  npieces : Z; nwant : Z; npcs_bad : Z; suspicion : Z;
  my_reqs : list block_request; nreqs_out : Z; npiece_msgs : Z;
  outq_off : Z; outq : list net_buf; flags : Z
}.

(** ** Assignments to a field *)

Definition with_flags (f : Z) (p : peer) : peer :=
  Peer (piece_field p) (bad_field p) (npieces p) (nwant p) (npcs_bad p) (suspicion p)
    (my_reqs p) (nreqs_out p) (npiece_msgs p) (outq_off p) (outq p) f.
Definition with_nwant (w : Z) (p : peer) : peer :=
  Peer (piece_field p) (bad_field p) (npieces p) w (npcs_bad p) (suspicion p)
    (my_reqs p) (nreqs_out p) (npiece_msgs p) (outq_off p) (outq p) (flags p).
Definition with_reqs (l : list block_request) (k : Z) (p : peer) : peer :=
  Peer (piece_field p) (bad_field p) (npieces p) (nwant p) (npcs_bad p) (suspicion p)
    l k (npiece_msgs p) (outq_off p) (outq p) (flags p).
Definition with_msgs (k : Z) (p : peer) : peer :=
  Peer (piece_field p) (bad_field p) (npieces p) (nwant p) (npcs_bad p) (suspicion p)
    (my_reqs p) (nreqs_out p) k (outq_off p) (outq p) (flags p).
Definition with_outq (off : Z) (q : list net_buf) (p : peer) : peer :=
  Peer (piece_field p) (bad_field p) (npieces p) (nwant p) (npcs_bad p) (suspicion p)
    (my_reqs p) (nreqs_out p) (npiece_msgs p) off q (flags p).
Definition with_pieces (f : list Z) (k : Z) (p : peer) : peer :=
  Peer f (bad_field p) k (nwant p) (npcs_bad p) (suspicion p)
    (my_reqs p) (nreqs_out p) (npiece_msgs p) (outq_off p) (outq p) (flags p).
Definition with_bad (b : option (list Z)) (k s : Z) (p : peer) : peer :=
  Peer (piece_field p) b (npieces p) (nwant p) k s
    (my_reqs p) (nreqs_out p) (npiece_msgs p) (outq_off p) (outq p) (flags p).

Definition flag (p : peer) (f : Z) : bool := Z.testbit (flags p) f.
Definition set_flag (f : Z) (p : peer) : peer := with_flags (Z.setbit (flags p) f) p.
Definition clear_flag (f : Z) (p : peer) : peer := with_flags (Z.clearbit (flags p) f) p.

#[global] Arguments flag : simpl never.

(** [peer_create_common]; the fields of the socket are left out. *)
Definition peer_create : peer :=
  Peer [] None 0 0 0 0 [] 0 0 0 [] (Z.setbit (Z.setbit 0 PF_I_CHOKE) PF_P_CHOKE).

(** ** Tests *)

Definition peer_chokes (p : peer) : bool := flag p PF_P_CHOKE.
Definition peer_has (p : peer) (index : nat) : option bool := has_bit (piece_field p) index.
Definition peer_has_bad (p : peer) (index : nat) : option bool :=
  match bad_field p with None => Some false | Some b => has_bit b index end.
Definition peer_laden (p : peer) : bool := nreqs_out p >=? MAXPIPEDREQUESTS.
Definition peer_wanted (p : peer) : bool := flag p PF_I_WANT.
Definition peer_leech_ok (p : peer) : bool :=
  (flag p PF_I_WANT && negb (flag p PF_BANNED) && negb (flag p PF_SUSPECT) && negb (flag p PF_P_CHOKE))
  && negb (peer_laden p).
Definition peer_active_down (p : peer) : bool := peer_leech_ok p || (nreqs_out p >? 0).
Definition peer_active_up (p : peer) : bool :=
  (flag p PF_P_WANT && negb (flag p PF_I_CHOKE)) || (npiece_msgs p >? 0).
Definition peer_full (tp_npieces : nat) (p : peer) : bool := npieces p =? Z.of_nat tp_npieces.
Definition peer_requestable (p : peer) (index : nat) : option bool :=
  h ← peer_has p index;
  if h : bool then b ← peer_has_bad p index; Some (negb b) else Some false.

(** ** The queue of messages *)

Definition peer_send (nb : net_buf) (p : peer) : option peer :=
  _ ← ensure (match outq p with [] => outq_off p =? 0 | _ => true end);
  Some (with_outq (outq_off p) (outq p ++ [nb]) p).

Definition piece_msg_gone (p : peer) : option peer :=
  _ ← ensure (npiece_msgs p >? 0);
  Some (with_msgs (npiece_msgs p - 1) p).

(** [nl] is the place of the link. *)
Definition peer_unsend (nl : nat) (p : peer) : option (bool * peer) :=
  nb ← aread (outq p) nl;
  if (nl =? 0)%nat && (outq_off p >? 0) then Some (false, p)
  else
    let p := with_outq (outq_off p) (delete nl (outq p)) p in
    p ← match nb with NB_TORRENTDATA _ => piece_msg_gone p | _ => Some p end;
    Some (true, p).

Definition peer_sent (nb : net_buf) (p : peer) : option peer :=
  match nb with
  | NB_UNCHOKE => Some (clear_flag PF_NO_REQUESTS p)
  | NB_TORRENTDATA _ => piece_msg_gone p
  | _ => Some p
  end.

(** What [net_write] does to the queue once [bcount] bytes are written; the counters
    of the rates are left out. *)
Fixpoint net_written (fuel : nat) (bcount : Z) (p : peer) : option peer :=
  match fuel with
  | O => None
  | S fuel =>
      if bcount >? 0 then
        match outq p with
        | [] => None
        | nl :: q =>
            let bufdelta := nb_len nl - outq_off p in
            if bcount >=? bufdelta then
              p ← peer_sent nl p;
              net_written fuel (bcount - bufdelta) (with_outq 0 q p)
            else Some (with_outq (outq_off p + bcount) (nl :: q) p)
        end
      else Some p
  end.

Definition peer_request (req : block_request) (p : peer) : option peer :=
  _ ← ensure (nreqs_out p <? MAXPIPEDREQUESTS);
  peer_send (rq_msg req) (with_reqs (my_reqs p ++ [req]) (nreqs_out p + 1) p).

Definition peer_keepalive (p : peer) : option peer := peer_send NB_KEEPALIVE p.

Definition peer_unchoke (p : peer) : option peer := peer_send NB_UNCHOKE (clear_flag PF_I_CHOKE p).

(** The loop over the queue that takes back the pieces, each with its data. *)
Fixpoint unsend_pieces (fuel : nat) (nl : nat) (p : peer) : option peer :=
  match fuel with
  | O => Some p
  | S fuel =>
      match outq p !! nl with
      | None => Some p
      | Some (NB_PIECE _ _ _) =>
          _ ← aread (outq p) (S nl);
          '(removed, p) ← peer_unsend nl p;
          if removed : bool then '(_, p) ← peer_unsend nl p; unsend_pieces fuel nl p
          else unsend_pieces fuel (S (S nl)) p
      | Some _ => unsend_pieces fuel (S nl) p
      end
  end.

Definition peer_choke (p : peer) : option peer :=
  p ← unsend_pieces (length (outq p)) 0 p;
  peer_send NB_CHOKE (set_flag PF_I_CHOKE p).

(** ** What we want of the peer *)

Definition peer_want (index : nat) (p : peer) : option peer :=
  h ← has_bit (piece_field p) index;
  if negb h then Some p
  else
    b ← peer_has_bad p index;
    if b : bool then Some p
    else
      let p := with_nwant (u32 (nwant p + 1)) p in
      if nwant p =? 1 then
        let p := set_flag PF_I_WANT p in
        if flag p PF_SUSPECT then Some p
        else if nreqs_out p =? 0 then
          '(unsent, p) ← match last (outq p) with
                         | Some NB_UNINTEREST => peer_unsend (length (outq p) - 1) p
                         | _ => Some (false, p)
                         end;
          if unsent : bool then Some p else peer_send NB_INTEREST p
        else
          _ ← ensure (flag p PF_DO_UNWANT);
          Some (clear_flag PF_DO_UNWANT p)
      else Some p.

Definition peer_unwant (index : nat) (p : peer) : option peer :=
  h ← has_bit (piece_field p) index;
  if negb h then Some p
  else
    b ← peer_has_bad p index;
    if b : bool then Some p
    else
      _ ← ensure (nwant p >? 0);
      let p := with_nwant (nwant p - 1) p in
      if nwant p =? 0 then
        let p := clear_flag PF_I_WANT p in
        if flag p PF_SUSPECT then Some p
        else if nreqs_out p =? 0 then peer_send NB_UNINTEREST p
        else Some (set_flag PF_DO_UNWANT p)
      else Some p.

Definition peer_on_no_reqs (p : peer) : option peer :=
  if flag p PF_DO_UNWANT then
    _ ← ensure (nwant p =? 0);
    peer_send NB_UNINTEREST (clear_flag PF_DO_UNWANT p)
  else Some p.

(** ** Messages from the peer *)

(** The loop of [peer_on_choke] that takes back the requests. *)
Fixpoint unsend_requests (fuel : nat) (nl : nat) (p : peer) : option peer :=
  match fuel with
  | O => Some p
  | S fuel =>
      match outq p !! nl with
      | None => Some p
      | Some (NB_REQUEST _ _ _) =>
          '(removed, p) ← peer_unsend nl p;
          unsend_requests fuel (if removed : bool then nl else S nl) p
      | Some _ => unsend_requests fuel (S nl) p
      end
  end.

Definition peer_on_request (index begin length : Z) (p : peer) : option peer :=
  if flag p PF_NO_REQUESTS then Some p
  else
    p ← peer_send (NB_PIECE index begin length) p;
    p ← peer_send (NB_TORRENTDATA length) p;
    let p := with_msgs (u32 (npiece_msgs p + 1)) p in
    if npiece_msgs p >=? MAXPIECEMSGS then
      p ← peer_send NB_CHOKE p;
      p ← peer_send NB_UNCHOKE p;
      Some (set_flag PF_NO_REQUESTS p)
    else Some p.

(** The first piece of the queue that is the one cancelled. *)
Definition is_piece (index begin length : Z) (nb : net_buf) : bool :=
  match nb with
  | NB_PIECE i b l => (b =? begin) && (i =? index) && (l =? length)
  | _ => false
  end.
Fixpoint find_piece (f : net_buf -> bool) (q : list net_buf) (nl : nat) : option nat :=
  match q with [] => None | nb :: q => if f nb then Some nl else find_piece f q (S nl) end.

Definition peer_on_cancel (index begin length : Z) (p : peer) : option peer :=
  match find_piece (is_piece index begin length) (outq p) 0 with
  | None => Some p
  | Some nl =>
      '(removed, p) ← peer_unsend nl p;
      if removed : bool then '(_, p) ← peer_unsend nl p; Some p else Some p
  end.

(** ** Blame *)

Definition peer_bad_piece (tp_npieces index : nat) (p : peer) : option peer :=
  let bad := if npcs_bad p =? 0 then Some (replicate (field_bytes tp_npieces) 0) else bad_field p in
  _ ← ensure (negb ((npcs_bad p =? 0) && bool_decide (is_Some (bad_field p))));
  b ← bad;
  h ← has_bit b index;
  _ ← ensure (negb h);
  b ← set_bit b index;
  let p := with_bad (Some b) (u32 (npcs_bad p + 1)) (suspicion p + 1) p in
  if suspicion p =? 3 then
    let p := set_flag PF_SUSPECT p in
    if nwant p >? 0 then peer_send NB_UNINTEREST (clear_flag PF_DO_UNWANT p) else Some p
  else Some p.

(** [peer_good_piece] up to the call of [dl_on_download], which the result asks for. *)
Definition peer_good_piece (index : nat) (p : peer) : option (bool * peer) :=
  h ← peer_has_bad p index;
  p ← (if h : bool then
         _ ← ensure (npcs_bad p >? 0);
         if npcs_bad p - 1 =? 0 then Some (with_bad None 0 (suspicion p) p)
         else b ← bad_field p; b ← clear_bit b index; Some (with_bad (Some b) (npcs_bad p - 1) (suspicion p) p)
       else Some p);
  let p := with_bad (bad_field p) (npcs_bad p) 0 p in
  if flag p PF_SUSPECT then
    let p := clear_flag PF_SUSPECT p in
    p ← (if nwant p >? 0 then _ ← ensure (flag p PF_I_WANT); peer_send NB_INTEREST p else Some p);
    Some (peer_leech_ok p, p)
  else Some (false, p).

(** ** The invariant of a peer *)

(** In the queue each piece is followed by its data. *)
Fixpoint paired (q : list net_buf) : Prop :=
  match q with
  | [] => True
  | NB_PIECE _ _ n :: q =>
      match q with NB_TORRENTDATA n' :: q => n' = n /\ paired q | _ => False end
  | NB_TORRENTDATA _ :: _ => False
  | _ :: q => paired q
  end.

Definition is_data (nb : net_buf) : bool := match nb with NB_TORRENTDATA _ => true | _ => false end.
Definition plain (nb : net_buf) : bool := match nb with NB_TORRENTDATA _ | NB_PIECE _ _ _ => false | _ => true end.
Definition count_data (q : list net_buf) : Z := Z.of_nat (length (filter (fun nb => is_data nb = true) q)).

(** At the head the data may stand alone: its piece is written. *)
Record queue_ok (p : peer) : Prop := QueueOk {
  qo_paired : paired (outq p) \/ exists n q, outq p = NB_TORRENTDATA n :: q /\ paired q;
  qo_msgs : npiece_msgs p = count_data (outq p);
  qo_off : match outq p with [] => outq_off p = 0 | nb :: _ => 0 <= outq_off p /\ (outq_off p = 0 \/ outq_off p < nb_len nb) end;
  qo_len : Forall (fun nb => 0 <= nb_len nb) (outq p)
}.

(** What the peer has been told of our interest once the messages are written. *)
Fixpoint told (b : bool) (q : list net_buf) : bool :=
  match q with
  | [] => b
  | NB_INTEREST :: q => told true q
  | NB_UNINTEREST :: q => told false q
  | _ :: q => told b q
  end.
(** Each of those messages changes what it has been told. *)
Fixpoint news (b : bool) (q : list net_buf) : Prop :=
  match q with
  | [] => True
  | NB_INTEREST :: q => b = false /\ news true q
  | NB_UNINTEREST :: q => b = true /\ news false q
  | _ :: q => news b q
  end.

Definition bad_bit (p : peer) (i : nat) : bool := match bad_field p with None => false | Some b => bit b i end.
(** A piece to be had from the peer. *)
Definition offers (p : peer) (i : nat) : bool := bit (piece_field p) i && negb (bad_bit p i).

(** [seen] is what the peer has been told by what is written already. *)
Record peer_ok (np : nat) (seen : bool) (p : peer) : Prop := PeerOk {
  po_field : length (piece_field p) = field_bytes np;
  po_bad : match bad_field p with
           | None => npcs_bad p = 0
           | Some b => length b = field_bytes np /\ npcs_bad p = Z.of_nat (count_bits (bit b) np) /\ 0 < npcs_bad p
           end;
  po_queue : queue_ok p;
  po_news : news seen (outq p);
  po_told : told seen (outq p) = (0 <? nwant p) || (0 <? nreqs_out p);
  po_want : flag p PF_I_WANT = (0 <? nwant p);
  po_do : flag p PF_DO_UNWANT = (nwant p =? 0) && (0 <? nreqs_out p);
  po_suspect : flag p PF_SUSPECT = false;
  po_reqs : nreqs_out p = Z.of_nat (length (my_reqs p)) /\ nreqs_out p <= MAXPIPEDREQUESTS;
  po_nwant : 0 <= nwant p < 2 ^ 32
}.

(** ** The flags *)

Lemma flag_set f g p : 0 <= f -> flag (set_flag f p) g = (f =? g) || flag p g.
Proof. intros Hf. apply Z.setbit_eqb. done. Qed.
Lemma flag_clear f g p : flag (clear_flag f p) g = flag p g && negb (f =? g).
Proof. apply Z.clearbit_eqb. Qed.

(** ** The queue *)

Lemma count_data_app a b : count_data (a ++ b) = count_data a + count_data b.
Proof. unfold count_data. rewrite filter_app, length_app. lia. Qed.

Lemma count_data_cons nb q : count_data (nb :: q) = (if is_data nb then 1 else 0) + count_data q.
Proof. unfold count_data. rewrite filter_cons. destruct (is_data nb); case_decide; try done; cbn [length]; lia. Qed.

Lemma count_data_plain nb q : plain nb = true -> count_data (nb :: q) = count_data q.
Proof. intros Hp. rewrite count_data_cons. by destruct nb. Qed.

Lemma count_data_nonneg q : 0 <= count_data q.
Proof. unfold count_data. lia. Qed.

Lemma count_data_le q : count_data q <= Z.of_nat (length q).
Proof. unfold count_data. pose proof (length_filter (fun nb => is_data nb = true) q). lia. Qed.

(** Induction on a queue in pairs. *)
Lemma paired_ind (P : list net_buf -> Prop) :
  P [] ->
  (forall nb q, plain nb = true -> paired q -> P q -> P (nb :: q)) ->
  (forall i b n q, paired q -> P q -> P (NB_PIECE i b n :: NB_TORRENTDATA n :: q)) ->
  forall q, paired q -> P q.
Proof.
  intros H0 H1 H2 q. remember (length q) as n eqn:E. revert q E.
  induction n as [n IH] using lt_wf_ind. intros [|nb q] -> Hq; [done|].
  destruct nb; try (apply H1; [done|exact Hq|apply (IH (Datatypes.length q)); [cbn; lia|done|exact Hq]]).
  - destruct q as [|[] q]; try done. destruct Hq as [-> Hq]. apply H2; [done|].
    apply (IH (Datatypes.length q)); [cbn; lia|done|done].
  - done.
Qed.

Lemma paired_cons nb q : plain nb = true -> paired (nb :: q) <-> paired q.
Proof. by destruct nb. Qed.

Lemma paired_app a b : paired a -> paired b -> paired (a ++ b).
Proof.
  intros Ha Hb. revert a Ha. apply paired_ind; [done| |].
  - intros nb q Hp _ IH. cbn [app]. by apply paired_cons.
  - intros i b0 n q _ IH. by cbn.
Qed.

Lemma told_app b q q' : told b (q ++ q') = told (told b q) q'.
Proof. revert b. induction q as [|[] q IH]; intros b0; cbn; apply IH || done. Qed.

Lemma news_app b q q' : news b (q ++ q') <-> news b q /\ news (told b q) q'.
Proof.
  revert b. induction q as [|nb q IH]; intros b0; cbn; [tauto|].
  destruct nb; cbn; rewrite IH; tauto.
Qed.

(** A message that says nothing of our interest. *)
Definition neutral (nb : net_buf) : bool := match nb with NB_INTEREST | NB_UNINTEREST => false | _ => true end.

Lemma told_neutral b q : forallb neutral q = true -> told b q = b.
Proof. revert b. induction q as [|[] q IH]; intros b0 H; cbn in *; by try apply IH. Qed.
Lemma news_neutral b q : forallb neutral q = true -> news b q.
Proof. revert b. induction q as [|[] q IH]; intros b0 H; cbn in *; by try apply IH. Qed.

(** The fields that a change of the queue or of the wants leaves alone. *)
Definition quiet (f : Z) : Prop := f <> PF_I_WANT /\ f <> PF_DO_UNWANT.
Record stable (p p' : peer) : Prop := Stable {
  st_field : piece_field p' = piece_field p;
  st_bad : bad_field p' = bad_field p /\ npcs_bad p' = npcs_bad p /\ suspicion p' = suspicion p;
  st_npieces : npieces p' = npieces p;
  st_reqs : my_reqs p' = my_reqs p /\ nreqs_out p' = nreqs_out p;
  st_flags : forall f, quiet f -> flag p' f = flag p f
}.

#[export] Instance stable_preorder : PreOrder stable.
Proof.
  split; [by intros p; split|]. intros p p' p'' [H1 [H2 [H3 H4]] H5 [H6 H7] H8] [G1 [G2 [G3 G4]] G5 [G6 G7] G8].
  split; [congruence|split_and!; congruence|congruence|split; congruence|].
  intros f Hf. by rewrite G8, H8.
Qed.

Lemma stable_offers p p' i : stable p p' -> offers p' i = offers p i.
Proof. intros [H1 [H2 _] _ _ _]. unfold offers, bad_bit. by rewrite H1, H2. Qed.

Lemma peer_send_plain nb p :
  plain nb = true -> 0 <= nb_len nb -> queue_ok p ->
  peer_send nb p = Some (with_outq (outq_off p) (outq p ++ [nb]) p) /\
  queue_ok (with_outq (outq_off p) (outq p ++ [nb]) p).
Proof.
  intros Hp Hlen [H1 H2 H3 H4]. unfold peer_send. split.
  - revert H3. destruct (outq p); [by intros ->|done].
  - split; cbn [outq npiece_msgs outq_off with_outq].
    + destruct H1 as [H1|(n & q & E & H1)].
      * left. apply paired_app; [done|]. by apply paired_cons.
      * right. exists n, (q ++ [nb]). split; [by rewrite E|]. apply paired_app; [done|]. by apply paired_cons.
    + rewrite count_data_app, H2, count_data_plain by done. change (count_data []) with 0. lia.
    + revert H3. destruct (outq p); cbn; [intros ->; lia|done].
    + apply Forall_app_2; [done|by repeat constructor].
Qed.

Lemma paired_delete q : paired q -> forall i nb, q !! i = Some nb -> plain nb = true -> paired (delete i q).
Proof.
  revert q. apply (paired_ind (fun q => forall i nb, q !! i = Some nb -> plain nb = true -> paired (delete i q))); [done| |].
  - intros nb q Hp Hq IH [|i] nb' Hi Hp'; [done|]. cbn in Hi |- *. apply paired_cons; [done|]. by eapply IH.
  - intros i0 b n q Hq IH [|[|i]] nb' Hi Hp'; cbn in Hi; [by simplify_eq|by simplify_eq|].
    cbn. split; [done|]. by eapply IH.
Qed.

Lemma count_data_delete q i nb : q !! i = Some nb -> plain nb = true -> count_data (delete i q) = count_data q.
Proof.
  intros Hi Hp. rewrite <- (take_drop_middle q i nb Hi) at 2. rewrite delete_take_drop, !count_data_app.
  by rewrite count_data_plain.
Qed.

Lemma told_delete_neutral b q i nb : q !! i = Some nb -> neutral nb = true -> told b (delete i q) = told b q.
Proof.
  intros Hi Hn. rewrite <- (take_drop_middle q i nb Hi) at 2. rewrite delete_take_drop, !told_app. by destruct nb.
Qed.

Lemma news_delete_neutral b q i nb : q !! i = Some nb -> neutral nb = true -> news b (delete i q) <-> news b q.
Proof.
  intros Hi Hn. rewrite <- (take_drop_middle q i nb Hi) at 2. rewrite delete_take_drop, !news_app. by destruct nb.
Qed.

Lemma peer_unsend_eq p nl nb :
  outq p !! nl = Some nb -> is_data nb = false ->
  let p' := with_outq (outq_off p) (delete nl (outq p)) p in
  let kept := (nl =? 0)%nat && (outq_off p >? 0) in
  peer_unsend nl p = Some (negb kept, if kept then p else p').
Proof.
  intros Hnl Hp. cbn zeta. unfold peer_unsend, aread. rewrite Hnl. cbn [mbind option_bind].
  destruct (_ && _); [done|]. by destruct nb.
Qed.

Lemma peer_unsend_data p nl n :
  outq p !! nl = Some (NB_TORRENTDATA n) -> (nl =? 0)%nat && (outq_off p >? 0) = false -> 0 < npiece_msgs p ->
  peer_unsend nl p = Some (true, with_msgs (npiece_msgs p - 1) (with_outq (outq_off p) (delete nl (outq p)) p)).
Proof.
  intros Hnl Hk Hp. unfold peer_unsend, aread. rewrite Hnl. cbn [mbind option_bind]. rewrite Hk. cbn [mbind option_bind].
  unfold piece_msg_gone. cbn [npiece_msgs with_outq]. by rewrite (proj2 (Z.gtb_lt _ _)) by lia.
Qed.

Lemma peer_unsend_plain p nl nb :
  queue_ok p -> outq p !! nl = Some nb -> plain nb = true -> (nl =? 0)%nat && (outq_off p >? 0) = false ->
  queue_ok (with_outq (outq_off p) (delete nl (outq p)) p).
Proof.
  intros [H1 H2 H3 H4] Hnl Hp E. split; cbn [outq npiece_msgs outq_off with_outq].
  - destruct H1 as [H1|(n & q & Eq & H1)]; [left; by eapply paired_delete|]. right. rewrite Eq in *.
    destruct nl as [|nl]; [by cbn in Hnl; simplify_eq|]. exists n, (delete nl q). split; [done|].
    by eapply paired_delete.
  - by rewrite H2, (count_data_delete _ _ nb).
  - destruct (outq p) as [|nb0 q] eqn:Eq; [done|]. destruct nl as [|nl]; cbn [delete list_delete].
    + cbn in E. destruct q; lia.
    + done.
  - by apply Forall_delete.
Qed.

(** A queue with other messages, and the peer with it. *)
Lemma peer_ok_outq np seen p q :
  peer_ok np seen p -> queue_ok (with_outq (outq_off p) q p) -> news seen q -> told seen q = told seen (outq p) ->
  peer_ok np seen (with_outq (outq_off p) q p).
Proof. intros [H1 H2 H3 H4 H5 H6 H7 H8 H9 H10] Hq Hn Ht. split; cbn; try done. by rewrite Ht. Qed.

Lemma stable_outq off q p : stable p (with_outq off q p).
Proof. by split. Qed.

Lemma peer_send_ok np seen nb p :
  peer_ok np seen p -> plain nb = true -> neutral nb = true -> 0 <= nb_len nb ->
  let p' := with_outq (outq_off p) (outq p ++ [nb]) p in
  peer_send nb p = Some p' /\ peer_ok np seen p'.
Proof.
  intros Hp Hpl Hne Hlen. destruct (peer_send_plain nb p Hpl Hlen (po_queue _ _ _ Hp)) as [E Hq].
  cbn zeta. split; [exact E|]. apply peer_ok_outq; [done|done| |].
  - apply news_app. split; [apply (po_news _ _ _ Hp)|]. by destruct nb.
  - rewrite told_app. by destruct nb.
Qed.

(** ** Wants *)

Lemma peer_bits np seen p i : peer_ok np seen p -> (i < np)%nat ->
  has_bit (piece_field p) i = Some (bit (piece_field p) i) /\ peer_has_bad p i = Some (bad_bit p i).
Proof.
  intros [H1 H2 _ _ _ _ _ _ _ _] Hi. split; [apply (has_bit_ok _ np); [by apply fits_bytes|done]|].
  unfold peer_has_bad, bad_bit. destruct (bad_field p) as [b|]; [|done]. destruct H2 as [H2 _].
  apply (has_bit_ok _ np); [by apply fits_bytes|done].
Qed.

Lemma requestable_ok np seen p i : peer_ok np seen p -> (i < np)%nat ->
  peer_requestable p i = Some (offers p i).
Proof.
  intros Hp Hi. destruct (peer_bits np seen p i Hp Hi) as [E1 E2]. unfold peer_requestable, peer_has, offers.
  rewrite E1. cbn [mbind option_bind]. destruct (bit (piece_field p) i); [|done]. by rewrite E2.
Qed.

(** The invariant without what relates the wants to the flags and the queue, and
    those relations on their own. *)
Lemma peer_ok_told np seen p w f q :
  peer_ok np seen p -> queue_ok (with_outq (outq_off p) q p) -> 0 <= w < 2 ^ 32 ->
  news seen q -> told seen q = (0 <? w) || (0 <? nreqs_out p) ->
  Z.testbit f PF_I_WANT = (0 <? w) -> Z.testbit f PF_DO_UNWANT = (w =? 0) && (0 <? nreqs_out p) ->
  (forall g, quiet g -> Z.testbit f g = flag p g) ->
  let p' := with_flags f (with_nwant w (with_outq (outq_off p) q p)) in
  peer_ok np seen p' /\ stable p p'.
Proof.
  intros [H1 H2 H3 H4 H5 H6 H7 H8 H9 H10] [Q1 Q2 Q3 Q4] Hw Hn Ht Hf1 Hf2 Hf3. cbn zeta. split.
  - split; cbn; try done. unfold flag; cbn [flags with_flags]. by rewrite Hf3.
  - by split.
Qed.

Lemma peer_want_ok np seen p i :
  peer_ok np seen p -> (i < np)%nat -> nwant p + 1 < 2 ^ 32 ->
  exists p', peer_want i p = Some p' /\ peer_ok np seen p' /\ stable p p' /\
    nwant p' = nwant p + (if offers p i then 1 else 0).
Proof.
  intros Hp Hi Hw. destruct (peer_bits np seen p i Hp Hi) as [E1 E2]. unfold peer_want. rewrite E1, E2.
  cbn [mbind option_bind]. unfold offers.
  destruct (bit (piece_field p) i); cbn [negb andb]; [|by exists p; split_and!; [..|lia]].
  destruct (bad_bit p i); cbn [negb]; [by exists p; split_and!; [..|lia]|].
  pose proof (po_nwant _ _ _ Hp) as Hr. rewrite (wrap_small 32) by lia.
  pose proof (po_told _ _ _ Hp) as Htold. pose proof (po_want _ _ _ Hp) as Hwant. pose proof (po_do _ _ _ Hp) as Hdo.
  cbn [nwant with_nwant]. destruct (Z.eqb_spec (nwant p + 1) 1) as [E|E].
  2:{ eexists. split; [reflexivity|].
      destruct (peer_ok_told np seen p (nwant p + 1) (flags p) (outq p) Hp) as [H1 H2];
        [by destruct (po_queue _ _ _ Hp)|lia|apply (po_news _ _ _ Hp)| | | |done|].
      - rewrite Htold. f_equal. apply Bool.eq_iff_eq_true. rewrite !Z.ltb_lt. lia.
      - change (flag p PF_I_WANT = (0 <? nwant p + 1)). rewrite Hwant. apply Bool.eq_iff_eq_true. rewrite !Z.ltb_lt. lia.
      - change (flag p PF_DO_UNWANT = (nwant p + 1 =? 0) && (0 <? nreqs_out p)). rewrite Hdo.
        rewrite !(proj2 (Z.eqb_neq _ 0)) by lia. done.
      - split; [exact H1|]. split; [exact H2|]. done. }
  assert (nwant p = 0) as H0 by lia. rewrite H0 in *.
  set (p1 := set_flag PF_I_WANT (with_nwant (0 + 1) p)).
  assert (flag p1 PF_SUSPECT = false) as -> by (unfold p1; rewrite flag_set by done; exact (po_suspect _ _ _ Hp)).
  assert (queue_ok p1) as Hq by (by destruct (po_queue _ _ _ Hp)).
  assert (forall q f, queue_ok (with_outq (outq_off p) q p) -> news seen q -> told seen q = true ->
    Z.testbit f PF_I_WANT = true -> Z.testbit f PF_DO_UNWANT = false -> (forall g, quiet g -> Z.testbit f g = flag p g) ->
    let p' := with_flags f (with_nwant 1 (with_outq (outq_off p) q p)) in
    peer_ok np seen p' /\ stable p p' /\ nwant p' = 0 + 1) as Hres.
  { intros q f ? ? ? ? ? ?. destruct (peer_ok_told np seen p 1 f q Hp) as [? ?]; by try done. }
  assert (Z.testbit (flags p1) PF_I_WANT = true) as Hf1 by (change (flag p1 PF_I_WANT = true); unfold p1; by rewrite flag_set).
  assert (forall g, quiet g -> Z.testbit (flags p1) g = flag p g) as Hf2.
  { intros g [Hg _]. change (flag p1 g = flag p g). unfold p1. rewrite flag_set by done.
    by rewrite (proj2 (Z.eqb_neq _ _)) by (by intros <-). }
  change (nreqs_out p1) with (nreqs_out p). change (outq p1) with (outq p).
  destruct (Z.eqb_spec (nreqs_out p) 0) as [Hr0|Hr0].
  - rewrite Hr0 in *. cbn in Hdo, Htold.
    assert (Z.testbit (flags p1) PF_DO_UNWANT = false) as Hf3.
    { change (flag p1 PF_DO_UNWANT = false). unfold p1. rewrite flag_set by done. exact Hdo. }
    assert (exists p', peer_send NB_INTEREST p1 = Some p' /\ peer_ok np seen p' /\ stable p p' /\ nwant p' = 0 + 1) as Hsend.
    { destruct (peer_send_plain NB_INTEREST p1) as [E' Hq']; [done|done|done|]. eexists. split; [exact E'|].
      apply (Hres (outq p ++ [NB_INTEREST]) (flags p1)); try done; [by destruct Hq'| |by rewrite told_app].
      apply news_app. split; [apply (po_news _ _ _ Hp)|]. by rewrite Htold. }
    destruct (last (outq p)) as [[]|] eqn:El; try exact Hsend.
    apply last_Some in El as [q Eq]. rewrite Eq.
    assert (outq p1 !! (length (q ++ [NB_UNINTEREST]) - 1)%nat = Some NB_UNINTEREST) as Hnl.
    { change (outq p1) with (outq p). rewrite Eq, length_app. cbn [length].
      replace (length q + 1 - 1)%nat with (length q) by lia. apply list_lookup_middle. done. }
    pose proof (peer_unsend_plain p1 _ _ Hq Hnl eq_refl) as Hdel.
    rewrite (peer_unsend_eq p1 _ _ Hnl eq_refl). cbn [mbind option_bind].
    destruct (_ && _) eqn:Ekept; cbn [negb]; [exact Hsend|]. eexists. split; [reflexivity|].
    specialize (Hdel eq_refl). change (outq p1) with (outq p) in *. rewrite Eq in *.
    assert (delete (length (q ++ [NB_UNINTEREST]) - 1)%nat (q ++ [NB_UNINTEREST]) = q) as Ed.
    { rewrite length_app. cbn [length]. replace (length q + 1 - 1)%nat with (length q) by lia.
      rewrite delete_take_drop, take_app_length, drop_ge by (rewrite length_app; cbn; lia). apply app_nil_r. }
    rewrite Ed in *. pose proof (po_news _ _ _ Hp) as Hn. rewrite Eq in Hn. apply news_app in Hn as [Hn [Hn' _]].
    apply (Hres q (flags p1)); try done. by destruct Hdel.
  - pose proof (proj1 (po_reqs _ _ _ Hp)).
    assert (flag p PF_DO_UNWANT = true) as Hdo1 by (rewrite Hdo; cbn; lia).
    assert (flag p1 PF_DO_UNWANT = true) as -> by (unfold p1; rewrite flag_set by done; exact Hdo1).
    cbn [ensure mbind option_bind]. eexists. split; [reflexivity|].
    apply (Hres (outq p) (Z.clearbit (flags p1) PF_DO_UNWANT)).
    + by destruct (po_queue _ _ _ Hp).
    + apply (po_news _ _ _ Hp).
    + rewrite Htold. cbn. lia.
    + rewrite Z.clearbit_eqb, Hf1. done.
    + by rewrite Z.clearbit_eqb, andb_false_r.
    + intros g Hg. rewrite Z.clearbit_eqb, Hf2 by done. destruct Hg as [_ Hg].
      rewrite (proj2 (Z.eqb_neq _ _)) by (by intros <-). apply andb_true_r.
Qed.

Lemma quiet_set_clear f g b : 0 <= f -> (f = PF_I_WANT \/ f = PF_DO_UNWANT) -> quiet g ->
  Z.testbit (Z.setbit b f) g = Z.testbit b g /\ Z.testbit (Z.clearbit b f) g = Z.testbit b g.
Proof.
  intros Hf Hf' [H1 H2]. rewrite Z.setbit_eqb, Z.clearbit_eqb by done.
  rewrite (proj2 (Z.eqb_neq f g)) by (destruct Hf' as [-> | ->]; by intros <-). by rewrite andb_true_r.
Qed.

Lemma peer_unwant_ok np seen p i :
  peer_ok np seen p -> (i < np)%nat -> (offers p i = true -> 0 < nwant p) ->
  exists p', peer_unwant i p = Some p' /\ peer_ok np seen p' /\ stable p p' /\
    nwant p' = nwant p - (if offers p i then 1 else 0).
Proof.
  intros Hp Hi Hw. destruct (peer_bits np seen p i Hp Hi) as [E1 E2]. unfold peer_unwant. rewrite E1, E2.
  cbn [mbind option_bind]. unfold offers in *.
  destruct (bit (piece_field p) i); cbn [negb andb] in *; [|by exists p; split_and!; [..|lia]].
  destruct (bad_bit p i); cbn [negb] in *; [by exists p; split_and!; [..|lia]|].
  specialize (Hw eq_refl). pose proof (po_nwant _ _ _ Hp) as Hr.
  pose proof (po_told _ _ _ Hp) as Htold. pose proof (po_want _ _ _ Hp) as Hwant. pose proof (po_do _ _ _ Hp) as Hdo.
  rewrite (proj2 (Z.gtb_lt _ _)) by lia. cbn [ensure mbind option_bind nwant with_nwant].
  rewrite (proj2 (Z.ltb_lt 0 (nwant p))) in Htold, Hwant by lia.
  destruct (Z.eqb_spec (nwant p - 1) 0) as [E|E].
  2:{ eexists. split; [reflexivity|].
      destruct (peer_ok_told np seen p (nwant p - 1) (flags p) (outq p) Hp) as [H1 H2];
        [by destruct (po_queue _ _ _ Hp)|lia|apply (po_news _ _ _ Hp)| | | |done|by split].
      - rewrite Htold. by rewrite (proj2 (Z.ltb_lt 0 (nwant p - 1))) by lia.
      - change (flag p PF_I_WANT = (0 <? nwant p - 1)). rewrite Hwant. by rewrite (proj2 (Z.ltb_lt _ _)) by lia.
      - change (flag p PF_DO_UNWANT = (nwant p - 1 =? 0) && (0 <? nreqs_out p)). rewrite Hdo.
        by rewrite !(proj2 (Z.eqb_neq _ 0)) by lia. }
  assert (flag (clear_flag PF_I_WANT (with_nwant (nwant p - 1) p)) PF_SUSPECT = false) as ->
    by (rewrite flag_clear, andb_true_r; exact (po_suspect _ _ _ Hp)).
  change (nreqs_out (clear_flag PF_I_WANT (with_nwant (nwant p - 1) p))) with (nreqs_out p).
  assert (flag p PF_DO_UNWANT = false) as Hd by (rewrite Hdo; by rewrite (proj2 (Z.eqb_neq _ _)) by lia).
  destruct (Z.eqb_spec (nreqs_out p) 0) as [Hr0|Hr0].
  - destruct (peer_send_plain NB_UNINTEREST (clear_flag PF_I_WANT (with_nwant (nwant p - 1) p))) as [E' Hq'];
      [done|done|by destruct (po_queue _ _ _ Hp)|]. eexists. split; [exact E'|].
    destruct (peer_ok_told np seen p (nwant p - 1) (Z.clearbit (flags p) PF_I_WANT) (outq p ++ [NB_UNINTEREST]) Hp)
      as [H1 H2]; [by destruct Hq'|lia| | | | | |by split].
    + apply news_app. split; [apply (po_news _ _ _ Hp)|]. by rewrite Htold.
    + rewrite told_app, E, Hr0. done.
    + rewrite Z.clearbit_eqb, E. apply andb_false_r.
    + rewrite Z.clearbit_eqb. change (flag p PF_DO_UNWANT && true = (nwant p - 1 =? 0) && (0 <? nreqs_out p)).
      rewrite Hd, Hr0. by rewrite andb_false_r.
    + intros g Hg. apply quiet_set_clear; [done|by left|done].
  - pose proof (proj1 (po_reqs _ _ _ Hp)). eexists. split; [reflexivity|].
    destruct (peer_ok_told np seen p (nwant p - 1) (Z.setbit (Z.clearbit (flags p) PF_I_WANT) PF_DO_UNWANT) (outq p) Hp)
      as [H1 H2]; [by destruct (po_queue _ _ _ Hp)|lia|apply (po_news _ _ _ Hp)| | | | |by split].
    + rewrite Htold. rewrite (proj2 (Z.ltb_lt 0 (nreqs_out p))) by lia. by rewrite !orb_true_r.
    + rewrite Z.setbit_eqb, Z.clearbit_eqb, E by done. by rewrite andb_false_r.
    + rewrite Z.setbit_eqb, E by done. rewrite (proj2 (Z.ltb_lt 0 (nreqs_out p))) by lia. done.
    + intros g Hg. rewrite (proj1 (quiet_set_clear PF_DO_UNWANT g _ ltac:(done) (or_intror eq_refl) Hg)).
      apply (proj2 (quiet_set_clear PF_I_WANT g _ ltac:(done) (or_introl eq_refl) Hg)).
Qed.

(** ** Requests *)

Lemma peer_request_ok np seen p r :
  peer_ok np seen p -> 0 < nwant p -> nreqs_out p < MAXPIPEDREQUESTS ->
  let p' := with_outq (outq_off p) (outq p ++ [rq_msg r]) (with_reqs (my_reqs p ++ [r]) (nreqs_out p + 1) p) in
  peer_request r p = Some p' /\ peer_ok np seen p'.
Proof.
  intros Hp Hw Hn. cbn zeta. unfold peer_request. rewrite (proj2 (Z.ltb_lt _ _)) by done.
  cbn [ensure mbind option_bind].
  destruct (peer_send_plain (rq_msg r) (with_reqs (my_reqs p ++ [r]) (nreqs_out p + 1) p)) as [E Hq];
    [done|done|by destruct (po_queue _ _ _ Hp)|]. split; [exact E|].
  destruct Hp as [H1 H2 H3 H4 H5 H6 H7 H8 [H9 H9'] H10]. split; cbn; try done.
  - apply news_app. done.
  - rewrite told_app. cbn. rewrite H5. rewrite !(proj2 (Z.ltb_lt 0 (nwant p))) by lia. done.
  - change (flag p PF_DO_UNWANT = (nwant p =? 0) && (0 <? nreqs_out p + 1)). rewrite H7.
    by rewrite (proj2 (Z.eqb_neq (nwant p) 0)) by lia.
  - rewrite length_app. cbn [length]. lia.
Qed.

(** Some requests are answered or given up, and [peer_on_no_reqs] called when none
    is left. *)
Lemma drop_reqs_ok np seen p l :
  peer_ok np seen p -> (length l < length (my_reqs p))%nat ->
  let k := Z.of_nat (length l) in
  exists p', (if k =? 0 then peer_on_no_reqs (with_reqs l k p) else Some (with_reqs l k p)) = Some p' /\
    peer_ok np seen p' /\ my_reqs p' = l /\ nwant p' = nwant p /\
    piece_field p' = piece_field p /\ bad_field p' = bad_field p /\ npcs_bad p' = npcs_bad p /\
    suspicion p' = suspicion p /\ npieces p' = npieces p /\
    (forall f, quiet f -> flag p' f = flag p f).
Proof.
  intros Hp Hlen k. pose proof (po_reqs _ _ _ Hp) as [Hr Hr']. pose proof (po_told _ _ _ Hp) as Ht.
  pose proof (po_do _ _ _ Hp) as Hd. pose proof (po_nwant _ _ _ Hp) as Hw.
  rewrite (proj2 (Z.ltb_lt 0 (nreqs_out p))) in Ht, Hd by lia. rewrite orb_true_r in Ht. rewrite andb_true_r in Hd.
  destruct (Z.eqb_spec k 0) as [Ek|Ek].
  - unfold peer_on_no_reqs. change (flag (with_reqs l k p) PF_DO_UNWANT) with (flag p PF_DO_UNWANT). rewrite Hd.
    destruct (Z.eqb_spec (nwant p) 0) as [Ew|Ew].
    + change (nwant (with_reqs l k p)) with (nwant p). rewrite Ew. cbn [Z.eqb ensure mbind option_bind].
      destruct (peer_send_plain NB_UNINTEREST (clear_flag PF_DO_UNWANT (with_reqs l k p))) as [E Hq];
        [done|done|by destruct (po_queue _ _ _ Hp)|]. eexists. split; [exact E|].
      assert (forall f, quiet f -> Z.testbit (Z.clearbit (flags p) PF_DO_UNWANT) f = flag p f) as Hf
        by (intros f Hf; apply quiet_set_clear; [done|by right|done]).
      split; [|by split_and!].
      destruct Hp as [H1 H2 H3 H4 H5 H6 H7 H8 H9 H10]. split; cbn; try done.
      * apply news_app. split; [done|]. by rewrite Ht.
      * rewrite told_app. cbn. by rewrite Ew, Ek.
      * change (Z.testbit (Z.clearbit (flags p) PF_DO_UNWANT) PF_I_WANT = (0 <? nwant p)).
        rewrite Z.clearbit_eqb, andb_true_r. exact H6.
      * change (Z.testbit (Z.clearbit (flags p) PF_DO_UNWANT) PF_DO_UNWANT = (nwant p =? 0) && (0 <? k)).
        rewrite Z.clearbit_eqb, Ek, !andb_false_r. done.
      * change (Z.testbit (Z.clearbit (flags p) PF_DO_UNWANT) PF_SUSPECT = false).
        rewrite Z.clearbit_eqb, andb_true_r. exact H8.
      * lia.
    + eexists. split; [reflexivity|]. split; [|by split_and!].
      destruct Hp as [H1 H2 H3 H4 H5 H6 H7 H8 H9 H10]. split; cbn; try done.
      * by destruct H3.
      * rewrite Ht. by rewrite (proj2 (Z.ltb_lt 0 (nwant p))) by lia.
      * change (flag p PF_DO_UNWANT = (nwant p =? 0) && (0 <? k)). rewrite Hd. by rewrite (proj2 (Z.eqb_neq _ _)) by lia.
      * lia.
  - eexists. split; [reflexivity|]. split; [|by split_and!].
    destruct Hp as [H1 H2 H3 H4 H5 H6 H7 H8 H9 H10]. split; cbn; try done.
    + by destruct H3.
    + rewrite Ht, (proj2 (Z.ltb_lt 0 k)) by lia. by rewrite orb_true_r.
    + change (flag p PF_DO_UNWANT = (nwant p =? 0) && (0 <? k)). rewrite Hd, (proj2 (Z.ltb_lt 0 k)) by lia.
      rewrite andb_true_r. apply Bool.eq_iff_eq_true. rewrite Z.eqb_eq. lia.
    + lia.
Qed.

(** ** Taking messages back *)

(** A filter that only takes plain and neutral messages out. *)
Definition keeps (f : net_buf -> bool) : Prop := forall nb, f nb = false -> plain nb = true /\ neutral nb = true.
Definition strip (f : net_buf -> bool) (q : list net_buf) : list net_buf := filter (fun nb => f nb = true) q.

Lemma strip_cons f nb q : strip f (nb :: q) = if f nb then nb :: strip f q else strip f q.
Proof. unfold strip. rewrite filter_cons. destruct (f nb); case_decide; done. Qed.

Lemma paired_strip f q : keeps f -> paired q -> paired (strip f q).
Proof.
  intros Hf. revert q. apply (paired_ind (fun q => paired (strip f q))); [done| |].
  - intros nb q Hp _ IH. rewrite strip_cons. destruct (f nb); [by apply paired_cons|done].
  - intros i b n q _ IH. rewrite !strip_cons.
    destruct (f (NB_PIECE i b n)) eqn:E1; [|by apply Hf in E1 as [? _]].
    destruct (f (NB_TORRENTDATA n)) eqn:E2; [|by apply Hf in E2 as [? _]]. by cbn.
Qed.

Lemma strip_count f q : keeps f -> count_data (strip f q) = count_data q.
Proof.
  intros Hf. induction q as [|nb q IH]; [done|]. rewrite strip_cons, count_data_cons. destruct (f nb) eqn:E.
  - by rewrite count_data_cons, IH.
  - apply Hf in E as [Hp _]. rewrite IH. by destruct nb.
Qed.

Lemma strip_news f q : (forall nb, f nb = false -> neutral nb = true) ->
  (forall b, told b (strip f q) = told b q) /\ (forall b, news b (strip f q) <-> news b q).
Proof.
  intros Hf. induction q as [|nb q (IH1 & IH2)]; [done|]. rewrite strip_cons. destruct (f nb) eqn:E.
  - destruct nb; cbn; split; intros b; rewrite ?IH1, ?IH2; done.
  - apply Hf in E. destruct nb; try done; split; intros b; cbn; done.
Qed.

Definition not_request (nb : net_buf) : bool := match nb with NB_REQUEST _ _ _ => false | _ => true end.

Lemma delete_middle {A} (a b : list A) x : delete (length a) (a ++ x :: b) = a ++ b.
Proof. rewrite delete_take_drop, take_app_length. f_equal. replace (S (length a)) with (length a + 1)%nat by lia.
  rewrite <- drop_drop, drop_app_length. done. Qed.

Lemma unsend_requests_rest rest : forall done_ fuel p,
  outq p = done_ ++ rest -> (done_ <> [] \/ outq_off p <= 0) -> (length rest <= fuel)%nat ->
  unsend_requests fuel (length done_) p = Some (with_outq (outq_off p) (done_ ++ strip not_request rest) p).
Proof.
  induction rest as [|nb rest IH]; intros done_ fuel p E Hd Hf.
  - assert (p = with_outq (outq_off p) (done_ ++ []) p) as Ep by (rewrite <- E; by destruct p).
    destruct fuel; cbn [unsend_requests]; [by f_equal|].
    rewrite lookup_ge_None_2 by (rewrite E, app_nil_r; lia). by f_equal.
  - destruct fuel as [|fuel]; cbn [length] in Hf; [lia|]. cbn [unsend_requests].
    assert (outq p !! length done_ = Some nb) as Hnl by (rewrite E; by apply list_lookup_middle).
    rewrite Hnl, strip_cons.
    assert ((length done_ =? 0)%nat && (outq_off p >? 0) = false) as Hk by (destruct done_, Hd; done || (cbn; lia)).
    destruct (not_request nb) eqn:Er.
    + assert (unsend_requests fuel (S (length done_)) p = Some (with_outq (outq_off p) (done_ ++ nb :: strip not_request rest) p)) as Hgo.
      { specialize (IH (done_ ++ [nb]) fuel p). rewrite length_app in IH. cbn [length] in IH.
        replace (length done_ + 1)%nat with (S (length done_)) in IH by lia.
        rewrite IH; [by rewrite <- app_assoc|by rewrite <- app_assoc|by left; destruct done_|lia]. }
      by destruct nb.
    + destruct nb; try done. rewrite (peer_unsend_eq p _ _ Hnl eq_refl), Hk. cbn [negb mbind option_bind].
      rewrite E, delete_middle. rewrite (IH done_ fuel); [done|done|done|lia].
Qed.

(** What is begun stays in front: the first message, if some of it is written. *)
Lemma unsend_requests_ok np seen p :
  peer_ok np seen p ->
  exists p', unsend_requests (length (outq p)) 0 p = Some p' /\ peer_ok np seen p' /\ stable p p' /\
    nwant p' = nwant p /\
    let k := if outq_off p >? 0 then 1%nat else 0%nat in
    outq p' = take k (outq p) ++ strip not_request (drop k (outq p)).
Proof.
  intros Hp. pose proof (po_queue _ _ _ Hp) as [Q1 Q2 Q3 Q4].
  set (k := if outq_off p >? 0 then 1%nat else 0%nat).
  set (q := take k (outq p) ++ strip not_request (drop k (outq p))).
  assert (keeps not_request) as Hkeeps by (intros []; done).
  assert (unsend_requests (length (outq p)) 0 p = Some (with_outq (outq_off p) q p)) as E.
  { unfold q, k. destruct (Z.gtb_spec (outq_off p) 0) as [Ho|Ho].
    - destruct (outq p) as [|nb r] eqn:Eq; [lia|]. cbn [length take drop].
      assert (unsend_requests (length r) 1 p = Some (with_outq (outq_off p) ([nb] ++ strip not_request r) p)) as Hgo
        by (apply (unsend_requests_rest r [nb]); [done|by left|done]).
      cbn [unsend_requests]. rewrite Eq. cbn [lookup list_lookup].
      destruct nb; try exact Hgo. rewrite (peer_unsend_eq p 0 (NB_REQUEST index begin length)); [|by rewrite Eq|done].
      rewrite (proj2 (Z.gtb_lt _ _)) by lia. cbn [Nat.eqb andb negb mbind option_bind]. exact Hgo.
    - apply (unsend_requests_rest (outq p) []); [done|right; lia|done]. }
  exists (with_outq (outq_off p) q p). split; [exact E|].
  assert (count_data q = count_data (outq p) /\ (forall b, told b q = told b (outq p)) /\
    (forall b, news b q <-> news b (outq p))) as (C1 & C2 & C3).
  { unfold q. pose proof (strip_count not_request (drop k (outq p)) Hkeeps) as S1.
    destruct (strip_news not_request (drop k (outq p))) as (S2 & S3); [by intros []|].
    pose proof (take_drop k (outq p)) as Et. split_and!.
    - by rewrite count_data_app, S1, <- count_data_app, Et.
    - intros b. by rewrite told_app, S2, <- told_app, Et.
    - intros b. by rewrite news_app, S3, <- news_app, Et. }
  split; [|split; [by split|done]]. apply peer_ok_outq; [done| |apply C3, (po_news _ _ _ Hp)|apply C2].
  split; cbn [outq npiece_msgs outq_off with_outq].
  - unfold q. clear -Q1 Hkeeps. destruct Q1 as [Q1|(n & r & -> & Q1)].
    + left. destruct k as [|[|k']] eqn:Ek; [cbn; by apply paired_strip| |by destruct (outq_off p >? 0)].
      destruct (outq p) as [|nb r]; [done|]. change (paired (nb :: strip not_request r)).
      destruct nb; try (cbn in *; by apply paired_strip); cbn in Q1; [|done].
      destruct r as [|[] r]; try done. destruct Q1 as [-> Q1]. rewrite strip_cons. cbn. split; [done|]. by apply paired_strip.
    + right. exists n, (strip not_request r). split; [|by apply paired_strip].
      unfold k. by destruct (outq_off p >? 0).
  - by rewrite C1.
  - unfold q, k. destruct (Z.gtb_spec (outq_off p) 0) as [Ho|Ho].
    + by destruct (outq p).
    + assert (outq_off p = 0) as -> by (revert Q3 Ho; clear; destruct (outq p); intros; lia). cbn. destruct (strip _ _); [done|split; [done|by left]].
  - unfold q. apply Forall_app_2; [by apply Forall_take|]. unfold strip.
    apply Forall_forall. intros x [_ Hx]%list_elem_of_filter.
    pose proof (Forall_drop _ k _ Q4) as Q5. rewrite Forall_forall in Q5. by apply Q5.
Qed.

(** ** Choking *)

Lemma unsend_pieces_rest rest : paired rest -> forall done_ fuel p,
  outq p = done_ ++ rest -> (done_ <> [] \/ outq_off p <= 0) -> (length rest <= fuel)%nat ->
  count_data rest <= npiece_msgs p ->
  unsend_pieces fuel (length done_) p =
    Some (with_msgs (npiece_msgs p - count_data rest) (with_outq (outq_off p) (done_ ++ strip plain rest) p)).
Proof.
  revert rest. apply (paired_ind (fun rest => forall done_ fuel p,
    outq p = done_ ++ rest -> (done_ <> [] \/ outq_off p <= 0) -> (length rest <= fuel)%nat ->
    count_data rest <= npiece_msgs p ->
    unsend_pieces fuel (length done_) p =
      Some (with_msgs (npiece_msgs p - count_data rest) (with_outq (outq_off p) (done_ ++ strip plain rest) p)))).
  - intros done_ fuel p E Hd Hf Hc. change (count_data []) with 0. rewrite Z.sub_0_r.
    assert (p = with_msgs (npiece_msgs p) (with_outq (outq_off p) (done_ ++ []) p)) as Ep by (rewrite <- E; by destruct p).
    destruct fuel; cbn [unsend_pieces]; [by f_equal|].
    rewrite lookup_ge_None_2 by (rewrite E, app_nil_r; lia). by f_equal.
  - intros nb rest Hpl _ IH done_ fuel p E Hd Hf Hc. destruct fuel as [|fuel]; cbn [length] in Hf; [lia|].
    cbn [unsend_pieces]. assert (outq p !! length done_ = Some nb) as Hnl by (rewrite E; by apply list_lookup_middle).
    rewrite count_data_plain in * by done. rewrite Hnl, strip_cons, Hpl.
    specialize (IH (done_ ++ [nb]) fuel p). rewrite length_app in IH. cbn [length] in IH.
    replace (length done_ + 1)%nat with (S (length done_)) in IH by lia. rewrite <- !app_assoc in IH. cbn [app] in IH.
    destruct nb; try done; (apply IH; [done|left; by destruct done_|lia|done]).
  - intros i b n rest Hrest IH done_ fuel p E Hd Hf Hc. destruct fuel as [|fuel]; cbn [length] in Hf; [lia|].
    cbn [unsend_pieces]. assert (outq p !! length done_ = Some (NB_PIECE i b n)) as Hnl by (rewrite E; by apply list_lookup_middle).
    assert ((length done_ =? 0)%nat && (outq_off p >? 0) = false) as Hk by (destruct done_, Hd; done || (cbn; lia)).
    rewrite Hnl. assert (outq p !! S (length done_) = Some (NB_TORRENTDATA n)) as Hnl2.
    { rewrite E, lookup_app_r by lia. by replace (S (length done_) - length done_)%nat with 1%nat by lia. }
    unfold aread. rewrite Hnl2, (peer_unsend_eq p _ _ Hnl eq_refl), Hk. cbn [negb mbind option_bind].
    rewrite E, delete_middle. set (p1 := with_outq (outq_off p) (done_ ++ NB_TORRENTDATA n :: rest) p).
    rewrite !count_data_cons in *. cbn [is_data] in *. pose proof (count_data_nonneg rest).
    rewrite (peer_unsend_data p1 _ n); [|by apply list_lookup_middle|exact Hk|cbn; lia]. cbn [mbind option_bind].
    change (outq p1) with (done_ ++ NB_TORRENTDATA n :: rest). rewrite delete_middle.
    change (npiece_msgs p1) with (npiece_msgs p). change (outq_off p1) with (outq_off p).
    set (p2 := with_msgs (npiece_msgs p - 1) (with_outq (outq_off p) (done_ ++ rest) p1)).
    rewrite (IH done_ fuel p2); [|done|exact Hd|lia|cbn; lia].
    rewrite !strip_cons. cbn [plain]. unfold p2, p1. cbn. f_equal. unfold with_msgs, with_outq. cbn. f_equal. lia.
Qed.

(** What is begun: data whose piece is written, a piece of which something is
    written with its data, another message of which something is written. *)
Definition begun (off : Z) (q : list net_buf) : nat :=
  match q with
  | [] => 0
  | NB_TORRENTDATA _ :: _ => 1
  | nb :: _ => if off >? 0 then if plain nb then 1 else 2 else 0
  end%nat.

Lemma unsend_pieces_ok p :
  queue_ok p ->
  let k := begun (outq_off p) (outq p) in
  let q := take k (outq p) ++ strip plain (drop k (outq p)) in
  unsend_pieces (length (outq p)) 0 p = Some (with_msgs (count_data q) (with_outq (outq_off p) q p)) /\
  queue_ok (with_msgs (count_data q) (with_outq (outq_off p) q p)).
Proof.
  intros [Q1 Q2 Q3 Q4].
  assert (forall l, count_data (strip plain l) = 0) as Hstrip.
  { induction l as [|nb l IH]; [done|]. rewrite strip_cons. destruct (plain nb) eqn:E; [|done].
    by rewrite count_data_plain. }
  assert (forall l, paired (strip plain l)) as Hpaired.
  { induction l as [|nb l IH]; [done|]. rewrite strip_cons. destruct (plain nb) eqn:E; [|done]. by apply paired_cons. }
  set (k := begun (outq_off p) (outq p)). cbn zeta.
  assert (paired (drop k (outq p))) as Hrest.
  { destruct Q1 as [Q1|(n & r & E & Q1)]; unfold k; [|by rewrite E].
    destruct (outq p) as [|nb r]; [done|]. destruct nb; cbn [begun plain]; try done;
      destruct (outq_off p >? 0); try exact Q1. destruct r as [|[] r]; try done. apply Q1. }
  assert (count_data (take k (outq p)) + count_data (drop k (outq p)) = count_data (outq p)) as Hsum
    by (by rewrite <- count_data_app, take_drop).
  set (q := take k (outq p) ++ strip plain (drop k (outq p))).
  assert (count_data q = count_data (outq p) - count_data (drop k (outq p))) as Hc.
  { unfold q. rewrite count_data_app, Hstrip. lia. }
  split.
  - rewrite Hc, <- Q2.
    assert (take k (outq p) <> [] \/ outq_off p <= 0) as Hk.
    { unfold k. destruct (outq p) as [|nb r]; [right; lia|].
      destruct (Z.gtb_spec (outq_off p) 0); [left|right; lia]. unfold begun.
      rewrite (proj2 (Z.gtb_lt _ _)) by done. by destruct nb. }
    assert (forall fuel, (length (drop k (outq p)) <= fuel)%nat ->
      unsend_pieces fuel (length (take k (outq p))) p = Some (with_msgs (npiece_msgs p - count_data (drop k (outq p)))
        (with_outq (outq_off p) q p))) as Hgo.
    { intros fuel Hf. apply unsend_pieces_rest; [done|by rewrite take_drop|done|done|].
      pose proof (count_data_nonneg (take k (outq p))). lia. }
    clearbody q. revert Hgo. unfold k. clear -Q1 Q3. destruct (outq p) as [|nb r] eqn:E; [intros Hgo; by apply Hgo|].
    destruct nb; cbn [begun plain]; destruct (Z.gtb_spec (outq_off p) 0) as [Ho|Ho]; intros Hgo;
      try (apply Hgo; done); cbn [Datatypes.length unsend_pieces]; rewrite E; cbn [lookup list_lookup]; try (apply Hgo; done).
    (* a piece of which something is written *)
    destruct Q1 as [Q1|(? & ? & ? & _)]; [|done]. cbn in Q1. destruct r as [|[] r]; try done.
    unfold aread. cbn [lookup list_lookup mbind option_bind]. unfold peer_unsend, aread. rewrite E.
    cbn [lookup list_lookup mbind option_bind Nat.eqb andb]. rewrite (proj2 (Z.gtb_lt _ _)) by done.
    apply Hgo. rewrite length_drop. cbn. lia.
  - split; cbn [outq npiece_msgs outq_off with_outq with_msgs].
    + unfold q, k. clear -Q1 Hpaired. destruct Q1 as [Q1|(n & r & -> & Q1)].
      * left. destruct (outq p) as [|nb r]; [done|].
        destruct nb; cbn [begun plain]; destruct (outq_off p >? 0); try exact (Hpaired _); try exact (Hpaired r); try done.
        destruct r as [|[] r]; try done. destruct Q1 as [-> _]. split; [done|]. apply Hpaired.
      * right. exists n, (strip plain r). done.
    + done.
    + unfold q, k. clear -Q3. destruct (outq p) as [|nb r]; [done|].
      destruct nb; cbn [begun plain]; destruct (Z.gtb_spec (outq_off p) 0) as [Ho|Ho]; try exact Q3;
        (assert (outq_off p = 0) as -> by lia; cbn [take drop app]; destruct (strip _ _); [done|split; [done|by left]]).
    + unfold q. apply Forall_app_2; [by apply Forall_take|]. unfold strip.
      apply Forall_forall. intros x [_ Hx]%list_elem_of_filter.
      pose proof (Forall_drop _ k _ Q4) as Q5. rewrite Forall_forall in Q5. by apply Q5.
Qed.

(** What a change of the queue leaves of a peer. *)
Record alike (p p' : peer) : Prop := Alike {
  al_field : piece_field p' = piece_field p /\ npieces p' = npieces p;
  al_bad : bad_field p' = bad_field p /\ npcs_bad p' = npcs_bad p /\ suspicion p' = suspicion p;
  al_want : nwant p' = nwant p;
  al_reqs : my_reqs p' = my_reqs p /\ nreqs_out p' = nreqs_out p;
  al_flags : flag p' PF_P_CHOKE = flag p PF_P_CHOKE /\ flag p' PF_BANNED = flag p PF_BANNED
}.

#[export] Instance alike_preorder : PreOrder alike.
Proof.
  split; [by intros p; split|]. intros p p' p'' [[] [? []] ? [] []] [[] [? []] ? [] []].
  split; [split|split_and!| |split|split]; congruence.
Qed.

(** Choking a peer takes the pieces back that are not begun, with their data. *)
Lemma peer_choke_ok np seen p :
  peer_ok np seen p ->
  let k := begun (outq_off p) (outq p) in
  exists p', peer_choke p = Some p' /\ peer_ok np seen p' /\ flag p' PF_I_CHOKE = true /\
    outq p' = (take k (outq p) ++ strip plain (drop k (outq p))) ++ [NB_CHOKE] /\ alike p p'.
Proof.
  intros Hp k. destruct (unsend_pieces_ok p (po_queue _ _ _ Hp)) as [E Hq]. unfold peer_choke. rewrite E.
  cbn [mbind option_bind]. fold k in E, Hq |- *. set (q := take k (outq p) ++ strip plain (drop k (outq p))) in *.
  set (p1 := with_msgs (count_data q) (with_outq (outq_off p) q p)) in *.
  assert ((forall b, told b q = told b (outq p)) /\ (forall b, news b q <-> news b (outq p))) as [C2 C3].
  { destruct (strip_news plain (drop k (outq p))) as (S2 & S3); [by intros []|].
    pose proof (take_drop k (outq p)) as Et. unfold q. split; intros b.
    - by rewrite told_app, S2, <- told_app, Et.
    - by rewrite news_app, S3, <- news_app, Et. }
  assert (forall f, f <> PF_I_CHOKE -> flag (set_flag PF_I_CHOKE p1) f = flag p f) as Hf.
  { intros f Hf. rewrite flag_set by done. rewrite (proj2 (Z.eqb_neq _ _)) by (by intros <-). done. }
  assert (peer_ok np seen (set_flag PF_I_CHOKE p1)) as Hp1.
  { destruct Hp as [H1 H2 H3 H4 H5 H6 H7 H8 H9 H10]. split; try done.
    - by destruct Hq.
    - cbn. by apply C3.
    - cbn. by rewrite C2.
    - by rewrite Hf.
    - by rewrite Hf.
    - by rewrite Hf. }
  destruct (peer_send_ok np seen NB_CHOKE _ Hp1) as [Es Hs]; [done..|]. eexists. split; [exact Es|].
  split; [exact Hs|]. split; [|split; [done|]].
  - change (flag (set_flag PF_I_CHOKE p1) PF_I_CHOKE = true). by rewrite flag_set.
  - split; try done. split; by apply Hf.
Qed.

Lemma peer_unchoke_ok np seen p :
  peer_ok np seen p -> exists p', peer_unchoke p = Some p' /\ peer_ok np seen p' /\ alike p p'.
Proof.
  intros Hp. assert (forall f, f <> PF_I_CHOKE -> flag (clear_flag PF_I_CHOKE p) f = flag p f) as Hf.
  { intros f Hf. rewrite flag_clear, (proj2 (Z.eqb_neq _ _)) by (by intros <-). apply andb_true_r. }
  assert (peer_ok np seen (clear_flag PF_I_CHOKE p)) as Hp1.
  { destruct Hp as [H1 H2 [Q1 Q2 Q3 Q4] H4 H5 H6 H7 H8 H9 H10]. split; try done; by rewrite Hf. }
  destruct (peer_send_ok np seen NB_UNCHOKE _ Hp1) as [Es Hs]; [done..|]. eexists. split; [exact Es|].
  split; [exact Hs|]. split; try done. split; by apply Hf.
Qed.

(** ** Writing *)

Definition queued (q : list net_buf) : Z := foldr (fun nb n => nb_len nb + n) 0 q.

Lemma queued_nonneg q : Forall (fun nb => 0 <= nb_len nb) q -> 0 <= queued q.
Proof. unfold queued. induction 1; cbn [foldr]; lia. Qed.

(** The head of the queue is written. *)
Lemma peer_sent_ok np seen nb q p :
  peer_ok np seen p -> outq p = nb :: q ->
  exists p1, peer_sent nb p = Some p1 /\ peer_ok np (told seen [nb]) (with_outq 0 q p1) /\
    outq p1 = outq p /\ nwant p1 = nwant p /\ piece_field p1 = piece_field p /\ bad_field p1 = bad_field p /\
    npcs_bad p1 = npcs_bad p /\ suspicion p1 = suspicion p /\ npieces p1 = npieces p /\
    my_reqs p1 = my_reqs p /\ nreqs_out p1 = nreqs_out p /\
    (forall f, f <> PF_NO_REQUESTS -> flag p1 f = flag p f).
Proof.
  intros [H1 H2 [Q1 Q2 Q3 Q4] H4 H5 H6 H7 H8 H9 H10] E. rewrite E in *. apply Forall_cons in Q4 as [Q4 Q5].
  rewrite count_data_cons in Q2.
  assert ((paired q \/ exists n q', q = NB_TORRENTDATA n :: q' /\ paired q')) as Hq.
  { destruct Q1 as [Q1|(n & r & [= -> ->] & Q1)]; [|by left]. destruct nb; try (by left).
    cbn in Q1. destruct q as [|[] q]; try done. right. destruct Q1 as [-> Q1]. by eexists _, _. }
  assert (told (told seen [nb]) q = told seen (nb :: q)) as Ht by (by destruct nb).
  assert (news (told seen [nb]) q) as Hn by (destruct nb; cbn in *; tauto).
  assert (forall m f, m = count_data q ->
    (forall g, g <> PF_NO_REQUESTS -> Z.testbit f g = flag p g) ->
    peer_ok np (told seen [nb]) (with_outq 0 q (with_msgs m (with_flags f p)))) as Hok.
  { intros m f -> Hf. split; try done.
    - split; cbn; try done. destruct q; [done|split; [done|by left]].
    - change (told (told seen [nb]) q = (0 <? nwant p) || (0 <? nreqs_out p)). by rewrite Ht.
    - change (Z.testbit f PF_I_WANT = (0 <? nwant p)). by rewrite Hf.
    - change (Z.testbit f PF_DO_UNWANT = (nwant p =? 0) && (0 <? nreqs_out p)). by rewrite Hf.
    - change (Z.testbit f PF_SUSPECT = false). by rewrite Hf. }
  assert (is_data nb = false -> p = with_msgs (count_data q) (with_flags (flags p) p)) as Hself.
  { intros Hd. rewrite Hd in Q2. assert (count_data q = npiece_msgs p) as -> by lia. by destruct p. }
  destruct (is_data nb) eqn:Ed.
  - destruct nb; try done. cbn [peer_sent]. unfold piece_msg_gone. pose proof (count_data_nonneg q).
    rewrite (proj2 (Z.gtb_lt _ _)) by lia. cbn [ensure mbind option_bind]. eexists. split; [reflexivity|].
    split; [|by split_and!]. apply (Hok (npiece_msgs p - 1) (flags p)); [lia|done].
  - destruct (decide (nb = NB_UNCHOKE)) as [->|Hne].
    + eexists. split; [reflexivity|].
      assert (forall g, g <> PF_NO_REQUESTS -> Z.testbit (Z.clearbit (flags p) PF_NO_REQUESTS) g = flag p g) as Hf.
      { intros g Hg. rewrite Z.clearbit_eqb, (proj2 (Z.eqb_neq _ _)) by (by intros <-). apply andb_true_r. }
      split; [|by split_and!]. rewrite (Hself eq_refl).
      exact (Hok (count_data q) (Z.clearbit (flags p) PF_NO_REQUESTS) eq_refl Hf).
    + exists p. split; [by destruct nb|]. split; [|by split_and!]. rewrite (Hself eq_refl). by apply Hok.
Qed.

Lemma net_written_ok np : forall q seen p bcount fuel,
  peer_ok np seen p -> outq p = q -> 0 <= bcount <= queued q - outq_off p -> (length q < fuel)%nat ->
  exists done_ p', net_written fuel bcount p = Some p' /\ q = done_ ++ outq p' /\
    peer_ok np (told seen done_) p' /\ alike p p'.
Proof.
  induction q as [|nb q IH]; intros seen p bcount fuel Hp E Hb Hf; (destruct fuel as [|fuel]; [cbn in Hf; lia|]);
    cbn [net_written length] in *.
  - pose proof (qo_off _ (po_queue _ _ _ Hp)) as Ho. rewrite E in Ho. cbn in Hb.
    destruct (Z.gtb_spec bcount 0); [lia|]. exists [], p. by rewrite E.
  - destruct (Z.gtb_spec bcount 0) as [H0|H0]; [|exists [], p; by rewrite E]. rewrite E.
    pose proof (qo_off _ (po_queue _ _ _ Hp)) as Ho. rewrite E in Ho.
    destruct (bcount >=? nb_len nb - outq_off p) eqn:Eg.
    + destruct (peer_sent_ok np seen nb q p Hp E) as (p1 & -> & Hp1 & Q & G1 & G2 & G3 & G4 & G5 & G6 & G7 & G8 & G9).
      cbn [mbind option_bind].
      destruct (IH (told seen [nb]) (with_outq 0 q p1) (bcount - (nb_len nb - outq_off p)) fuel Hp1 eq_refl)
        as (done_ & p' & E' & Eq & Hp' & Ha); [cbn in Hb |- *; unfold queued in *; lia|lia|].
      exists (nb :: done_), p'. split; [exact E'|]. split; [cbn; by f_equal|].
      split; [by destruct nb|]. etransitivity; [|exact Ha]. split; cbn; try done. by split; apply G9.
    + eexists [], _. split; [reflexivity|]. split; [done|]. split; [|by split].
      destruct Hp as [H1 H2 [Q1 Q2 Q3 Q4] H4 H5 H6 H7 H8 H9 H10]. rewrite E in *. split; try done.
      split; try done. cbn. lia.
Qed.

(** ** The peer's requests *)

Lemma paired_delete_pair q : paired q -> forall i a b n, q !! i = Some (NB_PIECE a b n) ->
  q !! S i = Some (NB_TORRENTDATA n) /\ paired (delete i (delete i q)).
Proof.
  revert q. apply (paired_ind (fun q => forall i a b n, q !! i = Some (NB_PIECE a b n) ->
    q !! S i = Some (NB_TORRENTDATA n) /\ paired (delete i (delete i q)))); [done| |].
  - intros nb q Hp Hq IH [|i] a b n Hi; cbn in Hi; [by simplify_eq|].
    destruct (IH i a b n Hi) as [H1 H2]. split; [exact H1|]. cbn. by apply paired_cons.
  - intros i0 b0 n0 q Hq IH [|[|i]] a b n Hi; cbn in Hi; simplify_eq.
    + by split.
    + destruct (IH i a b n Hi) as [H1 H2]. split; [exact H1|]. by split.
Qed.

Lemma split_at {A} (q : list A) i x y : q !! i = Some x -> q !! S i = Some y ->
  q = take i q ++ x :: y :: drop (S (S i)) q /\ delete i (delete i q) = take i q ++ drop (S (S i)) q.
Proof.
  intros Hx Hy. assert (q = take i q ++ x :: y :: drop (S (S i)) q) as E.
  { rewrite <- (take_drop_middle q i x Hx) at 1. f_equal. f_equal. by apply drop_S. }
  split; [exact E|]. assert (length (take i q) = i) as El by (apply length_take_le; apply lookup_lt_Some in Hx; lia).
  set (a := take i q) in *. set (d := drop (S (S i)) q) in *. rewrite E, <- El. by rewrite !delete_middle.
Qed.

Lemma find_piece_ok f q : forall nl nl', find_piece f q nl = Some nl' ->
  exists nb, (nl <= nl')%nat /\ q !! (nl' - nl)%nat = Some nb /\ f nb = true.
Proof.
  induction q as [|nb q IH]; intros nl nl' E; cbn in E; [done|]. destruct (f nb) eqn:Ef.
  - simplify_eq. exists nb. rewrite Nat.sub_diag. done.
  - destruct (IH _ _ E) as (nb' & H1 & H2 & H3). exists nb'. split; [lia|]. split; [|done].
    by replace (nl' - nl)%nat with (S (nl' - S nl)) by lia.
Qed.

Lemma peer_on_cancel_ok np seen p index begin length :
  peer_ok np seen p ->
  exists p', peer_on_cancel index begin length p = Some p' /\ peer_ok np seen p' /\ alike p p'.
Proof.
  intros Hp. unfold peer_on_cancel. destruct (find_piece _ _ _) as [nl|] eqn:E; [|by exists p].
  apply find_piece_ok in E as (nb & _ & Hnl & Hnb). rewrite Nat.sub_0_r in Hnl.
  destruct nb as [| | | | | | |i b n| | | | | |]; try done.
  rewrite (peer_unsend_eq p nl _ Hnl eq_refl).
  destruct ((nl =? 0)%nat && (outq_off p >? 0)) eqn:Ek; cbn [negb mbind option_bind]; [by exists p|].
  destruct Hp as [H1 H2 [Q1 Q2 Q3 Q4] H4 H5 H6 H7 H8 H9 H10].
  assert (outq p !! S nl = Some (NB_TORRENTDATA n) /\
    (paired (delete nl (delete nl (outq p))) \/
     exists n q, delete nl (delete nl (outq p)) = NB_TORRENTDATA n :: q /\ paired q)) as [Hd Hpair].
  { destruct Q1 as [Q1|(n' & q & Eq & Q1)].
    - destruct (paired_delete_pair _ Q1 _ _ _ _ Hnl) as [? ?]. split; [done|by left].
    - rewrite Eq in *. destruct nl as [|nl]; [done|]. cbn in Hnl.
      destruct (paired_delete_pair _ Q1 _ _ _ _ Hnl) as [? ?]. split; [done|]. right. exists n', (delete nl (delete nl q)). done. }
  destruct (split_at _ _ _ _ Hnl Hd) as [Eq Edel]. set (q := delete nl (delete nl (outq p))) in *.
  assert (count_data (outq p) = count_data q + 1) as Hc.
  { rewrite Eq, Edel, !count_data_app, !count_data_cons. cbn [is_data]. lia. }
  assert ((forall b, told b q = told b (outq p)) /\ (forall b, news b q <-> news b (outq p))) as [C2 C3].
  { split; intros b0; rewrite Eq, Edel; [by rewrite !told_app|by rewrite !news_app]. }
  pose proof (count_data_nonneg q).
  rewrite (peer_unsend_data _ nl n); [| |exact Ek|cbn; lia].
  2:{ cbn. rewrite <- Hd. apply list_lookup_delete_ge. lia. }
  cbn [mbind option_bind]. eexists. split; [reflexivity|]. split; [|by split].
  change (delete nl (outq (with_outq (outq_off p) (delete nl (outq p)) p))) with q.
  split; try done; [| |].
  - split; cbn; [exact Hpair|lia| |].
    + clear -Q3 Ek Hpair Edel Hnl Hd. destruct (outq p) as [|nb0 r]; [done|].
      destruct nl as [|nl]; [|exact Q3]. cbn in Ek. assert (outq_off p = 0) as -> by lia.
      destruct q; [done|split; [done|by left]].
    + rewrite Edel. rewrite Eq in Q4. apply Forall_app in Q4 as [? Q4]. apply Forall_app_2; [done|].
      by inversion Q4 as [|? ? ? Q5]; inversion Q5.
  - cbn. by apply C3.
  - cbn. by rewrite C2.
Qed.

Lemma peer_on_request_ok np seen p index begin length :
  peer_ok np seen p -> 0 <= length -> npiece_msgs p + 1 < 2 ^ 32 ->
  exists p', peer_on_request index begin length p = Some p' /\ peer_ok np seen p' /\ alike p p'.
Proof.
  intros Hp Hl Hm. unfold peer_on_request. destruct (flag p PF_NO_REQUESTS); [by exists p|].
  destruct Hp as [H1 H2 [Q1 Q2 Q3 Q4] H4 H5 H6 H7 H8 H9 H10].
  set (q := (outq p ++ [NB_PIECE index begin length]) ++ [NB_TORRENTDATA length]).
  assert (q = outq p ++ [NB_PIECE index begin length; NB_TORRENTDATA length]) as Eq by (unfold q; by rewrite <- app_assoc).
  assert (peer_send (NB_PIECE index begin length) p = Some (with_outq (outq_off p) (outq p ++ [NB_PIECE index begin length]) p)) as ->.
  { unfold peer_send. clear -Q3. destruct (outq p); [by rewrite Q3|done]. }
  cbn [mbind option_bind].
  assert (peer_send (NB_TORRENTDATA length) (with_outq (outq_off p) (outq p ++ [NB_PIECE index begin length]) p) =
    Some (with_outq (outq_off p) q p)) as ->.
  { unfold peer_send. cbn. by destruct (outq p). }
  cbn [mbind option_bind]. cbn [npiece_msgs with_outq]. pose proof (count_data_nonneg (outq p)).
  rewrite (wrap_small 32) by lia.
  set (p1 := with_msgs (npiece_msgs p + 1) (with_outq (outq_off p) q p)).
  assert (peer_ok np seen p1) as Hp1.
  { split; try done.
    - split; cbn.
      + rewrite Eq. destruct Q1 as [Q1|(n & r & -> & Q1)]; [left|right; eexists n, _; split; [reflexivity|]]; by apply paired_app.
      + rewrite Eq, count_data_app, !count_data_cons. cbn [is_data]. change (count_data []) with 0. lia.
      + rewrite Eq. clear -Q3. destruct (outq p); cbn; [rewrite Q3; split; [done|by left]|done].
      + rewrite Eq. apply Forall_app_2; [done|]. by repeat constructor.
    - cbn. rewrite Eq. by apply news_app.
    - cbn. rewrite Eq, told_app. done. }
  destruct (_ >=? _); [|exists p1; split; [done|]; split; [done|by split]].
  destruct (peer_send_ok np seen NB_CHOKE p1 Hp1) as [-> Hp2]; [done..|]. cbn [mbind option_bind].
  match type of Hp2 with peer_ok _ _ ?x => set (p2 := x) in * end.
  destruct (peer_send_ok np seen NB_UNCHOKE p2 Hp2) as [-> Hp3]; [done..|]. cbn [mbind option_bind].
  match type of Hp3 with peer_ok _ _ ?x => set (p3 := x) in * end.
  assert (forall f, f <> PF_NO_REQUESTS -> flag (set_flag PF_NO_REQUESTS p3) f = flag p f) as Hf.
  { intros f Hf. rewrite flag_set, (proj2 (Z.eqb_neq _ _)) by (done || by intros <-). done. }
  eexists. split; [reflexivity|]. split; [|split; try done; by split; apply Hf].
  destruct Hp3 as [K1 K2 K3 K4 K5 K6 K7 K8 K9 K10]. split; try done; [by destruct K3|by rewrite Hf..].
Qed.

(** ** Blame *)

(** What blame leaves of a peer. *)
Record blamed (p p' : peer) : Prop := Blamed {
  bl_field : piece_field p' = piece_field p /\ npieces p' = npieces p;
  bl_want : nwant p' = nwant p;
  bl_reqs : my_reqs p' = my_reqs p /\ nreqs_out p' = nreqs_out p;
  bl_flags : flags p' = flags p;
  bl_outq : outq p' = outq p
}.

Lemma peer_bad_piece_ok np seen p i :
  peer_ok np seen p -> (i < np)%nat -> Z.of_nat np < 2 ^ 32 -> bad_bit p i = false -> 0 <= suspicion p < 2 ->
  exists p', peer_bad_piece np i p = Some p' /\ peer_ok np seen p' /\ blamed p p' /\ suspicion p' = suspicion p + 1 /\
    forall j, bad_bit p' j = if decide (j = i) then true else bad_bit p j.
Proof.
  intros [H1 H2 H3 H4 H5 H6 H7 H8 H9 H10] Hi Hnp Hb Hs.
  assert (exists b, (if npcs_bad p =? 0 then Some (replicate (field_bytes np) 0) else bad_field p) = Some b /\
    length b = field_bytes np /\ npcs_bad p = Z.of_nat (count_bits (bit b) np) /\ (forall j, bit b j = bad_bit p j)) as
    (b & Eb & Hlen & Hcount & Hbits).
  { unfold bad_bit in *. destruct (bad_field p) as [b|].
    - destruct H2 as (? & ? & ?). exists b. rewrite (proj2 (Z.eqb_neq _ _)) by lia. done.
    - rewrite H2. eexists. split; [reflexivity|]. split; [apply length_replicate|].
      split; [|intros j; by rewrite bit_zeros].
      rewrite (count_bits_ext _ (fun _ => false)) by (intros; apply bit_zeros).
      assert (count_bits (fun _ => false) np = 0%nat) as ->; [|done].
      destruct (count_bits (fun _ => false) np) eqn:E; [done|].
      destruct (proj1 (count_bits_pos (fun _ => false) np) ltac:(lia)) as (? & _ & ?). done. }
  unfold peer_bad_piece. rewrite Eb.
  assert (negb ((npcs_bad p =? 0) && bool_decide (is_Some (bad_field p))) = true) as ->.
  { destruct (bad_field p) as [b'|]; [|by rewrite bool_decide_false by (by intros [? ?]); rewrite andb_false_r].
    rewrite (proj2 (Z.eqb_neq _ _)) by lia. done. }
  cbn [ensure mbind option_bind].
  rewrite (has_bit_ok b np), Hbits, Hb by (done || by apply fits_bytes). cbn [negb ensure mbind option_bind].
  destruct (set_bit_ok b np i) as (b' & -> & Hlen' & Hbits'); [by apply fits_bytes|done|]. cbn [mbind option_bind].
  assert (count_bits (bit b') np = S (count_bits (bit b) np)) as Hc.
  { apply (count_bits_flip _ _ _ i); [done|by rewrite Hbits|rewrite Hbits'; by case_decide|].
    intros j _ Hj. rewrite Hbits'. by case_decide. }
  pose proof (count_bits_le (bit b') np). rewrite (wrap_small 32) by lia. cbn [suspicion with_bad].
  rewrite (proj2 (Z.eqb_neq (suspicion p + 1) 3)) by lia.
  eexists. split; [reflexivity|]. split; [|split; [by split|split; [done|]]].
  - split; try done; [|by destruct H3]. cbn [bad_field npcs_bad with_bad].
    rewrite Hc, Hlen'. split_and!; lia || done.
  - intros j. cbn. rewrite Hbits', Hbits. by case_decide.
Qed.

Lemma peer_good_piece_ok np seen p i :
  peer_ok np seen p -> (i < np)%nat ->
  exists p', peer_good_piece i p = Some (false, p') /\ peer_ok np seen p' /\ blamed p p' /\ suspicion p' = 0 /\
    forall j, (j < np)%nat -> bad_bit p' j = if decide (j = i) then false else bad_bit p j.
Proof.
  intros Hp Hi. destruct (peer_bits np seen p i Hp Hi) as [_ E]. unfold peer_good_piece. rewrite E. cbn [mbind option_bind].
  destruct Hp as [H1 H2 H3 H4 H5 H6 H7 H8 H9 H10].
  assert (forall bf k, (match bf with None => k = 0 | Some b => length b = field_bytes np /\
      k = Z.of_nat (count_bits (bit b) np) /\ 0 < k end) ->
    let p' := with_bad bf k 0 p in peer_ok np seen p' /\ blamed p p' /\ flag p' PF_SUSPECT = false) as Hok.
  { intros bf k Hbf. cbn zeta. split; [|split; [by split|done]]. split; try done. by destruct H3. }
  assert (exists bf k, (if bad_bit p i then
      _ ← ensure (npcs_bad p >? 0);
      if npcs_bad p - 1 =? 0 then Some (with_bad None 0 (suspicion p) p)
      else b ← bad_field p; b ← clear_bit b i; Some (with_bad (Some b) (npcs_bad p - 1) (suspicion p) p)
    else Some p) = Some (with_bad bf k (suspicion p) p) /\
    (match bf with None => k = 0 | Some b => length b = field_bytes np /\
      k = Z.of_nat (count_bits (bit b) np) /\ 0 < k end) /\
    forall j, (j < np)%nat -> match bf with None => false | Some b => bit b j end = if decide (j = i) then false else bad_bit p j)
    as (bf & k & -> & Hbf & Hbits).
  { unfold bad_bit in *. destruct (bad_field p) as [b|] eqn:Eb.
    2:{ exists None, (npcs_bad p). split; [rewrite <- Eb; by destruct p|]. split; [done|]. intros j _. by case_decide. }
    destruct H2 as (L1 & L2 & L3). destruct (bit b i) eqn:Ei.
    2:{ exists (Some b), (npcs_bad p). split; [rewrite <- Eb; by destruct p|]. split; [done|]. intros j _. case_decide; by subst. }
    rewrite (proj2 (Z.gtb_lt _ _)) by lia. cbn [ensure mbind option_bind].
    destruct (clear_bit_ok b np i) as (b' & -> & Hlen' & Hbits'); [by apply fits_bytes|done|]. cbn [mbind option_bind].
    assert (count_bits (bit b) np = S (count_bits (bit b') np)) as Hc.
    { apply (count_bits_flip _ _ _ i); [done|rewrite Hbits'; by case_decide|done|].
      intros j _ Hj. rewrite Hbits'. by case_decide. }
    destruct (Z.eqb_spec (npcs_bad p - 1) 0) as [E0|E0].
    - exists None, 0. split; [done|]. split; [done|]. intros j Hlt. case_decide as Hj; [done|].
      destruct (bit b j) eqn:Ej; [|done].
      assert (0 < count_bits (bit b') np)%nat; [|lia]. apply count_bits_pos. exists j. split; [done|].
      rewrite Hbits'. by case_decide.
    - exists (Some b'), (npcs_bad p - 1). split; [done|]. split; [split_and!; [congruence|lia|lia]|]. by intros j _. }
  cbn [mbind option_bind]. destruct (Hok bf k Hbf) as (K1 & K2 & K3).
  change (with_bad (bad_field (with_bad bf k (suspicion p) p)) (npcs_bad (with_bad bf k (suspicion p) p)) 0
    (with_bad bf k (suspicion p) p)) with (with_bad bf k 0 p). rewrite K3.
  eexists. split; [reflexivity|]. split; [exact K1|]. split; [exact K2|]. split; [done|]. exact Hbits.
Qed.
