(* ===== verification/BtInterest.v ===== *)
(** What a BitTorrent peer is told: the life of one peer of [BtPeer], with what has left
    its queue, and the claims on interest and on choking. *)
From S2P Require Import Prelude Bitfield BtPeer.
Local Open Scope Z_scope.

#[local] Arguments bit : simpl never.

(** The calls on a peer.  [PDrop l] leaves it the requests [l], fewer than it had, as
    [dl_unassign_requests] and [peer_on_piece] do. *)
Inductive peer_call :=
  | PField (f : list Z) (k : Z)
  | PWant (i : nat) | PUnwant (i : nat)
  | PRequest (r : block_request) | PDrop (l : list block_request) | PChoked
  | PBad (i : nat) | PGood (i : nat)
  | PChoke | PUnchoke | PSend (nb : net_buf)
  | POnRequest (index begin length : Z) | POnCancel (index begin length : Z).

Section Life.
Context (np : nat).

Definition call (c : peer_call) (p : peer) : option peer :=
  match c with
  | PField f k => Some (with_pieces f k p)
  | PWant i => peer_want i p
  | PUnwant i => peer_unwant i p
  | PRequest r => peer_request r p
  | PDrop l =>
      let p := with_reqs l (Z.of_nat (length l)) p in
      if nreqs_out p =? 0 then peer_on_no_reqs p else Some p
  | PChoked => unsend_requests (length (outq p)) 0 p
  | PBad i => peer_bad_piece np i p
  | PGood i => '(_, p) ← peer_good_piece i p; Some p
  | PChoke => peer_choke p
  | PUnchoke => peer_unchoke p
  | PSend nb => peer_send nb p
  | POnRequest i b l => peer_on_request i b l p
  | POnCancel i b l => peer_on_cancel i b l p
  end.

(** What the callers see to; the blame stops short of suspicion. *)
Definition guard (c : peer_call) (p : peer) : Prop :=
  match c with
  | PField f _ => length f = field_bytes np
  | PWant i => (i < np)%nat /\ nwant p + 1 < 2 ^ 32
  | PUnwant i => (i < np)%nat /\ (offers p i = true -> 0 < nwant p)
  | PRequest _ => 0 < nwant p /\ nreqs_out p < MAXPIPEDREQUESTS
  | PDrop l => (length l < length (my_reqs p))%nat
  | PBad i => (i < np)%nat /\ Z.of_nat np < 2 ^ 32 /\ bad_bit p i = false /\ 0 <= suspicion p < 2
  | PGood i => (i < np)%nat
  | PSend nb => plain nb = true /\ neutral nb = true /\ 0 <= nb_len nb
  | POnRequest _ _ l => 0 <= l /\ npiece_msgs p + 1 < 2 ^ 32
  | PChoked | PChoke | PUnchoke | POnCancel _ _ _ => True
  end.

(** A life: [seen] is what the messages that have been written told the peer. *)
Inductive life : bool -> peer -> Prop :=
  | life_start f : length f = field_bytes np -> life false (with_pieces f 0 peer_create)
  | life_call seen p c p' : life seen p -> guard c p -> call c p = Some p' -> life seen p'
  | life_write seen p bcount p' gone :
      life seen p -> 0 <= bcount <= queued (outq p) - outq_off p ->
      net_written (S (length (outq p))) bcount p = Some p' -> outq p = gone ++ outq p' -> life (told seen gone) p'.

Lemma call_ok seen p c : peer_ok np seen p -> guard c p -> exists p', call c p = Some p' /\ peer_ok np seen p'.
Proof.
  intros Hp Hg. destruct c as [f k|i|i|r|l| |i|i| | |nb|i b l|i b l]; cbn [call guard] in *.
  - eexists. split; [done|]. destruct Hp as [H1 H2 [Q1 Q2 Q3 Q4] H4 H5 H6 H7 H8 H9 H10]. by split.
  - destruct Hg as [H1 H2]. destruct (peer_want_ok np seen p i Hp H1 H2) as (p' & ? & ? & _). by exists p'.
  - destruct Hg as [H1 H2]. destruct (peer_unwant_ok np seen p i Hp H1 H2) as (p' & ? & ? & _). by exists p'.
  - destruct Hg as [H1 H2]. destruct (peer_request_ok np seen p r Hp H1 H2) as [E Hok]. eexists. by split.
  - destruct (drop_reqs_ok np seen p l Hp Hg) as (p' & E & Hok & _). by exists p'.
  - destruct (unsend_requests_ok np seen p Hp) as (p' & E & Hok & _). by exists p'.
  - destruct Hg as (H1 & H2 & H3 & H4). destruct (peer_bad_piece_ok np seen p i Hp H1 H2 H3 H4) as (p' & E & Hok & _). by exists p'.
  - destruct (peer_good_piece_ok np seen p i Hp Hg) as (p' & E & Hok & _). exists p'. by rewrite E.
  - destruct (peer_choke_ok np seen p Hp) as (p' & E & Hok & _). by exists p'.
  - destruct (peer_unchoke_ok np seen p Hp) as (p' & E & Hok & _). by exists p'.
  - destruct Hg as (H1 & H2 & H3). destruct (peer_send_ok np seen nb p Hp H1 H2 H3) as [E Hok]. eexists. by split.
  - destruct Hg as (H1 & H2). destruct (peer_on_request_ok np seen p i b l Hp H1 H2) as (p' & E & Hok & _). by exists p'.
  - destruct (peer_on_cancel_ok np seen p i b l Hp) as (p' & E & Hok & _). by exists p'.
Qed.

Lemma life_ok seen p : life seen p -> peer_ok np seen p.
Proof.
  induction 1 as [f Hf|seen p c p' _ IH Hg E|seen p bcount p' gone _ IH Hb E Eq].
  - split; try done. split; cbn; [by left|done|done|constructor].
  - destruct (call_ok seen p c IH Hg) as (p2 & E2 & Hok). rewrite E in E2. by injection E2 as <-.
  - destruct (net_written_ok np (outq p) seen p bcount (S (length (outq p))) IH eq_refl Hb ltac:(lia)) as (d & p2 & E2 & Eq2 & Hok & _).
    rewrite E in E2. injection E2 as <-. rewrite Eq in Eq2. by apply app_inv_tail in Eq2 as <-.
Qed.
End Life.

(** C27: In the whole life of a peer that does not become a suspect, once its queue is
    written it believes us interested exactly when it has a piece we count as wanted or
    owes us an answer; the messages that say so alternate, so none is sent twice in a row;
    and PF_I_WANT is set exactly when something is wanted. Every call within [guard]
    returns, with no assertion of [peer.c] failing. [guard] says what the callers see to,
    and besides that a bad piece is the first or second ([PBad]: suspicion below 2), which
    they do not: the third makes the peer a suspect, which is sent UNINTEREST while pieces
    are still wanted of it, and fails an assertion ([suspect_peer_aborts]). *)
Theorem peer_interest_told np seen p :
  life np seen p ->
  told seen (outq p) = (0 <? nwant p) || (0 <? nreqs_out p) /\ news seen (outq p) /\
  flag p PF_I_WANT = (0 <? nwant p) /\
  forall c, guard np c p -> exists p', call np c p = Some p' /\ life np seen p'.
Proof.
  intros Hl. pose proof (life_ok np seen p Hl) as Hok. split_and!; [apply Hok..|].
  intros c Hg. destruct (call_ok np seen p c Hok Hg) as (p' & E & _). exists p'. split; [done|by eapply life_call].
Qed.

(** Choking a peer takes back exactly the pieces that are not begun, each with its
    data: of the queue stay the message being written (with the data of its piece) and
    the messages that are no pieces, in their order, and the choke comes last; the
    counter of the pieces is that of the data left, and our interest and requests are as
    before. *)
Theorem peer_choke_takes_back np seen p :
  life np seen p ->
  exists p', peer_choke p = Some p' /\ flag p' PF_I_CHOKE = true /\
    let k := begun (outq_off p) (outq p) in
    outq p' = take k (outq p) ++ List.filter plain (drop k (outq p)) ++ [NB_CHOKE] /\
    npiece_msgs p' = count_data (take k (outq p)) /\ nwant p' = nwant p /\ my_reqs p' = my_reqs p.
Proof.
  intros Hl. pose proof (life_ok np seen p Hl) as Hok.
  destruct (peer_choke_ok np seen p Hok) as (p' & E & Hok' & Hf & Hq & [_ _ Hw [Hr _] _]).
  assert (forall q, strip plain q = List.filter plain q) as Hfil.
  { intros q. induction q as [|nb q IH]; [done|]. rewrite strip_cons. cbn. destruct (plain nb); by rewrite IH. }
  exists p'. cbn zeta. split_and!; try done.
  - by rewrite Hq, Hfil, <- app_assoc.
  - rewrite (qo_msgs _ (po_queue _ _ _ Hok')), Hq, !count_data_app.
    assert (forall q, count_data (strip plain q) = 0) as ->.
    { intros q. induction q as [|nb q IH]; [done|]. rewrite strip_cons. destruct (plain nb) eqn:En; [|done]. by rewrite count_data_plain. }
    change (count_data [NB_CHOKE]) with 0. lia.
Qed.

(** ** A sample *)

(** A peer that has the first of two pieces, is wanted and asked for it, while it has
    asked for two of ours. *)
Definition sample : peer :=
  let p := with_pieces [128] 0 peer_create in
  default p (p ← peer_want 0 p; p ← peer_request (Req 7 0 0 16384) p; p ← peer_on_request 1 0 100 p; peer_on_request 1 100 100 p).

Lemma sample_life : life 2 false sample.
Proof.
  apply (life_call 2 false (default sample (p ← peer_want 0 (with_pieces [128] 0 peer_create);
    p ← peer_request (Req 7 0 0 16384) p; peer_on_request 1 0 100 p)) (POnRequest 1 100 100)); [|by vm_compute|by vm_compute].
  apply (life_call 2 false (default sample (p ← peer_want 0 (with_pieces [128] 0 peer_create);
    peer_request (Req 7 0 0 16384) p)) (POnRequest 1 0 100)); [|by vm_compute|by vm_compute].
  apply (life_call 2 false (default sample (peer_want 0 (with_pieces [128] 0 peer_create))) (PRequest (Req 7 0 0 16384)));
    [|by vm_compute|by vm_compute].
  apply (life_call 2 false (with_pieces [128] 0 peer_create) (PWant 0)); [|split; [lia|by vm_compute]|by vm_compute].
  by apply life_start.
Qed.

Lemma peer_interest_told_witness :
  life 2 false sample /\ told false (outq sample) = true /\ nwant sample = 1 /\
  exists p', call 2 PChoke sample = Some p' /\ life 2 false p'.
Proof.
  split; [exact sample_life|]. destruct (peer_interest_told 2 false sample sample_life) as (H & _ & _ & Hc).
  split; [exact H|]. split; [by vm_compute|]. exact (Hc PChoke I).
Defined.

Lemma peer_choke_takes_back_witness :
  life 2 false sample /\ length (outq sample) = 6%nat /\ exists p', peer_choke sample = Some p' /\ outq p' = [NB_INTEREST; NB_REQUEST 0 0 16384; NB_CHOKE].
Proof.
  split; [exact sample_life|]. split; [by vm_compute|].
  destruct (peer_choke_takes_back 2 false sample sample_life) as (p' & E & _ & Hq & _).
  exists p'. split; [exact E|exact Hq].
Defined.

(** The assertion that the guard on bad pieces keeps away: a peer that becomes a suspect
    while it owes us a block nobody wants any more keeps PF_DO_UNWANT when a piece of it
    is wanted again, and its answer makes [peer_on_no_reqs] fail. *)
Example suspect_peer_aborts :
  let run := foldl (fun o c => p ← o; call 8 c p) (Some (with_pieces [255] 8 peer_create)) in
  let cs := [PWant 0; PRequest (Req 7 0 0 16384); PUnwant 0; PBad 1; PBad 2; PBad 3; PWant 4] in
  is_Some (run cs) /\ run (cs ++ [PDrop []]) = None.
Proof. split; [apply is_Some_alt|]; by vm_compute. Qed.
