(* ===== verification/BtNet.v ===== *)
(** Downloading in the BitTorrent daemon: [libbt/btpd/download_subr.c],
    [download.c], the bookkeeping of [content.c] and, from [peer.c], the messages
    that drive it.

    Pieces and peers are known by number: [pcs] and [pst] are the heap, [getlst] and
    [peers] the lists.  End game is never entered, since the call of
    [dl_enter_endgame] is commented out, so its branches are left out, as are the
    sources over HTTP.  Reading and writing the files succeeds. *)
From S2P Require Import Prelude Bitfield BtPeer.
Local Open Scope Z_scope.

Record torrent := Torrent { tp_npieces : nat; piece_length : Z; total_length : Z }.

Record blog_record := BlogRecord { br_mp : nat; br_field : list Z }.
Record blog := Blog { records : list blog_record; hashes : option (list Z) }.

Record piece := Piece {
  nblocks : nat; ngot : Z; nbusy : Z; nreqs : Z; next_block : nat;
  reqs : list block_request; logs : list blog; down_field : list Z
}.

(** The content (its [piece_field] and the rows of its [block_field]) and the net of
    a torrent; [banned] are the meta peers banned after their peer was lost, [calls]
    the calls of [rand] so far. *)
Record net := Net {
  npieces_got : Z; cm_field : list Z; block_field : list (list Z);
  busy_field : list Z; npcs_busy : Z; piece_count : list Z;
  getlst : list nat; pcs : gmap nat piece;
  peers : list nat; pst : gmap nat peer; banned : list nat; calls : nat
}.

Definition with_cm (g : Z) (f : list Z) (b : list (list Z)) (n : net) : net :=
  Net g f b (busy_field n) (npcs_busy n) (piece_count n) (getlst n) (pcs n) (peers n) (pst n) (banned n) (calls n).
Definition with_busy (f : list Z) (k : Z) (l : list nat) (m : gmap nat piece) (n : net) : net :=
  Net (npieces_got n) (cm_field n) (block_field n) f k (piece_count n) l m (peers n) (pst n) (banned n) (calls n).
Definition with_count (c : list Z) (n : net) : net :=
  Net (npieces_got n) (cm_field n) (block_field n) (busy_field n) (npcs_busy n) c (getlst n) (pcs n) (peers n) (pst n)
    (banned n) (calls n).
Definition with_pcs (m : gmap nat piece) (n : net) : net :=
  with_busy (busy_field n) (npcs_busy n) (getlst n) m n.
Definition with_peers (l : list nat) (m : gmap nat peer) (n : net) : net :=
  Net (npieces_got n) (cm_field n) (block_field n) (busy_field n) (npcs_busy n) (piece_count n) (getlst n) (pcs n)
    l m (banned n) (calls n).
Definition with_pst (m : gmap nat peer) (n : net) : net := with_peers (peers n) m n.
Definition with_banned (l : list nat) (n : net) : net :=
  Net (npieces_got n) (cm_field n) (block_field n) (busy_field n) (npcs_busy n) (piece_count n) (getlst n) (pcs n)
    (peers n) (pst n) l (calls n).
Definition with_calls (k : nat) (n : net) : net :=
  Net (npieces_got n) (cm_field n) (block_field n) (busy_field n) (npcs_busy n) (piece_count n) (getlst n) (pcs n)
    (peers n) (pst n) (banned n) k.

(** Calls on one peer, and on each of the peers. *)
Definition on_peer (f : peer -> option peer) (p : nat) (n : net) : option net :=
  P ← pst n !! p; P ← f P; Some (with_pst (<[p := P]> (pst n)) n).
Definition foreach {A} (l : list A) (f : A -> net -> option net) (n : net) : option net :=
  foldl (fun o x => n ← o; f x n) (Some n) l.
Definition set_piece (i : nat) (pc : piece) (n : net) : net := with_pcs (<[i := pc]> (pcs n)) n.

(** ** Sizes *)

Definition torrent_piece_size (tp : torrent) (index : nat) : Z :=
  if (index <? tp_npieces tp - 1)%nat then piece_length tp
  else total_length tp - piece_length tp * (Z.of_nat (tp_npieces tp) - 1).
Definition torrent_piece_blocks (tp : torrent) (piece : nat) : nat :=
  Z.to_nat ((torrent_piece_size tp piece + PIECE_BLOCKLEN - 1) / PIECE_BLOCKLEN).
Definition torrent_block_size (tp : torrent) (piece nblocks block : nat) : Z :=
  if (block <? nblocks - 1)%nat then PIECE_BLOCKLEN
  else
    let allbutlast := u32 (PIECE_BLOCKLEN * (Z.of_nat nblocks - 1)) in
    u32 (torrent_piece_size tp piece - allbutlast).

Section Download.
Context (tp : torrent) (choose_method : Z) (rand : nat -> Z) (RAND_MAX : Z).

(** ** The logs of a piece *)

Definition piece_new_log (pc : piece) : piece :=
  Piece (nblocks pc) (ngot pc) (nbusy pc) (nreqs pc) (next_block pc) (reqs pc) (Blog [] None :: logs pc) (down_field pc).
Definition with_logs (l : list blog) (pc : piece) : piece :=
  Piece (nblocks pc) (ngot pc) (nbusy pc) (nreqs pc) (next_block pc) (reqs pc) l (down_field pc).

(** [sha] are the hashes of the blocks as they are on disk. *)
Definition piece_log_hashes (sha : list Z) (pc : piece) : option piece :=
  match logs pc with
  | [] => None
  | log :: l => Some (with_logs (Blog (records log) (Some sha) :: l) pc)
  end.

Definition piece_log_block (pc : piece) (p : nat) (begin : Z) : option piece :=
  match logs pc with
  | [] => None
  | log :: l =>
      let old := find (fun r => (br_mp r =? p)%nat) (records log) in
      let field := match old with Some r => br_field r | None => replicate (field_bytes (nblocks pc)) 0 end in
      field ← set_bit field (Z.to_nat (begin / PIECE_BLOCKLEN));
      Some (with_logs (Blog (BlogRecord p field :: List.filter (fun r => negb (br_mp r =? p)%nat) (records log)) (hashes log) :: l) pc)
  end.

Definition net_ban_peer (p : nat) (n : net) : net :=
  match pst n !! p with
  | Some P => if flag P PF_BANNED then n else with_pst (<[p := set_flag PF_BANNED P]> (pst n)) n
  | None => if bool_decide (p ∈ banned n) then n else with_banned (p :: banned n) n
  end.

(** The bits of the first [k] blocks. *)
Fixpoint all_bits (f : list Z) (k : nat) : option bool :=
  match k with
  | O => Some true
  | S k => b ← all_bits f k; if b : bool then has_bit f k else Some false
  end.

Definition piece_log_bad (i : nat) (sha : list Z) (n : net) : option net :=
  pc ← pcs n !! i;
  log ← head (logs pc);
  r ← head (records log);
  culprit ← (if (length (records log) =? 1)%nat then
               b ← all_bits (br_field r) (nblocks pc);
               Some (if b : bool then Some (br_mp r) else None)
             else Some None);
  match culprit with
  | Some mp =>
      let n := net_ban_peer mp n in
      Some (set_piece i (piece_new_log (with_logs (tail (logs pc)) pc)) n)
  | None =>
      n ← foreach (records log) (fun r n =>
            match pst n !! br_mp r with
            | Some _ => on_peer (peer_bad_piece (tp_npieces tp) i) (br_mp r) n
            | None => Some n
            end) n;
      pc ← pcs n !! i;
      pc ← piece_log_hashes sha pc;
      Some (set_piece i (piece_new_log pc) n)
  end.

(** ** Pieces *)

Definition cm_has_piece (n : net) (piece : nat) : option bool := has_bit (cm_field n) piece.

(** The number of blocks of the row that are there. *)
Fixpoint count_have (row : list Z) (k : nat) : option Z :=
  match k with
  | O => Some 0
  | S k => c ← count_have row k; b ← has_bit row k; Some (if b : bool then c + 1 else c)
  end.

Definition piece_alloc (i : nat) (n : net) : option net :=
  busy ← has_bit (busy_field n) i;
  _ ← ensure (negb busy && (npcs_busy n <? Z.of_nat (tp_npieces tp)));
  let k := torrent_piece_blocks tp i in
  row ← block_field n !! i;
  got ← count_have row k;
  _ ← ensure (got <? Z.of_nat k);
  let pc := piece_new_log (Piece k got 0 0 0 [] [] (replicate (field_bytes k) 0)) in
  f ← set_bit (busy_field n) i;
  Some (with_busy f (npcs_busy n + 1) (getlst n ++ [i]) (<[i := pc]> (pcs n)) n).

Definition piece_free (i : nat) (n : net) : option net :=
  _ ← pcs n !! i;
  _ ← ensure (npcs_busy n >? 0);
  f ← clear_bit (busy_field n) i;
  Some (with_busy f (npcs_busy n - 1) (List.filter (fun j => negb (j =? i)%nat) (getlst n)) (delete i (pcs n)) n).

Definition piece_full (pc : piece) : bool := ngot pc + nbusy pc =? Z.of_nat (nblocks pc).

(** The piece on the list, if it is there. *)
Definition dl_find_piece (n : net) (i : nat) : option (nat * piece) :=
  if bool_decide (i ∈ getlst n) then pc ← pcs n !! i; Some (i, pc) else None.

(** ** The choice of a piece *)

Definition dl_piece_startable (n : net) (P : peer) (i : nat) : option bool :=
  r ← peer_requestable P i;
  if r : bool then
    h ← cm_has_piece n i;
    if h : bool then Some false else b ← has_bit (busy_field n) i; Some (negb b)
  else Some false.

(** The first startable piece from [i] on, among [k]. *)
Fixpoint first_startable (n : net) (P : peer) (k i : nat) : option nat :=
  match k with
  | O => Some i
  | S k => s ← dl_piece_startable n P i; if s : bool then Some i else first_startable n P k (S i)
  end.

Definition dl_choose_seq (n : net) (P : peer) : option (option nat) :=
  i ← first_startable n P (tp_npieces tp) 0;
  Some (if (i =? tp_npieces tp)%nat then None else Some i).

(** The search of the rarest: its first index and how many there are. *)
Definition rarest_turn (n : net) (P : peer) (i : nat) (x : nat * Z) : option ((nat * Z) + (nat * Z)) :=
  let '(min_i, min_c) := x in
  s ← dl_piece_startable n P i;
  if s : bool then
    ci ← aread (piece_count n) i;
    cm ← aread (piece_count n) min_i;
    Some (inl (if ci =? cm then (min_i, min_c + 1) else if ci <? cm then (i, 1) else (min_i, min_c)))
  else Some (inl (min_i, min_c)).

Definition rand_between (r lo hi : Z) : Z := lo + (r * (hi - lo) + RAND_MAX - 1) / RAND_MAX.

(** The [min_c]th of the rarest from [i] on. *)
Fixpoint nth_rarest (fuel : nat) (n : net) (P : peer) (i min_i : nat) (min_c : Z) : option nat :=
  if min_c >? 0 then
    match fuel with
    | O => None
    | S fuel =>
        s ← dl_piece_startable n P i;
        if s : bool then
          ci ← aread (piece_count n) i;
          cm ← aread (piece_count n) min_i;
          if ci =? cm then nth_rarest fuel n P (S i) i (min_c - 1) else nth_rarest fuel n P (S i) min_i min_c
        else nth_rarest fuel n P (S i) min_i min_c
    end
  else Some min_i.

(** [None] inside is the return of -1. *)
Definition dl_choose_rarest (n : net) (P : peer) : option (option nat * net) :=
  i ← first_startable n P (tp_npieces tp) 0;
  if (i =? tp_npieces tp)%nat then Some (None, n)
  else
    '(min_i, min_c) ← cfor (tp_npieces tp - S i) (S i) (rarest_turn n P) (i, 1);
    if min_c >? 1 then
      let k := rand_between (rand (calls n)) 1 min_c in
      res ← nth_rarest (tp_npieces tp - min_i) n P min_i min_i k;
      Some (Some res, with_calls (S (calls n)) n)
    else Some (Some min_i, n).

(** ** Requests *)

Definition dl_on_piece_full (i : nat) (n : net) : option net :=
  foreach (peers n) (on_peer (peer_unwant i)) n.

Definition dl_new_piece (i : nat) (n : net) : option net := piece_alloc i n.

Definition INCNEXTBLOCK (pc : piece) : piece :=
  Piece (nblocks pc) (ngot pc) (nbusy pc) (nreqs pc) ((next_block pc + 1) mod nblocks pc) (reqs pc) (logs pc) (down_field pc).

Definition dl_new_request (p i : nat) (n : net) : option net :=
  pc ← pcs n !! i;
  let block := next_block pc in
  let req := Req p i (u32 (Z.of_nat block * PIECE_BLOCKLEN)) (torrent_block_size tp i (nblocks pc) block) in
  f ← set_bit (down_field pc) block;
  let pc := Piece (nblocks pc) (ngot pc) (nbusy pc + 1) (nreqs pc + 1) (next_block pc) (reqs pc ++ [req]) (logs pc) f in
  on_peer (peer_request req) p (set_piece i pc n).

(** The loop to a block that is neither there nor requested. *)
Fixpoint next_free (fuel : nat) (row : list Z) (pc : piece) : option piece :=
  h ← has_bit row (next_block pc);
  d ← (if h : bool then Some true else has_bit (down_field pc) (next_block pc));
  if d : bool then match fuel with O => None | S fuel => next_free fuel row (INCNEXTBLOCK pc) end
  else Some pc.

Definition assign_turn (i p : nat) (n : net) : option (net + net) :=
  pc ← pcs n !! i;
  row ← block_field n !! i;
  pc ← next_free (nblocks pc) row pc;
  n ← dl_new_request p i (set_piece i pc n);
  pc ← pcs n !! i;
  let pc := INCNEXTBLOCK pc in
  let n := set_piece i pc n in
  P ← pst n !! p;
  Some (if negb (piece_full pc) && negb (peer_laden P) then inl n else inr n).

(** The number of requests, which nobody uses, is left out. *)
Definition dl_piece_assign_requests (i p : nat) (n : net) : option net :=
  pc ← pcs n !! i;
  P ← pst n !! p;
  _ ← ensure (negb (piece_full pc) && negb (peer_laden P));
  n ← cloop (nblocks pc) (assign_turn i p) n;
  pc ← pcs n !! i;
  if piece_full pc then dl_on_piece_full i n else Some n.

(** The second loop of [dl_on_piece_unfull], over the peers. *)
Fixpoint unfull_assign (ps : list nat) (i : nat) (n : net) : option net :=
  match ps with
  | [] => Some n
  | p :: ps =>
      pc ← pcs n !! i;
      if piece_full pc then Some n
      else
        P ← pst n !! p;
        n ← (if peer_leech_ok P then
               r ← peer_requestable P i;
               if r : bool then dl_piece_assign_requests i p n else Some n
             else Some n);
        unfull_assign ps i n
  end.

Definition dl_on_piece_unfull (i : nat) (n : net) : option net :=
  pc ← pcs n !! i;
  _ ← ensure (negb (piece_full pc));
  n ← foreach (peers n) (on_peer (peer_want i)) n;
  unfull_assign (peers n) i n.

(** The loop over the pieces already started. *)
Fixpoint assign_started (l : list nat) (p : nat) (n : net) : option net :=
  match l with
  | [] => Some n
  | i :: l =>
      pc ← pcs n !! i;
      P ← pst n !! p;
      go ← (if piece_full pc then Some false else peer_requestable P i);
      if negb go then assign_started l p n
      else
        n ← dl_piece_assign_requests i p n;
        pc ← pcs n !! i;
        P ← pst n !! p;
        _ ← ensure (piece_full pc || peer_laden P);
        if peer_laden P then Some n else assign_started l p n
  end.

(** The loop that starts new pieces. *)
Definition start_turn (p : nat) (n : net) : option (net + net) :=
  P ← pst n !! p;
  if peer_laden P then Some (inr n)
  else
    '(index, n) ← (if choose_method =? 0 then dl_choose_rarest n P
                   else index ← dl_choose_seq n P; Some (index, n));
    match index with
    | Some i => n ← dl_new_piece i n; n ← dl_piece_assign_requests i p n; Some (inl n)
    | None => Some (inr n)
    end.

Definition dl_assign_requests (p : nat) (n : net) : option net :=
  P ← pst n !! p;
  _ ← ensure (peer_leech_ok P);
  n ← assign_started (getlst n) p n;
  cloop (S (tp_npieces tp)) (start_turn p) n.

(** One request is given up. *)
Definition unassign (p i : nat) (req : block_request) (n : net) : option net :=
  pc ← pcs n !! i;
  P ← pst n !! p;
  let blki := Z.to_nat (rq_begin req / PIECE_BLOCKLEN) in
  b ← has_bit (down_field pc) blki;
  _ ← ensure b;
  f ← clear_bit (down_field pc) blki;
  let drop := List.filter (fun r => negb (bool_decide (r = req))) in
  let pc := Piece (nblocks pc) (ngot pc) (nbusy pc - 1) (nreqs pc - 1) (next_block pc) (drop (reqs pc)) (logs pc) f in
  let P := with_reqs (drop (my_reqs P)) (nreqs_out P - 1) P in
  Some (set_piece i pc (with_pst (<[p := P]> (pst n)) n)).

Definition unassign_turn (p : nat) (n : net) : option (net + net) :=
  P ← pst n !! p;
  if nreqs_out P >? 0 then
    req ← head (my_reqs P);
    '(i, pc) ← dl_find_piece n (rq_index req);
    let was_full := piece_full pc in
    n ← foreach (List.filter (fun r => (rq_index r =? i)%nat) (my_reqs P)) (unassign p i) n;
    P ← pst n !! p;
    n ← (if nreqs_out P =? 0 then on_peer peer_on_no_reqs p n else Some n);
    pc ← pcs n !! i;
    n ← (if was_full && negb (piece_full pc) then dl_on_piece_unfull i n else Some n);
    Some (inl n)
  else
    _ ← ensure (bool_decide (my_reqs P = []));
    Some (inr n).

Definition dl_unassign_requests (p : nat) (n : net) : option net :=
  P ← pst n !! p;
  cloop (S (length (my_reqs P))) (unassign_turn p) n.

(** ** [download.c] *)

Definition dl_on_piece_ann (p i : nat) (n : net) : option net :=
  c ← aread (piece_count n) i;
  l ← awrite (piece_count n) i (u32 (c + 1));
  let n := with_count l n in
  h ← cm_has_piece n i;
  if h : bool then Some n
  else
    match dl_find_piece n i with
    | None =>
        n ← on_peer (peer_want i) p n;
        P ← pst n !! p;
        if peer_leech_ok P then n ← dl_new_piece i n; dl_piece_assign_requests i p n else Some n
    | Some (_, pc) =>
        if piece_full pc then Some n
        else
          n ← on_peer (peer_want i) p n;
          P ← pst n !! p;
          if peer_leech_ok P then dl_piece_assign_requests i p n else Some n
    end.

Definition dl_on_download (p : nat) (n : net) : option net := dl_assign_requests p n.

Definition dl_on_unchoke (p : nat) (n : net) : option net :=
  P ← pst n !! p;
  if peer_leech_ok P then dl_on_download p n else Some n.

Definition dl_on_undownload (p : nat) (n : net) : option net := dl_unassign_requests p n.

Definition dl_on_choke (p : nat) (n : net) : option net :=
  P ← pst n !! p;
  if nreqs_out P >? 0 then dl_on_undownload p n else Some n.

(** [peer_good_piece] with the call it ends with. *)
Definition good_piece (i p : nat) (n : net) : option net :=
  P ← pst n !! p;
  '(download, P) ← peer_good_piece i P;
  let n := with_pst (<[p := P]> (pst n)) n in
  if download : bool then dl_on_download p n else Some n.

(** Is there a block of the record whose hash has changed? *)
Fixpoint changed (f : list Z) (h h' : list Z) (k : nat) : option bool :=
  match k with
  | O => Some false
  | S k =>
      c ← changed f h h' k;
      if c : bool then Some true
      else b ← has_bit f k;
           if b : bool then x ← h !! k; y ← h' !! k; Some (negb (x =? y)) else Some false
  end.

Definition piece_log_good (i : nat) (sha : list Z) (n : net) : option net :=
  pc ← pcs n !! i;
  log ← head (logs pc);
  n ← foreach (records log) (fun r n =>
        match pst n !! br_mp r with Some _ => good_piece i (br_mp r) n | None => Some n end) n;
  pc ← pcs n !! i;
  pc ← match tail (logs pc) with [] => Some pc | _ => piece_log_hashes sha pc end;
  let n := set_piece i pc n in
  foreach (tail (logs pc)) (fun bad n =>
    foreach (records bad) (fun r n =>
      h ← head (logs pc); h ← hashes h; h' ← hashes bad;
      culprit ← changed (br_field r) h h' (nblocks pc);
      if culprit : bool then Some (net_ban_peer (br_mp r) n)
      else match pst n !! br_mp r with Some _ => good_piece i (br_mp r) n | None => Some n end) n) n.

Definition dl_on_ok_piece (i : nat) (sha : list Z) (n : net) : option net :=
  '(_, pc) ← dl_find_piece n i;
  n ← foreach (peers n) (fun p n =>
        P ← pst n !! p;
        h ← peer_has P i;
        if negb h then on_peer (peer_send (NB_HAVE (Z.of_nat i))) p n else Some n) n;
  n ← piece_log_good i sha n;
  pc ← pcs n !! i;
  _ ← ensure (nreqs pc =? 0);
  piece_free i n.

(** The loop that clears the bits of the blocks. *)
Fixpoint clear_bits (f : list Z) (k : nat) : option (list Z) :=
  match k with O => Some f | S k => f ← clear_bits f k; clear_bit f k end.

Definition dl_on_bad_piece (i : nat) (sha : list Z) (n : net) : option net :=
  '(_, pc) ← dl_find_piece n i;
  f ← clear_bits (down_field pc) (nblocks pc);
  let n := set_piece i (Piece (nblocks pc) 0 0 (nreqs pc) (next_block pc) (reqs pc) (logs pc) f) n in
  n ← piece_log_bad i sha n;
  dl_on_piece_unfull i n.

Definition dl_on_lost_peer (p : nat) (n : net) : option net :=
  P ← pst n !! p;
  l ← cfor (tp_npieces tp) 0 (fun i l =>
        h ← peer_has P i;
        if h : bool then c ← aread l i; l ← awrite l i (u32 (c - 1)); Some (inl l) else Some (inl l)) (piece_count n);
  let n := with_count l n in
  if nreqs_out P >? 0 then dl_on_undownload p n else Some n.

(** [ok] is the result of the test. *)
Definition cm_test_piece (i : nat) (ok : bool) (sha : list Z) (n : net) : option net :=
  if ok then
    _ ← ensure (npieces_got n <? Z.of_nat (tp_npieces tp));
    f ← set_bit (cm_field n) i;
    dl_on_ok_piece i sha (with_cm (npieces_got n + 1) f (block_field n) n)
  else
    row ← block_field n !! i;
    dl_on_bad_piece i sha (with_cm (npieces_got n) (cm_field n) (<[i := replicate (length row) 0]> (block_field n)) n).

Definition cm_put_bytes (i : nat) (begin : Z) (n : net) : option net :=
  row ← block_field n !! i;
  b ← has_bit row (Z.to_nat (begin / PIECE_BLOCKLEN));
  _ ← ensure (negb b);
  h ← has_bit (cm_field n) i;
  _ ← ensure (negb h);
  row ← set_bit row (Z.to_nat (begin / PIECE_BLOCKLEN));
  Some (with_cm (npieces_got n) (cm_field n) (<[i := row]> (block_field n)) n).

Definition dl_on_block (p : nat) (req : block_request) (ok : bool) (sha : list Z) (n : net) : option net :=
  let i := rq_index req in
  '(_, pc) ← dl_find_piece n i;
  pc ← piece_log_block pc p (rq_begin req);
  n ← cm_put_bytes i (rq_begin req) (set_piece i pc n);
  f ← clear_bit (down_field pc) (Z.to_nat (rq_begin req / PIECE_BLOCKLEN));
  let pc := Piece (nblocks pc) (ngot pc + 1) (nbusy pc - 1) (nreqs pc - 1) (next_block pc)
              (List.filter (fun r => negb (bool_decide (r = req))) (reqs pc)) (logs pc) f in
  let n := set_piece i pc n in
  n ← (if ngot pc =? Z.of_nat (nblocks pc) then cm_test_piece i ok sha n else Some n);
  P ← pst n !! p;
  if peer_leech_ok P then dl_assign_requests p n else Some n.

(** ** Messages and the loss of a peer *)

Definition peer_on_choke (p : nat) (n : net) : option net :=
  P ← pst n !! p;
  if flag P PF_P_CHOKE then Some n
  else
    n ← dl_on_choke p (with_pst (<[p := set_flag PF_P_CHOKE P]> (pst n)) n);
    on_peer (fun P => unsend_requests (length (outq P)) 0 P) p n.

Definition peer_on_unchoke (p : nat) (n : net) : option net :=
  P ← pst n !! p;
  if negb (flag P PF_P_CHOKE) then Some n
  else dl_on_unchoke p (with_pst (<[p := clear_flag PF_P_CHOKE P]> (pst n)) n).

Definition announce (p i : nat) (n : net) : option net :=
  n ← on_peer (fun P => Some (with_pieces (piece_field P) (npieces P + 1) P)) p n;
  dl_on_piece_ann p i n.

Definition peer_on_have (p i : nat) (n : net) : option net :=
  P ← pst n !! p;
  h ← has_bit (piece_field P) i;
  if h : bool then Some n
  else
    f ← set_bit (piece_field P) i;
    announce p i (with_pst (<[p := with_pieces f (npieces P) P]> (pst n)) n).

(** [field] are the bytes of the message. *)
Definition peer_on_bitfield (p : nat) (field : list Z) (n : net) : option net :=
  P ← pst n !! p;
  _ ← ensure (npieces P =? 0);
  f ← mread field 0 (field_bytes (tp_npieces tp));
  f ← mwrite (piece_field P) 0 f;
  let n := with_pst (<[p := with_pieces f (npieces P) P]> (pst n)) n in
  foreach (seq 0 (tp_npieces tp)) (fun i n =>
    P ← pst n !! p;
    h ← has_bit (piece_field P) i;
    if h : bool then announce p i n else Some n) n.

Definition peer_on_piece (p i : nat) (begin length : Z) (ok : bool) (sha : list Z) (n : net) : option net :=
  P ← pst n !! p;
  match find (fun r => (rq_begin r =? begin) && (rq_index r =? i)%nat && (rq_length r =? length)) (my_reqs P) with
  | None => Some n
  | Some req =>
      _ ← ensure (nreqs_out P >? 0);
      let P := with_reqs (List.filter (fun r => negb (bool_decide (r = req))) (my_reqs P)) (nreqs_out P - 1) P in
      P ← (if nreqs_out P =? 0 then peer_on_no_reqs P else Some P);
      dl_on_block p req ok sha (with_pst (<[p := P]> (pst n)) n)
  end.

(** [net_create], for what the content has of the torrent. *)
Definition net_create (got : Z) (field : list Z) (rows : list (list Z)) : net :=
  Net got field rows (replicate (field_bytes (tp_npieces tp)) 0) 0 (replicate (tp_npieces tp) 0) [] ∅ [] ∅ [] 0.

(** Our pieces, as a list of HAVE or as a bitfield, whichever is shorter. *)
Definition shake_msgs (n : net) : list net_buf :=
  if npieces_got n >? 0 then
    if npieces_got n * 9 <? 5 + Z.of_nat (field_bytes (tp_npieces tp)) then [NB_MULTIHAVE (9 * npieces_got n)]
    else [NB_BITFIELD; NB_BITDATA (Z.of_nat (field_bytes (tp_npieces tp)))]
  else [].

(** The peer is attached at the head of the list. *)
Definition peer_on_shake (p : nat) (P : peer) (n : net) : option net :=
  let P := with_pieces (replicate (field_bytes (tp_npieces tp)) 0) (npieces P) P in
  P ← foldl (fun o m => P ← o; peer_send m P) (Some P) (shake_msgs n);
  Some (with_peers (p :: peers n) (<[p := set_flag PF_ATTACHED P]> (pst n)) n).

(** [peer_kill] of an attached peer. *)
Definition peer_kill (p : nat) (n : net) : option net :=
  let n := with_peers (List.filter (fun q => negb (q =? p)%nat) (peers n)) (pst n) n in
  n ← dl_on_lost_peer p n;
  P ← pst n !! p;
  let n := if flag P PF_BANNED then with_banned (p :: banned n) n else n in
  Some (with_peers (peers n) (delete p (pst n)) n).

End Download.
