(* ===== verification/BtInv.v ===== *)
(** The invariant of the download bookkeeping of [BtNet], and what preserves it. *)
From S2P Require Import Prelude Bitfield BtPeer BtNet.
Local Open Scope Z_scope.

(** ** The invariant *)

Section Inv.
Context (tp : torrent).
Local Notation np := (tp_npieces tp).
Local Notation blocks := (torrent_piece_blocks tp).

(** Pieces have at least a byte and less than 2 GiB. *)
Definition torrent_ok : Prop :=
  Z.of_nat np < 2 ^ 32 /\ forall i, (i < np)%nat -> 0 < torrent_piece_size tp i < 2 ^ 31.

Definition row (n : net) (i : nat) : list Z := nth i (block_field n) [].

(** A piece on the list: the counters count the bits, no block is both there and
    requested, and the requests are for the requested blocks, one each. *)
Record piece_ok (r : list Z) (i : nat) (pc : piece) : Prop := PieceOk {
  pk_blocks : nblocks pc = blocks i;
  pk_down : length (down_field pc) = field_bytes (nblocks pc);
  pk_got : ngot pc = Z.of_nat (count_bits (bit r) (nblocks pc));
  pk_busy : nbusy pc = Z.of_nat (count_bits (bit (down_field pc)) (nblocks pc));
  pk_disjoint : forall b, (b < nblocks pc)%nat -> bit r b = true -> bit (down_field pc) b = false;
  pk_next : (next_block pc < nblocks pc)%nat;
  pk_nreqs : nreqs pc = Z.of_nat (length (reqs pc));
  pk_begins : NoDup (rq_begin <$> reqs pc);
  pk_reqs : forall r, r ∈ reqs pc -> rq_index r = i;
  pk_bits : forall b, (b < nblocks pc)%nat ->
    bit (down_field pc) b = true <-> exists r, r ∈ reqs pc /\ rq_begin r = Z.of_nat b * PIECE_BLOCKLEN;
  pk_range : forall r, r ∈ reqs pc -> exists b, (b < nblocks pc)%nat /\ rq_begin r = Z.of_nat b * PIECE_BLOCKLEN /\
    rq_length r = torrent_block_size tp i (nblocks pc) b
}.

(** The arrays and lists of a net. *)
Record shape_ok (n : net) : Prop := ShapeOk {
  sh_cm : length (cm_field n) = field_bytes np;
  sh_busy : length (busy_field n) = field_bytes np;
  sh_count : length (piece_count n) = np;
  sh_rows : length (block_field n) = np /\ forall i, (i < np)%nat -> fits (row n i) (blocks i);
  sh_getlst : NoDup (getlst n) /\ forall i, i ∈ getlst n <-> is_Some (pcs n !! i);
  sh_pcs : forall i, is_Some (pcs n !! i) -> (i < np)%nat /\ bit (cm_field n) i = false;
  sh_bits : forall i, (i < np)%nat -> bit (busy_field n) i = bool_decide (is_Some (pcs n !! i));
  sh_nbusy : npcs_busy n = Z.of_nat (length (getlst n));
  sh_got : npieces_got n = Z.of_nat (count_bits (bit (cm_field n)) np);
  sh_missing : forall i, (i < np)%nat -> bit (cm_field n) i = false -> pcs n !! i = None ->
    (count_bits (bit (row n i)) (blocks i) < blocks i)%nat
}.

(** The requests of the peers are those of the pieces. *)
Record reqs_ok (n : net) : Prop := ReqsOk {
  rk_peer : forall p P r, pst n !! p = Some P -> r ∈ my_reqs P ->
    rq_p r = p /\ offers P (rq_index r) = true /\ exists pc, pcs n !! rq_index r = Some pc /\ r ∈ reqs pc;
  rk_piece : forall i pc r, pcs n !! i = Some pc -> r ∈ reqs pc ->
    exists P, pst n !! rq_p r = Some P /\ r ∈ my_reqs P;
  rk_nodup : forall p P, pst n !! p = Some P -> NoDup (my_reqs P)
}.

(** The logs: the current one has a record per peer, of peers not blamed yet; those
    before it have their hashes. *)
Record log_ok (n : net) (i : nat) (pc : piece) : Prop := LogOk {
  lk_current : exists log l, logs pc = log :: l /\ NoDup (br_mp <$> records log) /\
    (forall r P, r ∈ records log -> pst n !! br_mp r = Some P -> bad_bit P i = false) /\
    (forall bad, bad ∈ l -> exists h, hashes bad = Some h /\ length h = nblocks pc);
  lk_fields : forall log r, log ∈ logs pc -> r ∈ records log -> length (br_field r) = field_bytes (nblocks pc)
}.

(** What is to be had: pieces neither there nor fully requested. *)
Definition wanted (n : net) (i : nat) : bool :=
  negb (bit (cm_field n) i) && match pcs n !! i with Some pc => negb (piece_full pc) | None => true end.

(** [W p i] says whether piece [i] is counted in the wants of peer [p]. *)
Record net_ok (W : nat -> nat -> bool) (n : net) : Prop := NetOk {
  nk_shape : shape_ok n;
  nk_piece : forall i pc, pcs n !! i = Some pc -> piece_ok (row n i) i pc;
  nk_log : forall i pc, pcs n !! i = Some pc -> log_ok n i pc;
  nk_peers : NoDup (peers n) /\ forall p, p ∈ peers n -> is_Some (pst n !! p);
  nk_peer : forall p P, pst n !! p = Some P -> (exists seen, peer_ok np seen P) /\ 0 <= suspicion P;
  nk_want : forall p P, p ∈ peers n -> pst n !! p = Some P ->
    nwant P = Z.of_nat (count_bits (fun i => offers P i && W p i) np);
  nk_reqs : reqs_ok n
}.

Hypothesis Htp : torrent_ok.

Lemma blocks_pos i : (i < np)%nat -> (0 < blocks i)%nat /\ Z.of_nat (blocks i) * PIECE_BLOCKLEN < 2 ^ 32.
Proof.
  intros Hi. destruct Htp as [_ H]. specialize (H i Hi). unfold torrent_piece_blocks, PIECE_BLOCKLEN.
  change (2 ^ 14) with 16384. change (2 ^ 31) with 2147483648 in H. change (2 ^ 32) with 4294967296.
  generalize dependent (torrent_piece_size tp i). intros z Hz. Z.to_euclidean_division_equations. lia.
Qed.

Lemma row_lookup n i : shape_ok n -> (i < np)%nat -> block_field n !! i = Some (row n i).
Proof.
  intros Hs Hi. unfold row. destruct (block_field n !! i) as [r|] eqn:E.
  - by rewrite (nth_lookup_Some _ _ _ _ E).
  - apply lookup_ge_None in E. destruct (sh_rows _ Hs). lia.
Qed.

(** ** Changes of one peer *)

Lemma net_ok_peer W W' n p P P' :
  net_ok W n -> pst n !! p = Some P ->
  (exists seen, peer_ok np seen P') -> 0 <= suspicion P' -> my_reqs P' = my_reqs P ->
  (forall i, offers P i = true -> is_Some (pcs n !! i) -> offers P' i = true) ->
  (forall i, is_Some (pcs n !! i) -> bad_bit P i = false -> bad_bit P' i = false) ->
  (forall q, q <> p -> forall i, W' q i = W q i) ->
  (p ∈ peers n -> nwant P' = Z.of_nat (count_bits (fun i => offers P' i && W' p i) np)) ->
  net_ok W' (with_pst (<[p := P']> (pst n)) n).
Proof.
  intros [H1 H2 H3 [H4 H4'] H5 H6 [R1 R2 R3]] HP Hok Hsus Hreqs Hoff Hbad HW Hw. split.
  - destruct H1. by split.
  - exact H2.
  - intros i pc Hpc. destruct (H3 i pc Hpc) as [(log & l & E & L1 & L2 & L3) L4]. split; [|exact L4].
    exists log, l. split_and!; try done. intros r Q Hr HQ. cbn in HQ.
    apply lookup_insert_Some in HQ as [[E1 <-]|[_ HQ]]; [|by eapply L2].
    apply Hbad; [by eexists|]. eapply L2; [done|]. by rewrite <- E1.
  - split; [exact H4|]. intros q Hq. cbn. destruct (decide (q = p)) as [->|Hne].
    + rewrite lookup_insert_eq. by eexists.
    + rewrite lookup_insert_ne by done. by apply H4'.
  - intros q Q HQ. cbn in HQ. apply lookup_insert_Some in HQ as [[_ <-]|[_ HQ]]; [done|by eapply H5].
  - intros q Q Hq HQ. cbn in Hq, HQ. apply lookup_insert_Some in HQ as [[<- <-]|[Hne HQ]]; [by apply Hw|].
    rewrite (H6 q Q Hq HQ). f_equal. apply count_bits_ext. intros i _. by rewrite HW.
  - split; cbn.
    + intros q Q r HQ Hr. apply lookup_insert_Some in HQ as [[<- <-]|[_ HQ]]; [|by apply R1].
      rewrite Hreqs in Hr. destruct (R1 p P r HP Hr) as (E1 & E2 & pc & E3 & E4).
      split; [done|]. split; [apply Hoff; [done|by eexists]|]. by exists pc.
    + intros i pc r Hpc Hr. destruct (R2 i pc r Hpc Hr) as (Q & HQ & Hr').
      destruct (decide (rq_p r = p)) as [E|Hne].
      * rewrite E, lookup_insert_eq. exists P'. split; [done|]. rewrite Hreqs. rewrite E in HQ. congruence.
      * rewrite lookup_insert_ne by done. by exists Q.
    + intros q Q HQ. apply lookup_insert_Some in HQ as [[_ <-]|[_ HQ]]; [rewrite Hreqs|]; by eapply R3.
Qed.

(** A change of the queue. *)
Lemma net_ok_alike W n p P P' :
  net_ok W n -> pst n !! p = Some P -> (exists seen, peer_ok np seen P') -> alike P P' ->
  net_ok W (with_pst (<[p := P']> (pst n)) n).
Proof.
  intros Hn HP Hok [[A1 _] [A2 [_ A3]] A4 [A5 _] _].
  assert (forall i, offers P' i = offers P i /\ bad_bit P' i = bad_bit P i) as Ho
    by (intros i; unfold offers, bad_bit; by rewrite A1, A2).
  apply (net_ok_peer W W n p P P' Hn HP Hok); try done.
  - rewrite A3. by eapply nk_peer.
  - intros i. by rewrite (proj1 (Ho i)).
  - intros i _. by rewrite (proj2 (Ho i)).
  - intros Hp. rewrite A4, (nk_want _ _ Hn p P Hp HP). f_equal. apply count_bits_ext. intros i _. by rewrite (proj1 (Ho i)).
Qed.

(** One piece more or less in the wants of a peer. *)
Definition upd (W : nat -> nat -> bool) (p i : nat) (b : bool) (q j : nat) : bool :=
  if decide (q = p /\ j = i) then b else W q j.

Lemma count_upd W p i b P :
  (i < np)%nat -> W p i = negb b ->
  Z.of_nat (count_bits (fun j => offers P j && upd W p i b p j) np) =
  Z.of_nat (count_bits (fun j => offers P j && W p j) np) +
    (if offers P i then if b then 1 else -1 else 0).
Proof.
  intros Hi HW. destruct (offers P i) eqn:E.
  2:{ rewrite Z.add_0_r. f_equal. apply count_bits_ext. intros j _. unfold upd. case_decide as Hd; [|done].
      destruct Hd as [_ ->]. by rewrite E. }
  destruct b.
  - rewrite (count_bits_flip (fun j => offers P j && W p j) (fun j => offers P j && upd W p i true p j) np i); try done.
    + lia.
    + by rewrite HW, andb_false_r.
    + unfold upd. rewrite E. by case_decide; [|tauto].
    + intros j _ Hj. unfold upd. case_decide as Hd; [by destruct Hd|done].
  - rewrite (count_bits_flip (fun j => offers P j && upd W p i false p j) (fun j => offers P j && W p j) np i); try done.
    + lia.
    + unfold upd. case_decide; [|tauto]. by rewrite andb_false_r.
    + by rewrite E, HW.
    + intros j _ Hj. unfold upd. case_decide as Hd; [by destruct Hd|done].
Qed.

Lemma want_range W n p P : net_ok W n -> p ∈ peers n -> pst n !! p = Some P -> 0 <= nwant P <= Z.of_nat np.
Proof.
  intros Hn Hp HP. rewrite (nk_want _ _ Hn p P Hp HP).
  pose proof (count_bits_le (fun i => offers P i && W p i) np). lia.
Qed.

Lemma net_ok_ext W W' n :
  (forall p i, p ∈ peers n -> (i < np)%nat -> W p i = W' p i) -> net_ok W n -> net_ok W' n.
Proof.
  intros HW [H1 H2 H3 H4 H5 H6 H7]. split; try done. intros p P Hp HP. rewrite (H6 p P Hp HP). f_equal.
  apply count_bits_ext. intros i Hi. by rewrite HW.
Qed.

(** What a change of the wants leaves of the peers. *)
Definition stable_map (m m' : gmap nat peer) : Prop := forall p, option_Forall2 stable (m !! p) (m' !! p).

#[local] Instance stable_map_preorder : PreOrder stable_map.
Proof.
  split.
  - intros m p. destruct (m !! p); by constructor.
  - intros m m' m'' H H' p. specialize (H p). specialize (H' p).
    inversion H as [P P' Hs E1 E2|E1 E2]; rewrite <- E2 in H'; inversion H'; constructor. by etransitivity.
Qed.

Lemma stable_map_insert m p P P' : m !! p = Some P -> stable P P' -> stable_map m (<[p := P']> m).
Proof.
  intros HP Hs q. destruct (decide (q = p)) as [->|Hne].
  - rewrite HP, lookup_insert_eq. by constructor.
  - rewrite lookup_insert_ne by done. destruct (m !! q); by constructor.
Qed.

Lemma stable_lookup m m' p P : stable_map m m' -> m !! p = Some P -> exists P', m' !! p = Some P' /\ stable P P'.
Proof. intros H HP. specialize (H p). rewrite HP in H. inversion H. by eexists. Qed.

(** [peer_want] or [peer_unwant]. *)
Definition change_want (b : bool) (i : nat) : peer -> option peer := if b then peer_want i else peer_unwant i.

Lemma change_want_ok W n p i b :
  net_ok W n -> p ∈ peers n -> (i < np)%nat -> W p i = negb b ->
  exists m, on_peer (change_want b i) p n = Some (with_pst m n) /\ net_ok (upd W p i b) (with_pst m n) /\
    stable_map (pst n) m.
Proof.
  intros Hn Hp Hi HW. destruct (proj2 (nk_peers _ _ Hn) p Hp) as [P HP]. unfold on_peer. rewrite HP. cbn [mbind option_bind].
  destruct (nk_peer _ _ Hn p P HP) as [[seen Hok] Hsus]. pose proof (nk_want _ _ Hn p P Hp HP) as Hw.
  assert (exists P', change_want b i P = Some P' /\ peer_ok np seen P' /\ stable P P' /\
    nwant P' = nwant P + (if offers P i then if b then 1 else -1 else 0)) as (P' & -> & Hok' & Hst & Hw').
  { destruct b; cbn [change_want].
    - destruct (peer_want_ok np seen P i Hok Hi) as (P' & ? & ? & ? & ?); [|by exists P'].
      rewrite Hw. assert (count_bits (fun i => offers P i && W p i) np <> np) as Hne.
      { intros E. apply (proj1 (count_bits_full _ _)) with (i := i) in E; [|done]. by rewrite HW, andb_false_r in E. }
      pose proof (count_bits_le (fun i => offers P i && W p i) np). destruct Htp. lia.
    - destruct (peer_unwant_ok np seen P i Hok Hi) as (P' & E1 & E2 & E3 & E4).
      { intros Ho. rewrite Hw. assert (0 < count_bits (fun i => offers P i && W p i) np)%nat; [|lia].
        apply count_bits_pos. exists i. split; [done|]. by rewrite Ho, HW. }
      exists P'. split_and!; try done. rewrite E4. by destruct (offers P i). }
  cbn [mbind option_bind]. eexists. split; [reflexivity|]. split; [|by eapply stable_map_insert].
  apply (net_ok_peer W _ n p P P' Hn HP); try done.
  - by exists seen.
  - destruct Hst as [_ [_ [_ ->]] _ _ _]. done.
  - by destruct Hst as [_ _ _ [? _] _].
  - intros j. by rewrite (stable_offers P P').
  - intros j _. unfold bad_bit. by destruct Hst as [_ [-> _] _ _ _].
  - intros q Hq j. unfold upd. case_decide; [tauto|done].
  - intros _. rewrite Hw', Hw, <- (count_upd W p i b P Hi HW). f_equal. apply count_bits_ext.
    intros j _. by rewrite (stable_offers P P').
Qed.

Lemma foreach_app {A} (l : list A) x f n : foreach (l ++ [x]) f n = n ← foreach l f n; f x n.
Proof. unfold foreach. by rewrite foldl_app. Qed.

Lemma foreach_cons {A} (l : list A) x (f : A -> net -> option net) n :
  foreach (x :: l) f n = n ← f x n; foreach l f n.
Proof.
  unfold foreach. cbn [foldl mbind option_bind]. destruct (f x n); [done|]. cbn. induction l; done.
Qed.

Lemma foreach_want l i b : forall W n,
  net_ok W n -> NoDup l -> (forall p, p ∈ l -> p ∈ peers n) -> (i < np)%nat -> (forall p, p ∈ l -> W p i = negb b) ->
  exists m, foreach l (on_peer (change_want b i)) n = Some (with_pst m n) /\
    net_ok (fun p j => if decide (p ∈ l /\ j = i) then b else W p j) (with_pst m n) /\ stable_map (pst n) m.
Proof.
  induction l as [|p l IH]; intros W n Hn Hnd Hl Hi HW.
  - exists (pst n). split; [by destruct n|]. split; [|done]. assert (with_pst (pst n) n = n) as -> by (by destruct n).
    eapply net_ok_ext; [|exact Hn]. intros p j _ _. case_decide as Hd; [|done]. destruct Hd as [Hd _]. by apply not_elem_of_nil in Hd.
  - apply NoDup_cons in Hnd as [Hp Hnd].
    destruct (change_want_ok W n p i b Hn) as (m & E & Hn1 & Hs1); [apply Hl; constructor|done|apply HW; constructor|].
    destruct (IH (upd W p i b) (with_pst m n) Hn1 Hnd) as (m' & E' & Hn2 & Hs2).
    { intros q Hq. apply Hl. by constructor. }
    { done. }
    { intros q Hq. unfold upd. case_decide as Hd; [by destruct Hd as [-> _]|]. apply HW. by constructor. }
    exists m'. split; [rewrite foreach_cons, E; exact E'|]. split; [|by etransitivity].
    eapply net_ok_ext; [|exact Hn2]. intros q j _ _. cbn. unfold upd. repeat case_decide; set_solver.
Qed.
(** ** Changes of a piece and of a peer's requests for it *)

Definition edit (i : nat) (r : list Z) (pc : piece) (p : nat) (P : peer) (n : net) : net :=
  with_pst (<[p := P]> (pst n)) (set_piece i pc (with_cm (npieces_got n) (cm_field n) (<[i := r]> (block_field n)) n)).

Lemma edit_row n i pc p P :
  shape_ok n -> (i < np)%nat -> edit i (row n i) pc p P n = with_pst (<[p := P]> (pst n)) (set_piece i pc n).
Proof.
  intros Hs Hi. unfold edit. rewrite list_insert_id by (by apply row_lookup). by destruct n.
Qed.

Lemma row_edit n i r pc p P j : row (edit i r pc p P n) j = if decide (j = i /\ (i < length (block_field n))%nat) then r else row n j.
Proof.
  unfold row, edit. cbn. rewrite !nth_lookup, list_lookup_insert. case_decide as E; case_decide as E'; try done.
  - destruct E as [<- ?]. tauto.
  - destruct E' as [-> ?]. tauto.
Qed.

Record moved (n : net) (i p : nat) (pc pc' : piece) (P P' : peer) : Prop := Moved {
  mv_new : forall r, r ∈ my_reqs P' -> r ∈ my_reqs P \/ (rq_p r = p /\ rq_index r = i /\ offers P i = true);
  mv_both : forall r, rq_p r = p -> rq_index r = i -> r ∈ my_reqs P' <-> r ∈ reqs pc';
  mv_peer : forall r, rq_index r <> i -> r ∈ my_reqs P' <-> r ∈ my_reqs P;
  mv_piece : forall r, rq_p r <> p -> r ∈ reqs pc' <-> r ∈ reqs pc;
  mv_nodup : NoDup (my_reqs P')
}.

Lemma reqs_ok_edit n i r' pc pc' p P P' :
  reqs_ok n -> pcs n !! i = Some pc -> pst n !! p = Some P ->
  (forall j pc r, pcs n !! j = Some pc -> r ∈ reqs pc -> rq_index r = j) ->
  (forall r, r ∈ reqs pc' -> rq_index r = i) ->
  (forall j, offers P' j = offers P j) -> moved n i p pc pc' P P' -> reqs_ok (edit i r' pc' p P' n).
Proof.
  intros [R1 R2 R3] Hpc HP Hix Hix' Hoff [M1 M2 M3 M4 M5]. split; cbn.
  - intros q Q r HQ Hr. apply lookup_insert_Some in HQ as [[<- <-]|[Hq HQ]].
    + assert (rq_p r = p /\ offers P (rq_index r) = true) as [Ep Eo].
      { destruct (M1 r Hr) as [Hr'|(E1 & E2 & E3)]; [by destruct (R1 p P r HP Hr') as (? & ? & _)|by rewrite E2]. }
      rewrite Hoff. split; [done|]. split; [done|]. destruct (decide (rq_index r = i)) as [E|Hne].
      * rewrite E, lookup_insert_eq. exists pc'. split; [done|]. by apply M2.
      * rewrite lookup_insert_ne by done. apply M3 in Hr; [|done]. by destruct (R1 p P r HP Hr) as (_ & _ & ?).
    + destruct (R1 q Q r HQ Hr) as (E1 & E2 & pcr & E3 & E4). split; [done|]. split; [done|].
      destruct (decide (rq_index r = i)) as [E|Hne].
      * rewrite E, lookup_insert_eq. exists pc'. split; [done|]. rewrite E, Hpc in E3. simplify_eq. apply M4; [|done]. congruence.
      * rewrite lookup_insert_ne by done. by exists pcr.
  - intros j pcj r Hj Hr. apply lookup_insert_Some in Hj as [[<- <-]|[Hj Hpcj]].
    + destruct (decide (rq_p r = p)) as [E|Hne].
      * rewrite E, lookup_insert_eq. exists P'. split; [done|]. apply M2; auto.
      * rewrite lookup_insert_ne by done. apply M4 in Hr; [|done]. by eapply R2.
    + pose proof (Hix j pcj r Hpcj Hr) as E. destruct (R2 j pcj r Hpcj Hr) as (Q & HQ & Hr').
      destruct (decide (rq_p r = p)) as [Ep|Hne].
      * rewrite Ep, lookup_insert_eq. exists P'. split; [done|]. rewrite Ep, HP in HQ. simplify_eq. apply M3; [|done]. congruence.
      * rewrite lookup_insert_ne by done. by exists Q.
  - intros q Q HQ. apply lookup_insert_Some in HQ as [[_ <-]|[_ HQ]]; [done|by eapply R3].
Qed.

Lemma net_ok_edit W n i r' pc pc' p P P' :
  net_ok W n -> pcs n !! i = Some pc -> pst n !! p = Some P ->
  fits r' (blocks i) -> piece_ok r' i pc' -> log_ok n i pc' ->
  (exists seen, peer_ok np seen P') -> piece_field P' = piece_field P -> bad_field P' = bad_field P ->
  suspicion P' = suspicion P -> nwant P' = nwant P -> moved n i p pc pc' P P' ->
  net_ok W (edit i r' pc' p P' n).
Proof.
  intros [H1 H2 H3 [H4 H4'] H5 H6 H7] Hpc HP Hr Hpk Hlk Hok E1 E2 E3 E4 Hm.
  assert ((i < np)%nat) as Hi by (by apply (sh_pcs _ H1)).
  assert ((i < length (block_field n))%nat) as Hlen by (by rewrite (proj1 (sh_rows _ H1))).
  assert (forall j, offers P' j = offers P j /\ bad_bit P' j = bad_bit P j) as Hoff
    by (intros j; unfold offers, bad_bit; by rewrite E1, E2).
  assert (forall j, is_Some (<[i:=pc']> (pcs n) !! j) <-> is_Some (pcs n !! j)) as Hdom.
  { intros j. rewrite lookup_insert_is_Some. split; [intros [<-|[_ ?]]; [by eexists|done]|].
    intros. destruct (decide (i = j)); [by left|by right]. }
  split.
  - destruct H1 as [S1 S2 S3 [S4 S4'] [S5 S5'] S6 S7 S8 S9 S10]. split; try done.
    + cbn [edit with_pst with_peers set_piece with_pcs with_busy with_cm block_field]. rewrite length_insert. split; [done|]. intros j Hj. rewrite row_edit. case_decide as Hd; [|by apply S4'].
      by destruct Hd as [-> _].
    + split; [done|]. intros j. cbn. by rewrite S5', Hdom.
    + intros j Hj. apply S6. by apply Hdom.
    + intros j Hj. cbn. rewrite S7 by done. by apply bool_decide_ext.
    + intros j Hj Hc Hn. cbn in Hn. rewrite row_edit. case_decide as Hd; [|apply S10; [done..|]].
      * destruct Hd as [-> _]. by rewrite lookup_insert_eq in Hn.
      * destruct (pcs n !! j) eqn:E; [|done]. by destruct (proj2 (Hdom j) ltac:(by eexists)) as [? ?]; simplify_eq.
  - intros j pcj Hj. cbn in Hj. rewrite row_edit. apply lookup_insert_Some in Hj as [[<- <-]|[Hne Hj]].
    + by rewrite decide_True.
    + rewrite decide_False by (by intros [-> _]). by apply H2.
  - assert (forall pcj j, log_ok n j pcj -> log_ok (edit i r' pc' p P' n) j pcj) as Hlog.
    { intros pcj j [(log & l & L1 & L2 & L3 & L4) L5]. split; [|done]. exists log, l. split_and!; try done.
      intros r Q Hr' HQ. cbn in HQ. apply lookup_insert_Some in HQ as [[Ep <-]|[_ HQ]]; [|by eapply L3].
      rewrite (proj2 (Hoff j)). eapply L3; [done|]. by rewrite <- Ep. }
    intros j pcj Hj. cbn in Hj. apply Hlog. apply lookup_insert_Some in Hj as [[<- <-]|[_ Hj]]; [done|by apply H3].
  - split; [done|]. intros q Hq. cbn. apply lookup_insert_is_Some'. right. by apply H4'.
  - intros q Q HQ. cbn in HQ. apply lookup_insert_Some in HQ as [[_ <-]|[_ HQ]]; [|by eapply H5].
    split; [done|]. rewrite E3. by eapply H5.
  - intros q Q Hq HQ. cbn in Hq, HQ. apply lookup_insert_Some in HQ as [[<- <-]|[_ HQ]]; [|by apply H6].
    rewrite E4, (H6 p P Hq HP). f_equal. apply count_bits_ext. intros j _. by rewrite (proj1 (Hoff j)).
  - eapply reqs_ok_edit; try done.
    + intros j pcj r Hj. apply (pk_reqs _ _ _ (H2 j pcj Hj)).
    + apply (pk_reqs _ _ _ Hpk).
    + intros j. apply Hoff.
Qed.
End Inv.
