(* ===== verification/BtAssign.v ===== *)
(** Requests in the BitTorrent daemon: how [BtNet] hands the blocks of a piece to the
    peers, starts new pieces, and what it leaves of the invariant of [BtInv]. *)
From S2P Require Import Prelude Bitfield BtPeer BtNet BtInv.
Local Open Scope Z_scope.

#[local] Arguments count_bits : simpl never.
#[local] Arguments bit : simpl never.

(** ** A free block *)

Lemma free_block f g k : (count_bits f k + count_bits g k < k)%nat ->
  exists b, (b < k)%nat /\ f b = false /\ g b = false.
Proof.
  induction k as [|k IH]; [lia|]. rewrite !count_bits_S. intros H.
  destruct (f k) eqn:Ef; [|destruct (g k) eqn:Eg; [|by exists k; split; [lia|]]];
    destruct IH as (b & ? & ?); try lia; exists b; (split; [lia|done]).
Qed.

Lemma disjoint_le f g k : (forall b, (b < k)%nat -> f b = true -> g b = false) ->
  (count_bits f k + count_bits g k <= k)%nat.
Proof.
  induction k as [|k IH]; intros H; [done|]. rewrite !count_bits_S.
  specialize (IH (fun b Hb => H b ltac:(lia))). specialize (H k ltac:(lia)).
  destruct (f k); [rewrite (H eq_refl); lia|]. destruct (g k); lia.
Qed.

Lemma count_none f k : (forall b, (b < k)%nat -> f b = false) -> count_bits f k = 0%nat.
Proof. induction k as [|k IH]; intros H; [done|]. rewrite count_bits_S, IH, H by (intros; try apply H; lia). done. Qed.

(** The piece at another block. *)
Definition at_block (b : nat) (pc : piece) : piece :=
  BtNet.Piece (nblocks pc) (ngot pc) (nbusy pc) (nreqs pc) b (reqs pc) (logs pc) (down_field pc).

Lemma at_block_self pc : at_block (next_block pc) pc = pc.
Proof. by destruct pc. Qed.

Lemma next_free_ok row fuel : forall pc d,
  (d <= fuel)%nat -> (next_block pc < nblocks pc)%nat ->
  (forall b, (b < nblocks pc)%nat -> has_bit row b = Some (bit row b) /\ has_bit (down_field pc) b = Some (bit (down_field pc) b)) ->
  let b := ((next_block pc + d) mod nblocks pc)%nat in
  bit row b = false -> bit (down_field pc) b = false ->
  exists b', next_free fuel row pc = Some (at_block b' pc) /\ (b' < nblocks pc)%nat /\
    bit row b' = false /\ bit (down_field pc) b' = false.
Proof.
  induction fuel as [|fuel IH]; intros pc d Hd Hlt Hbits b Hb1 Hb2; cbn [next_free];
    destruct (Hbits _ Hlt) as [-> E2]; cbn [mbind option_bind].
  - assert (d = 0%nat) as -> by lia. subst b. rewrite Nat.add_0_r, Nat.mod_small in Hb1, Hb2 by done.
    rewrite Hb1, E2. cbn [mbind option_bind]. rewrite Hb2. exists (next_block pc). by rewrite at_block_self.
  - destruct (bit row (next_block pc) || bit (down_field pc) (next_block pc)) eqn:Eo.
    + assert ((if bit row (next_block pc) then Some true else has_bit (down_field pc) (next_block pc)) = Some true) as ->.
      { rewrite E2. destruct (bit row (next_block pc)); [done|]. cbn in Eo. by rewrite Eo. }
      cbn [mbind option_bind]. destruct d as [|d].
      { subst b. rewrite Nat.add_0_r, Nat.mod_small in Hb1, Hb2 by done. by rewrite Hb1, Hb2 in Eo. }
      assert (((next_block pc + 1) mod nblocks pc + d) mod nblocks pc = b)%nat as E.
      { subst b. rewrite Nat.Div0.add_mod_idemp_l. f_equal. lia. }
      destruct (IH (INCNEXTBLOCK pc) d) as (b' & E' & ?);
        [lia|cbn; apply Nat.mod_upper_bound; lia|exact Hbits|cbn; by rewrite E..|].
      exists b'. by split.
    + apply orb_false_iff in Eo as [Eo1 Eo2]. rewrite Eo1, E2. cbn [mbind option_bind]. rewrite Eo2.
      exists (next_block pc). by rewrite at_block_self.
Qed.

(** ** What handing out requests leaves of a net *)

Record fed (P P' : peer) : Prop := Fed {
  fd_field : piece_field P' = piece_field P /\ npieces P' = npieces P;
  fd_bad : bad_field P' = bad_field P /\ npcs_bad P' = npcs_bad P /\ suspicion P' = suspicion P;
  fd_reqs : nreqs_out P <= nreqs_out P';
  fd_flags : forall f, quiet f -> flag P' f = flag P f
}.

#[export] Instance fed_preorder : PreOrder fed.
Proof.
  split.
  - intros P. by split.
  - intros P Q R [[A1 A2] [A3 [A4 A5]] A6 A7] [[B1 B2] [B3 [B4 B5]] B6 B7]. split; [split; congruence|split_and!; congruence|lia|].
    intros f Hf. by rewrite B7, A7.
Qed.

Lemma stable_fed P P' : stable P P' -> fed P P'.
Proof. intros [? [? []] ? [] ?]. by split; [| |lia|]. Qed.

Record served (n n' : net) : Prop := Served {
  sv_peers : peers n' = peers n;
  sv_pst : forall q, option_Forall2 fed (pst n !! q) (pst n' !! q);
  sv_cm : cm_field n' = cm_field n /\ block_field n' = block_field n /\ npieces_got n' = npieces_got n;
  sv_count : piece_count n' = piece_count n;
  sv_banned : banned n' = banned n;
  sv_getlst : exists l, getlst n' = getlst n ++ l;
  sv_pcs : forall j, is_Some (pcs n !! j) -> is_Some (pcs n' !! j);
  sv_wanted : forall j, wanted n' j = true -> wanted n j = true
}.

Lemma served_pst n n' q P : served n n' -> pst n !! q = Some P -> exists P', pst n' !! q = Some P' /\ fed P P'.
Proof. intros H HP. pose proof (sv_pst _ _ H q) as Hq. rewrite HP in Hq. inversion Hq. by eexists. Qed.

#[export] Instance served_preorder : PreOrder served.
Proof.
  split.
  - intros n. split; try done. exists []. by rewrite app_nil_r.
  - intros n n' n'' [A1 A2 [? []] A4 A5 [l A6] A7 A8] [B1 B2 [? []] B4 B5 [l' B6] B7 B8].
    split; try congruence; [|split_and!; congruence| |by auto..].
    + intros q. specialize (A2 q). specialize (B2 q).
      inversion A2 as [P P' Hs E1 E2|E1 E2]; rewrite <- E2 in B2; inversion B2; constructor. by etransitivity.
    + exists (l ++ l'). by rewrite B6, A6, app_assoc.
Qed.

Lemma offers_fed P P' j : fed P P' -> offers P' j = offers P j.
Proof. intros [[A _] [B _] _ _]. unfold offers, bad_bit. by rewrite A, B. Qed.

(** The peer asks for the block that the piece is at. *)
Definition asked (P : peer) (r : block_request) : peer :=
  with_outq (outq_off P) (outq P ++ [rq_msg r]) (with_reqs (my_reqs P ++ [r]) (nreqs_out P + 1) P).
Definition busy_with (f : list Z) (r : block_request) (pc : piece) : piece :=
  BtNet.Piece (nblocks pc) (ngot pc) (nbusy pc + 1) (nreqs pc + 1) (next_block pc) (reqs pc ++ [r]) (logs pc) f.

Lemma fed_asked P r : fed P (asked P r).
Proof. split; try done. cbn. lia. Qed.

Section Assign.
Context (tp : torrent).
Local Notation np := (tp_npieces tp).
Local Notation blocks := (torrent_piece_blocks tp).
Hypothesis Htp : torrent_ok tp.

Lemma reqs_match n i pc p P r : reqs_ok n -> pcs n !! i = Some pc -> pst n !! p = Some P ->
  rq_p r = p -> rq_index r = i -> r ∈ my_reqs P <-> r ∈ reqs pc.
Proof.
  intros [R1 R2 _] Hpc HP Ep Ei. split; intros Hr.
  - destruct (R1 p P r HP Hr) as (_ & _ & pc' & E & Hr'). rewrite Ei, Hpc in E. by simplify_eq.
  - destruct (R2 i pc r Hpc Hr) as (Q & E & Hr'). rewrite Ep, HP in E. by simplify_eq.
Qed.

Lemma piece_range W n i : net_ok tp W n -> is_Some (pcs n !! i) ->
  (i < np)%nat /\ bit (cm_field n) i = false /\ (0 < blocks i)%nat /\ Z.of_nat (blocks i) * PIECE_BLOCKLEN < 2 ^ 32.
Proof.
  intros Hn Hi. destruct (sh_pcs _ _ (nk_shape _ _ _ Hn) i Hi). split; [done|]. split; [done|]. by apply blocks_pos.
Qed.

Lemma row_fits W n i : net_ok tp W n -> (i < np)%nat -> fits (row n i) (blocks i).
Proof. intros Hn. apply (sh_rows _ _ (nk_shape _ _ _ Hn)). Qed.

Lemma piece_bits W n i pc b : net_ok tp W n -> pcs n !! i = Some pc -> (b < nblocks pc)%nat ->
  has_bit (row n i) b = Some (bit (row n i) b) /\ has_bit (down_field pc) b = Some (bit (down_field pc) b).
Proof.
  intros Hn Hpc Hb. destruct (piece_range _ n i Hn ltac:(by eexists)) as [Hi _].
  pose proof (nk_piece _ _ _ Hn i pc Hpc) as Hk. split.
  - apply (has_bit_ok _ (nblocks pc)); [|done]. rewrite (pk_blocks _ _ _ _ Hk). by eapply row_fits.
  - apply (has_bit_ok _ (nblocks pc)); [|done]. apply fits_bytes, (pk_down _ _ _ _ Hk).
Qed.

Lemma at_block_ok r i pc b : piece_ok tp r i pc -> (b < nblocks pc)%nat -> piece_ok tp r i (at_block b pc).
Proof. intros []. by split. Qed.

Lemma busy_with_ok r i pc f p :
  piece_ok tp r i pc -> (i < np)%nat -> length f = length (down_field pc) ->
  (forall b, bit f b = if decide (b = next_block pc) then true else bit (down_field pc) b) ->
  bit r (next_block pc) = false -> bit (down_field pc) (next_block pc) = false ->
  let q := Req p i (u32 (Z.of_nat (next_block pc) * PIECE_BLOCKLEN)) (torrent_block_size tp i (nblocks pc) (next_block pc)) in
  q ∉ reqs pc /\ piece_ok tp r i (busy_with f q pc).
Proof.
  intros [K1 K2 K3 K4 K5 K6 K7 K8 K9 K10 K11] Hi Hlen Hf Hr Hd q.
  destruct (blocks_pos tp Htp i Hi) as [_ Hb].
  assert (rq_begin q = Z.of_nat (next_block pc) * PIECE_BLOCKLEN) as Eq.
  { cbn. apply wrap_small. unfold PIECE_BLOCKLEN in *. rewrite <- K1 in Hb. nia. }
  assert (forall r0, r0 ∈ reqs pc -> rq_begin r0 <> rq_begin q) as Hnew.
  { intros r0 Hr0 E. assert (bit (down_field pc) (next_block pc) = true) as E'; [|congruence].
    apply K10; [done|]. exists r0. split; [done|]. by rewrite E. }
  assert (rq_length q = torrent_block_size tp i (nblocks pc) (next_block pc)) as El by done.
  assert (rq_index q = i) as Ei by done. split; [intros H; by apply (Hnew q)|]. clearbody q.
  split; cbn; try done.
  - congruence.
  - rewrite K4. rewrite (count_bits_flip (bit (down_field pc)) (bit f) (nblocks pc) (next_block pc)); [lia|done..| |].
    + rewrite Hf. by case_decide.
    + intros j _ Hj. rewrite Hf. by case_decide.
  - intros b Hb' E. rewrite Hf. case_decide; [subst; congruence|by apply K5].
  - rewrite length_app. cbn. lia.
  - rewrite fmap_app. apply NoDup_app. split; [done|]. split; [|apply NoDup_singleton].
    intros x Hx Hx'. apply list_elem_of_singleton in Hx'. apply list_elem_of_fmap in Hx as (r0 & -> & Hr0). by apply (Hnew r0).
  - intros r0 Hr0. apply elem_of_app in Hr0 as [?|Hr0]; [by apply K9|]. by apply list_elem_of_singleton in Hr0 as ->.
  - intros b Hb'. rewrite Hf. case_decide as E.
    + split; [|done]. intros _. exists q. split; [|by subst]. apply elem_of_app. right. by apply list_elem_of_singleton.
    + rewrite K10 by done. split; intros (r0 & Hr0 & E'); exists r0; (split; [|done]).
      * apply elem_of_app. by left.
      * apply elem_of_app in Hr0 as [?|Hr0]; [done|]. apply list_elem_of_singleton in Hr0 as ->. exfalso. apply E. rewrite Eq in E'. unfold PIECE_BLOCKLEN in E'. lia.
  - intros r0 Hr0. apply elem_of_app in Hr0 as [?|Hr0]; [by apply K11|]. apply list_elem_of_singleton in Hr0 as ->. by exists (next_block pc).
Qed.
(** A peer that may be asked for more: it offers a piece that it counts, and neither
    the peer nor we hold it back. *)
Definition open (P : peer) : Prop :=
  flag P PF_BANNED = false /\ flag P PF_P_CHOKE = false /\ nreqs_out P < MAXPIPEDREQUESTS.

Lemma leech_iff W n p P : net_ok tp W n -> p ∈ peers n -> pst n !! p = Some P ->
  peer_leech_ok P = true <-> open P /\ exists j, (j < np)%nat /\ offers P j = true /\ W p j = true.
Proof.
  intros Hn Hp HP. destruct (proj1 (nk_peer _ _ _ Hn p P HP)) as [seen Hok].
  unfold peer_leech_ok, peer_laden, open. rewrite (po_want _ _ _ Hok), (po_suspect _ _ _ Hok), (nk_want _ _ _ Hn p P Hp HP).
  rewrite !andb_true_iff, !negb_true_iff, Z.ltb_lt, Z.geb_leb, Z.leb_gt.
  assert (0 < Z.of_nat (count_bits (fun i => offers P i && W p i) np) <->
    exists j, (j < np)%nat /\ offers P j = true /\ W p j = true) as <-; [|tauto].
  split.
  - intros H. destruct (proj1 (count_bits_pos (fun i => offers P i && W p i) np) ltac:(lia)) as (j & Hj & E).
    apply andb_true_iff in E as [? ?]. by exists j.
  - intros (j & Hj & E1 & E2). assert (0 < count_bits (fun i => offers P i && W p i) np)%nat; [|lia].
    apply count_bits_pos. exists j. split; [done|]. by rewrite E1, E2.
Qed.

Lemma want_pos W n p P j : net_ok tp W n -> p ∈ peers n -> pst n !! p = Some P ->
  (j < np)%nat -> offers P j = true -> W p j = true -> 0 < nwant P.
Proof.
  intros Hn Hp HP Hj E1 E2. rewrite (nk_want _ _ _ Hn p P Hp HP).
  assert (0 < count_bits (fun i => offers P i && W p i) np)%nat; [|lia].
  apply count_bits_pos. exists j. split; [done|]. by rewrite E1, E2.
Qed.

Lemma log_ok_same n i pc pc' : log_ok n i pc -> logs pc' = logs pc -> nblocks pc' = nblocks pc -> log_ok n i pc'.
Proof. intros [H1 H2] E1 E2. split; rewrite E1, E2; done. Qed.

Lemma log_ok_pst n n' i pc : pst n' = pst n -> log_ok n i pc -> log_ok n' i pc.
Proof. intros E [(log & l & H) H']. split; [|done]. exists log, l. by rewrite E. Qed.

Lemma set_piece_self n i pc : pcs n !! i = Some pc -> set_piece i pc n = n.
Proof. intros H. unfold set_piece. rewrite insert_id by done. by destruct n. Qed.

Lemma with_pst_self n p P : pst n !! p = Some P -> with_pst (<[p := P]> (pst n)) n = n.
Proof. intros H. rewrite insert_id by done. by destruct n. Qed.

(** A change of a piece that leaves its requests. *)
Lemma net_ok_piece W n i pc pc' :
  net_ok tp W n -> pcs n !! i = Some pc -> piece_ok tp (row n i) i pc' -> log_ok n i pc' -> reqs pc' = reqs pc ->
  net_ok tp W (set_piece i pc' n).
Proof.
  intros [H1 H2 H3 H4 H5 H6 [R1 R2 R3]] Hpc Hpk Hlk Er.
  assert (forall j, is_Some (<[i:=pc']> (pcs n) !! j) <-> is_Some (pcs n !! j)) as Hdom.
  { intros j. rewrite lookup_insert_is_Some. split; [intros [<-|[_ ?]]; [by eexists|done]|].
    intros. destruct (decide (i = j)); [by left|by right]. }
  split; try done.
  - destruct H1 as [S1 S2 S3 S4 [S5 S5'] S6 S7 S8 S9 S10]. split; try done; cbn.
    + split; [done|]. intros j. by rewrite S5', Hdom.
    + intros j Hj. apply S6. by apply Hdom.
    + intros j Hj. rewrite S7 by done. by apply bool_decide_ext.
    + intros j Hj Hc Hn. apply S10; [done..|]. by apply lookup_insert_None in Hn as [? _].
  - intros j pcj Hj. cbn in Hj. by apply lookup_insert_Some in Hj as [[<- <-]|[_ Hj]]; [|apply H2].
  - intros j pcj Hj. cbn in Hj. apply (log_ok_pst n); [done|].
    by apply lookup_insert_Some in Hj as [[<- <-]|[_ Hj]]; [|apply H3].
  - split; [|intros j pcj r Hj Hr|done]; cbn in *.
    + intros p P r HP Hr. destruct (R1 p P r HP Hr) as (? & ? & pcr & E & Hr'). split; [done|]. split; [done|].
      destruct (decide (rq_index r = i)) as [Ei|Hne].
      * rewrite Ei, lookup_insert_eq. exists pc'. split; [done|]. rewrite Ei, Hpc in E. simplify_eq. by rewrite Er.
      * rewrite lookup_insert_ne by done. by exists pcr.
    + apply lookup_insert_Some in Hj as [[<- <-]|[_ Hj]]; [|by eapply R2]. rewrite Er in Hr. by eapply R2.
Qed.

(** [dl_new_request], for a block that is free. *)
Lemma dl_new_request_ok W n i pc p P :
  net_ok tp W n -> pcs n !! i = Some pc -> p ∈ peers n -> pst n !! p = Some P ->
  W p i = true -> offers P i = true -> nreqs_out P < MAXPIPEDREQUESTS ->
  bit (row n i) (next_block pc) = false -> bit (down_field pc) (next_block pc) = false ->
  exists f r, dl_new_request tp p i n = Some (with_pst (<[p := asked P r]> (pst n)) (set_piece i (busy_with f r pc) n)) /\
    rq_p r = p /\ rq_index r = i /\
    net_ok tp W (with_pst (<[p := asked P r]> (pst n)) (set_piece i (busy_with f r pc) n)).
Proof.
  intros Hn Hpc Hp HP HW Ho Hr Hb Hd.
  destruct (piece_range W n i Hn ltac:(by eexists)) as (Hi & _ & _ & _).
  pose proof (nk_piece _ _ _ Hn i pc Hpc) as Hk. pose proof (pk_next _ _ _ _ Hk) as Hnext.
  destruct (set_bit_ok (down_field pc) (nblocks pc) (next_block pc)) as (f & Ef & Hlen & Hf);
    [apply fits_bytes, (pk_down _ _ _ _ Hk)|done|].
  set (r := Req p i (u32 (Z.of_nat (next_block pc) * PIECE_BLOCKLEN)) (torrent_block_size tp i (nblocks pc) (next_block pc))).
  destruct (busy_with_ok (row n i) i pc f p Hk Hi Hlen Hf Hb Hd) as [Hnew Hk']. fold r in Hnew, Hk'.
  destruct (proj1 (nk_peer _ _ _ Hn p P HP)) as [seen Hok].
  destruct (peer_request_ok np seen P r Hok (want_pos W n p P i Hn Hp HP Hi Ho HW) Hr) as [E Hok'].
  exists f, r. split; [|split; [done|]; split; [done|]].
  - unfold dl_new_request. rewrite Hpc. cbn [mbind option_bind]. fold r. rewrite Ef. cbn [mbind option_bind].
    unfold on_peer. cbn [pst set_piece with_pcs with_busy]. rewrite HP. cbn [mbind option_bind]. by rewrite E.
  - rewrite <- (edit_row tp n i _ p _ (nk_shape _ _ _ Hn) Hi).
    apply (net_ok_edit tp W n i (row n i) pc _ p P); try done.
    + by apply (row_fits W).
    + by apply (log_ok_same n i pc); [apply (nk_log _ _ _ Hn)| |].
    + by exists seen.
    + assert (r ∉ my_reqs P) as Hnot by (intros H; by apply Hnew, (reqs_match n i pc p P r (nk_reqs _ _ _ Hn) Hpc HP)).
      split; cbn.
      * intros q Hq. apply elem_of_app in Hq as [?|Hq]; [by left|]. apply list_elem_of_singleton in Hq as ->. by right.
      * intros q E1 E2. rewrite !elem_of_app. by rewrite (reqs_match n i pc p P q (nk_reqs _ _ _ Hn) Hpc HP).
      * intros q E1. rewrite elem_of_app, list_elem_of_singleton. split; [intros [?| ->]; [done|done]|by left].
      * intros q E1. rewrite elem_of_app, list_elem_of_singleton. split; [intros [?| ->]; [done|done]|by left].
      * apply NoDup_app. split; [by eapply (rk_nodup _ (nk_reqs _ _ _ Hn))|]. split; [|apply NoDup_singleton].
        intros x Hx Hx'. by apply list_elem_of_singleton in Hx' as ->.
Qed.
(** ** The loop over the blocks of a piece *)

Definition put (i : nat) (pc : piece) (p : nat) (P : peer) (n : net) : net :=
  with_pst (<[p := P]> (pst n)) (set_piece i pc n).

Lemma put_put i pc pc' p P P' n : put i pc' p P' (put i pc p P n) = put i pc' p P' n.
Proof. unfold put, set_piece, with_pcs, with_busy, with_pst, with_peers. cbn. by rewrite !insert_insert_eq. Qed.

Lemma put_pst_again i pc p P P' n : with_pst (<[p := P']> (pst (put i pc p P n))) (put i pc p P n) = put i pc p P' n.
Proof. unfold put, set_piece, with_pcs, with_busy, with_pst, with_peers. cbn. by rewrite insert_insert_eq. Qed.

Lemma put_self n i pc p P : pcs n !! i = Some pc -> pst n !! p = Some P -> put i pc p P n = n.
Proof. intros H1 H2. unfold put. rewrite (set_piece_self _ _ _ H1). by rewrite with_pst_self. Qed.

Lemma put_pcs i pc p P n : pcs (put i pc p P n) !! i = Some pc.
Proof. cbn. by rewrite lookup_insert_eq. Qed.
Lemma put_pst i pc p P n : pst (put i pc p P n) !! p = Some P.
Proof. cbn. by rewrite lookup_insert_eq. Qed.

Lemma assign_turn_ok W n i pc p P :
  net_ok tp W n -> pcs n !! i = Some pc -> p ∈ peers n -> pst n !! p = Some P ->
  W p i = true -> offers P i = true -> nreqs_out P < MAXPIPEDREQUESTS -> piece_full pc = false ->
  exists pc' P', let n' := put i pc' p P' n in
    assign_turn tp i p n = Some (if negb (piece_full pc') && negb (peer_laden P') then inl n' else inr n') /\
    net_ok tp W n' /\ fed P P' /\ nreqs_out P' = nreqs_out P + 1 /\
    nblocks pc' = nblocks pc /\ ngot pc' + nbusy pc' = ngot pc + nbusy pc + 1.
Proof.
  intros Hn Hpc Hp HP HW Ho Hr Hfull.
  destruct (piece_range W n i Hn ltac:(by eexists)) as (Hi & _ & _ & _).
  pose proof (nk_piece _ _ _ Hn i pc Hpc) as Hk. pose proof (pk_next _ _ _ _ Hk) as Hnext.
  assert (exists b, (b < nblocks pc)%nat /\ bit (row n i) b = false /\ bit (down_field pc) b = false) as (b & Hb & Hb1 & Hb2).
  { apply free_block. unfold piece_full in Hfull. apply Z.eqb_neq in Hfull. rewrite (pk_got _ _ _ _ Hk), (pk_busy _ _ _ _ Hk) in Hfull.
    pose proof (disjoint_le _ _ _ (pk_disjoint _ _ _ _ Hk)). lia. }
  assert (((next_block pc + (b + nblocks pc - next_block pc) mod nblocks pc) mod nblocks pc)%nat = b) as Eb.
  { rewrite Nat.Div0.add_mod_idemp_r. replace (next_block pc + (b + nblocks pc - next_block pc))%nat with (b + 1 * nblocks pc)%nat by lia.
    rewrite Nat.Div0.mod_add. by apply Nat.mod_small. }
  destruct (next_free_ok (row n i) (nblocks pc) pc ((b + nblocks pc - next_block pc) mod nblocks pc)) as (b' & Enf & Hb' & Hb1' & Hb2');
    [pose proof (Nat.mod_upper_bound (b + nblocks pc - next_block pc) (nblocks pc)); lia|done| |by rewrite Eb..|].
  { intros b0 Hb0. by apply (piece_bits W n i pc). }
  set (pc1 := at_block b' pc) in *. set (n1 := set_piece i pc1 n).
  assert (net_ok tp W n1) as Hn1.
  { apply (net_ok_piece W n i pc); [done|done|by apply at_block_ok| |done].
    by apply (log_ok_same n i pc); [apply (nk_log _ _ _ Hn)| |]. }
  assert (pcs n1 !! i = Some pc1) as Hpc1 by (cbn; by rewrite lookup_insert_eq).
  destruct (dl_new_request_ok W n1 i pc1 p P) as (f & r & E & _ & _ & Hn2); try done.
  set (pc2 := INCNEXTBLOCK (busy_with f r pc1)).
  assert (with_pst (<[p:=asked P r]> (pst n1)) (set_piece i (busy_with f r pc1) n1) = put i (busy_with f r pc1) p (asked P r) n) as En2.
  { unfold put, set_piece, with_pcs, with_busy, with_pst, with_peers. cbn. by rewrite insert_insert_eq. }
  exists pc2, (asked P r). rewrite En2 in E, Hn2.
  assert (set_piece i pc2 (put i (busy_with f r pc1) p (asked P r) n) = put i pc2 p (asked P r) n) as En3.
  { unfold put, set_piece, with_pcs, with_busy, with_pst, with_peers. cbn. by rewrite insert_insert_eq. }
  split; [|split_and!].
  - unfold assign_turn. rewrite Hpc, (row_lookup _ _ _ (nk_shape _ _ _ Hn) Hi). cbn [mbind option_bind].
    rewrite Enf. cbn [mbind option_bind]. fold n1. rewrite E. cbn [mbind option_bind].
    rewrite put_pcs. cbn [mbind option_bind]. fold pc2. rewrite En3, put_pst. done.
  - rewrite <- En3. pose proof (nk_piece _ _ _ Hn2 i _ (put_pcs _ _ _ _ _)) as Hk2.
    eapply net_ok_piece; [done|apply put_pcs| | |done].
    + destruct Hk2. split; try done. cbn. apply Nat.mod_upper_bound. lia.
    + by apply (log_ok_same _ i (busy_with f r pc1)); [apply (nk_log _ _ _ Hn2), put_pcs| |].
  - apply fed_asked.
  - done.
  - done.
  - cbn. lia.
Qed.

Lemma full_or_less W n i pc : net_ok tp W n -> pcs n !! i = Some pc -> piece_full pc = false ->
  ngot pc + nbusy pc < Z.of_nat (nblocks pc) /\ 0 <= ngot pc + nbusy pc.
Proof.
  intros Hn Hpc Hf. pose proof (nk_piece _ _ _ Hn i pc Hpc) as Hk. unfold piece_full in Hf. apply Z.eqb_neq in Hf.
  rewrite (pk_got _ _ _ _ Hk), (pk_busy _ _ _ _ Hk) in *. pose proof (disjoint_le _ _ _ (pk_disjoint _ _ _ _ Hk)). lia.
Qed.

Lemma assign_loop_ok W n i pc p P :
  net_ok tp W n -> pcs n !! i = Some pc -> p ∈ peers n -> pst n !! p = Some P ->
  W p i = true -> offers P i = true -> nreqs_out P < MAXPIPEDREQUESTS -> piece_full pc = false ->
  exists pc' P', let n' := put i pc' p P' n in
    cloop (nblocks pc) (assign_turn tp i p) n = Some n' /\ net_ok tp W n' /\ fed P P' /\
    (piece_full pc' = true \/ peer_laden P' = true).
Proof.
  intros Hn Hpc Hp HP HW Ho Hr Hfull. pose proof (full_or_less W n i pc Hn Hpc Hfull) as [Hlt H0].
  destruct (cloop_total
    (fun s => exists pc' P', s = put i pc' p P' n /\ net_ok tp W s /\ fed P P' /\ nblocks pc' = nblocks pc /\
       nreqs_out P' < MAXPIPEDREQUESTS /\ piece_full pc' = false)
    (fun s => match pcs s !! i with Some pc => Z.to_nat (Z.of_nat (nblocks pc) - ngot pc - nbusy pc - 1) | None => 0%nat end)
    (fun s => exists pc' P', s = put i pc' p P' n /\ net_ok tp W s /\ fed P P' /\
       (piece_full pc' = true \/ peer_laden P' = true))
    (assign_turn tp i p)) with (fuel := nblocks pc) (s := n) as (s & E & pc' & P' & -> & Hs).
  - intros s (pc1 & P1 & -> & Hn1 & Hf1 & Eb1 & Hr1 & Hfull1).
    destruct (assign_turn_ok W _ i pc1 p P1 Hn1 (put_pcs _ _ _ _ _) Hp (put_pst _ _ _ _ _) HW) as (pc2 & P2 & E & Hn2 & Hf2 & Hr2 & Eb2 & Hu2);
      [by rewrite (offers_fed P)|done..|].
    rewrite put_put in E, Hn2. rewrite E. destruct (piece_full pc2) eqn:Efull; [|destruct (peer_laden P2) eqn:El]; cbn [negb andb turn].
    + exists pc2, P2. split_and!; try done; [by etransitivity|by left].
    + exists pc2, P2. split_and!; try done; [by etransitivity|by right].
    + split.
      * exists pc2, P2. split_and!; try done; [by etransitivity|congruence|]. unfold peer_laden in El. lia.
      * rewrite !put_pcs. pose proof (full_or_less W _ i pc2 Hn2 (put_pcs _ _ _ _ _) Efull). lia.
  - exists pc, P. rewrite put_self by done. by split_and!.
  - rewrite Hpc. lia.
  - by exists pc', P'.
Qed.

(** ** A piece is handed out *)

(** The wants are those of the pieces that [A] announces. *)
Definition books (A : nat -> nat -> bool) (n : net) : Prop := net_ok tp (fun q j => A q j && wanted n j) n.

Lemma wanted_busy n i pc : pcs n !! i = Some pc -> bit (cm_field n) i = false -> wanted n i = negb (piece_full pc).
Proof. intros E H. unfold wanted. by rewrite E, H. Qed.

Lemma wanted_with_pst m n j : wanted (with_pst m n) j = wanted n j.
Proof. done. Qed.

Lemma wanted_put_ne i pc p P n j : j <> i -> wanted (put i pc p P n) j = wanted n j.
Proof. intros Hj. unfold wanted. cbn. by rewrite lookup_insert_ne. Qed.

Lemma served_put n i pc p P P' :
  pst n !! p = Some P -> fed P P' -> wanted n i = true -> served n (put i pc p P' n).
Proof.
  intros HP Hf Hw. split; try done; cbn.
  - intros q. destruct (decide (q = p)) as [->|Hne].
    + rewrite lookup_insert_eq, HP. by constructor.
    + rewrite lookup_insert_ne by done. destruct (pst n !! q); by constructor.
  - exists []. by rewrite app_nil_r.
  - intros j Hj. apply lookup_insert_is_Some'. by right.
  - intros j Hj. destruct (decide (j = i)) as [->|Hne]; [done|]. by rewrite (wanted_put_ne i pc p P') in Hj.
Qed.

Lemma served_stable n m : stable_map (pst n) m -> served n (with_pst m n).
Proof.
  intros Hs. split; try done; cbn; [|exists []; by rewrite app_nil_r].
  intros q. specialize (Hs q). inversion Hs; constructor. by apply stable_fed.
Qed.

Lemma stable_nreqs P P' : stable P P' -> nreqs_out P' = nreqs_out P.
Proof. by intros [_ _ _ [_ ?] _]. Qed.

Lemma dl_piece_assign_requests_ok A n i pc p P :
  books A n -> (forall q, q ∈ peers n -> A q i = true) -> p ∈ peers n ->
  pcs n !! i = Some pc -> pst n !! p = Some P -> piece_full pc = false -> offers P i = true -> peer_laden P = false ->
  exists n' pc' P', dl_piece_assign_requests tp i p n = Some n' /\ books A n' /\ served n n' /\ getlst n' = getlst n /\
    pcs n' !! i = Some pc' /\ pst n' !! p = Some P' /\ (piece_full pc' = true \/ peer_laden P' = true) /\
    (forall q, q <> p -> option_Forall2 stable (pst n !! q) (pst n' !! q)).
Proof.
  intros Hn HA Hp Hpc HP Hfull Ho Hl. unfold books in Hn.
  destruct (piece_range _ n i Hn ltac:(by eexists)) as (Hi & Hcm & _ & _).
  assert (wanted n i = true) as Hw by (by rewrite (wanted_busy n i pc), Hfull).
  unfold dl_piece_assign_requests. rewrite Hpc, HP. cbn [mbind option_bind]. rewrite Hfull, Hl. cbn [negb andb ensure mbind option_bind].
  destruct (assign_loop_ok _ n i pc p P Hn Hpc Hp HP) as (pc' & P' & -> & Hn' & Hf & Hend); try done.
  { by rewrite HA, Hw. } { unfold peer_laden in Hl. lia. }
  cbn [mbind option_bind]. rewrite put_pcs. cbn [mbind option_bind].
  pose proof (served_put n i pc' p P P' HP Hf Hw) as Hsv. destruct (piece_full pc') eqn:Efull.
  - destruct (foreach_want tp Htp (peers n) i false _ _ Hn' (proj1 (nk_peers _ _ _ Hn))) as (m & E & Hn2 & Hs); [done|done| |].
    { intros q Hq. by rewrite HA, Hw. }
    pose proof (served_stable _ _ Hs) as Hsv2.
    exists (with_pst m (put i pc' p P' n)), pc'.
    destruct (stable_lookup _ _ p P' Hs (put_pst _ _ _ _ _)) as (P2 & HP2 & Hst).
    exists P2. split; [exact E|]. split_and!; try done.
    + eapply net_ok_ext; [|exact Hn2]. intros q j Hq _. cbn beta. rewrite wanted_with_pst. case_decide as Hd.
      * destruct Hd as [_ ->]. rewrite (wanted_busy _ i pc') by (done || apply put_pcs). by rewrite Efull, andb_false_r.
      * rewrite wanted_put_ne; [done|]. intros ->. by apply Hd.
    + by etransitivity.
    + apply put_pcs.
    + by left.
    + intros q Hq. specialize (Hs q). cbn in Hs |- *. by rewrite lookup_insert_ne in Hs.
  - exists (put i pc' p P' n), pc', P'. destruct Hend as [?|Hend]; [congruence|]. split; [done|]. split_and!; try done.
    + eapply net_ok_ext; [|exact Hn']. intros q j Hq _. cbn beta. destruct (decide (j = i)) as [->|Hj].
      * rewrite (wanted_busy (put _ _ _ _ _) i pc') by (done || apply put_pcs). by rewrite Efull, Hw.
      * by rewrite wanted_put_ne.
    + apply put_pcs.
    + apply put_pst.
    + by right.
    + intros q Hq. cbn. rewrite lookup_insert_ne by done. destruct (pst n !! q); by constructor.
Qed.

(** ** A piece is started *)

Lemma count_have_ok r m k : fits r m -> (k <= m)%nat -> count_have r k = Some (Z.of_nat (count_bits (bit r) k)).
Proof.
  intros Hf. induction k as [|k IH]; intros Hk; [done|]. cbn [count_have]. rewrite IH by lia. cbn [mbind option_bind].
  rewrite (has_bit_ok r m) by (done || lia). cbn [mbind option_bind]. rewrite count_bits_S. destruct (bit r k); f_equal; lia.
Qed.

Lemma new_piece_ok r i : (i < np)%nat -> fits r (blocks i) ->
  piece_ok tp r i (piece_new_log (BtNet.Piece (blocks i) (Z.of_nat (count_bits (bit r) (blocks i))) 0 0 0 [] []
    (replicate (field_bytes (blocks i)) 0))).
Proof.
  intros Hi Hf. destruct (blocks_pos tp Htp i Hi). split; cbn; try done.
  - apply length_replicate.
  - by rewrite count_none by (intros; apply bit_zeros).
  - intros b _ _. apply bit_zeros.
  - apply NoDup_nil_2.
  - intros q Hq. by apply not_elem_of_nil in Hq.
  - intros b _. rewrite bit_zeros. split; [done|]. intros (q & Hq & _). by apply not_elem_of_nil in Hq.
  - intros q Hq. by apply not_elem_of_nil in Hq.
Qed.

Lemma NoDup_bounded (l : list nat) k : NoDup l -> (forall i, i ∈ l -> (i < k)%nat) -> (length l <= k)%nat.
Proof.
  intros Hl H. rewrite <- (length_seq k 0). apply submseteq_length, NoDup_submseteq; [done|].
  intros i Hi. apply elem_of_seq. specialize (H i Hi). lia.
Qed.

Lemma piece_alloc_ok A n i :
  books A n -> (i < np)%nat -> bit (cm_field n) i = false -> pcs n !! i = None ->
  exists pc n', piece_alloc tp i n = Some n' /\ books A n' /\ served n n' /\ getlst n' = getlst n ++ [i] /\
    pcs n' = <[i := pc]> (pcs n) /\ pst n' = pst n /\ piece_full pc = false /\ wanted n i = true /\
    (forall j, wanted n' j = wanted n j) /\ calls n' = calls n.
Proof.
  intros Hn Hi Hcm Hnone. pose proof (nk_shape _ _ _ Hn) as Hs. pose proof (sh_missing _ _ Hs i Hi Hcm Hnone) as Hlt.
  pose proof (row_fits _ n i Hn Hi) as Hfit. pose proof (fits_bytes _ _ (sh_busy _ _ Hs)) as Hbf.
  assert (bit (busy_field n) i = false) as Hb by (rewrite (sh_bits _ _ Hs i Hi); apply bool_decide_false; rewrite Hnone; by intros [? ?]).
  assert (i ∉ getlst n) as Hnew by (rewrite (proj2 (sh_getlst _ _ Hs) i), Hnone; by intros [? ?]).
  assert (length (getlst n) < np)%nat as Hlen.
  { apply (NoDup_bounded (i :: getlst n)); [by apply NoDup_cons; split; [|apply (sh_getlst _ _ Hs)]|].
    intros j Hj. apply elem_of_cons in Hj as [->|Hj]; [done|]. apply (sh_pcs _ _ Hs), (proj2 (sh_getlst _ _ Hs)), Hj. }
  unfold piece_alloc. rewrite (has_bit_ok _ np), Hb by done. cbn [mbind option_bind negb andb].
  rewrite (sh_nbusy _ _ Hs), (proj2 (Z.ltb_lt (Z.of_nat (length (getlst n))) (Z.of_nat np))) by lia.
  cbn [ensure mbind option_bind]. rewrite (row_lookup _ _ _ Hs Hi). cbn [mbind option_bind].
  rewrite (count_have_ok _ (blocks i)) by done. cbn [mbind option_bind].
  rewrite (proj2 (Z.ltb_lt _ _)) by lia. cbn [ensure mbind option_bind].
  destruct (set_bit_ok (busy_field n) np i Hbf Hi) as (f & -> & Hlf & Hf). cbn [mbind option_bind].
  pose proof (new_piece_ok (row n i) i Hi Hfit) as Hnp. set (pc := piece_new_log _) in *.
  assert (piece_full pc = false) as Hfull by (unfold piece_full; cbn; apply Z.eqb_neq; lia).
  eexists pc, _. split; [reflexivity|]. set (n' := with_busy _ _ _ _ _).
  assert (forall j, wanted n' j = wanted n j) as Hw.
  { intros j. unfold wanted. cbn. destruct (decide (j = i)) as [->|Hne]; [|by rewrite lookup_insert_ne].
    by rewrite lookup_insert_eq, Hnone, Hfull. }
  assert (forall j, is_Some (<[i:=pc]> (pcs n) !! j) <-> j = i \/ is_Some (pcs n !! j)) as Hdom.
  { intros j. rewrite lookup_insert_is_Some. destruct (decide (i = j)) as [->|]; naive_solver. }
  split_and!; try done.
  - destruct Hn as [[S1 S2 S3 S4 [S5 S5'] S6 S7 S8 S9 S10] H2 H3 H4 H5 H6 [R1 R2 R3]]. split; try done.
    + split; try done; cbn.
      * congruence.
      * split.
        -- apply NoDup_app. split; [done|]. split; [|apply NoDup_singleton]. intros x Hx Hx'.
           by apply list_elem_of_singleton in Hx' as ->.
        -- intros j. rewrite elem_of_app, list_elem_of_singleton, Hdom, S5'. tauto.
      * intros j Hj. apply Hdom in Hj as [->|Hj]; [done|by apply S6].
      * intros j Hj. rewrite Hf. case_decide as Hd; [by rewrite bool_decide_true by (apply Hdom; by left)|].
        rewrite S7 by done. apply bool_decide_ext. rewrite Hdom. tauto.
      * rewrite length_app. cbn. lia.
      * intros j Hj Hc Hno. apply lookup_insert_None in Hno as [? _]. by apply S10.
    + intros j pcj Hj. cbn in Hj. by apply lookup_insert_Some in Hj as [[<- <-]|[_ Hj]]; [|apply H2].
    + intros j pcj Hj. cbn in Hj. apply (log_ok_pst n); [done|]. apply lookup_insert_Some in Hj as [[<- <-]|[_ Hj]]; [|by apply H3].
      split.
      * exists (Blog [] None), []. split_and!; [done|apply NoDup_nil_2|..]; intros r; [intros P Hr|intros Hr]; by apply not_elem_of_nil in Hr.
      * intros log r Hl Hr. apply list_elem_of_singleton in Hl as ->. by apply not_elem_of_nil in Hr.
    + intros p P Hp HP. rewrite (H6 p P Hp HP). f_equal. apply count_bits_ext. intros j _. by rewrite Hw.
    + split; [|intros j pcj r Hj Hr|done]; cbn in *.
      * intros p P r HP Hr. destruct (R1 p P r HP Hr) as (? & ? & pcr & E & Hr'). split; [done|]. split; [done|].
        exists pcr. split; [|done]. rewrite lookup_insert_ne; [done|]. intros E'. congruence.
      * apply lookup_insert_Some in Hj as [[<- <-]|[_ Hj]]; [by apply not_elem_of_nil in Hr|by eapply R2].
  - split; try done.
    + by exists [i].
    + intros j Hj. cbn. apply Hdom. by right.
    + intros j. by rewrite Hw.
  - unfold wanted. by rewrite Hcm, Hnone.
Qed.
End Assign.
