(* ===== verification/BtChoice.v ===== *)
(** The choice of the piece to start, in the BitTorrent daemon: [dl_choose_seq] and
    [dl_choose_rarest] of [download_subr.c]. *)
From S2P Require Import Prelude Bitfield BtPeer BtNet BtInv BtAssign.
Local Open Scope Z_scope.

#[local] Arguments count_bits : simpl never.
#[local] Arguments bit : simpl never.

(** The pieces from [i] on. *)
Definition from (i : nat) (f : nat -> bool) (j : nat) : bool := (i <=? j)%nat && f j.

Lemma count_from_S i f k : (i < k)%nat ->
  count_bits (from i f) k = ((if f i then 1 else 0) + count_bits (from (S i) f) k)%nat.
Proof.
  intros Hi. destruct (f i) eqn:E.
  - rewrite (count_bits_flip (from (S i) f) (from i f) k i); [done|done| | |].
    + unfold from. by rewrite (proj2 (Nat.leb_gt _ _)) by lia.
    + unfold from. by rewrite Nat.leb_refl, E.
    + intros j _ Hj. unfold from. f_equal. apply Bool.eq_iff_eq_true. rewrite !Nat.leb_le. lia.
  - apply count_bits_ext. intros j _. unfold from. destruct (decide (j = i)) as [->|Hj].
    + by rewrite E, !andb_false_r.
    + f_equal. apply Bool.eq_iff_eq_true. rewrite !Nat.leb_le. lia.
Qed.

Section Choice.
Context (tp : torrent).
Local Notation np := (tp_npieces tp).

(** A piece that can be started with the peer. *)
Definition startable (n : net) (P : peer) (i : nat) : bool :=
  offers P i && negb (bit (cm_field n) i) && bool_decide (pcs n !! i = None).

(** How many peers have the piece. *)
Definition supply (n : net) (i : nat) : Z := nth i (piece_count n) 0.

Section Net.
Context (n : net) (P : peer) (seen : bool).
Hypothesis Hs : shape_ok tp n.
Hypothesis HP : peer_ok np seen P.

Lemma startable_ok i : (i < np)%nat -> dl_piece_startable n P i = Some (startable n P i).
Proof.
  intros Hi. unfold dl_piece_startable, startable, cm_has_piece. rewrite (requestable_ok np seen) by done. cbn [mbind option_bind].
  destruct (offers P i); [|done]. rewrite (has_bit_ok (cm_field n) np) by (done || apply fits_bytes, (sh_cm _ _ Hs)). cbn [mbind option_bind].
  destruct (bit (cm_field n) i); [done|]. rewrite (has_bit_ok _ np) by (done || apply fits_bytes, (sh_busy _ _ Hs)).
  cbn [mbind option_bind andb negb]. rewrite (sh_bits _ _ Hs i Hi). f_equal. destruct (pcs n !! i); done.
Qed.

Lemma supply_ok i : (i < np)%nat -> aread (piece_count n) i = Some (supply n i).
Proof.
  intros Hi. unfold aread, supply. destruct (lookup_lt_is_Some_2 (piece_count n) i) as [c Hc]; [by rewrite (sh_count _ _ Hs)|].
  by rewrite Hc, (nth_lookup_Some _ _ _ _ Hc).
Qed.

Lemma first_startable_ok k : forall i, (i + k)%nat = np ->
  exists j, first_startable n P k i = Some j /\ (i <= j <= np)%nat /\
    (forall j', (i <= j' < j)%nat -> startable n P j' = false) /\ ((j < np)%nat -> startable n P j = true).
Proof.
  induction k as [|k IH]; intros i Hi; cbn [first_startable].
  - exists i. split; [done|]. split; [lia|]. split; intros; lia.
  - rewrite startable_ok by lia. cbn [mbind option_bind]. destruct (startable n P i) eqn:E.
    + exists i. split; [done|]. split; [lia|]. split; [intros; lia|done].
    + destruct (IH (S i)) as (j & -> & H1 & H2 & H3); [lia|]. exists j. split; [done|]. split; [lia|]. split; [|done].
      intros j' Hj'. destruct (decide (j' = i)) as [->|]; [done|]. apply H2. lia.
Qed.

(** One of the rarest: [m] the first of those below [i], [c] how many they are. *)
Definition rarest_to (i : nat) (m : nat) (c : Z) : Prop :=
  (m < i)%nat /\ startable n P m = true /\
  (forall j, (j < i)%nat -> startable n P j = true -> supply n m <= supply n j) /\
  c = Z.of_nat (count_bits (from m (fun j => startable n P j && (supply n j =? supply n m))) i).

Lemma rarest_turn_ok i m c : (i < np)%nat -> rarest_to i m c ->
  exists m' c', rarest_turn n P i (m, c) = Some (inl (m', c')) /\ rarest_to (S i) m' c'.
Proof.
  intros Hi (Hm & Hst & Hmin & Hc). unfold rarest_turn. rewrite startable_ok by done. cbn [mbind option_bind].
  assert (forall j, (j <= i)%nat -> (m <=? j)%nat = true \/ (j < m)%nat) as Hle by (intros; rewrite Nat.leb_le; lia).
  destruct (startable n P i) eqn:E.
  2:{ exists m, c. split; [done|]. split; [lia|]. split; [done|]. split.
      - intros j Hj Hsj. destruct (decide (j = i)) as [->|]; [congruence|]. apply Hmin; [lia|done].
      - rewrite count_bits_S, Nat2Z.inj_add, <- Hc. unfold from. rewrite E. cbn [andb]. rewrite andb_false_r. lia. }
  rewrite !supply_ok by lia. cbn [mbind option_bind].
  destruct (Z.eqb_spec (supply n i) (supply n m)) as [Ec|Ec]; [|destruct (Z.ltb_spec (supply n i) (supply n m)) as [Hl|Hl]].
  - exists m, (c + 1). split; [done|]. split; [lia|]. split; [done|]. split.
    + intros j Hj Hsj. destruct (decide (j = i)) as [->|]; [lia|]. apply Hmin; [lia|done].
    + rewrite count_bits_S, Nat2Z.inj_add, <- Hc. unfold from. rewrite E, (proj2 (Z.eqb_eq _ _) Ec), (proj2 (Nat.leb_le m i)) by lia. done.
  - exists i, 1. split; [done|]. split; [lia|]. split; [done|]. split.
    + intros j Hj Hsj. destruct (decide (j = i)) as [->|]; [lia|]. specialize (Hmin j ltac:(lia) Hsj). lia.
    + rewrite count_bits_S, count_none.
      * unfold from. by rewrite Nat.leb_refl, E, Z.eqb_refl.
      * intros j Hj. unfold from. by rewrite (proj2 (Nat.leb_gt i j)) by lia.
  - exists m, c. split; [done|]. split; [lia|]. split; [done|]. split.
    + intros j Hj Hsj. destruct (decide (j = i)) as [->|]; [lia|]. apply Hmin; [lia|done].
    + rewrite count_bits_S, Nat2Z.inj_add, <- Hc. unfold from. rewrite (proj2 (Z.eqb_neq _ _) Ec), !andb_false_r. lia.
Qed.

Lemma nth_rarest_ok fuel : forall i m k, (i + fuel)%nat = np -> (m < np)%nat -> startable n P m = true ->
  0 <= k <= Z.of_nat (count_bits (from i (fun j => startable n P j && (supply n j =? supply n m))) np) ->
  exists r, nth_rarest fuel n P i m k = Some r /\ (r < np)%nat /\ startable n P r = true /\ supply n r = supply n m.
Proof.
  induction fuel as [|fuel IH]; intros i m k Hi Hm Hst Hk.
  - rewrite count_none in Hk by (intros j Hj; unfold from; by rewrite (proj2 (Nat.leb_gt i j)) by lia).
    cbn [nth_rarest]. destruct (Z.gtb_spec k 0); [lia|]. by exists m.
  - cbn [nth_rarest]. destruct (Z.gtb_spec k 0) as [H0|H0]; [|by exists m].
    rewrite count_from_S in Hk by lia. rewrite startable_ok by lia. cbn [mbind option_bind].
    destruct (startable n P i) eqn:E; cbn [andb] in Hk; [|apply IH; [lia|done|done|lia]].
    rewrite !supply_ok by lia. cbn [mbind option_bind].
    destruct (Z.eqb_spec (supply n i) (supply n m)) as [Ec|Ec].
    + destruct (IH (S i) i (k - 1)) as (r & -> & ? & ? & ?); [lia|lia|done| |exists r; split; [done|]; split_and!; congruence].
      rewrite Ec. lia.
    + apply IH; [lia|done|done|lia].
Qed.
End Net.

(** What a choice returns: a piece that can be started, unless there is none. *)
Definition chosen (n : net) (P : peer) (better : nat -> nat -> Prop) (res : option nat) : Prop :=
  match res with
  | None => forall j, (j < np)%nat -> startable n P j = false
  | Some i => (i < np)%nat /\ startable n P i = true /\ forall j, (j < np)%nat -> startable n P j = true -> better i j
  end.

Lemma dl_choose_seq_ok n P seen : shape_ok tp n -> peer_ok np seen P ->
  exists res, dl_choose_seq tp n P = Some res /\ chosen n P le res.
Proof.
  intros Hs HP. unfold dl_choose_seq. destruct (first_startable_ok n P seen Hs HP np 0) as (i & -> & Hi & Hno & Hst); [done|].
  cbn [mbind option_bind]. destruct (Nat.eqb_spec i np) as [->|Hne].
  - exists None. split; [done|]. intros j Hj. apply Hno. lia.
  - exists (Some i). split; [done|]. split; [lia|]. split; [apply Hst; lia|]. intros j Hj Hsj.
    destruct (decide (j < i)%nat); [|lia]. rewrite Hno in Hsj by lia. done.
Qed.

Context (rand : nat -> Z) (RAND_MAX : Z).

(** The random number of the tie is in the range asked for. *)
Lemma rand_between_range r lo hi : 0 <= r <= RAND_MAX -> 0 < RAND_MAX -> lo <= hi ->
  lo <= rand_between RAND_MAX r lo hi <= hi.
Proof.
  intros Hr Hm Hl. unfold rand_between.
  assert (0 <= (r * (hi - lo) + RAND_MAX - 1) / RAND_MAX) by (apply Z.div_pos; nia).
  assert ((r * (hi - lo) + RAND_MAX - 1) / RAND_MAX < hi - lo + 1) by (apply Z.div_lt_upper_bound; nia). lia.
Qed.

(** The [ceil] of [rand_between] makes the first number come out only for a [rand] of 0:
    so the first of the rarest pieces is hardly ever chosen. *)
Lemma rand_between_bias r lo hi : 0 < r <= RAND_MAX -> lo < hi -> lo < rand_between RAND_MAX r lo hi.
Proof.
  intros Hr Hl. unfold rand_between.
  assert (1 <= (r * (hi - lo) + RAND_MAX - 1) / RAND_MAX) by (apply Z.div_le_lower_bound; nia). lia.
Qed.

Hypothesis Hrand : 0 < RAND_MAX /\ forall k, 0 <= rand k <= RAND_MAX.

Lemma dl_choose_rarest_ok n P seen : shape_ok tp n -> peer_ok np seen P ->
  exists res k, dl_choose_rarest tp rand RAND_MAX n P = Some (res, with_calls k n) /\
    chosen n P (fun i j => supply n i <= supply n j) res.
Proof.
  intros Hs HP. assert (with_calls (calls n) n = n) as Hself by (by destruct n).
  unfold dl_choose_rarest. destruct (first_startable_ok n P seen Hs HP np 0) as (i & -> & Hi & Hno & Hst); [done|].
  cbn [mbind option_bind]. destruct (Nat.eqb_spec i np) as [->|Hne].
  - exists None, (calls n). rewrite Hself. split; [done|]. intros j Hj. apply Hno. lia.
  - destruct (cfor_total (fun i x => rarest_to n P i x.1 x.2) (fun x => rarest_to n P np x.1 x.2)
      (rarest_turn n P) (np - S i) (S i) (i, 1)) as ([m c] & -> & Hm & Hsm & Hmin & Hc).
    + intros j [m c] Hj HI. destruct (rarest_turn_ok n P seen Hs HP j m c ltac:(lia) HI) as (m' & c' & -> & H). exact H.
    + intros [m c] H. by replace (S i + (np - S i))%nat with np in H by lia.
    + specialize (Hst ltac:(lia)). cbn [fst snd]. split; [lia|]. split; [done|]. split.
      * intros j Hj Hsj. destruct (decide (j = i)) as [->|]; [done|]. rewrite Hno in Hsj by lia. done.
      * rewrite count_bits_S, count_none.
        -- unfold from. by rewrite Nat.leb_refl, Hst, Z.eqb_refl.
        -- intros j Hj. unfold from. by rewrite (proj2 (Nat.leb_gt i j)) by lia.
    + cbn [mbind option_bind fst snd] in *. destruct (Z.gtb_spec c 1) as [H1|H1].
      * pose proof (rand_between_range (rand (calls n)) 1 c (proj2 Hrand _) (proj1 Hrand) ltac:(lia)) as Hr.
        destruct (nth_rarest_ok n P seen Hs HP (np - m) m m (rand_between RAND_MAX (rand (calls n)) 1 c)) as (r & -> & Hr1 & Hr2 & Hr3);
          [lia|done|done|lia|].
        exists (Some r), (S (calls n)). split; [done|]. split; [done|]. split; [done|]. by rewrite Hr3.
      * exists (Some m), (calls n). rewrite Hself. split; [done|]. split; [done|]. done.
Qed.
End Choice.
