(* ===== verification/BtStart.v ===== *)
(** [dl_assign_requests] of the BitTorrent daemon: a peer gets requests until it is
    laden or nothing it offers is wanted. *)
From S2P Require Import Prelude Bitfield BtPeer BtNet BtInv BtAssign BtChoice.
Local Open Scope Z_scope.

#[local] Arguments count_bits : simpl never.
#[local] Arguments bit : simpl never.

Section Start.
Context (tp : torrent) (choose_method : Z) (rand : nat -> Z) (RAND_MAX : Z).
Local Notation np := (tp_npieces tp).
Hypothesis Htp : torrent_ok tp.
Hypothesis Hrand : 0 < RAND_MAX /\ forall k, 0 <= rand k <= RAND_MAX.

Local Notation books := (books tp).
(** All the pieces of the peers are announced. *)
Definition sound (n : net) : Prop := books (fun _ _ => true) n.

(** No request can go to the peer. *)
Definition idle (n : net) (q : nat) : Prop := forall Q, pst n !! q = Some Q -> peer_leech_ok Q = false.

Lemma served_idle A A' n n' q :
  books A n -> books A' n' -> (forall j, A' q j = true -> A q j = true) -> served n n' -> q ∈ peers n -> idle n q -> idle n' q.
Proof.
  intros Hn Hn' HA Hs Hq Hi Q' HQ'.
  pose proof (sv_pst _ _ Hs q) as Hq'. rewrite HQ' in Hq'. inversion Hq' as [Q Q0 Hf E1 E2|]; subst Q0. symmetry in E1.
  specialize (Hi Q E1). destruct (peer_leech_ok Q') eqn:E; [|done]. rewrite <- Hi. symmetry.
  apply (leech_iff tp _ n' q Q' Hn') in E as ((O1 & O2 & O3) & j & Hj & Ho & Hw); [|by rewrite (sv_peers _ _ Hs)|done].
  apply (leech_iff tp _ n q Q Hn Hq E1). split.
  - split_and!; [by rewrite <- (fd_flags _ _ Hf) by done..|]. pose proof (fd_reqs _ _ Hf). lia.
  - exists j. split; [done|]. rewrite <- (offers_fed _ _ _ Hf). split; [done|].
    apply andb_true_iff in Hw as [Hw1 Hw2]. by rewrite (HA j Hw1), (sv_wanted _ _ Hs j Hw2).
Qed.

(** The peer is laden, or has none of the pieces that are wanted. *)
Definition sated (n : net) (p : nat) (l : nat -> Prop) : Prop :=
  exists P, pst n !! p = Some P /\ (peer_laden P = true \/ forall i, l i -> offers P i = true -> wanted n i = false).

Lemma sated_served n n' p l : served n n' -> sated n p l -> sated n' p l.
Proof.
  intros Hs (P & HP & H). destruct (served_pst n n' p P Hs HP) as (P' & HP' & Hf). exists P'. split; [done|].
  destruct H as [H|H]; [left|right].
  - unfold peer_laden in *. pose proof (fd_reqs _ _ Hf). lia.
  - intros i Hi Ho. rewrite (offers_fed _ _ _ Hf) in Ho. specialize (H i Hi Ho).
    destruct (wanted n' i) eqn:E; [|done]. by rewrite (sv_wanted _ _ Hs i E) in H.
Qed.

Lemma sated_idle n p : sound n -> p ∈ peers n -> sated n p (fun i => (i < np)%nat) -> idle n p.
Proof.
  intros Hn Hp (P & HP & H) Q HQ. simplify_eq. destruct (peer_leech_ok P) eqn:E; [|done].
  apply (leech_iff tp _ n p P Hn Hp HP) in E as ((_ & _ & Hr) & j & Hj & Ho & Hw).
  destruct H as [H|H]; [unfold peer_laden in H; lia|]. by rewrite (H j Hj Ho) in Hw.
Qed.

Lemma requestable_books A n p P i : books A n -> pst n !! p = Some P -> (i < np)%nat -> peer_requestable P i = Some (offers P i).
Proof. intros Hn HP Hi. destruct (proj1 (nk_peer _ _ _ Hn p P HP)) as [seen Hok]. by apply (requestable_ok np seen). Qed.

(** A piece that is handed out as far as it goes. *)
Lemma given n p i pc P : pcs n !! i = Some pc -> pst n !! p = Some P ->
  (piece_full pc = true \/ peer_laden P = true) -> sated n p (fun j => j = i).
Proof.
  intros Hpc HP H. exists P. split; [done|]. destruct H as [H|H]; [right|by left].
  intros j -> _. unfold wanted. rewrite Hpc, H. apply andb_false_r.
Qed.

Lemma sated_or n p l l' : sated n p l -> sated n p l' -> sated n p (fun i => l i \/ l' i).
Proof.
  intros (P & HP & H) (P' & HP' & H'). simplify_eq. exists P. split; [done|].
  destruct H as [?|H]; [by left|]. destruct H' as [?|H']; [by left|]. right. intros i [?|?]; auto.
Qed.

Lemma sated_mono n p (l l' : nat -> Prop) : (forall i, l' i -> l i) -> sated n p l -> sated n p l'.
Proof. intros Hl (P & HP & H). exists P. split; [done|]. destruct H as [?|H]; [by left|right; auto]. Qed.

Lemma assign_started_ok p l : forall n P, sound n -> p ∈ peers n -> pst n !! p = Some P -> peer_laden P = false ->
  (forall i, i ∈ l -> is_Some (pcs n !! i)) ->
  exists n', assign_started tp l p n = Some n' /\ sound n' /\ served n n' /\ getlst n' = getlst n /\ sated n' p (.∈ l).
Proof.
  induction l as [|i l IH]; intros n P Hn Hp HP Hl Hdom; cbn [assign_started].
  - exists n. split; [done|]. split; [done|]. split; [done|]. split; [done|]. exists P. split; [done|]. right.
    intros j Hj. by apply not_elem_of_nil in Hj.
  - destruct (Hdom i ltac:(constructor)) as [pc Hpc]. rewrite Hpc, HP. cbn [mbind option_bind].
    destruct (piece_range tp Htp _ n i Hn ltac:(by eexists)) as (Hi & _).
    assert (forall j, j ∈ l -> is_Some (pcs n !! j)) as Hdom' by (intros; apply Hdom; by constructor).
    assert (sated n p (fun j => j = i) -> exists n', assign_started tp l p n = Some n' /\ sound n' /\ served n n' /\
      getlst n' = getlst n /\ sated n' p (.∈ i :: l)) as Hskip.
    { intros Hsat. destruct (IH n P Hn Hp HP Hl Hdom') as (n' & E & ? & Hsv & ? & Hs). exists n'. split_and!; try done.
      eapply sated_mono; [|apply (sated_or _ _ _ _ (sated_served _ _ _ _ Hsv Hsat) Hs)]. intros j. rewrite elem_of_cons. tauto. }
    destruct (piece_full pc) eqn:Efull; cbn [mbind option_bind negb].
    { apply Hskip. apply (given n p i pc P); [done|done|by left]. }
    rewrite (requestable_books _ n p P i Hn HP Hi). cbn [mbind option_bind]. destruct (offers P i) eqn:Eo; cbn [negb].
    2:{ apply Hskip. exists P. split; [done|]. right. intros j -> ?. congruence. }
    destruct (dl_piece_assign_requests_ok tp Htp _ n i pc p P Hn) as (n1 & pc1 & P1 & E1 & Hn1 & Hs1 & G1 & Hpc1 & HP1 & Hend & _); try done.
    rewrite E1. cbn [mbind option_bind]. rewrite Hpc1, HP1. cbn [mbind option_bind].
    assert (piece_full pc1 || peer_laden P1 = true) as -> by (apply orb_true_iff; tauto). cbn [ensure mbind option_bind].
    pose proof (given n1 p i pc1 P1 Hpc1 HP1 Hend) as Hgiven. destruct (peer_laden P1) eqn:El1.
    + exists n1. split_and!; try done. exists P1. split; [done|by left].
    + destruct (IH n1 P1 Hn1) as (n' & E & Hn' & Hsv & G & Hs); [by rewrite (sv_peers _ _ Hs1)|done|done| |].
      { intros j Hj. apply (sv_pcs _ _ Hs1). by apply Hdom'. }
      exists n'. split_and!; try done; [by etransitivity|congruence|].
      eapply sated_mono; [|apply (sated_or _ _ _ _ (sated_served _ _ _ _ Hsv Hgiven) Hs)].
      intros j. rewrite elem_of_cons. tauto.
Qed.

Lemma books_calls A n k : books A n -> books A (with_calls k n).
Proof.
  intros [[] H2 H3 H4 H5 H6 []]. split; try done.
  intros i pc Hpc. apply (log_ok_pst n); [done|]. by apply H3.
Qed.

Lemma served_calls n k : served n (with_calls k n).
Proof.
  split; try done. exists []. by rewrite app_nil_r.
Qed.

(** The choice, by either method. *)
Lemma choice_ok n p P : sound n -> pst n !! p = Some P ->
  exists res k, (if choose_method =? 0 then dl_choose_rarest tp rand RAND_MAX n P
                 else index ← dl_choose_seq tp n P; Some (index, n)) = Some (res, with_calls k n) /\
    match res with
    | None => forall j, (j < np)%nat -> startable n P j = false
    | Some i => (i < np)%nat /\ startable n P i = true
    end.
Proof.
  intros Hn HP. destruct (proj1 (nk_peer _ _ _ Hn p P HP)) as [seen Hok]. destruct (choose_method =? 0).
  - destruct (dl_choose_rarest_ok tp rand RAND_MAX Hrand n P seen (nk_shape _ _ _ Hn) Hok) as (res & k & -> & H).
    exists res, k. split; [done|]. destruct res; [|done]. by destruct H as (? & ? & _).
  - destruct (dl_choose_seq_ok tp n P seen (nk_shape _ _ _ Hn) Hok) as (res & -> & H).
    exists res, (calls n). split; [by destruct n|]. destruct res; [|done]. by destruct H as (? & ? & _).
Qed.

Lemma start_turn_ok n p : sound n -> p ∈ peers n -> sated n p (.∈ getlst n) ->
  match start_turn tp choose_method rand RAND_MAX p n with
  | None => False
  | Some (inl n') => sound n' /\ served n n' /\ sated n' p (.∈ getlst n') /\ (length (getlst n) < length (getlst n') <= np)%nat
  | Some (inr n') => sound n' /\ served n n' /\ sated n' p (fun i => (i < np)%nat)
  end.
Proof.
  intros Hn Hp Hsat. pose proof Hsat as (P & HP & Hl). unfold start_turn. rewrite HP. cbn [mbind option_bind].
  destruct (peer_laden P) eqn:El; [split; [done|]; split; [done|]; exists P; split; [done|by left]|].
  destruct Hl as [?|Hl]; [congruence|].
  destruct (choice_ok n p P Hn HP) as (res & k & -> & Hres). cbn [mbind option_bind].
  pose proof (books_calls _ n k Hn) as Hn0. pose proof (served_calls n k) as Hs0. destruct res as [i|].
  - destruct Hres as [Hi Hst]. unfold startable in Hst. apply andb_true_iff in Hst as [Hst Hnone].
    apply andb_true_iff in Hst as [Ho Hcm]. apply negb_true_iff in Hcm. apply bool_decide_eq_true in Hnone.
    unfold dl_new_piece.
    destruct (piece_alloc_ok tp Htp _ (with_calls k n) i Hn0 Hi Hcm Hnone) as (pc & n1 & -> & Hn1 & Hs1 & G1 & Epcs & Epst & Hfull & _).
    cbn [mbind option_bind].
    assert (pcs n1 !! i = Some pc) as Hpc by (by rewrite Epcs, lookup_insert_eq).
    destruct (dl_piece_assign_requests_ok tp Htp _ n1 i pc p P Hn1) as (n2 & pc2 & P2 & E2 & Hn2 & Hs2 & G2 & Hpc2 & HP2 & Hend & _);
      try done; [by rewrite (sv_peers _ _ Hs1)|by rewrite Epst|].
    rewrite E2. cbn [mbind option_bind]. assert (served n n2) as Hs by (etransitivity; [exact Hs0|]; by etransitivity).
    split; [done|]. split; [done|]. rewrite G2, G1. split.
    + eapply sated_mono; [|apply (sated_or _ _ _ _ (sated_served _ _ _ _ Hs Hsat) (given n2 p i pc2 P2 Hpc2 HP2 Hend))].
      intros j Hj. cbn in Hj. apply elem_of_app in Hj as [?|Hj]; [by left|right]. by apply list_elem_of_singleton in Hj.
    + rewrite length_app. cbn. split; [lia|]. pose proof (nk_shape _ _ _ Hn1) as Hsh.
      pose proof (NoDup_bounded (getlst n1) np (proj1 (sh_getlst _ _ Hsh))) as Hb.
      rewrite G1, length_app in Hb. cbn in Hb. apply Hb. intros j Hj. rewrite <- (G1 : _ = getlst n ++ [i]) in Hj.
      apply (sh_pcs _ _ Hsh), (proj2 (sh_getlst _ _ Hsh)), Hj.
  - split; [done|]. split; [done|]. exists P. split; [done|]. right. intros j Hj Ho.
    change (wanted n j = false). specialize (Hres j Hj). unfold startable in Hres. rewrite Ho in Hres. cbn [andb] in Hres.
    destruct (pcs n !! j) eqn:E.
    + apply Hl; [|done]. apply (proj2 (sh_getlst _ _ (nk_shape _ _ _ Hn))). by eexists.
    + rewrite bool_decide_true, andb_true_r in Hres by done. unfold wanted. by rewrite Hres.
Qed.

Lemma dl_assign_requests_ok n p P : sound n -> p ∈ peers n -> pst n !! p = Some P -> peer_leech_ok P = true ->
  exists n', dl_assign_requests tp choose_method rand RAND_MAX p n = Some n' /\ sound n' /\ served n n' /\ idle n' p.
Proof.
  intros Hn Hp HP Hleech. unfold dl_assign_requests. rewrite HP. cbn [mbind option_bind]. rewrite Hleech. cbn [ensure mbind option_bind].
  pose proof (proj1 (leech_iff tp _ n p P Hn Hp HP) Hleech) as ((_ & _ & Hr) & _).
  destruct (assign_started_ok p (getlst n) n P Hn Hp HP) as (n1 & -> & Hn1 & Hs1 & G1 & Hsat).
  { unfold peer_laden. lia. }
  { intros i. apply (proj2 (sh_getlst _ _ (nk_shape _ _ _ Hn))). }
  cbn [mbind option_bind]. rewrite <- G1 in Hsat.
  destruct (cloop_total (fun s => sound s /\ served n s /\ sated s p (.∈ getlst s)) (fun s => (np - length (getlst s))%nat)
    (fun s => sound s /\ served n s /\ sated s p (fun i => (i < np)%nat)) (start_turn tp choose_method rand RAND_MAX p))
    with (fuel := S np) (s := n1) as (n2 & E & Hn2 & Hs2 & Hsat2).
  - intros s (Hs & Hsv & Hst). pose proof (start_turn_ok s p Hs) as H. rewrite (sv_peers _ _ Hsv) in H. specialize (H Hp Hst).
    unfold turn. destruct (start_turn _ _ _ _ p s) as [[s'|s']|]; [| |done].
    + destruct H as (? & ? & ? & ?). split; [split_and!; try done; by etransitivity|lia].
    + destruct H as (? & ? & ?). split_and!; try done. by etransitivity.
  - done.
  - lia.
  - exists n2. split; [done|]. split; [done|]. split; [done|]. apply sated_idle; try done. by rewrite (sv_peers _ _ Hs2).
Qed.
End Start.
