(* ===== verification/BtRelease.v ===== *)
(** Requests given up in the BitTorrent daemon: [dl_unassign_requests] and
    [dl_on_piece_unfull], which offers the blocks to the other peers. *)
From S2P Require Import Prelude Bitfield BtPeer BtNet BtInv BtAssign BtChoice BtStart.
Local Open Scope Z_scope.

#[local] Arguments count_bits : simpl never.
#[local] Arguments bit : simpl never.

(** ** A request less *)

Definition without (q : block_request) (l : list block_request) : list block_request :=
  List.filter (fun r => negb (bool_decide (r = q))) l.

Lemma elem_of_without q l r : r ∈ without q l <-> r ∈ l /\ r <> q.
Proof.
  unfold without. rewrite !list_elem_of_In, filter_In, negb_true_iff, bool_decide_eq_false. done.
Qed.

Lemma fmap_filter_NoDup {A B} (f : A -> B) g l : NoDup (f <$> l) -> NoDup (f <$> List.filter g l).
Proof.
  induction l as [|x l IH]; cbn; [done|]. intros H. apply NoDup_cons in H as [Hx H]. destruct (g x); [|auto].
  cbn. apply NoDup_cons. split; [|auto]. intros Hf. apply Hx. apply list_elem_of_fmap in Hf as (y & -> & Hy).
  apply list_elem_of_fmap. exists y. split; [done|]. apply list_elem_of_In, filter_In in Hy as [Hy _]. by apply list_elem_of_In.
Qed.

Lemma NoDup_filter_bool {A} g (l : list A) : NoDup l -> NoDup (List.filter g l).
Proof. rewrite <- (list_fmap_id (List.filter g l)), <- (list_fmap_id l) at 1. apply fmap_filter_NoDup. Qed.

Lemma NoDup_without q l : NoDup l -> NoDup (without q l).
Proof. apply NoDup_filter_bool. Qed.

Lemma without_none q l : q ∉ l -> without q l = l.
Proof.
  induction l as [|r l IH]; [done|]. rewrite not_elem_of_cons. intros [Hq Hl]. cbn.
  rewrite bool_decide_false by congruence. cbn. f_equal. by apply IH.
Qed.

Lemma length_without q l : NoDup l -> q ∈ l -> Z.of_nat (length (without q l)) = Z.of_nat (length l) - 1.
Proof.
  induction l as [|r l IH]; intros Hl Hq; [by apply not_elem_of_nil in Hq|]. apply NoDup_cons in Hl as [Hr Hl].
  cbn. destruct (decide (r = q)) as [->|Hne].
  - rewrite bool_decide_true by done. cbn. fold (without q l). rewrite without_none by done. lia.
  - rewrite bool_decide_false by done. cbn. fold (without q l). apply elem_of_cons in Hq as [?|Hq]; [congruence|].
    specialize (IH Hl Hq). lia.
Qed.

Section Release.
Context (tp : torrent).
Local Notation np := (tp_npieces tp).
Local Notation blocks := (torrent_piece_blocks tp).
Hypothesis Htp : torrent_ok tp.

(** The piece once a request is given up, or answered ([v]). *)
Lemma unbusy_ok r r' i pc q b (v : bool) f lg :
  piece_ok tp r i pc -> q ∈ reqs pc -> rq_begin q = Z.of_nat b * PIECE_BLOCKLEN -> (b < nblocks pc)%nat ->
  length f = length (down_field pc) ->
  (forall j, bit f j = if decide (j = b) then false else bit (down_field pc) j) ->
  (forall j, (j < nblocks pc)%nat -> bit r' j = if decide (j = b) then v else bit r j) ->
  bit r b = false /\
  piece_ok tp r' i (BtNet.Piece (nblocks pc) (ngot pc + (if v then 1 else 0)) (nbusy pc - 1) (nreqs pc - 1) (next_block pc)
    (without q (reqs pc)) lg f).
Proof.
  intros [K1 K2 K3 K4 K5 K6 K7 K8 K9 K10 K11] Hq Eb Hb Hlen Hf Hr.
  assert (bit (down_field pc) b = true) as Hd by (apply K10; [done|]; by exists q).
  assert (bit r b = false) as Hrb by (destruct (bit r b) eqn:E; [|done]; by rewrite (K5 b Hb E) in Hd).
  assert (forall r0, r0 ∈ reqs pc -> rq_begin r0 = rq_begin q -> r0 = q) as Huniq.
  { intros r0 Hr0 E. apply list_elem_of_lookup_1 in Hr0 as [x Hx]. apply list_elem_of_lookup_1 in Hq as [y Hy].
    assert (x = y) as ->; [|congruence].
    eapply NoDup_lookup; [exact K8|rewrite list_lookup_fmap, Hx; reflexivity|rewrite list_lookup_fmap, Hy; cbn; by rewrite E]. }
  split; [done|]. split; cbn; try done.
  - congruence.
  - rewrite K3. destruct v.
    + rewrite (count_bits_flip (bit r) (bit r') (nblocks pc) b); [lia|done|done| |].
      * rewrite Hr by done. by case_decide.
      * intros j Hj Hne. rewrite Hr by done. by case_decide.
    + rewrite Z.add_0_r. f_equal. apply count_bits_ext. intros j Hj. rewrite Hr by done. case_decide; [congruence|done].
  - rewrite K4. rewrite (count_bits_flip (bit f) (bit (down_field pc)) (nblocks pc) b); [lia|done| |done|].
    + rewrite Hf. by case_decide.
    + intros j Hj Hne. rewrite Hf. by case_decide.
  - intros j Hj E. rewrite Hf. case_decide; [done|]. rewrite Hr in E by done. rewrite decide_False in E by done. by apply K5.
  - rewrite K7, length_without; [done| |done]. by eapply NoDup_fmap_1.
  - by apply fmap_filter_NoDup.
  - intros r0 Hr0. apply elem_of_without in Hr0 as [Hr0 _]. by apply K9.
  - intros j Hj. rewrite Hf. case_decide as E.
    + subst j. split; [done|]. intros (r0 & Hr0 & E'). apply elem_of_without in Hr0 as [Hr0 Hne]. exfalso. apply Hne, Huniq; [done|congruence].
    + rewrite K10 by done. split; intros (r0 & Hr0 & E'); exists r0; (split; [|done]).
      * apply elem_of_without. split; [done|]. intros ->. apply E. rewrite Eb in E'. unfold PIECE_BLOCKLEN in E'. lia.
      * by apply elem_of_without in Hr0 as [? _].
  - intros r0 Hr0. apply elem_of_without in Hr0 as [Hr0 _]. by apply K11.
Qed.

Lemma block_of b : Z.to_nat (Z.of_nat b * PIECE_BLOCKLEN / PIECE_BLOCKLEN) = b.
Proof. rewrite Z.div_mul by done. lia. Qed.

(** The requests but those of [l]. *)
Definition less (l : list block_request) (rs : list block_request) : list block_request := foldl (fun rs q => without q rs) rs l.

Lemma elem_of_less l : forall rs r, r ∈ less l rs <-> r ∈ rs /\ r ∉ l.
Proof.
  induction l as [|q l IH]; intros rs r; cbn.
  - pose proof (not_elem_of_nil r). tauto.
  - unfold less in IH. rewrite IH, elem_of_without, not_elem_of_cons. tauto.
Qed.

Lemma NoDup_less l : forall rs, NoDup rs -> NoDup (less l rs).
Proof. induction l as [|q l IH]; intros rs Hrs; [done|]. by apply IH, NoDup_without. Qed.

Lemma length_less l : forall rs, NoDup rs -> NoDup l -> (forall r, r ∈ l -> r ∈ rs) ->
  Z.of_nat (length (less l rs)) = Z.of_nat (length rs) - Z.of_nat (length l).
Proof.
  induction l as [|q l IH]; intros rs Hrs Hl Hin; cbn; [lia|]. apply NoDup_cons in Hl as [Hq Hl].
  change (foldl _ _ l) with (less l (without q rs)). rewrite IH; [|by apply NoDup_without|done|].
  - rewrite length_without; [lia|done|]. apply Hin. constructor.
  - intros r Hr. apply elem_of_without. split; [apply Hin; by constructor|]. by intros ->.
Qed.

Lemma unassign_all i p l : forall n pc P,
  NoDup l -> pcs n !! i = Some pc -> pst n !! p = Some P -> piece_ok tp (row n i) i pc ->
  (forall r, r ∈ l -> r ∈ reqs pc) ->
  exists pc', foreach l (unassign p i) n =
      Some (put i pc' p (with_reqs (less l (my_reqs P)) (nreqs_out P - Z.of_nat (length l)) P) n) /\
    piece_ok tp (row n i) i pc' /\ reqs pc' = less l (reqs pc) /\ nblocks pc' = nblocks pc /\ logs pc' = logs pc /\
    ngot pc' = ngot pc /\ nbusy pc' = nbusy pc - Z.of_nat (length l).
Proof.
  induction l as [|q l IH]; intros n pc P Hl Hpc HP Hk Hin.
  - exists pc. split; [|split_and!; try done; cbn; lia]. cbn. rewrite Z.sub_0_r. unfold foreach. cbn.
    rewrite put_self; [done|done|]. rewrite HP. by destruct P.
  - apply NoDup_cons in Hl as [Hq Hl]. assert (q ∈ reqs pc) as Hqr by (apply Hin; constructor).
    destruct (pk_range _ _ _ _ Hk q Hqr) as (b & Hb & Eb & _).
    assert (bit (down_field pc) b = true) as Hd by (apply (pk_bits _ _ _ _ Hk b Hb); by exists q).
    assert (fits (down_field pc) (nblocks pc)) as Hfit by apply fits_bytes, (pk_down _ _ _ _ Hk).
    destruct (clear_bit_ok (down_field pc) (nblocks pc) b Hfit Hb) as (f & Ef & Hlf & Hf).
    destruct (unbusy_ok (row n i) (row n i) i pc q b false f (logs pc) Hk Hqr Eb Hb Hlf Hf) as [Hrb Hk1].
    { intros j Hj. case_decide as E; [|done]. subst j.
      destruct (bit (row n i) b) eqn:E; [|done]. by rewrite (pk_disjoint _ _ _ _ Hk b Hb E) in Hd. }
    rewrite Z.add_0_r in Hk1. match type of Hk1 with piece_ok _ _ _ ?x => set (pc1 := x) in * end.
    set (P1 := with_reqs (without q (my_reqs P)) (nreqs_out P - 1) P).
    assert (unassign p i q n = Some (put i pc1 p P1 n)) as E.
    { unfold unassign. rewrite Hpc, HP. cbn [mbind option_bind]. rewrite Eb, block_of.
      rewrite (has_bit_ok _ (nblocks pc)), Hd by done. cbn [ensure mbind option_bind]. rewrite Ef. done. }
    destruct (IH (put i pc1 p P1 n) pc1 P1 Hl (put_pcs _ _ _ _ _) (put_pst _ _ _ _ _) Hk1) as (pc' & E' & ? & ? & ? & ? & ? & ?).
    { intros r Hr. apply elem_of_without. split; [apply Hin; by constructor|]. by intros ->. }
    exists pc'. rewrite foreach_cons, E. cbn [mbind option_bind]. rewrite E', put_put. split.
    + do 2 f_equal. unfold P1, with_reqs. cbn. f_equal. lia.
    + split_and!; try done. cbn [length]. change (nbusy pc1) with (nbusy pc - 1) in *. lia.
Qed.
(** ** Frames *)

(** What the bookkeeping of requests leaves of a peer, and of a net. *)
Record same (P P' : peer) : Prop := Same {
  sm_field : piece_field P' = piece_field P /\ npieces P' = npieces P;
  sm_bad : bad_field P' = bad_field P /\ npcs_bad P' = npcs_bad P /\ suspicion P' = suspicion P;
  sm_flags : forall f, quiet f -> flag P' f = flag P f
}.

#[export] Instance same_preorder : PreOrder same.
Proof.
  split; [by intros P; split|]. intros P Q R [[A1 A2] [A3 [A4 A5]] A6] [[B1 B2] [B3 [B4 B5]] B6].
  split; [split; congruence|split_and!; congruence|]. intros f Hf. by rewrite B6, A6.
Qed.

Record kept (n n' : net) : Prop := Kept {
  kp_peers : peers n' = peers n;
  kp_pst : forall q, option_Forall2 same (pst n !! q) (pst n' !! q);
  kp_cm : cm_field n' = cm_field n /\ block_field n' = block_field n /\ npieces_got n' = npieces_got n;
  kp_count : piece_count n' = piece_count n;
  kp_banned : banned n' = banned n
}.

Lemma kept_pst n n' q P : kept n n' -> pst n !! q = Some P -> exists P', pst n' !! q = Some P' /\ same P P'.
Proof. intros H HP. pose proof (kp_pst _ _ H q) as Hq. rewrite HP in Hq. inversion Hq. by eexists. Qed.

#[export] Instance kept_preorder : PreOrder kept.
Proof.
  split.
  - by intros n; split.
  - intros n n' n'' [A1 A2 [? []] A4 A5] [B1 B2 [? []] B4 B5].
    split; try congruence; [|split_and!; congruence].
    intros q. specialize (A2 q). specialize (B2 q).
    inversion A2 as [P P' Hs E1 E2|E1 E2]; rewrite <- E2 in B2; inversion B2; constructor. by etransitivity.
Qed.

Lemma served_kept n n' : served n n' -> kept n n'.
Proof.
  intros [H1 H2 H3 H4 H5 _ _ _]. split; try done. intros q. specialize (H2 q). inversion H2 as [P P' []|]; by constructor.
Qed.

Lemma kept_put_peer n i pc p P P' : pst n !! p = Some P -> same P P' -> kept n (put i pc p P' n).
Proof.
  intros HP Hs. split; try done. intros q. cbn. destruct (decide (q = p)) as [->|Hne].
  - rewrite lookup_insert_eq, HP. by constructor.
  - rewrite lookup_insert_ne by done. destruct (pst n !! q); by constructor.
Qed.

(** ** A piece that has free blocks again *)

Lemma open_fed P P' : fed P P' -> open P' -> open P.
Proof.
  intros Hf (O1 & O2 & O3). pose proof (fd_reqs _ _ Hf). pose proof (fd_flags _ _ Hf) as Hq.
  rewrite !Hq in * by done. split_and!; [done..|lia].
Qed.

(** The peer is idle but for piece [i]. *)
Definition idle_but (i : nat) (n : net) (q : nat) : Prop :=
  forall Q j, pst n !! q = Some Q -> open Q -> (j < np)%nat -> j <> i -> offers Q j = true -> wanted n j = false.

Lemma idle_but_served i n n' q : served n n' -> idle_but i n q -> idle_but i n' q.
Proof.
  intros Hs Hi Q' j HQ' Hop Hj Hne Ho. pose proof (sv_pst _ _ Hs q) as Hq. rewrite HQ' in Hq.
  inversion Hq as [Q Q0 Hf E1 E2|]; subst Q0. symmetry in E1.
  destruct (wanted n' j) eqn:E; [|done]. apply (sv_wanted _ _ Hs) in E. rewrite <- E. apply (Hi Q); try done.
  - by apply (open_fed Q Q').
  - by rewrite <- (offers_fed _ _ _ Hf).
Qed.

Local Notation sound := (sound tp).

Lemma idle_but_idle i n q : sound n -> q ∈ peers n -> idle_but i n q -> sated n q (fun j => j = i) -> idle n q.
Proof.
  intros Hn Hq Hi (Q & HQ & Hs) Q0 HQ0. rewrite HQ in HQ0. injection HQ0 as <-. destruct (peer_leech_ok Q) eqn:E; [|done].
  apply (leech_iff tp _ n q Q Hn Hq HQ) in E as (Hop & j & Hj & Ho & Hw). cbn in Hw.
  destruct Hs as [Hl|Hs]; [destruct Hop as (_ & _ & Hr); unfold peer_laden in Hl; lia|].
  destruct (decide (j = i)) as [->|Hne]; [by rewrite Hs in Hw|]. by rewrite (Hi Q j) in Hw.
Qed.

(** The peer, or the net, has nothing to do with it. *)
Definition aside (n : net) (q : nat) : Prop := q ∉ peers n \/ forall Q, pst n !! q = Some Q -> ~ open Q.

Lemma aside_stable n n' q Q Q' : pst n !! q = Some Q -> pst n' !! q = Some Q' -> stable Q Q' -> peers n' = peers n ->
  aside n q -> aside n' q.
Proof.
  intros HQ HQ' Hs Hp [Ha|Ha]; [left; by rewrite Hp|right]. intros Q0 HQ0 Hop. rewrite HQ' in HQ0. injection HQ0 as <-.
  by apply (Ha Q HQ), (open_fed Q Q'), Hop; apply stable_fed.
Qed.

Lemma sated_full n i pc q Q : pcs n !! i = Some pc -> pst n !! q = Some Q -> piece_full pc = true -> sated n q (fun j => j = i).
Proof. intros. eapply given; [done|done|by left]. Qed.

Lemma unfull_assign_ok (Ex : nat -> Prop) i ps : forall n pc,
  sound n -> pcs n !! i = Some pc -> (forall q, q ∈ ps -> q ∈ peers n) ->
  (forall q, q ∈ ps -> ~ Ex q -> idle_but i n q) ->
  exists n', unfull_assign tp ps i n = Some n' /\ sound n' /\ served n n' /\
    (forall q, q ∈ ps -> ~ Ex q -> idle n' q) /\
    (forall q Q, pst n !! q = Some Q -> aside n q -> exists Q', pst n' !! q = Some Q' /\ stable Q Q').
Proof.
  induction ps as [|p ps IH]; intros n pc Hn Hpc Hps Hidle; cbn [unfull_assign].
  { exists n. split_and!; try done; [intros q Hq; by apply not_elem_of_nil in Hq|]. intros q Q HQ _. by exists Q. }
  rewrite Hpc. cbn [mbind option_bind].
  assert (forall q, q ∈ p :: ps -> exists Q, pst n !! q = Some Q) as Hin by (intros q Hq; apply (nk_peers _ _ _ Hn), Hps, Hq).
  destruct (piece_full pc) eqn:Efull.
  { exists n. split_and!; try done; [|intros q Q HQ _; by exists Q]. intros q Hq Hx. destruct (Hin q Hq) as [Q HQ].
    apply (idle_but_idle i); auto. by apply (sated_full n i pc q Q). }
  destruct (Hin p ltac:(constructor)) as [P HP]. rewrite HP. cbn [mbind option_bind].
  assert (Hp : p ∈ peers n) by (apply Hps; constructor).
  destruct (piece_range tp Htp _ n i Hn ltac:(by eexists)) as (Hi & _).
  assert (forall n1, sound n1 -> served n n1 -> (~ Ex p -> idle n1 p) ->
    (forall q Q, pst n !! q = Some Q -> aside n q -> exists Q', pst n1 !! q = Some Q' /\ stable Q Q') ->
    exists n', unfull_assign tp ps i n1 = Some n' /\ sound n' /\ served n n' /\
      (forall q, q ∈ p :: ps -> ~ Ex q -> idle n' q) /\
      (forall q Q, pst n !! q = Some Q -> aside n q -> exists Q', pst n' !! q = Some Q' /\ stable Q Q')) as Hgo.
  { intros n1 Hn1 Hs1 Hp1 Hst1. destruct (sv_pcs _ _ Hs1 i ltac:(by eexists)) as [pc1 Hpc1].
    destruct (IH n1 pc1 Hn1 Hpc1) as (n' & E & Hn' & Hs' & Hi' & Hst').
    - intros q Hq. rewrite (sv_peers _ _ Hs1). apply Hps. by constructor.
    - intros q Hq Hx. apply (idle_but_served i n); [done|]. apply Hidle; [by constructor|done].
    - exists n'. split_and!; try done; [by etransitivity| |].
      + intros q Hq Hx. apply elem_of_cons in Hq as [->|Hq]; [|by apply Hi'].
        apply (served_idle tp (fun _ _ => true) (fun _ _ => true) n1); try done; [by rewrite (sv_peers _ _ Hs1)|by apply Hp1].
      + intros q Q HQ Ha. destruct (Hst1 q Q HQ Ha) as (Q1 & HQ1 & Hq1). destruct (Hst' q Q1 HQ1) as (Q2 & HQ2 & Hq2).
        * by apply (aside_stable n n1 q Q Q1); try apply (sv_peers _ _ Hs1).
        * exists Q2. split; [done|]. by etransitivity. }
  assert (forall q Q, pst n !! q = Some Q -> aside n q -> exists Q', pst n !! q = Some Q' /\ stable Q Q') as Hrefl
    by (intros q Q HQ _; by exists Q).
  destruct (peer_leech_ok P) eqn:El; cbn [mbind option_bind].
  2:{ apply Hgo; try done. intros _ Q HQ. by simplify_eq. }
  rewrite (requestable_books tp _ n p P i Hn HP Hi). cbn [mbind option_bind].
  pose proof (proj1 (leech_iff tp _ n p P Hn Hp HP) El) as (Hop & j & Hj & Ho & Hw).
  destruct (offers P i) eqn:Eo; cbn [mbind option_bind].
  2:{ apply Hgo; try done. intros Hx. exfalso. assert (wanted n j = false) as E; [|by rewrite E in Hw].
      apply (Hidle p ltac:(constructor) Hx P); try done. intros ->. congruence. }
  destruct (dl_piece_assign_requests_ok tp Htp _ n i pc p P Hn) as (n1 & pc1 & P1 & E1 & Hn1 & Hs1 & G1 & Hpc1 & HP1 & Hend & Hst);
    try done; [unfold peer_laden; destruct Hop as (_ & _ & ?); lia|].
  rewrite E1. cbn [mbind option_bind]. apply Hgo; try done.
  - intros Hx. apply (idle_but_idle i); try done; [by rewrite (sv_peers _ _ Hs1)| |].
    + apply (idle_but_served i n); [done|]. apply Hidle; [constructor|done].
    + by eapply given.
  - intros q Q HQ Ha. assert (q <> p) as Hne.
    { intros ->. destruct Ha as [Ha|Ha]; [done|]. by apply (Ha P). }
    specialize (Hst q Hne). rewrite HQ in Hst. inversion Hst. by eexists.
Qed.

Lemma dl_on_piece_unfull_ok (Ex : nat -> Prop) i n pc :
  net_ok tp (fun _ j => wanted n j && negb (j =? i)%nat) n -> pcs n !! i = Some pc -> piece_full pc = false ->
  (forall q, q ∈ peers n -> ~ Ex q -> idle_but i n q) ->
  exists n', dl_on_piece_unfull tp i n = Some n' /\ sound n' /\ served n n' /\
    (forall q, q ∈ peers n -> ~ Ex q -> idle n' q) /\
    (forall q Q, pst n !! q = Some Q -> aside n q -> exists Q', pst n' !! q = Some Q' /\ stable Q Q').
Proof.
  intros Hn Hpc Hfull Hidle. unfold dl_on_piece_unfull. rewrite Hpc. cbn [mbind option_bind]. rewrite Hfull. cbn [negb ensure mbind option_bind].
  destruct (piece_range tp Htp _ n i Hn ltac:(by eexists)) as (Hi & Hcm & _).
  destruct (foreach_want tp Htp (peers n) i true _ n Hn (proj1 (nk_peers _ _ _ Hn))) as (m & E & Hm & Hs); [done|done| |].
  { intros q _. by rewrite Nat.eqb_refl, andb_false_r. }
  change (change_want true i) with (peer_want i) in E. rewrite E. cbn [mbind option_bind].
  assert (sound (with_pst m n)) as Hn1.
  { eapply net_ok_ext; [|exact Hm]. intros q j Hq _. cbn beta. rewrite wanted_with_pst. case_decide as Hd.
    - destruct Hd as [_ ->]. by rewrite (wanted_busy n i pc), Hfull.
    - destruct (Nat.eqb_spec j i) as [->|]; [by exfalso; apply Hd|]. by rewrite andb_true_r. }
  pose proof (served_stable _ _ Hs) as Hs1.
  destruct (unfull_assign_ok Ex i (peers n) (with_pst m n) pc Hn1 Hpc) as (n' & E' & Hn' & Hs' & Hi' & Hst'); [done| |].
  { intros q Hq Hx. apply (idle_but_served i n); auto. }
  exists n'. split_and!; try done; [by etransitivity|].
  intros q Q HQ Ha. destruct (stable_lookup _ _ q Q Hs HQ) as (Q1 & HQ1 & Hq1).
  destruct (Hst' q Q1 HQ1) as (Q2 & HQ2 & Hq2); [|exists Q2; split; [done|by etransitivity]].
  by apply (aside_stable n (with_pst m n) q Q Q1).
Qed.
(** ** All the requests of a peer are given up *)

(** The peer is choking us, or lost. *)
Definition away (n : net) (q : nat) : Prop := q ∉ peers n \/ forall Q, pst n !! q = Some Q -> flag Q PF_P_CHOKE = true.

Lemma away_kept n n' q : kept n n' -> away n q -> away n' q.
Proof.
  intros Hk [Ha|Ha]; [left; by rewrite (kp_peers _ _ Hk)|right]. intros Q' HQ'. pose proof (kp_pst _ _ Hk q) as Hq.
  rewrite HQ' in Hq. inversion Hq as [Q Q0 Hs E1 E2|]. rewrite (sm_flags _ _ Hs) by done. by apply Ha.
Qed.

Lemma away_aside n q : away n q -> aside n q.
Proof. intros [Ha|Ha]; [by left|right]. intros Q HQ (_ & O & _). by rewrite (Ha Q HQ) in O. Qed.

Lemma aside_idle n q : sound n -> q ∈ peers n -> aside n q -> idle n q.
Proof.
  intros Hn Hq [Ha|Ha] Q HQ; [done|]. destruct (peer_leech_ok Q) eqn:E; [|done].
  apply (leech_iff tp _ n q Q Hn Hq HQ) in E as [Hop _]. by apply Ha in HQ.
Qed.

Lemma idle_idle_but i n q : sound n -> q ∈ peers n -> idle n q -> idle_but i n q.
Proof.
  intros Hn Hq Hi Q j HQ Hop Hj _ Ho. specialize (Hi Q HQ). destruct (wanted n j) eqn:E; [|done]. rewrite <- Hi. symmetry.
  apply (leech_iff tp _ n q Q Hn Hq HQ). split; [done|]. by exists j.
Qed.

(** The requests of the peer for the piece. *)
Definition those (i : nat) (P : peer) : list block_request := List.filter (fun r => (rq_index r =? i)%nat) (my_reqs P).

Lemma elem_of_those i P r : r ∈ those i P <-> r ∈ my_reqs P /\ rq_index r = i.
Proof. unfold those. by rewrite !list_elem_of_In, filter_In, Nat.eqb_eq. Qed.

(** The requests for a piece are given up, and the peer is told if they were the last. *)
Lemma release_ok W n p P i pc :
  net_ok tp W n -> pst n !! p = Some P -> pcs n !! i = Some pc -> those i P <> [] ->
  exists n1 pc' P', foreach (those i P) (unassign p i) n = Some n1 /\
    (P1 ← pst n1 !! p; if nreqs_out P1 =? 0 then on_peer peer_on_no_reqs p n1 else Some n1) = Some (put i pc' p P' n) /\
    net_ok tp W (put i pc' p P' n) /\ same P P' /\ (length (my_reqs P') < length (my_reqs P))%nat /\
    piece_full pc' = false.
Proof.
  intros Hn HP Hpc Hne. set (l := those i P) in *. pose proof (nk_reqs _ _ _ Hn) as Hr.
  destruct (piece_range tp Htp _ n i Hn ltac:(by eexists)) as (Hi & _).
  pose proof (nk_piece _ _ _ Hn i pc Hpc) as Hk. destruct (proj1 (nk_peer _ _ _ Hn p P HP)) as [seen Hok].
  assert (forall r, r ∈ my_reqs P -> rq_p r = p) as Hrp by (intros r Hr'; by apply (rk_peer _ Hr p P)).
  pose proof (rk_nodup _ Hr p P HP) as Hnd.
  assert (NoDup l) as Hl by by apply NoDup_filter_bool.
  assert (forall r, r ∈ l -> r ∈ reqs pc) as Hlr.
  { intros r Hr'. apply elem_of_those in Hr' as [Hr' Ei]. by apply (reqs_match n i pc p P r Hr Hpc HP (Hrp r Hr') Ei). }
  destruct (unassign_all i p l n pc P Hl Hpc HP Hk Hlr) as (pc' & E & Hk' & Er & Eb & Elg & Eg & Ebusy).
  assert (Z.of_nat (length (less l (my_reqs P))) = nreqs_out P - Z.of_nat (length l)) as Ek.
  { rewrite length_less; try done; [|intros r Hr'; by apply elem_of_those in Hr' as [? _]].
    by rewrite (proj1 (po_reqs _ _ _ Hok)). }
  assert (0 < length l)%nat as Hpos by (destruct l; [done|cbn; lia]).
  destruct (drop_reqs_ok np seen P (less l (my_reqs P)) Hok) as (P' & EP' & Hok' & F1 & F2 & F3 & F4 & F5 & F6 & F7 & F8).
  { rewrite (proj1 (po_reqs _ _ _ Hok)) in Ek. lia. }
  rewrite Ek in EP'. exists (put i pc' p (with_reqs (less l (my_reqs P)) (nreqs_out P - Z.of_nat (length l)) P) n), pc', P'.
  split; [exact E|]. split; [|split; [|split; [by split|split]]].
  - rewrite put_pst. cbn [mbind option_bind nreqs_out with_reqs]. unfold on_peer. rewrite put_pst. cbn [mbind option_bind].
    destruct (_ =? 0); rewrite ?EP'; cbn [mbind option_bind]; [|by injection EP' as ->].
    f_equal. apply put_pst_again.
  - unfold put. rewrite <- (edit_row tp n i _ p _ (nk_shape _ _ _ Hn) Hi).
    apply (net_ok_edit tp W n i (row n i) pc _ p P); try done.
    + by apply (row_fits tp W).
    + by apply (log_ok_same n i pc); [apply (nk_log _ _ _ Hn)| |].
    + by exists seen.
    + split; rewrite ?F1, ?Er.
      * intros r Hr'. apply elem_of_less in Hr' as [Hr' _]. by left.
      * intros r E1 E2. rewrite !elem_of_less. by rewrite (reqs_match n i pc p P r Hr Hpc HP E1 E2).
      * intros r E1. rewrite elem_of_less. split; [tauto|]. intros Hr'. split; [done|]. intros Hr2.
        by apply elem_of_those in Hr2 as [_ ?].
      * intros r E1. rewrite elem_of_less. split; [tauto|]. intros Hr'. split; [done|]. intros Hr2.
        apply elem_of_those in Hr2 as [Hr2 _]. by apply E1, Hrp.
      * by apply NoDup_less.
  - rewrite F1. rewrite (proj1 (po_reqs _ _ _ Hok)) in Ek. lia.
  - unfold piece_full. apply Z.eqb_neq. rewrite Eg, Ebusy, Eb, (pk_got _ _ _ _ Hk), (pk_busy _ _ _ _ Hk).
    pose proof (disjoint_le _ _ _ (pk_disjoint _ _ _ _ Hk)). lia.
Qed.

Definition others_idle (Ex : nat -> Prop) (n : net) : Prop := forall q, q ∈ peers n -> ~ Ex q -> idle n q.

Lemma unassign_turn_ok Ex n p P :
  sound n -> pst n !! p = Some P -> away n p -> others_idle Ex n -> 0 < nreqs_out P ->
  exists n' P', unassign_turn tp p n = Some (inl n') /\ sound n' /\ kept n n' /\ others_idle Ex n' /\
    pst n' !! p = Some P' /\ (length (my_reqs P') < length (my_reqs P))%nat.
Proof.
  intros Hn HP Haway Hidle Hr0. destruct (proj1 (nk_peer _ _ _ Hn p P HP)) as [seen Hok].
  destruct (my_reqs P) as [|req rs] eqn:Ereqs.
  { pose proof (proj1 (po_reqs _ _ _ Hok)) as E. rewrite Ereqs in E. cbn in E. lia. }
  assert (req ∈ my_reqs P) as Hreq by (rewrite Ereqs; constructor). rewrite <- Ereqs.
  destruct (rk_peer _ (nk_reqs _ _ _ Hn) p P req HP Hreq) as (_ & _ & pc & Hpc & _). set (i := rq_index req) in *.
  assert (those i P <> []) as Hne.
  { intros E. assert (req ∈ those i P) as H by by apply elem_of_those. rewrite E in H. by apply not_elem_of_nil in H. }
  destruct (release_ok _ n p P i pc Hn HP Hpc Hne) as (n1 & pc' & P' & E1 & E2 & Hn2 & Hs & Hlen & Hfull').
  pose proof (kept_put_peer n i pc' p P P' HP Hs) as Hk2. pose proof (away_kept _ _ _ Hk2 Haway) as Haway2.
  unfold unassign_turn. rewrite HP. cbn [mbind option_bind]. rewrite (proj2 (Z.gtb_lt _ _)) by done.
  rewrite Ereqs. cbn [head mbind option_bind]. rewrite <- Ereqs. unfold dl_find_piece. fold i.
  rewrite bool_decide_true by (apply (proj2 (sh_getlst _ _ (nk_shape _ _ _ Hn))); by eexists).
  rewrite Hpc. cbn [mbind option_bind]. fold (those i P). rewrite E1. cbn [mbind option_bind].
  destruct (pst n1 !! p) as [P1|] eqn:HP1; [|done]. cbn [mbind option_bind] in E2 |- *. rewrite E2. cbn [mbind option_bind].
  rewrite put_pcs. cbn [mbind option_bind]. rewrite Hfull'. cbn [negb]. rewrite andb_true_r.
  destruct (piece_range tp Htp _ n i Hn ltac:(by eexists)) as (Hi & Hcm & _).
  assert (forall q, q <> p -> pst (put i pc' p P' n) !! q = pst n !! q) as Hother by (intros; cbn; by rewrite lookup_insert_ne).
  destruct (piece_full pc) eqn:Efull.
  - assert (wanted n i = false) as Hw by by rewrite (wanted_busy n i pc), Efull.
    destruct (dl_on_piece_unfull_ok Ex i (put i pc' p P' n) pc') as (n' & E & Hn' & Hs' & Hi' & Hst'); try done.
    + eapply net_ok_ext; [|exact Hn2]. intros q j _ _. cbn beta. destruct (Nat.eqb_spec j i) as [->|Hj].
      * rewrite Hw. cbn [negb andb]. by rewrite andb_false_r.
      * rewrite wanted_put_ne by done. by rewrite andb_true_r.
    + apply put_pcs.
    + intros q Hq Hx Q j HQ Hop Hj Hji Ho. rewrite wanted_put_ne by done. destruct (decide (q = p)) as [->|Hqp].
      * apply away_aside in Haway2 as [?|Ha]; [done|]. exfalso. by apply (Ha Q).
      * rewrite Hother in HQ by done. by apply (idle_idle_but i n q Hn Hq (Hidle q Hq Hx) Q).
    + destruct (Hst' p P' (put_pst _ _ _ _ _) (away_aside _ _ Haway2)) as (P2 & HP2 & Hst).
      exists n', P2. cbn [mbind option_bind]. rewrite E. cbn [mbind option_bind]. split_and!; try done.
      * etransitivity; [exact Hk2|]. by apply served_kept.
      * intros q. rewrite (sv_peers _ _ Hs'). apply Hi'.
      * destruct Hst as [_ _ _ [-> _] _]. done.
  - assert (wanted n i = true) as Hw by by rewrite (wanted_busy n i pc), Efull.
    assert (sound (put i pc' p P' n)) as Hsd.
    { eapply net_ok_ext; [|exact Hn2]. intros q j _ _. cbn beta. destruct (decide (j = i)) as [->|Hj].
      - rewrite Hw. rewrite (wanted_busy (put _ _ _ _ _) i pc') by (done || apply put_pcs). by rewrite Hfull'.
      - by rewrite wanted_put_ne. }
    exists (put i pc' p P' n), P'. split_and!; try done; [|apply put_pst].
    intros q Hq Hx. destruct (decide (q = p)) as [->|Hqp]; [apply aside_idle; try done; by apply away_aside|].
    intros Q HQ. rewrite Hother in HQ by done. by apply (Hidle q Hq Hx).
Qed.

Lemma dl_unassign_requests_ok Ex n p P :
  sound n -> pst n !! p = Some P -> away n p -> others_idle Ex n ->
  exists n' P', dl_unassign_requests tp p n = Some n' /\ sound n' /\ kept n n' /\ others_idle Ex n' /\
    pst n' !! p = Some P' /\ my_reqs P' = [].
Proof.
  intros Hn HP Ha Hi. unfold dl_unassign_requests. rewrite HP. cbn [mbind option_bind].
  destruct (cloop_total (fun s => exists Q, sound s /\ kept n s /\ others_idle Ex s /\ pst s !! p = Some Q)
    (fun s => match pst s !! p with Some Q => length (my_reqs Q) | None => 0%nat end)
    (fun s => exists Q, sound s /\ kept n s /\ others_idle Ex s /\ pst s !! p = Some Q /\ my_reqs Q = [])
    (unassign_turn tp p)) with (fuel := S (length (my_reqs P))) (s := n) as (n' & E & Q & ? & ? & ? & ? & ?).
  - intros s (Q & Hs & Hk & His & HQ). pose proof (away_kept _ _ _ Hk Ha) as Has.
    destruct (Z.gtb_spec (nreqs_out Q) 0) as [H0|H0].
    + destruct (unassign_turn_ok Ex s p Q Hs HQ Has His ltac:(lia)) as (s' & Q' & -> & ? & ? & ? & HQ' & ?). cbn [turn].
      rewrite HQ', HQ. split; [|done]. exists Q'. split_and!; try done. by etransitivity.
    + destruct (proj1 (nk_peer _ _ _ Hs p Q HQ)) as [seen Hok]. pose proof (proj1 (po_reqs _ _ _ Hok)) as El.
      assert (my_reqs Q = []) as E by (destruct (my_reqs Q); [done|cbn in El; lia]).
      unfold unassign_turn. rewrite HQ. cbn [mbind option_bind].
      destruct (Z.gtb_spec (nreqs_out Q) 0); [lia|]. rewrite bool_decide_true by done. cbn [ensure mbind option_bind turn].
      by exists Q.
  - by exists P.
  - rewrite HP. lia.
  - by exists n', Q.
Qed.
End Release.
