(* ===== verification/BtHave.v ===== *)
(** What the peers of the BitTorrent daemon announce: HAVE and BITFIELD, and the
    tables that count the announcements. *)
From S2P Require Import Prelude Bitfield BtPeer BtNet BtInv BtAssign BtChoice BtStart BtRelease.
Local Open Scope Z_scope.

#[local] Arguments count_bits : simpl never.
#[local] Arguments bit : simpl never.

(** Those of a list for which a test holds. *)
Fixpoint tally (f : nat -> bool) (l : list nat) : Z :=
  match l with [] => 0 | q :: l => (if f q then 1 else 0) + tally f l end.

Lemma tally_range f l : 0 <= tally f l <= Z.of_nat (length l).
Proof. induction l as [|q l IH]; cbn; [lia|]. destruct (f q); lia. Qed.

Lemma tally_ext f g l : (forall q, q ∈ l -> f q = g q) -> tally f l = tally g l.
Proof.
  induction l as [|q l IH]; intros H; [done|]. cbn. rewrite (H q), IH by (constructor || (intros; apply H; by constructor)). done.
Qed.

Lemma tally_flip f g l p : NoDup l -> p ∈ l -> f p = false -> g p = true -> (forall q, q ∈ l -> q <> p -> g q = f q) ->
  tally g l = tally f l + 1.
Proof.
  induction l as [|q l IH]; intros Hl Hp Hf Hg H; [by apply not_elem_of_nil in Hp|]. apply NoDup_cons in Hl as [Hq Hl]. cbn.
  destruct (decide (q = p)) as [->|Hne].
  - rewrite Hf, Hg. rewrite (tally_ext g f); [lia|]. intros r Hr. apply H; [by constructor|]. by intros ->.
  - apply elem_of_cons in Hp as [?|Hp]; [congruence|]. rewrite (H q), IH; try done; [lia| |constructor].
    intros r Hr. apply H. by constructor.
Qed.

Section Have.
Context (tp : torrent).
Local Notation np := (tp_npieces tp).
Hypothesis Htp : torrent_ok tp.
Local Notation books := (books tp).
Local Notation sound := (sound tp).

(** Peer [q] has piece [i], by what it said. *)
Definition has_it (n : net) (q i : nat) : bool :=
  match pst n !! q with Some Q => bit (piece_field Q) i | None => false end.

(** The pieces of each peer and the peers of each piece are counted, as far as [A]
    announces them. *)
Record counts (A : nat -> nat -> bool) (n : net) : Prop := Counts {
  ct_peer : forall q Q, q ∈ peers n -> pst n !! q = Some Q ->
    npieces Q = Z.of_nat (count_bits (fun j => bit (piece_field Q) j && A q j) np);
  ct_supply : forall i, (i < np)%nat -> supply n i = tally (fun q => has_it n q i && A q i) (peers n);
  ct_few : Z.of_nat (length (peers n)) < 2 ^ 32
}.

Definition all_idle (n : net) : Prop := forall q, q ∈ peers n -> idle n q.

Lemma kept_has n n' q i : kept n n' -> has_it n' q i = has_it n q i.
Proof.
  intros Hk. unfold has_it. pose proof (kp_pst _ _ Hk q) as H. inversion H as [P P' Hs|]; [|done].
  by rewrite (proj1 (sm_field _ _ Hs)).
Qed.

Lemma counts_kept A n n' : kept n n' -> counts A n -> counts A n'.
Proof.
  intros Hk [C1 C2 C3]. split.
  - intros q Q' Hq HQ'. rewrite (kp_peers _ _ Hk) in Hq. pose proof (kp_pst _ _ Hk q) as H. rewrite HQ' in H.
    inversion H as [Q Q0 Hs E1 E2|]. destruct (sm_field _ _ Hs) as [-> ->]. by apply C1.
  - intros i Hi. unfold supply. rewrite (kp_count _ _ Hk), (kp_peers _ _ Hk). fold (supply n i). rewrite C2 by done.
    apply tally_ext. intros q _. by rewrite (kept_has n n').
  - by rewrite (kp_peers _ _ Hk).
Qed.

Lemma books_count W l n : length l = np -> net_ok tp W n -> net_ok tp W (with_count l n).
Proof.
  intros Hl [[] H2 H3 H4 H5 H6 []]. split; try done. intros i pc Hpc. apply (log_ok_pst n); [done|]. by apply H3.
Qed.

Lemma find_piece_none W n i : net_ok tp W n -> pcs n !! i = None -> dl_find_piece n i = None.
Proof.
  intros Hn E. unfold dl_find_piece. rewrite bool_decide_false; [done|].
  rewrite (proj2 (sh_getlst _ _ (nk_shape _ _ _ Hn))), E. by intros [? ?].
Qed.

Lemma find_piece_some W n i pc : net_ok tp W n -> pcs n !! i = Some pc -> dl_find_piece n i = Some (i, pc).
Proof.
  intros Hn E. unfold dl_find_piece. rewrite bool_decide_true; [by rewrite E|].
  rewrite (proj2 (sh_getlst _ _ (nk_shape _ _ _ Hn))), E. by eexists.
Qed.

(** A peer that is asked for a piece it has just announced. *)
Lemma idle_after A n n1 n2 p i pc2 P2 :
  books A n -> books (upd A p i true) n2 -> p ∈ peers n -> idle n p -> served n n1 -> served n1 n2 ->
  pcs n2 !! i = Some pc2 -> pst n2 !! p = Some P2 -> (piece_full pc2 = true \/ peer_laden P2 = true) -> idle n2 p.
Proof.
  intros Hn Hn2 Hp Hi Hs1 Hs2 Hpc2 HP2 Hend Q HQ. rewrite HP2 in HQ. injection HQ as <-.
  assert (served n n2) as Hs by by etransitivity. pose proof (sv_pst _ _ Hs p) as H. rewrite HP2 in H.
  inversion H as [P P0 Hf E1 E2|]. subst P0. symmetry in E1.
  destruct (peer_leech_ok P2) eqn:E; [|done]. rewrite <- (Hi P E1). symmetry. apply (leech_iff tp _ n p P Hn Hp E1).
  apply (leech_iff tp _ n2 p P2 Hn2) in E as (Hop & j & Hj & Ho & Hw); [|by rewrite (sv_peers _ _ Hs)|done].
  apply andb_true_iff in Hw as [Hw1 Hw2]. split; [by apply (open_fed P P2)|]. exists j. split; [done|].
  rewrite <- (offers_fed _ _ _ Hf). split; [done|]. unfold upd in Hw1. case_decide as Hd.
  - destruct Hd as [_ ->]. destruct Hend as [Hend|Hend].
    + unfold wanted in Hw2. by rewrite Hpc2, Hend, andb_false_r in Hw2.
    + destruct Hop as (_ & _ & Hr). unfold peer_laden in Hend. lia.
  - by rewrite Hw1, (sv_wanted _ _ Hs j Hw2).
Qed.

Lemma upd_true A p i q j : A q j = true -> upd A p i true q j = true.
Proof. intros H. unfold upd. by case_decide. Qed.

Lemma idle_stays A n n' p i q : books A n -> books (upd A p i true) n' -> served n n' -> q ∈ peers n -> q <> p -> idle n q -> idle n' q.
Proof.
  intros Hn Hn' Hs Hq Hne Hi. apply (served_idle tp A (upd A p i true) n n'); try done.
  intros j Hj. unfold upd in Hj. case_decide as Hd; [by destruct Hd|done].
Qed.

(** A new piece of a peer, once it is in the tables. *)
Lemma piece_ann_rest A n p i :
  books A n -> p ∈ peers n -> (i < np)%nat -> A p i = false -> (forall q, q ∈ peers n -> q <> p -> A q i = true) -> all_idle n ->
  exists n', (h ← cm_has_piece n i;
    if h : bool then Some n
    else
      match dl_find_piece n i with
      | None =>
          n ← on_peer (peer_want i) p n;
          P ← pst n !! p;
          if peer_leech_ok P then n ← dl_new_piece tp i n; dl_piece_assign_requests tp i p n else Some n
      | Some (_, pc) =>
          if piece_full pc then Some n
          else
            n ← on_peer (peer_want i) p n;
            P ← pst n !! p;
            if peer_leech_ok P then dl_piece_assign_requests tp i p n else Some n
      end) = Some n' /\ books (upd A p i true) n' /\ served n n' /\ all_idle n'.
Proof.
  intros Hn Hp Hi HA HA' Hidle. unfold cm_has_piece.
  rewrite (has_bit_ok _ np) by (done || apply fits_bytes, (sh_cm _ _ (nk_shape _ _ _ Hn))). cbn [mbind option_bind].
  assert (wanted n i = false -> books (upd A p i true) n) as Hskip.
  { intros Hw. eapply net_ok_ext; [|exact Hn]. intros q j _ _. cbn beta. unfold upd. case_decide as Hd; [|done].
    destruct Hd as [-> ->]. by rewrite Hw, !andb_false_r. }
  destruct (bit (cm_field n) i) eqn:Ecm.
  { exists n. split_and!; try done. apply Hskip. unfold wanted. by rewrite Ecm. }
  assert (wanted n i = true -> exists m P, on_peer (peer_want i) p n = Some (with_pst m n) /\ m !! p = Some P /\
    books (upd A p i true) (with_pst m n) /\ served n (with_pst m n) /\
    (forall q, q ∈ peers n -> q <> p -> idle (with_pst m n) q) /\
    (peer_leech_ok P = true -> offers P i = true /\ peer_laden P = false)) as Hwant.
  { intros Hw. destruct (change_want_ok tp Htp _ n p i true Hn Hp Hi) as (m & E & Hm & Hs); [by rewrite HA|].
    assert (books (upd A p i true) (with_pst m n)) as Hm'.
    { eapply net_ok_ext; [|exact Hm]. intros q j _ _. cbn beta. unfold upd. rewrite wanted_with_pst. case_decide as Hd; [|done].
      destruct Hd as [-> ->]. by rewrite Hw. }
    pose proof (served_stable _ _ Hs) as Hsv. destruct (proj2 (nk_peers _ _ _ Hn) p Hp) as [P0 HP0].
    destruct (stable_lookup _ _ p P0 Hs HP0) as (P & HP & Hst). exists m, P. split_and!; try done.
    - intros q Hq Hne. apply (idle_stays A n _ p i); auto.
    - intros El. apply (leech_iff tp _ (with_pst m n) p P Hm' Hp HP) in El as (Hop & j & Hj & Ho & Hwj).
      split; [|destruct Hop as (_ & _ & ?); unfold peer_laden; lia].
      apply andb_true_iff in Hwj as [Hw1 Hw2]. unfold upd in Hw1. case_decide as Hd; [by destruct Hd as [_ ->]|].
      exfalso. assert (peer_leech_ok P0 = true) as E'; [|by rewrite (Hidle p Hp P0 HP0) in E'].
      apply (leech_iff tp _ n p P0 Hn Hp HP0). split; [apply (open_fed P0 P), Hop; by apply stable_fed|].
      exists j. rewrite <- (stable_offers P0 P) by done. split; [done|]. split; [done|]. by rewrite Hw1. }
  assert (forall q, q ∈ peers n -> upd A p i true q i = true) as HAll.
  { intros q Hq. unfold upd. case_decide as Hd; [done|]. apply HA'; [done|]. intros ->. by apply Hd. }
  destruct (pcs n !! i) as [pc|] eqn:Epc.
  - rewrite (find_piece_some _ n i pc Hn Epc). pose proof (wanted_busy n i pc Epc Ecm) as Hwi. destruct (piece_full pc) eqn:Efull.
    { exists n. split_and!; try done. by apply Hskip. }
    destruct (Hwant Hwi) as (m & P & -> & HP & Hm & Hs & Hoth & Hleech). cbn [mbind option_bind pst with_pst with_peers]. rewrite HP.
    cbn [mbind option_bind]. destruct (peer_leech_ok P) eqn:El.
    + destruct (Hleech eq_refl) as [Ho Hl].
      destruct (dl_piece_assign_requests_ok tp Htp _ (with_pst m n) i pc p P Hm) as (n2 & pc2 & P2 & E2 & Hn2 & Hs2 & G2 & Hpc2 & HP2 & Hend & _); try done.
      exists n2. split_and!; try done; [by etransitivity|]. intros q Hq. rewrite (sv_peers _ _ Hs2) in Hq.
      destruct (decide (q = p)) as [->|Hne]; [by apply (idle_after A n (with_pst m n) n2 p i pc2 P2); auto|].
      apply (idle_stays A n n2 p i); try done; [by etransitivity|by apply Hidle].
    + exists (with_pst m n). split_and!; try done. intros q Hq. destruct (decide (q = p)) as [->|Hne]; [|by apply Hoth].
      intros Q HQ. cbn in HQ. by simplify_eq.
  - rewrite (find_piece_none _ n i Hn Epc). assert (wanted n i = true) as Hwi by (unfold wanted; by rewrite Epc, Ecm).
    destruct (Hwant Hwi) as (m & P & -> & HP & Hm & Hs & Hoth & Hleech). cbn [mbind option_bind pst with_pst with_peers]. rewrite HP.
    cbn [mbind option_bind]. destruct (peer_leech_ok P) eqn:El.
    + destruct (Hleech eq_refl) as [Ho Hl]. unfold dl_new_piece.
      destruct (piece_alloc_ok tp Htp _ (with_pst m n) i Hm Hi Ecm Epc) as (pc & n1 & E1 & Hn1 & Hs1 & G1 & Epcs & Epst & Hfull & _).
      rewrite E1. cbn [mbind option_bind].
      destruct (dl_piece_assign_requests_ok tp Htp _ n1 i pc p P Hn1) as (n2 & pc2 & P2 & E2 & Hn2 & Hs2 & G2 & Hpc2 & HP2 & Hend & _); try done.
      { by rewrite (sv_peers _ _ Hs1). } { by rewrite (sv_peers _ _ Hs1). } { by rewrite Epcs, lookup_insert_eq. } { by rewrite Epst. }
      assert (served n n1) as Hs01 by by etransitivity.
      exists n2. split_and!; try done; [by etransitivity|]. intros q Hq. rewrite (sv_peers _ _ Hs2), (sv_peers _ _ Hs01) in Hq.
      destruct (decide (q = p)) as [->|Hne]; [by apply (idle_after A n n1 n2 p i pc2 P2); auto|].
      apply (idle_stays A n n2 p i); try done; [by etransitivity|by apply Hidle].
    + exists (with_pst m n). split_and!; try done. intros q Hq. destruct (decide (q = p)) as [->|Hne]; [|by apply Hoth].
      intros Q HQ. cbn in HQ. by simplify_eq.
Qed.
(** ** One announcement *)

Lemma peer_ok_pieces seen P f k : peer_ok np seen P -> length f = field_bytes np -> peer_ok np seen (with_pieces f k P).
Proof. intros [H1 H2 [Q1 Q2 Q3 Q4] H4 H5 H6 H7 H8 H9 H10] Hf. by split. Qed.

(** A new field for a peer that has no request for what it loses. *)
Lemma net_ok_pieces W W' n p P f k :
  net_ok tp W n -> pst n !! p = Some P -> length f = field_bytes np ->
  (forall i, (i < np)%nat -> bit (piece_field P) i = true -> bit f i = true) ->
  (forall q, q <> p -> forall i, W' q i = W q i) ->
  (forall i, (i < np)%nat -> bit f i && W' p i = bit (piece_field P) i && W p i) ->
  net_ok tp W' (with_pst (<[p := with_pieces f k P]> (pst n)) n).
Proof.
  intros Hn HP Hf Hb HW HW'. destruct (nk_peer _ _ _ Hn p P HP) as [[seen Hok] Hsus].
  apply (net_ok_peer tp W W' n p P); try done.
  - exists seen. by apply peer_ok_pieces.
  - intros i Ho Hi. apply (sh_pcs _ _ (nk_shape _ _ _ Hn)) in Hi as [Hi _]. unfold offers in *. cbn.
    apply andb_true_iff in Ho as [Ho1 Ho2]. rewrite (Hb i Hi Ho1). exact Ho2.
  - intros Hp. cbn. rewrite (nk_want _ _ _ Hn p P Hp HP). f_equal. apply count_bits_ext. intros i Hi.
    specialize (HW' i Hi). unfold offers, bad_bit. cbn. destruct (bad_field P) as [b|]; [destruct (bit b i)|]; cbn [negb].
    + by rewrite !andb_false_r.
    + by rewrite !andb_true_r.
    + by rewrite !andb_true_r.
Qed.

(** The fields of the peers are the same. *)
Definition same_fields (n n' : net) : Prop :=
  peers n' = peers n /\ forall q, piece_field <$> pst n' !! q = piece_field <$> pst n !! q.

Lemma same_fields_has n n' q i : same_fields n n' -> has_it n' q i = has_it n q i.
Proof. intros [_ H]. specialize (H q). unfold has_it. destruct (pst n !! q), (pst n' !! q); cbn in H; congruence. Qed.

Lemma same_fields_pst n n' q Q : same_fields n n' -> pst n !! q = Some Q -> exists Q', pst n' !! q = Some Q' /\ piece_field Q' = piece_field Q.
Proof. intros [_ H] HQ. specialize (H q). rewrite HQ in H. destruct (pst n' !! q) as [Q'|]; [|done]. exists Q'. cbn in H. split; [done|congruence]. Qed.

Lemma served_fields n n' : served n n' -> same_fields n n'.
Proof.
  intros Hs. split; [apply Hs|]. intros q. pose proof (sv_pst _ _ Hs q) as H. inversion H as [P P' Hf|]; [|done].
  cbn. by rewrite (proj1 (fd_field _ _ Hf)).
Qed.

Lemma announce_ok A n p i :
  books A n -> counts A n -> all_idle n -> p ∈ peers n -> (i < np)%nat -> has_it n p i = true ->
  A p i = false -> (forall q, q ∈ peers n -> q <> p -> A q i = true) ->
  exists n', announce tp p i n = Some n' /\ books (upd A p i true) n' /\ counts (upd A p i true) n' /\ all_idle n' /\
    same_fields n n'.
Proof.
  intros Hn Hc Hidle Hp Hi Hhas HA HA'. destruct (proj2 (nk_peers _ _ _ Hn) p Hp) as [P HP].
  unfold has_it in Hhas. rewrite HP in Hhas. set (P1 := with_pieces (piece_field P) (npieces P + 1) P).
  set (n1 := with_pst (<[p := P1]> (pst n)) n).
  assert (on_peer (fun P => Some (with_pieces (piece_field P) (npieces P + 1) P)) p n = Some n1) as E1 by (unfold on_peer; by rewrite HP).
  pose proof (nk_peer _ _ _ Hn p P HP) as [[seen Hok] _].
  assert (books A n1) as Hn1 by (eapply (net_ok_pieces _ _ n p P); try done; apply (po_field _ _ _ Hok)).
  assert (aread (piece_count n) i = Some (supply n i)) as Esup by (by apply (supply_ok tp n (nk_shape _ _ _ Hn))).
  set (l := <[i := supply n i + 1]> (piece_count n)).
  assert (length l = np) as Hl by (unfold l; rewrite length_insert; apply (sh_count _ _ (nk_shape _ _ _ Hn))).
  assert (supply n i = tally (fun q => has_it n q i && A q i) (peers n)) as Et by by apply (ct_supply _ _ Hc).
  assert (tally (fun q => has_it n q i && upd A p i true q i) (peers n) = supply n i + 1) as Et1.
  { rewrite Et. apply (tally_flip _ _ _ p); [apply (nk_peers _ _ _ Hn)|done| | |].
    - by rewrite HA, andb_false_r.
    - unfold has_it. rewrite HP, Hhas. unfold upd. by case_decide; [|tauto].
    - intros q _ Hne. unfold upd. case_decide as Hd; [by destruct Hd|done]. }
  assert (u32 (supply n i + 1) = supply n i + 1) as Eu.
  { apply wrap_small. pose proof (tally_range (fun q => has_it n q i && upd A p i true q i) (peers n)).
    pose proof (tally_range (fun q => has_it n q i && A q i) (peers n)). pose proof (ct_few _ _ Hc). lia. }
  pose proof (books_count _ l n1 Hl Hn1) as Hn2. set (n2 := with_count l n1) in *.
  assert (all_idle n2) as Hidle2.
  { intros q Hq Q HQ. cbn in Hq, HQ. apply lookup_insert_Some in HQ as [[<- <-]|[_ HQ]]; [|by apply (Hidle q Hq)].
    specialize (Hidle p Hp P HP). exact Hidle. }
  destruct (piece_ann_rest A n2 p i Hn2 Hp Hi HA HA' Hidle2) as (n' & E & Hn' & Hs & Hi').
  exists n'. split; [|split; [done|split; [|split; [done|]]]].
  - unfold announce. rewrite E1. cbn [mbind option_bind]. unfold dl_on_piece_ann. cbn [piece_count n1 with_pst with_peers].
    rewrite Esup. cbn [mbind option_bind]. rewrite Eu, awrite_ok by (by rewrite (sh_count _ _ (nk_shape _ _ _ Hn))). exact E.
  - apply (counts_kept _ n2); [by apply served_kept|]. destruct Hc as [C1 C2 C3]. split.
    + intros q Q Hq HQ. cbn in Hq, HQ. apply lookup_insert_Some in HQ as [[<- <-]|[Hne HQ]].
      * cbn. rewrite (C1 p P Hq HP). rewrite (count_bits_flip (fun j => bit (piece_field P) j && A p j)
          (fun j => bit (piece_field P) j && upd A p i true p j) np i); [lia|done| | |].
        -- by rewrite HA, andb_false_r.
        -- rewrite Hhas. unfold upd. by case_decide; [|tauto].
        -- intros j _ Hj. unfold upd. case_decide as Hd; [by destruct Hd|done].
      * rewrite (C1 q Q Hq HQ). f_equal. apply count_bits_ext. intros j _. unfold upd. case_decide as Hd; [by destruct Hd|done].
    + intros j Hj. assert (forall q, has_it n2 q j = has_it n q j) as Hh.
      { intros q. unfold has_it. cbn. destruct (decide (q = p)) as [->|Hne]; [by rewrite lookup_insert_eq, HP|by rewrite lookup_insert_ne]. }
      assert (tally (fun q => has_it n2 q j && upd A p i true q j) (peers n2) = tally (fun q => has_it n q j && upd A p i true q j) (peers n)) as ->
        by (apply tally_ext; intros q _; by rewrite Hh).
      unfold supply. cbn [piece_count n2 with_count]. destruct (decide (j = i)) as [->|Hne].
      * rewrite Et1. unfold l. rewrite nth_lookup, list_lookup_insert_eq; [done|]. by rewrite (sh_count _ _ (nk_shape _ _ _ Hn)).
      * unfold l. rewrite nth_lookup, list_lookup_insert_ne, <- nth_lookup by done. fold (supply n j). rewrite C2 by done.
        apply tally_ext. intros q _. unfold upd. case_decide as Hd; [by destruct Hd|done].
    + done.
  - assert (same_fields n n2) as [F1 F2].
    { split; [done|]. intros q. cbn. destruct (decide (q = p)) as [->|Hne]; [by rewrite lookup_insert_eq, HP|by rewrite lookup_insert_ne]. }
    destruct (served_fields _ _ Hs) as [G1 G2]. split; [congruence|]. intros q. by rewrite G2.
Qed.
(** ** The messages *)

(** The state between two events: the invariant, the tables, and nobody to ask. *)
Definition all (q j : nat) : bool := true.
Record in_order (n : net) : Prop := InOrder {
  io_sound : sound n;
  io_counts : counts all n;
  io_idle : all_idle n
}.

Lemma books_mask A A' n :
  (forall q Q j, q ∈ peers n -> pst n !! q = Some Q -> bit (piece_field Q) j = true -> (j < np)%nat -> A q j = A' q j) ->
  books A n -> books A' n.
Proof.
  intros HA [H1 H2 H3 H4 H5 H6 H7]. split; try done. intros q Q Hq HQ. rewrite (H6 q Q Hq HQ). f_equal.
  apply count_bits_ext. intros j Hj. unfold offers. destruct (bit (piece_field Q) j) eqn:E; [|done]. by rewrite (HA q Q j).
Qed.

Lemma counts_mask A A' n : (forall q, q ∈ peers n -> is_Some (pst n !! q)) ->
  (forall q Q j, q ∈ peers n -> pst n !! q = Some Q -> bit (piece_field Q) j = true -> (j < np)%nat -> A q j = A' q j) ->
  counts A n -> counts A' n.
Proof.
  intros Hin HA [C1 C2 C3]. split; [| |done].
  - intros q Q Hq HQ. rewrite (C1 q Q Hq HQ). f_equal. apply count_bits_ext. intros j Hj.
    destruct (bit (piece_field Q) j) eqn:E; [|done]. cbn. by apply (HA q Q j).
  - intros i Hi. rewrite C2 by done. apply tally_ext. intros q Hq. unfold has_it. destruct (Hin q Hq) as [Q HQ]. rewrite HQ.
    destruct (bit (piece_field Q) i) eqn:E; [|done]. cbn. by apply (HA q Q i).
Qed.

(** The field of a peer is written, and nothing of it announced. *)
Lemma fresh_field A n p P f :
  sound n -> counts all n -> all_idle n -> p ∈ peers n -> pst n !! p = Some P -> length f = field_bytes np ->
  (forall j, (j < np)%nat -> bit (piece_field P) j = true -> bit f j = true) ->
  (forall j, (j < np)%nat -> bit f j && A p j = bit (piece_field P) j) -> (forall q j, q <> p -> A q j = true) ->
  let n' := with_pst (<[p := with_pieces f (npieces P) P]> (pst n)) n in
  books A n' /\ counts A n' /\ all_idle n'.
Proof.
  intros Hn Hc Hidle Hp HP Hf Hb HA HA' n'.
  assert (counts A n') as Hc'.
  { destruct Hc as [C1 C2 C3]. split; [| |done].
    - intros q Q Hq HQ. cbn in Hq, HQ. apply lookup_insert_Some in HQ as [[<- <-]|[Hne HQ]].
      + cbn. rewrite (C1 p P Hq HP). f_equal. apply count_bits_ext. intros j Hj. by rewrite HA, andb_true_r.
      + rewrite (C1 q Q Hq HQ). f_equal. apply count_bits_ext. intros j _. by rewrite HA'.
    - intros i Hi. change (supply n' i) with (supply n i). rewrite C2 by done. apply tally_ext. intros q Hq. unfold has_it. cbn.
      destruct (decide (q = p)) as [->|Hne].
      + rewrite lookup_insert_eq, HP. cbn. rewrite HA by done. by rewrite andb_true_r.
      + rewrite lookup_insert_ne by done. by rewrite HA'. }
  split; [|split; [exact Hc'|]].
  - apply (net_ok_pieces (fun _ j => true && wanted n j) _ n p P f); try done.
    + intros q Hq i. by rewrite HA'.
    + intros i Hi. cbn. rewrite <- (HA i Hi). by rewrite andb_assoc.
  - intros q Hq Q HQ. cbn in Hq, HQ. apply lookup_insert_Some in HQ as [[<- <-]|[_ HQ]]; [|by apply (Hidle q Hq)].
    exact (Hidle p Hp P HP).
Qed.

Lemma peer_on_have_ok n p i :
  in_order n -> p ∈ peers n -> (i < np)%nat ->
  exists n', peer_on_have tp p i n = Some n' /\ in_order n' /\ peers n' = peers n /\
    forall q j, has_it n' q j = has_it n q j || bool_decide (q = p /\ j = i).
Proof.
  intros [Hn Hc Hidle] Hp Hi. destruct (proj2 (nk_peers _ _ _ Hn) p Hp) as [P HP]. unfold peer_on_have. rewrite HP. cbn [mbind option_bind].
  pose proof (nk_peer _ _ _ Hn p P HP) as [[seen Hok] _]. pose proof (fits_bytes _ _ (po_field _ _ _ Hok)) as Hfit.
  rewrite (has_bit_ok _ np) by done. cbn [mbind option_bind]. destruct (bit (piece_field P) i) eqn:Eb.
  { exists n. split_and!; try done. intros q j. case_bool_decide as Hd; [|by rewrite orb_false_r].
    destruct Hd as [-> ->]. unfold has_it. by rewrite HP, Eb. }
  destruct (set_bit_ok (piece_field P) np i Hfit Hi) as (f & -> & Hlf & Hf). cbn [mbind option_bind].
  assert (length f = field_bytes np) as Hlen by (rewrite Hlf; apply (po_field _ _ _ Hok)).
  set (n1 := with_pst _ n).
  destruct (fresh_field (upd all p i false) n p P f Hn Hc Hidle Hp HP Hlen) as (Hn1 & Hc1 & Hi1).
  { intros j _ Hj. rewrite Hf. by case_decide. }
  { intros j Hj. rewrite Hf. unfold upd. case_decide as Hd; [subst j; rewrite decide_True by done; by rewrite Eb|].
    rewrite decide_False by (by intros [_ ?]). by rewrite andb_true_r. }
  { intros q j Hq. unfold upd. case_decide as Hd; [by destruct Hd|done]. }
  fold n1 in Hn1, Hc1, Hi1.
  assert (forall q j, has_it n1 q j = has_it n q j || bool_decide (q = p /\ j = i)) as Hhas.
  { intros q j. unfold has_it. cbn. destruct (decide (q = p)) as [->|Hne].
    - rewrite lookup_insert_eq, HP. cbn. rewrite Hf. case_decide as Hd; case_bool_decide as Hd'; [by rewrite orb_true_r|tauto|tauto|by rewrite orb_false_r].
    - rewrite lookup_insert_ne by done. rewrite bool_decide_false by tauto. by rewrite orb_false_r. }
  destruct (announce_ok (upd all p i false) n1 p i Hn1 Hc1 Hi1 Hp Hi) as (n' & -> & Hn' & Hc' & Hi' & [F1 F2]).
  { rewrite Hhas. by rewrite bool_decide_true, orb_true_r. } { unfold upd. by case_decide; [|tauto]. }
  { intros q _ Hq. unfold upd. case_decide as Hd; [by destruct Hd|done]. }
  assert (forall q j, upd (upd all p i false) p i true q j = true) as HA by (intros; unfold upd, all; by repeat case_decide).
  exists n'. split; [done|]. split; [split|split].
  - eapply books_mask; [|exact Hn']. intros. apply HA.
  - eapply counts_mask; [apply (nk_peers _ _ _ Hn')| |exact Hc']. intros. apply HA.
  - done.
  - by rewrite F1.
  - intros q j. rewrite <- Hhas. apply same_fields_has. by split.
Qed.

(** The bitfield is announced a piece at a time. *)
Definition upto (p k : nat) (q j : nat) : bool := negb (q =? p)%nat || (j <? k)%nat.

Lemma bitfield_loop p m : forall k n, (k + m)%nat = np ->
  books (upto p k) n -> counts (upto p k) n -> all_idle n -> p ∈ peers n ->
  exists n', foreach (seq k m) (fun i n =>
      P ← pst n !! p; h ← has_bit (piece_field P) i; if h : bool then announce tp p i n else Some n) n = Some n' /\
    books (upto p np) n' /\ counts (upto p np) n' /\ all_idle n' /\ same_fields n n'.
Proof.
  induction m as [|m IH]; intros k n Hk Hn Hc Hidle Hp.
  - exists n. rewrite Nat.add_0_r in Hk. subst k. by split_and!.
  - cbn [seq]. rewrite foreach_cons. destruct (proj2 (nk_peers _ _ _ Hn) p Hp) as [P HP]. rewrite HP. cbn [mbind option_bind].
    pose proof (nk_peer _ _ _ Hn p P HP) as [[seen Hok] _].
    rewrite (has_bit_ok _ np) by (lia || apply fits_bytes, (po_field _ _ _ Hok)). cbn [mbind option_bind].
    assert (forall q j, upd (upto p k) p k true q j = upto p (S k) q j) as HA.
    { intros q j. unfold upd, upto. case_decide as Hd.
      - destruct Hd as [-> ->]. rewrite Nat.eqb_refl. cbn [negb orb]. symmetry. apply Nat.ltb_lt. lia.
      - destruct (Nat.eqb_spec q p) as [->|]; [|done]. cbn [negb orb]. apply Bool.eq_iff_eq_true. rewrite !Nat.ltb_lt. assert (j <> k) by (intros ->; by apply Hd). lia. }
    destruct (bit (piece_field P) k) eqn:Eb.
    + destruct (announce_ok (upto p k) n p k Hn Hc Hidle Hp) as (n1 & -> & Hn1 & Hc1 & Hi1 & [F1 F2]).
      { lia. } { unfold has_it. by rewrite HP. } { unfold upto. by rewrite Nat.eqb_refl, Nat.ltb_irrefl. }
      { intros q _ Hq. unfold upto. by rewrite (proj2 (Nat.eqb_neq _ _) Hq). }
      cbn [mbind option_bind]. destruct (IH (S k) n1) as (n' & E & ? & ? & ? & [G1 G2]); [lia| | |done|by rewrite F1|].
      * eapply books_mask; [|exact Hn1]. intros. apply HA.
      * eapply counts_mask; [apply (nk_peers _ _ _ Hn1)| |exact Hc1]. intros. apply HA.
      * exists n'. split_and!; try done. split; [congruence|]. intros q. by rewrite G2.
    + cbn [mbind option_bind].
      assert (forall q Q j, q ∈ peers n -> pst n !! q = Some Q -> bit (piece_field Q) j = true -> (j < np)%nat -> upto p k q j = upto p (S k) q j) as Hm.
      { intros q Q j _ HQ Hj _. rewrite <- HA. unfold upd. case_decide as Hd; [|done]. destruct Hd as [-> ->]. congruence. }
      destruct (IH (S k) n) as (n' & E & ?); [lia|by eapply books_mask|eapply counts_mask; [apply (nk_peers _ _ _ Hn)|exact Hm|done]|done|done|].
      by exists n'.
Qed.

Lemma peer_on_bitfield_ok n p P field :
  in_order n -> p ∈ peers n -> pst n !! p = Some P -> npieces P = 0 -> length field = field_bytes np ->
  exists n', peer_on_bitfield tp p field n = Some n' /\ in_order n' /\ peers n' = peers n /\
    forall q j, has_it n' q j = if (q =? p)%nat then bit field j else has_it n q j.
Proof.
  intros [Hn Hc Hidle] Hp HP H0 Hlen. unfold peer_on_bitfield. rewrite HP. cbn [mbind option_bind].
  rewrite H0. cbn [Z.eqb ensure mbind option_bind]. rewrite <- H0.
  pose proof (nk_peer _ _ _ Hn p P HP) as [[seen Hok] _]. pose proof (po_field _ _ _ Hok) as Hlp.
  rewrite mread_ok by lia. cbn [mbind option_bind]. rewrite drop_0, take_ge by lia.
  rewrite mwrite_ok by lia. cbn [mbind option_bind]. cbn [take app]. rewrite drop_ge, app_nil_r by lia.
  assert (forall j, (j < np)%nat -> bit (piece_field P) j = false) as Hnone.
  { intros j Hj. destruct (bit (piece_field P) j) eqn:E; [|done]. exfalso.
    pose proof (ct_peer _ _ Hc p P Hp HP) as Hcp. rewrite H0 in Hcp.
    assert (0 < count_bits (fun j => bit (piece_field P) j && all p j) np)%nat; [|lia].
    apply count_bits_pos. exists j. by rewrite E. }
  set (n1 := with_pst _ n).
  destruct (fresh_field (upto p 0) n p P field Hn Hc Hidle Hp HP Hlen) as (Hn1 & Hc1 & Hi1).
  { intros j Hj. by rewrite Hnone. }
  { intros j Hj. rewrite Hnone by done. unfold upto. rewrite Nat.eqb_refl. apply andb_false_r. }
  { intros q j Hq. unfold upto. by rewrite (proj2 (Nat.eqb_neq _ _) Hq). }
  fold n1 in Hn1, Hc1, Hi1. destruct (bitfield_loop p np 0 n1) as (n' & E & Hn' & Hc' & Hi' & [F1 F2]); try done.
  assert (forall q j, (j < np)%nat -> upto p np q j = all q j) as HA.
  { intros q j Hj. unfold upto, all. rewrite (proj2 (Nat.ltb_lt _ _) Hj). apply orb_true_r. }
  exists n'. split; [exact E|]. split; [split|split].
  - eapply books_mask; [|exact Hn']. intros. by apply HA.
  - eapply counts_mask; [apply (nk_peers _ _ _ Hn')| |exact Hc']. intros. by apply HA.
  - done.
  - by rewrite F1.
  - intros q j. rewrite (same_fields_has n1 n') by by split. unfold has_it. cbn. destruct (Nat.eqb_spec q p) as [->|Hne].
    + by rewrite lookup_insert_eq.
    + by rewrite lookup_insert_ne.
Qed.
End Have.
