(* ===== verification/BtChoke.v ===== *)
(** Choking, the queue, and peers that come and go, in the BitTorrent daemon: the
    handlers of [peer.c] and [download.c] keep the bookkeeping in order. *)
From S2P Require Import Prelude Bitfield BtPeer BtNet BtInv BtAssign BtChoice BtStart BtRelease BtHave.
Local Open Scope Z_scope.

#[local] Arguments count_bits : simpl never.
#[local] Arguments bit : simpl never.

(** A flag that is not about our interest. *)
Lemma peer_ok_flags np seen P f :
  peer_ok np seen P -> (forall g, ~ quiet g \/ g = PF_SUSPECT -> Z.testbit f g = flag P g) -> peer_ok np seen (with_flags f P).
Proof.
  intros [H1 H2 [Q1 Q2 Q3 Q4] H4 H5 H6 H7 H8 H9 H10] Hf. split; try done.
  - etransitivity; [|exact H6]. apply Hf. left. intros [? _]. done.
  - etransitivity; [|exact H7]. apply Hf. left. intros [_ ?]. done.
  - etransitivity; [|exact H8]. apply Hf. by right.
Qed.

(** The test of [peer_leech_ok], for a peer in order. *)
Lemma leech_eq np seen P : peer_ok np seen P ->
  peer_leech_ok P = (0 <? nwant P) && negb (flag P PF_BANNED) && negb (flag P PF_P_CHOKE) && negb (peer_laden P).
Proof. intros Hok. unfold peer_leech_ok. rewrite (po_want _ _ _ Hok), (po_suspect _ _ _ Hok).
  destruct (0 <? nwant P), (flag P PF_BANNED), (flag P PF_P_CHOKE); done. Qed.

Lemma leech_alike np seen seen' P P' : peer_ok np seen P -> peer_ok np seen' P' -> alike P P' -> peer_leech_ok P' = peer_leech_ok P.
Proof.
  intros Hok Hok' [_ _ A [_ B] [C D]]. rewrite (leech_eq np seen P), (leech_eq np seen' P') by done.
  unfold peer_laden. by rewrite A, B, C, D.
Qed.

Section Choke.
Context (tp : torrent).
Local Notation np := (tp_npieces tp).
Hypothesis Htp : torrent_ok tp.
Local Notation sound := (sound tp).
Local Notation counts := (counts tp).
Local Notation in_order := (in_order tp).

Lemma counts_same A n n' : peers n' = peers n -> piece_count n' = piece_count n ->
  (forall q, (fun Q => (piece_field Q, npieces Q)) <$> pst n' !! q = (fun Q => (piece_field Q, npieces Q)) <$> pst n !! q) ->
  counts A n -> counts A n'.
Proof.
  intros Hp Hl Hf [C1 C2 C3]. split.
  - intros q Q' Hq HQ'. specialize (Hf q). rewrite HQ' in Hf. destruct (pst n !! q) as [Q|] eqn:HQ; cbn in Hf; [|done].
    injection Hf as -> ->. rewrite Hp in Hq. by apply C1.
  - intros i Hi. unfold supply. rewrite Hl, Hp. fold (supply n i). rewrite C2 by done. apply tally_ext. intros q _.
    specialize (Hf q). unfold has_it. destruct (pst n !! q), (pst n' !! q); cbn in Hf; congruence.
  - by rewrite Hp.
Qed.

Lemma counts_peer A n p P P' : pst n !! p = Some P -> piece_field P' = piece_field P -> npieces P' = npieces P ->
  counts A n -> counts A (with_pst (<[p := P']> (pst n)) n).
Proof.
  intros HP E1 E2. apply counts_same; [done|done|]. intros q. cbn. destruct (decide (q = p)) as [->|Hne].
  - rewrite lookup_insert_eq, HP. cbn. by rewrite E1, E2.
  - by rewrite lookup_insert_ne.
Qed.

Lemma sound_flags n p P f : sound n -> pst n !! p = Some P ->
  (forall g, ~ quiet g \/ g = PF_SUSPECT -> Z.testbit f g = flag P g) -> sound (with_pst (<[p := with_flags f P]> (pst n)) n).
Proof.
  intros Hn HP Hf. destruct (nk_peer _ _ _ Hn p P HP) as [[seen Hok] Hsus].
  apply (net_ok_peer tp (fun _ j => true && wanted n j) _ n p P); try done.
  - exists seen. by apply peer_ok_flags.
  - intros Hp. exact (nk_want _ _ _ Hn p P Hp HP).
Qed.

(** A change of the queue of one peer. *)
Lemma in_order_alike n p P P' : in_order n -> pst n !! p = Some P ->
  (forall seen, peer_ok np seen P -> exists seen', peer_ok np seen' P') -> alike P P' ->
  in_order (with_pst (<[p := P']> (pst n)) n).
Proof.
  intros [Hn Hc Hi] HP Hok' Ha. destruct (nk_peer _ _ _ Hn p P HP) as [[seen Hok] _]. destruct (Hok' seen Hok) as [seen' Hok2].
  split.
  - apply (net_ok_alike tp _ n p P P'); try done. by exists seen'.
  - destruct Ha as [[A1 A2] _ _ _ _]. by eapply counts_peer.
  - intros q Hq Q HQ. cbn in Hq, HQ. apply lookup_insert_Some in HQ as [[<- <-]|[_ HQ]]; [|by apply (Hi q Hq)].
    rewrite (leech_alike np seen seen' P P') by done. by apply (Hi p Hq).
Qed.

Lemma idle_other n p P q : q <> p -> idle (with_pst (<[p := P]> (pst n)) n) q <-> idle n q.
Proof. intros Hq. unfold idle. cbn. by rewrite lookup_insert_ne. Qed.

Lemma counts_served A n n' : served n n' -> counts A n -> counts A n'.
Proof. intros Hs. apply counts_kept. by apply served_kept. Qed.

(** ** Choking *)

Lemma testbit_set f g b : 0 <= f -> g <> f -> Z.testbit (Z.setbit b f) g = Z.testbit b g.
Proof. intros Hf Hg. rewrite Z.setbit_eqb by done. by rewrite (proj2 (Z.eqb_neq _ _)) by congruence. Qed.
Lemma testbit_clear f g b : g <> f -> Z.testbit (Z.clearbit b f) g = Z.testbit b g.
Proof. intros Hg. rewrite Z.clearbit_eqb. rewrite (proj2 (Z.eqb_neq _ _)) by congruence. apply andb_true_r. Qed.

Lemma quiet_choke g : ~ quiet g \/ g = PF_SUSPECT -> g <> PF_P_CHOKE.
Proof. intros [H| ->]; [|done]. intros ->. apply H. done. Qed.

Lemma peer_on_choke_ok n p : in_order n -> p ∈ peers n ->
  exists n' P', peer_on_choke tp p n = Some n' /\ in_order n' /\ peers n' = peers n /\ (forall q i, has_it n' q i = has_it n q i) /\
    pst n' !! p = Some P' /\ flag P' PF_P_CHOKE = true.
Proof.
  intros [Hn Hc Hi] Hp. destruct (proj2 (nk_peers _ _ _ Hn) p Hp) as [P HP]. unfold peer_on_choke. rewrite HP. cbn [mbind option_bind].
  destruct (flag P PF_P_CHOKE) eqn:Ef; [by exists n, P|].
  set (P1 := set_flag PF_P_CHOKE P). set (n1 := with_pst (<[p:=P1]> (pst n)) n).
  assert (sound n1) as Hn1.
  { apply sound_flags; [done|done|]. intros g Hg. apply testbit_set; [done|by apply quiet_choke]. }
  assert (counts all n1) as Hc1 by by eapply counts_peer.
  assert (pst n1 !! p = Some P1) as HP1 by (cbn; by rewrite lookup_insert_eq).
  assert (flag P1 PF_P_CHOKE = true) as Hf1 by (unfold P1; by rewrite flag_set).
  assert (away n1 p) as Ha by (right; intros Q HQ; rewrite HP1 in HQ; by injection HQ as <-).
  assert (others_idle (fun _ => False) n1) as Hi1.
  { intros q Hq _. destruct (decide (q = p)) as [->|Hne]; [apply (aside_idle tp); try done; by apply away_aside|].
    apply idle_other; [done|]. by apply Hi. }
  assert (exists n2 P2, dl_on_choke tp p n1 = Some n2 /\ sound n2 /\ kept n1 n2 /\ others_idle (fun _ => False) n2 /\ pst n2 !! p = Some P2)
    as (n2 & P2 & -> & Hn2 & Hk & Hi2 & HP2).
  { unfold dl_on_choke. rewrite HP1. cbn [mbind option_bind]. destruct (nreqs_out P1 >? 0).
    - destruct (dl_unassign_requests_ok tp Htp (fun _ => False) n1 p P1) as (n2 & P2 & ? & ? & ? & ? & ? & _); try done. by exists n2, P2.
    - exists n1, P1. by split_and!. }
  cbn [mbind option_bind]. unfold on_peer. rewrite HP2. cbn [mbind option_bind].
  pose proof (nk_peer _ _ _ Hn2 p P2 HP2) as [[seen Hok] _].
  destruct (unsend_requests_ok np seen P2 Hok) as (P3 & -> & Hok3 & Hst & Hw & _). cbn [mbind option_bind].
  assert (in_order n2) as Hord.
  { split; [done|by apply (counts_kept tp _ n1)|]. intros q Hq. apply Hi2; [done|tauto]. }
  eexists _, P3. split; [reflexivity|].
  assert (alike P2 P3) as Hal.
  { destruct Hst as [S1 S2 S3 S4 S5]. split; try done. by split; apply S5. }
  split; [apply (in_order_alike n2 p P2 P3 Hord HP2); [|done]; by exists seen|].
  split; [apply (kp_peers _ _ Hk)|]. split; [|split].
  - intros q i. unfold has_it. cbn.
    destruct (decide (q = p)) as [->|Hne].
    + rewrite lookup_insert_eq, HP. destruct (kept_pst _ _ p P1 Hk HP1) as (P2' & HP2' & Hs2). rewrite HP2 in HP2'. injection HP2' as <-.
      rewrite (proj1 (al_field _ _ Hal)), (proj1 (sm_field _ _ Hs2)). done.
    + rewrite lookup_insert_ne by done. pose proof (kept_has n1 n2 q i Hk) as H. unfold has_it in H. cbn in H.
      by rewrite lookup_insert_ne in H.
  - cbn. by rewrite lookup_insert_eq.
  - destruct (al_flags _ _ Hal) as [-> _]. destruct (kept_pst _ _ p P1 Hk HP1) as (P2' & HP2' & Hs2). rewrite HP2 in HP2'. injection HP2' as <-.
    by rewrite (sm_flags _ _ Hs2) by done.
Qed.

(** ** A peer is lost *)

Definition but (p : nat) (l : list nat) : list nat := List.filter (fun q => negb (q =? p)%nat) l.

Lemma elem_of_but p l q : q ∈ but p l <-> q ∈ l /\ q <> p.
Proof. unfold but. rewrite !list_elem_of_In, filter_In, negb_true_iff, Nat.eqb_neq. done. Qed.

Lemma tally_but f p l : NoDup l -> p ∈ l -> tally f l = (if f p then 1 else 0) + tally f (but p l).
Proof.
  induction l as [|q l IH]; intros Hl Hp; [by apply not_elem_of_nil in Hp|]. apply NoDup_cons in Hl as [Hq Hl]. cbn.
  destruct (Nat.eqb_spec q p) as [->|Hne]; cbn.
  - f_equal. fold (but p l). clear IH Hl Hp. induction l as [|r l IH]; [done|]. apply not_elem_of_cons in Hq as [Hr Hq]. cbn.
    rewrite (proj2 (Nat.eqb_neq r p)) by congruence. cbn. f_equal. by apply IH.
  - fold (but p l). apply elem_of_cons in Hp as [?|Hp]; [congruence|]. rewrite IH by done. lia.
Qed.

Lemma length_but p l : (length (but p l) <= length l)%nat.
Proof. unfold but. induction l as [|q l IH]; cbn; [done|]. destruct (negb _); cbn; lia. Qed.

(** The loop that takes the pieces of the peer out of the count. *)
Lemma lost_counts n P seen : shape_ok tp n -> peer_ok np seen P ->
  (forall i, (i < np)%nat -> bit (piece_field P) i = true -> 1 <= supply n i < 2 ^ 32) ->
  exists l, cfor np 0 (fun i l =>
      h ← peer_has P i;
      if h : bool then c ← aread l i; l ← awrite l i (u32 (c - 1)); Some (inl l) else Some (inl l)) (piece_count n) = Some l /\
    length l = np /\ forall i, (i < np)%nat -> nth i l 0 = supply n i - (if bit (piece_field P) i then 1 else 0).
Proof.
  intros Hs Hok Hpos.
  destruct (cfor_total (fun j l => length l = np /\ forall i, (i < np)%nat ->
      nth i l 0 = supply n i - (if bit (piece_field P) i && (i <? j)%nat then 1 else 0))
    (fun l => length l = np /\ forall i, (i < np)%nat -> nth i l 0 = supply n i - (if bit (piece_field P) i then 1 else 0))
    (fun i l => h ← peer_has P i;
      if h : bool then c ← aread l i; l ← awrite l i (u32 (c - 1)); Some (inl l) else Some (inl l)) np 0 (piece_count n))
    as (l & E & H1 & H2).
  - intros j l Hj [Hl H]. unfold peer_has. rewrite (has_bit_ok _ np) by (lia || apply fits_bytes, (po_field _ _ _ Hok)). cbn [mbind option_bind].
    assert (forall i, (i <> j)%nat -> (i <? S j)%nat = (i <? j)%nat) as Hlt.
    { intros i Hi. apply Bool.eq_iff_eq_true. rewrite !Nat.ltb_lt. lia. }
    destruct (bit (piece_field P) j) eqn:Eb.
    + assert (aread l j = Some (supply n j)) as ->.
      { unfold aread. destruct (lookup_lt_is_Some_2 l j) as [c Hc]; [lia|]. rewrite Hc. f_equal.
        pose proof (nth_lookup_Some _ _ 0 _ Hc) as E. rewrite H, Nat.ltb_irrefl, andb_false_r in E by lia. lia. }
      cbn [mbind option_bind]. rewrite awrite_ok by lia. cbn [mbind option_bind]. split; [by rewrite length_insert|].
      intros i Hi. specialize (Hpos j ltac:(lia) Eb). rewrite (wrap_small 32) by lia. rewrite nth_lookup.
      destruct (decide (i = j)) as [->|Hne].
      * rewrite list_lookup_insert_eq by lia. cbn [default from_option id]. rewrite Eb, (proj2 (Nat.ltb_lt _ _)) by lia. done.
      * rewrite list_lookup_insert_ne by done. rewrite <- nth_lookup, Hlt by done. by apply H.
    + split; [done|]. intros i Hi. destruct (decide (i = j)) as [->|Hne]; [|rewrite Hlt by done; by apply H].
      rewrite H, Eb by done. done.
  - intros l [Hl H]. split; [done|]. intros i Hi. rewrite H by done. rewrite (proj2 (Nat.ltb_lt _ _)) by lia. by rewrite andb_true_r.
  - split; [apply (sh_count _ _ Hs)|]. intros i Hi. rewrite (proj2 (Nat.ltb_ge _ _)), andb_false_r by lia. unfold supply. lia.
  - by exists l.
Qed.

Lemma sound_peers n l : sound n -> NoDup l -> (forall q, q ∈ l -> q ∈ peers n) -> sound (with_peers l (pst n) n).
Proof.
  intros [[] H2 H3 H4 H5 H6 []] Hl Hin. split; try done.
  - intros i pc Hpc. apply (log_ok_pst n); [done|]. by apply H3.
  - split; [done|]. intros q Hq. by apply H4, Hin.
  - intros q Q Hq HQ. exact (H6 q Q (Hin q Hq) HQ).
Qed.

Lemma sound_delete n p P b : sound n -> p ∉ peers n -> pst n !! p = Some P -> my_reqs P = [] ->
  sound (with_peers (peers n) (delete p (pst n)) (with_banned b n)).
Proof.
  intros [[] H2 H3 H4 H5 H6 [R1 R2 R3]] Hp HP Hr. split; try done.
  - intros i pc Hpc. destruct (H3 i pc Hpc) as [(log & l & E & L1 & L2 & L3) L4]. split; [|done].
    exists log, l. split_and!; try done. intros r Q Hr' HQ. cbn in HQ. apply lookup_delete_Some in HQ as [_ HQ]. by eapply L2.
  - destruct H4 as [H4 H4']. split; [done|]. intros q Hq. cbn in Hq |- *. rewrite lookup_delete_ne; [by apply H4'|]. by intros ->.
  - intros q Q HQ. cbn in HQ. apply lookup_delete_Some in HQ as [_ HQ]. by eapply H5.
  - intros q Q Hq HQ. cbn in HQ. apply lookup_delete_Some in HQ as [_ HQ]. exact (H6 q Q Hq HQ).
  - split; cbn.
    + intros q Q r HQ Hr'. apply lookup_delete_Some in HQ as [_ HQ]. by apply R1.
    + intros i pc r Hpc Hr'. destruct (R2 i pc r Hpc Hr') as (Q & HQ & Hq). exists Q. split; [|done].
      rewrite lookup_delete_ne; [done|]. intros E. rewrite <- E, HP in HQ. injection HQ as <-. rewrite Hr in Hq. by apply not_elem_of_nil in Hq.
    + intros q Q HQ. apply lookup_delete_Some in HQ as [_ HQ]. by eapply R3.
Qed.

Lemma peer_kill_ok n p : in_order n -> p ∈ peers n ->
  exists n', peer_kill tp p n = Some n' /\ in_order n' /\ peers n' = but p (peers n) /\ pst n' !! p = None /\
    forall q i, q <> p -> has_it n' q i = has_it n q i.
Proof.
  intros [Hn Hc Hi] Hp. destruct (proj2 (nk_peers _ _ _ Hn) p Hp) as [P HP]. unfold peer_kill. fold (but p (peers n)).
  pose proof (nk_peer _ _ _ Hn p P HP) as [[seen Hok] _]. set (n0 := with_peers (but p (peers n)) (pst n) n).
  assert (NoDup (but p (peers n))) as Hnd by (apply NoDup_filter_bool, (nk_peers _ _ _ Hn)).
  assert (forall q, q ∈ but p (peers n) -> q ∈ peers n) as Hsub by (intros q Hq; by apply elem_of_but in Hq as [? _]).
  assert (p ∉ but p (peers n)) as Hnot by (intros H; by apply elem_of_but in H as [_ ?]).
  assert (sound n0) as Hn0 by by apply sound_peers.
  assert (forall i, (i < np)%nat -> supply n i = (if bit (piece_field P) i then 1 else 0) + tally (fun q => has_it n q i && all q i) (but p (peers n))) as Hsup.
  { intros i Hlt. rewrite (ct_supply _ _ _ Hc) by done. rewrite (tally_but _ p) by (done || apply (nk_peers _ _ _ Hn)). f_equal.
    unfold has_it. rewrite HP. by rewrite andb_true_r. }
  pose proof (length_but p (peers n)) as Hlb. pose proof (ct_few _ _ _ Hc) as Hfew.
  destruct (lost_counts n0 P seen (nk_shape _ _ _ Hn0) Hok) as (l & El & Hl & Hval).
  { intros i Hlt Hb. change (supply n0 i) with (supply n i). rewrite (Hsup i Hlt), Hb.
    pose proof (tally_range (fun q => has_it n q i && all q i) (but p (peers n))).
    pose proof (tally_range (fun q => has_it n q i && all q i) (peers n)) as Hr. rewrite <- (ct_supply _ _ _ Hc i Hlt), (Hsup i Hlt), Hb in Hr. lia. }
  pose proof (books_count tp _ l n0 Hl Hn0) as Hn1. set (n1 := with_count l n0) in *.
  assert (counts all n1) as Hc1.
  { split; [intros q Q Hq HQ; apply (ct_peer _ _ _ Hc); [by apply Hsub|done]| |cbn; lia].
    intros i Hlt. unfold supply. cbn [piece_count n1 with_count]. rewrite Hval by done. change (supply n0 i) with (supply n i).
    rewrite (Hsup i Hlt). change (tally (fun q => has_it n1 q i && all q i) (peers n1)) with (tally (fun q => has_it n q i && all q i) (but p (peers n))). lia. }
  assert (others_idle (fun _ => False) n1) as Hi1 by (intros q Hq _; apply Hi, Hsub, Hq).
  assert (away n1 p) as Ha by by left.
  assert (exists n2 P2, dl_on_lost_peer tp p n0 = Some n2 /\ sound n2 /\ kept n1 n2 /\ others_idle (fun _ => False) n2 /\
    pst n2 !! p = Some P2 /\ my_reqs P2 = []) as (n2 & P2 & E2 & Hn2 & Hk & Hi2 & HP2 & Hr2).
  { unfold dl_on_lost_peer. cbn [pst n0 with_peers]. rewrite HP. cbn [mbind option_bind]. cbn [piece_count n0 with_peers]. cbn [piece_count n0 with_peers] in El.
    rewrite El. cbn [mbind option_bind]. fold n0 n1. destruct (Z.gtb_spec (nreqs_out P) 0) as [H0|H0].
    - apply (dl_unassign_requests_ok tp Htp (fun _ => False) n1 p P); done.
    - exists n1, P. split_and!; try done. pose proof (proj1 (po_reqs _ _ _ Hok)). destruct (my_reqs P); [done|cbn in *; lia]. }
  rewrite E2. cbn [mbind option_bind]. rewrite HP2. cbn [mbind option_bind].
  assert (p ∉ peers n2) as Hp2 by by rewrite (kp_peers _ _ Hk).
  assert (forall b, in_order (with_peers (peers n2) (delete p (pst n2)) (with_banned b n2))) as Hord.
  { intros b. split; [by eapply sound_delete| |].
    - apply (counts_kept tp _ n1 n2 Hk) in Hc1 as [C1 C2 C3]. split; [| |done].
      + intros q Q Hq HQ. cbn in HQ. apply lookup_delete_Some in HQ as [_ HQ]. by apply C1.
      + intros i Hlt. change (supply n2 i = tally (fun q => match delete p (pst n2) !! q with Some Q => bit (piece_field Q) i | None => false end && all q i) (peers n2)).
        rewrite C2 by done. apply tally_ext. intros q Hq. unfold has_it. rewrite lookup_delete_ne; [done|]. by intros ->.
    - intros q Hq Q HQ. cbn in Hq, HQ. apply lookup_delete_Some in HQ as [_ HQ]. apply (Hi2 q Hq); [tauto|done]. }
  assert (exists b, (if flag P2 PF_BANNED then with_banned (p :: banned n2) n2 else n2) = with_banned b n2) as [b ->].
  { destruct (flag P2 PF_BANNED); [by exists (p :: banned n2)|]. exists (banned n2). by destruct n2. }
  eexists. split; [reflexivity|]. split; [exact (Hord b)|]. split; [apply (kp_peers _ _ Hk)|]. split; [apply lookup_delete_eq|].
  intros q i Hq. rewrite <- (kept_has n1 n2 q i Hk : has_it n2 q i = has_it n q i). unfold has_it. cbn. by rewrite lookup_delete_ne.
Qed.
(** ** A peer comes *)

(** A peer that has said nothing and been asked nothing. *)
Record new_peer (P : peer) : Prop := NewPeer {
  np_none : bad_field P = None /\ npieces P = 0 /\ nwant P = 0 /\ npcs_bad P = 0 /\ suspicion P = 0 /\
    my_reqs P = [] /\ nreqs_out P = 0;
  np_queue : queue_ok P;
  np_quiet : forall b, told b (outq P) = b /\ news b (outq P);
  np_flags : forall g, ~ quiet g \/ g = PF_SUSPECT -> flag P g = false
}.

Lemma peer_create_new : new_peer peer_create.
Proof.
  split; try done.
  - split; cbn; [by left|done|done|constructor].
  - intros g Hg. unfold flag, peer_create. cbn [flags].
    assert (g = PF_I_WANT \/ g = PF_DO_UNWANT \/ g = PF_SUSPECT) as Hg'.
    { destruct Hg as [Hg|]; [|tauto]. destruct (decide (g = PF_I_WANT)); [tauto|]. destruct (decide (g = PF_DO_UNWANT)); [tauto|].
      exfalso. by apply Hg. }
    destruct Hg' as [-> |[-> | ->]]; done.
Qed.

Lemma send_all_ok seen msgs : forall P, peer_ok np seen P ->
  forallb (fun m => plain m && neutral m && (0 <=? nb_len m)) msgs = true ->
  exists P', foldl (fun o m => P ← o; peer_send m P) (Some P) msgs = Some P' /\ peer_ok np seen P' /\ stable P P' /\ nwant P' = nwant P.
Proof.
  induction msgs as [|m msgs IH]; intros P Hok Hm; cbn [foldl].
  - exists P. by split_and!.
  - cbn in Hm. rewrite !andb_true_iff, Z.leb_le in Hm. destruct Hm as [[[H1 H2] H3] Hm].
    cbn [mbind option_bind]. destruct (peer_send_ok np seen m P Hok H1 H2 H3) as [-> Hok1].
    destruct (IH _ Hok1 Hm) as (P' & E & ? & Hs & ?). exists P'. split_and!; try done. etransitivity; [apply stable_outq|exact Hs].
Qed.

Lemma net_ok_new n p P : sound n -> pst n !! p = None -> (exists seen, peer_ok np seen P) -> bad_field P = None ->
  suspicion P = 0 -> nwant P = 0 -> my_reqs P = [] -> (forall j, (j < np)%nat -> bit (piece_field P) j = false) ->
  sound (with_peers (p :: peers n) (<[p := P]> (pst n)) n).
Proof.
  intros [[] H2 H3 [H4 H4'] H5 H6 [R1 R2 R3]] Hp Hok Hbad Hsus Hw Hr Hf. split; try done.
  - intros i pc Hpc. destruct (H3 i pc Hpc) as [(log & l & E & L1 & L2 & L3) L4]. split; [|done].
    exists log, l. split_and!; try done. intros r Q Hr' HQ. cbn in HQ. apply lookup_insert_Some in HQ as [[_ <-]|[_ HQ]]; [|by eapply L2].
    unfold bad_bit. by rewrite Hbad.
  - cbn. split.
    + apply NoDup_cons. split; [|done]. intros Hin. apply H4' in Hin as [? ?]. congruence.
    + intros q Hq. apply lookup_insert_is_Some. destruct (decide (p = q)) as [|Hne]; [by left|right]. split; [done|].
      apply elem_of_cons in Hq as [?|Hq]; [congruence|by apply H4'].
  - intros q Q HQ. cbn in HQ. apply lookup_insert_Some in HQ as [[_ <-]|[_ HQ]]; [|by eapply H5]. split; [done|lia].
  - intros q Q Hq HQ. cbn in Hq, HQ. apply lookup_insert_Some in HQ as [[_ <-]|[Hne HQ]].
    + rewrite Hw, count_none; [done|]. intros j Hj. unfold offers. by rewrite Hf.
    + apply elem_of_cons in Hq as [?|Hq]; [congruence|]. exact (H6 q Q Hq HQ).
  - split; cbn.
    + intros q Q r HQ Hr'. apply lookup_insert_Some in HQ as [[_ <-]|[_ HQ]]; [|by apply R1]. rewrite Hr in Hr'. by apply not_elem_of_nil in Hr'.
    + intros i pc r Hpc Hr'. destruct (R2 i pc r Hpc Hr') as (Q & HQ & Hq). exists Q. split; [|done].
      rewrite lookup_insert_ne; [done|]. intros ->. congruence.
    + intros q Q HQ. apply lookup_insert_Some in HQ as [[_ <-]|[_ HQ]]; [|by eapply R3]. rewrite Hr. apply NoDup_nil_2.
Qed.

Lemma peer_on_shake_ok n p P : in_order n -> pst n !! p = None -> new_peer P -> Z.of_nat (length (peers n)) + 1 < 2 ^ 32 ->
  exists n', peer_on_shake tp p P n = Some n' /\ in_order n' /\ peers n' = p :: peers n /\
    (forall q i, q <> p -> has_it n' q i = has_it n q i) /\ (forall i, (i < np)%nat -> has_it n' p i = false).
Proof.
  intros [Hn Hc Hi] Hp [(E1 & E2 & E3 & E4 & E5 & E6 & E7) Hq Hquiet Hfl] Hfew. unfold peer_on_shake.
  set (P0 := with_pieces (replicate (field_bytes np) 0) (npieces P) P).
  assert (peer_ok np false P0) as Hok0.
  { split; cbn; rewrite ?E1, ?E3, ?E4, ?E6, ?E7; try done.
    - apply length_replicate.
    - by destruct Hq.
    - apply Hquiet.
    - by rewrite (proj1 (Hquiet false)).
    - change (flag P PF_I_WANT = false). apply Hfl. left. by intros [? _].
    - change (flag P PF_DO_UNWANT = false). apply Hfl. left. by intros [_ ?].
    - change (flag P PF_SUSPECT = false). apply Hfl. by right. }
  pose proof (sh_got _ _ (nk_shape _ _ _ Hn)) as Hgot.
  destruct (send_all_ok false (shake_msgs tp n) P0 Hok0) as (P1 & -> & Hok1 & Hst & Hw).
  { unfold shake_msgs. destruct (npieces_got n >? 0); [|done]. destruct (_ <? _); cbn [forallb plain neutral nb_len andb].
    - rewrite (proj2 (Z.leb_le _ _)) by lia. done.
    - change (0 <=? 5) with true. cbn [andb]. rewrite (proj2 (Z.leb_le _ _)) by lia. done. }
  cbn [mbind option_bind]. set (P2 := set_flag PF_ATTACHED P1).
  assert (peer_ok np false P2) as Hok2.
  { apply peer_ok_flags; [done|]. intros g Hg. apply testbit_set; [done|]. destruct Hg as [Hg| ->]; [|done]. intros ->. by apply Hg. }
  destruct Hst as [S1 [S2 [S2' S2'']] S3 [S4 S4'] S5].
  assert (forall j, bit (piece_field P2) j = false) as Hbits.
  { intros j. change (bit (piece_field P1) j = false). rewrite S1. apply bit_zeros. }
  eexists. split; [reflexivity|]. split; [|split; [done|split]].
  - split.
    + apply net_ok_new; try done; [by exists false|..]; cbn; rewrite ?S2, ?S2'', ?Hw, ?S4; done.
    + destruct Hc as [C1 C2 C3]. split; [| |cbn; lia].
      * intros q Q Hq' HQ. cbn in Hq', HQ. apply lookup_insert_Some in HQ as [[<- <-]|[Hne HQ]].
        -- rewrite count_none by (intros; by rewrite Hbits). cbn. rewrite S3. cbn. by rewrite E2.
        -- apply C1; [|done]. apply elem_of_cons in Hq' as [?|?]; [congruence|done].
      * intros i Hlt. change (supply n i = tally (fun q => has_it (with_peers (p :: peers n) (<[p := P2]> (pst n)) n) q i && all q i) (p :: peers n)).
        cbn [tally]. unfold has_it at 1. cbn [pst with_peers]. rewrite lookup_insert_eq, Hbits. cbn [andb]. rewrite Z.add_0_l, C2 by done.
        apply tally_ext. intros q Hq'. unfold has_it. cbn. rewrite lookup_insert_ne; [done|]. intros <-.
        destruct (proj2 (nk_peers _ _ _ Hn) p Hq'). congruence.
    + intros q Hq' Q HQ. cbn in Hq', HQ. apply lookup_insert_Some in HQ as [[<- <-]|[Hne HQ]].
      * rewrite (leech_eq np false P2) by done. cbn [nwant P2 set_flag with_flags]. rewrite Hw. cbn. by rewrite E3.
      * apply (Hi q); [|done]. apply elem_of_cons in Hq' as [?|?]; [congruence|done].
  - intros q i Hne. unfold has_it. cbn. by rewrite lookup_insert_ne.
  - intros i _. unfold has_it. cbn. rewrite lookup_insert_eq. apply Hbits.
Qed.
(** ** Unchoking *)

Context (choose_method : Z) (rand : nat -> Z) (RAND_MAX : Z).
Hypothesis Hrand : 0 < RAND_MAX /\ forall k, 0 <= rand k <= RAND_MAX.

(** Requests for a peer that may be asked, if it may be. *)
Lemma assign_if_ok n p P : sound n -> counts all n -> p ∈ peers n -> pst n !! p = Some P ->
  (forall q, q ∈ peers n -> q <> p -> idle n q) ->
  exists n', (if peer_leech_ok P then dl_assign_requests tp choose_method rand RAND_MAX p n else Some n) = Some n' /\
    in_order n' /\ served n n'.
Proof.
  intros Hn Hc Hp HP Hi. destruct (peer_leech_ok P) eqn:El.
  - destruct (dl_assign_requests_ok tp choose_method rand RAND_MAX Htp Hrand n p P Hn Hp HP El) as (n' & E & Hn' & Hs & Hip).
    exists n'. split; [done|]. split; [|done]. split; [done|by apply (counts_served _ n)|].
    intros q Hq. rewrite (sv_peers _ _ Hs) in Hq. destruct (decide (q = p)) as [->|Hne]; [done|].
    apply (served_idle tp all all n); auto.
  - exists n. split; [done|]. split; [|done]. split; [done|done|]. intros q Hq. destruct (decide (q = p)) as [->|Hne]; [|by apply Hi].
    intros Q HQ. rewrite HP in HQ. by injection HQ as <-.
Qed.

Lemma peer_on_unchoke_ok n p : in_order n -> p ∈ peers n ->
  exists n' P', peer_on_unchoke tp choose_method rand RAND_MAX p n = Some n' /\ in_order n' /\ peers n' = peers n /\
    (forall q i, has_it n' q i = has_it n q i) /\ pst n' !! p = Some P' /\ flag P' PF_P_CHOKE = false.
Proof.
  intros Hord Hp. pose proof Hord as [Hn Hc Hi]. destruct (proj2 (nk_peers _ _ _ Hn) p Hp) as [P HP]. unfold peer_on_unchoke. rewrite HP. cbn [mbind option_bind].
  destruct (flag P PF_P_CHOKE) eqn:Ef; cbn [negb]; [|by exists n, P].
  set (P1 := clear_flag PF_P_CHOKE P). set (n1 := with_pst (<[p:=P1]> (pst n)) n).
  assert (sound n1) as Hn1.
  { apply sound_flags; [done|done|]. intros g Hg. apply testbit_clear. by apply quiet_choke. }
  assert (pst n1 !! p = Some P1) as HP1 by (cbn; by rewrite lookup_insert_eq).
  unfold dl_on_unchoke, dl_on_download. rewrite HP1. cbn [mbind option_bind].
  destruct (assign_if_ok n1 p P1 Hn1) as (n' & E & Hord' & Hs); [by eapply counts_peer|done|done| |].
  { intros q Hq Hne. apply idle_other; [done|]. by apply Hi. }
  destruct (served_pst n1 n' p P1 Hs HP1) as (P' & HP' & Hf).
  exists n', P'. split; [exact E|]. split; [done|]. split; [apply (sv_peers _ _ Hs)|]. split; [|split; [done|]].
  - intros q i. rewrite (same_fields_has n1 n') by by apply served_fields. unfold has_it. cbn.
    destruct (decide (q = p)) as [->|Hne]; [by rewrite lookup_insert_eq, HP|by rewrite lookup_insert_ne].
  - rewrite (fd_flags _ _ Hf) by done. unfold P1. rewrite flag_clear. by rewrite andb_false_r.
Qed.
End Choke.
