(* ===== verification/BtBlock.v ===== *)
(** Blocks that arrive in the BitTorrent daemon: [peer_on_piece], [dl_on_block] and the
    test of a complete piece, with the blame for a bad one. *)
From S2P Require Import Prelude Bitfield BtPeer BtNet BtInv BtAssign BtChoice BtStart BtRelease BtHave BtChoke.
Local Open Scope Z_scope.

#[local] Arguments count_bits : simpl never.
#[local] Arguments bit : simpl never.

Section Block.
Context (tp : torrent) (choose_method : Z) (rand : nat -> Z) (RAND_MAX : Z).
Local Notation np := (tp_npieces tp).
Local Notation blocks := (torrent_piece_blocks tp).
Hypothesis Htp : torrent_ok tp.
Hypothesis Hrand : 0 < RAND_MAX /\ forall k, 0 <= rand k <= RAND_MAX.
Local Notation sound := (sound tp).
Local Notation counts := (counts tp).
Local Notation in_order := (in_order tp).

(** ** Blame and praise for a piece *)

(** What the test of piece [i] leaves of a peer. *)
Record judged (i : nat) (P P' : peer) : Prop := Judged {
  jd_field : piece_field P' = piece_field P /\ npieces P' = npieces P;
  jd_want : nwant P' = nwant P;
  jd_reqs : my_reqs P' = my_reqs P /\ nreqs_out P' = nreqs_out P;
  jd_bad : forall j, (j < np)%nat -> j <> i -> bad_bit P' j = bad_bit P j;
  jd_flags : flag P' PF_P_CHOKE = flag P PF_P_CHOKE /\ (flag P PF_BANNED = true -> flag P' PF_BANNED = true)
}.

#[local] Instance judged_preorder i : PreOrder (judged i).
Proof.
  split; [intros P; by split|]. intros P Q R [[A1 A2] A3 [A4 A5] A6 [A7 A8]] [[B1 B2] B3 [B4 B5] B6 [B7 B8]].
  split; [split; congruence|congruence|split; congruence| |split; [congruence|auto]].
  intros j Hj Hne. by rewrite B6, A6.
Qed.

Lemma alike_judged i P P' : alike P P' -> judged i P P'.
Proof.
  intros [H1 [H2 _] H3 H4 [H5 H6]]. split; try done; [|split; [done|congruence]].
  intros j _ _. unfold bad_bit. by rewrite H2.
Qed.

Lemma blamed_judged i P P' : blamed P P' -> (forall j, (j < np)%nat -> j <> i -> bad_bit P' j = bad_bit P j) -> judged i P P'.
Proof. intros [H1 H2 H3 H4 H5] Hb. split; try done. unfold flag. by rewrite H4. Qed.

(** The peers and the bans of a net after some of it. *)
Definition fine (m : gmap nat peer) : Prop :=
  forall q Q, m !! q = Some Q -> (exists seen, peer_ok np seen Q) /\ 0 <= suspicion Q.
Record judging (i : nat) (n n' : net) : Prop := Judging {
  jg_net : exists m b, n' = with_pst m (with_banned b n);
  jg_pst : forall q, option_Forall2 (judged i) (pst n !! q) (pst n' !! q);
  jg_fine : fine (pst n')
}.

Lemma judging_refl i n : fine (pst n) -> judging i n n.
Proof.
  intros Hf. split; [|intros q; destruct (pst n !! q); by constructor|done]. exists (pst n), (banned n). by destruct n.
Qed.

Lemma judging_trans i n n' n'' : judging i n n' -> judging i n' n'' -> judging i n n''.
Proof.
  intros [(m & b & E) A2 A3] [(m' & b' & E') B2 B3]. split; [exists m', b'; by rewrite E', E| |done].
  intros q. specialize (A2 q). specialize (B2 q).
  inversion A2 as [P P' Hs E1 E2|E1 E2]; rewrite <- E2 in B2; inversion B2; constructor. by etransitivity.
Qed.

(** A step on one peer. *)
Lemma judging_peer i n p P P' : fine (pst n) -> pst n !! p = Some P -> judged i P P' ->
  (exists seen, peer_ok np seen P') -> 0 <= suspicion P' -> judging i n (with_pst (<[p := P']> (pst n)) n).
Proof.
  intros Hf HP Hj Hok Hs. split.
  - exists (<[p := P']> (pst n)), (banned n). by destruct n.
  - intros q. cbn. destruct (decide (q = p)) as [->|Hne]; [rewrite lookup_insert_eq, HP; by constructor|].
    rewrite lookup_insert_ne by done. destruct (pst n !! q); by constructor.
  - intros q Q HQ. cbn in HQ. apply lookup_insert_Some in HQ as [[_ <-]|[_ HQ]]; [done|by eapply Hf].
Qed.

(** A loop of such steps. *)
Lemma judging_loop {A} i (f : A -> net -> option net) (l : list A) : forall n,
  fine (pst n) -> (forall x n', x ∈ l -> judging i n n' -> exists n'', f x n' = Some n'' /\ judging i n' n'') ->
  exists n', foreach l f n = Some n' /\ judging i n n'.
Proof.
  induction l as [|x l IH]; intros n Hf H.
  - exists n. split; [done|by apply judging_refl].
  - destruct (H x n ltac:(constructor) (judging_refl i n Hf)) as (n1 & E1 & J1).
    destruct (IH n1 (jg_fine _ _ _ J1)) as (n2 & E2 & J2).
    + intros y n' Hy Hj. apply H; [by constructor|by eapply judging_trans].
    + exists n2. rewrite foreach_cons, E1. cbn [mbind option_bind]. split; [done|by eapply judging_trans].
Qed.

Lemma net_ban_ok i n p : fine (pst n) -> judging i n (net_ban_peer p n).
Proof.
  intros Hf. unfold net_ban_peer. destruct (pst n !! p) as [P|] eqn:HP.
  - destruct (flag P PF_BANNED); [by apply judging_refl|]. destruct (Hf p P HP) as [[seen Hok] Hs].
    apply (judging_peer i n p P); try done.
    + split; try done. split; [by rewrite flag_set|]. intros _. by rewrite flag_set.
    + exists seen. apply peer_ok_flags; [done|]. intros g Hg. apply testbit_set; [done|].
      destruct Hg as [Hg| ->]; [|done]. intros ->. by apply Hg.
  - case_bool_decide; [by apply judging_refl|]. split; [|intros q; cbn; destruct (pst n !! q); by constructor|done].
    exists (pst n), (p :: banned n). by destruct n.
Qed.

Lemma good_piece_ok i n p P : (i < np)%nat -> fine (pst n) -> pst n !! p = Some P ->
  exists n', good_piece tp choose_method rand RAND_MAX i p n = Some n' /\ judging i n n'.
Proof.
  intros Hi Hf HP. destruct (Hf p P HP) as [[seen Hok] Hs].
  destruct (peer_good_piece_ok np seen P i Hok Hi) as (P' & E & Hok' & Hb & Hs' & Hbits).
  unfold good_piece. rewrite HP. cbn [mbind option_bind]. rewrite E. cbn [mbind option_bind].
  eexists. split; [reflexivity|]. apply (judging_peer i n p P); try done; [|by exists seen|lia].
  apply blamed_judged; [done|]. intros j Hj Hne. rewrite Hbits by done. by case_decide.
Qed.

Lemma good_if_there i n p : (i < np)%nat -> fine (pst n) ->
  exists n', match pst n !! p with Some _ => good_piece tp choose_method rand RAND_MAX i p n | None => Some n end = Some n' /\ judging i n n'.
Proof.
  intros Hi Hf. destruct (pst n !! p) as [P|] eqn:HP; [by eapply good_piece_ok|]. exists n. split; [done|by apply judging_refl].
Qed.

Lemma judging_pcs i n n' : judging i n n' -> pcs n' = pcs n.
Proof. by intros [(m & b & ->) _ _]. Qed.

Lemma changed_ok f h h' k : fits f k -> (k <= length h)%nat -> (k <= length h')%nat -> exists b, changed f h h' k = Some b.
Proof.
  intros Hf. assert (forall m, fits f m -> (m <= length h)%nat -> (m <= length h')%nat -> exists b, changed f h h' m = Some b) as H; [|by apply H].
  clear. intros m. induction m as [|m IH]; intros Hf H1 H2; cbn [changed]; [by eexists|].
  destruct IH as [b ->]; [unfold fits in *; lia..|]. cbn [mbind option_bind]. destruct b; [by eexists|].
  rewrite (has_bit_ok f (S m)) by (done || lia). cbn [mbind option_bind]. destruct (bit f m); [|by eexists].
  destruct (lookup_lt_is_Some_2 h m ltac:(lia)) as [x ->]. cbn [mbind option_bind].
  destruct (lookup_lt_is_Some_2 h' m ltac:(lia)) as [y ->]. by eexists.
Qed.

Lemma head_Some {A} (l : list A) : l <> [] -> exists x r, l = x :: r /\ head l = Some x.
Proof. destruct l as [|x r]; [done|]. intros _. by exists x, r. Qed.

(** A piece whose logs are in order, on its own. *)
Definition logs_ok (pc : piece) : Prop := exists log l, logs pc = log :: l /\
  (forall bad, bad ∈ l -> exists h, hashes bad = Some h /\ length h = nblocks pc) /\
  (forall lg r, lg ∈ logs pc -> r ∈ records lg -> length (br_field r) = field_bytes (nblocks pc)).

Lemma piece_log_good_ok i sha n pc : (i < np)%nat -> fine (pst n) -> pcs n !! i = Some pc -> logs_ok pc -> length sha = nblocks pc ->
  exists n' pc', piece_log_good tp choose_method rand RAND_MAX i sha n = Some n' /\
    judging i (set_piece i pc' n) n' /\ nreqs pc' = nreqs pc.
Proof.
  intros Hi Hf Hpc (log & l & El & Hl & Hfields) Hsha. unfold piece_log_good. rewrite Hpc. cbn [mbind option_bind]. rewrite El. cbn [head mbind option_bind].
  destruct (judging_loop i (fun r n => match pst n !! br_mp r with
      Some _ => good_piece tp choose_method rand RAND_MAX i (br_mp r) n | None => Some n end) (records log) n Hf) as (n1 & E1 & J1).
  { intros r n' _ Hj. apply good_if_there; [done|apply (jg_fine _ _ _ Hj)]. }
  rewrite E1. cbn [mbind option_bind]. rewrite (judging_pcs _ _ _ J1), Hpc. cbn [mbind option_bind]. rewrite El. cbn [tail].
  set (pc1 := match l with [] => pc | _ => with_logs (Blog (records log) (Some sha) :: l) pc end).
  assert (match l with [] => Some pc | _ => piece_log_hashes sha pc end = Some pc1) as ->.
  { unfold pc1, piece_log_hashes. rewrite El. by destruct l. }
  cbn [mbind option_bind].
  assert (tail (logs pc1) = l) as Et by (unfold pc1; clear -El; destruct l; [by rewrite El|done]). rewrite Et.
  assert (nblocks pc1 = nblocks pc /\ nreqs pc1 = nreqs pc) as [Eb Er] by (unfold pc1; by destruct l).
  assert (l <> [] -> head (logs pc1) = Some (Blog (records log) (Some sha))) as Eh by (unfold pc1; by destruct l).
  assert (judging i (set_piece i pc1 n) (set_piece i pc1 n1)) as J1'.
  { destruct J1 as [(m & b & ->) A2 A3]. split; [by exists m, b|exact A2|exact A3]. }
  match goal with |- context[foreach l ?F _] => destruct (judging_loop i F l (set_piece i pc1 n1)) as (n2 & E2 & J2) end.
  - apply (jg_fine _ _ _ J1').
  - intros bad n' Hbad Hj. apply judging_loop; [apply (jg_fine _ _ _ Hj)|]. intros r n3 Hr J3.
    rewrite (Eh ltac:(by intros ->; apply not_elem_of_nil in Hbad)). cbn [mbind option_bind hashes].
    destruct (Hl bad Hbad) as (h & -> & Hh). cbn [mbind option_bind].
    destruct (changed_ok (br_field r) sha h (nblocks pc1)) as [b ->]; [|lia|lia|].
    { rewrite Eb. apply fits_bytes, (Hfields bad); [|done]. rewrite El. by constructor. }
    cbn [mbind option_bind]. destruct b; [|by apply good_if_there, (jg_fine _ _ _ J3)].
    eexists. split; [reflexivity|]. apply net_ban_ok, (jg_fine _ _ _ J3).
  - exists n2, pc1. split; [exact E2|]. split; [by eapply judging_trans|done].
Qed.
Lemma judging_set_piece i n n' pc : judging i n n' -> judging i (set_piece i pc n) (set_piece i pc n').
Proof. intros [(m & b & ->) A2 A3]. split; [by exists m, b|exact A2|exact A3]. Qed.

(** The peers of a list that may be blamed for the piece. *)
Definition blameable (i : nat) (n : net) (l : list blog_record) : Prop :=
  forall r P, r ∈ l -> pst n !! br_mp r = Some P -> bad_bit P i = false /\ suspicion P < 2.

Lemma blame_loop_ok i l : forall n, (i < np)%nat -> fine (pst n) -> NoDup (br_mp <$> l) -> blameable i n l ->
  exists n', foreach l (fun r n => match pst n !! br_mp r with
      Some _ => on_peer (peer_bad_piece np i) (br_mp r) n | None => Some n end) n = Some n' /\ judging i n n'.
Proof.
  induction l as [|r l IH]; intros n Hi Hf Hnd Hb; [exists n; split; [done|by apply judging_refl]|].
  cbn in Hnd. apply NoDup_cons in Hnd as [Hr Hnd]. rewrite foreach_cons. destruct (pst n !! br_mp r) as [P|] eqn:HP.
  - destruct (Hb r P ltac:(constructor) HP) as [Hbad Hsus]. destruct (Hf _ P HP) as [[seen Hok] Hs].
    destruct (peer_bad_piece_ok np seen P i Hok Hi (proj1 Htp) Hbad ltac:(lia)) as (P' & E & Hok' & Hbl & Hs' & Hbits).
    unfold on_peer. rewrite HP. cbn [mbind option_bind]. rewrite E. cbn [mbind option_bind].
    set (n1 := with_pst _ n).
    assert (judging i n n1) as J1.
    { apply (judging_peer i n (br_mp r) P P'); try done; [|by exists seen|lia]. apply blamed_judged; [done|].
      intros j _ Hne. rewrite Hbits. by case_decide. }
    destruct (IH n1 Hi (jg_fine _ _ _ J1) Hnd) as (n' & E' & J').
    + intros r' Q Hr' HQ. cbn in HQ. rewrite lookup_insert_ne in HQ; [apply (Hb r'); [by constructor|done]|].
      intros E0. apply Hr. rewrite E0. by apply list_elem_of_fmap_2.
    + exists n'. split; [exact E'|by eapply judging_trans].
  - cbn [mbind option_bind]. apply IH; try done. intros r' Q Hr'. apply Hb. by constructor.
Qed.

Lemma all_bits_ok f k : fits f k -> exists b, all_bits f k = Some b.
Proof.
  intros Hf. assert (forall m, (m <= k)%nat -> exists b, all_bits f m = Some b) as H; [|by apply H].
  intros m. induction m as [|m IH]; intros Hm; cbn [all_bits]; [by eexists|].
  destruct IH as [b ->]; [lia|]. cbn [mbind option_bind]. destruct b; [|by eexists].
  rewrite (has_bit_ok f k) by (done || lia). by eexists.
Qed.

Lemma piece_log_bad_ok i sha n pc log l : (i < np)%nat -> fine (pst n) -> pcs n !! i = Some pc ->
  logs pc = log :: l -> records log <> [] -> NoDup (br_mp <$> records log) -> blameable i n (records log) ->
  (forall r, r ∈ records log -> length (br_field r) = field_bytes (nblocks pc)) ->
  exists n' lg, piece_log_bad tp i sha n = Some n' /\
    judging i (set_piece i (with_logs (Blog [] None :: lg) pc) n) n' /\
    (lg = l \/ lg = Blog (records log) (Some sha) :: l).
Proof.
  intros Hi Hf Hpc El Hne Hnd Hb Hfields. destruct (head_Some _ Hne) as (r & rs & Er & Eh).
  unfold piece_log_bad. rewrite Hpc. cbn [mbind option_bind]. rewrite El. cbn [head mbind option_bind]. rewrite Eh. cbn [mbind option_bind].
  destruct (all_bits_ok (br_field r) (nblocks pc)) as [b Eb].
  { apply fits_bytes, Hfields. rewrite Er. constructor. }
  assert (exists c, (if (length (records log) =? 1)%nat then
      b ← all_bits (br_field r) (nblocks pc); Some (if b : bool then Some (br_mp r) else None) else Some None) = Some c) as [c ->].
  { rewrite Eb. destruct (_ =? 1)%nat; by eexists. }
  cbn [mbind option_bind]. destruct c as [mp|].
  - cbn [tail]. eexists _, l. split; [reflexivity|]. split; [|by left].
    assert (piece_new_log (with_logs l pc) = with_logs (Blog [] None :: l) pc) as -> by done.
    apply judging_set_piece. by apply net_ban_ok.
  - destruct (blame_loop_ok i (records log) n Hi Hf Hnd Hb) as (n1 & -> & J1). cbn [mbind option_bind].
    rewrite (judging_pcs _ _ _ J1), Hpc. cbn [mbind option_bind]. unfold piece_log_hashes. rewrite El. cbn [mbind option_bind].
    eexists _, (Blog (records log) (Some sha) :: l). split; [reflexivity|]. split; [|by right].
    match goal with |- judging i (set_piece i ?x n) (set_piece i ?y n1) => assert (y = x) as -> by done end.
    by apply judging_set_piece.
Qed.

(** A net whose peers have been judged for a piece that nobody is asked for. *)
Lemma net_ok_judged W n n' i :
  net_ok tp W n -> (forall q, W q i = false) -> (forall pc, pcs n !! i = Some pc -> reqs pc = [] /\ log_ok n' i pc) ->
  judging i n n' -> net_ok tp W n'.
Proof.
  intros Hn HW Hpc [(m & b & ->) A2 A3].
  assert (forall q Q, m !! q = Some Q -> exists Q0, pst n !! q = Some Q0 /\ judged i Q0 Q) as Hback.
  { intros q Q HQ. specialize (A2 q). cbn in A2. rewrite HQ in A2. inversion A2 as [Q0 Q1 Hj E1 E2|]. by exists Q0. }
  assert (forall q Q0, pst n !! q = Some Q0 -> exists Q, m !! q = Some Q /\ judged i Q0 Q) as Hforth.
  { intros q Q0 HQ. specialize (A2 q). cbn in A2. rewrite HQ in A2. inversion A2. by eexists. }
  assert (forall Q0 Q j, judged i Q0 Q -> (j < np)%nat -> j <> i -> offers Q j = offers Q0 j) as Hoff.
  { intros Q0 Q j Hj Hlt Hne. unfold offers. rewrite (proj1 (jd_field _ _ _ Hj)), (jd_bad _ _ _ Hj) by done. done. }
  destruct Hn as [H1 H2 H3 [H4 H4'] H5 H6 [R1 R2 R3]]. split; try done.
  - by destruct H1.
  - intros j pcj Hj. cbn in Hj. destruct (decide (j = i)) as [->|Hne]; [by apply Hpc|].
    destruct (H3 j pcj Hj) as [(log & l & E & L1 & L2 & L3) L4]. split; [|done]. exists log, l. split_and!; try done.
    intros r Q Hr HQ. destruct (Hback _ _ HQ) as (Q0 & HQ0 & Hj0).
    rewrite (jd_bad _ _ _ Hj0); [by eapply L2| |done]. apply (sh_pcs _ _ H1). by eexists.
  - split; [done|]. intros q Hq. destruct (H4' q Hq) as [Q0 HQ0]. destruct (Hforth q Q0 HQ0) as (Q & HQ & _). by exists Q.
  - intros q Q Hq HQ. destruct (Hback q Q HQ) as (Q0 & HQ0 & Hj). rewrite (jd_want _ _ _ Hj), (H6 q Q0 Hq HQ0). f_equal.
    apply count_bits_ext. intros j Hlt. destruct (decide (j = i)) as [->|Hne]; [by rewrite HW, !andb_false_r|].
    by rewrite (Hoff Q0 Q).
  - split; cbn.
    + intros q Q r HQ Hr. destruct (Hback q Q HQ) as (Q0 & HQ0 & Hj). rewrite (proj1 (jd_reqs _ _ _ Hj)) in Hr.
      destruct (R1 q Q0 r HQ0 Hr) as (E1 & E2 & pcr & E3 & E4). split; [done|]. split; [|by exists pcr].
      rewrite (Hoff Q0 Q); try done; [apply (sh_pcs _ _ H1); by eexists|]. intros E. rewrite E in E3.
      destruct (Hpc pcr E3) as [Er _]. rewrite Er in E4. by apply not_elem_of_nil in E4.
    + intros j pcj r Hj Hr. destruct (R2 j pcj r Hj Hr) as (Q0 & HQ0 & Hr0). destruct (Hforth _ Q0 HQ0) as (Q & HQ & Hjd).
      exists Q. split; [done|]. by rewrite (proj1 (jd_reqs _ _ _ Hjd)).
    + intros q Q HQ. destruct (Hback q Q HQ) as (Q0 & HQ0 & Hj). rewrite (proj1 (jd_reqs _ _ _ Hj)). by eapply R3.
Qed.

(** A peer that could not be asked still cannot. *)
Lemma judging_idle i n n' q : fine (pst n) -> judging i n n' -> idle n q -> idle n' q.
Proof.
  intros Hf [_ A2 A3] Hi Q HQ. specialize (A2 q). rewrite HQ in A2. inversion A2 as [Q0 Q1 Hj E1 E2|]. subst Q1. symmetry in E1.
  specialize (Hi Q0 E1). destruct (Hf q Q0 E1) as [[seen Hok] _]. destruct (A3 q Q HQ) as [[seen' Hok'] _].
  rewrite (leech_eq np seen) in Hi by done. rewrite (leech_eq np seen') by done.
  destruct Hj as [_ Hw [_ Hr] _ [Hc Hb]]. unfold peer_laden in *. rewrite Hw, Hr, Hc.
  destruct (flag Q0 PF_BANNED); [by rewrite (Hb eq_refl); rewrite andb_false_r|].
  destruct (flag Q PF_BANNED); [by rewrite andb_false_r|exact Hi].
Qed.

Lemma judging_counts A i n n' : judging i n n' -> counts A n -> counts A n'.
Proof.
  intros [(m & b & ->) A2 _]. apply counts_same; [done|done|]. intros q. specialize (A2 q). cbn in A2 |- *.
  inversion A2 as [Q0 Q Hj|]; [|done]. cbn. by destruct (jd_field _ _ _ Hj) as [-> ->].
Qed.

(** ** A good piece *)

Definition dropped (i : nat) (f f' : list Z) (n : net) : net :=
  with_busy f' (npcs_busy n - 1) (but i (getlst n)) (delete i (pcs n)) (with_cm (npieces_got n + 1) f (block_field n) n).

Lemma length_but_in p l : NoDup l -> p ∈ l -> length l = S (length (but p l)).
Proof.
  intros Hl Hp. pose proof (tally_but (fun _ => true) p l Hl Hp) as H.
  assert (forall l, tally (fun _ => true) l = Z.of_nat (length l)) as E by (intros k; induction k as [|x k IH]; cbn; [done|rewrite IH; lia]).
  rewrite !E in H. lia.
Qed.

Lemma net_ok_dropped W n i pc f f' :
  net_ok tp W n -> pcs n !! i = Some pc -> reqs pc = [] ->
  length f = length (cm_field n) -> (forall j, bit f j = if decide (j = i) then true else bit (cm_field n) j) ->
  length f' = length (busy_field n) -> (forall j, bit f' j = if decide (j = i) then false else bit (busy_field n) j) ->
  net_ok tp W (dropped i f f' n).
Proof.
  intros Hn Hpc Er Hlf Hf Hlf' Hf'. destruct (piece_range tp Htp W n i Hn ltac:(by eexists)) as (Hi & Hcm & _).
  destruct Hn as [[S1 S2 S3 S4 [S5 S5'] S6 S7 S8 S9 S10] H2 H3 H4 H5 H6 [R1 R2 R3]].
  assert (i ∈ getlst n) as Hin by (apply S5'; by eexists).
  assert (forall j, is_Some (delete i (pcs n) !! j) <-> is_Some (pcs n !! j) /\ j <> i) as Hdom.
  { intros j. destruct (decide (j = i)) as [->|Hne]; [rewrite lookup_delete_eq; split; [by intros [? ?]|tauto]|].
    rewrite lookup_delete_ne by done. tauto. }
  split; try done.
  - split; try done; cbn.
    + congruence.
    + congruence.
    + split; [by apply NoDup_filter_bool|]. intros j. rewrite elem_of_but, Hdom, S5'. done.
    + intros j Hj. apply Hdom in Hj as [Hj Hne]. rewrite Hf, decide_False by done. by apply S6.
    + intros j Hj. rewrite Hf'. case_decide as Hd; [subst j; rewrite bool_decide_false; [done|rewrite Hdom; tauto]|].
      rewrite S7 by done. apply bool_decide_ext. rewrite Hdom. tauto.
    + rewrite S8, (length_but_in i (getlst n)) by done. lia.
    + rewrite S9, (count_bits_flip (bit (cm_field n)) (bit f) np i); [lia|done|done| |].
      * rewrite Hf. by case_decide.
      * intros j _ Hj. rewrite Hf. by case_decide.
    + intros j Hj Hc Hno. rewrite Hf in Hc. case_decide as Hd; [done|]. rewrite lookup_delete_ne in Hno by done. by apply S10.
  - intros j pcj Hj. cbn in Hj. apply lookup_delete_Some in Hj as [_ Hj]. by apply H2.
  - intros j pcj Hj. cbn in Hj. apply lookup_delete_Some in Hj as [_ Hj]. apply (log_ok_pst n); [done|by apply H3].
  - split; [|intros j pcj r Hj Hr|done]; cbn in *.
    + intros q Q r HQ Hr. destruct (R1 q Q r HQ Hr) as (E1 & E2 & pcr & E3 & E4). split; [done|]. split; [done|].
      exists pcr. split; [|done]. rewrite lookup_delete_ne; [done|]. intros E. rewrite <- E, Hpc in E3. simplify_eq.
      rewrite Er in E4. by apply not_elem_of_nil in E4.
    + apply lookup_delete_Some in Hj as [_ Hj]. by eapply R2.
Qed.

(** A complete piece has no request out. *)
Lemma complete_piece W n i pc : net_ok tp W n -> pcs n !! i = Some pc -> ngot pc = Z.of_nat (nblocks pc) ->
  reqs pc = [] /\ nreqs pc = 0 /\ nbusy pc = 0 /\ piece_full pc = true.
Proof.
  intros Hn Hpc Hg. pose proof (nk_piece _ _ _ Hn i pc Hpc) as Hk. pose proof (disjoint_le _ _ _ (pk_disjoint _ _ _ _ Hk)) as Hd.
  pose proof (pk_got _ _ _ _ Hk) as Eg. pose proof (pk_busy _ _ _ _ Hk) as Eb.
  assert (nbusy pc = 0) as E0 by lia. assert (reqs pc = []) as Er.
  { destruct (reqs pc) as [|r rs] eqn:E; [done|]. assert (r ∈ reqs pc) as Hr by (rewrite E; constructor).
    destruct (pk_range _ _ _ _ Hk r Hr) as (b & Hb & Eb' & _).
    assert (bit (down_field pc) b = true) as Hbit by (apply (pk_bits _ _ _ _ Hk b Hb); by exists r).
    assert (0 < count_bits (bit (down_field pc)) (nblocks pc))%nat; [|lia]. apply count_bits_pos. by exists b. }
  split; [done|]. split; [by rewrite (pk_nreqs _ _ _ _ Hk), Er|]. split; [done|]. unfold piece_full. apply Z.eqb_eq. lia.
Qed.

Lemma log_ok_logs n i pc : log_ok n i pc -> logs_ok pc.
Proof. intros [(log & l & E & _ & _ & H) H']. by exists log, l. Qed.

Lemma sound_fine W n : net_ok tp W n -> fine (pst n).
Proof. intros Hn q Q HQ. by apply (nk_peer _ _ _ Hn q Q). Qed.

Lemma test_good_ok n i pc sha : sound n -> counts all n -> pcs n !! i = Some pc -> ngot pc = Z.of_nat (nblocks pc) ->
  length sha = nblocks pc ->
  exists n', cm_test_piece tp choose_method rand RAND_MAX i true sha n = Some n' /\ sound n' /\ counts all n' /\ peers n' = peers n /\
    (forall q, idle n q -> idle n' q) /\ bit (cm_field n') i = true.
Proof.
  intros Hn Hc Hpc Hg Hsha. pose proof (nk_shape _ _ _ Hn) as Hs. destruct (complete_piece _ n i pc Hn Hpc Hg) as (Er & Enr & Enb & Efull).
  destruct (piece_range tp Htp _ n i Hn ltac:(by eexists)) as (Hi & Hcm & _).
  unfold cm_test_piece.
  assert (npieces_got n <? Z.of_nat np = true) as ->.
  { apply Z.ltb_lt. rewrite (sh_got _ _ Hs). pose proof (count_bits_le (bit (cm_field n)) np).
    assert (count_bits (bit (cm_field n)) np <> np); [|lia]. intros E. apply (proj1 (count_bits_full _ _)) with (i := i) in E; [congruence|done]. }
  cbn [ensure mbind option_bind].
  destruct (set_bit_ok (cm_field n) np i) as (f & -> & Hlf & Hf); [apply fits_bytes, (sh_cm _ _ Hs)|done|]. cbn [mbind option_bind].
  destruct (clear_bit_ok (busy_field n) np i) as (f' & Ef' & Hlf' & Hf'); [apply fits_bytes, (sh_busy _ _ Hs)|done|].
  set (n3 := with_cm _ _ _ n).
  assert (fine (pst n3)) as Hf3 by exact (sound_fine _ n Hn).
  unfold dl_on_ok_piece. change (dl_find_piece n3 i) with (dl_find_piece n i). rewrite (find_piece_some tp _ n i pc Hn Hpc). cbn [mbind option_bind].
  match goal with |- context[foreach (peers n3) ?F _] => destruct (judging_loop i F (peers n3) n3 Hf3) as (n4 & -> & J4) end.
  { intros p n' Hp [(m & b & En') A2 A3]. destruct (proj2 (nk_peers _ _ _ Hn) p Hp) as [P0 HP0].
    specialize (A2 p). change (pst n3 !! p) with (pst n !! p) in A2. rewrite HP0 in A2. inversion A2 as [P0' P Hj E1 E2|]. symmetry in E2.
    cbn [mbind option_bind]. destruct (A3 p P E2) as [[seen Hok] Hsus]. unfold peer_has.
    rewrite (has_bit_ok _ np) by (done || apply fits_bytes, (po_field _ _ _ Hok)). cbn [mbind option_bind].
    destruct (negb _); [|exists n'; split; [done|by apply judging_refl]].
    destruct (peer_send_ok np seen (NB_HAVE (Z.of_nat i)) P Hok) as [E Hok']; [done..|].
    unfold on_peer. rewrite E2. cbn [mbind option_bind]. rewrite E. cbn [mbind option_bind]. eexists. split; [reflexivity|].
    apply (judging_peer i n' p P); [exact A3|done|by apply alike_judged|by exists seen|done]. }
  cbn [mbind option_bind].
  destruct (piece_log_good_ok i sha n4 pc Hi (jg_fine _ _ _ J4)) as (n5 & pc5 & -> & J5 & Enr5); try done.
  { by rewrite (judging_pcs _ _ _ J4). } { by eapply log_ok_logs, (nk_log _ _ _ Hn). }
  cbn [mbind option_bind]. assert (pcs n5 = <[i := pc5]> (pcs n)) as Ep5.
  { rewrite (judging_pcs _ _ _ J5). cbn. by rewrite (judging_pcs _ _ _ J4). }
  rewrite Ep5, lookup_insert_eq. cbn [mbind option_bind]. rewrite Enr5, Enr. cbn [Z.eqb ensure mbind option_bind].
  assert (judging i (set_piece i pc5 n3) n5) as J by (eapply judging_trans; [by apply judging_set_piece|exact J5]).
  destruct (jg_net _ _ _ J) as (m & b & En5).
  assert (piece_free i n5 = Some (with_pst m (with_banned b (dropped i f f' n)))) as ->.
  { unfold piece_free. rewrite Ep5, lookup_insert_eq. cbn [mbind option_bind]. rewrite En5. cbn [npcs_busy busy_field with_pst with_peers with_banned].
    assert (npcs_busy (set_piece i pc5 n3) >? 0 = true) as ->.
    { cbn. rewrite (sh_nbusy _ _ Hs). assert (i ∈ getlst n) as Hin by (apply (sh_getlst _ _ Hs); by eexists).
      destruct (getlst n); [by apply not_elem_of_nil in Hin|]. apply Z.gtb_lt. cbn. lia. }
    cbn [ensure mbind option_bind]. change (busy_field (set_piece i pc5 n3)) with (busy_field n). rewrite Ef'. cbn [mbind option_bind].
    f_equal. unfold dropped, with_pst, with_peers, with_banned, with_busy, with_cm. cbn. by rewrite delete_insert_eq. }
  assert (net_ok tp (fun _ j => true && wanted n j) (dropped i f f' n)) as Hd by by eapply net_ok_dropped.
  assert (judging i (dropped i f f' n) (with_pst m (with_banned b (dropped i f f' n)))) as Jd.
  { destruct J as [_ A2 A3]. rewrite En5 in A2, A3. split; [by exists m, b|exact A2|exact A3]. }
  assert (wanted n i = false) as Hw by (rewrite (wanted_busy n i pc), Efull; done).
  eexists. split; [reflexivity|]. split; [|split; [|split; [done|split]]].
  - eapply net_ok_ext; [|apply (net_ok_judged _ _ _ i Hd); [|intros pc0 H0; cbn in H0; by rewrite lookup_delete_eq in H0|exact Jd]].
    + intros q j _ _. cbn beta. f_equal. unfold wanted. cbn. rewrite Hf. case_decide as Hd'.
      * subst j. change (wanted n i = false). exact Hw.
      * by rewrite lookup_delete_ne.
    + intros _. by rewrite Hw.
  - apply (judging_counts all i _ _ Jd). by apply (counts_same tp all n).
  - intros q. apply (judging_idle i (dropped i f f' n)); [exact (sound_fine _ n Hn)|done].
  - cbn. rewrite Hf. by case_decide.
Qed.
(** ** A bad piece *)

Lemma clear_bits_ok f m k : fits f m -> (k <= m)%nat -> exists f', clear_bits f k = Some f' /\ length f' = length f /\
  forall b, (b < k)%nat -> bit f' b = false.
Proof.
  intros Hf. induction k as [|k IH]; intros Hk; cbn [clear_bits]; [exists f; split_and!; [done|done|lia]|].
  destruct IH as (g & -> & Hl & Hg); [lia|]. cbn [mbind option_bind].
  destruct (clear_bit_ok g m k) as (f' & -> & Hl' & Hf'); [unfold fits in *; lia|lia|]. exists f'. split_and!; [done|congruence|].
  intros b Hb. rewrite Hf'. case_decide; [done|]. apply Hg. lia.
Qed.

(** The piece as if nothing of it had come, with a new log. *)
Definition restarted (f : list Z) (lg : list blog) (pc : piece) : piece :=
  BtNet.Piece (nblocks pc) 0 0 (nreqs pc) (next_block pc) (reqs pc) (Blog [] None :: lg) f.

Lemma restarted_ok r i pc f lg m : piece_ok tp r i pc -> reqs pc = [] -> nreqs pc = 0 -> length f = length (down_field pc) ->
  (forall b, (b < nblocks pc)%nat -> bit f b = false) -> piece_ok tp (replicate m 0) i (restarted f lg pc).
Proof.
  intros [] Er En Hl Hf. split; cbn; rewrite ?Er, ?En; try done.
  - congruence.
  - by rewrite count_none by (intros; apply bit_zeros).
  - by rewrite count_none by done.
  - intros b Hb. by rewrite bit_zeros.
  - by apply NoDup_nil_2.
  - intros q Hq. by apply not_elem_of_nil in Hq.
  - intros b Hb. rewrite Hf by done. split; [done|]. intros (q & Hq & _). by apply not_elem_of_nil in Hq.
  - intros q Hq. by apply not_elem_of_nil in Hq.
Qed.

Lemma log_ok_fresh n i pc lg : (forall bad, bad ∈ lg -> exists h, hashes bad = Some h /\ length h = nblocks pc) ->
  (forall log r, log ∈ lg -> r ∈ records log -> length (br_field r) = field_bytes (nblocks pc)) ->
  logs pc = Blog [] None :: lg -> log_ok n i pc.
Proof.
  intros H1 H2 E. split.
  - exists (Blog [] None), lg. split_and!; [done|apply NoDup_nil_2| |done]. intros r P Hr. by apply not_elem_of_nil in Hr.
  - intros log r Hl Hr. rewrite E in Hl. apply elem_of_cons in Hl as [->|Hl]; [by apply not_elem_of_nil in Hr|by eapply H2].
Qed.

(** The net in which piece [i] is to be fetched again, nobody counting it yet. *)
Lemma net_ok_restarted n i pc p P f lg m :
  sound n -> pcs n !! i = Some pc -> pst n !! p = Some P -> ngot pc = Z.of_nat (nblocks pc) ->
  fits (replicate m 0) (blocks i) -> length f = length (down_field pc) -> (forall b, (b < nblocks pc)%nat -> bit f b = false) ->
  log_ok n i (restarted f lg pc) ->
  net_ok tp (fun _ j => wanted n j && negb (j =? i)%nat)
    (set_piece i (restarted f lg pc) (with_cm (npieces_got n) (cm_field n) (<[i := replicate m 0]> (block_field n)) n)).
Proof.
  intros Hn Hpc HP Hg Hfit Hlf Hf Hlk. destruct (complete_piece _ n i pc Hn Hpc Hg) as (Er & Enr & Enb & Efull).
  pose proof (piece_range tp Htp _ n i Hn ltac:(by eexists)) as (Hi & Hcm & _).
  assert (net_ok tp (fun _ j => wanted n j && negb (j =? i)%nat) n) as Hn'.
  { eapply net_ok_ext; [|exact Hn]. intros q j _ _. cbn beta. destruct (Nat.eqb_spec j i) as [->|]; [|by rewrite andb_true_r].
    by rewrite (wanted_busy n i pc), Efull. }
  destruct (nk_peer _ _ _ Hn p P HP) as [Hok _].
  pose proof (net_ok_edit tp _ n i (replicate m 0) pc (restarted f lg pc) p P P Hn' Hpc HP Hfit) as H. unfold edit in H.
  change (pst n) with (pst (set_piece i (restarted f lg pc) (with_cm (npieces_got n) (cm_field n) (<[i := replicate m 0]> (block_field n)) n))) in H.
  rewrite with_pst_self in H by done. apply H; try done.
  - apply (restarted_ok (row n i)); try done. apply (nk_piece _ _ _ Hn i pc Hpc).
  - split; try done; [by left|..].
    + intros r E1 E2. change (reqs (restarted f lg pc)) with (reqs pc). by apply (reqs_match n i pc p P r (nk_reqs _ _ _ Hn)).
    + by eapply (rk_nodup _ (nk_reqs _ _ _ Hn)).
Qed.

Lemma test_bad_ok n i pc p P sha log l : sound n -> counts all n -> pcs n !! i = Some pc -> pst n !! p = Some P ->
  ngot pc = Z.of_nat (nblocks pc) -> length sha = nblocks pc -> logs pc = log :: l -> records log <> [] ->
  (forall q Q, pst n !! q = Some Q -> suspicion Q < 2) -> (forall q, q ∈ peers n -> q <> p -> idle n q) ->
  exists n', cm_test_piece tp choose_method rand RAND_MAX i false sha n = Some n' /\ sound n' /\ counts all n' /\ peers n' = peers n /\
    (forall q, q ∈ peers n -> q <> p -> idle n' q).
Proof.
  intros Hn Hc Hpc HP Hg Hsha El Hne Hsus Hidle. pose proof (nk_shape _ _ _ Hn) as Hs.
  destruct (complete_piece _ n i pc Hn Hpc Hg) as (Er & Enr & Enb & Efull).
  pose proof (piece_range tp Htp _ n i Hn ltac:(by eexists)) as (Hi & Hcm & Hpos & _).
  pose proof (nk_piece _ _ _ Hn i pc Hpc) as Hk. destruct (nk_log _ _ _ Hn i pc Hpc) as [(log' & l' & El' & Hnd & Hbad & Hh) Hfields].
  rewrite El in El'. injection El' as <- <-.
  destruct (clear_bits_ok (down_field pc) (nblocks pc) (nblocks pc)) as (f & Ef & Hlf & Hf); [apply fits_bytes, (pk_down _ _ _ _ Hk)|done|].
  unfold cm_test_piece. rewrite (row_lookup _ _ _ Hs Hi). cbn [mbind option_bind]. set (m := length (row n i)).
  set (n3 := with_cm _ _ _ n). unfold dl_on_bad_piece. change (dl_find_piece n3 i) with (dl_find_piece n i).
  rewrite (find_piece_some tp _ n i pc Hn Hpc). cbn [mbind option_bind]. rewrite Ef. cbn [mbind option_bind].
  set (pc0 := BtNet.Piece _ _ _ _ _ _ _ _). set (n4 := set_piece i pc0 n3).
  destruct (piece_log_bad_ok i sha n4 pc0 log l Hi) as (n5 & lg & -> & J & Hlg).
  { exact (sound_fine _ n Hn). } { cbn. by rewrite lookup_insert_eq. } { done. } { done. } { done. }
  { intros r Q Hr HQ. split; [by apply (Hbad r)|by apply (Hsus (br_mp r))]. }
  { intros r Hr. apply (Hfields log); [|done]. rewrite El. constructor. }
  cbn [mbind option_bind]. change (with_logs (Blog [] None :: lg) pc0) with (restarted f lg pc) in J.
  assert (forall bad, bad ∈ lg -> exists h, hashes bad = Some h /\ length h = nblocks pc) as Hlg1.
  { intros bad Hb. destruct Hlg as [-> | ->]; [by apply Hh|]. apply elem_of_cons in Hb as [->|Hb]; [by exists sha|by apply Hh]. }
  assert (forall lo r, lo ∈ lg -> r ∈ records lo -> length (br_field r) = field_bytes (nblocks pc)) as Hlg2.
  { intros lo r Hlo Hr. destruct Hlg as [-> | ->]; [apply (Hfields lo); [rewrite El; by constructor|done]|].
    apply elem_of_cons in Hlo as [->|Hlo]; [apply (Hfields log); [rewrite El; constructor|done]|apply (Hfields lo); [rewrite El; by constructor|done]]. }
  assert (forall n0, log_ok n0 i (restarted f lg pc)) as Hlk by (intros n0; by apply (log_ok_fresh n0 i _ lg)).
  assert (fits (replicate m 0) (blocks i)) as Hfit.
  { pose proof (row_fits tp _ n i Hn Hi) as H. unfold fits in *. by rewrite length_replicate. }
  pose proof (net_ok_restarted n i pc p P f lg m Hn Hpc HP Hg Hfit Hlf Hf (Hlk n)) as Hna. fold n3 in Hna.
  set (na := set_piece i (restarted f lg pc) n3) in *.
  assert (judging i na n5) as J'.
  { assert (set_piece i (restarted f lg pc) n4 = na) as <-; [|exact J]. unfold na, n4, set_piece, with_pcs, with_busy. cbn. by rewrite insert_insert_eq. }
  assert (net_ok tp (fun _ j => wanted n j && negb (j =? i)%nat) n5) as Hn5.
  { apply (net_ok_judged _ na n5 i Hna); [by intros; rewrite Nat.eqb_refl, andb_false_r| |exact J'].
    intros pc1 H1. cbn in H1. rewrite lookup_insert_eq in H1. injection H1 as <-. split; [exact Er|apply Hlk]. }
  assert (pcs n5 !! i = Some (restarted f lg pc)) as Hpc5 by (rewrite (judging_pcs _ _ _ J'); cbn; by rewrite lookup_insert_eq).
  assert (forall j, j <> i -> wanted n5 j = wanted n j) as Hw.
  { intros j Hj. unfold wanted. rewrite (judging_pcs _ _ _ J'). destruct (jg_net _ _ _ J') as (m' & b & ->). cbn. by rewrite lookup_insert_ne. }
  assert (peers n5 = peers n) as Hp5 by (destruct (jg_net _ _ _ J') as (m' & b & ->); done).
  destruct (dl_on_piece_unfull_ok tp Htp (fun q => q = p) i n5 (restarted f lg pc)) as (n' & E & Hn' & Hsv & Hi' & _).
  - eapply net_ok_ext; [|exact Hn5]. intros q j _ _. cbn beta. destruct (Nat.eqb_spec j i) as [->|Hj]; [by rewrite !andb_false_r|by rewrite Hw].
  - done.
  - unfold piece_full. cbn. apply Z.eqb_neq. rewrite (pk_blocks _ _ _ _ Hk). lia.
  - intros q Hq Hx Q j HQ Hop Hj Hji Ho. rewrite Hp5 in Hq.
    pose proof (judging_idle i na n5 q (sound_fine _ n Hn) J' (Hidle q Hq Hx) Q HQ) as El'.
    rewrite Hw by done. destruct (wanted n j) eqn:Ew; [|done]. rewrite <- El'. symmetry.
    apply (leech_iff tp _ n5 q Q Hn5); [by rewrite Hp5|done|]. split; [done|]. exists j. split_and!; try done.
    cbn beta. by rewrite Ew, (proj2 (Nat.eqb_neq _ _) Hji).
  - exists n'. split; [exact E|]. split; [done|]. split; [|split].
    + apply (counts_served tp _ n5); [done|]. apply (judging_counts all i na n5 J'). by apply (counts_same tp all n).
    + by rewrite (sv_peers _ _ Hsv).
    + intros q Hq Hx. apply Hi'; [by rewrite Hp5|done].
Qed.
(** ** A block *)

(** The log with a block of the peer. *)
Lemma piece_log_block_ok n i pc p P b :
  log_ok n i pc -> pst n !! p = Some P -> bad_bit P i = false -> (b < nblocks pc)%nat ->
  exists rs hs l, piece_log_block pc p (Z.of_nat b * PIECE_BLOCKLEN) = Some (with_logs (Blog rs hs :: l) pc) /\ rs <> [] /\
    log_ok n i (with_logs (Blog rs hs :: l) pc).
Proof.
  intros [(log & l & El & Hnd & Hbad & Hh) Hfields] HP HPb Hb. unfold piece_log_block. rewrite El, block_of.
  set (old := find _ _). set (field := match old with Some r => br_field r | None => _ end).
  assert (length field = field_bytes (nblocks pc)) as Hlen.
  { unfold field. destruct old as [r|] eqn:Eo; [|apply length_replicate]. apply find_some in Eo as [Eo _].
    apply (Hfields log); [rewrite El; constructor|]. by apply list_elem_of_In. }
  destruct (set_bit_ok field (nblocks pc) b) as (f & -> & Hlf & _); [by apply fits_bytes|done|]. cbn [mbind option_bind].
  eexists _, _, _. split; [reflexivity|]. split; [done|].
  assert (forall r, r ∈ List.filter (fun r => negb (br_mp r =? p)%nat) (records log) -> r ∈ records log /\ br_mp r <> p) as Hfil.
  { intros r Hr. apply list_elem_of_In, filter_In in Hr as [Hr Hr']. apply negb_true_iff, Nat.eqb_neq in Hr'. by apply list_elem_of_In in Hr. }
  split.
  - eexists _, l. split; [reflexivity|]. cbn [records]. split; [|split; [|done]].
    + cbn. apply NoDup_cons. split; [|by apply fmap_filter_NoDup]. intros Hin.
      apply list_elem_of_fmap in Hin as (r & E & Hr). apply Hfil in Hr as [_ Hr]. by apply Hr.
    + intros r Q Hr HQ. apply elem_of_cons in Hr as [->|Hr]; [cbn in HQ; by simplify_eq|]. apply Hfil in Hr as [Hr _]. by eapply Hbad.
  - intros lo r Hlo Hr. cbn [logs with_logs nblocks] in *. apply elem_of_cons in Hlo as [->|Hlo].
    + cbn [records] in Hr. apply elem_of_cons in Hr as [->|Hr]; [cbn; congruence|]. apply Hfil in Hr as [Hr _].
      apply (Hfields log); [rewrite El; constructor|done].
    + apply (Hfields lo); [rewrite El; by constructor|done].
Qed.

(** What is left to do once the block is in its place. *)
Definition after_block (p i : nat) (ok : bool) (sha : list Z) (n : net) : option net :=
  pc ← pcs n !! i;
  n ← (if ngot pc =? Z.of_nat (nblocks pc) then cm_test_piece tp choose_method rand RAND_MAX i ok sha n else Some n);
  P ← pst n !! p;
  if peer_leech_ok P then dl_assign_requests tp choose_method rand RAND_MAX p n else Some n.

Lemma after_block_ok n p P i pc ok sha log l : sound n -> counts all n -> p ∈ peers n -> pst n !! p = Some P -> pcs n !! i = Some pc ->
  (forall q, q ∈ peers n -> q <> p -> idle n q) -> length sha = nblocks pc -> logs pc = log :: l -> records log <> [] ->
  (ok = false -> forall q Q, pst n !! q = Some Q -> suspicion Q < 2) ->
  exists n', after_block p i ok sha n = Some n' /\ in_order n' /\ peers n' = peers n.
Proof.
  intros Hn Hc Hp HP Hpc Hidle Hsha El Hne Hsus. unfold after_block. rewrite Hpc. cbn [mbind option_bind].
  assert (exists n1, (if ngot pc =? Z.of_nat (nblocks pc) then cm_test_piece tp choose_method rand RAND_MAX i ok sha n else Some n) = Some n1 /\
    sound n1 /\ counts all n1 /\ peers n1 = peers n /\ (forall q, q ∈ peers n -> q <> p -> idle n1 q)) as (n1 & -> & Hn1 & Hc1 & Hp1 & Hi1).
  { destruct (Z.eqb_spec (ngot pc) (Z.of_nat (nblocks pc))) as [Hg|Hg]; [|by exists n]. destruct ok.
    - destruct (test_good_ok n i pc sha Hn Hc Hpc Hg Hsha) as (n1 & -> & ? & ? & ? & Hi & _). exists n1. split_and!; auto.
    - apply (test_bad_ok n i pc p P sha log l); try done. by apply Hsus. }
  cbn [mbind option_bind]. destruct (proj2 (nk_peers _ _ _ Hn1) p) as [P1 HP1]; [by rewrite Hp1|]. rewrite HP1. cbn [mbind option_bind].
  destruct (assign_if_ok tp Htp choose_method rand RAND_MAX Hrand n1 p P1 Hn1 Hc1) as (n2 & E & Hord & Hs); [by rewrite Hp1|done| |].
  { intros q Hq. rewrite Hp1 in Hq. by apply Hi1. }
  exists n2. split; [exact E|]. split; [done|]. by rewrite (sv_peers _ _ Hs).
Qed.

(** The request is answered: the peer and the piece are rid of it, the block is there. *)
Lemma block_in_place n p P req : sound n -> pst n !! p = Some P -> req ∈ my_reqs P ->
  exists P' pc n' log l, (if nreqs_out P - 1 =? 0 then peer_on_no_reqs (with_reqs (without req (my_reqs P)) (nreqs_out P - 1) P)
      else Some (with_reqs (without req (my_reqs P)) (nreqs_out P - 1) P)) = Some P' /\
    (forall ok sha, dl_on_block tp choose_method rand RAND_MAX p req ok sha (with_pst (<[p := P']> (pst n)) n) =
       after_block p (rq_index req) ok sha n') /\
    sound n' /\ peers n' = peers n /\ piece_count n' = piece_count n /\ same P P' /\ pst n' = <[p := P']> (pst n) /\
    pcs n' !! rq_index req = Some pc /\ nblocks pc = blocks (rq_index req) /\ logs pc = log :: l /\ records log <> [].
Proof.
  intros Hn HP Hreq. set (i := rq_index req). pose proof (nk_reqs _ _ _ Hn) as Hr.
  destruct (rk_peer _ Hr p P req HP Hreq) as (Ep & Ho & pc & Hpc & Hreq'). fold i in Ho, Hpc.
  destruct (piece_range tp Htp _ n i Hn ltac:(by eexists)) as (Hi & Hcm & _).
  pose proof (nk_piece _ _ _ Hn i pc Hpc) as Hk. destruct (proj1 (nk_peer _ _ _ Hn p P HP)) as [seen Hok].
  pose proof (rk_nodup _ Hr p P HP) as Hnd. destruct (pk_range _ _ _ _ Hk req Hreq') as (b & Hb & Eb & _).
  assert (Z.of_nat (length (without req (my_reqs P))) = nreqs_out P - 1) as Ek.
  { rewrite length_without by done. by rewrite (proj1 (po_reqs _ _ _ Hok)). }
  destruct (drop_reqs_ok np seen P (without req (my_reqs P)) Hok) as (P' & EP' & Hok' & F1 & F2 & F3 & F4 & F5 & F6 & F7 & F8).
  { rewrite (proj1 (po_reqs _ _ _ Hok)) in Ek. lia. }
  rewrite Ek in EP'.
  assert (bad_bit P i = false) as Hbad by (unfold offers in Ho; apply andb_true_iff in Ho as [_ Ho]; by apply negb_true_iff in Ho).
  destruct (piece_log_block_ok n i pc p P b (nk_log _ _ _ Hn i pc Hpc) HP Hbad Hb) as (rs & hs & l & Elog & Hrs & Hlog).
  assert (fits (row n i) (nblocks pc)) as Hfit by (rewrite (pk_blocks _ _ _ _ Hk); by eapply row_fits).
  assert (bit (down_field pc) b = true) as Hd by (apply (pk_bits _ _ _ _ Hk b Hb); by exists req).
  assert (bit (row n i) b = false) as Hrb by (destruct (bit (row n i) b) eqn:E; [|done]; by rewrite (pk_disjoint _ _ _ _ Hk b Hb E) in Hd).
  destruct (set_bit_ok (row n i) (nblocks pc) b Hfit Hb) as (r' & Er' & Hlr' & Hr').
  destruct (clear_bit_ok (down_field pc) (nblocks pc) b) as (f & Ef & Hlf & Hf); [apply fits_bytes, (pk_down _ _ _ _ Hk)|done|].
  destruct (unbusy_ok tp (row n i) r' i pc req b true f (Blog rs hs :: l) Hk Hreq' Eb Hb Hlf Hf) as [_ Hk2]; [by intros j _|].
  match type of Hk2 with piece_ok _ _ _ ?x => set (pc2 := x) in * end.
  exists P', pc2, (edit i r' pc2 p P' n), (Blog rs hs), l. split; [exact EP'|].
  assert (net_ok tp (fun _ j => true && wanted n j) (edit i r' pc2 p P' n)) as Hn2.
  { apply (net_ok_edit tp _ n i r' pc pc2 p P P'); try done.
    - unfold fits in *. rewrite <- (pk_blocks _ _ _ _ Hk). lia.
    - by apply (log_ok_same n i (with_logs (Blog rs hs :: l) pc)).
    - by exists seen.
    - split; rewrite ?F1.
      + intros r Hr0. apply elem_of_without in Hr0 as [Hr0 _]. by left.
      + intros r E1 E2. change (reqs pc2) with (without req (reqs pc)). rewrite !elem_of_without. by rewrite (reqs_match n i pc p P r Hr Hpc HP E1 E2).
      + intros r E1. rewrite elem_of_without. split; [tauto|]. intros Hr0. split; [done|]. by intros ->.
      + intros r E1. change (reqs pc2) with (without req (reqs pc)). rewrite elem_of_without. split; [tauto|]. intros Hr0.
        split; [done|]. by intros ->.
      + by apply NoDup_without. }
  split; [|split; [|split; [done|split; [done|split; [by split|split; [done|split; [|split; [|done]]]]]]]].
  - intros ok sha. unfold dl_on_block, after_block. fold i.
    change (dl_find_piece (with_pst (<[p:=P']> (pst n)) n) i) with (dl_find_piece n i). rewrite (find_piece_some tp _ n i pc Hn Hpc).
    cbn [mbind option_bind]. rewrite Eb, Elog. cbn [mbind option_bind]. unfold cm_put_bytes.
    cbn [block_field set_piece with_pcs with_busy with_pst with_peers]. rewrite (row_lookup _ _ _ (nk_shape _ _ _ Hn) Hi). cbn [mbind option_bind].
    rewrite block_of, (has_bit_ok (row n i) (nblocks pc)), Hrb by done. cbn [negb ensure mbind option_bind cm_field].
    rewrite (has_bit_ok (cm_field n) np), Hcm by (done || apply fits_bytes, (sh_cm _ _ (nk_shape _ _ _ Hn))).
    cbn [negb ensure mbind option_bind]. rewrite Er'. cbn [mbind option_bind down_field with_logs]. rewrite Ef. cbn [mbind option_bind].
    assert (forall n0, n0 = edit i r' pc2 p P' n -> pcs n0 !! i = Some pc2) as Hp2 by (intros n0 ->; cbn; by rewrite lookup_insert_eq).
    match goal with |- context[set_piece i ?x ?y] => assert (set_piece i x y = edit i r' pc2 p P' n) as -> end.
    { unfold edit, set_piece, with_pcs, with_busy, with_pst, with_peers, with_cm. cbn. by rewrite insert_insert_eq. }
    rewrite (Hp2 _ eq_refl). done.
  - eapply net_ok_ext; [|exact Hn2]. intros q j _ _. cbn beta. f_equal. unfold wanted. cbn.
    destruct (decide (j = i)) as [->|Hne]; [|by rewrite lookup_insert_ne].
    rewrite lookup_insert_eq, Hpc. do 2 f_equal. unfold piece_full. cbn. f_equal. lia.
  - cbn. by rewrite lookup_insert_eq.
  - apply (pk_blocks _ _ _ _ Hk).
Qed.

Lemma peer_on_piece_ok n p i begin length ok sha :
  in_order n -> p ∈ peers n -> Datatypes.length sha = blocks i ->
  (ok = false -> forall q Q, pst n !! q = Some Q -> suspicion Q < 2) ->
  exists n', peer_on_piece tp choose_method rand RAND_MAX p i begin length ok sha n = Some n' /\ in_order n' /\ peers n' = peers n.
Proof.
  intros [Hn Hc Hidle] Hp Hsha Hsus. destruct (proj2 (nk_peers _ _ _ Hn) p Hp) as [P HP].
  unfold peer_on_piece. rewrite HP. cbn [mbind option_bind]. destruct (find _ (my_reqs P)) as [req|] eqn:Ef; [|by exists n].
  apply find_some in Ef as [Hin Ef]. apply list_elem_of_In in Hin. apply andb_true_iff in Ef as [Ef _]. apply andb_true_iff in Ef as [_ Ef].
  apply Nat.eqb_eq in Ef. destruct (proj1 (nk_peer _ _ _ Hn p P HP)) as [seen Hok].
  assert (nreqs_out P >? 0 = true) as ->.
  { rewrite (proj1 (po_reqs _ _ _ Hok)). destruct (my_reqs P); [by apply not_elem_of_nil in Hin|]. apply Z.gtb_lt. cbn. lia. }
  cbn [ensure mbind option_bind nreqs_out with_reqs]. fold (without req (my_reqs P)).
  destruct (block_in_place n p P req Hn HP Hin) as (P' & pc & n1 & log & l & -> & Eb & Hn1 & Hp1 & Hc1 & Hs & Epst & Hpc & Hnb & El & Hne).
  cbn [mbind option_bind]. rewrite Eb. rewrite Ef in *.
  destruct (after_block_ok n1 p P' i pc ok sha log l Hn1) as (n' & E & Hord & Hpp); try done.
  - apply (counts_same tp all n); [done|done| |done]. intros q. rewrite Epst. destruct (decide (q = p)) as [->|Hne'].
    + rewrite lookup_insert_eq, HP. cbn. by destruct (sm_field _ _ Hs) as [-> ->].
    + by rewrite lookup_insert_ne.
  - by rewrite Hp1.
  - by rewrite Epst, lookup_insert_eq.
  - intros q Hq Hx Q HQ. rewrite Hp1 in Hq. rewrite Epst, lookup_insert_ne in HQ by done. by apply (Hidle q Hq).
  - congruence.
  - intros Eok q Q HQ. rewrite Epst in HQ. apply lookup_insert_Some in HQ as [[_ <-]|[_ HQ]]; [|by apply (Hsus Eok q)].
    destruct (sm_bad _ _ Hs) as (_ & _ & ->). by apply (Hsus Eok p).
  - exists n'. split; [exact E|]. split; [done|]. by rewrite Hpp.
Qed.
End Block.
