(* ===== verification/BtDownload.v ===== *)
(** The download of a torrent in the BitTorrent daemon as a state machine: the events
    of its peers, and what holds of every state they lead to. *)
From S2P Require Import Prelude Bitfield BtPeer BtNet BtInv BtAssign BtChoice BtStart BtRelease BtHave BtChoke BtBlock.
Local Open Scope Z_scope.

#[local] Arguments count_bits : simpl never.
#[local] Arguments bit : simpl never.

(** What happens to the net of a torrent: the messages of its peers (EWants is what a
    peer says it wants of us), the peers that come and go, our own choking, the
    writing of the queues, and the numbers that others draw from [rand].  A piece comes with the
    result of the test and the hashes of the blocks, should it be the last block. *)
Inductive event :=
  | EShake (p : nat) (P : peer)
  | EKill (p : nat)
  | EChoke (p : nat)
  | EUnchoke (p : nat)
  | EHave (p i : nat)
  | EBitfield (p : nat) (field : list Z)
  | EPiece (p i : nat) (begin length : Z) (ok : bool) (sha : list Z)
  | ERequest (p : nat) (index begin length : Z)
  | ECancel (p : nat) (index begin length : Z)
  | EWritten (p : nat) (bcount : Z)
  | EWeChoke (p : nat)
  | EWeUnchoke (p : nat)
  | EKeepalive (p : nat)
  | EWants (p : nat) (want : bool)
  | ERand.

Section Machine.
Context (tp : torrent) (choose_method : Z) (rand : nat -> Z) (RAND_MAX : Z).
Local Notation np := (tp_npieces tp).

Definition handle (e : event) (n : net) : option net :=
  match e with
  | EShake p P => peer_on_shake tp p P n
  | EKill p => peer_kill tp p n
  | EChoke p => peer_on_choke tp p n
  | EUnchoke p => peer_on_unchoke tp choose_method rand RAND_MAX p n
  | EHave p i => peer_on_have tp p i n
  | EBitfield p field => peer_on_bitfield tp p field n
  | EPiece p i begin length ok sha => peer_on_piece tp choose_method rand RAND_MAX p i begin length ok sha n
  | ERequest p index begin length => on_peer (peer_on_request index begin length) p n
  | ECancel p index begin length => on_peer (peer_on_cancel index begin length) p n
  | EWritten p bcount => on_peer (fun P => net_written (S (length (outq P))) bcount P) p n
  | EWeChoke p => on_peer peer_choke p n
  | EWeUnchoke p => on_peer peer_unchoke p n
  | EKeepalive p => on_peer peer_keepalive p n
  | EWants p want => on_peer (fun P => Some (if want then set_flag PF_P_WANT P else clear_flag PF_P_WANT P)) p n
  | ERand => Some (with_calls (S (calls n)) n)
  end.

(** The events that can come: the peers are attached and the messages well formed, no
    more is written than is queued, there are less than 2^32 peers and messages, and no
    peer of a bad piece becomes a suspect. *)
Definition legal (n : net) (e : event) : Prop :=
  match e with
  | EShake p P => pst n !! p = None /\ new_peer P /\ Z.of_nat (length (peers n)) + 1 < 2 ^ 32
  | EKill p | EChoke p | EUnchoke p | ECancel p _ _ _ | EWeChoke p | EWeUnchoke p | EKeepalive p | EWants p _ => p ∈ peers n
  | EHave p i => p ∈ peers n /\ (i < np)%nat
  | EBitfield p field => p ∈ peers n /\ length field = field_bytes np /\ forall P, pst n !! p = Some P -> npieces P = 0
  | EPiece p i _ _ ok sha => p ∈ peers n /\ length sha = torrent_piece_blocks tp i /\
      (ok = false -> forall q Q, pst n !! q = Some Q -> suspicion Q < 2)
  | ERequest p _ _ length => p ∈ peers n /\ 0 <= length /\
      forall P, pst n !! p = Some P -> Z.of_nat (Datatypes.length (outq P)) + 1 < 2 ^ 32
  | EWritten p bcount => p ∈ peers n /\ forall P, pst n !! p = Some P -> 0 <= bcount <= queued (outq P) - outq_off P
  | ERand => True
  end.

(** A content: its fields have their sizes, and a missing piece misses a block. *)
Record content_ok (got : Z) (field : list Z) (rows : list (list Z)) : Prop := ContentOk {
  co_field : length field = field_bytes np;
  co_rows : length rows = np /\ forall i, (i < np)%nat -> fits (nth i rows []) (torrent_piece_blocks tp i);
  co_got : got = Z.of_nat (count_bits (bit field) np);
  co_missing : forall i, (i < np)%nat -> bit field i = false ->
    (count_bits (bit (nth i rows [])) (torrent_piece_blocks tp i) < torrent_piece_blocks tp i)%nat
}.

Inductive reachable : net -> Prop :=
  | reach_start got field rows : content_ok got field rows -> reachable (net_create tp got field rows)
  | reach_event n e n' : reachable n -> legal n e -> handle e n = Some n' -> reachable n'.

Hypothesis Htp : torrent_ok tp.
Hypothesis Hrand : 0 < RAND_MAX /\ forall k, 0 <= rand k <= RAND_MAX.
Local Notation in_order := (in_order tp).

Lemma net_create_ok got field rows : content_ok got field rows -> in_order (net_create tp got field rows).
Proof.
  intros [C1 C2 C3 C4]. split.
  - split; cbn.
    + split; cbn; try done.
      * apply length_replicate.
      * apply length_replicate.
      * split; [apply NoDup_nil_2|]. intros i. rewrite lookup_empty. split; [intros Hi; by apply not_elem_of_nil in Hi|by intros [? ?]].
      * intros i Hi. rewrite lookup_empty in Hi. by destruct Hi.
      * intros i _. rewrite bit_zeros. symmetry. apply bool_decide_eq_false. rewrite lookup_empty. by intros [? ?].
      * intros i Hi Hc _. by apply C4.
    + intros i pc Hpc. by rewrite lookup_empty in Hpc.
    + intros i pc Hpc. by rewrite lookup_empty in Hpc.
    + split; [apply NoDup_nil_2|]. intros p Hp. by apply not_elem_of_nil in Hp.
    + intros p P HP. by rewrite lookup_empty in HP.
    + intros p P Hp. by apply not_elem_of_nil in Hp.
    + split; cbn; intros *; rewrite lookup_empty; done.
  - split; [intros q Q Hq; by apply not_elem_of_nil in Hq| |done]. intros i Hi. unfold supply. cbn. rewrite nth_lookup.
    by rewrite lookup_replicate_2.
  - intros q Hq. by apply not_elem_of_nil in Hq.
Qed.

Lemma on_peer_ok n p f : in_order n -> p ∈ peers n ->
  (forall P seen, pst n !! p = Some P -> peer_ok np seen P -> exists P' seen', f P = Some P' /\ peer_ok np seen' P' /\ alike P P') ->
  exists n', on_peer f p n = Some n' /\ in_order n' /\ peers n' = peers n.
Proof.
  intros Hn Hp Hf. destruct (proj2 (nk_peers _ _ _ (io_sound _ _ Hn)) p Hp) as [P HP].
  destruct (nk_peer _ _ _ (io_sound _ _ Hn) p P HP) as [[seen Hok] _]. destruct (Hf P seen HP Hok) as (P' & seen' & E & Hok' & Ha).
  unfold on_peer. rewrite HP. cbn [mbind option_bind]. rewrite E. cbn [mbind option_bind]. eexists. split; [reflexivity|]. split; [|done].
  apply (in_order_alike tp n p P P'); try done. intros _ _. by exists seen'.
Qed.

(** The peers after an event. *)
Definition peers_after (e : event) (l : list nat) : list nat :=
  match e with EShake p _ => p :: l | EKill p => but p l | _ => l end.

(** Every event that can come finds its handler at the end of its run, in order. *)
Lemma handle_ok n e : in_order n -> legal n e -> exists n', handle e n = Some n' /\ in_order n' /\ peers n' = peers_after e (peers n).
Proof.
  intros Hn Hl. destruct e as [p P|p|p|p|p i|p field|p i b l ok sha|p i b l|p i b l|p k|p|p|p|p want|]; cbn [handle legal] in *.
  - destruct Hl as (H1 & H2 & H3). destruct (peer_on_shake_ok tp n p P Hn H1 H2 H3) as (n' & E & ? & ? & _). by exists n'.
  - destruct (peer_kill_ok tp Htp n p Hn Hl) as (n' & E & ? & ? & _). by exists n'.
  - destruct (peer_on_choke_ok tp Htp n p Hn Hl) as (n' & P' & E & ? & ? & _). by exists n'.
  - destruct (peer_on_unchoke_ok tp Htp choose_method rand RAND_MAX Hrand n p Hn Hl) as (n' & P' & E & ? & ? & _). by exists n'.
  - destruct Hl as [H1 H2]. destruct (peer_on_have_ok tp Htp n p i Hn H1 H2) as (n' & E & ? & ? & _). by exists n'.
  - destruct Hl as (H1 & H2 & H3). destruct (proj2 (nk_peers _ _ _ (io_sound _ _ Hn)) p H1) as [P HP].
    destruct (peer_on_bitfield_ok tp Htp n p P field Hn H1 HP (H3 P HP) H2) as (n' & E & ? & ? & _). by exists n'.
  - destruct Hl as (H1 & H2 & H3).
    destruct (peer_on_piece_ok tp choose_method rand RAND_MAX Htp Hrand n p i b l ok sha Hn H1 H2 H3) as (n' & E & ? & ?). by exists n'.
  - destruct Hl as (H1 & H2 & H3). apply on_peer_ok; try done. intros P seen HP Hok.
    destruct (peer_on_request_ok np seen P i b l Hok H2) as (P' & ? & ? & ?); [|by exists P', seen].
    rewrite (qo_msgs _ (po_queue _ _ _ Hok)). pose proof (count_data_le (outq P)). specialize (H3 P HP). lia.
  - apply on_peer_ok; try done. intros P seen HP Hok. destruct (peer_on_cancel_ok np seen P i b l Hok) as (P' & ? & ? & ?). by exists P', seen.
  - destruct Hl as (H1 & H2). apply on_peer_ok; try done. intros P seen HP Hok.
    destruct (net_written_ok np (outq P) seen P k (S (length (outq P))) Hok eq_refl (H2 P HP) ltac:(lia)) as (d & P' & E & _ & Hok' & Ha).
    by exists P', (told seen d).
  - apply on_peer_ok; try done. intros P seen HP Hok. destruct (peer_choke_ok np seen P Hok) as (P' & E & Hok' & _ & _ & Ha). by exists P', seen.
  - apply on_peer_ok; try done. intros P seen HP Hok. destruct (peer_unchoke_ok np seen P Hok) as (P' & E & Hok' & Ha). by exists P', seen.
  - apply on_peer_ok; try done. intros P seen HP Hok. destruct (peer_send_ok np seen NB_KEEPALIVE P Hok) as [E Hok']; [done..|].
    eexists _, seen. split; [exact E|]. by split.
  - apply on_peer_ok; try done. intros P seen HP Hok. eexists _, seen. split; [reflexivity|].
    assert (forall g, g <> PF_P_WANT -> flag (if want then set_flag PF_P_WANT P else clear_flag PF_P_WANT P) g = flag P g) as Hf.
    { intros g Hg. destruct want; [rewrite flag_set by done|rewrite flag_clear]; rewrite (proj2 (Z.eqb_neq _ _)) by (by intros <-); [done|apply andb_true_r]. }
    destruct want; (split; [destruct Hok as [H1 H2 [Q1 Q2 Q3 Q4] H4 H5 H6 H7 H8 H9 H10]; split; try done; by rewrite Hf|split; try done; split; by apply Hf]).
  - eexists. split; [reflexivity|]. split; [|done]. destruct Hn as [H1 H2 H3]. split; [by apply books_calls|by destruct H2|done].
Qed.

Lemma reachable_in_order n : reachable n -> in_order n.
Proof.
  induction 1 as [got field rows Hc|n e n' _ IH Hl E]; [by apply net_create_ok|].
  destruct (handle_ok n e IH Hl) as (n2 & E2 & Hn2 & _). rewrite E in E2. by injection E2 as <-.
Qed.
(** The blocks of a piece cover it: all but the last are 16 KiB. *)
Lemma block_size_ok i b : (i < np)%nat -> (b < torrent_piece_blocks tp i)%nat ->
  let len := torrent_block_size tp i (torrent_piece_blocks tp i) b in
  0 < len <= PIECE_BLOCKLEN /\ Z.of_nat b * PIECE_BLOCKLEN + len <= torrent_piece_size tp i.
Proof.
  intros Hi Hb. destruct Htp as [_ H]. specialize (H i Hi). unfold torrent_block_size, torrent_piece_blocks in *. unfold PIECE_BLOCKLEN in *.
  change (2 ^ 14) with 16384 in *. change (2 ^ 31) with 2147483648 in H.
  generalize dependent (torrent_piece_size tp i). intros z Hz Hb.
  set (k := (z + 16384 - 1) / 16384) in *. assert (k * 16384 <= z + 16383 < k * 16384 + 16384) as Hk.
  { unfold k. Z.to_euclidean_division_equations. lia. }
  rewrite Z2Nat.id by lia. destruct (Nat.ltb_spec b (Z.to_nat k - 1)) as [Hlt|Hge]; cbn zeta; [lia|].
  rewrite !(wrap_small 32) by (rewrite ?(wrap_small 32); lia). lia.
Qed.

(** C2: The handlers of the download return: in each state that legal events lead to, in
    whatever order they come, the run of the handler of the next legal event ends, inside
    the arrays, with every assertion passed that the model has of [peer.c], [download.c],
    [download_subr.c] and [content.c]. [legal] asks that the messages are as the reader of
    [net.c] lets them through, and leaves out two things that it does let through: a HAVE
    of a piece beyond the last, which is not checked (net.c:300) and is set outside the
    field; and a bad piece of a peer with two bad ones behind it, which would make it a
    suspect and fail an assertion ([suspect_peer_aborts]). The sizes are those of a
    torrent ([torrent_ok]), there are less than 2^32 peers and messages, and writes to the
    content succeed. Two groups of assertions are not in the model: those of [mp_drop] on
    the reference counts of the meta peers, and that of the loop of [cm_put_bytes] that
    fills the files ahead ([pos_field]). *)
Theorem download_never_stuck n e :
  reachable n -> legal n e -> exists n', handle e n = Some n' /\ reachable n'.
Proof.
  intros Hr Hl. destruct (handle_ok n e (reachable_in_order n Hr) Hl) as (n' & E & _).
  exists n'. split; [done|by eapply reach_event].
Qed.

(** C3: A request that is out is for a block of a piece in progress that is missing, from
    a peer that has the piece and is not blamed for it; the range asked for is within the
    piece and at most 16 KiB; the block is asked of nobody else, and of this peer once;
    and the peer owes at most ten blocks. *)
Theorem download_requests n p P r :
  reachable n -> pst n !! p = Some P -> r ∈ my_reqs P ->
  let i := rq_index r in
  (exists b, (b < torrent_piece_blocks tp i)%nat /\ rq_begin r = Z.of_nat b * PIECE_BLOCKLEN /\ bit (row n i) b = false) /\
  bit (cm_field n) i = false /\ i ∈ getlst n /\ offers P i = true /\
  0 < rq_length r <= PIECE_BLOCKLEN /\ rq_begin r + rq_length r <= torrent_piece_size tp i /\
  (forall q Q s, pst n !! q = Some Q -> s ∈ my_reqs Q -> rq_index s = i -> rq_begin s = rq_begin r -> q = p /\ s = r) /\
  NoDup (my_reqs P) /\ nreqs_out P = Z.of_nat (length (my_reqs P)) /\ nreqs_out P <= MAXPIPEDREQUESTS.
Proof.
  intros Hr HP Hin i. pose proof (io_sound _ _ (reachable_in_order n Hr)) as Hn. pose proof (nk_reqs _ _ _ Hn) as Hq.
  destruct (rk_peer _ Hq p P r HP Hin) as (_ & Ho & pc & Hpc & Hrp). fold i in Ho, Hpc.
  pose proof (nk_piece _ _ _ Hn i pc Hpc) as Hk. destruct (piece_range tp Htp _ n i Hn ltac:(by eexists)) as (Hi & Hcm & _).
  destruct (pk_range _ _ _ _ Hk r Hrp) as (b & Hb & Eb & El). rewrite (pk_blocks _ _ _ _ Hk) in Hb, El.
  destruct (block_size_ok i b Hi Hb) as [Hlen Hend]. rewrite El, Eb. destruct (proj1 (nk_peer _ _ _ Hn p P HP)) as [seen Hok].
  assert (bit (down_field pc) b = true) as Hd.
  { apply (pk_bits _ _ _ _ Hk); [by rewrite (pk_blocks _ _ _ _ Hk)|by exists r]. }
  split_and!; try done; try apply (po_reqs _ _ _ Hok).
  - exists b. split_and!; try done. destruct (bit (row n i) b) eqn:E; [|done].
    rewrite (pk_disjoint _ _ _ _ Hk b) in Hd; [done|by rewrite (pk_blocks _ _ _ _ Hk)|done].
  - apply (sh_getlst _ _ (nk_shape _ _ _ Hn)). by eexists.
  - lia.
  - lia.
  - intros q Q s HQ Hs Ei Es. destruct (rk_peer _ Hq q Q s HQ Hs) as (Eq & _ & pc' & Hpc' & Hs'). rewrite Ei, Hpc in Hpc'. injection Hpc' as <-.
    assert (s = r) as ->.
    { apply list_elem_of_lookup_1 in Hs' as [x Hx]. apply list_elem_of_lookup_1 in Hrp as [y Hy]. assert (x = y) as ->; [|congruence].
      eapply NoDup_lookup; [exact (pk_begins _ _ _ _ Hk)|rewrite list_lookup_fmap, Hx; reflexivity|].
      rewrite list_lookup_fmap, Hy. cbn. by rewrite Es, Eb. }
    split; [|done]. rewrite <- Eq. by apply (rk_peer _ Hq p P).
  - by eapply rk_nodup.
Qed.

(** C5: No peer idles, in each state that legal events lead to: a peer that does not choke
    us, is not banned and has a piece that is missing and not yet asked for in full, owes
    us ten blocks. A peer that is a suspect ([PF_SUSPECT]) idles by design; legal events
    make none ([legal]), so that there is no such peer in these states. *)
Theorem download_pipeline_full n p P i :
  reachable n -> p ∈ peers n -> pst n !! p = Some P ->
  flag P PF_P_CHOKE = false -> flag P PF_BANNED = false ->
  (i < np)%nat -> offers P i = true -> wanted n i = true ->
  nreqs_out P = MAXPIPEDREQUESTS.
Proof.
  intros Hr Hp HP Hc Hb Hi Ho Hw. pose proof (reachable_in_order n Hr) as [Hn _ Hidle].
  destruct (proj1 (nk_peer _ _ _ Hn p P HP)) as [seen Hok]. pose proof (proj2 (po_reqs _ _ _ Hok)) as Hmax.
  destruct (decide (nreqs_out P < MAXPIPEDREQUESTS)) as [Hlt|]; [|lia]. exfalso.
  assert (peer_leech_ok P = true) as E; [|by rewrite (Hidle p Hp P HP) in E].
  apply (leech_iff tp _ n p P Hn Hp HP). split; [done|]. by exists i.
Qed.

(** C6: The tables are right in every state: [npieces] of a peer counts its pieces,
    [nwant] those it offers that are missing and not yet asked for in full, [piece_count]
    the peers that have a piece, [npcs_busy] and [busy_field] the pieces in progress,
    and of each of these [ngot] and [nbusy] count the blocks there and asked for, never
    the same block. *)
Theorem download_tables n :
  reachable n ->
  (forall p P, p ∈ peers n -> pst n !! p = Some P ->
    npieces P = Z.of_nat (count_bits (bit (piece_field P)) np) /\
    nwant P = Z.of_nat (count_bits (fun i => offers P i && wanted n i) np) /\
    flag P PF_I_WANT = (0 <? nwant P)) /\
  (forall i, (i < np)%nat -> supply n i = tally (fun p => has_it n p i) (peers n) /\
    bit (busy_field n) i = bool_decide (i ∈ getlst n)) /\
  npcs_busy n = Z.of_nat (length (getlst n)) /\ npieces_got n = Z.of_nat (count_bits (bit (cm_field n)) np) /\
  forall i, i ∈ getlst n -> exists pc, pcs n !! i = Some pc /\ nblocks pc = torrent_piece_blocks tp i /\
    ngot pc = Z.of_nat (count_bits (bit (row n i)) (nblocks pc)) /\
    nbusy pc = Z.of_nat (count_bits (bit (down_field pc)) (nblocks pc)) /\ nreqs pc = Z.of_nat (length (reqs pc)) /\
    forall b, (b < nblocks pc)%nat -> bit (row n i) b = true -> bit (down_field pc) b = false.
Proof.
  intros Hr. pose proof (reachable_in_order n Hr) as [Hn Hc _]. pose proof (nk_shape _ _ _ Hn) as Hs. split_and!.
  - intros p P Hp HP. destruct (proj1 (nk_peer _ _ _ Hn p P HP)) as [seen Hok]. split_and!.
    + rewrite (ct_peer _ _ _ Hc p P Hp HP). f_equal. apply count_bits_ext. intros j _. apply andb_true_r.
    + exact (nk_want _ _ _ Hn p P Hp HP).
    + apply (po_want _ _ _ Hok).
  - intros i Hi. split.
    + rewrite (ct_supply _ _ _ Hc i Hi). apply tally_ext. intros q _. apply andb_true_r.
    + rewrite (sh_bits _ _ Hs i Hi). apply bool_decide_ext. by rewrite (proj2 (sh_getlst _ _ Hs) i).
  - apply (sh_nbusy _ _ Hs).
  - apply (sh_got _ _ Hs).
  - intros i Hin. apply (sh_getlst _ _ Hs) in Hin as [pc Hpc]. pose proof (nk_piece _ _ _ Hn i pc Hpc) as Hk.
    exists pc. split_and!; try apply Hk. done.
Qed.

(** C26: Rarest first: asked for a new piece to fetch from a peer, [dl_choose_rarest]
    returns one that the peer offers, that is missing and not in progress, and that no
    more of the attached peers have than any other such piece; it returns none only when
    there is none.  The random choice among the rarest stays among them, whatever [rand]
    says. *)
Theorem download_rarest_first n p P :
  reachable n -> pst n !! p = Some P ->
  exists res k, dl_choose_rarest tp rand RAND_MAX n P = Some (res, with_calls k n) /\
    match res with
    | Some i => (i < np)%nat /\ startable n P i = true /\
        forall j, (j < np)%nat -> startable n P j = true ->
          tally (fun q => has_it n q i) (peers n) <= tally (fun q => has_it n q j) (peers n)
    | None => forall j, (j < np)%nat -> startable n P j = false
    end.
Proof.
  intros Hr HP. pose proof (reachable_in_order n Hr) as [Hn Hc _]. destruct (proj1 (nk_peer _ _ _ Hn p P HP)) as [seen Hok].
  destruct (dl_choose_rarest_ok tp rand RAND_MAX Hrand n P seen (nk_shape _ _ _ Hn) Hok) as (res & k & E & H).
  exists res, k. split; [done|]. destruct res as [i|]; [|done]. destruct H as (Hi & Hst & Hmin). split; [done|]. split; [done|].
  assert (forall j, (j < np)%nat -> supply n j = tally (fun q => has_it n q j) (peers n)) as Hsup.
  { intros j Hj. rewrite (ct_supply _ _ _ Hc j Hj). apply tally_ext. intros q _. apply andb_true_r. }
  intros j Hj Hsj. rewrite <- !Hsup by done. by apply Hmin.
Qed.
End Machine.

(** ** A sample: a torrent of two pieces, of twelve blocks and of one, of which we have
    nothing; a peer that has both comes and unchokes us. *)
Definition sample_torrent : torrent := Torrent 2 196608 196708.
Definition sample_rand : nat -> Z := fun _ => 0.
Abbreviation sample_reachable := (reachable sample_torrent 0 sample_rand 32767).
Definition sample_after (l : list event) : net :=
  foldl (fun n e => default n (handle sample_torrent 0 sample_rand 32767 e n)) (net_create sample_torrent 0 [0] [[0; 0]; [0]]) l.
Definition sample_events : list event := [EShake 7 peer_create; EBitfield 7 [192]; EUnchoke 7].
Definition sample_peer : peer := default peer_create (pst (sample_after sample_events) !! 7%nat).

(** Each of the two pieces in turn. *)
Ltac each_piece := let i := fresh "i" in let Hi := fresh "Hi" in intros i Hi; destruct i as [|[|i]]; [| |cbn in Hi; lia]; clear Hi.

Lemma sample_torrent_ok : torrent_ok sample_torrent.
Proof. split; [by vm_compute|]. by each_piece; vm_compute. Qed.

Lemma sample_rand_ok : 0 < 32767 /\ forall k, 0 <= sample_rand k <= 32767.
Proof. unfold sample_rand. split; [|intros _]; lia. Qed.

Lemma sample_content_ok : content_ok sample_torrent 0 [0] [[0; 0]; [0]].
Proof.
  split; [by vm_compute|split; [done|]|by vm_compute|]; each_piece;
    try (apply Nat.leb_le; by vm_compute); intros _; apply Nat.ltb_lt; by vm_compute.
Qed.

Lemma sample_step l e : sample_reachable (sample_after l) -> legal sample_torrent (sample_after l) e ->
  sample_reachable (sample_after (l ++ [e])).
Proof.
  intros Hr Hl. unfold sample_after. rewrite foldl_app. cbn [foldl]. fold (sample_after l).
  destruct (handle_ok sample_torrent 0 sample_rand 32767 sample_torrent_ok sample_rand_ok (sample_after l) e) as (n' & E & _); [|done|].
  - by apply (reachable_in_order sample_torrent 0 sample_rand 32767 sample_torrent_ok sample_rand_ok).
  - rewrite E. by eapply reach_event.
Qed.

Lemma sample_run : sample_reachable (sample_after sample_events).
Proof.
  apply (sample_step [_; _]); [apply (sample_step [_]); [apply (sample_step [])|]|].
  - apply reach_start, sample_content_ok.
  - split; [done|]. split; [apply peer_create_new|by vm_compute].
  - split; [by apply (bool_decide_unpack _); vm_compute|]. split; [by vm_compute|]. intros P HP.
    assert (npieces <$> pst (sample_after [EShake 7 peer_create]) !! 7%nat = Some 0) as E by by vm_compute.
    rewrite HP in E. by injection E.
  - cbn [legal]. by apply (bool_decide_unpack _); vm_compute.
Qed.

Lemma sample_peer_is : pst (sample_after sample_events) !! 7%nat = Some sample_peer.
Proof. by vm_compute. Qed.

Lemma download_never_stuck_witness :
  exists n', handle sample_torrent 0 sample_rand 32767 (EChoke 7) (sample_after sample_events) = Some n' /\ sample_reachable n'.
Proof.
  apply (download_never_stuck sample_torrent 0 sample_rand 32767 sample_torrent_ok sample_rand_ok); [exact sample_run|].
  cbn [legal]. by apply (bool_decide_unpack _); vm_compute.
Defined.

Lemma download_requests_witness :
  length (my_reqs sample_peer) = 10%nat /\ 1%nat ∉ getlst (sample_after sample_events) /\ 0%nat ∈ getlst (sample_after sample_events).
Proof.
  split; [by vm_compute|]. split; [by apply (bool_decide_unpack _); vm_compute|].
  destruct (download_requests sample_torrent 0 sample_rand 32767 sample_torrent_ok sample_rand_ok (sample_after sample_events) 7 sample_peer
    (Req 7 0 0 16384) sample_run sample_peer_is) as (_ & _ & H & _); [|exact H].
  by apply (bool_decide_unpack _); vm_compute.
Defined.

Lemma download_pipeline_full_witness : nreqs_out sample_peer = 10 /\ wanted (sample_after sample_events) 1 = true.
Proof.
  split; [|by vm_compute].
  apply (download_pipeline_full sample_torrent 0 sample_rand 32767 sample_torrent_ok sample_rand_ok (sample_after sample_events) 7 sample_peer 1);
    first [exact sample_run|exact sample_peer_is|by vm_compute|by apply (bool_decide_unpack _); vm_compute|cbn; lia].
Defined.

Lemma download_tables_witness :
  npieces sample_peer = 2 /\ nwant sample_peer = 2 /\ npcs_busy (sample_after sample_events) = 1.
Proof.
  destruct (download_tables sample_torrent 0 sample_rand 32767 sample_torrent_ok sample_rand_ok _ sample_run) as (H1 & _ & H2 & _).
  destruct (H1 7%nat sample_peer) as (E1 & E2 & _); [by apply (bool_decide_unpack _); vm_compute|exact sample_peer_is|].
  split; [by rewrite E1; vm_compute|]. split; [by rewrite E2; vm_compute|]. by rewrite H2; vm_compute.
Defined.

Lemma download_rarest_first_witness :
  exists k, dl_choose_rarest sample_torrent sample_rand 32767 (sample_after sample_events) sample_peer = Some (Some 1%nat, with_calls k (sample_after sample_events)) /\
    startable (sample_after sample_events) sample_peer 1 = true.
Proof.
  destruct (download_rarest_first sample_torrent 0 sample_rand 32767 sample_torrent_ok sample_rand_ok _ 7 sample_peer sample_run sample_peer_is)
    as (res & k & E & H). exists k.
  assert (fst <$> dl_choose_rarest sample_torrent sample_rand 32767 (sample_after sample_events) sample_peer = Some (Some 1%nat)) as E2 by by vm_compute.
  rewrite E in E2. injection E2 as ->. split; [exact E|]. by destruct H as (_ & H & _).
Defined.
