(* ===== verification/BtUpload.v ===== *)
(** Whom the BitTorrent daemon uploads to: [libbt/btpd/upload.c].

    The peers of all torrents are in one queue, [m_peerq], known by number; [info] says
    of each the sizes of its torrent, whether we have all of it, and its rates, which
    [choke_do] only reads.  [qsort] is an argument: the library may order equal elements
    as it likes. *)
From S2P Require Import Prelude Bitfield BtPeer BtNet BtInv BtAssign BtChoice BtStart BtRelease BtHave.
Local Open Scope Z_scope.

Record swarm := Swarm { sw_npieces : nat; sw_full : bool; rate_up : Z; rate_dwn : Z }.

Definition interested (P : peer) : bool := flag P PF_P_WANT.

Section Upload.
Context (qsort : (nat * nat -> nat * nat -> Z) -> list (nat * nat) -> list (nat * nat)) (info : nat -> swarm).

Definition rate (p : nat) : Z := if sw_full (info p) then rate_up (info p) / 2 else rate_dwn (info p).

Definition rate_cmp (arg1 arg2 : nat * nat) : Z :=
  let rate1 := rate arg1.1 in
  let rate2 := rate arg2.1 in
  if rate1 <? rate2 then -1 else if rate1 =? rate2 then 0 else 1.

Definition worthy (p : nat) (P : peer) : bool :=
  if negb (peer_full (sw_npieces (info p)) P) then
    if sw_full (info p) then rate_up (info p) >? 0 else peer_active_down P && (rate_dwn (info p) >? 0)
  else false.

(** The array of the worthy peers, each with its place in the queue. *)
Fixpoint collect (ps : list nat) (i : nat) (m : gmap nat peer) : option (list (nat * nat)) :=
  match ps with
  | [] => Some []
  | p :: ps =>
      P ← m !! p;
      l ← collect ps (S i) m;
      Some (if worthy p P then (p, i) :: l else l)
  end.

Definition unchoke_if (p : nat) (P : peer) (m : gmap nat peer) : option (gmap nat peer) :=
  if flag P PF_I_CHOKE then P ← peer_unchoke P; Some (<[p := P]> m) else Some m.
Definition choke_if (p : nat) (P : peer) (m : gmap nat peer) : option (gmap nat peer) :=
  if flag P PF_I_CHOKE then Some m else P ← peer_choke P; Some (<[p := P]> m).

(** The loop over the worthy peers, the fastest first. *)
Fixpoint regulars (max : Z) (l : list (nat * nat)) (found : Z) (unchoked : list bool) (m : gmap nat peer) :
    option (Z * list bool * gmap nat peer) :=
  match l with
  | [] => Some (found, unchoked, m)
  | (p, i) :: l =>
      if found <? max - 1 then
        P ← m !! p;
        m ← unchoke_if p P m;
        unchoked ← awrite unchoked i true;
        regulars max l (if interested P then found + 1 else found) unchoked m
      else Some (found, unchoked, m)
  end.

(** The loop over the queue that grants what is left. *)
Fixpoint optimists (max : Z) (ps : list nat) (i : nat) (found : Z) (unchoked : list bool) (m : gmap nat peer) :
    option (gmap nat peer) :=
  match ps with
  | [] => Some m
  | p :: ps =>
      u ← aread unchoked i;
      if u : bool then optimists max ps (S i) found unchoked m
      else
        P ← m !! p;
        if (found <? max) && negb (peer_full (sw_npieces (info p)) P) then
          m ← unchoke_if p P m;
          optimists max ps (S i) (if interested P then found + 1 else found) unchoked m
        else m ← choke_if p P m; optimists max ps (S i) found unchoked m
  end.

(** [npeers] is [m_npeers], the length of the arrays [worthy] and [unchoked]. *)
Definition choke_do (max : Z) (npeers : nat) (q : list nat) (m : gmap nat peer) : option (gmap nat peer) :=
  if max <? 0 then foldl (fun o p => m ← o; P ← m !! p; unchoke_if p P m) (Some m) q
  else if max =? 0 then foldl (fun o p => m ← o; P ← m !! p; choke_if p P m) (Some m) q
  else
    l ← collect q 0 m;
    _ ← ensure (length l <=? npeers)%nat;
    '(found, unchoked, m) ← regulars max (rev (qsort rate_cmp l)) 0 (replicate npeers false) m;
    optimists max q 0 found unchoked m.

(** ** The queue of the peers *)

(** The statics of the file; [cb_count] is that of [choke_cb]. *)
Record uploads := Uploads { m_peerq : list nat; m_npeers : nat; m_max_uploads : Z; cb_count : Z }.

Definition with_peerq (q : list nat) (k : nat) (u : uploads) : uploads := Uploads q k (m_max_uploads u) (cb_count u).

Definition choke (u : uploads) (m : gmap nat peer) : option (gmap nat peer) :=
  choke_do (m_max_uploads u) (m_npeers u) (m_peerq u) m.

Definition shuffle_optimists (u : uploads) (m : gmap nat peer) : option uploads :=
  q ← cfor (m_npeers u) 0 (fun _ q =>
        p ← head q;
        P ← m !! p;
        if interested P && flag P PF_I_CHOKE then Some (inr q) else Some (inl (tail q ++ [p]))) (m_peerq u);
  Some (with_peerq q (m_npeers u) u).

(** The timer is left out. *)
Definition choke_cb (u : uploads) (m : gmap nat peer) : option (uploads * gmap nat peer) :=
  let u := Uploads (m_peerq u) (m_npeers u) (m_max_uploads u) (cb_count u + 1) in
  u ← (if Z.rem (cb_count u) 3 =? 0 then shuffle_optimists u m else Some u);
  m ← choke u m;
  Some (u, m).

(** [r] is the number that [rand] returns. *)
Definition ul_on_new_peer (RAND_MAX r : Z) (p : nat) (u : uploads) (m : gmap nat peer) : option (uploads * gmap nat peer) :=
  let place := rand_between RAND_MAX r (-2) (Z.of_nat (m_npeers u)) in
  q ← (if place <? 1 then Some (p :: m_peerq u)
       else _ ← m_peerq u !! Z.to_nat (place - 1);
            Some (take (Z.to_nat place) (m_peerq u) ++ p :: drop (Z.to_nat place) (m_peerq u)));
  let u := with_peerq q (S (m_npeers u)) u in
  m ← choke u m;
  Some (u, m).

Definition without_peer (p : nat) (q : list nat) : list nat := List.filter (fun x => negb (x =? p)%nat) q.

Definition ul_on_lost_peer (p : nat) (u : uploads) (m : gmap nat peer) : option (uploads * gmap nat peer) :=
  _ ← ensure (0 <? m_npeers u)%nat;
  let u := with_peerq (without_peer p (m_peerq u)) (m_npeers u - 1) u in
  P ← m !! p;
  m ← (if interested P && negb (flag P PF_I_CHOKE) then choke u m else Some m);
  Some (u, m).

(** [ps] are the peers of the torrent. *)
Definition ul_on_lost_torrent (ps : list nat) (u : uploads) (m : gmap nat peer) : option (uploads * gmap nat peer) :=
  let u := foldl (fun u p => with_peerq (without_peer p (m_peerq u)) (m_npeers u - 1) u) u ps in
  m ← choke u m;
  Some (u, m).

Definition ul_on_interest (p : nat) (u : uploads) (m : gmap nat peer) : option (gmap nat peer) :=
  P ← m !! p;
  if negb (flag P PF_I_CHOKE) then choke u m else Some m.
Definition ul_on_uninterest (p : nat) (u : uploads) (m : gmap nat peer) : option (gmap nat peer) :=
  P ← m !! p;
  if negb (flag P PF_I_CHOKE) then choke u m else Some m.

(** From [peer.c]; the clock is left out. *)
Definition peer_on_interest (p : nat) (u : uploads) (m : gmap nat peer) : option (gmap nat peer) :=
  P ← m !! p;
  if interested P then Some m else ul_on_interest p u (<[p := set_flag PF_P_WANT P]> m).
Definition peer_on_uninterest (p : nat) (u : uploads) (m : gmap nat peer) : option (gmap nat peer) :=
  P ← m !! p;
  if negb (interested P) then Some m else ul_on_uninterest p u (<[p := clear_flag PF_P_WANT P]> m).

Definition ul_set_max_uploads (net_max_uploads net_bw_limit_out : Z) (u : uploads) : uploads :=
  let max :=
    if net_max_uploads >=? -1 then net_max_uploads
    else if net_bw_limit_out =? 0 then 8
    else if net_bw_limit_out <? 10 * 2 ^ 10 then 2
    else if net_bw_limit_out <? 20 * 2 ^ 10 then 3
    else if net_bw_limit_out <? 40 * 2 ^ 10 then 4
    else 5 + net_bw_limit_out / (100 * 2 ^ 10) in
  Uploads (m_peerq u) (m_npeers u) max (cb_count u).
End Upload.

(** ** One peer *)

(** [P] has become [P'] by choking it ([b]) or unchoking it, where it was not already. *)
Record turned (b : bool) (P P' : peer) : Prop := Turned {
  tu_choke : flag P' PF_I_CHOKE = b;
  tu_flags : forall f, f <> PF_I_CHOKE -> flag P' f = flag P f;
  tu_npieces : npieces P' = npieces P;
  tu_queue : queue_ok P';
  tu_how : if Bool.eqb (flag P PF_I_CHOKE) b then P' = P
           else (if b then peer_choke P else peer_unchoke P) = Some P'
}.

Lemma turned_same P : queue_ok P -> turned (flag P PF_I_CHOKE) P P.
Proof. intros HP. split; try done. by rewrite Bool.eqb_reflx. Qed.

Lemma unchoke_if_ok p P m : queue_ok P -> m !! p = Some P ->
  exists P', unchoke_if p P m = Some (<[p := P']> m) /\ turned false P P'.
Proof.
  intros HP Hm. unfold unchoke_if. destruct (flag P PF_I_CHOKE) eqn:Ef.
  - destruct (peer_send_plain NB_UNCHOKE (clear_flag PF_I_CHOKE P)) as [E Hq]; [done|done|by destruct HP|].
    assert (peer_unchoke P = Some (with_outq (outq_off P) (outq P ++ [NB_UNCHOKE]) (clear_flag PF_I_CHOKE P))) as E' by exact E.
    rewrite E'. eexists. split; [reflexivity|].
    assert (forall f, flag (clear_flag PF_I_CHOKE P) f = flag P f && negb (PF_I_CHOKE =? f)) as Hf by (intros f; apply flag_clear).
    split; try done.
    + change (flag (clear_flag PF_I_CHOKE P) PF_I_CHOKE = false). by rewrite Hf, Z.eqb_refl, andb_false_r.
    + intros f Hne. change (flag (clear_flag PF_I_CHOKE P) f = flag P f). rewrite Hf, (proj2 (Z.eqb_neq _ _)) by (by intros <-). apply andb_true_r.
    + by rewrite Ef.
  - exists P. rewrite insert_id by done. split; [done|]. rewrite <- Ef. by apply turned_same.
Qed.

Lemma choke_if_ok p P m : queue_ok P -> m !! p = Some P ->
  exists P', choke_if p P m = Some (<[p := P']> m) /\ turned true P P'.
Proof.
  intros HP Hm. unfold choke_if. destruct (flag P PF_I_CHOKE) eqn:Ef.
  - exists P. rewrite insert_id by done. split; [done|]. rewrite <- Ef. by apply turned_same.
  - destruct (unsend_pieces_ok P HP) as [E Hq]. set (q := take _ (outq P) ++ _) in *.
    set (P1 := with_msgs (count_data q) (with_outq (outq_off P) q P)) in *.
    assert (queue_ok (set_flag PF_I_CHOKE P1)) as Hq1 by (by destruct Hq).
    destruct (peer_send_plain NB_CHOKE _ eq_refl ltac:(done) Hq1) as [Es Hs].
    set (P' := with_outq _ _ (set_flag PF_I_CHOKE P1)) in Es, Hs.
    assert (peer_choke P = Some P') as E'.
    { unfold peer_choke. rewrite E. cbn [mbind option_bind]. exact Es. }
    rewrite E'. exists P'. split; [reflexivity|].
    assert (forall f, flag P' f = (PF_I_CHOKE =? f) || flag P f) as Hf.
    { intros f. change (flag (set_flag PF_I_CHOKE P1) f = (PF_I_CHOKE =? f) || flag P1 f). by apply flag_set. }
    split; try done.
    + intros f Hne. by rewrite Hf, (proj2 (Z.eqb_neq _ _)) by (by intros <-).
    + by rewrite Ef.
Qed.

(** ** Reading the heap *)

Definition on (f : peer -> bool) (m : gmap nat peer) (p : nat) : bool := match m !! p with Some P => f P | None => false end.
Definition wants (m : gmap nat peer) : nat -> bool := on interested m.
Definition granted (m : gmap nat peer) : nat -> bool := on (fun P => negb (flag P PF_I_CHOKE)) m.
Definition uploads_to (m : gmap nat peer) (p : nat) : bool := wants m p && granted m p.

Definition there (m : gmap nat peer) (p : nat) : Prop := exists P, m !! p = Some P /\ queue_ok P.

Lemma on_insert_ne f m p q P : q <> p -> on f (<[p := P]> m) q = on f m q.
Proof. intros H. unfold on. by rewrite lookup_insert_ne by congruence. Qed.

Lemma there_insert m p q P : q <> p -> there m q -> there (<[p := P]> m) q.
Proof. intros H (Q & E & HQ). exists Q. by rewrite lookup_insert_ne by congruence. Qed.

(** The peers of [l] are turned to [b], the others as they were. *)
Definition turned_in (l : list nat) (b : bool) (m m' : gmap nat peer) : Prop :=
  (forall p, p ∉ l -> m' !! p = m !! p) /\
  forall p P, p ∈ l -> m !! p = Some P -> exists P', m' !! p = Some P' /\ turned b P P'.

Lemma turned_in_nil b m : turned_in [] b m m.
Proof. split; [done|]. intros p P Hp. by apply not_elem_of_nil in Hp. Qed.

Lemma turned_in_cons p P P' l b m m' : p ∉ l -> m !! p = Some P -> turned b P P' ->
  turned_in l b (<[p := P']> m) m' -> turned_in (p :: l) b m m'.
Proof.
  intros Hp Hm Ht [H1 H2]. split.
  - intros q [Hq Hl]%not_elem_of_cons. rewrite H1 by done. by apply lookup_insert_ne.
  - intros q Q [->|Hq]%elem_of_cons E.
    + rewrite Hm in E. injection E as <-. exists P'. by rewrite H1, lookup_insert_eq.
    + apply H2; [done|]. rewrite lookup_insert_ne; [done|]. by intros ->.
Qed.

(** The queue turned to one side, as without a limit or with a limit of none. *)
Lemma all_turned b (step : nat -> peer -> gmap nat peer -> option (gmap nat peer)) :
  (forall p P m, queue_ok P -> m !! p = Some P -> exists P', step p P m = Some (<[p := P']> m) /\ turned b P P') ->
  forall q m, NoDup q -> (forall p, p ∈ q -> there m p) ->
  exists m', foldl (fun o p => m ← o; P ← m !! p; step p P m) (Some m) q = Some m' /\ turned_in q b m m'.
Proof.
  intros Hstep q. induction q as [|p q IH]; intros m Hq Hm; cbn [foldl].
  - exists m. split; [done|apply turned_in_nil].
  - apply NoDup_cons in Hq as [Hp Hq]. destruct (Hm p) as (P & E & HP); [by constructor|].
    cbn [mbind option_bind]. rewrite E. cbn [mbind option_bind]. destruct (Hstep p P m HP E) as (P' & -> & Ht).
    destruct (IH (<[p := P']> m) Hq) as (m' & -> & Hi).
    { intros r Hr. apply there_insert; [by intros ->|]. apply Hm. by constructor. }
    exists m'. split; [done|]. by eapply turned_in_cons.
Qed.

(** ** The loops *)

(** The entries of [unchoked] that the peers of [l] set. *)
Definition marks (l : list (nat * nat)) (u : list bool) : list bool := foldl (fun u x => <[x.2 := true]> u) u l.

Lemma length_marks l u : length (marks l u) = length u.
Proof. unfold marks. revert u. induction l as [|x l IH]; intros u; cbn; [done|]. by rewrite IH, length_insert. Qed.

Lemma marks_lookup l u j : (j < length u)%nat -> marks l u !! j = if bool_decide (j ∈ l.*2) then Some true else u !! j.
Proof.
  unfold marks. revert u. induction l as [|x l IH]; intros u Hj; cbn [foldl]; [done|].
  rewrite IH by (by rewrite length_insert). cbn. case_bool_decide as H1; case_bool_decide as H2; try done.
  - exfalso. apply H2. by constructor.
  - apply elem_of_cons in H2 as [->|?]; [|done]. by apply list_lookup_insert_eq.
  - apply not_elem_of_cons in H2 as [? _]. by rewrite list_lookup_insert_ne.
Qed.

Lemma regulars_ok max l : forall found u m,
  NoDup l.*1 -> found <= max - 1 -> (forall x, x ∈ l -> (x.2 < length u)%nat /\ there m x.1) ->
  exists l1 l2 m', l = l1 ++ l2 /\ let found' := found + tally (wants m) l1.*1 in
    regulars max l found u m = Some (found', marks l1 u, m') /\ turned_in l1.*1 false m m' /\
    found' <= max - 1 /\ (l2 = [] \/ found' = max - 1) /\
    forall k, (k < length l1)%nat -> found + tally (wants m) (take k l1.*1) < max - 1.
Proof.
  induction l as [|[p i] l IH]; intros found u m Hl Hf Hm; cbn [regulars].
  - exists [], [], m. cbn. rewrite Z.add_0_r. split_and!; try done; [apply turned_in_nil|by left|lia].
  - destruct (Z.ltb_spec found (max - 1)) as [Hlt|Hge].
    + cbn in Hl. apply NoDup_cons in Hl as [Hp Hl]. destruct (Hm (p, i)) as (Hi & P & E & HP); [by constructor|]. cbn [fst snd] in *.
      rewrite E. cbn [mbind option_bind]. destruct (unchoke_if_ok p P m HP E) as (P' & -> & Ht). cbn [mbind option_bind].
      rewrite awrite_ok by done. cbn [mbind option_bind].
      destruct (IH (if interested P then found + 1 else found) (<[i := true]> u) (<[p := P']> m)) as (l1 & l2 & m' & -> & H); [done| | |].
      { destruct (interested P); lia. }
      { intros x Hx. rewrite length_insert. split; [apply Hm; by constructor|]. apply there_insert; [|apply Hm; by constructor].
        intros Ex. apply Hp. rewrite <- Ex. by apply list_elem_of_fmap_2. }
      cbn zeta in H. assert (tally (wants (<[p := P']> m)) l1.*1 = tally (wants m) l1.*1) as Et.
      { apply tally_ext. intros q Hq. apply on_insert_ne. intros ->. apply Hp. rewrite fmap_app. apply elem_of_app. by left. }
      assert (forall k, tally (wants (<[p := P']> m)) (take k l1.*1) = tally (wants m) (take k l1.*1)) as Etk.
      { intros k. apply tally_ext. intros q Hq%subseteq_take. apply on_insert_ne. intros ->. apply Hp. rewrite fmap_app. apply elem_of_app. by left. }
      rewrite Et in H. exists ((p, i) :: l1), l2, m'. change (((p, i) :: l1).*1) with (p :: l1.*1). cbn [app tally].
      replace (wants m p) with (interested P) by (unfold wants, on; by rewrite E).
      replace (found + ((if interested P then 1 else 0) + tally (wants m) l1.*1))
        with ((if interested P then found + 1 else found) + tally (wants m) l1.*1) by (destruct (interested P); lia).
      destruct H as (H1 & H2 & H3 & H4 & H5). split; [done|]. cbn zeta. split; [exact H1|]. split; [|split; [done|split; [done|]]].
      * eapply turned_in_cons; try done. intros Hin. apply Hp. rewrite fmap_app. apply elem_of_app. by left.
      * intros [|k] Hk; [cbn; lia|]. cbn in Hk. specialize (H5 k ltac:(lia)). rewrite Etk in H5. cbn [take firstn tally].
        replace (wants m p) with (interested P) by (unfold wants, on; by rewrite E). destruct (interested P); unfold take in *; lia.
    + exists [], ((p, i) :: l), m. cbn. rewrite Z.add_0_r. split_and!; try done; [apply turned_in_nil|right; lia|lia].
Qed.

Section Loops.
Context (info : nat -> swarm).
Local Notation full p P := (peer_full (sw_npieces (info p)) P).

(** What the loop over the queue leaves of a peer that has no mark. *)
Definition decided (max found : Z) (m m' : gmap nat peer) (p : nat) : Prop :=
  forall P, m !! p = Some P -> exists b P', m' !! p = Some P' /\ turned b P P' /\
    if b then full p P = true \/ found = max else full p P = false.

(** The peers for which a slot is taken if it is free. *)
Definition awaits (marked : nat -> bool) (m : gmap nat peer) (p : nat) : bool :=
  negb (marked p) && on (fun P => interested P && negb (full p P)) m p.

Lemma tally_nonneg f l : 0 <= tally f l.
Proof. induction l as [|x l IH]; cbn; [done|]. destruct (f x); lia. Qed.

Lemma optimists_ok max ps : forall i found u m (marked : nat -> bool),
  NoDup ps -> found <= max ->
  (forall j p, ps !! j = Some p -> u !! (i + j)%nat = Some (marked p) /\ there m p) ->
  exists m', optimists info max ps i found u m = Some m' /\
    (forall p, p ∉ ps \/ marked p = true -> m' !! p = m !! p) /\
    let found' := found + tally (fun p => negb (marked p) && uploads_to m' p) ps in
    found <= found' <= max /\ (forall p, p ∈ ps -> marked p = false -> decided max found' m m' p) /\
    (forall j p P, ps !! j = Some p -> marked p = false -> m !! p = Some P ->
      granted m' p = negb (full p P) && (found + tally (awaits marked m) (take j ps) <? max)).
Proof.
  induction ps as [|p ps IH]; intros i found u m marked Hps Hf Hm; cbn [optimists].
  - exists m. cbn. split_and!; try done; [lia..|]. intros p Hp. by apply not_elem_of_nil in Hp.
  - apply NoDup_cons in Hps as [Hp Hps]. destruct (Hm 0%nat p eq_refl) as (Eu & P & E & HP). rewrite Nat.add_0_r in Eu.
    assert (forall m2, (forall q, q <> p -> m2 !! q = m !! q) -> forall j q, ps !! j = Some q ->
      u !! (S i + j)%nat = Some (marked q) /\ there m2 q) as Hrest.
    { intros m2 H2 j q Hj. destruct (Hm (S j) q Hj) as (H3 & Q & EQ & HQ). split; [by rewrite Nat.add_succ_r in H3|].
      exists Q. rewrite H2; [done|]. intros ->. apply Hp. by eapply list_elem_of_lookup_2. }
    unfold aread. rewrite Eu. cbn [mbind option_bind].
    destruct (marked p) eqn:Em.
    + destruct (IH (S i) found u m marked) as (m' & -> & H1 & H2 & H3 & H4); [done|done|by apply Hrest|].
      exists m'. split; [done|]. cbn [tally]. rewrite Em. cbn [negb andb]. rewrite Z.add_0_l. split; [|split; [done|split]].
      * intros q [Hq|Hq]; apply H1; [left|by right]. intros ?. apply Hq. by constructor.
      * intros q [->|Hq]%elem_of_cons Hq'; [congruence|by apply H3].
      * intros [|j] q Q Hj Hq EQ; [injection Hj as <-; congruence|]. change (take (S j) (p :: ps)) with (p :: take j ps). cbn [tally].
        unfold awaits at 1. rewrite Em. cbn [negb andb]. rewrite Z.add_0_l. by apply H4.
    + rewrite E. cbn [mbind option_bind].
      (* The step turns [p] to [b]; the rest follows by induction. *)
      assert (forall b P' found1, turned b P P' -> found1 = found + (if negb b && interested P then 1 else 0) -> found1 <= max ->
        (if b then full p P = true \/ found = max else full p P = false) -> (b = false -> found < max) ->
        exists m', optimists info max ps (S i) found1 u (<[p := P']> m) = Some m' /\
          (forall q, q ∉ p :: ps \/ marked q = true -> m' !! q = m !! q) /\
          let found' := found + tally (fun q => negb (marked q) && uploads_to m' q) (p :: ps) in
          found <= found' <= max /\ (forall q, q ∈ p :: ps -> marked q = false -> decided max found' m m' q) /\
          (forall j q Q, (p :: ps) !! j = Some q -> marked q = false -> m !! q = Some Q ->
            granted m' q = negb (full q Q) && (found + tally (awaits marked m) (take j (p :: ps)) <? max))) as Hgo.
      { intros b P' found1 Ht Ef1 Hle Hwhy Hroom.
        destruct (IH (S i) found1 u (<[p := P']> m) marked Hps Hle) as (m' & -> & H1 & H2 & H3 & H4).
        { apply Hrest. intros q Hq. by apply lookup_insert_ne. }
        assert (m' !! p = Some P') as Ep by (rewrite H1 by (by left); apply lookup_insert_eq).
        assert (uploads_to m' p = negb b && interested P) as Hup.
        { unfold uploads_to, wants, granted, on. rewrite Ep, (tu_choke _ _ _ Ht). unfold interested.
          rewrite (tu_flags _ _ _ Ht) by done. apply andb_comm. }
        exists m'. split; [done|]. cbn [tally]. rewrite Em. cbn [negb andb] in *. rewrite Hup, Z.add_assoc, <- Ef1.
        split; [|split; [|split]].
        - intros q [Hq|Hq].
          + apply not_elem_of_cons in Hq as [Hq1 Hq2]. rewrite H1 by (by left). by apply lookup_insert_ne.
          + rewrite H1 by (by right). apply lookup_insert_ne. congruence.
        - destruct (negb b && interested P); lia.
        - intros q [->|Hq]%elem_of_cons Hq' Q EQ.
          + rewrite E in EQ. injection EQ as <-. exists b, P'. split; [done|]. split; [done|].
            destruct b; [|done]. destruct Hwhy as [?|Hwhy]; [by left|right]. cbn in Ef1. lia.
          + apply (H3 q Hq Hq'). rewrite lookup_insert_ne; [done|]. by intros ->.
        - assert (awaits marked m p = interested P && negb (full p P)) as Ea by (unfold awaits, on; by rewrite Em, E).
          intros [|j] q Q Hj Hq EQ.
          + injection Hj as <-. rewrite E in EQ. injection EQ as <-. unfold granted, on. rewrite Ep, (tu_choke _ _ _ Ht). cbn [take firstn tally]. rewrite Z.add_0_r.
            destruct b; [|by rewrite Hwhy, (proj2 (Z.ltb_lt _ _) (Hroom eq_refl))].
            destruct Hwhy as [->| ->]; [done|]. by rewrite Z.ltb_irrefl, andb_false_r.
          + assert (q <> p) as Hne by (intros ->; apply Hp; by eapply list_elem_of_lookup_2).
            rewrite (H4 j q Q Hj Hq) by (by rewrite lookup_insert_ne by congruence). f_equal. change (take (S j) (p :: ps)) with (p :: take j ps). cbn [tally].
            rewrite Ea. assert (tally (awaits marked (<[p := P']> m)) (take j ps) = tally (awaits marked m) (take j ps)) as ->.
            { apply tally_ext. intros x Hx%subseteq_take. unfold awaits. rewrite on_insert_ne; [done|]. by intros ->. }
            pose proof (tally_nonneg (awaits marked m) (take j ps)). destruct b; cbn in Ef1.
            * destruct Hwhy as [->|Efm]; [cbn [negb]; rewrite andb_false_r; f_equal; lia|]. set (b := if interested P && negb (full p P) then 1 else 0). assert (0 <= b) by (unfold b; by destruct (interested P && _)). transitivity false; [|symmetry]; apply Z.ltb_ge; lia.
            * rewrite Hwhy. cbn [negb]. rewrite andb_true_r. f_equal. destruct (interested P); lia. }
      destruct (Z.ltb_spec found max) as [Hlt|Hge]; cbn [andb]; [destruct (full p P) eqn:Efull; cbn [negb]|].
      * destruct (choke_if_ok p P m HP E) as (P' & -> & Ht). cbn [mbind option_bind].
        destruct (Hgo true P' found Ht) as (m' & -> & H1 & H2 & H3 & H4); [cbn; lia|lia|by left|done|].
        exists m'. split; [done|]. split; [exact H1|]. split; [exact H2|]. by split.
      * destruct (unchoke_if_ok p P m HP E) as (P' & -> & Ht). cbn [mbind option_bind].
        destruct (Hgo false P' (if interested P then found + 1 else found) Ht) as (m' & -> & H1 & H2 & H3 & H4);
          [cbn; destruct (interested P); lia|destruct (interested P); lia|done|done|].
        exists m'. split; [done|]. split; [exact H1|]. split; [exact H2|]. by split.
      * destruct (choke_if_ok p P m HP E) as (P' & -> & Ht). cbn [mbind option_bind].
        destruct (Hgo true P' found Ht) as (m' & -> & H1 & H2 & H3 & H4); [cbn; lia|lia|right; lia|done|].
        exists m'. split; [done|]. split; [exact H1|]. split; [exact H2|]. by split.
Qed.
End Loops.

(** ** [choke_do] *)

Section Choking.
Context (qsort : (nat * nat -> nat * nat -> Z) -> list (nat * nat) -> list (nat * nat)) (info : nat -> swarm).
Local Notation full p P := (peer_full (sw_npieces (info p)) P).

(** What the C library promises of [qsort]. *)
Definition qsort_sorts : Prop := forall cmp l,
  (forall x y z, cmp x y <= 0 -> cmp y z <= 0 -> cmp x z <= 0) -> (forall x y, cmp x y <= 0 \/ cmp y x <= 0) ->
  qsort cmp l ≡ₚ l /\ StronglySorted (fun x y => cmp x y <= 0) (qsort cmp l).

Definition deserves (m : gmap nat peer) (p : nat) : bool := on (worthy info p) m p.

Lemma rate_cmp_le x y : rate_cmp info x y <= 0 <-> rate info x.1 <= rate info y.1.
Proof.
  unfold rate_cmp. destruct (Z.ltb_spec (rate info x.1) (rate info y.1)); [lia|].
  destruct (Z.eqb_spec (rate info x.1) (rate info y.1)); lia.
Qed.

Lemma collect_ok ps : forall i m, NoDup ps -> (forall p, p ∈ ps -> there m p) ->
  exists l, collect info ps i m = Some l /\ NoDup l.*1 /\ (length l <= length ps)%nat /\
    forall x, x ∈ l <-> exists j, ps !! j = Some x.1 /\ x.2 = (i + j)%nat /\ deserves m x.1 = true.
Proof.
  induction ps as [|p ps IH]; intros i m Hps Hm; cbn [collect].
  - exists []. split_and!; [done|apply NoDup_nil_2|done|]. intros x. split; [by intros ?%not_elem_of_nil|by intros (j & ? & _)].
  - apply NoDup_cons in Hps as [Hp Hps]. destruct (Hm p) as (P & E & HP); [by constructor|]. rewrite E. cbn [mbind option_bind].
    destruct (IH (S i) m Hps) as (l & -> & H1 & H2 & H3); [intros q Hq; apply Hm; by constructor|]. cbn [mbind option_bind].
    assert (deserves m p = worthy info p P) as Ew by (unfold deserves, on; by rewrite E).
    assert (forall x, x ∈ l <-> exists j, (p :: ps) !! S j = Some x.1 /\ x.2 = (i + S j)%nat /\ deserves m x.1 = true) as H4.
    { intros x. rewrite H3. by setoid_rewrite Nat.add_succ_r. }
    eexists. split; [reflexivity|]. destruct (worthy info p P) eqn:Eok.
    + split; [|split; [cbn; lia|]].
      * change (NoDup (p :: l.*1)). apply NoDup_cons. split; [|done]. intros ([q k] & Eq & Hx)%list_elem_of_fmap. cbn in Eq. subst q.
        apply H3 in Hx as (j & Hj & _). apply Hp. by eapply list_elem_of_lookup_2.
      * intros x. rewrite elem_of_cons, H4. split.
        -- intros [->|(j & Hj)]; [exists 0%nat; rewrite Nat.add_0_r; by split_and!|by exists (S j)].
        -- intros ([|j] & Hj & Ek & Hd); [left|right; by exists j]. destruct x as [q k]. change (Some p = Some q) in Hj. change (k = (i + 0)%nat) in Ek. rewrite Nat.add_0_r in Ek. congruence.
    + split; [done|]. split; [cbn; lia|]. intros x. rewrite H4. split; [intros (j & Hj); by exists (S j)|].
      intros ([|j] & Hj & Ek & Hd); [|by exists j]. change (Some p = Some x.1) in Hj. congruence.
Qed.

(** Those of [l], which is part of the queue. *)
Lemma tally_part f q l : NoDup q -> NoDup l -> (forall p, p ∈ l -> p ∈ q) ->
  tally f l = tally (fun p => bool_decide (p ∈ l) && f p) q.
Proof.
  intros Hq Hl Hin. assert (forall l1 l2, l1 ≡ₚ l2 -> tally f l1 = tally f l2) as Hperm.
  { intros l1 l2. induction 1; cbn; lia. }
  transitivity (tally f (filter (fun p => p ∈ l) q)).
  - apply Hperm, NoDup_Permutation; [done|by apply NoDup_filter|]. intros p. rewrite list_elem_of_filter. naive_solver.
  - clear Hq Hin. induction q as [|p q IH]; [done|]. rewrite filter_cons. cbn [tally]. destruct (decide (p ∈ l)) as [Hp|Hp].
    + cbn [tally]. rewrite bool_decide_true by done. cbn [andb]. lia.
    + rewrite bool_decide_false by done. cbn [andb]. lia.
Qed.

Lemma tally_add f g q : tally (fun p => f p && g p) q + tally (fun p => negb (f p) && g p) q = tally g q.
Proof. induction q as [|p q IH]; cbn; [done|]. destruct (f p), (g p); cbn; lia. Qed.

Lemma tally_mono f g q : (forall p, p ∈ q -> f p = true -> g p = true) -> tally f q <= tally g q.
Proof.
  induction q as [|p q IH]; intros H; cbn; [done|]. assert (tally f q <= tally g q) by (apply IH; intros; apply H; [by constructor|done]).
  pose proof (H p (list_elem_of_here _ _)). destruct (f p), (g p); lia.
Qed.

(** The peers [r] that get the regular slots: in an order of the deserving by their rates,
    the fastest first, those until one slot is left for those who want it. *)
Definition chosen (max : Z) (q : list nat) (m : gmap nat peer) (r : list nat) : Prop :=
  exists r2, r ++ r2 ≡ₚ filter (fun p => deserves m p = true) q /\
    StronglySorted (fun x y => rate info y <= rate info x) (r ++ r2) /\
    (forall k, (k < length r)%nat -> tally (wants m) (take k r) < max - 1) /\ (r2 = [] \/ tally (wants m) r = max - 1).

(** Exactly who is unchoked: the regulars [r], and of the others, in the order of the
    queue, those that have not everything, until all slots are taken. *)
Definition served_exactly (max : Z) (q : list nat) (m m' : gmap nat peer) (r : list nat) : Prop :=
  forall j p P, q !! j = Some p -> m !! p = Some P ->
    granted m' p = bool_decide (p ∈ r) ||
      negb (full p P) && (tally (wants m) r + tally (awaits info (fun x => bool_decide (x ∈ r)) m) (take j q) <? max).

(** A choice of whom to upload to, with [max] slots of which one is for an optimist. *)
Record fair (max : Z) (q : list nat) (m m' : gmap nat peer) : Prop := Fair {
  fa_else : forall p, p ∉ q -> m' !! p = m !! p;
  fa_turned : forall p P, p ∈ q -> m !! p = Some P -> exists b P', m' !! p = Some P' /\ turned b P P';
  fa_bound : tally (uploads_to m') q <= max;
  fa_full : forall p P, p ∈ q -> m !! p = Some P -> full p P = true -> granted m' p = false;
  fa_used : forall p P, p ∈ q -> m !! p = Some P -> full p P = false -> granted m' p = false -> tally (uploads_to m') q = max;
  fa_merit : forall p, p ∈ q -> deserves m p = true -> granted m' p = false ->
    max - 1 <= tally (fun r => uploads_to m' r && (rate info p <=? rate info r)) q;
  fa_head : forall p q' P, q = p :: q' -> m !! p = Some P -> full p P = false -> granted m' p = true;
  fa_exact : exists r, chosen max q m r /\ served_exactly max q m m' r
}.

(** What the two loops do together; [r] are the peers that the first has unchoked. *)
Lemma loops_fair max q r m m1 m' : 0 < max -> NoDup q -> NoDup r -> chosen max q m r ->
  (forall p, p ∈ r -> p ∈ q /\ deserves m p = true) -> (forall p, p ∈ q -> there m p) ->
  turned_in r false m m1 -> tally (wants m) r <= max - 1 ->
  (forall p, p ∈ q -> deserves m p = true -> p ∉ r -> tally (wants m) r = max - 1 /\ forall x, x ∈ r -> rate info p <= rate info x) ->
  (forall p, p ∉ q \/ bool_decide (p ∈ r) = true -> m' !! p = m1 !! p) ->
  (let found' := tally (wants m) r + tally (fun p => negb (bool_decide (p ∈ r)) && uploads_to m' p) q in
    tally (wants m) r <= found' <= max /\
    (forall p, p ∈ q -> bool_decide (p ∈ r) = false -> decided info max found' m1 m' p) /\
    (forall j p P, q !! j = Some p -> bool_decide (p ∈ r) = false -> m1 !! p = Some P ->
      granted m' p = negb (full p P) && (tally (wants m) r + tally (awaits info (fun x => bool_decide (x ∈ r)) m1) (take j q) <? max))) ->
  fair max q m m'.
Proof.
  intros Hmax Hq Hr Hch Hin Hm [T1 T2] Hf Hmer H1 (H2 & H3 & H4).
  assert (forall p, p ∈ r -> uploads_to m' p = wants m p /\ granted m' p = true) as Hr'.
  { intros p Hp. destruct (Hm p (proj1 (Hin p Hp))) as (P & E & _). destruct (T2 p P Hp E) as (P' & E' & Ht).
    unfold uploads_to, wants, granted, on, interested. rewrite H1 by (right; by apply bool_decide_true).
    rewrite E, E', (tu_choke _ _ _ Ht), (tu_flags _ _ _ Ht) by done. split; [apply andb_true_r|done]. }
  assert (tally (wants m) r = tally (fun p => bool_decide (p ∈ r) && uploads_to m' p) q) as Er.
  { rewrite (tally_part _ q r) by (try done; intros p Hp; by apply Hin). apply tally_ext. intros p _.
    case_bool_decide as Hp; [|done]. cbn [andb]. symmetry. by apply Hr'. }
  assert (tally (wants m) r + tally (fun p => negb (bool_decide (p ∈ r)) && uploads_to m' p) q = tally (uploads_to m') q) as Etot.
  { rewrite Er. apply tally_add. }
  rewrite Etot in H2, H3.
  assert (forall p P, p ∈ q -> m !! p = Some P -> p ∉ r -> exists b P', m' !! p = Some P' /\ turned b P P' /\ granted m' p = negb b /\
    if b then full p P = true \/ tally (uploads_to m') q = max else full p P = false) as Hrest.
  { intros p P Hp E Hn. rewrite <- (T1 p Hn) in E. destruct (H3 p Hp) with P as (b & P' & E' & Ht & Hb); [by apply bool_decide_false|done|].
    exists b, P'. split_and!; try done. unfold granted, on. by rewrite E', (tu_choke _ _ _ Ht). }
  assert (served_exactly max q m m' r) as Hex.
  { intros j p P Hj E. case_bool_decide as Hi; [by apply Hr'|]. cbn [orb]. rewrite (H4 j p P Hj) by (by rewrite ?bool_decide_false, ?T1). do 3 f_equal.
    apply tally_ext. intros x _. unfold awaits. case_bool_decide as Hx; [done|]. cbn [negb andb]. unfold on. by rewrite T1. }
  split; [..|by exists r].
  - intros p Hp. rewrite H1 by (by left). apply T1. intros Hp'. by apply Hp, Hin.
  - intros p P Hp E. destruct (decide (p ∈ r)) as [Hi|Hn].
    + exists false. rewrite H1 by (right; by apply bool_decide_true). by apply T2.
    + destruct (Hrest p P Hp E Hn) as (b & P' & ? & ? & _). by exists b, P'.
  - lia.
  - intros p P Hp E Hfull. destruct (decide (p ∈ r)) as [Hi|Hn].
    + pose proof (proj2 (Hin p Hi)) as Hd. unfold deserves, on, worthy in Hd. by rewrite E, Hfull in Hd.
    + destruct (Hrest p P Hp E Hn) as (b & P' & _ & _ & -> & Hb). destruct b; [done|congruence].
  - intros p P Hp E Hfull Hg. destruct (decide (p ∈ r)) as [Hi|Hn]; [rewrite (proj2 (Hr' p Hi)) in Hg; done|].
    destruct (Hrest p P Hp E Hn) as (b & P' & _ & _ & Eg & Hb). rewrite Hg in Eg. destruct b; [|done]. destruct Hb; [congruence|done].
  - intros p Hp Hd Hg. destruct (decide (p ∈ r)) as [Hi|Hn]; [rewrite (proj2 (Hr' p Hi)) in Hg; done|].
    destruct (Hmer p Hp Hd Hn) as [Et Hle]. rewrite <- Et, Er. apply tally_mono. intros x _. case_bool_decide as Hx; [|done]. cbn [andb].
    intros ->. by apply Z.leb_le, Hle.
  - intros p q' P -> E Hfull. rewrite (Hex 0%nat p P eq_refl E), Hfull. cbn [take firstn tally negb]. rewrite (proj2 (Z.ltb_lt _ _)) by lia. apply orb_true_r.
Qed.

(** Ascending rates read from the end. *)
Lemma fastest_first s : StronglySorted (fun x y => rate_cmp info x y <= 0) s -> StronglySorted (fun x y => rate info y <= rate info x) (rev s).*1.
Proof.
  induction 1 as [|x s _ IH Hx]; [constructor|]. cbn [rev]. rewrite fmap_app. apply StronglySorted_app_2; [|done|by repeat constructor].
  intros a b (y & -> & Hy)%list_elem_of_fmap ->%list_elem_of_singleton. apply rate_cmp_le. rewrite Forall_forall in Hx. apply Hx.
  rewrite list_elem_of_In in *. by apply in_rev.
Qed.

Lemma choke_do_fair max q m : qsort_sorts -> 0 < max -> NoDup q -> (forall p, p ∈ q -> there m p) ->
  exists m', choke_do qsort info max (length q) q m = Some m' /\ fair max q m m'.
Proof.
  intros Hsort Hmax Hq Hm. unfold choke_do. rewrite (proj2 (Z.ltb_ge max 0)), (proj2 (Z.eqb_neq max 0)) by lia.
  destruct (collect_ok q 0 m Hq Hm) as (l & -> & Hl & Hlen & Hin). cbn [mbind option_bind].
  rewrite (proj2 (Nat.leb_le _ _)) by done. cbn [ensure mbind option_bind].
  destruct (Hsort (rate_cmp info) l) as [Hp Hs]; [intros x y z; rewrite !rate_cmp_le; lia|intros x y; rewrite !rate_cmp_le; lia|].
  set (s := qsort (rate_cmp info) l) in *. assert (rev s ≡ₚ l) as Hp' by (etransitivity; [symmetry; apply Permutation_rev|done]).
  destruct (regulars_ok max (rev s) 0 (replicate (length q) false) m) as (l1 & l2 & m1 & Es & E1 & Ht & Hf & Hend & Hpre).
  { by rewrite Hp'. }
  { lia. }
  { intros x Hx. rewrite Hp' in Hx. apply Hin in Hx as (j & Hj & -> & _). rewrite length_replicate. split; [|apply Hm; by eapply list_elem_of_lookup_2].
    by eapply lookup_lt_Some. }
  rewrite Z.add_0_l in *. setoid_rewrite Z.add_0_l in Hpre. rewrite E1. cbn [mbind option_bind].
  set (marked := fun p => bool_decide (p ∈ l1.*1)).
  assert (forall x, x ∈ l1 -> x ∈ l) as Hl1 by (intros x Hx; rewrite <- Hp', Es; apply elem_of_app; by left).
  assert (forall p, p ∈ l1.*1 -> p ∈ q /\ deserves m p = true) as Hl1q.
  { intros p (x & -> & Hx)%list_elem_of_fmap. apply Hl1, Hin in Hx as (j & Hj & _ & Hd). split; [by eapply list_elem_of_lookup_2|done]. }
  destruct (optimists_ok info max q 0 (tally (wants m) l1.*1) (marks l1 (replicate (length q) false)) m1 marked) as (m' & E2 & H1 & H2 & H3 & H4).
  { done. }
  { lia. }
  { intros j p Hj. pose proof (lookup_lt_Some _ _ _ Hj). rewrite Nat.add_0_l, marks_lookup by (by rewrite length_replicate). split.
    - unfold marked. rewrite lookup_replicate_2 by done. case_bool_decide as Hj1; case_bool_decide as Hj2; try done; exfalso.
      + apply Hj2. apply list_elem_of_fmap in Hj1 as (x & -> & Hx). apply list_elem_of_fmap. exists x. split; [|done].
        apply Hl1, Hin in Hx as (k & Hk & Ek & _). cbn in Ek. rewrite Ek in Hj. congruence.
      + apply Hj1. apply list_elem_of_fmap in Hj2 as (x & -> & Hx). apply list_elem_of_fmap. exists x. split; [|done].
        apply Hl1, Hin in Hx as (k & Hk & Ek & _). cbn in Ek. rewrite Ek. by eapply (NoDup_lookup q).
    - destruct (Hm p) as (P & EP & HP); [by eapply list_elem_of_lookup_2|]. destruct (decide (p ∈ l1.*1)) as [Hi|Hi].
      + destruct (proj2 Ht p P Hi EP) as (P' & EP' & Hturn). exists P'. split; [done|]. apply (tu_queue _ _ _ Hturn).
      + exists P. by rewrite (proj1 Ht). }
  exists m'. split; [exact E2|]. apply (loops_fair max q l1.*1 m m1 m'); try done.
  - rewrite <- Hp', Es, fmap_app in Hl. by apply NoDup_app in Hl as [? _].
  - exists l2.*1. rewrite <- fmap_app, <- Es. split; [|split; [by apply fastest_first|split; [by rewrite length_fmap|]]].
    + apply NoDup_Permutation; [by rewrite Hp'|by apply NoDup_filter|]. intros p. rewrite Hp', list_elem_of_filter, list_elem_of_fmap. split.
      * intros (x & -> & (j & Hj & _ & Hd)%Hin). split; [done|by eapply list_elem_of_lookup_2].
      * intros [Hd [j Hj]%list_elem_of_lookup]. exists (p, j). split; [done|]. apply Hin. by exists j.
    + destruct Hend as [->|Hend]; [by left|by right].
  - intros p Hp0 Hd Hn. destruct Hend as [->|Hend]; [exfalso|split; [done|]].
    + apply Hn. rewrite app_nil_r in Es. rewrite <- Es, Hp'. apply list_elem_of_lookup in Hp0 as [j Hj].
      apply list_elem_of_fmap. exists (p, j). split; [done|]. apply Hin. by exists j.
    + intros x (y & -> & Hy)%list_elem_of_fmap. apply list_elem_of_lookup in Hp0 as [j Hj].
      assert ((p, j) ∈ l2) as Hpj.
      { assert ((p, j) ∈ rev s) as Hi by (rewrite Hp'; apply Hin; by exists j). rewrite Es in Hi. apply elem_of_app in Hi as [Hi|Hi]; [|done].
        exfalso. apply Hn. apply list_elem_of_fmap. by exists (p, j). }
      apply (f_equal (@rev _)) in Es. rewrite rev_involutive, rev_app_distr in Es. rewrite Es in Hs.
      apply (rate_cmp_le (p, j) y). refine (StronglySorted_app_1_elem_of _ (rev l2) (rev l1) (p, j) y Hs _ _);
        apply list_elem_of_In; rewrite <- in_rev; by apply list_elem_of_In.
Qed.
End Choking.
