(* ===== verification/BtSlots.v ===== *)
(** The upload slots of the BitTorrent daemon in the long run: the events that [BtUpload]
    handles as a state machine, and the claims on choking. *)
From S2P Require Import Prelude Bitfield BtPeer BtNet BtInv BtAssign BtChoice BtStart BtRelease BtHave BtChoke BtUpload.
Local Open Scope Z_scope.

(** What happens to the peers of the queue.  [UElse] is whatever else the daemon does to
    them, which leaves the two flags alone: only [upload.c] chokes, and only the
    handlers here note what a peer wants. *)
Inductive ul_event :=
  | UNew (p : nat) (P : peer) (r : Z)
  | ULost (p : nat)
  | ULostTorrent (ps : list nat)
  | UInterest (p : nat)
  | UUninterest (p : nat)
  | UTick
  | UElse (m' : gmap nat peer).

Section Slots.
Context (qsort : (nat * nat -> nat * nat -> Z) -> list (nat * nat) -> list (nat * nat)) (RAND_MAX : Z).

Definition ul_handle (info : nat -> swarm) (e : ul_event) (u : uploads) (m : gmap nat peer) : option (uploads * gmap nat peer) :=
  match e with
  | UNew p P r => ul_on_new_peer qsort info RAND_MAX r p u (<[p := P]> m)
  | ULost p => '(u, m) ← ul_on_lost_peer qsort info p u m; Some (u, delete p m)
  | ULostTorrent ps => ul_on_lost_torrent qsort info ps u m
  | UInterest p => m ← peer_on_interest qsort info p u m; Some (u, m)
  | UUninterest p => m ← peer_on_uninterest qsort info p u m; Some (u, m)
  | UTick => choke_cb qsort info u m
  | UElse m' => Some (u, m')
  end.

Definition ul_legal (u : uploads) (m : gmap nat peer) (e : ul_event) : Prop :=
  match e with
  | UNew p P r => p ∉ m_peerq u /\ queue_ok P /\ 0 <= r <= RAND_MAX
  | ULost p | UInterest p | UUninterest p => p ∈ m_peerq u
  | ULostTorrent ps => NoDup ps /\ forall p, p ∈ ps -> p ∈ m_peerq u
  | UTick => True
  | UElse m' => forall p P, p ∈ m_peerq u -> m !! p = Some P -> exists P', m' !! p = Some P' /\ queue_ok P' /\
      flag P' PF_I_CHOKE = flag P PF_I_CHOKE /\ interested P' = interested P
  end.

(** The rates and the progress of the torrents are other ones at each event. *)
Inductive ul_reachable : uploads -> gmap nat peer -> Prop :=
  | ul_start max m : ul_reachable (Uploads [] 0 max 0) m
  | ul_step u m info e u' m' : ul_reachable u m -> ul_legal u m e -> ul_handle info e u m = Some (u', m') -> ul_reachable u' m'.

Record queue_shape (u : uploads) (m : gmap nat peer) : Prop := QueueShape {
  qs_nodup : NoDup (m_peerq u);
  qs_npeers : m_npeers u = length (m_peerq u);
  qs_there : forall p, p ∈ m_peerq u -> there m p
}.

Definition in_slots (u : uploads) (m : gmap nat peer) : Prop :=
  0 <= m_max_uploads u -> tally (uploads_to m) (m_peerq u) <= m_max_uploads u.

Hypothesis Hsort : qsort_sorts qsort.
Hypothesis Hmax : 0 < RAND_MAX.

Lemma tally_false f l : (forall p, p ∈ l -> f p = false) -> tally f l = 0.
Proof. induction l as [|p l IH]; intros H; [done|]. cbn. rewrite (H p), IH; [done| |constructor]. intros q Hq. apply H. by constructor. Qed.

Lemma turned_there b q m m' : turned_in q b m m' -> (forall p, p ∈ q -> there m p) -> forall p, p ∈ q -> there m' p.
Proof. intros [_ H] Hm p Hp. destruct (Hm p Hp) as (P & E & _). destruct (H p P Hp E) as (P' & E' & Ht). exists P'. split; [done|apply Ht]. Qed.

Lemma choke_ok info u m : queue_shape u m -> exists m', choke qsort info u m = Some m' /\ queue_shape u m' /\ in_slots u m' /\
  (forall p, p ∉ m_peerq u -> m' !! p = m !! p) /\ (0 < m_max_uploads u -> fair info (m_max_uploads u) (m_peerq u) m m').
Proof.
  intros [H1 H2 H3]. unfold choke. rewrite H2. destruct (Z.lt_trichotomy (m_max_uploads u) 0) as [Hlt|[H0|Hgt]].
  - destruct (all_turned false unchoke_if unchoke_if_ok (m_peerq u) m H1 H3) as (m' & E & Ht).
    exists m'. unfold choke_do. rewrite (proj2 (Z.ltb_lt _ _)) by done. split; [exact E|]. split; [|split; [|split]].
    + split; [done..|]. by eapply turned_there.
    + intros ?. lia.
    + apply Ht.
    + lia.
  - destruct (all_turned true choke_if choke_if_ok (m_peerq u) m H1 H3) as (m' & E & Ht).
    exists m'. unfold choke_do. rewrite H0. split; [exact E|]. split; [|split; [|split]].
    + split; [done..|]. by eapply turned_there.
    + intros _. rewrite H0, tally_false; [done|]. intros p Hp. destruct (H3 p Hp) as (P & EP & _).
      destruct (proj2 Ht p P Hp EP) as (P' & EP' & HP'). unfold uploads_to, granted, on. rewrite EP', (tu_choke _ _ _ HP'). apply andb_false_r.
    + apply Ht.
    + lia.
  - destruct (choke_do_fair qsort info (m_max_uploads u) (m_peerq u) m Hsort Hgt H1 H3) as (m' & E & Hf).
    exists m'. split; [exact E|]. split; [|split; [|split]].
    + split; [done..|]. intros p Hp. destruct (H3 p Hp) as (P & EP & _). destruct (fa_turned _ _ _ _ _ Hf p P Hp EP) as (b & P' & EP' & Ht).
      exists P'. split; [done|apply Ht].
    + intros _. apply Hf.
    + apply Hf.
    + done.
Qed.

Lemma tally_true l : tally (fun _ => true) l = Z.of_nat (length l).
Proof. induction l as [|p l IH]; cbn; lia. Qed.

Lemma shape_without u m p : queue_shape u m -> p ∈ m_peerq u ->
  queue_shape (with_peerq (without_peer p (m_peerq u)) (m_npeers u - 1) u) m.
Proof.
  intros [H1 H2 H3] Hp. split; cbn; change (without_peer p (m_peerq u)) with (but p (m_peerq u)).
  - by apply NoDup_ListNoDup, List.NoDup_filter, NoDup_ListNoDup.
  - pose proof (tally_but (fun _ => true) p _ H1 Hp) as H. rewrite !tally_true in H. lia.
  - intros x [Hx _]%elem_of_but. by apply H3.
Qed.

(** What the peers want and whether we choke them is all that the bound looks at. *)
Lemma uploads_to_flags m m' q : (forall p P, p ∈ q -> m !! p = Some P -> exists P', m' !! p = Some P' /\
    flag P' PF_I_CHOKE = flag P PF_I_CHOKE /\ interested P' = interested P) -> (forall p, p ∈ q -> there m p) ->
  tally (uploads_to m') q = tally (uploads_to m) q.
Proof.
  intros H Hm. apply tally_ext. intros p Hp. destruct (Hm p Hp) as (P & E & _). destruct (H p P Hp E) as (P' & E' & H1 & H2).
  unfold uploads_to, wants, granted, on. by rewrite E, E', H1, H2.
Qed.

(** A peer that says what it wants. *)
Lemma want_noted u m p P P' : queue_shape u m -> p ∈ m_peerq u -> m !! p = Some P ->
  queue_ok P' -> flag P' PF_I_CHOKE = flag P PF_I_CHOKE ->
  queue_shape u (<[p := P']> m) /\ (flag P PF_I_CHOKE = true -> in_slots u m -> in_slots u (<[p := P']> m)).
Proof.
  intros [H1 H2 H3] Hp E Hq Hc. split.
  - split; [done..|]. intros q Hin. destruct (decide (q = p)) as [->|Hne]; [exists P'; by rewrite lookup_insert_eq|].
    apply there_insert; [done|by apply H3].
  - intros Hch Hs Hm. etransitivity; [|by apply Hs]. apply Z.eq_le_incl, tally_ext. intros q Hin. destruct (decide (q = p)) as [->|Hne].
    + unfold uploads_to, wants, granted, on. rewrite lookup_insert_eq, E, Hc, Hch. by rewrite !andb_false_r.
    + unfold uploads_to, wants, granted. by rewrite !on_insert_ne.
Qed.

Lemma queue_ok_flags P f : queue_ok P -> queue_ok (with_flags f P).
Proof. by intros []. Qed.

Lemma interest_ok info u m p P f : queue_shape u m -> in_slots u m -> p ∈ m_peerq u -> m !! p = Some P ->
  let P' := with_flags f P in flag P' PF_I_CHOKE = flag P PF_I_CHOKE ->
  exists m', (P ← <[p := P']> m !! p; if negb (flag P PF_I_CHOKE) then choke qsort info u (<[p := P']> m) else Some (<[p := P']> m)) = Some m' /\
    queue_shape u m' /\ in_slots u m'.
Proof.
  intros Hs Hb Hp E P' Hc. destruct (want_noted u m p P P' Hs Hp E) as [Hs' Hb']; [|done|].
  { destruct (qs_there _ _ Hs p Hp) as (P1 & E1 & Hq). rewrite E in E1. injection E1 as <-. by apply queue_ok_flags. }
  rewrite lookup_insert_eq. cbn [mbind option_bind]. rewrite Hc. destruct (flag P PF_I_CHOKE) eqn:Ef; cbn [negb].
  - eexists. split; [reflexivity|]. split; [done|]. by apply Hb'.
  - destruct (choke_ok info u _ Hs') as (m' & -> & ? & ? & _). by exists m'.
Qed.

Lemma new_place u m p P r : queue_shape u m -> p ∉ m_peerq u -> queue_ok P -> 0 <= r <= RAND_MAX ->
  exists q, let place := rand_between RAND_MAX r (-2) (Z.of_nat (m_npeers u)) in
    (if place <? 1 then Some (p :: m_peerq u)
     else _ ← m_peerq u !! Z.to_nat (place - 1);
          Some (take (Z.to_nat place) (m_peerq u) ++ p :: drop (Z.to_nat place) (m_peerq u))) = Some q /\
    q ≡ₚ p :: m_peerq u /\ queue_shape (with_peerq q (S (m_npeers u)) u) (<[p := P]> m).
Proof.
  intros [H1 H2 H3] Hp HP Hr. pose proof (rand_between_range RAND_MAX r (-2) (Z.of_nat (m_npeers u)) Hr Hmax ltac:(lia)) as Hb.
  cbn zeta. set (place := rand_between _ _ _ _) in *.
  assert (forall q, q ≡ₚ p :: m_peerq u -> queue_shape (with_peerq q (S (m_npeers u)) u) (<[p := P]> m)) as Hshape.
  { intros q Hq. split; cbn.
    - rewrite Hq. by constructor.
    - by rewrite Hq, H2.
    - intros x Hx. rewrite Hq in Hx. destruct (decide (x = p)) as [->|Hne]; [exists P; by rewrite lookup_insert_eq|].
      apply there_insert; [done|]. apply H3. by apply elem_of_cons in Hx as [?|?]. }
  destruct (Z.ltb_spec place 1) as [Hlt|Hge].
  - eexists. split; [reflexivity|]. split; [done|by apply Hshape].
  - destruct (lookup_lt_is_Some_2 (m_peerq u) (Z.to_nat (place - 1))) as [x ->]; [lia|]. cbn [mbind option_bind].
    assert (take (Z.to_nat place) (m_peerq u) ++ p :: drop (Z.to_nat place) (m_peerq u) ≡ₚ p :: m_peerq u) as Hq.
    { rewrite <- Permutation_middle. by rewrite take_drop. }
    eexists. split; [reflexivity|]. split; [done|by apply Hshape].
Qed.

Lemma lost_torrent_shape ps : forall u m, queue_shape u m -> NoDup ps -> (forall p, p ∈ ps -> p ∈ m_peerq u) ->
  queue_shape (foldl (fun u p => with_peerq (without_peer p (m_peerq u)) (m_npeers u - 1) u) u ps) m.
Proof.
  induction ps as [|p ps IH]; intros u m Hs Hps Hin; cbn [foldl]; [done|]. apply NoDup_cons in Hps as [Hp Hps].
  apply IH; [apply shape_without; [done|apply Hin; by constructor]|done|]. intros q Hq. cbn. apply elem_of_but. split.
  - apply Hin. by constructor.
  - by intros ->.
Qed.

(** The peers that wait: they want something and we choke them. *)
Definition waiting (P : peer) : bool := interested P && flag P PF_I_CHOKE.

(** The loop turns the queue until a peer that waits is at its head. *)
Lemma shuffle_loop m k : forall i q1 q2, (k <= length q1)%nat -> (forall p, p ∈ q1 ++ q2 -> there m p) ->
  exists q3 q4, q1 = q3 ++ q4 /\ (forall p, p ∈ q3 -> on waiting m p = false) /\
    ((exists p q5, q4 = p :: q5 /\ on waiting m p = true) \/ length q3 = k) /\
    cfor k i (fun _ q => p ← head q; P ← m !! p;
      if interested P && flag P PF_I_CHOKE then Some (inr q) else Some (inl (tail q ++ [p]))) (q1 ++ q2) = Some (q4 ++ q2 ++ q3).
Proof.
  induction k as [|k IH]; intros i q1 q2 Hk Hm; cbn [cfor].
  - exists [], q1. rewrite app_nil_r. split_and!; try done; [|by right]. intros p Hp. by apply not_elem_of_nil in Hp.
  - destruct q1 as [|p q1]; [cbn in Hk; lia|]. cbn [app head mbind option_bind]. destruct (Hm p) as (P & E & _); [by constructor|]. rewrite E. cbn [mbind option_bind].
    assert (on waiting m p = waiting P) as Ew by (unfold on; by rewrite E). unfold waiting in Ew.
    destruct (interested P && flag P PF_I_CHOKE) eqn:Eb.
    + exists [], (p :: q1). rewrite app_nil_r. split_and!; try done; [intros q Hq; by apply not_elem_of_nil in Hq|left; by exists p, q1].
    + cbn [tail]. rewrite <- app_assoc. destruct (IH (S i) q1 (q2 ++ [p])) as (q3 & q4 & -> & H1 & H2 & H3).
      { cbn in Hk. lia. }
      { intros q Hq. apply Hm. rewrite app_assoc, elem_of_app, list_elem_of_singleton in Hq. apply elem_of_cons. tauto. }
      rewrite H3. exists (p :: q3), q4. split; [done|]. split; [|split].
      * by intros q [->|Hq]%elem_of_cons; [|apply H1].
      * destruct H2 as [H2|H2]; [by left|right; cbn; lia].
      * by rewrite <- app_assoc.
Qed.

Lemma shuffle_ok u m : queue_shape u m -> exists u', shuffle_optimists u m = Some u' /\
  (exists q3 q4, m_peerq u = q3 ++ q4 /\ m_peerq u' = q4 ++ q3 /\ (forall p, p ∈ q3 -> on waiting m p = false) /\
    ((exists p q5, q4 = p :: q5 /\ on waiting m p = true) \/ q4 = [])) /\
  m_npeers u' = m_npeers u /\ m_max_uploads u' = m_max_uploads u /\ queue_shape u' m.
Proof.
  intros [H1 H2 H3]. unfold shuffle_optimists. rewrite H2.
  destruct (shuffle_loop m (length (m_peerq u)) 0 (m_peerq u) []) as (q3 & q4 & Eq & Hw & Hh & E); [done|by rewrite app_nil_r|].
  rewrite app_nil_r in E. rewrite E. cbn [mbind option_bind]. eexists. split; [reflexivity|]. cbn [m_peerq with_peerq m_npeers m_max_uploads].
  assert (q4 ++ q3 ≡ₚ m_peerq u) as Hp by (rewrite Eq; apply Permutation_app_comm). split; [|split; [done|split; [done|]]].
  - exists q3, q4. split_and!; try done. destruct Hh as [Hh|Hh]; [by left|right]. rewrite Eq, length_app in Hh. destruct q4; [done|cbn in Hh; lia].
  - split; cbn [m_peerq with_peerq m_npeers].
    + by rewrite Hp.
    + by rewrite Hp.
    + intros p Hin. rewrite Hp in Hin. by apply H3.
Qed.

Lemma tick_ok info u m : queue_shape u m -> exists u' m', choke_cb qsort info u m = Some (u', m') /\ queue_shape u' m' /\ in_slots u' m'.
Proof.
  intros Hs. unfold choke_cb. set (u1 := Uploads _ _ _ (cb_count u + 1)). assert (queue_shape u1 m) as Hs1 by (by destruct Hs).
  assert (exists u2, (if Z.rem (cb_count u1) 3 =? 0 then shuffle_optimists u1 m else Some u1) = Some u2 /\ queue_shape u2 m) as (u2 & -> & Hs2).
  { destruct (_ =? 0); [|by exists u1]. destruct (shuffle_ok u1 m Hs1) as (u2 & E & _ & _ & _ & Hs2). by exists u2. }
  cbn [mbind option_bind]. destruct (choke_ok info u2 m Hs2) as (m' & -> & ? & ? & _). by exists u2, m'.
Qed.

Lemma ul_handle_ok info u m e : queue_shape u m -> in_slots u m -> ul_legal u m e ->
  exists u' m', ul_handle info e u m = Some (u', m') /\ queue_shape u' m' /\ in_slots u' m'.
Proof.
  intros Hs Hb Hl. destruct e as [p P r|p|ps|p|p| |m1]; cbn [ul_handle ul_legal] in *.
  - destruct Hl as (Hp & HP & Hr). destruct (new_place u m p P r Hs Hp HP Hr) as (q & E & _ & Hs'). unfold ul_on_new_peer. cbn zeta in E. rewrite E.
    cbn [mbind option_bind]. destruct (choke_ok info _ _ Hs') as (m' & -> & ? & ? & _). by exists (with_peerq q (S (m_npeers u)) u), m'.
  - pose proof (shape_without u m p Hs Hl) as Hs'. unfold ul_on_lost_peer. destruct Hs as [H1 H2 H3].
    rewrite (proj2 (Nat.ltb_lt 0 (m_npeers u))) by (rewrite H2; destruct (m_peerq u); [by apply not_elem_of_nil in Hl|cbn; lia]).
    cbn [ensure mbind option_bind]. destruct (H3 p Hl) as (P & E & HP). rewrite E. cbn [mbind option_bind]. set (u' := with_peerq _ _ u) in *.
    assert (exists m', (if interested P && negb (flag P PF_I_CHOKE) then choke qsort info u' m else Some m) = Some m' /\ queue_shape u' m' /\ in_slots u' m') as (m' & -> & [G1 G2 G3] & G4).
    { destruct (interested P && negb (flag P PF_I_CHOKE)) eqn:Eb.
      - destruct (choke_ok info u' m Hs') as (m' & -> & ? & ? & _). by exists m'.
      - exists m. split; [done|]. split; [done|]. intros Hm. etransitivity; [|apply (Hb Hm)].
        rewrite (tally_but _ p (m_peerq u)) by done. change (m_peerq u') with (but p (m_peerq u)). destruct (uploads_to m p); lia. }
    cbn [mbind option_bind]. eexists u', _. split; [reflexivity|].
    assert (forall q, q ∈ m_peerq u' -> delete p m' !! q = m' !! q) as Hd.
    { intros q [_ Hne]%elem_of_but. by apply lookup_delete_ne. }
    split; [split; [done..|]|].
    + intros q Hq. destruct (G3 q Hq) as (Q & EQ & HQ). exists Q. by rewrite Hd.
    + intros Hm. etransitivity; [|apply (G4 Hm)]. apply Z.eq_le_incl, tally_ext. intros q Hq. unfold uploads_to, wants, granted, on. by rewrite Hd.
  - destruct Hl as [Hps Hin]. pose proof (lost_torrent_shape ps u m Hs Hps Hin) as Hs'. unfold ul_on_lost_torrent.
    destruct (choke_ok info _ _ Hs') as (m' & -> & ? & ? & _). by eexists _, m'.
  - destruct (qs_there _ _ Hs p Hl) as (P & E & _). unfold peer_on_interest. rewrite E. cbn [mbind option_bind]. destruct (interested P); [by exists u, m|].
    unfold ul_on_interest. destruct (interest_ok info u m p P (Z.setbit (flags P) PF_P_WANT) Hs Hb Hl E) as (m' & E' & ? & ?).
    { change (flag (set_flag PF_P_WANT P) PF_I_CHOKE = flag P PF_I_CHOKE). by rewrite flag_set. }
    fold (set_flag PF_P_WANT P) in E'. rewrite E'. by exists u, m'.
  - destruct (qs_there _ _ Hs p Hl) as (P & E & _). unfold peer_on_uninterest. rewrite E. cbn [mbind option_bind]. destruct (interested P); cbn [negb]; [|by exists u, m].
    unfold ul_on_uninterest. destruct (interest_ok info u m p P (Z.clearbit (flags P) PF_P_WANT) Hs Hb Hl E) as (m' & E' & ? & ?).
    { change (flag (clear_flag PF_P_WANT P) PF_I_CHOKE = flag P PF_I_CHOKE). rewrite flag_clear. apply andb_true_r. }
    fold (clear_flag PF_P_WANT P) in E'. rewrite E'. by exists u, m'.
  - by apply tick_ok.
  - exists u, m1. split; [done|]. split.
    + destruct Hs as [H1 H2 H3]. split; [done..|]. intros p Hp. destruct (H3 p Hp) as (P & E & _). destruct (Hl p P Hp E) as (P' & E' & HP' & _). by exists P'.
    + intros Hm. rewrite (uploads_to_flags m m1); [by apply Hb| |apply Hs]. intros p P Hp E. destruct (Hl p P Hp E) as (P' & E' & _ & ? & ?). by exists P'.
Qed.

Lemma ul_reachable_ok u m : ul_reachable u m -> queue_shape u m /\ in_slots u m.
Proof.
  induction 1 as [max m|u m info e u' m' _ [IH1 IH2] Hl E].
  - split; [split; cbn; [apply NoDup_nil_2|done|]|by intros Hm]. intros p Hp. by apply not_elem_of_nil in Hp.
  - destruct (ul_handle_ok info u m e IH1 IH2 Hl) as (u2 & m2 & E2 & ? & ?). rewrite E in E2. by injection E2 as <- <-.
Qed.

(** C24: Choking, over all peers of the queue, each once, known and with a sound queue of
    messages: without a limit every peer is unchoked and with a limit of none every peer is
    choked.  With slots, exactly these are unchoked ([fa_exact]): first, of the peers that
    give or take, in an order of their rates with the fastest first, as many as it takes
    until all slots but one have one that is interested; then, in the order of the queue,
    each other peer that has not everything, until as many interested peers are served as
    there are slots.  All others are choked, those that are not interested too.  So no more
    interested peers are unchoked than there are slots, one that has everything is choked,
    where one that has not is left choked all slots are used, and the first of the queue is
    unchoked.  Each peer is sent CHOKE or UNCHOKE where it changes sides, and nothing
    otherwise. *)
Theorem choke_do_correct info max q m :
  NoDup q -> (forall p, p ∈ q -> there m p) ->
  exists m', choke_do qsort info max (length q) q m = Some m' /\
    (max < 0 -> turned_in q false m m') /\ (max = 0 -> turned_in q true m m') /\ (0 < max -> fair info max q m m').
Proof.
  intros Hq Hm. destruct (Z.lt_trichotomy max 0) as [Hlt|[->|Hgt]].
  - destruct (all_turned false unchoke_if unchoke_if_ok q m Hq Hm) as (m' & E & Ht). exists m'. unfold choke_do.
    rewrite (proj2 (Z.ltb_lt _ _)) by done. split_and!; [exact E|done|lia..].
  - destruct (all_turned true choke_if choke_if_ok q m Hq Hm) as (m' & E & Ht). exists m'. split_and!; [exact E|lia|done|lia].
  - destruct (choke_do_fair qsort info max q m Hsort Hgt Hq Hm) as (m' & E & Hf). exists m'. split_and!; [exact E|lia|lia|done].
Qed.

(** C10: In every state that comes about by peers coming and going, by what they say they
    want and by the timer, never more interested peers are unchoked than there are slots,
    whatever else happens to the peers in between; [m_npeers] counts the queue, so the
    arrays of [choke_do] are large enough; and every handler returns. *)
Theorem upload_slots u m :
  ul_reachable u m ->
  (0 <= m_max_uploads u -> tally (uploads_to m) (m_peerq u) <= m_max_uploads u) /\
  NoDup (m_peerq u) /\ m_npeers u = length (m_peerq u) /\
  forall info e, ul_legal u m e -> exists u' m', ul_handle info e u m = Some (u', m') /\ ul_reachable u' m'.
Proof.
  intros Hr. destruct (ul_reachable_ok u m Hr) as [Hs Hb]. split_and!; [exact Hb|apply Hs..|].
  intros info e Hl. destruct (ul_handle_ok info u m e Hs Hb Hl) as (u' & m' & E & _). exists u', m'. split; [done|by eapply ul_step].
Qed.

(** No peer that waits for a slot is passed over: on each third tick of the timer the
    first of the queue that is interested and choked is moved to the head, with those
    before it to the end, and unchoked, unless it has everything. *)
Theorem optimist_turn info u m l1 p l2 P :
  ul_reachable u m -> 0 < m_max_uploads u -> Z.rem (cb_count u + 1) 3 = 0 ->
  m_peerq u = l1 ++ p :: l2 -> (forall q, q ∈ l1 -> on waiting m q = false) ->
  m !! p = Some P -> waiting P = true -> peer_full (sw_npieces (info p)) P = false ->
  exists u' m', choke_cb qsort info u m = Some (u', m') /\ m_peerq u' = p :: l2 ++ l1 /\ granted m' p = true.
Proof.
  intros Hr Hm Hc Hq Hno E Hw Hfull. destruct (ul_reachable_ok u m Hr) as [Hs _]. unfold choke_cb. cbn [cb_count]. rewrite Hc. cbn [Z.eqb].
  set (u1 := Uploads _ _ _ (cb_count u + 1)). assert (queue_shape u1 m) as Hs1 by (by destruct Hs).
  destruct (shuffle_ok u1 m Hs1) as (u2 & E2 & (q3 & q4 & Eq & Eq' & H3 & H4) & _ & Emax & Hs2). rewrite E2. cbn [mbind option_bind].
  assert (on waiting m p = true) as Hp by (unfold on; by rewrite E).
  assert (m_peerq u2 = p :: l2 ++ l1) as Eu.
  { change (m_peerq u1) with (m_peerq u) in Eq. rewrite Hq in Eq. rewrite Eq'.
    assert (q3 = l1 /\ q4 = p :: l2) as [-> ->]; [|done]. clear -Eq H3 H4 Hno Hp. revert q3 Eq H3. induction l1 as [|x l1 IH]; intros [|y q3] Eq H3; cbn in Eq.
    - by rewrite <- Eq.
    - injection Eq as <- _. rewrite H3 in Hp; [done|constructor].
    - destruct H4 as [(z & q5 & -> & Hz)| ->]; [|done]. injection Eq as <- _. rewrite Hno in Hz; [done|constructor].
    - injection Eq as <- Eq. destruct (IH ltac:(intros q Hq; apply Hno; by constructor) q3 Eq) as [-> ->]; [|done].
      intros q Hq. apply H3. by constructor. }
  destruct (choke_ok info u2 m Hs2) as (m' & -> & _ & _ & _ & Hf). exists u2, m'. split; [done|]. split; [done|].
  apply (fa_head _ _ _ _ _ (Hf ltac:(rewrite Emax; exact Hm)) p (l2 ++ l1) P Eu E Hfull).
Qed.
End Slots.

(** ** A sample: two peers and one slot; the second has it when both want it. *)

Definition sort_pairs (cmp : nat * nat -> nat * nat -> Z) (l : list (nat * nat)) : list (nat * nat) :=
  @merge_sort _ (fun x y => cmp x y <= 0) (fun x y => Z_le_dec (cmp x y) 0) l.

Lemma sort_pairs_sorts : qsort_sorts sort_pairs.
Proof.
  intros cmp l Htr Htot. split; [apply merge_sort_Permutation|].
  assert (Transitive (fun x y => cmp x y <= 0)) by (intros x y z; apply Htr).
  assert (Total (fun x y => cmp x y <= 0)) by (intros x y; apply Htot).
  by apply StronglySorted_merge_sort.
Qed.

Definition sample_info (p : nat) : swarm := Swarm 2 false 0 (Z.of_nat p).
Definition sample_step (s : uploads * gmap nat peer) (e : ul_event) : uploads * gmap nat peer :=
  default s (ul_handle sort_pairs 32767 sample_info e s.1 s.2).
Definition sample_run (l : list ul_event) : uploads * gmap nat peer := foldl sample_step (Uploads [] 0 1 0, ∅) l.
Definition sample_arrivals : list ul_event := [UNew 1 peer_create 0; UNew 2 peer_create 0; UInterest 1; UInterest 2; UTick; UTick].

Lemma sample_reach l e : ul_reachable sort_pairs 32767 (sample_run l).1 (sample_run l).2 -> ul_legal 32767 (sample_run l).1 (sample_run l).2 e ->
  ul_reachable sort_pairs 32767 (sample_run (l ++ [e])).1 (sample_run (l ++ [e])).2.
Proof.
  intros Hr Hl. destruct (ul_reachable_ok sort_pairs 32767 sort_pairs_sorts ltac:(lia) _ _ Hr) as [H1 H2].
  destruct (ul_handle_ok sort_pairs 32767 sort_pairs_sorts ltac:(lia) sample_info _ _ e H1 H2 Hl) as (u' & m' & E & _).
  unfold sample_run in *. rewrite foldl_app. cbn [foldl]. unfold sample_step at 1 3. rewrite E. cbn [default]. by eapply ul_step.
Qed.

Lemma sample_new_ok : queue_ok peer_create.
Proof. split; cbn; [by left|done|done|constructor]. Qed.

Lemma sample_arrived : ul_reachable sort_pairs 32767 (sample_run sample_arrivals).1 (sample_run sample_arrivals).2.
Proof.
  apply (sample_reach [_; _; _; _; _]); [|done]. apply (sample_reach [_; _; _; _]); [|done].
  apply (sample_reach [_; _; _]); [|by apply (bool_decide_unpack (2%nat ∈ m_peerq _)); vm_compute].
  apply (sample_reach [_; _]); [|by apply (bool_decide_unpack (1%nat ∈ m_peerq _)); vm_compute].
  apply (sample_reach [_]); [|split; [by apply (bool_decide_unpack (2%nat ∉ m_peerq _)); vm_compute|split; [apply sample_new_ok|lia]]].
  apply (sample_reach []); [apply ul_start|split; [by apply (bool_decide_unpack (1%nat ∉ m_peerq _)); vm_compute|split; [apply sample_new_ok|lia]]].
Qed.

Lemma choke_do_correct_witness : let s := sample_run sample_arrivals in
  exists m', choke_do sort_pairs sample_info 1 2 [2; 1]%nat s.2 = Some m' /\ tally (uploads_to m') [2; 1]%nat <= 1.
Proof.
  destruct (choke_do_correct sort_pairs sort_pairs_sorts sample_info 1 [2; 1]%nat (sample_run sample_arrivals).2) as (m' & E & _ & _ & H).
  - by apply (bool_decide_unpack _); vm_compute.
  - assert (m_peerq (sample_run sample_arrivals).1 = [2; 1]%nat) as <- by by vm_compute.
    apply (ul_reachable_ok sort_pairs 32767 sort_pairs_sorts ltac:(lia) _ _ sample_arrived).
  - exists m'. split; [exact E|]. apply (H ltac:(lia)).
Defined.

Lemma upload_slots_witness : let s := sample_run sample_arrivals in
  tally (uploads_to s.2) [2; 1]%nat <= 1 /\ wants s.2 1 = true /\ wants s.2 2 = true.
Proof.
  destruct (upload_slots sort_pairs 32767 sort_pairs_sorts ltac:(lia) _ _ sample_arrived) as (H & _).
  split; [exact (H ltac:(vm_compute; discriminate))|split; by vm_compute].
Defined.

Lemma optimist_turn_witness : let s := sample_run sample_arrivals in
  uploads_to s.2 1 = false /\
  exists u' m', choke_cb sort_pairs sample_info s.1 s.2 = Some (u', m') /\ m_peerq u' = [1; 2]%nat /\ granted m' 1 = true.
Proof.
  split; [by vm_compute|].
  apply (optimist_turn sort_pairs 32767 sort_pairs_sorts ltac:(lia) sample_info _ _ [2%nat] 1 []
    (default peer_create ((sample_run sample_arrivals).2 !! 1%nat)) sample_arrived); try by vm_compute.
  intros q ->%list_elem_of_singleton. by vm_compute.
Defined.
