(* ===== verification/BtStream.v ===== *)
(** The byte stream of a BitTorrent peer: the messages as [libbt/btpd/net_buf.c] writes
    them and the state machine of [net.c] that reads them, [net_read], [net_state] and
    [net_dispatch_msg].

    What the messages do is behind the class [PeerOps]: the calls that [net.c] makes of
    the rest of the daemon, whose state is [W].  Bytes are [Z]s.  [recv] is an argument:
    [data] are the bytes of one call. *)
From S2P Require Import Prelude Bitfield BtPeer BtNet.
Local Open Scope Z_scope.

Definition MSG_CHOKE : Z := 0.
Definition MSG_UNCHOKE : Z := 1.
Definition MSG_INTEREST : Z := 2.
Definition MSG_UNINTEREST : Z := 3.
Definition MSG_HAVE : Z := 4.
Definition MSG_BITFIELD : Z := 5.
Definition MSG_REQUEST : Z := 6.
Definition MSG_PIECE : Z := 7.
Definition MSG_CANCEL : Z := 8.

Definition enc_be32 (num : Z) : list Z :=
  [Z.land (Z.shiftr num 24) 0xff; Z.land (Z.shiftr num 16) 0xff; Z.land (Z.shiftr num 8) 0xff; Z.land num 0xff].

Definition dec_be32 (buf : list Z) (off : nat) : option Z :=
  p0 ← aread buf off; p1 ← aread buf (off + 1); p2 ← aread buf (off + 2); p3 ← aread buf (off + 3);
  Some (u32 (Z.lor (Z.lor (Z.lor (Z.shiftl p0 24) (Z.shiftl p1 16)) (Z.shiftl p2 8)) p3)).

Inductive input_state := SHAKE_PSTR | SHAKE_INFO | SHAKE_ID | BTP_MSGSIZE | BTP_MSGHEAD | BTP_PIECEMETA | BTP_MSGBODY.
#[export] Instance input_state_eq_dec : EqDecision input_state.
Proof. solve_decision. Defined.

(** [p->in] without the buffer. *)
Record input := Input { msg_len : Z; msg_num : Z; pc_index : Z; pc_begin : Z; in_state : input_state; st_bytes : nat }.

(** A peer's input: the buffer with its offset, and the bytes of pieces received, of the
    torrent and of the peer. *)
Record stream := Stream { s_in : input; in_buf : option (list Z); in_off : nat; downloaded : Z; count_dwn : Z }.

(** What [net.c] asks of the daemon about a peer and its torrent, and what it has it do.
    [op_piece] gets the bytes of the message after its header. *)
Class PeerOps (W T : Type) := {
  op_incoming : W -> bool;
  op_torrent_by_hash : list Z -> W -> option T;
  op_net_active : T -> W -> bool;
  op_adopt : T -> W -> option W;
  op_hash : W -> list Z;
  op_has_peer : list Z -> W -> bool;
  op_peer_id : W -> list Z;
  op_shake : list Z -> W -> option W;
  op_npieces : W -> nat;
  op_piece_size : W -> nat -> Z;
  op_got : W -> Z;
  op_serves : W -> bool;
  op_has_piece : W -> nat -> option bool;
  op_keepalive : W -> option W;
  op_choke : W -> option W;
  op_unchoke : W -> option W;
  op_interest : W -> option W;
  op_uninterest : W -> option W;
  op_have : Z -> W -> option W;
  op_bitfield : list Z -> W -> option W;
  op_request : Z -> Z -> Z -> W -> option W;
  op_cancel : Z -> Z -> Z -> W -> option W;
  op_piece : Z -> Z -> Z -> list Z -> W -> option W;
  op_kill : W -> option W
}.

Definition pstr : list Z := [19; 66; 105; 116; 84; 111; 114; 114; 101; 110; 116; 32; 112; 114; 111; 116; 111; 99; 111; 108].

Definition peer_set_in_state (state : input_state) (size : nat) (s : input) : input :=
  Input (msg_len s) (msg_num s) (pc_index s) (pc_begin s) state size.

Definition GRBUFLEN : nat := Z.to_nat (2 ^ 15).

(** What a [recv] on an open connection brings. *)
Definition received (data : list Z) : Prop := (0 < length data <= GRBUFLEN)%nat.
#[export] Instance received_dec data : Decision (received data).
Proof. unfold received. apply _. Defined.

Section Reader.
Context {W T : Type} `{Ops : PeerOps W T}.

Definition net_mh_ok (s : input) (w : W) : bool :=
  let mlen := msg_len s in
  let n := msg_num s in
  if (n =? MSG_CHOKE) || (n =? MSG_UNCHOKE) || (n =? MSG_INTEREST) || (n =? MSG_UNINTEREST) then mlen =? 1
  else if n =? MSG_HAVE then mlen =? 5
  else if n =? MSG_BITFIELD then mlen =? Z.of_nat (field_bytes (op_npieces w)) + 1
  else if (n =? MSG_REQUEST) || (n =? MSG_CANCEL) then mlen =? 13
  else if n =? MSG_PIECE then mlen <=? PIECE_BLOCKLEN + 9
  else false.

(** The test of a request, as the code has it. *)
Definition bad_request (index begin length : Z) (w : W) : option bool :=
  if length >? PIECE_BLOCKLEN then Some true
  else if index >=? Z.of_nat (op_npieces w) then Some true
  else
    h ← op_has_piece w (Z.to_nat index);
    if negb h then Some true else Some (u32 (begin + length) >? op_piece_size w (Z.to_nat index)).

(** [true] is the result that ends the peer. *)
Definition net_dispatch_msg (s : input) (buf : list Z) (w : W) : option (bool * W) :=
  let n := msg_num s in
  let go (o : option W) := w ← o; Some (false, w) in
  if n =? MSG_CHOKE then go (op_choke w)
  else if n =? MSG_UNCHOKE then go (op_unchoke w)
  else if n =? MSG_INTEREST then go (op_interest w)
  else if n =? MSG_UNINTEREST then go (op_uninterest w)
  else if n =? MSG_HAVE then index ← dec_be32 buf 0; go (op_have index w)
  else if n =? MSG_BITFIELD then if op_got w =? 0 then go (op_bitfield buf w) else Some (true, w)
  else if n =? MSG_REQUEST then
    if op_serves w then
      index ← dec_be32 buf 0; begin ← dec_be32 buf 4; length ← dec_be32 buf 8;
      bad ← bad_request index begin length w;
      if bad : bool then Some (true, w) else go (op_request index begin length w)
    else Some (false, w)
  else if n =? MSG_CANCEL then
    index ← dec_be32 buf 0; begin ← dec_be32 buf 4; length ← dec_be32 buf 8;
    go (op_cancel index begin length w)
  else if n =? MSG_PIECE then go (op_piece (pc_index s) (pc_begin s) (u32 (msg_len s - 9)) buf w)
  else None.

(** The peer goes on, or it is killed. *)
Inductive outcome (A : Type) := Alive (a : A) (w : W) | Killed (w : W).
Arguments Alive {A}.
Arguments Killed {A}.

Definition kill {A} (w : W) : option (outcome A) := w ← op_kill w; Some (Killed w).

(** [buf] are the [st_bytes] bytes that the state waits for. *)
Definition net_state (s : input) (buf : list Z) (w : W) : option (outcome input) :=
  match in_state s with
  | SHAKE_PSTR =>
      b ← mread buf 0 20;
      if bool_decide (b = pstr) then Some (Alive (peer_set_in_state SHAKE_INFO 20 s) w) else kill w
  | SHAKE_INFO =>
      b ← mread buf 0 20;
      if op_incoming w then
        match op_torrent_by_hash b w with
        | Some t => if op_net_active t w then w ← op_adopt t w; Some (Alive (peer_set_in_state SHAKE_ID 20 s) w) else kill w
        | None => kill w
        end
      else if bool_decide (b = op_hash w) then Some (Alive (peer_set_in_state SHAKE_ID 20 s) w) else kill w
  | SHAKE_ID =>
      b ← mread buf 0 20;
      if op_has_peer b w || bool_decide (b = op_peer_id w) then kill w
      else w ← op_shake b w; Some (Alive (peer_set_in_state BTP_MSGSIZE 4 s) w)
  | BTP_MSGSIZE =>
      len ← dec_be32 buf 0;
      let s := Input len (msg_num s) (pc_index s) (pc_begin s) (in_state s) (st_bytes s) in
      if len =? 0 then w ← op_keepalive w; Some (Alive s w) else Some (Alive (peer_set_in_state BTP_MSGHEAD 1 s) w)
  | BTP_MSGHEAD =>
      n ← aread buf 0;
      let s := Input (msg_len s) n (pc_index s) (pc_begin s) (in_state s) (st_bytes s) in
      if negb (net_mh_ok s w) then kill w
      else if msg_len s =? 1 then
        '(bad, w) ← net_dispatch_msg s buf w;
        if bad : bool then kill w else Some (Alive (peer_set_in_state BTP_MSGSIZE 4 s) w)
      else if n =? MSG_PIECE then Some (Alive (peer_set_in_state BTP_PIECEMETA 8 s) w)
      else Some (Alive (peer_set_in_state BTP_MSGBODY (Z.to_nat (u32 (msg_len s - 1))) s) w)
  | BTP_PIECEMETA =>
      index ← dec_be32 buf 0; begin ← dec_be32 buf 4;
      let s := Input (msg_len s) (msg_num s) index begin (in_state s) (st_bytes s) in
      Some (Alive (peer_set_in_state BTP_MSGBODY (Z.to_nat (u32 (msg_len s - 9))) s) w)
  | BTP_MSGBODY =>
      '(bad, w) ← net_dispatch_msg s buf w;
      if bad : bool then kill w else Some (Alive (peer_set_in_state BTP_MSGSIZE 4 s) w)
  end.

(** The bytes of a piece are counted as they come. *)
Definition in_piece (s : input) : bool := bool_decide (in_state s = BTP_MSGBODY) && (msg_num s =? MSG_PIECE).
Definition net_progress (length : nat) (s : stream) : stream :=
  if in_piece (s_in s) then
    Stream (s_in s) (in_buf s) (in_off s) (u64 (downloaded s + Z.of_nat length)) (u32 (count_dwn s + Z.of_nat length))
  else s.

Definition with_in (i : input) (s : stream) : stream := Stream i (in_buf s) (in_off s) (downloaded s) (count_dwn s).
Definition with_buf (b : option (list Z)) (off : nat) (s : stream) : stream := Stream (s_in s) b off (downloaded s) (count_dwn s).

(** [net_state] on the peer. *)
Definition step_state (s : stream) (buf : list Z) (w : W) : option (outcome stream) :=
  o ← net_state (s_in s) buf w;
  Some (match o with Alive i w => Alive (with_in i s) w | Killed w => Killed w end).

(** The loop over the bytes on the stack. *)
Definition read_turn (x : stream * W * list Z) : option (stream * W * list Z + outcome (stream * list Z)) :=
  let '(s, w, rem) := x in
  let consumed := st_bytes (s_in s) in
  if (consumed <=? length rem)%nat then
    o ← step_state (net_progress consumed s) (take consumed rem) w;
    Some (match o with Alive s w => inl (s, w, drop consumed rem) | Killed w => inr (Killed w) end)
  else Some (inr (Alive (s, rem) w)).

Definition read_rest (s : stream) (w : W) (rem : list Z) : option (outcome stream) :=
  o ← cloop (2 * length rem + 2) read_turn (s, w, rem);
  match o with
  | Killed w => Some (Killed w)
  | Alive (s, rem) w =>
      if (0 <? length rem)%nat then
        let s := net_progress (length rem) s in
        b ← mwrite (replicate (st_bytes (s_in s)) 0) 0 rem;
        Some (Alive (with_buf (Some b) (length rem) s) w)
      else Some (Alive s w)
  end.

(** [data] are the bytes that came: those the buffer lacks first, the others on the
    stack.  None come when the other end has closed the connection. *)
Definition net_read (s : stream) (w : W) (data : list Z) : option (outcome stream) :=
  if (length data =? 0)%nat then kill w else
  match in_buf s with
  | None => _ ← ensure (length data <=? GRBUFLEN)%nat; read_rest s w data
  | Some b =>
      let rest := (st_bytes (s_in s) - in_off s)%nat in
      _ ← ensure (length data <=? rest + GRBUFLEN)%nat;
      b ← mwrite b (in_off s) (take rest data);
      if (length data <? rest)%nat then Some (Alive (net_progress (length data) (with_buf (Some b) (in_off s + length data) s)) w)
      else
        o ← step_state (net_progress rest (with_buf (Some b) (in_off s) s)) b w;
        match o with
        | Killed w => Some (Killed w)
        | Alive s w => read_rest (with_buf None 0 s) w (drop rest data)
        end
  end.

(** One [net_read] after the other, until the peer is killed. *)
Fixpoint net_reads (s : stream) (w : W) (chunks : list (list Z)) : option (outcome stream) :=
  match chunks with
  | [] => Some (Alive s w)
  | data :: chunks =>
      o ← net_read s w data;
      match o with Alive s w => net_reads s w chunks | Killed w => Some (Killed w) end
  end.
End Reader.
