(* ===== verification/BtWire.v ===== *)
(** Reading the byte stream of a BitTorrent peer: however the bytes are cut into calls
    of [recv], the peer goes through the same states; and what [net_buf.c] writes is
    what the handlers get. *)
From S2P Require Import Prelude Bitfield BtPeer BtNet BtStream.
Local Open Scope Z_scope.

Section Reading.
Context {W T : Type} `{Ops : PeerOps W T}.

(** The run of the state machine on a string of bytes, without buffers: the reference
    for [net_read].  What is left at its end is less than the state waits for. *)
Inductive runs : stream -> W -> list Z -> outcome (W := W) (stream * list Z) -> Prop :=
  | runs_wait s w bs : (length bs < st_bytes (s_in s))%nat -> runs s w bs (Alive _ (s, bs) w)
  | runs_go s w bs s' w' o : let k := st_bytes (s_in s) in (k <= length bs)%nat ->
      step_state (net_progress k s) (take k bs) w = Some (Alive _ s' w') -> runs s' w' (drop k bs) o -> runs s w bs o
  | runs_dead s w bs w' : let k := st_bytes (s_in s) in (k <= length bs)%nat ->
      step_state (net_progress k s) (take k bs) w = Some (Killed _ w') -> runs s w bs (Killed _ w').

(** Only the body of a message may be empty. *)
Definition nonempty (i : input) : Prop := st_bytes i = 0%nat -> in_state i = BTP_MSGBODY.

Definition fresh (s : stream) : Prop := in_buf s = None /\ in_off s = 0%nat /\ nonempty (s_in s).

Lemma net_state_next i buf w i' w' : net_state i buf w = Some (Alive _ i' w') -> nonempty i ->
  nonempty i' /\ (in_state i = BTP_MSGBODY -> st_bytes i' = 4%nat).
Proof.
  unfold net_state, kill, nonempty. intros E Hi. destruct (in_state i) eqn:Es; split; try done; repeat (
    match type of E with context [ match ?x with _ => _ end ] => destruct x eqn:? end || (apply bind_Some in E as (? & ? & E)));
    simplify_eq/=; try done; try (intros ?; by specialize (Hi ltac:(done))).
Qed.

Lemma net_progress_add a b s : net_progress a (net_progress b s) = net_progress (b + a) s.
Proof.
  unfold net_progress. destruct (in_piece (s_in s)) eqn:E; [|by rewrite E]. cbn [s_in]. rewrite E. cbn. unfold wrap.
  rewrite !Zplus_mod_idemp_l, Nat2Z.inj_add, !Z.add_assoc. done.
Qed.

Lemma net_progress_in a s : s_in (net_progress a s) = s_in s.
Proof. unfold net_progress. by destruct (in_piece (s_in s)). Qed.

Lemma net_progress_buf a b o s : net_progress a (with_buf b o s) = with_buf b o (net_progress a s).
Proof. unfold net_progress. cbn. by destruct (in_piece (s_in s)). Qed.

Lemma with_buf_buf b o b' o' s : with_buf b o (with_buf b' o' s) = with_buf b o s.
Proof. done. Qed.

Lemma net_progress_fresh a s : fresh s -> fresh (net_progress a s).
Proof. unfold net_progress, fresh. by destruct (in_piece (s_in s)). Qed.

Lemma step_state_buf b o s buf w : step_state (with_buf b o s) buf w =
  (r ← step_state s buf w; Some (match r with Alive _ s w => Alive _ (with_buf b o s) w | Killed _ w => Killed _ w end)).
Proof. unfold step_state. cbn. by destruct (net_state (s_in s) buf w) as [[|]|]. Qed.

Lemma step_state_fresh s buf w s' w' : step_state s buf w = Some (Alive _ s' w') -> fresh s ->
  fresh s' /\ (in_state (s_in s) = BTP_MSGBODY -> st_bytes (s_in s') = 4%nat).
Proof.
  unfold step_state. intros E (H1 & H2 & H3). apply bind_Some in E as ([i w2|w2] & E & E2); [|done]. injection E2 as <- <-.
  destruct (net_state_next _ _ _ _ _ E H3). by split.
Qed.

(** The turns of the loop: no two in a row consume nothing. *)
Lemma read_loop s w bs o : runs s w bs o -> fresh s ->
  forall fuel, (2 * length bs + (if decide (st_bytes (s_in s) = 0) then 1 else 0) < fuel)%nat ->
  cloop fuel read_turn (s, w, bs) = Some o /\
  match o with Alive _ (s', rem) _ => fresh s' /\ (length rem < st_bytes (s_in s'))%nat | Killed _ _ => True end.
Proof.
  induction 1 as [s w bs Hlt|s w bs s' w' o k Hk E _ IH|s w bs w' k Hk E]; intros Hs [|fuel] Hf; try lia; cbn [cloop read_turn].
  - by rewrite (proj2 (Nat.leb_gt _ _)).
  - rewrite (proj2 (Nat.leb_le _ _)) by done. fold k. rewrite E. cbn [mbind option_bind].
    destruct (step_state_fresh _ _ _ _ _ E (net_progress_fresh k s Hs)) as [Hs' H4]. rewrite net_progress_in in H4.
    apply IH; [done|]. rewrite length_drop. fold k in Hf. destruct (decide (k = 0%nat)) as [Ek|Hne].
    + rewrite (decide_False (P := st_bytes (s_in s') = 0%nat)) by (rewrite H4 by (by apply Hs); lia). lia.
    + case_decide; lia.
  - rewrite (proj2 (Nat.leb_le _ _)) by done. fold k. by rewrite E.
Qed.

(** The stream [s] stands at [s0] with the bytes [pend] of its state in the buffer, which
    it has counted. *)
Definition holds (s s0 : stream) (pend : list Z) : Prop :=
  fresh s0 /\ (length pend < st_bytes (s_in s0))%nat /\
  match pend with
  | [] => s = s0
  | _ => exists pad, length (pend ++ pad) = st_bytes (s_in s0) /\
      s = with_buf (Some (pend ++ pad)) (length pend) (net_progress (length pend) s0)
  end.

Definition ends (o : outcome (W := W) stream) (o0 : outcome (W := W) (stream * list Z)) : Prop :=
  match o, o0 with
  | Alive _ s w, Alive _ (s0, pend) w0 => w = w0 /\ holds s s0 pend
  | Killed _ w, Killed _ w0 => w = w0
  | _, _ => False
  end.

Lemma holds_some s0 pend pad : fresh s0 -> pend <> [] -> (length pend < st_bytes (s_in s0))%nat ->
  length (pend ++ pad) = st_bytes (s_in s0) ->
  holds (with_buf (Some (pend ++ pad)) (length pend) (net_progress (length pend) s0)) s0 pend.
Proof. intros H1 H2 H3 H4. split; [done|]. split; [done|]. destruct pend; [done|]. by exists pad. Qed.

Lemma read_rest_ok s w bs o : fresh s -> runs s w bs o -> exists o', read_rest s w bs = Some o' /\ ends o' o.
Proof.
  intros Hs Hr. destruct (read_loop s w bs o Hr Hs (2 * length bs + 2)) as [E Ho]; [case_decide; lia|].
  unfold read_rest. rewrite E. cbn [mbind option_bind]. destruct o as [[s' rem] w'|w']; [|by eexists].
  destruct Ho as [Hs' Hlt]. destruct (Nat.ltb_spec 0 (length rem)) as [Hpos|Hz].
  - rewrite net_progress_in. rewrite mwrite_ok by (rewrite length_replicate; lia).
    rewrite take_0. cbn [mbind option_bind app Nat.add].
    eexists. split; [reflexivity|]. split; [done|]. apply holds_some; [done|intros ->; cbn in Hpos; lia|done|].
    rewrite length_app, length_drop, length_replicate. lia.
  - destruct rem; [|cbn in Hz; lia]. eexists. split; [reflexivity|]. by split.
Qed.

(** One call of [recv]. *)
Lemma net_read_ok s s0 pend w data o : holds s s0 pend -> received data -> runs s0 w (pend ++ data) o ->
  exists o', net_read s w data = Some o' /\ ends o' o.
Proof.
  intros (Hs & Hlt & Hp) [Hpos Hd] Hr. unfold net_read. rewrite (proj2 (Nat.eqb_neq _ _)) by lia. destruct pend as [|x pend].
  { subst s. rewrite (proj1 Hs), (proj2 (Nat.leb_le _ _)) by done. cbn [ensure mbind option_bind]. by apply read_rest_ok. }
  destruct Hp as (pad & Hpad & ->). set (q := x :: pend) in *. set (k := st_bytes (s_in s0)) in *.
  cbn [in_buf with_buf s_in in_off]. rewrite net_progress_in. fold k. set (rest := (k - length q)%nat).
  rewrite (proj2 (Nat.leb_le (length data) _)) by lia. cbn [ensure mbind option_bind].
  assert (length pad = rest) as Hlen by (rewrite length_app in Hpad; lia).
  rewrite mwrite_ok by (rewrite length_app, length_take; lia). rewrite length_take. cbn [mbind option_bind].
  rewrite take_app_length. rewrite (drop_app_ge q) by lia.
  replace (length q + rest `min` length data - length q)%nat with (rest `min` length data)%nat by lia.
  destruct (Nat.ltb_spec (length data) rest) as [Hshort|Hfull].
  - rewrite (take_ge data) by lia. rewrite Nat.min_r by lia. eexists. split; [reflexivity|].
    inversion Hr as [? ? ? H1|? ? ? ? ? ? k' H1|? ? ? ? k' H1]; subst; [|rewrite length_app in H1; exfalso; clear -H1 Hshort Hlt; subst k rest; lia..].
    split; [done|]. rewrite !net_progress_buf, net_progress_add, with_buf_buf, app_assoc, <- length_app.
    apply holds_some; [done|by unfold q|done|]. rewrite !length_app, length_drop. fold k. lia.
  - rewrite Nat.min_l by lia. rewrite (drop_ge pad) by lia. rewrite app_nil_r.
    assert (q ++ take rest data = take k (q ++ data)) as Eq.
    { rewrite take_app_ge by lia. done. }
    assert (drop rest data = drop k (q ++ data)) as Ed.
    { rewrite drop_app_ge by lia. done. }
    rewrite Eq, Ed, !net_progress_buf, net_progress_add, with_buf_buf, step_state_buf. replace (length q + rest)%nat with k by lia.
    inversion Hr as [? ? ? H1|? ? ? s' w' ? k' H1 H2 H3|? ? ? w' k' H1 H2]; subst.
    + exfalso. rewrite length_app in H1. clear -H1 Hfull Hlt. subst k rest. lia.
    + fold k in k'. subst k'. fold k in H2, H3. rewrite H2. cbn [mbind option_bind].
      rewrite with_buf_buf.
      destruct (step_state_fresh _ _ _ _ _ H2 (net_progress_fresh k s0 Hs)) as [Hs' _].
      assert (with_buf None 0 s' = s') as -> by (destruct Hs' as (E1 & E2 & _); destruct s'; cbn in *; by subst).
      by apply read_rest_ok.
    + fold k in k'. subst k'. fold k in H2. rewrite H2. cbn [mbind option_bind]. by eexists.
Qed.

(** A run can be cut anywhere. *)
Lemma runs_cut s w bs o : runs s w bs o -> forall b1 b2, bs = b1 ++ b2 ->
  exists o1, runs s w b1 o1 /\ match o1 with Alive _ (s', pend) w' => runs s' w' (pend ++ b2) o | Killed _ w' => o = Killed _ w' end.
Proof.
  induction 1 as [s w bs Hlt|s w bs s' w' o k Hk E Hr IH|s w bs w' k Hk E]; intros b1 b2 ->.
  - exists (Alive _ (s, b1) w). rewrite length_app in Hlt. split; [apply runs_wait; lia|]. apply runs_wait. rewrite length_app. lia.
  - destruct (decide (k <= length b1)%nat) as [Hle|Hgt].
    + rewrite take_app_le in E by done. rewrite drop_app_le in IH by done. destruct (IH (drop k b1) b2 eq_refl) as (o1 & H1 & H2).
      exists o1. split; [|done]. by eapply runs_go.
    + exists (Alive _ (s, b1) w). split; [apply runs_wait; unfold k in *; lia|]. by eapply runs_go.
  - destruct (decide (k <= length b1)%nat) as [Hle|Hgt].
    + rewrite take_app_le in E by done. exists (Killed _ w'). split; [by apply runs_dead|done].
    + exists (Alive _ (s, b1) w). split; [apply runs_wait; unfold k in *; lia|]. by apply runs_dead.
Qed.

Lemma net_reads_ok chunks : forall s s0 pend w o, holds s s0 pend -> Forall received chunks ->
  runs s0 w (pend ++ concat chunks) o -> exists o', net_reads s w chunks = Some o' /\ ends o' o.
Proof.
  induction chunks as [|data chunks IH]; intros s s0 pend w o Hs Hc Hr; cbn [net_reads concat] in *.
  - rewrite app_nil_r in Hr. eexists. split; [reflexivity|]. destruct Hs as (H1 & H2 & H3).
    inversion Hr as [|? ? ? ? ? ? k H4|? ? ? ? k H4]; subst; [|exfalso; subst k; lia..]. split; [done|]. by split.
  - apply Forall_cons in Hc as [Hd Hc]. rewrite app_assoc in Hr. destruct (runs_cut _ _ _ _ Hr _ _ eq_refl) as (o1 & H1 & H2).
    destruct (net_read_ok s s0 pend w data o1 Hs Hd H1) as (o' & -> & He). cbn [mbind option_bind].
    destruct o1 as [[s1 pend1] w1|w1], o' as [s' w'|w']; try done.
    + destruct He as [-> He]. by eapply IH.
    + cbn in He. subst. by eexists.
Qed.
End Reading.

(** ** Every string of bytes has a run *)

(** The calls of the daemon return. *)
Class PeerTotal (W T : Type) `{PeerOps W T} : Prop := {
  pt_adopt t w : is_Some (op_adopt t w);
  pt_shake id w : is_Some (op_shake id w);
  pt_has_piece w i : (i < op_npieces w)%nat -> is_Some (op_has_piece w i);
  pt_keepalive w : is_Some (op_keepalive w);
  pt_choke w : is_Some (op_choke w);
  pt_unchoke w : is_Some (op_unchoke w);
  pt_interest w : is_Some (op_interest w);
  pt_uninterest w : is_Some (op_uninterest w);
  pt_have i w : is_Some (op_have i w);
  pt_bitfield f w : is_Some (op_bitfield f w);
  pt_request i b l w : is_Some (op_request i b l w);
  pt_cancel i b l w : is_Some (op_cancel i b l w);
  pt_piece i b l data w : is_Some (op_piece i b l data w);
  pt_kill w : is_Some (op_kill w)
}.

Lemma dec_be32_total buf off : (off + 4 <= length buf)%nat -> exists v, dec_be32 buf off = Some v /\ 0 <= v < 2 ^ 32.
Proof.
  intros H. unfold dec_be32, aread.
  destruct (lookup_lt_is_Some_2 buf off) as [? ->]; [lia|]. destruct (lookup_lt_is_Some_2 buf (off + 1)) as [? ->]; [lia|].
  destruct (lookup_lt_is_Some_2 buf (off + 2)) as [? ->]; [lia|]. destruct (lookup_lt_is_Some_2 buf (off + 3)) as [? ->]; [lia|].
  cbn [mbind option_bind]. eexists. split; [reflexivity|]. by apply wrap_range.
Qed.

(** The bytes that a state waits for are those that it reads. *)
Definition body_size (n : Z) (k : nat) : Prop :=
  (n = MSG_HAVE /\ k = 4%nat) \/ n = MSG_BITFIELD \/ ((n = MSG_REQUEST \/ n = MSG_CANCEL) /\ k = 12%nat) \/ n = MSG_PIECE.
Definition sized (i : input) : Prop :=
  match in_state i with
  | SHAKE_PSTR => st_bytes i = 28%nat
  | SHAKE_INFO | SHAKE_ID => st_bytes i = 20%nat
  | BTP_MSGSIZE => st_bytes i = 4%nat
  | BTP_MSGHEAD => st_bytes i = 1%nat
  | BTP_PIECEMETA => st_bytes i = 8%nat /\ msg_num i = MSG_PIECE
  | BTP_MSGBODY => body_size (msg_num i) (st_bytes i)
  end.

Section Total.
Context {W T : Type} `{Ops : PeerOps W T} `{!PeerTotal W T}.

Lemma go_total (o : option W) : is_Some o -> exists w, (w ← o; Some (false, w)) = Some (false, w).
Proof. intros [w ->]. by exists w. Qed.

Lemma net_dispatch_total i buf w : body_size (msg_num i) (length buf) -> exists r, net_dispatch_msg i buf w = Some r.
Proof.
  unfold net_dispatch_msg. intros [[-> Hk]|[-> |[[[-> | ->] Hk]| ->]]]; cbn [Z.eqb Pos.eqb MSG_HAVE MSG_BITFIELD MSG_REQUEST MSG_CANCEL MSG_PIECE
    MSG_CHOKE MSG_UNCHOKE MSG_INTEREST MSG_UNINTEREST].
  - destruct (dec_be32_total buf 0) as (v & -> & _); [lia|]. cbn [mbind option_bind]. destruct (go_total _ (pt_have v w)) as [w' ->]. by eexists.
  - destruct (op_got w =? 0); [|by eexists]. destruct (go_total _ (pt_bitfield buf w)) as [w' ->]. by eexists.
  - destruct (op_serves w); [|by eexists]. destruct (dec_be32_total buf 0) as (x & -> & Hx); [lia|]. destruct (dec_be32_total buf 4) as (y & -> & _); [lia|].
    destruct (dec_be32_total buf 8) as (z & -> & _); [lia|]. cbn [mbind option_bind].
    assert (exists b, bad_request x y z w = Some b) as [[] ->].
    { unfold bad_request. destruct (z >? PIECE_BLOCKLEN); [by eexists|]. destruct (Z.geb_spec x (Z.of_nat (op_npieces w))); [by eexists|].
      destruct (pt_has_piece w (Z.to_nat x)) as [h ->]; [lia|]. cbn [mbind option_bind]. destruct h; by eexists. }
    + by eexists.
    + cbn [mbind option_bind]. destruct (go_total _ (pt_request x y z w)) as [w' ->]. by eexists.
  - destruct (dec_be32_total buf 0) as (x & -> & Hx); [lia|]. destruct (dec_be32_total buf 4) as (y & -> & _); [lia|].
    destruct (dec_be32_total buf 8) as (z & -> & _); [lia|]. cbn [mbind option_bind].
    destruct (go_total _ (pt_cancel x y z w)) as [w' ->]. by eexists.
  - destruct (go_total _ (pt_piece (pc_index i) (pc_begin i) (u32 (msg_len i - 9)) buf w)) as [w' ->]. by eexists.
Qed.

Lemma single_total i buf w : net_mh_ok i w = true -> msg_len i = 1 -> exists r, net_dispatch_msg i buf w = Some r.
Proof.
  unfold net_mh_ok, net_dispatch_msg. intros Hok Hl. rewrite Hl in *.
  destruct (msg_num i =? MSG_CHOKE); [destruct (go_total _ (pt_choke w)) as [w' ->]; by eexists|].
  destruct (msg_num i =? MSG_UNCHOKE); [destruct (go_total _ (pt_unchoke w)) as [w' ->]; by eexists|].
  destruct (msg_num i =? MSG_INTEREST); [destruct (go_total _ (pt_interest w)) as [w' ->]; by eexists|].
  destruct (msg_num i =? MSG_UNINTEREST); [destruct (go_total _ (pt_uninterest w)) as [w' ->]; by eexists|]. cbn [orb] in Hok.
  destruct (msg_num i =? MSG_HAVE); [done|].
  destruct (msg_num i =? MSG_BITFIELD).
  { destruct (op_got w =? 0); [|by eexists]. destruct (go_total _ (pt_bitfield buf w)) as [w' ->]. by eexists. }
  destruct (msg_num i =? MSG_REQUEST); [done|]. destruct (msg_num i =? MSG_CANCEL); [done|]. cbn [orb] in Hok.
  destruct (msg_num i =? MSG_PIECE); [|done].
  destruct (go_total _ (pt_piece (pc_index i) (pc_begin i) (u32 (1 - 9)) buf w)) as [w' ->]. by eexists.
Qed.

(** The body that follows a header which has passed the test. *)
Lemma head_body i w : net_mh_ok i w = true -> msg_len i <> 1 -> msg_num i <> MSG_PIECE ->
  body_size (msg_num i) (Z.to_nat (u32 (msg_len i - 1))).
Proof.
  unfold net_mh_ok. intros Hok Hl Hp.
  assert (forall a, (msg_len i =? a) = true -> 0 < a < 2 ^ 32 -> Z.to_nat (u32 (msg_len i - 1)) = Z.to_nat (a - 1)) as Hlen.
  { intros a ->%Z.eqb_eq Ha. rewrite wrap_small by lia. done. }
  destruct ((msg_num i =? MSG_CHOKE) || _ || _ || _); [apply Z.eqb_eq in Hok; congruence|].
  destruct (Z.eqb_spec (msg_num i) MSG_HAVE) as [E|_]; [left; split; [done|]; by rewrite (Hlen 5)|].
  destruct (Z.eqb_spec (msg_num i) MSG_BITFIELD) as [E|_]; [right; by left|].
  destruct (Z.eqb_spec (msg_num i) MSG_REQUEST) as [E|_]; [right; right; left; split; [by left|]; by rewrite (Hlen 13)|].
  destruct (Z.eqb_spec (msg_num i) MSG_CANCEL) as [E|_]; [right; right; left; split; [by right|]; by rewrite (Hlen 13)|].
  cbn [orb] in Hok. destruct (Z.eqb_spec (msg_num i) MSG_PIECE); done.
Qed.

Lemma kill_total {A} w : exists w', kill (A := A) w = Some (Killed _ w').
Proof. unfold kill. destruct (pt_kill w) as [w' ->]. by exists w'. Qed.

Definition sized_after (o : outcome (W := W) input) : Prop := match o with Alive _ i _ => sized i | Killed _ _ => True end.
Definition steps (o : option (outcome (W := W) input)) : Prop := exists r, o = Some r /\ sized_after r.

Lemma steps_kill w : steps (kill w).
Proof. destruct (kill_total (A := input) w) as [w' ->]. by eexists. Qed.
Lemma steps_alive i w : sized i -> steps (Some (Alive _ i w)).
Proof. intros H. by eexists. Qed.

Lemma steps_dispatch i buf w : (exists r, net_dispatch_msg i buf w = Some r) ->
  steps ('(bad, w) ← net_dispatch_msg i buf w; if bad : bool then kill w else Some (Alive _ (peer_set_in_state BTP_MSGSIZE 4 i) w)).
Proof. intros [[[] w'] ->]; cbn [mbind option_bind]; [apply steps_kill|by apply steps_alive]. Qed.

Lemma net_state_total i buf w : sized i -> length buf = st_bytes i -> steps (net_state i buf w).
Proof.
  intros Hs Hb. unfold net_state. unfold sized in Hs. destruct (in_state i) eqn:E.
  - rewrite mread_ok by lia. cbn [mbind option_bind]. case_bool_decide; [by apply steps_alive|apply steps_kill].
  - rewrite mread_ok by lia. cbn [mbind option_bind]. destruct (op_incoming w).
    + destruct (op_torrent_by_hash _ w) as [t|]; [|apply steps_kill]. destruct (op_net_active t w); [|apply steps_kill].
      destruct (pt_adopt t w) as [w' ->]. cbn [mbind option_bind]. by apply steps_alive.
    + case_bool_decide; [by apply steps_alive|apply steps_kill].
  - rewrite mread_ok by lia. cbn [mbind option_bind]. destruct (_ || _); [apply steps_kill|].
    edestruct pt_shake as [w' Ew]. rewrite Ew. cbn [mbind option_bind]. by apply steps_alive.
  - destruct (dec_be32_total buf 0) as (v & -> & _); [lia|]. cbn [mbind option_bind]. destruct (v =? 0); [|by apply steps_alive].
    destruct (pt_keepalive w) as [w' ->]. cbn [mbind option_bind]. by apply steps_alive.
  - destruct (lookup_lt_is_Some_2 buf 0) as [n Hn]; [lia|]. unfold aread. rewrite Hn. cbn [mbind option_bind]. cbn zeta.
    set (i' := Input (msg_len i) n (pc_index i) (pc_begin i) BTP_MSGHEAD (st_bytes i)).
    destruct (net_mh_ok i' w) eqn:Eok; cbn [negb]; [|apply steps_kill].
    destruct (Z.eqb_spec (msg_len i') 1) as [El|Hl]; [apply steps_dispatch; by apply single_total|].
    destruct (Z.eqb_spec n MSG_PIECE) as [->|Hp]; [by apply steps_alive|]. apply steps_alive. exact (head_body i' w Eok Hl Hp).
  - destruct Hs as [Hs Hn]. destruct (dec_be32_total buf 0) as (x & -> & _); [lia|]. destruct (dec_be32_total buf 4) as (y & -> & _); [lia|].
    cbn [mbind option_bind]. apply steps_alive. unfold sized, body_size. cbn. tauto.
  - apply steps_dispatch, net_dispatch_total. by rewrite Hb.
Qed.

Lemma sized_nonempty i : sized i -> nonempty i.
Proof. unfold sized, nonempty. destruct (in_state i); intros; solve [done|lia]. Qed.

Lemma runs_total n : forall s w bs, sized (s_in s) ->
  (2 * length bs + (if decide (st_bytes (s_in s) = 0) then 1 else 0) < n)%nat -> exists o, runs s w bs o.
Proof.
  induction n as [|n IH]; intros s w bs Hs Hn; [lia|]. destruct (decide (st_bytes (s_in s) <= length bs)%nat) as [Hk|Hk].
  2: { eexists. apply runs_wait. lia. }
  set (k := st_bytes (s_in s)) in *. destruct (net_state_total (s_in s) (take k bs) w Hs) as (r & E & Hr); [by rewrite length_take; lia|].
  assert (step_state (net_progress k s) (take k bs) w = Some (match r with Alive _ i w => Alive _ (with_in i (net_progress k s)) w | Killed _ w => Killed _ w end)) as Es.
  { unfold step_state. rewrite net_progress_in, E. done. }
  destruct r as [i w'|w']; [|eexists; by eapply runs_dead].
  destruct (IH (with_in i (net_progress k s)) w' (drop k bs) Hr) as [o Ho]; [|exists o; by eapply runs_go].
  rewrite length_drop. cbn [s_in with_in]. destruct (net_state_next _ _ _ _ _ E (sized_nonempty _ Hs)) as [_ H4].
  destruct (decide (k = 0%nat)) as [Ek|Hne].
  - rewrite (decide_False (P := st_bytes i = 0%nat)) by (rewrite H4 by (by apply sized_nonempty); lia). lia.
  - case_decide; lia.
Qed.
End Total.

(** A new peer waits for the start of the handshake. *)
Definition peer_input : stream := Stream (Input 0 0 0 0 SHAKE_PSTR 28) None 0 0 0.

Lemma peer_input_holds : holds peer_input peer_input [].
Proof. split; [split; [done|split; done]|]. split; [cbn; lia|done]. Qed.

(** C16: However the bytes of a peer are cut into calls of [recv] that bring some, [net_read] gives the
    messages to the same handlers in the same order and comes to the same end: the peer
    alive, in the same state of the daemon, with the same counts of the bytes of pieces
    and the rest in its buffer, or killed.  It never reads or writes outside its
    buffers, and its loop ends, whatever the bytes are. *)
Theorem net_read_chunks {W T : Type} `{Ops : PeerOps W T} `{!PeerTotal W T} (w : W) (bytes : list Z) :
  exists o, runs peer_input w bytes o /\
    forall chunks, concat chunks = bytes -> Forall received chunks ->
      exists o', net_reads peer_input w chunks = Some o' /\ ends o' o.
Proof.
  destruct (runs_total (2 * length bytes + 2) peer_input w bytes) as [o Ho]; [done|case_decide; lia|]. exists o. split; [done|].
  intros chunks <- Hc. by apply (net_reads_ok chunks peer_input peer_input [] w o peer_input_holds Hc).
Qed.
