(* ===== verification/BtMessages.v ===== *)
(** The messages of the BitTorrent protocol: the bytes that [libbt/btpd/net_buf.c]
    writes and what [BtStream] makes of them at the other end. *)
From S2P Require Import Prelude Bitfield BtPeer BtNet BtStream BtWire.
Local Open Scope Z_scope.

(** ** [net_buf.c]: the bytes of the buffers *)

Definition nb_create_onesized (mtype : Z) : list Z := enc_be32 1 ++ [mtype].
Definition nb_create_keepalive : list Z := enc_be32 0.
Definition nb_create_piece (index begin blen : Z) : list Z :=
  enc_be32 (u32 (9 + blen)) ++ [MSG_PIECE] ++ enc_be32 index ++ enc_be32 begin.
Definition nb_create_request (index begin length : Z) : list Z :=
  enc_be32 13 ++ [MSG_REQUEST] ++ enc_be32 index ++ enc_be32 begin ++ enc_be32 length.
Definition nb_create_cancel (index begin length : Z) : list Z :=
  enc_be32 13 ++ [MSG_CANCEL] ++ enc_be32 index ++ enc_be32 begin ++ enc_be32 length.
Definition nb_create_have (index : Z) : list Z := enc_be32 5 ++ [MSG_HAVE] ++ enc_be32 index.
Definition nb_create_bitfield (tp_npieces : nat) : list Z :=
  enc_be32 (u32 (Z.of_nat (field_bytes tp_npieces) + 1)) ++ [MSG_BITFIELD].
Definition nb_create_shake (hash id : list Z) : list Z := pstr ++ replicate 8 0 ++ hash ++ id.

(** A turn of the loop of [nb_create_multihave]: [i], [count] and the buffer. *)
Definition multihave_turn (field : list Z) (have : nat) (x : nat * nat * list Z) : option (nat * nat * list Z + list Z) :=
  let '(i, count, out) := x in
  if (count <? have)%nat then
    h ← has_bit field i;
    if h : bool then
      out ← mwrite out (count * 9) (enc_be32 5);
      out ← awrite out (count * 9 + 4) MSG_HAVE;
      out ← mwrite out (count * 9 + 5) (enc_be32 (Z.of_nat i));
      Some (inl (S i, S count, out))
    else Some (inl (S i, count, out))
  else Some (inr out).
Definition nb_create_multihave (tp_npieces have : nat) (field : list Z) : option (list Z) :=
  cloop (S tp_npieces) (multihave_turn field have) (O, O, replicate (9 * have) 0).

(** ** Messages *)

Inductive msg :=
  | MKeepalive | MChoke | MUnchoke | MInterest | MUninterest
  | MHave (index : Z)
  | MBitfield (field : list Z)
  | MRequest (index begin length : Z)
  | MPiece (index begin : Z) (data : list Z)
  | MCancel (index begin length : Z).

Definition encode (tp_npieces : nat) (m : msg) : list Z :=
  match m with
  | MKeepalive => nb_create_keepalive
  | MChoke => nb_create_onesized MSG_CHOKE
  | MUnchoke => nb_create_onesized MSG_UNCHOKE
  | MInterest => nb_create_onesized MSG_INTEREST
  | MUninterest => nb_create_onesized MSG_UNINTEREST
  | MHave i => nb_create_have i
  | MBitfield field => nb_create_bitfield tp_npieces ++ field
  | MRequest i b l => nb_create_request i b l
  | MPiece i b data => nb_create_piece i b (Z.of_nat (length data)) ++ data
  | MCancel i b l => nb_create_cancel i b l
  end.

(** The bytes of pieces in a message. *)
Definition piece_bytes (m : msg) : Z := match m with MPiece _ _ data => Z.of_nat (length data) | _ => 0 end.

Section Messages.
Context {W T : Type} `{Ops : PeerOps W T}.

(** What a message means to the daemon; [true] ends the peer. *)
Definition deliver (m : msg) (w : W) : option (bool * W) :=
  let go (o : option W) := w ← o; Some (false, w) in
  match m with
  | MKeepalive => go (op_keepalive w)
  | MChoke => go (op_choke w)
  | MUnchoke => go (op_unchoke w)
  | MInterest => go (op_interest w)
  | MUninterest => go (op_uninterest w)
  | MHave i => go (op_have i w)
  | MBitfield field => if op_got w =? 0 then go (op_bitfield field w) else Some (true, w)
  | MRequest i b l =>
      if op_serves w then
        bad ← bad_request i b l w;
        if bad : bool then Some (true, w) else go (op_request i b l w)
      else Some (false, w)
  | MPiece i b data => go (op_piece i b (Z.of_nat (length data)) data w)
  | MCancel i b l => go (op_cancel i b l w)
  end.

Definition word (x : Z) : Prop := 0 <= x < 2 ^ 32.

(** The messages that fit their formats. *)
Definition well_formed (tp_npieces : nat) (m : msg) : Prop :=
  match m with
  | MKeepalive | MChoke | MUnchoke | MInterest | MUninterest => True
  | MHave i => word i
  | MBitfield field => length field = field_bytes tp_npieces /\ (0 < tp_npieces)%nat /\ Z.of_nat tp_npieces < 2 ^ 32
  | MRequest i b l | MCancel i b l => word i /\ word b /\ word l
  | MPiece i b data => word i /\ word b /\ Z.of_nat (length data) <= PIECE_BLOCKLEN
  end.

(** The daemon takes the messages one after the other, and goes on. *)
Inductive delivered (np : nat) : W -> list msg -> W -> Prop :=
  | delivered_nil w : delivered np w [] w
  | delivered_cons w m ms w1 w2 : op_npieces w = np -> well_formed np m -> deliver m w = Some (false, w1) ->
      delivered np w1 ms w2 -> delivered np w (m :: ms) w2.

(** The handshake of a peer with the id [id], on the torrent of [hash]: one that came to
    us says which torrent it is, one that we went to has to say the one we meant. *)
Inductive greets (hash id : list Z) (w w2 : W) : Prop :=
  | greets_in t w1 : op_incoming w = true -> op_torrent_by_hash hash w = Some t -> op_net_active t w = true -> op_adopt t w = Some w1 ->
      op_has_peer id w1 = false -> id <> op_peer_id w1 -> op_shake id w1 = Some w2 -> greets hash id w w2
  | greets_out : op_incoming w = false -> hash = op_hash w ->
      op_has_peer id w = false -> id <> op_peer_id w -> op_shake id w = Some w2 -> greets hash id w w2.

(** ** Reading them *)

Lemma dec_enc pre v post : word v -> dec_be32 (pre ++ enc_be32 v ++ post) (length pre) = Some v.
Proof.
  intros Hv. unfold dec_be32, aread. assert (forall k, (pre ++ enc_be32 v ++ post) !! (length pre + k)%nat = (enc_be32 v ++ post) !! k) as Hk.
  { intros k. by rewrite lookup_app_r, Nat.add_comm, Nat.add_sub by lia. }
  rewrite <- (Nat.add_0_r (length pre)) at 1. rewrite !Hk. cbn [enc_be32 app lookup list_lookup mbind option_bind].
  f_equal. change 0xff with (Z.ones 8). rewrite !Z.land_ones, !Z.shiftr_div_pow2 by lia.
  unfold word in Hv. pose proof (Z.mod_pos_bound (v / 2 ^ 24) (2 ^ 8) ltac:(lia)). pose proof (Z.mod_pos_bound (v / 2 ^ 16) (2 ^ 8) ltac:(lia)).
  pose proof (Z.mod_pos_bound (v / 2 ^ 8) (2 ^ 8) ltac:(lia)). pose proof (Z.mod_pos_bound v (2 ^ 8) ltac:(lia)).
  rewrite (Z.shiftl_mul_pow2 (_ mod _) 16), (Z.shiftl_mul_pow2 (_ mod _) 8) by lia. rewrite lor_shift by lia.
  set (a := (v / 2 ^ 24) mod 2 ^ 8) in *. set (b := (v / 2 ^ 16) mod 2 ^ 8) in *. set (c := (v / 2 ^ 8) mod 2 ^ 8) in *. set (d := v mod 2 ^ 8) in *.
  replace (a * 2 ^ 24 + b * 2 ^ 16) with (Z.shiftl (a * 2 ^ 8 + b) 16) by (rewrite Z.shiftl_mul_pow2; lia). rewrite lor_shift by lia.
  replace ((a * 2 ^ 8 + b) * 2 ^ 16 + c * 2 ^ 8) with (Z.shiftl ((a * 2 ^ 8 + b) * 2 ^ 8 + c) 8) by (rewrite Z.shiftl_mul_pow2; lia). rewrite lor_shift by lia.
  rewrite wrap_small; subst a b c d; Z.to_euclidean_division_equations; lia.
Qed.

Lemma length_enc v : length (enc_be32 v) = 4%nat.
Proof. done. Qed.

(** The peer waits for a message, having counted [n] bytes of pieces. *)
Definition ready (s : stream) (n : Z) : Prop :=
  in_buf s = None /\ in_off s = 0%nat /\ in_state (s_in s) = BTP_MSGSIZE /\ st_bytes (s_in s) = 4%nat /\
  downloaded s = u64 n /\ count_dwn s = u32 n.

Lemma runs_step s w b rest s' w' o : length b = st_bytes (s_in s) -> step_state (net_progress (length b) s) b w = Some (Alive _ s' w') ->
  runs s' w' rest o -> runs s w (b ++ rest) o.
Proof.
  intros Hl E Hr. apply (runs_go s w (b ++ rest) s' w'); rewrite <- Hl.
  - rewrite length_app. lia.
  - by rewrite take_app_length.
  - by rewrite drop_app_length.
Qed.

Lemma outside_piece k s : in_state (s_in s) <> BTP_MSGBODY -> net_progress k s = s.
Proof. intros H. unfold net_progress, in_piece. by rewrite bool_decide_false. Qed.

Definition head_of (len : Z) (s : stream) : stream :=
  with_in (Input len (msg_num (s_in s)) (pc_index (s_in s)) (pc_begin (s_in s)) BTP_MSGHEAD 1) s.

Lemma runs_size s n w len rest o : ready s n -> word len -> len <> 0 ->
  runs (head_of len s) w rest o -> runs s w (enc_be32 len ++ rest) o.
Proof.
  intros (H1 & H2 & H3 & H4 & _) Hl H0 Hr. apply (runs_step s w _ rest (head_of len s) w); [by rewrite H4| |done].
  rewrite outside_piece by (by rewrite H3). unfold step_state, net_state. rewrite H3.
  pose proof (dec_enc [] len [] Hl) as Ed. cbn [app length] in Ed. rewrite app_nil_r in Ed. rewrite Ed. cbn [mbind option_bind].
  by rewrite (proj2 (Z.eqb_neq _ _)).
Qed.

Lemma head_state len n0 ix bg k num w : net_state (Input len n0 ix bg BTP_MSGHEAD k) [num] w =
  let i := Input len num ix bg BTP_MSGHEAD k in
  if negb (net_mh_ok i w) then kill w
  else if len =? 1 then
    '(bad, w) ← net_dispatch_msg i [num] w;
    if bad : bool then kill w else Some (Alive _ (peer_set_in_state BTP_MSGSIZE 4 i) w)
  else if num =? MSG_PIECE then Some (Alive _ (peer_set_in_state BTP_PIECEMETA 8 i) w)
  else Some (Alive _ (peer_set_in_state BTP_MSGBODY (Z.to_nat (u32 (len - 1))) i) w).
Proof. reflexivity. Qed.

(** A message without a body. *)
Lemma runs_single s n w num w1 m : ready s n -> word num ->
  (forall i, msg_num i = num -> msg_len i = 1 -> net_mh_ok i w = true /\ forall buf, net_dispatch_msg i buf w = Some (false, w1)) ->
  m = nb_create_onesized num ->
  exists s', ready s' n /\ forall rest o, runs s' w1 rest o -> runs s w (m ++ rest) o.
Proof.
  intros Hs Hn Hm ->. exists (with_in (Input 1 num (pc_index (s_in s)) (pc_begin (s_in s)) BTP_MSGSIZE 4) s).
  split; [by destruct Hs as (? & ? & ? & ? & ? & ?)|]. intros rest o Hr. unfold nb_create_onesized. rewrite <- app_assoc.
  apply (runs_size s n); [done|done|done|]. eapply (runs_step (head_of 1 s) w [num]); [done| |exact Hr].
  rewrite outside_piece by done. unfold step_state. cbn [s_in head_of with_in]. rewrite head_state. cbn zeta.
  destruct (Hm (Input 1 num (pc_index (s_in s)) (pc_begin (s_in s)) BTP_MSGHEAD 1) eq_refl eq_refl) as [-> Hd].
  cbn [negb]. change (1 =? 1) with true. cbn iota. rewrite Hd. done.
Qed.

Definition body_of (len num : Z) (s : stream) : stream :=
  with_in (Input len num (pc_index (s_in s)) (pc_begin (s_in s)) BTP_MSGBODY (Z.to_nat (len - 1))) s.

(** A message with a body, but for that of a piece. *)
Lemma runs_body s n w len num body w1 : ready s n -> 1 < len < 2 ^ 32 -> num <> MSG_PIECE -> Z.of_nat (length body) = len - 1 ->
  (forall i, msg_num i = num -> msg_len i = len -> net_mh_ok i w = true /\ net_dispatch_msg i body w = Some (false, w1)) ->
  exists s', ready s' n /\ forall rest o, runs s' w1 rest o -> runs s w ((enc_be32 len ++ [num] ++ body) ++ rest) o.
Proof.
  intros Hs Hl Hn Hb Hm. exists (with_in (Input len num (pc_index (s_in s)) (pc_begin (s_in s)) BTP_MSGSIZE 4) s).
  split; [by destruct Hs as (? & ? & ? & ? & ? & ?)|]. intros rest o Hr. rewrite <- !app_assoc.
  apply (runs_size s n); [done|unfold word; lia|lia|]. apply (runs_step (head_of len s) w [num] _ (body_of len num s) w); [done| |].
  - rewrite outside_piece by done. unfold step_state. cbn [s_in head_of with_in]. rewrite head_state. cbn zeta.
    destruct (Hm (Input len num (pc_index (s_in s)) (pc_begin (s_in s)) BTP_MSGHEAD 1) eq_refl eq_refl) as [-> _]. cbn [negb].
    rewrite (proj2 (Z.eqb_neq len 1)), (proj2 (Z.eqb_neq num _)) by (lia || done). rewrite wrap_small by lia. done.
  - eapply (runs_step (body_of len num s) w body); [cbn; lia| |exact Hr].
    assert (net_progress (length body) (body_of len num s) = body_of len num s) as ->.
    { unfold net_progress, in_piece. cbn. by rewrite (proj2 (Z.eqb_neq num _)). }
    unfold step_state. cbn [s_in body_of with_in net_state in_state].
    destruct (Hm (Input len num (pc_index (s_in s)) (pc_begin (s_in s)) BTP_MSGBODY (Z.to_nat (len - 1))) eq_refl eq_refl) as [_ ->].
    done.
Qed.

Definition meta_of (len : Z) (s : stream) : stream :=
  with_in (Input len MSG_PIECE (pc_index (s_in s)) (pc_begin (s_in s)) BTP_PIECEMETA 8) s.
Definition data_of (len i b : Z) (s : stream) : stream :=
  with_in (Input len MSG_PIECE i b BTP_MSGBODY (Z.to_nat (len - 9))) s.

Lemma runs_piece s n w i b data w1 : ready s n -> word i -> word b -> Z.of_nat (length data) <= PIECE_BLOCKLEN ->
  op_piece i b (Z.of_nat (length data)) data w = Some w1 ->
  exists s', ready s' (n + Z.of_nat (length data)) /\
    forall rest o, runs s' w1 rest o -> runs s w ((nb_create_piece i b (Z.of_nat (length data)) ++ data) ++ rest) o.
Proof.
  intros Hs Hi Hb Hd E. set (len := 9 + Z.of_nat (length data)). unfold PIECE_BLOCKLEN in Hd. change (2 ^ 14) with 16384 in Hd.
  set (s' := with_in (Input len MSG_PIECE i b BTP_MSGSIZE 4) (net_progress (length data) (data_of len i b s))).
  exists s'. split.
  - destruct Hs as (H1 & H2 & _ & _ & H5 & H6). unfold s', net_progress, in_piece. cbn [s_in data_of with_in in_state msg_num].
    rewrite bool_decide_true by done. change (MSG_PIECE =? MSG_PIECE) with true. cbn [andb]. unfold ready. cbn. rewrite H1, H2, H5, H6.
    split_and!; try done; unfold wrap; by rewrite Zplus_mod_idemp_l.
  - intros rest o Hr. unfold nb_create_piece. rewrite (wrap_small 32) by lia. fold len. rewrite <- !app_assoc.
    apply (runs_size s n); [done|unfold word; lia|lia|]. apply (runs_step (head_of len s) w [MSG_PIECE] _ (meta_of len s) w); [done| |].
    { rewrite outside_piece by done. unfold step_state. cbn [s_in head_of with_in]. rewrite head_state. cbn zeta.
      change (net_mh_ok _ w) with (len <=? PIECE_BLOCKLEN + 9). unfold PIECE_BLOCKLEN. change (2 ^ 14 + 9) with 16393.
      rewrite (proj2 (Z.leb_le _ _)), (proj2 (Z.eqb_neq len 1)) by lia. done. }
    rewrite (app_assoc (enc_be32 i)). apply (runs_step (meta_of len s) w (enc_be32 i ++ enc_be32 b) _ (data_of len i b s) w); [done| |].
    { rewrite outside_piece by done. unfold step_state, net_state. cbn [s_in meta_of with_in in_state].
      change (dec_be32 (enc_be32 i ++ enc_be32 b) 0) with (dec_be32 ([] ++ enc_be32 i ++ enc_be32 b) (length (A := Z) [])). rewrite dec_enc by done.
      pose proof (dec_enc (enc_be32 i) b [] Hb) as Ed. rewrite app_nil_r in Ed. change (length (enc_be32 i)) with 4%nat in Ed. rewrite Ed.
      cbn [mbind option_bind msg_len]. rewrite wrap_small by lia. done. }
    apply (runs_step (data_of len i b s) w data rest s' w1); [cbn; lia| |done].
    unfold step_state. rewrite net_progress_in. cbn [s_in data_of with_in net_state in_state]. unfold net_dispatch_msg. cbn [msg_num msg_len pc_index pc_begin].
    replace (u32 (len - 9)) with (Z.of_nat (length data)) by (rewrite wrap_small; lia). cbn [MSG_PIECE MSG_CHOKE MSG_UNCHOKE MSG_INTEREST MSG_UNINTEREST
      MSG_HAVE MSG_BITFIELD MSG_REQUEST MSG_CANCEL Z.eqb Pos.eqb]. rewrite E. done.
Qed.

Lemma dec_three x y z : word x -> word y -> word z -> let b := enc_be32 x ++ enc_be32 y ++ enc_be32 z in
  dec_be32 b 0 = Some x /\ dec_be32 b 4 = Some y /\ dec_be32 b 8 = Some z.
Proof.
  intros Hx Hy Hz b. split_and!.
  - exact (dec_enc [] x _ Hx).
  - exact (dec_enc (enc_be32 x) y _ Hy).
  - pose proof (dec_enc (enc_be32 x ++ enc_be32 y) z [] Hz) as E. rewrite app_nil_r, <- app_assoc in E. exact E.
Qed.

(** The header test and the dispatch of a message with the given number. *)
Ltac by_number := intros ? Hnum Hlen; unfold net_mh_ok, net_dispatch_msg; rewrite Hnum, ?Hlen;
  cbn [Z.eqb Pos.eqb orb MSG_CHOKE MSG_UNCHOKE MSG_INTEREST MSG_UNINTEREST MSG_HAVE MSG_BITFIELD MSG_REQUEST MSG_PIECE MSG_CANCEL].

Lemma runs_msg s n w m w1 : ready s n -> well_formed (op_npieces w) m -> deliver m w = Some (false, w1) ->
  exists s', ready s' (n + piece_bytes m) /\ forall rest o, runs s' w1 rest o -> runs s w (encode (op_npieces w) m ++ rest) o.
Proof.
  intros Hs Hm E. destruct m as [| | | | |i|field|i b l|i b data|i b l]; cbn [deliver well_formed encode piece_bytes] in *; rewrite ?Z.add_0_r.
  - exists (with_in (Input 0 (msg_num (s_in s)) (pc_index (s_in s)) (pc_begin (s_in s)) BTP_MSGSIZE 4) s).
    destruct Hs as (H1 & H2 & H3 & H4 & H5 & H6). split; [done|]. intros rest o Hr.
    apply (runs_step s w nb_create_keepalive _ (with_in (Input 0 (msg_num (s_in s)) (pc_index (s_in s)) (pc_begin (s_in s)) BTP_MSGSIZE 4) s) w1); [by rewrite H4| |done].
    rewrite outside_piece by (by rewrite H3). unfold step_state, net_state. rewrite H3. change (dec_be32 nb_create_keepalive 0) with (Some 0).
    cbn [mbind option_bind]. change (0 =? 0) with true. cbn iota. apply bind_Some in E as (w' & -> & [= ->]). cbn [mbind option_bind].
    by rewrite H4.
  - eapply (runs_single s n w MSG_CHOKE w1); [done|done| |done]. by_number. by rewrite E.
  - eapply (runs_single s n w MSG_UNCHOKE w1); [done|done| |done]. by_number. by rewrite E.
  - eapply (runs_single s n w MSG_INTEREST w1); [done|done| |done]. by_number. by rewrite E.
  - eapply (runs_single s n w MSG_UNINTEREST w1); [done|done| |done]. by_number. by rewrite E.
  - apply (runs_body s n w 5 MSG_HAVE (enc_be32 i) w1); [done|lia|done|done|]. by_number. split; [done|].
    pose proof (dec_enc [] i [] Hm) as Ed. rewrite app_nil_r in Ed. change (dec_be32 (enc_be32 i) 0 = Some i) in Ed. rewrite Ed. exact E.
  - destruct Hm as (Hf & Hnp & Hfew). set (np := op_npieces w) in *. assert (0 < 8 * field_bytes np <= np + 7)%nat as Hb.
    { unfold field_bytes. pose proof (Nat.div_mod_eq (np + 7) 8). pose proof (Nat.mod_upper_bound (np + 7) 8 ltac:(lia)). lia. }
    unfold nb_create_bitfield. rewrite (wrap_small 32) by lia. rewrite <- app_assoc.
    apply (runs_body s n w (Z.of_nat (field_bytes np) + 1) MSG_BITFIELD field w1); [done|lia|done|lia|]. by_number. fold np.
    split; [by apply Z.eqb_eq|exact E].
  - destruct Hm as (H1 & H2 & H3). destruct (dec_three i b l H1 H2 H3) as (D1 & D2 & D3).
    apply (runs_body s n w 13 MSG_REQUEST (enc_be32 i ++ enc_be32 b ++ enc_be32 l) w1); [done|lia|done|done|]. by_number. split; [done|].
    rewrite D1, D2, D3. exact E.
  - destruct Hm as (H1 & H2 & H3). apply runs_piece; try done. apply bind_Some in E as (w' & -> & [= ->]). done.
  - destruct Hm as (H1 & H2 & H3). destruct (dec_three i b l H1 H2 H3) as (D1 & D2 & D3).
    apply (runs_body s n w 13 MSG_CANCEL (enc_be32 i ++ enc_be32 b ++ enc_be32 l) w1); [done|lia|done|done|]. by_number. split; [done|].
    rewrite D1, D2, D3. exact E.
Qed.

Definition all_bytes (ms : list msg) : Z := foldr (fun m n => piece_bytes m + n) 0 ms.

Lemma runs_msgs np w ms w2 : delivered np w ms w2 -> forall s n, ready s n ->
  exists s', ready s' (n + all_bytes ms) /\ forall rest o, runs s' w2 rest o -> runs s w (concat (map (encode np) ms) ++ rest) o.
Proof.
  induction 1 as [w|w m ms w1 w2 Hnp Hm E _ IH]; intros s n Hs; cbn [all_bytes foldr map concat].
  - exists s. rewrite Z.add_0_r. by split.
  - subst np. destruct (runs_msg s n w m w1 Hs Hm E) as (s1 & Hs1 & H1). destruct (IH s1 _ Hs1) as (s2 & Hs2 & H2).
    exists s2. fold (all_bytes ms). split; [by rewrite Z.add_assoc|]. intros rest o Hr. rewrite <- app_assoc. by apply H1, H2.
Qed.

Definition shaking (state : input_state) (k : nat) : stream := with_in (Input 0 0 0 0 state k) peer_input.

Lemma runs_shake hash id w w2 rest o : length hash = 20%nat -> length id = 20%nat -> greets hash id w w2 ->
  runs (shaking BTP_MSGSIZE 4) w2 rest o -> runs peer_input w (nb_create_shake hash id ++ rest) o.
Proof.
  intros Hh Hid Hg Hr. unfold nb_create_shake. rewrite <- !app_assoc, (app_assoc pstr).
  apply (runs_step peer_input w (pstr ++ replicate 8 0) _ (shaking SHAKE_INFO 20) w); [done|done|].
  assert (forall w1, op_has_peer id w1 = false -> id <> op_peer_id w1 -> op_shake id w1 = Some w2 -> runs (shaking SHAKE_ID 20) w1 (id ++ rest) o) as Hlast.
  { intros w1 H1 H2 H3. apply (runs_step (shaking SHAKE_ID 20) w1 id rest (shaking BTP_MSGSIZE 4) w2); [done| |done].
    rewrite outside_piece by done. unfold step_state. cbn [s_in shaking with_in net_state in_state]. rewrite mread_ok by lia.
    rewrite drop_0, take_ge by lia. cbn [mbind option_bind]. rewrite H1, bool_decide_false by done. cbn [orb]. by rewrite H3. }
  destruct Hg as [t w1 H1 H2 H3 H4 H5 H6 H7|H1 H2 H3 H4 H5].
  - apply (runs_step (shaking SHAKE_INFO 20) w hash _ (shaking SHAKE_ID 20) w1); [done| |by apply Hlast].
    rewrite outside_piece by done. unfold step_state. cbn [s_in shaking with_in net_state in_state]. rewrite mread_ok by lia.
    rewrite drop_0, take_ge by lia. cbn [mbind option_bind]. by rewrite H1, H2, H3, H4.
  - apply (runs_step (shaking SHAKE_INFO 20) w hash _ (shaking SHAKE_ID 20) w); [done| |by apply Hlast].
    rewrite outside_piece by done. unfold step_state. cbn [s_in shaking with_in net_state in_state]. rewrite mread_ok by lia.
    rewrite drop_0, take_ge by lia. cbn [mbind option_bind]. by rewrite H1, bool_decide_true.
Qed.
End Messages.

(** C8: What a peer writes with [net_buf.c], a handshake and then any messages that fit
    their formats, is what its counterpart gets: however the bytes are cut, the handlers
    are called for each message once, in order and with its fields, as long as the
    daemon takes the messages; at the end the buffer is empty, the next message is
    awaited, and the bytes of the pieces are counted. *)
Theorem wire_roundtrip {W T : Type} `{Ops : PeerOps W T} np hash id (w w1 w2 : W) ms chunks :
  length hash = 20%nat -> length id = 20%nat -> greets hash id w w1 -> delivered np w1 ms w2 ->
  concat chunks = nb_create_shake hash id ++ concat (map (encode np) ms) ->
  Forall received chunks ->
  exists s, net_reads peer_input w chunks = Some (Alive _ s w2) /\ ready s (all_bytes ms).
Proof.
  intros Hh Hid Hg Hd Ec Hc.
  destruct (runs_msgs np w1 ms w2 Hd (shaking BTP_MSGSIZE 4) 0) as (s' & Hs' & H); [done|].
  assert (runs peer_input w (concat chunks) (Alive _ (s', []) w2)) as Hr.
  { rewrite Ec. apply (runs_shake hash id w w1); [done..|]. rewrite <- (app_nil_r (concat (map _ ms))). apply H, runs_wait.
    destruct Hs' as (_ & _ & _ & -> & _). cbn. lia. }
  destruct (net_reads_ok chunks peer_input peer_input [] w _ peer_input_holds Hc Hr) as ([s w'|w'] & E & He); [|done].
  destruct He as (-> & _ & _ & ->). by exists s'.
Qed.

(** ** [nb_create_multihave] *)

(** The pieces that are there. *)
Definition owned (field : list Z) (np : nat) : list nat := List.filter (bit field) (seq 0 np).

Lemma owned_S field k : owned field (S k) = owned field k ++ (if bit field k then [k] else []).
Proof. unfold owned. rewrite seq_S, List.filter_app. cbn. by destruct (bit field k). Qed.

Lemma owned_mono field i k : (i <= k)%nat -> (length (owned field i) <= length (owned field k))%nat.
Proof. induction 1 as [|k _ IH]; [done|]. rewrite owned_S, length_app. lia. Qed.

Lemma mwrite_app (a b b' c : list Z) : length b = length b' -> mwrite (a ++ b ++ c) (length a) b' = Some (a ++ b' ++ c).
Proof.
  intros H. rewrite mwrite_ok by (rewrite !length_app; lia). rewrite take_app_length, drop_app_add, <- H, drop_app_length. done.
Qed.

Definition haves (l : list nat) : list Z := concat (map (fun i => nb_create_have (Z.of_nat i)) l).

Lemma haves_snoc l i : haves (l ++ [i]) = haves l ++ nb_create_have (Z.of_nat i).
Proof. unfold haves. rewrite map_app, concat_app. cbn [map concat]. by rewrite app_nil_r. Qed.

Lemma length_haves l : length (haves l) = (length l * 9)%nat.
Proof. unfold haves. induction l as [|i l IH]; [done|]. cbn [map concat length]. rewrite length_app, IH. cbn. lia. Qed.

Lemma multihave_turn_have (field : list Z) i l r have : (length l < have)%nat -> has_bit field i = Some true ->
  multihave_turn field have (i, length l, haves l ++ replicate (9 * S r) 0) = Some (inl (S i, S (length l), haves (l ++ [i]) ++ replicate (9 * r) 0)).
Proof.
  intros Hlt Hb. unfold multihave_turn. rewrite (proj2 (Nat.ltb_lt _ _)), Hb by done. cbn [mbind option_bind].
  replace (9 * S r)%nat with (4 + (1 + (4 + 9 * r)))%nat by lia. rewrite !replicate_add. rewrite <- length_haves.
  rewrite mwrite_app by done. cbn [mbind option_bind]. rewrite awrite_ok by (rewrite !length_app, length_enc; cbn; lia). cbn [mbind option_bind].
  replace (length (haves l) + 4)%nat with (length (haves l ++ enc_be32 5) + 0)%nat by (rewrite length_app, length_enc; lia).
  rewrite (app_assoc (haves l)), insert_app_r.
  change (<[0%nat := MSG_HAVE]> (replicate 1 0 ++ replicate 4 0 ++ replicate (9 * r) 0)) with ([MSG_HAVE] ++ replicate 4 0 ++ replicate (9 * r) 0).
  rewrite (app_assoc (haves l ++ enc_be32 5)).
  replace (length (haves l) + 5)%nat with (length ((haves l ++ enc_be32 5) ++ [MSG_HAVE])) by (rewrite !length_app, length_enc; cbn; lia).
  rewrite mwrite_app by done. cbn [mbind option_bind]. rewrite haves_snoc. unfold nb_create_have. by rewrite <- !app_assoc.
Qed.

(** The buffer for all our pieces holds the HAVE of each of them, in their order. *)
Lemma multihave_ok np field : fits field np ->
  nb_create_multihave np (length (owned field np)) field = Some (haves (owned field np)).
Proof.
  intros Hf. unfold nb_create_multihave. set (have := length (owned field np)).
  set (I := fun x : nat * nat * list Z => let '(i, count, out) := x in (i <= np)%nat /\ count = length (owned field i) /\
    out = haves (owned field i) ++ replicate (9 * (have - count)) 0).
  destruct (cloop_total I (fun x => np - x.1.1)%nat (fun out => out = haves (owned field np)) (multihave_turn field have)) with
    (fuel := S np) (s := (O, O, replicate (9 * have) 0)) as (out & E & ->); [|split_and!; [lia|done|cbn; by rewrite Nat.sub_0_r]|cbn; lia|exact E].
  intros [[i count] out] (Hi & -> & ->). unfold turn.
  destruct (Nat.ltb_spec (length (owned field i)) have) as [Hlt|Hge].
  - assert (i < np)%nat as Hin by (destruct (decide (i = np)) as [->|]; [unfold have in Hlt; lia|lia]).
    assert (has_bit field i = Some (bit field i)) as Eb by (by apply (has_bit_ok _ np)).
    pose proof (owned_S field i) as ES. pose proof (owned_mono field (S i) np Hin) as Hm. fold have in Hm.
    destruct (bit field i).
    + replace (have - length (owned field i))%nat with (S (have - S (length (owned field i)))) by lia.
      rewrite multihave_turn_have by done. split; [|cbn; lia]. rewrite <- ES. split_and!; [lia|by rewrite ES, length_app, Nat.add_comm|done].
    + unfold multihave_turn. rewrite (proj2 (Nat.ltb_lt _ _)), Eb by done. cbn [mbind option_bind]. rewrite app_nil_r in ES.
      split; [|cbn; lia]. unfold I. rewrite ES. split_and!; [lia|done..].
  - unfold multihave_turn. rewrite (proj2 (Nat.ltb_ge _ _)) by done.
    replace (have - _)%nat with 0%nat by lia. rewrite app_nil_r. pose proof (owned_mono field i np Hi) as Hm. fold have in Hm.
    assert (forall k, (i <= k)%nat -> (length (owned field k) <= length (owned field i))%nat -> owned field k = owned field i) as Hsame.
    { induction 1 as [|k Hk IH]; [done|]. intros Hl. rewrite owned_S, length_app in Hl. rewrite owned_S.
      pose proof (owned_mono field i k Hk). destruct (bit field k); [cbn in Hl; lia|]. rewrite app_nil_r. apply IH. cbn in Hl. lia. }
    by rewrite (Hsame np).
Qed.

(** ** A sample: a daemon that writes down what it is told *)

Definition recorder : Type := list msg.
#[export] Instance recorder_ops : PeerOps recorder unit := {
  op_incoming _ := true;
  op_torrent_by_hash _ _ := Some ();
  op_net_active _ _ := true;
  op_adopt _ w := Some w;
  op_hash _ := [];
  op_has_peer _ _ := false;
  op_peer_id _ := [];
  op_shake _ w := Some w;
  op_npieces _ := 2%nat;
  op_piece_size _ _ := 16384;
  op_got _ := 0;
  op_serves _ := true;
  op_has_piece _ _ := Some true;
  op_keepalive w := Some (w ++ [MKeepalive]);
  op_choke w := Some (w ++ [MChoke]);
  op_unchoke w := Some (w ++ [MUnchoke]);
  op_interest w := Some (w ++ [MInterest]);
  op_uninterest w := Some (w ++ [MUninterest]);
  op_have i w := Some (w ++ [MHave i]);
  op_bitfield f w := Some (w ++ [MBitfield f]);
  op_request i b l w := Some (w ++ [MRequest i b l]);
  op_cancel i b l w := Some (w ++ [MCancel i b l]);
  op_piece i b _ data w := Some (w ++ [MPiece i b data]);
  op_kill w := Some w
}.

#[export] Instance recorder_total : PeerTotal recorder unit.
Proof. by split; intros; eexists. Qed.

Definition sample_msgs : list msg := [MBitfield [192]; MUnchoke; MHave 1; MPiece 1 16384 [7; 8; 9]; MKeepalive; MRequest 1 0 100].
Definition sample_bytes : list Z := nb_create_shake (replicate 20 1) (replicate 20 2) ++ concat (map (encode 2) sample_msgs).

Lemma sample_delivered : delivered 2 ([] : recorder) sample_msgs sample_msgs.
Proof.
  unfold sample_msgs. do 6 (eapply delivered_cons; [done|cbn; unfold word; (done || lia || (split_and!; done || lia))|reflexivity|]). apply delivered_nil.
Qed.

Lemma wire_roundtrip_witness :
  exists s, net_reads peer_input ([] : recorder) [take 30 sample_bytes; drop 30 sample_bytes] = Some (Alive _ s sample_msgs) /\ ready s 3.
Proof.
  apply (wire_roundtrip 2 (replicate 20 1) (replicate 20 2) ([] : recorder) [] sample_msgs sample_msgs).
  - done.
  - done.
  - by apply (greets_in _ _ ([] : recorder) ([] : recorder) () []).
  - exact sample_delivered.
  - cbn [concat]. rewrite app_nil_r. apply take_drop.
  - apply (bool_decide_unpack _). by vm_compute.
Defined.

Lemma net_read_chunks_witness : exists o o', net_reads peer_input ([] : recorder) [take 70 sample_bytes; drop 70 sample_bytes] = Some o' /\
  ends o' o /\ exists o2, net_reads peer_input ([] : recorder) (map (fun b => [b]) sample_bytes) = Some o2 /\ ends o2 o.
Proof.
  destruct (net_read_chunks ([] : recorder) sample_bytes) as (o & _ & H). exists o.
  destruct (H [take 70 sample_bytes; drop 70 sample_bytes]) as (o' & E & He).
  - cbn [concat]. rewrite app_nil_r. apply take_drop.
  - apply (bool_decide_unpack _). by vm_compute.
  - exists o'. split; [exact E|]. split; [exact He|]. apply H; [by vm_compute|]. apply (bool_decide_unpack _). by vm_compute.
Defined.

(** The request whose end wraps: it lies beyond the piece, and passes. *)
Example request_wraps : bad_request 1 4294967290 16 ([] : recorder) = Some false /\ 4294967290 + 16 > op_piece_size ([] : recorder) 1.
Proof. by vm_compute. Qed.

(** A piece message of a byte is let through, with a length that has wrapped. *)
Example short_piece_wraps : net_mh_ok (Input 1 MSG_PIECE 0 0 BTP_MSGHEAD 1) ([] : recorder) = true /\ u32 (1 - 9) = 4294967288.
Proof. by vm_compute. Qed.
