(* ===== verification/BtDaemon.v ===== *)
(** The BitTorrent daemon from the socket to the disk, for one torrent: the handlers of
    [BtNet] and [BtUpload] as an instance of the class that the reader of the byte
    stream is written against, and what a peer's bytes come to. *)
From S2P Require Import Prelude Bitfield BtPeer BtNet BtInv BtAssign BtChoice BtStart BtRelease BtHave BtChoke BtBlock.
From S2P Require Import BtDownload BtUpload BtSlots BtStream BtWire BtMessages.
Local Open Scope Z_scope.

(** The net of the torrent, the queue of uploads, and the peer whose bytes are read as
    long as it is not attached. *)
Record daemon := Daemon { d_net : net; d_uploads : uploads; d_new : peer }.

Section Daemon.
Context (tp : torrent) (choose_method : Z) (rand : nat -> Z) (RAND_MAX : Z).
Context (qsort : (nat * nat -> nat * nat -> Z) -> list (nat * nat) -> list (nat * nat)).

(** [rates] are those of the last tick, [test] is the hash test of a piece once the
    block is written; [has_peer] looks an id up in [mptbl], whose entries outlive their
    peers as long as a log or a ban holds them; [p] is the number of the peer. *)
Context (rates : nat -> Z * Z) (test : net -> Z -> Z -> list Z -> bool * list Z).
Context (has_peer : net -> list Z -> bool) (incoming : bool) (hash my_id : list Z) (p : nat).
Local Notation np := (tp_npieces tp).

Definition upload_info (n : net) (q : nat) : swarm :=
  Swarm np (npieces_got n =? Z.of_nat np) (rates q).1 (rates q).2.

Definition with_net (n : net) (w : daemon) : daemon := Daemon n (d_uploads w) (d_new w).
Definition on_net (f : net -> option net) (w : daemon) : option daemon := n ← f (d_net w); Some (with_net n w).
Definition the_peer (w : daemon) : option peer := pst (d_net w) !! p.

Definition d_shake (w : daemon) : option daemon :=
  n ← peer_on_shake tp p (d_new w) (d_net w);
  '(u, m) ← ul_on_new_peer qsort (upload_info n) RAND_MAX (rand (calls n)) p (d_uploads w) (pst n);
  Some (Daemon (with_calls (S (calls n)) (with_pst m n)) u (d_new w)).

Definition d_interest (want : bool) (w : daemon) : option daemon :=
  let n := d_net w in
  m ← (if want then peer_on_interest qsort (upload_info n) p (d_uploads w) (pst n)
       else peer_on_uninterest qsort (upload_info n) p (d_uploads w) (pst n));
  Some (with_net (with_pst m n) w).

Definition d_piece (index begin length : Z) (data : list Z) (w : daemon) : option daemon :=
  let '(ok, sha) := test (d_net w) index begin data in
  on_net (peer_on_piece tp choose_method rand RAND_MAX p (Z.to_nat index) begin length ok sha) w.

(** [peer_kill]; a peer that is not attached has nothing to give up. *)
Definition d_kill (w : daemon) : option daemon :=
  let n := d_net w in
  if bool_decide (p ∈ peers n) then
    P ← pst n !! p;
    n' ← peer_kill tp p n;
    '(u, m) ← ul_on_lost_peer qsort (upload_info n') p (d_uploads w) (<[p := P]> (pst n'));
    Some (Daemon (with_pst (delete p m) n') u (d_new w))
  else Some w.

#[local] Instance daemon_ops : PeerOps daemon () := {
  op_incoming _ := incoming;
  op_torrent_by_hash h _ := if bool_decide (h = hash) then Some () else None;
  op_net_active _ _ := true;
  op_adopt _ w := P ← peer_send NB_SHAKE (d_new w); Some (Daemon (d_net w) (d_uploads w) P);
  op_hash _ := hash;
  op_has_peer id w := has_peer (d_net w) id;
  op_peer_id _ := my_id;
  op_shake _ := d_shake;
  op_npieces _ := np;
  op_piece_size _ i := torrent_piece_size tp i;
  op_got w := match the_peer w with Some P => npieces P | None => 0 end;
  op_serves w := match the_peer w with Some P => interested P && negb (flag P PF_I_CHOKE) | None => false end;
  op_has_piece w i := cm_has_piece (d_net w) i;
  op_keepalive w := Some w;
  op_choke := on_net (peer_on_choke tp p);
  op_unchoke := on_net (peer_on_unchoke tp choose_method rand RAND_MAX p);
  op_interest := d_interest true;
  op_uninterest := d_interest false;
  op_have i := on_net (peer_on_have tp p (Z.to_nat i));
  op_bitfield f := on_net (peer_on_bitfield tp p f);
  op_request i b l := on_net (on_peer (peer_on_request i b l) p);
  op_cancel i b l := on_net (on_peer (peer_on_cancel i b l) p);
  op_piece := d_piece;
  op_kill := d_kill
}.

(** ** What a peer may say *)

Definition polite (w : daemon) (m : msg) : Prop :=
  match m with
  | MHave i => i < Z.of_nat np
  | MBitfield _ => op_got w = 0
  | MRequest i b l => op_serves w = true -> bad_request i b l w = Some false /\
      forall P, the_peer w = Some P -> Z.of_nat (length (outq P)) + 1 < 2 ^ 32
  | MPiece i b data => let '(ok, sha) := test (d_net w) i b data in
      legal tp (d_net w) (EPiece p (Z.to_nat i) b (Z.of_nat (length data)) ok sha)
  | _ => True
  end.

(** Messages that fit their formats, each of them polite in the state it meets. *)
Fixpoint conversation (w : daemon) (ms : list msg) : Prop :=
  match ms with
  | [] => True
  | m :: ms => well_formed np m /\ polite w m /\ forall w', deliver m w = Some (false, w') -> conversation w' ms
  end.

Local Notation reach := (reachable tp choose_method rand RAND_MAX).

Record daemon_ok (w : daemon) : Prop := DaemonOk {
  dk_net : reach (d_net w);
  dk_nodup : NoDup (m_peerq (d_uploads w));
  dk_npeers : m_npeers (d_uploads w) = length (m_peerq (d_uploads w));
  dk_queue : forall q, q ∈ m_peerq (d_uploads w) <-> q ∈ peers (d_net w)
}.

(** ** Choking as events of the download *)

Inductive chokes (q : list nat) : gmap nat peer -> gmap nat peer -> Prop :=
  | chokes_refl m : chokes q m m
  | chokes_step m x P P' m' : x ∈ q -> m !! x = Some P -> (peer_choke P = Some P' \/ peer_unchoke P = Some P') ->
      chokes q (<[x := P']> m) m' -> chokes q m m'.

Lemma unchoke_if_chokes q x P m m1 m' : x ∈ q -> m !! x = Some P -> unchoke_if x P m = Some m1 -> chokes q m1 m' -> chokes q m m'.
Proof.
  unfold unchoke_if. intros Hx E. destruct (flag P PF_I_CHOKE); [|by intros [= <-]]. intros (P' & EP & [= <-])%bind_Some Hc.
  eapply chokes_step; try done. by right.
Qed.

Lemma choke_if_chokes q x P m m1 m' : x ∈ q -> m !! x = Some P -> choke_if x P m = Some m1 -> chokes q m1 m' -> chokes q m m'.
Proof.
  unfold choke_if. intros Hx E. destruct (flag P PF_I_CHOKE); [by intros [= <-]|]. intros (P' & EP & [= <-])%bind_Some Hc.
  eapply chokes_step; try done. by left.
Qed.

Lemma regulars_chokes max q l : forall found u m r, (forall x, x ∈ l -> x.1 ∈ q) -> regulars max l found u m = Some r ->
  forall m', chokes q r.2 m' -> chokes q m m'.
Proof.
  induction l as [|[x i] l IH]; intros found u m r Hl E m' Hc; cbn [regulars] in E; [by injection E as <-|].
  destruct (found <? max - 1); [|by injection E as <-].
  apply bind_Some in E as (P & EP & E). apply bind_Some in E as (m1 & E1 & E). apply bind_Some in E as (u1 & _ & E).
  eapply unchoke_if_chokes; [apply (Hl (x, i)); constructor|exact EP|exact E1|]. eapply IH; [|exact E|done].
  intros y Hy. apply Hl. by constructor.
Qed.

Lemma optimists_chokes info max q ps : forall i found u m m', (forall x, x ∈ ps -> x ∈ q) -> optimists info max ps i found u m = Some m' -> chokes q m m'.
Proof.
  induction ps as [|x ps IH]; intros i found u m m' Hl E; cbn [optimists] in E; [injection E as <-; constructor|].
  assert (forall y, y ∈ ps -> y ∈ q) as Hl' by (intros y Hy; apply Hl; by constructor).
  apply bind_Some in E as (b & _ & E). destruct b; [by eapply IH|]. apply bind_Some in E as (P & EP & E).
  assert (x ∈ q) as Hx by (apply Hl; constructor).
  destruct (_ && _); apply bind_Some in E as (m1 & E1 & E).
  - eapply unchoke_if_chokes; [exact Hx|exact EP|exact E1|]. by eapply IH.
  - eapply choke_if_chokes; [exact Hx|exact EP|exact E1|]. by eapply IH.
Qed.

Lemma foldl_none (step : nat -> peer -> gmap nat peer -> option (gmap nat peer)) ps :
  foldl (fun o x => m ← o; P ← m !! x; step x P m) None ps = None.
Proof. by induction ps. Qed.

Lemma fold_chokes (step : nat -> peer -> gmap nat peer -> option (gmap nat peer)) q ps :
  (forall x P m m1 m', x ∈ q -> m !! x = Some P -> step x P m = Some m1 -> chokes q m1 m' -> chokes q m m') ->
  forall m m', (forall x, x ∈ ps -> x ∈ q) -> foldl (fun o x => m ← o; P ← m !! x; step x P m) (Some m) ps = Some m' -> chokes q m m'.
Proof.
  intros Hstep. induction ps as [|x ps IH]; intros m m' Hl E; cbn [foldl] in E; [injection E as <-; constructor|].
  cbn [mbind option_bind] in E. destruct (m !! x) as [P|] eqn:EP; cbn [mbind option_bind] in E; [|by rewrite foldl_none in E].
  destruct (step x P m) as [m1|] eqn:E1; [|by rewrite foldl_none in E].
  eapply Hstep; [apply Hl; constructor|exact EP|exact E1|]. apply IH; [intros y Hy; apply Hl; by constructor|done].
Qed.

Lemma collect_part info ps : forall i m l, collect info ps i m = Some l -> forall x, x ∈ l -> x.1 ∈ ps.
Proof.
  induction ps as [|y ps IH]; intros i m l E x Hx; cbn [collect] in E; [injection E as <-; by apply not_elem_of_nil in Hx|].
  apply bind_Some in E as (P & _ & E). apply bind_Some in E as (l' & E' & [= <-]). destruct (worthy info y P).
  - apply elem_of_cons in Hx as [->|Hx]; [constructor|]. constructor. by eapply IH.
  - constructor. by eapply IH.
Qed.

Lemma choke_do_chokes info max k q m m' : qsort_sorts qsort -> choke_do qsort info max k q m = Some m' -> chokes q m m'.
Proof.
  intros Hsort E. unfold choke_do in E. destruct (max <? 0); [|destruct (max =? 0)].
  - eapply fold_chokes; [|done|exact E]. apply unchoke_if_chokes.
  - eapply fold_chokes; [|done|exact E]. apply choke_if_chokes.
  - apply bind_Some in E as (l & El & E). apply bind_Some in E as (? & _ & E). apply bind_Some in E as ([[f u] m1] & E1 & E).
    eapply (regulars_chokes max q); [|exact E1|eapply optimists_chokes; [|exact E]; done].
    intros z Hx. destruct (Hsort (rate_cmp info) l) as [Hp _]; [intros y1 y2 y3; rewrite !rate_cmp_le; lia|intros y1 y2; rewrite !rate_cmp_le; lia|].
    rewrite <- Permutation_rev, Hp in Hx. by eapply collect_part.
Qed.

Lemma chokes_reach n q m m' : chokes q m m' -> (forall x, x ∈ q -> x ∈ peers n) -> reach (with_pst m n) -> reach (with_pst m' n).
Proof.
  induction 1 as [m|m x P P' m' Hx E Hc _ IH]; intros Hq Hr; [done|]. apply IH; [done|]. destruct Hc as [Hc|Hc].
  - apply (reach_event tp choose_method rand RAND_MAX (with_pst m n) (EWeChoke x)); [done|by apply Hq|].
    cbn [handle]. unfold on_peer. cbn [pst with_pst with_peers]. rewrite E. cbn [mbind option_bind]. by rewrite Hc.
  - apply (reach_event tp choose_method rand RAND_MAX (with_pst m n) (EWeUnchoke x)); [done|by apply Hq|].
    cbn [handle]. unfold on_peer. cbn [pst with_pst with_peers]. rewrite E. cbn [mbind option_bind]. by rewrite Hc.
Qed.

Hypothesis Htp : torrent_ok tp.
Hypothesis Hmax : 0 < RAND_MAX.
Hypothesis Hrand : forall k, 0 <= rand k <= RAND_MAX.
Hypothesis Hsort : qsort_sorts qsort.

Lemma shape_of u n : in_order tp n -> NoDup (m_peerq u) -> m_npeers u = length (m_peerq u) -> (forall q, q ∈ m_peerq u -> q ∈ peers n) ->
  queue_shape u (pst n).
Proof.
  intros Hn H1 H2 H3. split; [done..|]. intros q Hq. destruct (proj2 (nk_peers _ _ _ (io_sound _ _ Hn)) q (H3 q Hq)) as [P HP].
  destruct (nk_peer _ _ _ (io_sound _ _ Hn) q P HP) as [[seen Hok] _]. exists P. split; [done|apply (po_queue _ _ _ Hok)].
Qed.

Lemma with_pst_same n : with_pst (pst n) n = n.
Proof. by destruct n. Qed.

Lemma reach_ok n : reach n -> in_order tp n.
Proof. by apply reachable_in_order. Qed.

(** A round of choking is a run of the download. *)
Lemma choke_reach info u n : reach n -> NoDup (m_peerq u) -> m_npeers u = length (m_peerq u) -> (forall q, q ∈ m_peerq u -> q ∈ peers n) ->
  exists m, choke qsort info u (pst n) = Some m /\ reach (with_pst m n).
Proof.
  intros Hr H1 H2 H3. destruct (choke_ok qsort Hsort info u (pst n)) as (m & E & _); [by apply shape_of; [by apply reach_ok|done..]|].
  exists m. split; [exact E|]. eapply chokes_reach; [by eapply choke_do_chokes|done|]. by destruct n.
Qed.

(** An event that leaves the peers as they are. *)
Lemma event_ok w e : daemon_ok w -> legal tp (d_net w) e -> peers_after e (peers (d_net w)) = peers (d_net w) ->
  exists n, handle tp choose_method rand RAND_MAX e (d_net w) = Some n /\ daemon_ok (with_net n w) /\ peers n = peers (d_net w).
Proof.
  intros [H1 H2 H3 H4] Hl He. destruct (handle_ok tp choose_method rand RAND_MAX Htp (conj Hmax Hrand) _ e (reach_ok _ H1) Hl) as (n & E & _ & Ep).
  rewrite He in Ep. exists n. split; [done|]. split; [|done]. split; cbn; rewrite ?Ep; try done. by eapply reach_event.
Qed.

Lemma on_net_ok w e f : daemon_ok w -> legal tp (d_net w) e -> peers_after e (peers (d_net w)) = peers (d_net w) -> p ∈ peers (d_net w) ->
  handle tp choose_method rand RAND_MAX e = f ->
  exists w', (w' ← on_net f w; Some (false, w')) = Some (false, w') /\ daemon_ok w' /\ p ∈ peers (d_net w').
Proof.
  intros Hw Hl He Hp <-. destruct (event_ok w e Hw Hl He) as (n & E & Hn & Ep). exists (with_net n w).
  unfold on_net. rewrite E. cbn. rewrite Ep. by split_and!.
Qed.

(** A peer that says what it wants, and the choking that follows. *)
Lemma d_interest_ok want w : daemon_ok w -> p ∈ peers (d_net w) ->
  exists w', d_interest want w = Some w' /\ daemon_ok w' /\ p ∈ peers (d_net w').
Proof.
  intros Hw Hp. destruct (event_ok w (EWants p want) Hw Hp eq_refl) as (n & E & [G1 G2 G3 G4] & Ep). cbn [d_net d_uploads with_net] in *.
  destruct (proj2 (nk_peers _ _ _ (io_sound _ _ (reach_ok _ (dk_net _ Hw)))) p Hp) as [P HP].
  cbn [handle] in E. unfold on_peer in E. rewrite HP in E. cbn [mbind option_bind] in E. injection E as En.
  set (P' := if want then set_flag PF_P_WANT P else clear_flag PF_P_WANT P) in *.
  assert (exists m, (if want then peer_on_interest qsort (upload_info (d_net w)) p (d_uploads w) (pst (d_net w))
       else peer_on_uninterest qsort (upload_info (d_net w)) p (d_uploads w) (pst (d_net w))) = Some m /\ reach (with_pst m (d_net w))) as (m & E & Hm).
  { assert (exists m, (if negb (flag P' PF_I_CHOKE) then choke qsort (upload_info (d_net w)) (d_uploads w) (<[p:=P']> (pst (d_net w)))
       else Some (<[p:=P']> (pst (d_net w)))) = Some m /\ reach (with_pst m (d_net w))) as (m & E & Hm).
    { destruct (negb _); [|eexists; split; [reflexivity|by rewrite En]].
      destruct (choke_reach (upload_info (d_net w)) (d_uploads w) n G1 G2 G3 (fun q => proj1 (G4 q))) as (m & E & Hm). exists m. rewrite <- En in E, Hm. by split. }
    unfold peer_on_interest, peer_on_uninterest, ul_on_interest, ul_on_uninterest. rewrite HP. cbn [mbind option_bind].
    destruct want; destruct (interested P); cbn [negb];
      first [exists (pst (d_net w)); split; [done|rewrite with_pst_same; apply Hw]|exists m; split; [rewrite lookup_insert_eq; exact E|done]]. }
  unfold d_interest. rewrite E. cbn [mbind option_bind]. eexists. split; [reflexivity|]. split; [|done].
  destruct Hw as [H1 H2 H3 H4]. by split.
Qed.

(** A polite message is taken. *)
Lemma deliver_ok w m : daemon_ok w -> p ∈ peers (d_net w) -> well_formed np m -> polite w m ->
  exists w', deliver m w = Some (false, w') /\ daemon_ok w' /\ p ∈ peers (d_net w').
Proof.
  intros Hw Hp Hm Hpol. destruct m as [| | | | |i|field|i b l|i b data|i b l]; cbn [deliver op_keepalive op_choke op_unchoke op_interest
    op_uninterest op_have op_bitfield op_request op_cancel op_piece daemon_ops well_formed polite] in *.
  - by exists w.
  - by apply (on_net_ok w (EChoke p)).
  - by apply (on_net_ok w (EUnchoke p)).
  - destruct (d_interest_ok true w Hw Hp) as (w' & -> & ?). by exists w'.
  - destruct (d_interest_ok false w Hw Hp) as (w' & -> & ?). by exists w'.
  - apply (on_net_ok w (EHave p (Z.to_nat i))); try done. split; [done|]. unfold word in Hm. lia.
  - rewrite Hpol. apply (on_net_ok w (EBitfield p field)); try done. split; [done|]. split; [apply Hm|]. intros P HP.
    unfold op_got, daemon_ops, the_peer in Hpol. by rewrite HP in Hpol.
  - destruct (op_serves w) eqn:Es; [|by exists w]. destruct (Hpol eq_refl) as [-> Hq]. cbn [mbind option_bind].
    apply (on_net_ok w (ERequest p i b l)); try done. split; [done|]. split; [unfold word in Hm; lia|]. exact Hq.
  - unfold d_piece. destruct (test (d_net w) i b data) as [ok sha]. by apply (on_net_ok w (EPiece p (Z.to_nat i) b (Z.of_nat (length data)) ok sha)).
  - by apply (on_net_ok w (ECancel p i b l)).
Qed.

Lemma conversation_delivered ms : forall w, daemon_ok w -> p ∈ peers (d_net w) -> conversation w ms ->
  exists w', delivered np w ms w' /\ daemon_ok w' /\ p ∈ peers (d_net w').
Proof.
  induction ms as [|m ms IH]; intros w Hw Hp Hc; [exists w; split; [constructor|done]|]. destruct Hc as (H1 & H2 & H3).
  destruct (deliver_ok w m Hw Hp H1 H2) as (w1 & E & Hw1 & Hp1). destruct (IH w1 Hw1 Hp1 (H3 w1 E)) as (w2 & Hd & ?).
  exists w2. split; [|done]. by eapply delivered_cons.
Qed.

(** ** The handshake *)

Lemma new_peer_shake P : new_peer P -> exists P', peer_send NB_SHAKE P = Some P' /\ new_peer P'.
Proof.
  intros [H1 H2 H3 H4]. destruct (peer_send_plain NB_SHAKE P) as [E Hq]; [done..|]. eexists. split; [exact E|]. split; try done.
  intros b. destruct (H3 b) as [E1 E2]. cbn [outq with_outq]. rewrite told_app, E1. split; [done|]. apply news_app. split; [done|]. by rewrite E1.
Qed.

Lemma d_shake_ok w : daemon_ok w -> pst (d_net w) !! p = None -> new_peer (d_new w) -> Z.of_nat (length (peers (d_net w))) + 1 < 2 ^ 32 ->
  exists w', d_shake w = Some w' /\ daemon_ok w' /\ p ∈ peers (d_net w').
Proof.
  intros [H1 H2 H3 H4] Hp HP Hfew.
  destruct (handle_ok tp choose_method rand RAND_MAX Htp (conj Hmax Hrand) _ (EShake p (d_new w)) (reach_ok _ H1)) as (n & E & Hn & Ep); [done|].
  assert (reach n) as Hr by by apply (reach_event tp choose_method rand RAND_MAX (d_net w) (EShake p (d_new w))).
  cbn [handle peers_after] in E, Ep. unfold d_shake. rewrite E. cbn [mbind option_bind].
  assert (p ∉ m_peerq (d_uploads w)) as Hnot.
  { intros Hin. destruct (proj2 (nk_peers _ _ _ (io_sound _ _ (reach_ok _ H1))) p (proj1 (H4 p) Hin)) as [? ?]. congruence. }
  assert (queue_shape (d_uploads w) (pst n)) as Hs.
  { apply shape_of; try done. intros q Hq. rewrite Ep. constructor. by apply H4. }
  destruct (proj2 (nk_peers _ _ _ (io_sound _ _ Hn)) p) as [P EP]; [rewrite Ep; constructor|].
  destruct (nk_peer _ _ _ (io_sound _ _ Hn) p P EP) as [[seen Hok] _].
  destruct (new_place RAND_MAX Hmax (d_uploads w) (pst n) p P (rand (calls n)) Hs Hnot (po_queue _ _ _ Hok) (Hrand _)) as (q & Eq & Hq & _).
    unfold ul_on_new_peer. cbn zeta in Eq |- *. rewrite Eq. cbn [mbind option_bind].
  destruct (choke_reach (upload_info n) (with_peerq q (S (m_npeers (d_uploads w))) (d_uploads w)) n) as (m & -> & Hm); cbn [m_peerq m_npeers with_peerq].
  - done.
  - rewrite Hq. by constructor.
  - by rewrite Hq, H3.
  - intros x. rewrite Hq, Ep, !elem_of_cons. intros [->|Hx]; [by left|right]. by apply H4.
  - cbn [mbind option_bind]. eexists. split; [reflexivity|]. split; [split; cbn|cbn; rewrite Ep; constructor].
    + by apply (reach_event tp choose_method rand RAND_MAX (with_pst m n) ERand).
    + rewrite Hq. by constructor.
    + by rewrite Hq, H3.
    + intros x. by rewrite Hq, Ep, !elem_of_cons, H4.
Qed.

(** C1: From the socket to the tables, for one peer among the others: a handshake and then
    any messages that keep to the protocol, cut into calls of [recv] in any way, are read,
    dispatched and handled to the end.  The peer is alive and attached, no buffer, array
    or assertion of [net.c], [peer.c], [download.c], [download_subr.c], [content.c] and
    [upload.c] is violated on the way, and the daemon is in a state that the events of
    the download lead to, with the peer in the queue of uploads once. *)
Theorem daemon_serves w id ms chunks :
  daemon_ok w -> pst (d_net w) !! p = None -> new_peer (d_new w) -> Z.of_nat (length (peers (d_net w))) + 1 < 2 ^ 32 ->
  length hash = 20%nat -> length id = 20%nat -> has_peer (d_net w) id = false -> id <> my_id ->
  (forall w1, greets hash id w w1 -> conversation w1 ms) ->
  concat chunks = nb_create_shake hash id ++ concat (map (encode np) ms) -> Forall received chunks ->
  exists s w', net_reads peer_input w chunks = Some (Alive _ s w') /\ ready s (all_bytes ms) /\
    daemon_ok w' /\ p ∈ peers (d_net w') /\ p ∈ m_peerq (d_uploads w').
Proof.
  intros Hw HP Hnew Hfew Hh Hid Hfind Hme Hms Ec Hc.
  assert (exists w1, greets hash id w w1 /\ daemon_ok w1 /\ p ∈ peers (d_net w1)) as (w1 & Hg & Hw1 & Hp).
  { destruct incoming eqn:Ei.
    - destruct (new_peer_shake _ Hnew) as (P & EP & HP').
      destruct (d_shake_ok (Daemon (d_net w) (d_uploads w) P)) as (w1 & E & ? & ?); [by destruct Hw|done..|].
      exists w1. split; [|done]. apply (greets_in hash id w w1 () (Daemon (d_net w) (d_uploads w) P)); try done; cbn.
      + by rewrite bool_decide_true.
      + by rewrite EP.
    - destruct (d_shake_ok w Hw HP Hnew Hfew) as (w1 & E & ? & ?). exists w1. split; [|done]. by apply greets_out. }
  destruct (conversation_delivered ms w1 Hw1 Hp (Hms w1 Hg)) as (w2 & Hd & Hw2 & Hp2).
  destruct (wire_roundtrip np hash id w w1 w2 ms chunks Hh Hid Hg Hd Ec Hc) as (s & E & Hs). exists s, w2. split_and!; try done. by apply (dk_queue _ Hw2).
Qed.
End Daemon.

(** ** A sample: a peer that brings a torrent of two pieces *)

Definition sample_test (n : net) (index begin : Z) (data : list Z) : bool * list Z :=
  (true, replicate (torrent_piece_blocks sample_torrent (Z.to_nat index)) 0).
#[local] Instance sample_daemon : PeerOps daemon () :=
  daemon_ops sample_torrent 0 sample_rand 32767 sort_pairs (fun _ => (0, 0)) sample_test (fun _ _ => false) true
    (replicate 20 1) (replicate 20 3) 7.
Local Notation talk := (conversation sample_torrent 0 sample_rand 32767 sort_pairs (fun _ => (0, 0)) sample_test (fun _ _ => false) true
    (replicate 20 1) (replicate 20 3) 7).

Definition sample_start : daemon := Daemon (net_create sample_torrent 0 [0] [[0; 0]; [0]]) (Uploads [] 0 4 0) peer_create.
Definition sample_talk : list msg :=
  [MBitfield [192]; MUnchoke; MInterest; MPiece 1 0 [1]; MPiece 0 0 (replicate 16384 2); MCancel 1 0 16384; MUninterest; MKeepalive; MChoke].
Definition daemon_after (m : msg) (w : daemon) : daemon := default w (snd <$> deliver m w).

Lemma talk_cons m ms w : well_formed 2 m -> polite sample_torrent 0 sample_rand 32767 sort_pairs (fun _ => (0, 0)) sample_test (fun _ _ => false) true
    (replicate 20 1) (replicate 20 3) 7 w m -> talk (daemon_after m w) ms -> talk w (m :: ms).
Proof. intros H1 H2 H3. split; [done|]. split; [done|]. intros w' E. unfold daemon_after in H3. unfold sample_daemon in H3. by rewrite E in H3. Qed.

Definition sample_shaken : daemon := default sample_start (d_shake sample_torrent sample_rand 32767 sort_pairs (fun _ => (0, 0)) 7
  (Daemon (d_net sample_start) (d_uploads sample_start) (default peer_create (peer_send NB_SHAKE peer_create)))).

Lemma sample_greets w : greets (replicate 20 1) (replicate 20 2) sample_start w -> w = sample_shaken.
Proof.
  intros [t w1 _ _ _ E1 _ _ E2|Hin]; [|done]. cbn [op_adopt sample_daemon daemon_ops d_new sample_start] in E1.
  destruct (peer_send NB_SHAKE peer_create) as [P|] eqn:EP; [|done]. injection E1 as <-. unfold sample_shaken. rewrite EP.
  exact (eq_sym (f_equal (default sample_start) E2)).
Qed.

Ltac fits_format := cbn [well_formed]; unfold word; split_and?; first [done|by vm_compute|lia].

Lemma sample_conversation : talk sample_shaken sample_talk.
Proof.
  unfold sample_talk.
  apply talk_cons; [fits_format|by vm_compute|].
  apply talk_cons; [fits_format|done|].
  apply talk_cons; [fits_format|done|].
  apply talk_cons; [fits_format| |].
  { cbn [polite sample_test legal]. split; [|split]; [by apply (bool_decide_unpack _); vm_compute|by vm_compute|exact (fun E _ _ _ => False_ind _ (Bool.diff_true_false E))]. }
  apply talk_cons; [fits_format| |].
  { cbn [polite sample_test legal]. split; [|split]; [by apply (bool_decide_unpack _); vm_compute|by vm_compute|exact (fun E _ _ _ => False_ind _ (Bool.diff_true_false E))]. }
  do 4 (apply talk_cons; [fits_format|done|]). done.
Qed.

Lemma sample_start_ok : daemon_ok sample_torrent 0 sample_rand 32767 sample_start.
Proof.
  split; [apply reach_start, sample_content_ok|apply NoDup_nil_2|done|]. by intros q.
Qed.

Definition sample_talk_bytes : list Z := nb_create_shake (replicate 20 1) (replicate 20 2) ++ concat (map (encode 2) sample_talk).

Lemma daemon_serves_witness : exists s w', net_reads peer_input sample_start [take 75 sample_talk_bytes; drop 75 sample_talk_bytes] = Some (Alive _ s w') /\
  7%nat ∈ peers (d_net w') /\ 7%nat ∈ m_peerq (d_uploads w').
Proof.
  destruct (daemon_serves sample_torrent 0 sample_rand 32767 sort_pairs (fun _ => (0, 0)) sample_test (fun _ _ => false) true
    (replicate 20 1) (replicate 20 3) 7 sample_torrent_ok (proj1 sample_rand_ok) (proj2 sample_rand_ok) sort_pairs_sorts
    sample_start (replicate 20 2) sample_talk [take 75 sample_talk_bytes; drop 75 sample_talk_bytes])
    as (s & w' & E & _ & _ & Hp & Hq).
  - exact sample_start_ok.
  - done.
  - exact peer_create_new.
  - by vm_compute.
  - done.
  - done.
  - done.
  - done.
  - intros w1 G. rewrite (sample_greets w1 G). exact sample_conversation.
  - cbn [concat]. rewrite app_nil_r. apply take_drop.
  - apply (bool_decide_unpack _). by vm_compute.
  - exists s, w'. split; [exact E|]. by split.
Defined.

(** What the conversation comes to: the block that was asked for is in its place, the
    other one was not taken, and nothing is owed after the choke. *)
Example sample_outcome : let w := foldl (fun w m => daemon_after m w) sample_shaken sample_talk in
  block_field (d_net w) = [[128; 0]; [0]] /\ (nreqs_out <$> pst (d_net w) !! 7%nat) = Some 0 /\ peers (d_net w) = [7%nat].
Proof. by vm_compute. Qed.
