(* ===== verification/PeerList.v ===== *)
(** The lists of peers that supernode and edges keep: [upunch/punch_common.c].

    A linked list is the list of its entries; a position stands for a pointer into it.
    [time] is an argument. *)
From S2P Require Import Prelude P2pWire.
Local Open Scope Z_scope.

Definition PURGE_REGISTRATION_FREQUENCY : Z := 60.
Definition REGISTRATION_TIMEOUT : Z := 60 * 5.

Record peer_info := PeerInfo { community_name : list Z; sock : p2p_sock; last_seen : Z }.

(** The test of [find_peer_by_addr]: port and IPv4 address. *)
Definition same_addr (a b : p2p_sock) : bool :=
  (port a =? port b) && bool_decide (take IPV4_SIZE (addr a) = take IPV4_SIZE (addr b)).

Fixpoint find_peer_by_addr (l : list peer_info) (a : p2p_sock) : option nat :=
  match l with
  | [] => None
  | x :: l => if same_addr a (sock x) then Some O else S <$> find_peer_by_addr l a
  end.

Fixpoint peer_list_size (l : list peer_info) : nat :=
  match l with [] => O | _ :: l => S (peer_list_size l) end.

Definition peer_list_add (time : Z) (new : peer_info) (l : list peer_info) : list peer_info :=
  PeerInfo (community_name new) (sock new) time :: l.

(** The list up to [prev], the list from [scan] on, and [retval]. *)
Fixpoint purge_loop (purge_before : Z) (prev scan : list peer_info) (retval : nat) : list peer_info * nat :=
  match scan with
  | [] => (prev, retval)
  | x :: next =>
      if last_seen x <? purge_before then purge_loop purge_before prev next (S retval)
      else purge_loop purge_before (prev ++ [x]) next retval
  end.
Definition purge_peer_list (purge_before : Z) (l : list peer_info) : list peer_info * nat := purge_loop purge_before [] l 0.

(** [last_purge] is the static of the function, one for all lists. *)
Definition purge_expired_registrations (last_purge time : Z) (l : list peer_info) : Z * list peer_info * nat :=
  if time - last_purge <? PURGE_REGISTRATION_FREQUENCY then (last_purge, l, O)
  else let '(l, num_reg) := purge_peer_list (time - REGISTRATION_TIMEOUT) l in (time, l, num_reg).

Fixpoint clear_peer_list (l : list peer_info) : list peer_info * nat :=
  match l with
  | [] => ([], O)
  | _ :: next => let '(l, retval) := clear_peer_list next in (l, S retval)
  end.

(** Zero for equal sockets, as in the code. *)
Definition sock_equal (a b : p2p_sock) : Z :=
  if negb (port a =? port b) then 1
  else if negb (family a =? family b) then 1
  else
    let size := if family a =? AF_INET then IPV4_SIZE else IPV6_SIZE in
    if bool_decide (take size (addr a) = take size (addr b)) then 0 else 1.

(** ** Finding *)

(** What the search looks at. *)
Definition at_addr (s : p2p_sock) : Z * list Z := (port s, take IPV4_SIZE (addr s)).

Lemma same_addr_iff a b : same_addr a b = true <-> at_addr a = at_addr b.
Proof.
  unfold same_addr, at_addr. rewrite andb_true_iff, Z.eqb_eq, bool_decide_eq_true. split; [by intros [-> ->]|by intros [= -> ->]].
Qed.

Lemma same_addr_refl a : same_addr a a = true.
Proof. by apply same_addr_iff. Qed.

Lemma find_peer_congr l a b : at_addr a = at_addr b -> find_peer_by_addr l a = find_peer_by_addr l b.
Proof.
  intros E. induction l as [|x l IH]; [done|]. cbn. rewrite IH. assert (same_addr a (sock x) = same_addr b (sock x)) as ->; [|done].
  apply eq_true_iff_eq. by rewrite !same_addr_iff, E.
Qed.

Lemma find_peer_some l a i : find_peer_by_addr l a = Some i ->
  exists x, l !! i = Some x /\ at_addr (sock x) = at_addr a /\ forall j y, (j < i)%nat -> l !! j = Some y -> at_addr (sock y) <> at_addr a.
Proof.
  revert i. induction l as [|x l IH]; intros i E; [done|]. cbn in E. destruct (same_addr a (sock x)) eqn:Es.
  - injection E as <-. exists x. split; [done|]. split; [symmetry; by apply same_addr_iff|]. lia.
  - apply fmap_Some in E as (k & E & ->). destruct (IH k E) as (y & H1 & H2 & H3). exists y. split; [done|]. split; [done|].
    intros [|j] z Hj Ez; [|eapply H3; [|exact Ez]; lia]. cbn in Ez. injection Ez as <-. intros H. apply not_true_iff_false in Es. apply Es.
    by apply same_addr_iff.
Qed.

Lemma find_peer_none l a : find_peer_by_addr l a = None <-> forall x, x ∈ l -> at_addr (sock x) <> at_addr a.
Proof.
  induction l as [|x l IH]; cbn; [split; [intros _ x Hx; by apply not_elem_of_nil in Hx|done]|].
  destruct (same_addr a (sock x)) eqn:Es.
  - split; [done|]. intros H. exfalso. apply (H x); [constructor|]. symmetry. by apply same_addr_iff.
  - rewrite fmap_None, IH. split; intros H.
    + intros y [->|Hy]%elem_of_cons; [|by apply H]. intros Ha. apply not_true_iff_false in Es. apply Es. by apply same_addr_iff.
    + intros y Hy. apply H. by constructor.
Qed.

(** ** Purging *)

Lemma purge_loop_filter purge_before scan : forall prev retval,
  purge_loop purge_before prev scan retval =
    (prev ++ filter (fun x => purge_before <= last_seen x) scan, (retval + length (filter (fun x => (last_seen x < purge_before)%Z) scan))%nat).
Proof.
  induction scan as [|x scan IH]; intros prev retval; cbn [purge_loop]; [by rewrite filter_nil, app_nil_r, Nat.add_0_r|].
  rewrite !filter_cons. destruct (Z.ltb_spec (last_seen x) purge_before).
  - rewrite decide_False, decide_True by lia. rewrite IH. cbn. f_equal. lia.
  - rewrite decide_True, decide_False by lia. rewrite IH, <- app_assoc. done.
Qed.

Lemma purge_peer_list_filter purge_before l : purge_peer_list purge_before l =
  (filter (fun x => purge_before <= last_seen x) l, length (filter (fun x => (last_seen x < purge_before)%Z) l)).
Proof. unfold purge_peer_list. by rewrite purge_loop_filter. Qed.

Lemma clear_peer_list_all l : clear_peer_list l = ([], length l).
Proof. induction l as [|x l IH]; cbn; [done|]. by rewrite IH. Qed.

Lemma peer_list_size_length l : peer_list_size l = length l.
Proof. induction l; cbn; congruence. Qed.

(** Two lists that share the clock of the purge: while the second call sees the same
    second, it does nothing. *)
Lemma second_purge_idle last_purge time l1 l2 : let '(last_purge', _, _) := purge_expired_registrations last_purge time l1 in
  purge_expired_registrations last_purge' time l2 = (last_purge', l2, O).
Proof.
  unfold purge_expired_registrations. destruct (time - last_purge <? PURGE_REGISTRATION_FREQUENCY) eqn:E; [by rewrite E|].
  destruct (purge_peer_list _ _) as [l' k]. by rewrite (proj2 (Z.ltb_lt _ _)) by (unfold PURGE_REGISTRATION_FREQUENCY; lia).
Qed.
