(* ===== verification/Supernode.v ===== *)
(** The supernode of the hole-punching protocol, [upunch/sn.c]: it registers the edges
    that come to it, tells them their address, and forwards REGISTER messages between
    them.

    A handler returns the datagrams it sends along with the state.  The clock and the
    result of [sendto] are arguments, and so are the values of uninitialised locals. *)
From S2P Require Import Prelude P2pWire PeerList.
Local Open Scope Z_scope.

Definition P2P_SN_PKTBUF_SIZE : nat := 2048.
Definition P2P_DEFAULT_TTL : Z := 2.
Definition P2P_FLAGS_FROM_SUPERNODE : Z := 0x20.
Definition MSG_TYPE_REGISTER : Z := 1.
Definition MSG_TYPE_PACKET : Z := 3.
Definition MSG_TYPE_REGISTER_ACK : Z := 4.
Definition MSG_TYPE_REGISTER_SUPER : Z := 5.
Definition MSG_TYPE_REGISTER_SUPER_ACK : Z := 6.
Definition MSG_TYPE_HEARTBEAT : Z := 8.

(** A [sockaddr_in]: the port in network order, as the two bytes read on a machine with
    the low byte first. *)
Record sockaddr_in := SockaddrIn { sin_port : Z; sin_addr : list Z }.
Definition ntohs (x : Z) : Z := Z.lor (Z.shiftl (Z.land x 0xff) 8) (Z.shiftr x 8).

(** What the two ends of a datagram are told by: host-order port and IPv4 address. *)
Abbreviation endpoint := (Z * list Z)%type.
Record datagram := Datagram { d_to : endpoint; d_bytes : list Z }.

Record sn_stats := SnStats {
  errors : Z; reg_super : Z; fwd : Z; last_fwd : Z; last_reg_super : Z
}.
(** [sn_purge] is the static of [purge_expired_registrations]; of the statistics those
    are left out that never change. *)
Record p2p_sn := Sn { start_time : Z; stats : sn_stats; edges : list peer_info; sn_purge : Z }.

Definition init_sn : p2p_sn := Sn 0 (SnStats 0 0 0 0 0) [] 0.
Definition with_edges (l : list peer_info) (s : p2p_sn) : p2p_sn := Sn (start_time s) (stats s) l (sn_purge s).
Definition with_stats (f : sn_stats -> sn_stats) (s : p2p_sn) : p2p_sn := Sn (start_time s) (f (stats s)) (edges s) (sn_purge s).
Definition note_error (st : sn_stats) : sn_stats := SnStats (errors st + 1) (reg_super st) (fwd st) (last_fwd st) (last_reg_super st).
Definition note_fwd (st : sn_stats) : sn_stats := SnStats (errors st) (reg_super st) (fwd st + 1) (last_fwd st) (last_reg_super st).
Definition note_last_fwd (now : Z) (st : sn_stats) : sn_stats := SnStats (errors st) (reg_super st) (fwd st) now (last_reg_super st).
Definition note_reg (now : Z) (st : sn_stats) : sn_stats := SnStats (errors st) (reg_super st + 1) (fwd st) (last_fwd st) now.

Definition reg_lifetime : Z := 120.

Definition update_edge (community : list Z) (sender_sock : p2p_sock) (now : Z) (s : p2p_sn) : option p2p_sn :=
  match find_peer_by_addr (edges s) sender_sock with
  | None => Some (with_edges (PeerInfo community sender_sock now :: edges s) s)
  | Some i =>
      scan ← edges s !! i;
      let scan :=
        if negb (bool_decide (community = community_name scan)) || negb (sock_equal sender_sock (sock scan) =? 0)
        then PeerInfo community sender_sock (last_seen scan) else scan in
      Some (with_edges (<[i := PeerInfo (community_name scan) (sock scan) now]> (edges s)) s)
  end.

Section Supernode.
(** What [sendto] returns; the bytes of a [p2p_sock] of which only [addr.v4] was
    written; the locals [cmn] of [process_udp] and [f] of [decode_sock]. *)
Context (sendto : endpoint -> list Z -> Z) (junk : list Z) (cmn0 : p2p_common) (f0 : Z).

Definition sendto_sock (sk : p2p_sock) (pktbuf : list Z) : Z * list datagram :=
  if AF_INET =? family sk then (sendto (at_addr sk) pktbuf, [Datagram (at_addr sk) pktbuf]) else (-1, []).

Definition try_forward (dst : p2p_sock) (pktbuf : list Z) (s : p2p_sn) : option (p2p_sn * list datagram) :=
  match find_peer_by_addr (edges s) dst with
  | None => Some (s, [])
  | Some i =>
      scan ← edges s !! i;
      let '(data_sent_len, out) := sendto_sock (sock scan) pktbuf in
      Some (with_stats (if data_sent_len =? Z.of_nat (length pktbuf) then note_fwd else note_error) s, out)
  end.

(** The message as it lies in a buffer. *)
Definition sent_bytes (w : wbuf) : list Z := take w.2 w.1.

Definition v4_of (sender_sock : sockaddr_in) (rest : list Z) : p2p_sock :=
  Sock AF_INET (ntohs (sin_port sender_sock)) (take IPV4_SIZE (sin_addr sender_sock) ++ rest).

(** A [sockaddr_in] read as a [p2p_sock]: the port is where it is, but not in host
    order. *)
Definition sockaddr_as_p2p_sock (sender_sock : sockaddr_in) : p2p_sock :=
  Sock AF_INET (sin_port sender_sock) (take IPV4_SIZE (sin_addr sender_sock) ++ junk).

Definition process_heartbeat (sender_sock : sockaddr_in) (now : Z) (s : p2p_sn) : option p2p_sn :=
  match find_peer_by_addr (edges s) (sockaddr_as_p2p_sock sender_sock) with
  | None => Some s
  | Some i => scan ← edges s !! i; Some (with_edges (<[i := PeerInfo (community_name scan) (sock scan) now]> (edges s)) s)
  end.

Definition process_register (cmn : p2p_common) (sender_sock : sockaddr_in) (udp_buf : list Z) (udp_size : nat) (c : cursor) (now : Z)
    (s : p2p_sn) : option (p2p_sn * list datagram) :=
  let s := with_stats (note_last_fwd now) s in
  '(_, reg, (_, idx)) ← decode_REGISTER f0 (REGISTER cookie0 sock0 sock0) udp_buf c;
  let cmn2 := Common (ttl cmn) (pc cmn) P2P_FLAGS_FROM_SUPERNODE (community cmn) in
  let reg := REGISTER (r_cookie reg) (v4_of sender_sock (drop IPV4_SIZE (addr (orig_sender reg)))) (dest_sock reg) in
  '(_, encbuf) ← encode_REGISTER cmn2 reg (replicate P2P_SN_PKTBUF_SIZE 0, O);
  '(_, encbuf) ← encode_buf (drop idx udp_buf) (udp_size - idx) encbuf;
  try_forward (dest_sock reg) (sent_bytes encbuf) s.

Definition process_register_super (cmn : p2p_common) (sender_sock : sockaddr_in) (udp_buf : list Z) (c : cursor) (now : Z)
    (s : p2p_sn) : option (p2p_sn * list datagram) :=
  let s := with_stats (note_reg now) s in
  '(_, reg, _) ← decode_REGISTER_SUPER (REGISTER_SUPER cookie0 auth0) udp_buf c;
  let cmn2 := Common P2P_DEFAULT_TTL MSG_TYPE_REGISTER_SUPER_ACK (Z.lor P2P_FLAGS_SOCKET P2P_FLAGS_FROM_SUPERNODE) (community cmn) in
  let ack := REGISTER_SUPER_ACK (s_cookie reg) reg_lifetime (v4_of sender_sock junk) 0 sock0 in
  s ← update_edge (community cmn) (sa_sock ack) now s;
  '(_, ackbuf) ← encode_REGISTER_SUPER_ACK cmn2 ack (replicate P2P_SN_PKTBUF_SIZE 0, O);
  Some (s, [Datagram (ntohs (sin_port sender_sock), take IPV4_SIZE (sin_addr sender_sock)) (sent_bytes ackbuf)]).

(** [udp_size] is at most the size of [udp_buf]. *)
Definition process_udp (sender_sock : sockaddr_in) (udp_buf : list Z) (udp_size : nat) (now : Z) (s : p2p_sn) :
    option (Z * p2p_sn * list datagram) :=
  '(r, cmn, c) ← decode_common cmn0 udp_buf (udp_size, O);
  if r <? 0 then Some (-1, s, [])
  else if ttl cmn <? 1 then Some (0, s, [])
  else
    let msg_type := pc cmn in
    let cmn := Common (ttl cmn - 1) (pc cmn) (flags cmn) (community cmn) in
    if msg_type =? MSG_TYPE_PACKET then Some (0, s, [])
    else if msg_type =? MSG_TYPE_HEARTBEAT then s ← process_heartbeat sender_sock now s; Some (0, s, [])
    else if msg_type =? MSG_TYPE_REGISTER then
      '(s, out) ← process_register cmn sender_sock udp_buf udp_size c now s; Some (0, s, out)
    else if msg_type =? MSG_TYPE_REGISTER_ACK then Some (0, s, [])
    else if msg_type =? MSG_TYPE_REGISTER_SUPER then
      '(s, out) ← process_register_super cmn sender_sock udp_buf c now s; Some (0, s, out)
    else Some (0, s, []).

(** A turn of [run_loop]: a datagram on the main socket or none, then the purge, which an
    empty datagram leaves out. *)
Definition run_turn (recv : option (sockaddr_in * list Z * nat)) (now time : Z) (s : p2p_sn) : option (p2p_sn * list datagram) :=
  if bool_decide (snd <$> recv = Some O) then Some (s, [])
  else
    '(s, out) ← match recv with
                | Some (sender_sock, pktbuf, bread) => '(_, s, out) ← process_udp sender_sock pktbuf bread now s; Some (s, out)
                | None => Some (s, [])
                end;
    let '(last_purge, l, _) := purge_expired_registrations (sn_purge s) time (edges s) in
    Some (Sn (start_time s) (stats s) l last_purge, out).
End Supernode.

(** ** The table as a map *)

Definition addrs (l : list peer_info) : list endpoint := (fun x => at_addr (sock x)) <$> l.
Definition registry (l : list peer_info) : gmap endpoint (list Z * Z) :=
  list_to_map ((fun x => (at_addr (sock x), (community_name x, last_seen x))) <$> l).

Lemma registry_cons x l : registry (x :: l) = <[at_addr (sock x) := (community_name x, last_seen x)]> (registry l).
Proof. done. Qed.

Lemma elem_of_addrs a l : a ∈ addrs l <-> exists x, x ∈ l /\ at_addr (sock x) = a.
Proof.
  unfold addrs. rewrite list_elem_of_fmap. split; [intros (x & -> & Hx)|intros (x & Hx & <-)]; by exists x.
Qed.

Lemma addrs_cons x l : NoDup (addrs (x :: l)) <-> at_addr (sock x) ∉ addrs l /\ NoDup (addrs l).
Proof. apply NoDup_cons. Qed.

Lemma registry_none l a : a ∉ addrs l -> registry l !! a = None.
Proof.
  intros Ha. apply not_elem_of_list_to_map_1. intros H. apply Ha. apply elem_of_addrs. apply list_elem_of_fmap in H as (y & -> & Hy).
  apply list_elem_of_fmap in Hy as (x & -> & Hx). by exists x.
Qed.

Lemma registry_some l i x : NoDup (addrs l) -> l !! i = Some x -> registry l !! at_addr (sock x) = Some (community_name x, last_seen x).
Proof.
  revert i. induction l as [|y l IH]; intros i Hl E; [done|]. apply addrs_cons in Hl as [Hy Hl]. rewrite registry_cons. destruct i as [|i].
  - injection E as ->. by rewrite lookup_insert_eq.
  - change (l !! i = Some x) in E. rewrite lookup_insert_ne; [by eapply IH|]. intros Ha. apply Hy. rewrite Ha. apply elem_of_addrs.
    exists x. split; [by apply list_elem_of_lookup_2 in E|done].
Qed.

Lemma registry_update l i x y : NoDup (addrs l) -> l !! i = Some x -> at_addr (sock y) = at_addr (sock x) ->
  registry (<[i := y]> l) = <[at_addr (sock x) := (community_name y, last_seen y)]> (registry l) /\ addrs (<[i := y]> l) = addrs l.
Proof.
  intros Hl E Ea. split.
  - revert i E. induction l as [|z l IH]; intros i E; [done|]. apply addrs_cons in Hl as [Hz Hl]. destruct i as [|i].
    + injection E as ->. change (<[0%nat := y]> (x :: l)) with (y :: l). rewrite !registry_cons, Ea. by rewrite insert_insert_eq.
    + change (l !! i = Some x) in E. change (<[S i := y]> (z :: l)) with (z :: <[i := y]> l). rewrite !registry_cons, (IH Hl i) by done.
      apply insert_insert_ne. intros Ha. apply Hz. rewrite Ha. apply elem_of_addrs. exists x. split; [by apply list_elem_of_lookup_2 in E|done].
  - unfold addrs. rewrite list_fmap_insert. apply list_insert_id. rewrite list_lookup_fmap, E. cbn. by rewrite Ea.
Qed.

Lemma registry_purge t l : NoDup (addrs l) ->
  registry (filter (fun x => t <= last_seen x) l) = filter (fun kv => t <= kv.2.2) (registry l) /\ NoDup (addrs (filter (fun x => t <= last_seen x) l)).
Proof.
  induction l as [|x l IH]; intros Hl; [by rewrite filter_nil|]. apply addrs_cons in Hl as [Hx Hl]. destruct (IH Hl) as [E Hn].
  assert (at_addr (sock x) ∉ addrs (filter (fun x => t <= last_seen x) l)) as Hx'.
  { intros (y & Hy & Ey)%elem_of_addrs. apply list_elem_of_filter in Hy as [_ Hy]. apply Hx. apply elem_of_addrs. by exists y. }
  rewrite filter_cons. destruct (decide _) as [Ht|Ht].
  - rewrite !registry_cons, E. split; [|by apply addrs_cons]. symmetry. by apply map_filter_insert_True.
  - split; [|done]. rewrite registry_cons, E. symmetry. apply map_filter_insert_not'; [done|]. intros v Hv. by rewrite registry_none in Hv.
Qed.

Lemma find_registry l a : match find_peer_by_addr l a with
  | Some i => exists x, l !! i = Some x /\ at_addr (sock x) = at_addr a
  | None => at_addr a ∉ addrs l
  end.
Proof.
  destruct (find_peer_by_addr l a) as [i|] eqn:E.
  - destruct (find_peer_some _ _ _ E) as (x & H1 & H2 & _). by exists x.
  - intros (x & Hx & Ex)%elem_of_addrs. by apply (proj1 (find_peer_none l a) E x Hx).
Qed.

(** ** The operations on the table *)

Definition sockaddr_ok (a : sockaddr_in) : Prop := word_range (sin_port a) /\ length (sin_addr a) = IPV4_SIZE.
Definition ep_of (a : sockaddr_in) : endpoint := (ntohs (sin_port a), sin_addr a).

(** Each address is registered once, and it is one that can be sent to. *)
Record sn_ok (s : p2p_sn) : Prop := SnOk {
  so_addrs : NoDup (addrs (edges s));
  so_family : forall x, x ∈ edges s -> family (sock x) = AF_INET
}.

Lemma at_addr_v4 a rest : sockaddr_ok a -> at_addr (v4_of a rest) = ep_of a.
Proof.
  intros [_ Hl]. unfold at_addr, v4_of, ep_of. cbn [port addr]. f_equal. rewrite (take_ge (sin_addr a)) by lia.
  rewrite <- Hl. apply take_app_length.
Qed.

Lemma sn_ok_insert s i x y : sn_ok s -> edges s !! i = Some x -> at_addr (sock y) = at_addr (sock x) -> family (sock y) = AF_INET ->
  sn_ok (with_edges (<[i := y]> (edges s)) s) /\
  registry (<[i := y]> (edges s)) = <[at_addr (sock x) := (community_name y, last_seen y)]> (registry (edges s)).
Proof.
  intros [H1 H2] E Ea Ef. destruct (registry_update _ _ _ _ H1 E Ea) as [Er Eq]. split; [|done]. split; cbn [edges with_edges].
  - by rewrite Eq.
  - intros z Hz. apply list_elem_of_lookup in Hz as [j Hj]. apply list_lookup_insert_Some in Hj as [(_ & <- & _)|[_ Hj]]; [done|].
    apply H2. by apply list_elem_of_lookup_2 in Hj.
Qed.

Lemma update_edge_ok c a now s : sn_ok s -> family a = AF_INET ->
  exists l, update_edge c a now s = Some (with_edges l s) /\ sn_ok (with_edges l s) /\
    registry l = <[at_addr a := (c, now)]> (registry (edges s)).
Proof.
  intros Hs Ha. unfold update_edge. pose proof (find_registry (edges s) a) as Hf. destruct (find_peer_by_addr _ _) as [i|].
  - destruct Hf as (x & E & Ea). rewrite E. cbn [mbind option_bind]. set (scan := if _ : bool then _ else _).
    assert (community_name scan = c /\ at_addr (sock scan) = at_addr x.(sock) /\ family (sock scan) = AF_INET) as (E1 & E2 & E3).
    { unfold scan. destruct (bool_decide_reflect (c = community_name x)) as [->|]; cbn [negb orb]; [|by split_and!].
      destruct (sock_equal a (sock x) =? 0); cbn [negb]; [|by split_and!]. split_and!; try done. apply (so_family _ Hs).
      by apply list_elem_of_lookup_2 in E. }
    destruct (sn_ok_insert s i x (PeerInfo (community_name scan) (sock scan) now) Hs E E2 E3) as [H1 H2].
    eexists. split; [reflexivity|]. split; [exact H1|]. rewrite H2, Ea. cbn. by rewrite E1.
  - eexists. split; [reflexivity|]. destruct Hs as [H1 H2]. split; [|done]. split; cbn [edges with_edges].
    + by apply addrs_cons.
    + intros x [->|Hx]%elem_of_cons; [done|by apply H2].
Qed.

Lemma process_heartbeat_ok junk a now s : sn_ok s -> sockaddr_ok a ->
  exists l, process_heartbeat junk a now s = Some (with_edges l s) /\ sn_ok (with_edges l s) /\
    registry l = alter (fun v => (v.1, now)) (sin_port a, sin_addr a) (registry (edges s)).
Proof.
  intros Hs [_ Ha]. unfold process_heartbeat. set (k := sockaddr_as_p2p_sock junk a).
  assert (at_addr k = (sin_port a, sin_addr a)) as Ek.
  { unfold at_addr, k, sockaddr_as_p2p_sock. cbn [port addr]. f_equal. rewrite (take_ge (sin_addr a)) by lia. rewrite <- Ha. apply take_app_length. }
  rewrite <- Ek. pose proof (find_registry (edges s) k) as Hf. destruct (find_peer_by_addr _ _) as [i|].
  - destruct Hf as (x & E & Ea). rewrite E. cbn [mbind option_bind].
    destruct (sn_ok_insert s i x (PeerInfo (community_name x) (sock x) now) Hs E eq_refl) as [H1 H2].
    { apply (so_family _ Hs x). by apply list_elem_of_lookup_2 in E. }
    eexists. split; [reflexivity|]. split; [exact H1|]. rewrite H2. cbn [community_name last_seen]. rewrite <- Ea.
    apply map_eq. intros b. destruct (decide (b = at_addr (sock x))) as [->|Hne].
    + rewrite lookup_insert_eq, lookup_alter_eq. by rewrite (registry_some _ _ _ (so_addrs _ Hs) E).
    + by rewrite lookup_insert_ne, lookup_alter_ne.
  - exists (edges s). assert (with_edges (edges s) s = s) as -> by (by destruct s). split; [done|]. split; [done|]. apply map_eq. intros b. destruct (decide (b = at_addr k)) as [->|Hne].
    + by rewrite lookup_alter_eq, (registry_none _ _ Hf).
    + by rewrite lookup_alter_ne.
Qed.

Lemma run_purge_ok s time : sn_ok s -> let '(last_purge, l, _) := purge_expired_registrations (sn_purge s) time (edges s) in
  let s' := Sn (start_time s) (stats s) l last_purge in sn_ok s' /\
  registry l = (if time - sn_purge s <? PURGE_REGISTRATION_FREQUENCY then registry (edges s)
                else filter (fun kv => time - REGISTRATION_TIMEOUT <= kv.2.2) (registry (edges s))).
Proof.
  intros Hs. unfold purge_expired_registrations. destruct (_ <? _); [by destruct s|]. rewrite purge_peer_list_filter.
  destruct (registry_purge (time - REGISTRATION_TIMEOUT) _ (so_addrs _ Hs)) as [E Hn]. split; [|done]. split; [done|].
  intros x Hx. cbn in Hx. apply list_elem_of_filter in Hx as [_ Hx]. by apply (so_family _ Hs).
Qed.

(** ** Room for what is sent *)

(** [d] is defined inside its buffer; it takes [c] bytes of it, or leaves no more than a
    field can have. *)
Definition eats {A} (R : nat -> A -> Prop) (d : list Z -> cursor -> option (Z * A * cursor)) : Prop :=
  forall base rem idx, (idx + rem <= length base)%nat -> exists n v rem' idx' c, d base (rem, idx) = Some (n, v, (rem', idx')) /\
    (idx' + rem' = idx + rem)%nat /\ (rem' <= rem)%nat /\ (rem = rem' + c \/ rem' <= 15)%nat /\ R c v.

Lemma eats_ret {A} (R : nat -> A -> Prop) n v : R 0%nat v -> eats R (fun _ s => Some (n, v, s)).
Proof. intros H base rem idx _. exists n, v, rem, idx, 0%nat. split_and!; try done; lia. Qed.

Lemma eats_bind {A B} (R1 : nat -> A -> Prop) (R : nat -> B -> Prop) d (k : Z -> A -> list Z -> cursor -> option (Z * B * cursor)) :
  eats R1 d -> (forall n v c1, R1 c1 v -> eats (fun c w => R (c1 + c)%nat w) (k n v)) ->
  eats R (fun base s => '(n, v, s) ← d base s; k n v base s).
Proof.
  intros H1 H2 base rem idx Hb. destruct (H1 base rem idx Hb) as (n & v & r1 & i1 & c1 & -> & E1 & L1 & C1 & Hv). cbn [mbind option_bind].
  destruct (H2 n v c1 Hv base r1 i1 ltac:(lia)) as (n2 & v2 & r2 & i2 & c2 & -> & E2 & L2 & C2 & Hv2).
  exists n2, v2, r2, i2, (c1 + c2)%nat. split_and!; try done; lia.
Qed.

Lemma eats_uint8 out : eats (fun c _ => c = 1%nat) (decode_uint8 out).
Proof.
  intros base rem idx Hb. unfold decode_uint8. case_bool_decide; [exists 0, out, rem, idx, 1%nat; split_and!; try done; lia|].
  destruct (lookup_in base idx ltac:(lia)) as [b ->]. cbn [mbind option_bind]. eexists _, _, _, _, 1%nat. split; [reflexivity|]. split_and!; lia.
Qed.

Lemma eats_uint16 out : eats (fun c _ => c = 2%nat) (decode_uint16 out).
Proof.
  intros base rem idx Hb. unfold decode_uint16. case_bool_decide; [exists 0, out, rem, idx, 2%nat; split_and!; try done; lia|].
  destruct (lookup_in base idx ltac:(lia)) as [b ->]. cbn [mbind option_bind]. destruct (lookup_in base (1 + idx) ltac:(lia)) as [b' ->].
  cbn [mbind option_bind]. eexists _, _, _, _, 2%nat. split; [reflexivity|]. split_and!; lia.
Qed.

Lemma eats_buf k out : (k <= 16)%nat -> (k <= length out)%nat -> eats (fun c v => c = k /\ length v = length out) (decode_buf k out).
Proof.
  intros Hk Ho base rem idx Hb. unfold decode_buf. case_bool_decide; [exists 0, out, rem, idx, k; split_and!; try done; lia|].
  rewrite mread_ok by lia. cbn [mbind option_bind]. assert (length (take k (drop idx base)) = k) as Hl by (rewrite length_take, length_drop; lia).
  rewrite mwrite_ok by (rewrite Hl; lia). cbn [mbind option_bind]. eexists _, _, _, _, k. split; [reflexivity|]. split_and!; try lia.
  rewrite !length_app, length_drop, Hl. rewrite take_0. change (length (@nil Z)) with 0%nat. lia.
Qed.

Definition sock_size (c : nat) (s : p2p_sock) : Prop :=
  sock_sized s /\ (family s = AF_INET /\ c = 8%nat \/ family s = AF_INET6 /\ c = 20%nat).

Lemma eats_sock f0 out : sock_sized out -> eats sock_size (decode_sock f0 out).
Proof.
  intros Ho. unfold decode_sock. eapply eats_bind; [apply eats_uint16|]. cbv beta. intros _ f c ->. case_match.
  - eapply eats_bind; [apply eats_uint16|]. cbv beta. intros _ po c ->.
    eapply eats_bind; [apply eats_buf; [done|by rewrite Ho]|]. cbv beta. intros _ ad c [-> Hl]. apply eats_ret.
    split; [unfold sock_sized in *; cbn [addr]; congruence|by right].
  - eapply eats_bind; [apply eats_uint16|]. cbv beta. intros _ po c ->.
    eapply eats_bind; [apply (eats_buf IPV4_SIZE (replicate IPV6_SIZE 0)); unfold IPV4_SIZE; cbn; lia|]. cbv beta. intros _ ad c [-> Hl]. apply eats_ret.
    split; [unfold sock_sized; cbn [addr]; by rewrite Hl|by left].
Qed.

Definition register_size (c : nat) (r : p2p_REGISTER) : Prop :=
  length (r_cookie r) = P2P_COOKIE_SIZE /\ sock_sized (orig_sender r) /\ exists c2, sock_size c2 (dest_sock r) /\ (12 + c2 <= c)%nat.

Lemma eats_register f0 v : eats register_size (decode_REGISTER f0 v).
Proof.
  unfold decode_REGISTER. eapply eats_bind; [apply eats_buf; [unfold P2P_COOKIE_SIZE; lia|done]|]. cbv beta. intros n1 ck c [-> Hc].
  eapply eats_bind; [by apply eats_sock|]. cbv beta. intros n2 s1 c1 [H1 H1'].
  eapply eats_bind; [by apply eats_sock|]. cbv beta. intros n3 s2 c2 H2. apply eats_ret. split; [exact Hc|]. split; [exact H1|].
  exists c2. split; [exact H2|]. unfold P2P_COOKIE_SIZE. lia.
Qed.

Lemma decode_common_cases out base rem idx : common_sized out -> byte_range (ttl out) -> (idx + rem <= length base)%nat ->
  exists n cmn rem' idx', decode_common out base (rem, idx) = Some (n, cmn, (rem', idx')) /\ (idx' + rem' = idx + rem)%nat /\
    (n < 0 \/ common_sized cmn /\ (rem = rem' + 20 \/ rem' <= 15)%nat).
Proof.
  intros Ho Ht Hb. unfold decode_common.
  destruct (eats_uint8 0 base rem idx Hb) as (n1 & v1 & r1 & i1 & ? & -> & E1 & L1 & C1 & ->). cbn [mbind option_bind].
  case_match; [exists (-1), out, r1, i1; split_and!; [done|lia|by left]|].
  destruct (eats_uint8 (ttl out) base r1 i1 ltac:(lia)) as (n2 & v2 & r2 & i2 & ? & -> & E2 & L2 & C2 & ->). cbn [mbind option_bind].
  destruct (eats_uint16 (flags out) base r2 i2 ltac:(lia)) as (n3 & v3 & r3 & i3 & ? & -> & E3 & L3 & C3 & ->). cbn [mbind option_bind].
  destruct (eats_buf P2P_COMMUNITY_SIZE (community out) ltac:(unfold P2P_COMMUNITY_SIZE; lia) ltac:(by rewrite Ho) base r3 i3 ltac:(lia))
    as (n4 & v4 & r4 & i4 & ? & -> & E4 & L4 & C4 & -> & Hl). cbn [mbind option_bind].
  eexists _, _, _, _. split; [reflexivity|]. split; [lia|]. right. unfold common_sized in *. cbn [community]. split; [congruence|].
  unfold P2P_COMMUNITY_SIZE in *. lia.
Qed.

(** An encoder on an empty buffer of a packet. *)
Lemma packet_bytes e bs n : writes e bs n -> (length bs <= P2P_SN_PKTBUF_SIZE)%nat ->
  e (replicate P2P_SN_PKTBUF_SIZE 0, 0%nat) = Some (n, (patch (replicate P2P_SN_PKTBUF_SIZE 0) 0 bs, length bs)) /\
  sent_bytes (patch (replicate P2P_SN_PKTBUF_SIZE 0) 0 bs, length bs) = bs.
Proof.
  intros He Hl. split; [apply (He _ 0%nat); by rewrite length_replicate|]. unfold sent_bytes, patch. cbn [fst snd]. rewrite take_0. cbn [app].
  apply take_app_length.
Qed.

Lemma encode_register_writes c r : common_sized c -> length (r_cookie r) = P2P_COOKIE_SIZE -> sock_sized (orig_sender r) -> sock_sized (dest_sock r) ->
  exists n, writes (encode_REGISTER c r) (common_bytes c ++ REGISTER_bytes r) n.
Proof.
  intros H1 H2 H3 H4. unfold encode_REGISTER, REGISTER_bytes. eexists.
  eapply writes_bind; [by apply encode_common_writes|]. eapply writes_bind; [by apply encode_cookie_writes|].
  eapply writes_bind; [by apply encode_sock_writes|]. rewrite <- (app_nil_r (sock_bytes (dest_sock r))).
  eapply writes_bind; [by apply encode_sock_writes|]. apply writes_ret.
Qed.

Lemma encode_super_ack_writes c r : common_sized c -> length (sa_cookie r) = P2P_COOKIE_SIZE -> sock_sized (sa_sock r) -> num_sn r = 0 ->
  exists n, writes (encode_REGISTER_SUPER_ACK c r) (common_bytes c ++ REGISTER_SUPER_ACK_bytes r) n.
Proof.
  intros H1 H2 H3 H4. unfold encode_REGISTER_SUPER_ACK, REGISTER_SUPER_ACK_bytes. rewrite H4. cbn [Z.gtb Z.compare opt_bytes]. eexists.
  eapply writes_bind; [by apply encode_common_writes|]. eapply writes_bind; [by apply encode_cookie_writes|].
  eapply writes_bind; [apply encode_uint16_writes|]. eapply writes_bind; [by apply encode_sock_writes|].
  eapply writes_bind; [apply encode_uint8_writes|]. apply writes_ret.
Qed.

Lemma length_common c : common_sized c -> length (common_bytes c) = 20%nat.
Proof. intros H. unfold common_bytes. rewrite !length_app, length_take, H. done. Qed.
Lemma length_sock c s : sock_size c s -> length (sock_bytes s) = c.
Proof.
  intros [Hs [[Hf ->]|[Hf ->]]]; unfold sock_bytes, sock_sized in *; rewrite Hf.
  - change (AF_INET =? AF_INET) with true. cbv iota. rewrite !length_app, length_take, Hs. done.
  - change (AF_INET6 =? AF_INET) with false. cbv iota. change (AF_INET6 =? AF_INET6) with true. cbv iota. rewrite !length_app, length_take, Hs. done.
Qed.

(** ** The handlers *)

Section Handlers.
Context (sendto : endpoint -> list Z -> Z) (junk : list Z) (cmn0 : p2p_common) (f0 : Z).
Hypothesis Hjunk : length junk = 12%nat.

Lemma v4_sized a rest : sockaddr_ok a -> length rest = 12%nat -> sock_sized (v4_of a rest).
Proof. intros [_ Ha] Hr. unfold sock_sized, v4_of. cbn [addr]. rewrite length_app, length_take, Ha, Hr. done. Qed.

Lemma try_forward_ok dst bytes s : sn_ok s -> exists st,
  try_forward sendto dst bytes s = Some (with_stats st s,
    if bool_decide (at_addr dst ∈ addrs (edges s)) then [Datagram (at_addr dst) bytes] else []).
Proof.
  intros Hs. unfold try_forward. pose proof (find_registry (edges s) dst) as Hf. destruct (find_peer_by_addr _ _) as [i|].
  - destruct Hf as (x & E & Ea). pose proof (list_elem_of_lookup_2 _ _ _ E) as Hx. rewrite E. cbn [mbind option_bind]. unfold sendto_sock.
    rewrite (so_family _ Hs x Hx), Z.eqb_refl, Ea. eexists. rewrite bool_decide_true; [reflexivity|]. apply elem_of_addrs. by exists x.
  - exists id. rewrite bool_decide_false by done. by destruct s.
Qed.

(** A REGISTER as it is forwarded: with the address it came from, and what follows it. *)
Definition forwarded (cmn : p2p_common) (a : sockaddr_in) (reg : p2p_REGISTER) (rest : list Z) : list Z :=
  common_bytes (Common (ttl cmn) (pc cmn) P2P_FLAGS_FROM_SUPERNODE (community cmn)) ++
  REGISTER_bytes (REGISTER (r_cookie reg) (v4_of a (drop IPV4_SIZE (addr (orig_sender reg)))) (dest_sock reg)) ++ rest.

Lemma process_register_ok cmn a buf size rem idx now s :
  sn_ok s -> sockaddr_ok a -> common_sized cmn -> (size <= length buf)%nat -> (size <= P2P_SN_PKTBUF_SIZE)%nat ->
  (idx + rem = size)%nat -> (size = rem + 20 \/ rem <= 15)%nat ->
  exists n reg rem' idx' st, decode_REGISTER f0 (REGISTER cookie0 sock0 sock0) buf (rem, idx) = Some (n, reg, (rem', idx')) /\
    let bytes := forwarded cmn a reg (take (size - idx') (drop idx' buf)) in
    (length bytes <= P2P_SN_PKTBUF_SIZE)%nat /\
    process_register sendto f0 cmn a buf size (rem, idx) now s = Some (with_stats st s,
      if bool_decide (at_addr (dest_sock reg) ∈ addrs (edges s)) then [Datagram (at_addr (dest_sock reg)) bytes] else []).
Proof.
  intros Hs Ha Hc Hbuf Hsz Hidx Hcons. destruct (eats_register f0 (REGISTER cookie0 sock0 sock0) buf rem idx ltac:(lia))
    as (n & reg & rem' & idx' & c & E & E1 & L1 & C1 & Hck & Hso & c2 & Hd & Hc2).
  exists n, reg, rem', idx'. set (bytes := forwarded cmn a reg (take (size - idx') (drop idx' buf))).
  set (cmn2 := Common (ttl cmn) (pc cmn) P2P_FLAGS_FROM_SUPERNODE (community cmn)).
  set (reg' := REGISTER (r_cookie reg) (v4_of a (drop IPV4_SIZE (addr (orig_sender reg)))) (dest_sock reg)).
  assert (sock_sized (v4_of a (drop IPV4_SIZE (addr (orig_sender reg))))) as Hv4.
  { apply v4_sized; [done|]. by rewrite length_drop, Hso. }
  assert (c2 <= 20)%nat as Hc20 by (destruct Hd as [_ [[_ ->]|[_ ->]]]; lia).
  assert (length (common_bytes cmn2 ++ REGISTER_bytes reg') = 32 + c2)%nat as Hlen.
  { unfold REGISTER_bytes. rewrite !length_app. cbn [r_cookie orig_sender dest_sock reg']. rewrite (length_common cmn2), Hck, (length_sock _ _ Hd) by done.
    rewrite (length_sock 8 (v4_of a _)); [unfold P2P_COOKIE_SIZE; lia|]. split; [done|by left]. }
  assert (length (take (size - idx') (drop idx' buf)) = size - idx')%nat as Hrest by (rewrite length_take, length_drop; lia).
  assert (32 + c2 + (size - idx') <= P2P_SN_PKTBUF_SIZE)%nat as Hroom by (unfold P2P_SN_PKTBUF_SIZE in *; lia).
  destruct (encode_register_writes cmn2 reg') as [m Hw]; [done..|apply Hd|].
  assert (exists m2, writes (fun w => '(_, w) ← encode_REGISTER cmn2 reg' w; encode_buf (drop idx' buf) (size - idx') w)
    ((common_bytes cmn2 ++ REGISTER_bytes reg') ++ take (size - idx') (drop idx' buf)) m2) as [m2 Hw2].
  { eexists. eapply writes_bind; [exact Hw|]. apply encode_buf_writes. rewrite length_drop. lia. }
  assert (bytes = (common_bytes cmn2 ++ REGISTER_bytes reg') ++ take (size - idx') (drop idx' buf)) as Eb by (unfold bytes, forwarded; by rewrite <- app_assoc).
  rewrite <- Eb in Hw2. assert (length bytes <= P2P_SN_PKTBUF_SIZE)%nat as Hfit by (rewrite Eb, length_app, Hlen, Hrest; done).
  destruct (packet_bytes _ bytes m2 Hw2 Hfit) as [Ew Es].
  destruct (try_forward_ok (dest_sock reg) bytes (with_stats (note_last_fwd now) s)) as [st Est]; [by destruct Hs|].
  exists (fun x => st (note_last_fwd now x)). split; [exact E|]. split; [exact Hfit|]. unfold process_register. rewrite E. cbn [mbind option_bind].
  fold cmn2 reg'. destruct (encode_REGISTER cmn2 reg' _) as [[m1 w1]|] eqn:E2; [|done]. cbn [mbind option_bind] in Ew |- *.
  rewrite Ew. cbn [mbind option_bind]. rewrite Es. exact Est.
Qed.

Lemma super_cookie v base c n reg c' : decode_REGISTER_SUPER v base c = Some (n, reg, c') -> (c.2 + c.1 <= length base)%nat ->
  length (s_cookie reg) = P2P_COOKIE_SIZE.
Proof.
  intros E Hb. destruct c as [rem idx]. unfold decode_REGISTER_SUPER in E.
  destruct (eats_buf P2P_COOKIE_SIZE cookie0 ltac:(unfold P2P_COOKIE_SIZE; lia) ltac:(done) base rem idx Hb) as (? & ck & ? & ? & ? & E1 & _ & _ & _ & _ & Hl).
  rewrite E1 in E. cbn [mbind option_bind] in E. repeat (let y := fresh in apply bind_Some in E as ([[? ?] ?] & y & E); clear y).
  by injection E as <- <- <-.
Qed.

Lemma process_register_super_ok cmn a buf c now s n reg c' :
  sn_ok s -> sockaddr_ok a -> common_sized cmn -> (c.2 + c.1 <= length buf)%nat ->
  decode_REGISTER_SUPER (REGISTER_SUPER cookie0 auth0) buf c = Some (n, reg, c') ->
  let bytes := common_bytes (Common P2P_DEFAULT_TTL MSG_TYPE_REGISTER_SUPER_ACK (Z.lor P2P_FLAGS_SOCKET P2P_FLAGS_FROM_SUPERNODE) (community cmn)) ++
    REGISTER_SUPER_ACK_bytes (REGISTER_SUPER_ACK (s_cookie reg) reg_lifetime (v4_of a junk) 0 sock0) in
  exists s', process_register_super junk cmn a buf c now s = Some (s', [Datagram (ep_of a) bytes]) /\ length bytes = 35%nat /\
    sn_ok s' /\ registry (edges s') = <[ep_of a := (community cmn, now)]> (registry (edges s)) /\ sn_purge s' = sn_purge s.
Proof.
  intros Hs Ha Hc Hb E bytes. pose proof (super_cookie _ _ _ _ _ _ E Hb) as Hck.
  destruct (update_edge_ok (community cmn) (v4_of a junk) now (with_stats (note_reg now) s)) as (l & El & Hl & Er); [by destruct Hs|done|].
  rewrite (at_addr_v4 a junk Ha) in Er. assert (length bytes = 35%nat) as Hlen.
  { unfold bytes, REGISTER_SUPER_ACK_bytes. rewrite !length_app, length_common by done. cbn [sa_cookie lifetime sa_sock num_sn sn_bak].
    rewrite Hck, (length_sock 8); [done|]. split; [by apply v4_sized|by left]. }
  destruct (encode_super_ack_writes (Common P2P_DEFAULT_TTL MSG_TYPE_REGISTER_SUPER_ACK (Z.lor P2P_FLAGS_SOCKET P2P_FLAGS_FROM_SUPERNODE) (community cmn))
    (REGISTER_SUPER_ACK (s_cookie reg) reg_lifetime (v4_of a junk) 0 sock0)) as [m Hw]; [done|done|by apply v4_sized|done|].
  destruct (packet_bytes _ _ m Hw) as [Ew Es]; [fold bytes; rewrite Hlen; unfold P2P_SN_PKTBUF_SIZE; lia|].
  eexists. split; [|split; [exact Hlen|split; [exact Hl|split; [exact Er|done]]]].
  unfold process_register_super. rewrite E. cbn [mbind option_bind sa_sock]. rewrite El. cbn [mbind option_bind]. rewrite Ew. cbn [mbind option_bind].
  rewrite Es. unfold ep_of. do 4 f_equal. destruct Ha as [_ Ha]. by rewrite take_ge by lia.
Qed.

(** ** The registry *)

Definition live (n : Z) (cmn : p2p_common) : bool := (0 <=? n) && (1 <=? ttl cmn).

(** What a datagram means for the registry of the edges.  A heartbeat is looked up by
    the port as it stands in the [sockaddr_in]. *)
Definition spec_udp (a : sockaddr_in) (cmn : p2p_common) (now : Z) (m : gmap endpoint (list Z * Z)) : gmap endpoint (list Z * Z) :=
  if pc cmn =? MSG_TYPE_REGISTER_SUPER then <[ep_of a := (community cmn, now)]> m
  else if pc cmn =? MSG_TYPE_HEARTBEAT then alter (fun v => (v.1, now)) (sin_port a, sin_addr a) m
  else m.

Definition datagram_ok (a : sockaddr_in) (buf : list Z) (size : nat) : Prop :=
  sockaddr_ok a /\ (size <= length buf)%nat /\ (size <= P2P_SN_PKTBUF_SIZE)%nat.

(** An authentication token longer than the place for it. *)
Definition long_token (buf : list Z) (n : Z) (cmn : p2p_common) (c : cursor) : Prop :=
  live n cmn = true /\ pc cmn = MSG_TYPE_REGISTER_SUPER /\ token_overflow buf c.1 c.2.

(** Answers go to where the datagram came from, or to an edge that is registered. *)
Definition answers (a : sockaddr_in) (m : gmap endpoint (list Z * Z)) (out : list datagram) : Prop :=
  (length out <= 1)%nat /\ forall d, d ∈ out -> (length (d_bytes d) <= P2P_SN_PKTBUF_SIZE)%nat /\ (d_to d = ep_of a \/ is_Some (m !! d_to d)).

Hypothesis Hcmn : common_sized cmn0 /\ byte_range (ttl cmn0).

Lemma answers_nil a m : answers a m [].
Proof. split; [cbn; lia|]. intros d Hd. by apply not_elem_of_nil in Hd. Qed.

Lemma answers_one a m d : (length (d_bytes d) <= P2P_SN_PKTBUF_SIZE)%nat -> d_to d = ep_of a \/ is_Some (m !! d_to d) -> answers a m [d].
Proof. intros H1 H2. split; [done|]. intros d' ->%list_elem_of_singleton. done. Qed.

Lemma process_udp_ok a buf size now s : sn_ok s -> datagram_ok a buf size -> exists n cmn c,
  decode_common cmn0 buf (size, 0%nat) = Some (n, cmn, c) /\
  (long_token buf n cmn c /\ process_udp sendto junk cmn0 f0 a buf size now s = None \/
   ~ long_token buf n cmn c /\ exists r s' out, process_udp sendto junk cmn0 f0 a buf size now s = Some (r, s', out) /\
     sn_ok s' /\ registry (edges s') = (if live n cmn then spec_udp a cmn now (registry (edges s)) else registry (edges s)) /\
     sn_purge s' = sn_purge s /\ answers a (registry (edges s)) out).
Proof.
  intros Hs (Ha & Hbuf & Hsz). destruct (decode_common_cases cmn0 buf size 0 (proj1 Hcmn) (proj2 Hcmn) ltac:(lia)) as (n & cmn & rem & idx & E & Ei & Hn).
  exists n, cmn, (rem, idx). split; [exact E|]. unfold process_udp. rewrite E. cbn [mbind option_bind]. unfold long_token, live.
  destruct (Z.ltb_spec n 0) as [Hneg|Hpos].
  { rewrite (proj2 (Z.leb_gt _ _)) by done. right. split; [by intros [? _]|]. exists (-1), s, []. split_and!; try done. apply answers_nil. }
  destruct Hn as [?|[Hc Hcons]]; [lia|]. rewrite (proj2 (Z.leb_le 0 n)) by done. cbn [andb].
  destruct (Z.ltb_spec (ttl cmn) 1) as [Ht|Ht].
  { rewrite (proj2 (Z.leb_gt _ _)) by done. right. split; [by intros [? _]|]. exists 0, s, []. split_and!; try done. apply answers_nil. }
  rewrite (proj2 (Z.leb_le 1 (ttl cmn))) by done. unfold spec_udp. cbn [pc]. destruct (Z.eqb_spec (pc cmn) MSG_TYPE_REGISTER_SUPER) as [Ep|Hne].
  { rewrite Ep. change (MSG_TYPE_REGISTER_SUPER =? MSG_TYPE_PACKET) with false. change (MSG_TYPE_REGISTER_SUPER =? MSG_TYPE_HEARTBEAT) with false.
    change (MSG_TYPE_REGISTER_SUPER =? MSG_TYPE_REGISTER) with false. change (MSG_TYPE_REGISTER_SUPER =? MSG_TYPE_REGISTER_ACK) with false. cbv iota.
    set (cmn1 := Common (ttl cmn - 1) _ _ _). cbn [fst snd].
    destruct (decode_REGISTER_SUPER (REGISTER_SUPER cookie0 auth0) buf (rem, idx)) as [[[m reg] c']|] eqn:Ed.
    - right. split; [intros (_ & _ & Ho); pose proof (proj2 (decode_REGISTER_SUPER_overflow (REGISTER_SUPER cookie0 auth0) buf rem idx ltac:(lia)) Ho); congruence|].
      destruct (process_register_super_ok cmn1 a buf (rem, idx) now s m reg c' Hs Ha Hc ltac:(cbn; lia) Ed) as (s' & -> & Hl & H1 & H2 & H3).
      cbn [mbind option_bind]. eexists 0, s', _. split; [reflexivity|]. split_and!; try done. apply answers_one; [|by left]. cbn [d_bytes].
      rewrite Hl. unfold P2P_SN_PKTBUF_SIZE. lia.
    - left. split; [split; [done|]; split; [done|]; apply (decode_REGISTER_SUPER_overflow (REGISTER_SUPER cookie0 auth0)); [lia|done]|].
      unfold process_register_super. by rewrite Ed. }
  right. split; [by intros (_ & ? & _)|]. destruct (Z.eqb_spec (pc cmn) MSG_TYPE_PACKET) as [Ep|H1].
  { rewrite Ep. change (MSG_TYPE_PACKET =? MSG_TYPE_HEARTBEAT) with false. exists 0, s, []. split_and!; try done. apply answers_nil. }
  destruct (Z.eqb_spec (pc cmn) MSG_TYPE_HEARTBEAT) as [Ep|H2].
  { destruct (process_heartbeat_ok junk a now s Hs Ha) as (l & -> & Hl & Er). cbn [mbind option_bind]. exists 0, (with_edges l s), [].
    split_and!; try done. apply answers_nil. }
  destruct (Z.eqb_spec (pc cmn) MSG_TYPE_REGISTER) as [Ep|H3].
  { destruct (process_register_ok (Common (ttl cmn - 1) (pc cmn) (flags cmn) (community cmn)) a buf size rem idx now s Hs Ha Hc Hbuf Hsz
      ltac:(lia) ltac:(lia)) as (m & reg & rem' & idx' & st & _ & Hl & ->). cbn [mbind option_bind].
    eexists 0, _, _. split; [reflexivity|]. split_and!; try done; [by destruct Hs|]. case_bool_decide as Hin; [|apply answers_nil].
    apply answers_one; [exact Hl|]. right. cbn [d_to]. apply elem_of_addrs in Hin as (x & Hx & <-). apply list_elem_of_lookup in Hx as [i Hi].
    rewrite (registry_some _ _ _ (so_addrs _ Hs) Hi). by eexists. }
  destruct (pc cmn =? MSG_TYPE_REGISTER_ACK); exists 0, s, []; split_and!; try done; apply answers_nil.
Qed.
End Handlers.

(** ** In the long run *)

Section Run.
Context (sendto : endpoint -> list Z -> Z) (junk : list Z) (cmn0 : p2p_common) (f0 : Z).

Abbreviation received := (option (sockaddr_in * list Z * nat)).
Definition recv_ok (recv : received) : Prop := match recv with Some (a, buf, size) => datagram_ok a buf size | None => True end.

(** The registry after a turn of the loop. *)
Definition spec_recv (recv : received) (now : Z) (m : gmap endpoint (list Z * Z)) : gmap endpoint (list Z * Z) :=
  match recv with
  | None => m
  | Some (a, buf, size) =>
      match decode_common cmn0 buf (size, O) with
      | Some (n, cmn, _) => if live n cmn then spec_udp a cmn now m else m
      | None => m
      end
  end.
Definition spec_turn (recv : received) (now time last_purge : Z) (m : gmap endpoint (list Z * Z)) : gmap endpoint (list Z * Z) :=
  if bool_decide (snd <$> recv = Some O) then m
  else if time - last_purge <? PURGE_REGISTRATION_FREQUENCY then spec_recv recv now m
  else filter (fun kv => time - REGISTRATION_TIMEOUT <= kv.2.2) (spec_recv recv now m).

Definition overflows (recv : received) : Prop :=
  exists a buf size n cmn c, recv = Some (a, buf, size) /\ size <> O /\ decode_common cmn0 buf (size, O) = Some (n, cmn, c) /\ long_token buf n cmn c.

Inductive sn_reachable : p2p_sn -> Prop :=
  | sn_start time : sn_reachable (Sn time (stats init_sn) (edges init_sn) 0)
  | sn_turn s recv now time s' out : sn_reachable s -> recv_ok recv ->
      run_turn sendto junk cmn0 f0 recv now time s = Some (s', out) -> sn_reachable s'.

Hypothesis Hjunk : length junk = 12%nat.
Hypothesis Hcmn : common_sized cmn0 /\ byte_range (ttl cmn0).

Definition answers_recv (recv : received) (m : gmap endpoint (list Z * Z)) (out : list datagram) : Prop :=
  match recv with Some (a, _, _) => answers a m out | None => out = [] end.

Lemma purged_ok s (out : list datagram) time : sn_ok s -> exists s' : p2p_sn, (let '(last_purge, l, _) := purge_expired_registrations (sn_purge s) time (edges s) in
    Some (Sn (start_time s) (stats s) l last_purge, out)) = Some (s', out) /\ sn_ok s' /\
  registry (edges s') = (if time - sn_purge s <? PURGE_REGISTRATION_FREQUENCY then registry (edges s)
                else filter (fun kv => time - REGISTRATION_TIMEOUT <= kv.2.2) (registry (edges s))).
Proof.
  intros Hs. pose proof (run_purge_ok s time Hs) as H. destruct (purge_expired_registrations _ _ _) as [[last l] k]. eexists. split; [reflexivity|exact H].
Qed.

Lemma run_turn_ok s recv now time : sn_ok s -> recv_ok recv ->
  overflows recv /\ run_turn sendto junk cmn0 f0 recv now time s = None \/
  ~ overflows recv /\ exists s' out, run_turn sendto junk cmn0 f0 recv now time s = Some (s', out) /\ sn_ok s' /\
    registry (edges s') = spec_turn recv now time (sn_purge s) (registry (edges s)) /\ answers_recv recv (registry (edges s)) out.
Proof.
  intros Hs Hr. unfold run_turn, spec_turn. case_bool_decide as E0.
  { right. split; [intros (a & buf & size & n & cmn & c & -> & H & _); cbn in E0; congruence|]. exists s, []. split_and!; try done.
    destruct recv as [[[a buf] size]|]; [exact (answers_nil sendto junk Hjunk a _)|done]. }
  destruct recv as [[[a buf] size]|]; cbn [spec_recv answers_recv].
  - destruct (process_udp_ok sendto junk cmn0 f0 Hjunk Hcmn a buf size now s Hs Hr) as (n & cmn & c & Ed & [[Hl Ep]|[Hl (r & s1 & out & Ep & Hs1 & Er & Epu & Ha)]]).
    + left. rewrite Ep. split; [|done]. exists a, buf, size, n, cmn, c. split_and!; try done. intros ->. by apply E0.
    + right. split.
      { intros (a' & buf' & size' & n' & cmn' & c' & [= <- <- <-] & _ & Ed' & Hl'). rewrite Ed in Ed'. by injection Ed' as <- <- <-. }
      rewrite Ep. cbn [mbind option_bind]. destruct (purged_ok s1 out time Hs1) as (s' & Es & Hs' & Er'). exists s', out. rewrite Es. split; [done|].
      split; [done|]. split; [|done]. rewrite Er', Epu, Er, Ed. done.
  - right. split; [intros (a' & buf' & size' & n' & cmn' & c' & ? & _); done|]. cbn [mbind option_bind].
    destruct (purged_ok s [] time Hs) as (s' & Es & Hs' & Er'). exists s', []. rewrite Es. by split_and!.
Qed.

Lemma sn_reachable_ok s : sn_reachable s -> sn_ok s.
Proof.
  induction 1 as [time|s recv now time s' out _ IH Hr E].
  - split; cbn; [apply NoDup_nil_2|]. intros x Hx. by apply not_elem_of_nil in Hx.
  - destruct (run_turn_ok s recv now time IH Hr) as [[_ E']|[_ (s2 & o2 & E' & Hs & _)]]; rewrite E in E'; [done|]. by injection E' as <- <-.
Qed.

(** C22: The supernode is a registry of edges by address.  In every state that datagrams
    bring about, whatever is in them, a REGISTER_SUPER enters the sender with its
    community and the time, a turn of the loop drops those not heard of for five minutes,
    and no other message but a heartbeat changes it; at most one datagram is sent, of at
    most 2048 bytes, back to the sender or to an edge of the registry.  The only
    datagrams that lead outside an array are those with an authentication token of more
    than 32 bytes. *)
Theorem supernode_refines s recv now time :
  sn_reachable s -> recv_ok recv ->
  NoDup (addrs (edges s)) /\
  (run_turn sendto junk cmn0 f0 recv now time s = None <-> overflows recv) /\
  forall s' out, run_turn sendto junk cmn0 f0 recv now time s = Some (s', out) ->
    sn_reachable s' /\ registry (edges s') = spec_turn recv now time (sn_purge s) (registry (edges s)) /\
    answers_recv recv (registry (edges s)) out.
Proof.
  intros Hr Hrecv. pose proof (sn_reachable_ok s Hr) as Hs. split; [apply Hs|].
  destruct (run_turn_ok s recv now time Hs Hrecv) as [[Ho E]|[Ho (s2 & out & E & _ & Er & Ha)]]; rewrite E.
  - by split.
  - split; [by split|]. intros s' out' [= <- <-]. split; [|done]. by eapply sn_turn.
Qed.
End Run.

(** ** A sample *)

Definition sample_cmn : p2p_common := Common 0 0 0 (replicate 16 0).
Definition sample_edge : sockaddr_in := SockaddrIn 0x3412 [10; 0; 0; 1].
Definition sample_turn (recv : option (sockaddr_in * list Z * nat)) (now : Z) (s : p2p_sn) : option (p2p_sn * list datagram) :=
  run_turn (fun _ b => Z.of_nat (length b)) (replicate 12 0) sample_cmn 0 recv now now s.
Definition super_packet : list Z := common_bytes (Common 2 MSG_TYPE_REGISTER_SUPER 0 (replicate 16 65)) ++ [1; 2; 3; 4; 0; 0; 0; 0].
Definition beat_packet : list Z := common_bytes (Common 2 MSG_TYPE_HEARTBEAT 0 (replicate 16 65)).
Definition whole (a : sockaddr_in) (l : list Z) : option (sockaddr_in * list Z * nat) := Some (a, l, length l).

Lemma supernode_refines_witness : exists s' out,
  sample_turn (whole sample_edge super_packet) 1000 (Sn 900 (stats init_sn) (edges init_sn) 0) = Some (s', out) /\
  registry (edges s') !! (0x1234, [10; 0; 0; 1]) = Some (replicate 16 65, 1000).
Proof.
  destruct (supernode_refines (fun _ b => Z.of_nat (length b)) (replicate 12 0) sample_cmn 0 eq_refl (conj eq_refl (conj (Z.le_refl 0) eq_refl))
    (Sn 900 (stats init_sn) (edges init_sn) 0) (whole sample_edge super_packet) 1000 1000) as (_ & _ & H).
  - apply sn_start.
  - unfold recv_ok, whole, datagram_ok, sockaddr_ok, word_range. apply (bool_decide_unpack _). by vm_compute.
  - destruct (sample_turn (whole sample_edge super_packet) 1000 (Sn 900 (stats init_sn) (edges init_sn) 0)) as [[s' out]|] eqn:E; [|by vm_compute in E].
    destruct (H s' out E) as (_ & Er & _). exists s', out. split; [done|]. rewrite Er. by vm_compute.
Defined.

(** The heartbeat does not reach the entry of its edge: the port is compared in network
    order.  The edge of port 0x1234 is not refreshed, and goes after five minutes; that
    of port 0x3412 at the same address is refreshed in its place. *)
Definition beats : option p2p_sn :=
  '(s, _) ← sample_turn (whole sample_edge super_packet) 1000 (Sn 900 (stats init_sn) (edges init_sn) 0);
  '(s, _) ← sample_turn (whole (SockaddrIn 0x1234 [10; 0; 0; 1]) super_packet) 1001 s;
  '(s, _) ← sample_turn (whole sample_edge beat_packet) 1100 s;
  '(s, _) ← sample_turn None 1390 s;
  Some s.
Example heartbeat_lost : (fun s => map_to_list (registry (edges s))) <$> beats = Some [((0x3412, [10; 0; 0; 1]), (replicate 16 65, 1100))].
Proof. by vm_compute. Qed.
