(* ===== verification/Edge.v ===== *)
(** An edge of the hole-punching protocol, [upunch/p2p_punch.c]: its registration with
    the supernode, the peers it has tried to reach and those it has reached.

    A handler returns the datagrams it sends and the callbacks it makes along with the
    state.  The clock, [rand] and the values of uninitialised memory are arguments; a
    datagram sent to a socket address that was never filled in is a failure, as is the
    call of a callback that was not set. *)
From S2P Require Import Prelude P2pWire PeerList Supernode.
Local Open Scope Z_scope.

Definition P2P_PKT_BUF_SIZE : nat := 2048.
Definition P2P_EDGE_SUP_ATTEMPTS : Z := 3.
Definition REGISTER_SUPER_INTERVAL_DFL : Z := 60.
Definition REGISTER_SUPER_INTERVAL_MIN : Z := 20.
Definition REGISTER_SUPER_INTERVAL_MAX : Z := 3600.

(** [e_purge] is the static of [purge_expired_registrations]; the callbacks are known by
    whether they are set.  [sn_ips] is what the entries of [sn_ip_array] resolve to. *)
Record p2p_edge := Edge {
  supernode : p2p_sock; sn_ips : list p2p_sock; sn_idx : nat; sn_num : nat; sn_wait : bool;
  e_community : list Z; known_peers : list peer_info; pending_peers : list peer_info;
  last_register_req : Z; register_lifetime : Z; last_sup : Z; sup_attempts : Z; last_cookie : list Z;
  reg_callback : bool; puch_callback : bool; e_purge : Z
}.

Definition with_peers (known pending : list peer_info) (e : p2p_edge) : p2p_edge :=
  Edge (supernode e) (sn_ips e) (sn_idx e) (sn_num e) (sn_wait e) (e_community e) known pending
    (last_register_req e) (register_lifetime e) (last_sup e) (sup_attempts e) (last_cookie e) (reg_callback e) (puch_callback e) (e_purge e).
Definition with_punch (b : bool) (e : p2p_edge) : p2p_edge :=
  Edge (supernode e) (sn_ips e) (sn_idx e) (sn_num e) (sn_wait e) (e_community e) (known_peers e) (pending_peers e)
    (last_register_req e) (register_lifetime e) (last_sup e) (sup_attempts e) (last_cookie e) (reg_callback e) b (e_purge e).
Definition with_reg (idx : nat) (wait : bool) (req life sup att : Z) (cookie : list Z) (e : p2p_edge) : p2p_edge :=
  Edge (supernode e) (sn_ips e) idx (sn_num e) wait (e_community e) (known_peers e) (pending_peers e)
    req life sup att cookie (reg_callback e) (puch_callback e) (e_purge e).
Definition with_e_purge (last_purge : Z) (e : p2p_edge) : p2p_edge :=
  Edge (supernode e) (sn_ips e) (sn_idx e) (sn_num e) (sn_wait e) (e_community e) (known_peers e) (pending_peers e)
    (last_register_req e) (register_lifetime e) (last_sup e) (sup_attempts e) (last_cookie e) (reg_callback e) (puch_callback e) last_purge.

Inductive output := Send (d : datagram) | RegCallback | PunchCallback.

Definition edge_init (sn : p2p_sock) (ips : list p2p_sock) (community : list Z) (callback : bool) : p2p_edge :=
  Edge sn ips 0 (length ips) false community [] [] 0 REGISTER_SUPER_INTERVAL_DFL 0 P2P_EDGE_SUP_ATTEMPTS cookie0 callback false 0.

Definition edge_deinit (e : p2p_edge) : p2p_edge :=
  with_peers (clear_peer_list (known_peers e)).1 (clear_peer_list (pending_peers e)).1 e.

(** [fill_sockaddr] fills in the address of an IPv4 socket only. *)
Definition sendto_sock (buf : list Z) (dest : p2p_sock) : option (list output) :=
  if AF_INET =? family dest then Some [Send (Datagram (at_addr dest) buf)] else None.

(** The message that an encoder writes into a fresh buffer. *)
Definition packet (e : enc) : option (list Z) :=
  '(_, w) ← e (replicate P2P_PKT_BUF_SIZE 0, O); Some (sent_bytes w).

Definition send_packet (dst : p2p_sock) (e : p2p_edge) : option (list output) :=
  pktbuf ← packet (encode_common (Common P2P_DEFAULT_TTL MSG_TYPE_PACKET 0 (e_community e)));
  sendto_sock pktbuf dst.

Definition send_register (flags : Z) (sn dst : p2p_sock) (e : p2p_edge) : option (list output) :=
  let cmn := Common P2P_DEFAULT_TTL MSG_TYPE_REGISTER flags (e_community e) in
  '(_, (cookie, _)) ← encode_uint32 123456789 (cookie0, O);
  let reg := REGISTER cookie (Sock AF_INET 0 (replicate IPV6_SIZE 0)) dst in
  pktbuf ← packet (encode_REGISTER cmn reg);
  sendto_sock pktbuf sn.

(** [r] are the bytes [rand () % 0xff]. *)
Definition send_register_super (r : list Z) (sn : p2p_sock) (e : p2p_edge) : option (list output) :=
  let cmn := Common P2P_DEFAULT_TTL MSG_TYPE_REGISTER_SUPER 0 (e_community e) in
  pktbuf ← packet (encode_REGISTER_SUPER cmn (REGISTER_SUPER r auth0));
  sendto_sock pktbuf sn.

Definition send_register_ack (remote_peer : p2p_sock) (reg : p2p_REGISTER) (e : p2p_edge) : option (list output) :=
  let cmn := Common P2P_DEFAULT_TTL MSG_TYPE_REGISTER_ACK 0 (e_community e) in
  pktbuf ← packet (encode_REGISTER_ACK cmn (REGISTER_ACK (r_cookie reg) sock0));
  sendto_sock pktbuf remote_peer.

Definition try_send_register (time from_supernode : Z) (dst sn : p2p_sock) (e : p2p_edge) : option (p2p_edge * list output) :=
  match find_peer_by_addr (pending_peers e) dst with
  | None =>
      let scan := PeerInfo (replicate P2P_COMMUNITY_SIZE 0) dst time in
      let e := with_peers (known_peers e) (peer_list_add time scan (pending_peers e)) e in
      out ← send_register from_supernode sn dst e;
      Some (e, out)
  | Some _ => Some (e, [])
  end.

(** [prev] stays NULL. *)
Definition set_peer_operational (time : Z) (peer : p2p_sock) (e : p2p_edge) : option p2p_edge :=
  match find_peer_by_addr (pending_peers e) peer with
  | Some i =>
      scan ← pending_peers e !! i;
      Some (with_peers (PeerInfo (community_name scan) peer time :: known_peers e) (drop (S i) (pending_peers e)) e)
  | None => Some e
  end.

Definition is_empty_ip_address (s : p2p_sock) : bool :=
  forallb (fun b => b =? 0) (take (if family s =? AF_INET6 then IPV6_SIZE else IPV4_SIZE) (addr s)).

Section Edge.
(** [memcmp] of two whole [p2p_sock]s, which also compares their padding; the bytes of a
    [p2p_sock] of which only [addr.v4] was written; the locals [cmn] and [f]. *)
Context (memcmp_sock : p2p_sock -> p2p_sock -> bool) (junk : list Z) (cmn0 : p2p_common) (f0 : Z).

Fixpoint memcmp_find (dst : p2p_sock) (l : list peer_info) : option nat :=
  match l with
  | [] => None
  | x :: l => if memcmp_sock dst (sock x) then Some O else S <$> memcmp_find dst l
  end.

Definition update_peer_address (from_supernode : Z) (dst peer : p2p_sock) (time when : Z) (e : p2p_edge) : option (p2p_edge * list output) :=
  if is_empty_ip_address peer then Some (e, [])
  else
    match memcmp_find dst (known_peers e) with
    | None => Some (e, [])
    | Some i =>
        scan ← known_peers e !! i;
        if negb (sock_equal (sock scan) peer =? 0) then
          if from_supernode =? 0 then
            try_send_register time from_supernode dst peer (with_peers (delete i (known_peers e)) (pending_peers e) e)
          else Some (e, [])
        else Some (with_peers (<[i := PeerInfo (community_name scan) (sock scan) when]> (known_peers e)) (pending_peers e) e, [])
    end.

Definition check_peer (time from_supernode : Z) (dst peer : p2p_sock) (e : p2p_edge) : option (p2p_edge * list output) :=
  match find_peer_by_addr (known_peers e) dst with
  | None => try_send_register time from_supernode dst peer e
  | Some _ => update_peer_address from_supernode dst peer time time e
  end.

(** [r] as for [send_register_super]. *)
Definition update_supernode_reg (nowTime : Z) (r : list Z) (e : p2p_edge) : option (p2p_edge * list output) :=
  if negb (sn_wait e && (nowTime >? last_register_req e + register_lifetime e / 10)) &&
     (nowTime <? last_register_req e + register_lifetime e) then Some (e, [])
  else
    let '(idx, att) :=
      if sup_attempts e =? 0 then ((if (sn_num e <=? S (sn_idx e))%nat then O else S (sn_idx e)), P2P_EDGE_SUP_ATTEMPTS)
      else (sn_idx e, sup_attempts e - 1) in
    out ← send_register_super r (supernode e) e;
    Some (with_reg idx true nowTime (register_lifetime e) (last_sup e) att r e, out).

Definition on_register (time : Z) (cmn : p2p_common) (sender : p2p_sock) (udp_buf : list Z) (c : cursor) (e : p2p_edge) :
    option (p2p_edge * list output) :=
  '(_, reg, _) ← decode_REGISTER f0 (REGISTER cookie0 sock0 sock0) udp_buf c;
  let '(orig_sender, from_supernode) :=
    if flags cmn =? P2P_FLAGS_FROM_SUPERNODE then (orig_sender reg, 0) else (sender, Z.land (flags cmn) P2P_FLAGS_FROM_SUPERNODE) in
  '(e, out) ← check_peer time from_supernode orig_sender orig_sender e;
  out' ← send_register_ack orig_sender reg e;
  Some (e, out ++ out').

Definition on_register_ack (time : Z) (cmn : p2p_common) (sender : p2p_sock) (udp_buf : list Z) (c : cursor) (e : p2p_edge) :
    option (p2p_edge * list output) :=
  _ ← decode_REGISTER_ACK f0 cmn (REGISTER_ACK cookie0 sock0) udp_buf c;
  e ← set_peer_operational time sender e;
  _ ← ensure (puch_callback e);
  Some (e, [PunchCallback]).

Definition on_register_super_ack (now : Z) (udp_buf : list Z) (c : cursor) (e : p2p_edge) : option (p2p_edge * list output) :=
  if sn_wait e then
    '(_, ra, _) ← decode_REGISTER_SUPER_ACK f0 (REGISTER_SUPER_ACK cookie0 0 sock0 0 sock0) udp_buf c;
    if bool_decide (sa_cookie ra = last_cookie e) then
      let life := Z.min (Z.max (lifetime ra) REGISTER_SUPER_INTERVAL_MIN) REGISTER_SUPER_INTERVAL_MAX in
      _ ← ensure (reg_callback e);
      Some (with_reg (sn_idx e) false (last_register_req e) life now P2P_EDGE_SUP_ATTEMPTS (last_cookie e) e, [RegCallback])
    else Some (e, [])
  else Some (e, []).

(** [recvlen] bytes have come in [udp_buf]. *)
Definition readFromIPSocket (time : Z) (sender_sock : sockaddr_in) (udp_buf : list Z) (recvlen : nat) (e : p2p_edge) :
    option (p2p_edge * list output) :=
  if (recvlen =? 0)%nat then Some (e, [])
  else
    let sender := v4_of sender_sock junk in
    '(r, cmn, c) ← decode_common cmn0 udp_buf (recvlen, O);
    if r <? 0 then Some (e, [])
    else if bool_decide (community cmn = e_community e) then
      if pc cmn =? MSG_TYPE_PACKET then Some (e, [])
      else if pc cmn =? MSG_TYPE_REGISTER then on_register time cmn sender udp_buf c e
      else if pc cmn =? MSG_TYPE_REGISTER_ACK then on_register_ack time cmn sender udp_buf c e
      else if pc cmn =? MSG_TYPE_REGISTER_SUPER_ACK then on_register_super_ack time udp_buf c e
      else Some (e, [])
    else Some (e, []).

(** [dest] is the [AF_INET] socket of the peer's address and port; the callback given is
    not NULL. *)
Definition punching_hole (time : Z) (dest : p2p_sock) (e : p2p_edge) : option (p2p_edge * list output) :=
  let e := with_punch true e in
  snode ← sn_ips e !! sn_idx e;
  out ← send_packet dest e;
  '(e, out') ← try_send_register time 0 dest snode e;
  Some (e, out ++ out').

Definition keepalive_sn (e : p2p_edge) : option (list output) :=
  snode ← sn_ips e !! sn_idx e;
  pktbuf ← packet (encode_common (Common P2P_DEFAULT_TTL MSG_TYPE_HEARTBEAT 0 (e_community e)));
  sendto_sock pktbuf snode.

(** A turn of [run_loop]; [t1] and [t2] are the times that the two purges read. *)
Definition run_turn (recv : option (sockaddr_in * list Z * nat)) (time nowTime t1 t2 : Z) (r : list Z) (e : p2p_edge) :
    option (p2p_edge * list output) :=
  '(e, out) ← match recv with
              | Some (sender_sock, udp_buf, recvlen) => readFromIPSocket time sender_sock udp_buf recvlen e
              | None => Some (e, [])
              end;
  '(e, out') ← update_supernode_reg nowTime r e;
  let '(last, known, _) := purge_expired_registrations (e_purge e) t1 (known_peers e) in
  let '(last, pending, _) := purge_expired_registrations last t2 (pending_peers e) in
  Some (with_e_purge last (with_peers known pending e), out ++ out').
End Edge.
