(* ===== verification/Punch.v ===== *)
(** Hole punching: two edges behind address translation, the supernode between them, and
    the datagrams in flight.

    The edges and the supernode are those of [Edge] and [Supernode].  The translation lets
    a datagram in only from an address that something was sent to before. *)
From S2P Require Import Prelude P2pWire PeerList Supernode Edge.
Local Open Scope Z_scope.

(** An address as the sockets have it. *)
Definition endpoint_ok (x : endpoint) : Prop := word_range x.1 /\ length x.2 = IPV4_SIZE.
Definition v4sock (x : endpoint) : p2p_sock := Sock AF_INET x.1 (x.2 ++ replicate 12 0).
Definition sockaddr_of (x : endpoint) : sockaddr_in := SockaddrIn (ntohs x.1) x.2.

Record transit := Transit { t_from : endpoint; t_data : datagram }.
Record world := World {
  wa : p2p_edge; wb : p2p_edge; ws : p2p_sn; flight : list transit; holes : list (endpoint * endpoint)
}.

Definition sends (out : list output) : list datagram :=
  flat_map (fun o => match o with Send d => [d] | _ => [] end) out.

Section Punch.
Context (sendto : endpoint -> list Z -> Z) (memcmp_sock : p2p_sock -> p2p_sock -> bool) (junk : list Z) (cmn0 : p2p_common) (f0 : Z).

(** The addresses of the two edges and of the supernode, as the others see them. *)
Context (a b s : endpoint).

(** [x] sends: its translation remembers where to. *)
Definition post (x : endpoint) (ds : list datagram) (w : world) : world :=
  World (wa w) (wb w) (ws w) (flight w ++ map (Transit x) ds) (map (fun d => (x, d_to d)) ds ++ holes w).
Definition with_a (e : p2p_edge) (w : world) : world := World e (wb w) (ws w) (flight w) (holes w).
Definition with_b (e : p2p_edge) (w : world) : world := World (wa w) e (ws w) (flight w) (holes w).
Definition with_s (sn : p2p_sn) (w : world) : world := World (wa w) (wb w) sn (flight w) (holes w).
Definition with_flight (l : list transit) (w : world) : world := World (wa w) (wb w) (ws w) l (holes w).

Definition edge_receive (time : Z) (t : transit) (e : p2p_edge) : option (p2p_edge * list output) :=
  let bytes := d_bytes (t_data t) in
  readFromIPSocket memcmp_sock junk cmn0 f0 time (sockaddr_of (t_from t)) bytes (length bytes) e.

(** A datagram arrives. *)
Definition receive (time : Z) (t : transit) (w : world) : option world :=
  let to := d_to (t_data t) in
  let bytes := d_bytes (t_data t) in
  if bool_decide (to = s) then
    '(_, sn, out) ← process_udp sendto junk cmn0 f0 (sockaddr_of (t_from t)) bytes (length bytes) time (ws w);
    Some (post s out (with_s sn w))
  else if bool_decide ((to, t_from t) ∈ holes w) then
    if bool_decide (to = a) then '(e, out) ← edge_receive time t (wa w); Some (post a (sends out) (with_a e w))
    else if bool_decide (to = b) then '(e, out) ← edge_receive time t (wb w); Some (post b (sends out) (with_b e w))
    else Some w
  else Some w.

(** [a] calls [punching_hole] for [b]. *)
Definition start (time : Z) (rest : list Z) (w : world) : option world :=
  '(e, out) ← punching_hole time (Sock AF_INET b.1 (b.2 ++ rest)) (wa w);
  Some (post a (sends out) (with_a e w)).

(** What can come of it, with the number of datagrams that have arrived: any of those in
    flight may be the next. *)
Inductive punched (w0 : world) (rest : list Z) : nat -> world -> Prop :=
  | punch_start time w : start time rest w0 = Some w -> punched w0 rest 0 w
  | punch_deliver n w l1 t l2 time w' : punched w0 rest n w -> flight w = l1 ++ t :: l2 ->
      receive time t (with_flight (l1 ++ l2) w) = Some w' -> punched w0 rest (S n) w'.

Definition listed (l : list peer_info) (x : endpoint) : Prop := exists y, y ∈ l /\ at_addr (sock y) = x.
Definition knows (e : p2p_edge) : endpoint -> Prop := listed (known_peers e).
Definition tries (e : p2p_edge) : endpoint -> Prop := listed (pending_peers e).

Context (c : list Z).

(** The edges have the same community and do not know each other; both are registered,
    and the one that is called has a callback for new peers. *)
Record before_punch (w : world) : Prop := BeforePunch {
  bp_community : e_community (wa w) = c /\ e_community (wb w) = c;
  bp_strangers : ~ knows (wa w) b /\ ~ tries (wa w) b /\ ~ knows (wb w) a /\ ~ tries (wb w) a;
  bp_callback : puch_callback (wb w) = true;
  bp_supernode : exists sn, sn_ips (wa w) !! sn_idx (wa w) = Some sn /\ at_addr sn = s /\ family sn = AF_INET;
  bp_registered : sn_ok (ws w) /\ b ∈ addrs (edges (ws w)) /\ (b, s) ∈ holes w;
  bp_quiet : flight w = []
}.

(** ** Addresses *)

Lemma ntohs_arith x : 0 <= x < 2 ^ 16 -> ntohs x = x mod 256 * 256 + x / 256.
Proof.
  intros Hx. unfold ntohs. rewrite land_ff, (Z.shiftr_div_pow2 x 8) by lia. change (2 ^ 8) with 256.
  rewrite lor_shift by lia. done.
Qed.

Lemma ntohs_swap x : word_range x -> word_range (ntohs x) /\ ntohs (ntohs x) = x.
Proof.
  unfold word_range. intros Hx. rewrite (ntohs_arith x Hx). split; [lia|]. rewrite ntohs_arith by lia.
  Z.to_euclidean_division_equations. lia.
Qed.

Lemma sockaddr_of_ok x : endpoint_ok x -> sockaddr_ok (sockaddr_of x) /\ ep_of (sockaddr_of x) = x /\
  forall rest, v4_of (sockaddr_of x) rest = Sock AF_INET x.1 (x.2 ++ rest).
Proof.
  intros [H1 H2]. destruct (ntohs_swap _ H1) as [H3 H4]. split; [by split|]. unfold ep_of, v4_of. cbn [sin_port sin_addr sockaddr_of].
  rewrite H4. split; [by destruct x|]. intros rest. by rewrite take_ge by lia.
Qed.

Lemma at_addr_sock x rest : endpoint_ok x -> at_addr (Sock AF_INET x.1 (x.2 ++ rest)) = x.
Proof. intros [_ H]. unfold at_addr. cbn [port addr]. rewrite <- H, take_app_length. by destruct x. Qed.

Lemma v4sock_ok x : endpoint_ok x -> sock_ok (v4sock x).
Proof.
  intros [H1 H2]. split; [unfold sock_sized; cbn; by rewrite length_app, H2|]. split; [done|]. left. split; [done|].
  cbn [addr v4sock]. rewrite <- H2. apply drop_app_length.
Qed.

Lemma v4sock_bytes x rest : endpoint_ok x -> sock_bytes (Sock AF_INET x.1 (x.2 ++ rest)) = sock_bytes (v4sock x).
Proof. intros [_ H]. unfold sock_bytes. cbn [family v4sock port addr]. do 2 f_equal. rewrite <- H. by rewrite !take_app_length. Qed.

(** ** Messages *)

Hypothesis Hc : length c = P2P_COMMUNITY_SIZE.

Definition cookie : list Z := be32 123456789.
Definition head (ttl pc flags : Z) : p2p_common := Common ttl pc flags c.
Definition m_packet : list Z := common_bytes (head 2 MSG_TYPE_PACKET 0).
Definition m_register (t f : Z) (x y : endpoint) : list Z :=
  common_bytes (head t MSG_TYPE_REGISTER f) ++ REGISTER_bytes (REGISTER cookie (v4sock x) (v4sock y)).
Definition m_ack : list Z := common_bytes (head 2 MSG_TYPE_REGISTER_ACK 0) ++ REGISTER_ACK_bytes (REGISTER_ACK cookie sock0).

(** The address that stands in a REGISTER before the supernode has put the right one. *)
Definition nowhere : endpoint := (0, [0; 0; 0; 0]).

Lemma head_ok t p f : 0 <= t < 256 -> 0 <= p <= 0x1f -> word_range f -> Z.land f P2P_FLAGS_TYPE_MASK = 0 -> common_ok (head t p f).
Proof. intros H1 H2 H3 H4. split; [exact Hc|]. split; [exact H1|]. split; [exact H2|]. by split. Qed.

Lemma head_sized t p f : common_sized (head t p f).
Proof. exact Hc. Qed.

(** A message in a buffer of its length. *)
Lemma decode_message {A} e (d : dec A) bs h (v v0 : A) : common_sized cmn0 -> wire_roundtrip e d (common_bytes h ++ bs) h v ->
  exists n m cu c', decode_common cmn0 (common_bytes h ++ bs) (length (common_bytes h ++ bs), 0%nat) = Some (n, h, cu) /\ n = 20 /\
    d v0 (common_bytes h ++ bs) cu = Some (m, v, c') /\ c' = (0, length (common_bytes h ++ bs))%nat.
Proof.
  intros Hs Hw. set (l := common_bytes h ++ bs) in *. destruct (Hw l 0%nat (length l) cmn0 v0 (le_n _) (le_n _) Hs) as (n & m & base & cu & _ & Eb & E1 & E2).
  assert (base = l) as ->. { rewrite Eb. unfold patch. rewrite take_0. cbn [app Nat.add]. by rewrite drop_all, app_nil_r. }
  exists 20, m, cu, (0, length l)%nat. split_and!; try done. rewrite E2. by rewrite Nat.sub_diag.
Qed.

Lemma packet_of e bs n : writes e bs n -> (length bs <= P2P_PKT_BUF_SIZE)%nat -> packet e = Some bs.
Proof.
  intros He Hl. destruct (packet_bytes e bs n He Hl) as [E1 E2]. unfold packet. change P2P_PKT_BUF_SIZE with P2P_SN_PKTBUF_SIZE.
  rewrite E1. cbn [mbind option_bind]. by rewrite E2.
Qed.

(** ** What the edges send *)

Lemma length_cookie : length cookie = P2P_COOKIE_SIZE.
Proof. done. Qed.

Lemma v4_sock_sized x rest : endpoint_ok x -> length rest = 12%nat -> sock_sized (Sock AF_INET x.1 (x.2 ++ rest)).
Proof. intros [_ H] Hr. unfold sock_sized. cbn [addr]. by rewrite length_app, H, Hr. Qed.

Lemma length_v4_sock x : endpoint_ok x -> length (sock_bytes (v4sock x)) = 8%nat.
Proof. intros H. apply length_sock. split; [apply (v4sock_ok x H)|by left]. Qed.

Lemma length_register t f x y : endpoint_ok x -> endpoint_ok y -> length (m_register t f x y) = 40%nat.
Proof.
  intros Hx Hy. unfold m_register, REGISTER_bytes. rewrite !length_app, length_common by apply head_sized. cbn [r_cookie orig_sender dest_sock].
  by rewrite !length_v4_sock by done.
Qed.
Lemma length_ack : length m_ack = 24%nat.
Proof. unfold m_ack. rewrite length_app, length_common by apply head_sized. done. Qed.

Lemma length_packet : length m_packet = 20%nat.
Proof. apply length_common, head_sized. Qed.

Lemma nowhere_ok : endpoint_ok nowhere.
Proof. split; [unfold word_range; cbn; lia|done]. Qed.

Lemma send_register_ok sn y rest e : e_community e = c -> endpoint_ok y -> length rest = 12%nat -> family sn = AF_INET ->
  send_register 0 sn (Sock AF_INET y.1 (y.2 ++ rest)) e = Some [Send (Datagram (at_addr sn) (m_register 2 0 nowhere y))].
Proof.
  intros Hcom Hy Hr Hsn. unfold send_register. rewrite Hcom. change (encode_uint32 123456789 (cookie0, 0%nat)) with (Some (4, (cookie, 4%nat))).
  cbn [mbind option_bind]. fold (head P2P_DEFAULT_TTL MSG_TYPE_REGISTER 0).
  destruct (encode_register_writes (head P2P_DEFAULT_TTL MSG_TYPE_REGISTER 0) (REGISTER cookie (Sock AF_INET 0 (replicate IPV6_SIZE 0))
    (Sock AF_INET y.1 (y.2 ++ rest)))) as [n Hw]; [apply head_sized|done|done|by apply v4_sock_sized|].
  assert (REGISTER_bytes (REGISTER cookie (Sock AF_INET 0 (replicate IPV6_SIZE 0)) (Sock AF_INET y.1 (y.2 ++ rest))) =
    REGISTER_bytes (REGISTER cookie (v4sock nowhere) (v4sock y))) as Eb.
  { unfold REGISTER_bytes. cbn [r_cookie orig_sender dest_sock]. by rewrite v4sock_bytes. }
  rewrite Eb in Hw. fold (m_register P2P_DEFAULT_TTL 0 nowhere y) in Hw.
  rewrite (packet_of _ _ n Hw) by (rewrite length_register by (done || apply nowhere_ok); unfold P2P_PKT_BUF_SIZE; lia). cbn [mbind option_bind].
  unfold Edge.sendto_sock. by rewrite Hsn, Z.eqb_refl.
Qed.

Lemma send_ack_ok peer reg e : e_community e = c -> r_cookie reg = cookie -> family peer = AF_INET ->
  send_register_ack peer reg e = Some [Send (Datagram (at_addr peer) m_ack)].
Proof.
  intros Hcom Hck Hp. unfold send_register_ack. rewrite Hcom, Hck. fold (head P2P_DEFAULT_TTL MSG_TYPE_REGISTER_ACK 0).
  assert (exists n, writes (encode_REGISTER_ACK (head P2P_DEFAULT_TTL MSG_TYPE_REGISTER_ACK 0) (REGISTER_ACK cookie sock0)) m_ack n) as [n Hw].
  { unfold encode_REGISTER_ACK, m_ack, REGISTER_ACK_bytes. eexists. eapply writes_bind; [apply encode_common_writes, head_sized|].
    eapply writes_bind; [by apply encode_cookie_writes|]. apply writes_ret. }
  rewrite (packet_of _ _ n Hw) by (rewrite length_ack; unfold P2P_PKT_BUF_SIZE; lia). cbn [mbind option_bind].
  unfold Edge.sendto_sock. by rewrite Hp, Z.eqb_refl.
Qed.

Lemma send_packet_ok dst e : e_community e = c -> family dst = AF_INET -> send_packet dst e = Some [Send (Datagram (at_addr dst) m_packet)].
Proof.
  intros Hcom Hd. unfold send_packet. rewrite Hcom. fold (head P2P_DEFAULT_TTL MSG_TYPE_PACKET 0).
  pose proof (encode_common_writes _ (head_sized P2P_DEFAULT_TTL MSG_TYPE_PACKET 0)) as Hw.
  rewrite (packet_of _ _ _ Hw) by (rewrite length_common by apply head_sized; unfold P2P_PKT_BUF_SIZE; lia). cbn [mbind option_bind].
  unfold Edge.sendto_sock. by rewrite Hd, Z.eqb_refl.
Qed.

(** ** What the edges know *)

Lemma listed_find l sk : listed l (at_addr sk) <-> is_Some (find_peer_by_addr l sk).
Proof.
  split.
  - intros (y & Hy & Ey). destruct (find_peer_by_addr _ sk) eqn:E; [by eexists|]. by apply (proj1 (find_peer_none _ _) E) in Hy.
  - intros [i E]. destruct (find_peer_some _ _ _ E) as (y & Ey & Ea & _). exists y. split; [by apply list_elem_of_lookup_2 in Ey|done].
Qed.
Lemma unlisted_find l sk : ~ listed l (at_addr sk) -> find_peer_by_addr l sk = None.
Proof. intros H. apply eq_None_not_Some. by rewrite <- listed_find. Qed.

(** The phases of an edge with respect to the other one. *)
Record ready (e : p2p_edge) : Prop := Ready { rd_community : e_community e = c; rd_callback : puch_callback e = true }.

Hypothesis Hjunk : length junk = 12%nat.
Hypothesis Hcmn : common_sized cmn0.
Hypothesis Hmem : forall x y, memcmp_sock x y = true -> x = y.

Abbreviation read := (readFromIPSocket memcmp_sock junk cmn0 f0).

Lemma read_register t f x0 y0 z time e : 0 <= t < 256 -> word_range f -> Z.land f P2P_FLAGS_TYPE_MASK = 0 ->
  endpoint_ok x0 -> endpoint_ok y0 -> endpoint_ok z -> e_community e = c ->
  let orig := if f =? P2P_FLAGS_FROM_SUPERNODE then v4sock x0 else Sock AF_INET z.1 (z.2 ++ junk) in
  let from := if f =? P2P_FLAGS_FROM_SUPERNODE then 0 else Z.land f P2P_FLAGS_FROM_SUPERNODE in
  read time (sockaddr_of z) (m_register t f x0 y0) (length (m_register t f x0 y0)) e =
  ('(e, out) ← check_peer memcmp_sock time from orig orig e;
   out' ← send_register_ack orig (REGISTER cookie (v4sock x0) (v4sock y0)) e;
   Some (e, out ++ out')).
Proof.
  intros Ht Hf Hm Hx Hy Hz Hcom orig from. unfold readFromIPSocket. rewrite length_register by done. change (40 =? 0)%nat with false. cbv iota.
  assert (REGISTER_ok (REGISTER cookie (v4sock x0) (v4sock y0))) as Hreg by (split; [done|]; split; by apply v4sock_ok).
  destruct (decode_message _ _ _ _ _ (REGISTER cookie0 sock0 sock0) Hcmn
    (REGISTER_roundtrip f0 (head t MSG_TYPE_REGISTER f) _ (head_ok t MSG_TYPE_REGISTER f Ht ltac:(unfold MSG_TYPE_REGISTER; lia) Hf Hm) Hreg))
    as (n & m & cu & c' & E1 & -> & E2 & _).
  fold (m_register t f x0 y0) in E1, E2. rewrite length_register in E1 by done. rewrite E1. cbn [mbind option_bind]. change (20 <? 0) with false. cbv iota.
  rewrite bool_decide_true by done. cbn [pc head]. change (MSG_TYPE_REGISTER =? MSG_TYPE_PACKET) with false. change (MSG_TYPE_REGISTER =? MSG_TYPE_REGISTER) with true. cbv iota.
  unfold on_register. rewrite E2. cbn [mbind option_bind flags head P2pWire.orig_sender]. rewrite (proj2 (proj2 (sockaddr_of_ok z Hz))).
  unfold orig, from. by destruct (f =? P2P_FLAGS_FROM_SUPERNODE).
Qed.

Lemma read_ack z time e : endpoint_ok z -> e_community e = c ->
  read time (sockaddr_of z) m_ack (length m_ack) e =
  (e ← set_peer_operational time (Sock AF_INET z.1 (z.2 ++ junk)) e; _ ← ensure (puch_callback e); Some (e, [PunchCallback])).
Proof.
  intros Hz Hcom. unfold readFromIPSocket. rewrite length_ack. change (24 =? 0)%nat with false. cbv iota.
  assert (REGISTER_ACK_ok (head 2 MSG_TYPE_REGISTER_ACK 0) (REGISTER_ACK cookie sock0)) as Hack by (split; [done|by right]).
  destruct (decode_message _ _ _ _ _ (REGISTER_ACK cookie0 sock0) Hcmn
    (REGISTER_ACK_roundtrip f0 (head 2 MSG_TYPE_REGISTER_ACK 0) _
      (head_ok 2 MSG_TYPE_REGISTER_ACK 0 ltac:(lia) ltac:(unfold MSG_TYPE_REGISTER_ACK; lia) ltac:(unfold word_range; lia) eq_refl) Hack))
    as (n & m & cu & c' & E1 & -> & E2 & _).
  fold m_ack in E1, E2. rewrite length_ack in E1. rewrite E1. cbn [mbind option_bind]. change (20 <? 0) with false. cbv iota.
  rewrite bool_decide_true by done. cbn [pc head]. change (MSG_TYPE_REGISTER_ACK =? MSG_TYPE_PACKET) with false.
  change (MSG_TYPE_REGISTER_ACK =? MSG_TYPE_REGISTER) with false. change (MSG_TYPE_REGISTER_ACK =? MSG_TYPE_REGISTER_ACK) with true. cbv iota.
  unfold on_register_ack. rewrite E2. cbn [mbind option_bind]. by rewrite (proj2 (proj2 (sockaddr_of_ok z Hz))).
Qed.

Lemma read_packet z time e : e_community e = c -> read time (sockaddr_of z) m_packet (length m_packet) e = Some (e, []).
Proof.
  intros Hcom. unfold readFromIPSocket. rewrite length_packet. change (20 =? 0)%nat with false. cbv iota.
  pose proof (PACKET_roundtrip f0 (head 2 MSG_TYPE_PACKET 0) (PACKET sock0)
    (head_ok 2 MSG_TYPE_PACKET 0 ltac:(lia) ltac:(unfold MSG_TYPE_PACKET; lia) ltac:(unfold word_range; lia) eq_refl) (or_intror (conj eq_refl eq_refl))) as Hw.
  destruct (decode_message _ _ _ _ _ (PACKET sock0) Hcmn Hw) as (n & m & cu & c' & E1 & -> & _).
  change (sock_bytes (p_sock (PACKET sock0))) with (@nil Z) in E1. rewrite app_nil_r in E1. fold m_packet in E1.
  rewrite length_packet in E1. rewrite E1. cbn [mbind option_bind]. change (20 <? 0) with false. cbv iota.
  by rewrite bool_decide_true.
Qed.

(** ** The handlers of an edge, by what it knows of the other *)

Lemma try_new time flags dst sn e : ~ tries e (at_addr dst) -> exists e',
  try_send_register time flags dst sn e = (out ← send_register flags sn dst e'; Some (e', out)) /\
  e_community e' = e_community e /\ puch_callback e' = puch_callback e /\ tries e' (at_addr dst).
Proof.
  intros Ht. eexists. unfold try_send_register. rewrite (unlisted_find _ _ Ht). split; [reflexivity|]. split_and!; try done.
  exists (PeerInfo (replicate P2P_COMMUNITY_SIZE 0) dst time). split; [constructor|done].
Qed.

Lemma try_again time flags dst sn e : tries e (at_addr dst) -> try_send_register time flags dst sn e = Some (e, []).
Proof. intros [i E]%listed_find. unfold try_send_register. by rewrite E. Qed.

Lemma memcmp_found dst l i : memcmp_find memcmp_sock dst l = Some i -> exists x, l !! i = Some x /\ sock x = dst.
Proof.
  revert i. induction l as [|x l IH]; intros i E; [done|]. cbn in E. destruct (memcmp_sock dst (sock x)) eqn:Em.
  - injection E as <-. exists x. split; [done|]. symmetry. by apply Hmem.
  - apply fmap_Some in E as (j & E & ->). by apply IH.
Qed.

Lemma sock_equal_refl x : sock_equal x x = 0.
Proof. unfold sock_equal. rewrite !Z.eqb_refl. cbn [negb]. by rewrite bool_decide_true. Qed.

(** A known peer is at most seen again. *)
Lemma update_known flags dst time e : exists l, update_peer_address memcmp_sock flags dst dst time time e = Some (with_peers l (pending_peers e) e, []) /\
  forall x, listed l x <-> knows e x.
Proof.
  assert (exists l, Some (e, @nil output) = Some (with_peers l (pending_peers e) e, []) /\ forall x, listed l x <-> knows e x) as Hsame.
  { exists (known_peers e). split; [by destruct e|done]. }
  unfold update_peer_address. destruct (is_empty_ip_address dst); [done|].
  destruct (memcmp_find memcmp_sock dst (known_peers e)) as [i|] eqn:Em; [|done]. destruct (memcmp_found _ _ _ Em) as (y & Ey & <-).
  rewrite Ey. cbn [mbind option_bind]. rewrite sock_equal_refl. cbn [Z.eqb negb]. eexists. split; [reflexivity|]. intros x. unfold knows, listed.
  split; intros (z & Hz & Ez).
  - apply list_elem_of_lookup in Hz as [j Hj]. apply list_lookup_insert_Some in Hj as [(_ & <- & _)|[_ Hj]].
    + exists y. split; [by apply list_elem_of_lookup_2 in Ey|done].
    + exists z. split; [by apply list_elem_of_lookup_2 in Hj|done].
  - apply list_elem_of_lookup in Hz as [j Hj]. destruct (decide (i = j)) as [<-|Hne].
    + rewrite Ey in Hj. injection Hj as <-. eexists. split; [apply (list_elem_of_lookup_2 _ i), list_lookup_insert_eq; by apply lookup_lt_Some in Ey|done].
    + exists z. split; [|done]. apply (list_elem_of_lookup_2 _ j). by rewrite list_lookup_insert_ne.
Qed.

(** The edge that is called hears of the other one from the supernode: it registers with
    it and acknowledges. *)
Lemma called_hears x y z time e : ready e -> endpoint_ok x -> endpoint_ok y -> endpoint_ok z -> ~ knows e x -> ~ tries e x ->
  exists e', read time (sockaddr_of z) (m_register 1 P2P_FLAGS_FROM_SUPERNODE x y) (length (m_register 1 P2P_FLAGS_FROM_SUPERNODE x y)) e =
      Some (e', [Send (Datagram x (m_register 2 0 nowhere x)); Send (Datagram x m_ack)]) /\ ready e' /\ tries e' x.
Proof.
  intros [R1 R2] Hx Hy Hz Hk Ht. rewrite read_register; [|lia|unfold word_range, P2P_FLAGS_FROM_SUPERNODE; lia|done..].
  rewrite Z.eqb_refl. cbv zeta. pose proof (at_addr_sock x (replicate 12 0) Hx) as Ea. fold (v4sock x) in Ea.
  assert (~ tries e (at_addr (v4sock x))) as Ht' by by rewrite Ea.
  unfold check_peer. rewrite (unlisted_find (known_peers e)) by by rewrite Ea.
  destruct (try_new time 0 (v4sock x) (v4sock x) e Ht') as (e' & -> & E1 & E2 & E3). rewrite Ea in E3.
  unfold v4sock at 2. rewrite (send_register_ok (v4sock x) x (replicate 12 0)) by (done || congruence). rewrite Ea. cbn [mbind option_bind].
  rewrite (send_ack_ok (v4sock x)) by (done || congruence). rewrite Ea. cbn [mbind option_bind app].
  exists e'. split; [done|]. split; [split; congruence|done].
Qed.

(** A registration from the other one that is known or tried is acknowledged. *)
Lemma caller_hears x y time e : ready e -> endpoint_ok x -> endpoint_ok y -> knows e y \/ tries e y ->
  exists e', read time (sockaddr_of y) (m_register 2 0 nowhere x) (length (m_register 2 0 nowhere x)) e =
      Some (e', [Send (Datagram y m_ack)]) /\ ready e' /\ (knows e y -> knows e' y) /\ (tries e y -> tries e' y).
Proof.
  intros [R1 R2] Hx Hy Hkt. rewrite read_register; [|lia|unfold word_range; lia|done|apply nowhere_ok|done..].
  change (0 =? P2P_FLAGS_FROM_SUPERNODE) with false. cbv zeta iota. set (sk := Sock AF_INET y.1 (y.2 ++ junk)).
  pose proof (at_addr_sock y junk Hy) as Ea. fold sk in Ea.
  assert (exists e', check_peer memcmp_sock time (Z.land 0 P2P_FLAGS_FROM_SUPERNODE) sk sk e = Some (e', []) /\ ready e' /\
    (knows e y -> knows e' y) /\ (tries e y -> tries e' y)) as (e' & -> & [E1 E2] & E3 & E4).
  { unfold check_peer. destruct (find_peer_by_addr (known_peers e) sk) as [i|] eqn:Ef.
    - destruct (update_known (Z.land 0 P2P_FLAGS_FROM_SUPERNODE) sk time e) as (l & -> & Hl). eexists. split; [reflexivity|]. split; [by split|].
      split; [intros H; by apply Hl|done].
    - destruct Hkt as [Hk|Ht].
      + exfalso. assert (is_Some (find_peer_by_addr (known_peers e) sk)) as [i Hi] by (apply listed_find; by rewrite Ea). congruence.
      + exists e. rewrite try_again by by rewrite Ea. split; [done|]. split; [by split|done]. }
  cbn [mbind option_bind]. rewrite (send_ack_ok sk) by done. rewrite Ea. cbn [mbind option_bind app]. exists e'. split; [done|]. split; [by split|done].
Qed.

(** An acknowledgement from a peer that was tried makes it a known one. *)
Lemma ack_heard y time e : ready e -> endpoint_ok y -> tries e y ->
  exists e', read time (sockaddr_of y) m_ack (length m_ack) e = Some (e', [PunchCallback]) /\ ready e' /\ knows e' y.
Proof.
  intros [R1 R2] Hy Ht. rewrite read_ack by done. set (sk := Sock AF_INET y.1 (y.2 ++ junk)). pose proof (at_addr_sock y junk Hy) as Ea. fold sk in Ea.
  unfold set_peer_operational. assert (is_Some (find_peer_by_addr (pending_peers e) sk)) as [i Hi] by (apply listed_find; by rewrite Ea).
  rewrite Hi. destruct (find_peer_some _ _ _ Hi) as (z & -> & _). cbn [mbind option_bind puch_callback with_peers]. rewrite R2. cbn [ensure mbind option_bind].
  eexists. split; [reflexivity|]. split; [by split|]. eexists. split; [constructor|]. done.
Qed.

(** ** The run *)

Hypothesis Hcmn_ttl : byte_range (ttl cmn0).
Hypothesis Ha : endpoint_ok a.
Hypothesis Hb : endpoint_ok b.
Hypothesis Hs : endpoint_ok s.
Hypothesis Hdist : a <> b /\ a <> s /\ b <> s.

(** The supernode hands a REGISTER on, with the address it came from. *)
Lemma supernode_forwards time sn : sn_ok sn -> b ∈ addrs (edges sn) ->
  exists sn', process_udp sendto junk cmn0 f0 (sockaddr_of a) (m_register 2 0 nowhere b) (length (m_register 2 0 nowhere b)) time sn =
    Some (0, sn', [Datagram b (m_register 1 P2P_FLAGS_FROM_SUPERNODE a b)]) /\ sn_ok sn' /\ edges sn' = edges sn.
Proof.
  intros Hsn Hin. pose proof (length_register 2 0 nowhere b nowhere_ok Hb) as Hlen. set (m := m_register 2 0 nowhere b) in *.
  assert (REGISTER_ok (REGISTER cookie (v4sock nowhere) (v4sock b))) as Hreg by (split; [done|]; split; apply v4sock_ok; [apply nowhere_ok|done]).
  destruct (decode_message _ _ _ _ _ (REGISTER cookie0 sock0 sock0) Hcmn
    (REGISTER_roundtrip f0 (head 2 MSG_TYPE_REGISTER 0) _
      (head_ok 2 MSG_TYPE_REGISTER 0 ltac:(lia) ltac:(unfold MSG_TYPE_REGISTER; lia) ltac:(unfold word_range; lia) eq_refl) Hreg))
    as (n & k & [rem idx] & c' & E1 & -> & E2 & ->).
  fold (m_register 2 0 nowhere b) in E1, E2. fold m in E1, E2.
  destruct (decode_common_cases cmn0 m (length m) 0 Hcmn Hcmn_ttl ltac:(lia)) as (n' & cmn' & rem' & idx' & E1' & Ei & Hn).
  rewrite E1 in E1'. injection E1' as <- <- <- <-. destruct Hn as [?|[_ Hn]]; [lia|].
  destruct (process_register_ok sendto junk f0 Hjunk (head 1 MSG_TYPE_REGISTER 0) (sockaddr_of a) m (length m) rem idx time sn Hsn
    (proj1 (sockaddr_of_ok a Ha)) (head_sized _ _ _) ltac:(lia) ltac:(rewrite Hlen; unfold P2P_SN_PKTBUF_SIZE; lia) ltac:(lia) ltac:(lia))
    as (k' & reg & rem2 & idx2 & st & E3 & _ & E4).
  rewrite E2 in E3. assert (reg = REGISTER cookie (v4sock nowhere) (v4sock b)) as -> by congruence. assert (idx2 = length m) as -> by congruence.
  cbn [dest_sock] in E4. rewrite (at_addr_sock b (replicate 12 0) Hb : at_addr (v4sock b) = b) in E4.
  rewrite bool_decide_true in E4 by done.
  assert (forwarded (head 1 MSG_TYPE_REGISTER 0) (sockaddr_of a) (REGISTER cookie (v4sock nowhere) (v4sock b)) (take (length m - length m) (drop (length m) m)) =
    m_register 1 P2P_FLAGS_FROM_SUPERNODE a b) as Ef.
  { unfold forwarded. rewrite Nat.sub_diag, take_0, app_nil_r. cbn [ttl pc community head r_cookie dest_sock P2pWire.orig_sender].
    rewrite (proj2 (proj2 (sockaddr_of_ok a Ha))). done. }
  rewrite Ef in E4. exists (with_stats st sn). split; [|split; [|done]].
  - unfold process_udp. rewrite E1. cbn [mbind option_bind]. change (20 <? 0) with false. cbv iota. cbn [ttl head]. change (2 <? 1) with false. cbv iota zeta.
    cbn [pc head flags community]. change (MSG_TYPE_REGISTER =? MSG_TYPE_PACKET) with false. change (MSG_TYPE_REGISTER =? MSG_TYPE_HEARTBEAT) with false.
    change (MSG_TYPE_REGISTER =? MSG_TYPE_REGISTER) with true. cbv iota. change (2 - 1) with 1. fold (head 1 MSG_TYPE_REGISTER 0). rewrite E4. reflexivity.
  - by destruct Hsn.
Qed.

Definition transit_of (x y : endpoint) (m : list Z) : transit := Transit x (Datagram y m).
Definition p_early : transit := transit_of a b m_packet.
Definition p_call : transit := transit_of a s (m_register 2 0 nowhere b).
Definition p_told : transit := transit_of s b (m_register 1 P2P_FLAGS_FROM_SUPERNODE a b).
Definition p_reg : transit := transit_of b a (m_register 2 0 nowhere a).
Definition p_ack : transit := transit_of b a m_ack.
Definition p_back : transit := transit_of a b m_ack.

(** The phases of the exchange: how many datagrams are still to arrive, whether [b] has
    sent to [a], and what is in flight besides the first datagram. *)
Inductive phase (ea eb : p2p_edge) : nat -> bool -> list transit -> Prop :=
  | ph_called : tries ea b -> ~ knows eb a -> ~ tries eb a -> phase ea eb 5 false [p_call]
  | ph_forwarded : tries ea b -> ~ knows eb a -> ~ tries eb a -> phase ea eb 4 false [p_told]
  | ph_heard : tries ea b -> tries eb a -> phase ea eb 3 true [p_reg; p_ack]
  | ph_answered : tries ea b -> tries eb a -> phase ea eb 2 true [p_ack; p_back]
  | ph_acked : knows ea b -> tries eb a -> phase ea eb 2 true [p_reg]
  | ph_back : knows ea b -> tries eb a -> phase ea eb 1 true [p_back]
  | ph_late : tries ea b -> knows eb a -> phase ea eb 1 true [p_ack]
  | ph_done : knows ea b -> knows eb a -> phase ea eb 0 true [].

Definition early (o : bool) : list transit := if o then [p_early] else [].

Record exchange (n : nat) (w : world) : Prop := Exchange {
  ex_a : ready (wa w);
  ex_b : ready (wb w);
  ex_sn : sn_ok (ws w) /\ b ∈ addrs (edges (ws w));
  ex_holes : (a, b) ∈ holes w /\ (b, s) ∈ holes w;
  ex_phase : exists k o l e, phase (wa w) (wb w) k o l /\ (o = true -> (b, a) ∈ holes w) /\
    flight w ≡ₚ early e ++ l /\ (n + k + length (early e) = 6)%nat
}.

Lemma picked (l1 l2 E k1 k2 : list transit) t : l1 ++ t :: l2 ≡ₚ E ++ k1 ++ t :: k2 -> l1 ++ l2 ≡ₚ E ++ k1 ++ k2.
Proof.
  intros H. apply (Permutation_cons_inv (a := t)). rewrite Permutation_middle, H. rewrite !app_assoc. symmetry. apply Permutation_middle.
Qed.

Lemma receive_a time m w e' out : (a, b) ∈ holes w -> edge_receive time (transit_of b a m) (wa w) = Some (e', out) ->
  receive time (transit_of b a m) w = Some (post a (sends out) (with_a e' w)).
Proof.
  intros Hh E. unfold receive. cbn [d_to t_data t_from transit_of]. rewrite bool_decide_false by tauto. rewrite bool_decide_true by done.
  rewrite bool_decide_true by done. by rewrite E.
Qed.

Lemma receive_b time x m w e' out : (b, x) ∈ holes w -> edge_receive time (transit_of x b m) (wb w) = Some (e', out) ->
  receive time (transit_of x b m) w = Some (post b (sends out) (with_b e' w)).
Proof.
  intros Hh E. unfold receive. cbn [d_to t_data t_from transit_of]. rewrite bool_decide_false by tauto. rewrite bool_decide_true by done.
  rewrite bool_decide_false by (intros ->; tauto). rewrite bool_decide_true by done. by rewrite E.
Qed.

Lemma receive_early time w : ready (wb w) -> exists h, receive time p_early w = Some (World (wa w) (wb w) (ws w) (flight w) h) /\ h = holes w.
Proof.
  intros [R1 R2]. exists (holes w). split; [|done]. destruct (decide ((b, a) ∈ holes w)) as [Hh|Hh].
  - unfold p_early. rewrite (receive_b time a m_packet w (wb w) [] Hh (read_packet a time (wb w) R1)).
    cbn [sends flat_map]. unfold post. cbn [map app]. by rewrite app_nil_r.
  - unfold receive, p_early. cbn [d_to t_data t_from transit_of]. rewrite bool_decide_false by tauto. rewrite bool_decide_false by done. by destruct w.
Qed.

Ltac conclude := split; cbn [wa wb ws flight holes post with_a with_b with_s with_flight sends flat_map map app]; [assumption|assumption|..].

Lemma exchange_step n w l1 t l2 time : exchange n w -> flight w = l1 ++ t :: l2 ->
  exists w', receive time t (with_flight (l1 ++ l2) w) = Some w' /\ exchange (S n) w'.
Proof.
  intros [Ra Rb [Hsn Hin] [Hab Hbs] (k & o & l & e & Hph & Ho & Hfl & Hn)] Ef. rewrite Ef in Hfl.
  assert (t ∈ early e ++ l) as Ht by (rewrite <- Hfl; apply elem_of_app; right; constructor).
  apply elem_of_app in Ht as [Ht|Ht].
  { destruct e; [|by apply not_elem_of_nil in Ht]. apply list_elem_of_singleton in Ht as ->.
    destruct (receive_early time (with_flight (l1 ++ l2) w) Rb) as (h & E & ->). eexists. split; [exact E|]. conclude; [by split|by split|].
    exists k, o, l, false. split_and!; try done; [|cbn in *; lia]. by apply (picked l1 l2 [] [] l p_early). }
  destruct Hph as [H1 H2 H3|H1 H2 H3|H1 H2|H1 H2|H1 H2|H1 H2|H1 H2|H1 H2].
  - apply list_elem_of_singleton in Ht as ->. pose proof (picked l1 l2 (early e) [] [] _ Hfl) as Hrest.
    destruct (supernode_forwards time (ws w) Hsn Hin) as (sn & E & Hsn' & Esn).
    eexists. split; [unfold receive, p_call; cbn [d_to t_data t_from transit_of d_bytes]; rewrite bool_decide_true by done; cbn [ws with_flight]; rewrite E; reflexivity|].
    conclude; [by rewrite Esn|split; by right|]. exists 4%nat, false, [p_told], e. split_and!; [by apply ph_forwarded|done| |lia].
    rewrite Hrest. by rewrite app_nil_r.
  - apply list_elem_of_singleton in Ht as ->. pose proof (picked l1 l2 (early e) [] [] _ Hfl) as Hrest.
    destruct (called_hears a b s time (wb w) Rb Ha Hb Hs H2 H3) as (eb & E & Rb' & Ht').
    eexists. split; [apply (receive_b time s _ (with_flight (l1 ++ l2) w) eb _ Hbs E)|].
    conclude; [by split|split; by do 2 right|]. exists 3%nat, true, [p_reg; p_ack], e. split_and!; [by apply ph_heard|intros _; by left| |lia].
    rewrite Hrest. by rewrite app_nil_r.
  - apply elem_of_cons in Ht as [->|Ht%list_elem_of_singleton].
    + pose proof (picked l1 l2 (early e) [] [p_ack] _ Hfl) as Hrest.
      destruct (caller_hears a b time (wa w) Ra Ha Hb (or_intror H1)) as (ea & E & Ra' & _ & Ht').
      eexists. split; [apply (receive_a time _ (with_flight (l1 ++ l2) w) ea _ Hab E)|].
      conclude; [by split|split; by right|]. exists 2%nat, true, [p_ack; p_back], e. split_and!; [apply ph_answered; by try apply Ht'|intros _; right; by apply Ho| |lia].
      rewrite Hrest. by rewrite <- app_assoc.
    + subst t. pose proof (picked l1 l2 (early e) [p_reg] [] _ Hfl) as Hrest.
      destruct (ack_heard b time (wa w) Ra Hb H1) as (ea & E & Ra' & Hk).
      eexists. split; [apply (receive_a time _ (with_flight (l1 ++ l2) w) ea _ Hab E)|].
      conclude; [by split|by split|]. exists 2%nat, true, [p_reg], e. split_and!; [by apply ph_acked|done| |lia]. by rewrite Hrest, app_nil_r.
  - apply elem_of_cons in Ht as [->|Ht%list_elem_of_singleton].
    + pose proof (picked l1 l2 (early e) [] [p_back] _ Hfl) as Hrest.
      destruct (ack_heard b time (wa w) Ra Hb H1) as (ea & E & Ra' & Hk).
      eexists. split; [apply (receive_a time _ (with_flight (l1 ++ l2) w) ea _ Hab E)|].
      conclude; [by split|by split|]. exists 1%nat, true, [p_back], e. split_and!; [by apply ph_back|done| |lia]. by rewrite Hrest, app_nil_r.
    + subst t. pose proof (picked l1 l2 (early e) [p_ack] [] _ Hfl) as Hrest.
      destruct (ack_heard a time (wb w) Rb Ha H2) as (eb & E & Rb' & Hk).
      eexists. split; [apply (receive_b time a _ (with_flight (l1 ++ l2) w) eb _ (Ho eq_refl) E)|].
      conclude; [by split|by split|]. exists 1%nat, true, [p_ack], e. split_and!; [by apply ph_late|done| |lia]. by rewrite Hrest, app_nil_r.
  - apply list_elem_of_singleton in Ht as ->. pose proof (picked l1 l2 (early e) [] [] _ Hfl) as Hrest.
    destruct (caller_hears a b time (wa w) Ra Ha Hb (or_introl H1)) as (ea & E & Ra' & Hk & _).
    eexists. split; [apply (receive_a time _ (with_flight (l1 ++ l2) w) ea _ Hab E)|].
    conclude; [by split|split; by right|]. exists 1%nat, true, [p_back], e. split_and!; [apply ph_back; by try apply Hk|intros _; right; by apply Ho| |lia].
    rewrite Hrest. by rewrite app_nil_r.
  - apply list_elem_of_singleton in Ht as ->. pose proof (picked l1 l2 (early e) [] [] _ Hfl) as Hrest.
    destruct (ack_heard a time (wb w) Rb Ha H2) as (eb & E & Rb' & Hk).
    eexists. split; [apply (receive_b time a _ (with_flight (l1 ++ l2) w) eb _ (Ho eq_refl) E)|].
    conclude; [by split|by split|]. exists 0%nat, true, [], e. split_and!; [by apply ph_done|done| |lia]. by rewrite Hrest, app_nil_r.
  - apply list_elem_of_singleton in Ht as ->. pose proof (picked l1 l2 (early e) [] [] _ Hfl) as Hrest.
    destruct (ack_heard b time (wa w) Ra Hb H1) as (ea & E & Ra' & Hk).
    eexists. split; [apply (receive_a time _ (with_flight (l1 ++ l2) w) ea _ Hab E)|].
    conclude; [by split|by split|]. exists 0%nat, true, [], e. split_and!; [by apply ph_done|done| |lia]. by rewrite Hrest, app_nil_r.
  - by apply not_elem_of_nil in Ht.
Qed.

Lemma start_exchange time rest w0 : length rest = 12%nat -> before_punch w0 -> exists w, start time rest w0 = Some w /\ exchange 0 w.
Proof.
  intros Hr [[C1 C2] (S1 & S2 & S3 & S4) Hcb (snk & Esn & Eas & Efs) (Hsn & Hin & Hbs) Hq].
  set (dest := Sock AF_INET b.1 (b.2 ++ rest)). pose proof (at_addr_sock b rest Hb) as Ea. fold dest in Ea.
  unfold start, punching_hole. fold dest. change (sn_ips (with_punch true (wa w0)) !! sn_idx (with_punch true (wa w0))) with (sn_ips (wa w0) !! sn_idx (wa w0)).
  rewrite Esn. cbn [mbind option_bind]. rewrite (send_packet_ok dest (with_punch true (wa w0))) by done. cbn [mbind option_bind].
  destruct (try_new time 0 dest snk (with_punch true (wa w0))) as (ea & -> & E1 & E2 & E3); [by rewrite Ea|]. rewrite Ea in E3 |- *.
  unfold dest. rewrite (send_register_ok snk b rest ea) by (done || (rewrite E1; done)). cbn [mbind option_bind]. eexists. split; [reflexivity|].
  assert (ready ea) as Ra by (split; [by rewrite E1|by rewrite E2]). assert (ready (wb w0)) as Rb by by split.
  rewrite Eas. conclude; [done|split; [by left|by do 2 right]|].
  exists 5%nat, false, [p_call], true. split_and!; [by apply ph_called|done| |done]. by rewrite Hq.
Qed.

(** C7: Hole punching works, in whatever order the network delivers. Two edges of one
    community are registered with the supernode, do not know each other and have neither
    the other pending, and nothing is in flight; the edge that is called has the callback
    for new peers that its own [punching_hole] has set (an edge without one calls a null
    pointer at the first new peer: [passive_edge_crashes]). One calls [punching_hole] for
    the other. Then at most six datagrams arrive in all, none being lost or coming twice,
    each handler that gets one returns, and when none is left in flight each of the two
    edges knows the other as a peer that it can send to directly; and this although the
    translation in front of each lets in only what comes from an address it has sent to. *)
Theorem hole_punched rest w0 n w :
  length rest = 12%nat -> before_punch w0 ->
  (forall time, is_Some (start time rest w0)) /\
  (punched w0 rest n w -> (n <= 6)%nat /\
    (forall l1 t l2 time, flight w = l1 ++ t :: l2 -> is_Some (receive time t (with_flight (l1 ++ l2) w))) /\
    (flight w = [] -> n = 6%nat /\ knows (wa w) b /\ knows (wb w) a)).
Proof.
  intros Hr Hw0. split; [intros time; destruct (start_exchange time rest w0 Hr Hw0) as (w1 & -> & _); by eexists|].
  intros Hp. assert (exchange n w) as Hex.
  { induction Hp as [time w E|n w l1 t l2 time w' _ IH Ef E].
    - destruct (start_exchange time rest w0 Hr Hw0) as (w1 & E1 & Hex). rewrite E in E1. by injection E1 as <-.
    - destruct (exchange_step n w l1 t l2 time IH Ef) as (w1 & E1 & Hex). rewrite E in E1. by injection E1 as <-. }
  split_and!.
  - destruct Hex as [_ _ _ _ (k & o & l & e & _ & _ & _ & Hn)]. lia.
  - intros l1 t l2 time Ef. destruct (exchange_step n w l1 t l2 time Hex Ef) as (w1 & -> & _). by eexists.
  - intros Ef. destruct Hex as [_ _ _ _ (k & o & l & e & Hph & _ & Hfl & Hn)]. rewrite Ef in Hfl. apply Permutation_nil_l in Hfl.
    destruct e; [done|]. cbn in Hfl. subst l. inversion Hph; subst. split; [cbn in Hn; lia|done].
Qed.
End Punch.

(** ** A sample *)

Definition sample_a : endpoint := (1000, [192; 0; 2; 1]).
Definition sample_b : endpoint := (2000, [198; 51; 100; 7]).
Definition sample_s : endpoint := (7654, [203; 0; 113; 5]).
Definition sample_community : list Z := replicate 16 67.
Definition sample_memcmp (x y : p2p_sock) : bool :=
  (family x =? family y) && (port x =? port y) && bool_decide (addr x = addr y).
Definition sample_punch_edge (callback : bool) : p2p_edge :=
  with_punch callback (edge_init (v4sock sample_s) [v4sock sample_s] sample_community true).
Definition sample_sn : p2p_sn :=
  Sn 0 (stats init_sn) [PeerInfo sample_community (v4sock sample_b) 5; PeerInfo sample_community (v4sock sample_a) 3] 0.
Definition sample_world (callback : bool) : world :=
  World (sample_punch_edge false) (sample_punch_edge callback) sample_sn [] [(sample_b, sample_s); (sample_a, sample_s)].
Definition sample_receive : Z -> transit -> world -> option world :=
  receive (fun _ m => Z.of_nat (length m)) sample_memcmp (replicate 12 0) sample_cmn 0 sample_a sample_b sample_s.

(** The network that delivers the latest datagram first. *)
Definition deliver_last (w : world) : option world :=
  match rev (flight w) with
  | [] => None
  | t :: l => sample_receive 10 t (with_flight (rev l) w)
  end.
Definition sample_end (callback : bool) : option world :=
  w ← start sample_a sample_b 10 (replicate 12 0) (sample_world callback);
  w ← deliver_last w; w ← deliver_last w; w ← deliver_last w; w ← deliver_last w; w ← deliver_last w; deliver_last w.

Lemma sample_memcmp_ok x y : sample_memcmp x y = true -> x = y.
Proof.
  unfold sample_memcmp. rewrite !andb_true_iff, !Z.eqb_eq, bool_decide_eq_true. destruct x, y. cbn. by intros [[-> ->] ->].
Qed.

Abbreviation sample_punched callback :=
  (punched (fun _ m => Z.of_nat (length m)) sample_memcmp (replicate 12 0) sample_cmn 0 sample_a sample_b sample_s (sample_world callback) (replicate 12 0)).

Lemma punched_last callback n w w' : sample_punched callback n w -> deliver_last w = Some w' -> sample_punched callback (S n) w'.
Proof.
  unfold deliver_last. intros Hp E. destruct (rev (flight w)) as [|t l] eqn:Er; [done|].
  apply (punch_deliver _ _ _ _ _ _ _ _ _ _ n w (rev l) t [] 10 w' Hp); [|by rewrite app_nil_r].
  by rewrite <- (rev_involutive (flight w)), Er.
Qed.

Lemma sample_before : before_punch sample_a sample_b sample_s sample_community (sample_world true).
Proof.
  split; cbn; try done.
  - split_and!; by intros (y & Hy%not_elem_of_nil & _).
  - eexists. by split_and!.
  - split_and!; [split|..].
    + apply (bool_decide_unpack _). by vm_compute.
    + intros x [->|[->|Hx%not_elem_of_nil]%elem_of_cons]%elem_of_cons; done.
    + constructor.
    + constructor.
Qed.

Lemma sample_endpoints : endpoint_ok sample_a /\ endpoint_ok sample_b /\ endpoint_ok sample_s.
Proof. split_and!; (split; [unfold word_range; cbn; lia|done]). Qed.

Lemma sample_distinct : sample_a <> sample_b /\ sample_a <> sample_s /\ sample_b <> sample_s.
Proof. by split_and!. Qed.

Lemma sample_end_punched callback w : sample_end callback = Some w -> sample_punched callback 6 w.
Proof.
  unfold sample_end. intros E. repeat (apply bind_Some in E as (? & ? & E)).
  do 6 (eapply punched_last; [|eassumption]). by eapply punch_start.
Qed.

Lemma sample_quiet : flight <$> sample_end true = Some [].
Proof. by vm_compute. Qed.

Lemma sample_exchange : exists w, sample_end true = Some w /\ flight w = [] /\ sample_punched true 6 w.
Proof. destruct (proj1 (fmap_Some _ _ _) sample_quiet) as (w & E & Hf). exists w. split; [exact E|]. split; [by symmetry|by apply sample_end_punched]. Qed.

Lemma hole_punched_witness : exists w, sample_end true = Some w /\ knows (wa w) sample_b /\ knows (wb w) sample_a.
Proof.
  destruct sample_exchange as (w & E & Hf & Hp). exists w. split; [exact E|].
  destruct sample_endpoints as (Ha & Hb & Hs).
  destruct (hole_punched (fun _ m => Z.of_nat (length m)) sample_memcmp (replicate 12 0) sample_cmn 0 sample_a sample_b sample_s sample_community
    eq_refl eq_refl eq_refl sample_memcmp_ok (conj (Z.le_refl 0) eq_refl) Ha Hb Hs sample_distinct
    (replicate 12 0) (sample_world true) 6 w eq_refl sample_before) as [_ H].
  exact (proj2 (proj2 (proj2 (H Hp)) Hf)).
Defined.

(** An edge that has not called [punching_hole] itself has no callback for new peers: the
    acknowledgement it gets makes it call a null pointer. *)
Example passive_edge_crashes : sample_end false = None.
Proof. by vm_compute. Qed.

(** [set_peer_operational] drops the entries that stand before the one it finds. *)
Example pending_lost :
  let x := PeerInfo sample_community (v4sock sample_b) 0 in
  let y := PeerInfo sample_community (v4sock sample_a) 0 in
  (pending_peers <$> set_peer_operational 1 (sock y) (with_peers [] [x; y] (sample_punch_edge true))) = Some [].
Proof. done. Qed.

(** The pending list is never purged: [run_loop] purges it right after the known one and
    both calls look at the same [last_purge]. *)
Lemma pending_never_purged memcmp junk cmn f time r e e' out :
  run_turn memcmp junk cmn f None time time time time r e = Some (e', out) -> pending_peers e' = pending_peers e.
Proof.
  unfold run_turn. cbn [mbind option_bind]. intros E. apply bind_Some in E as ([e1 out1] & E1 & E).
  assert (pending_peers e1 = pending_peers e) as <-.
  { unfold update_supernode_reg in E1. destruct (_ && _); [by injection E1 as <- _|]. destruct (if sup_attempts e =? 0 then _ else _) as [idx att].
    apply bind_Some in E1 as (o & _ & E1). by injection E1 as <- _. }
  pose proof (second_purge_idle (e_purge e1) time (known_peers e1) (pending_peers e1)) as H.
  destruct (purge_expired_registrations (e_purge e1) time (known_peers e1)) as [[last known] k]. rewrite H in E. by injection E as <- _.
Qed.
