(* ===== verification/Alarm.v ===== *)
(** The alarms of the server's children, [src/zevent_alarm.c]: a list of callbacks with
    the times of their next calls, and the one timer of the process that is set for the
    earliest of them.

    The list is that of the entries in their order, a position in it a pointer to an
    entry.  The clock is a function from the number of the reading; the callbacks are
    functions on the state that use the module's operations.  [calls] records which
    callbacks have been called, [itimer] what was last passed to [setitimer], with the
    number of the reading that it counts from.  A signal is delivered between operations,
    which is more than the code sees to. *)
From S2P Require Import Prelude.
Local Open Scope Z_scope.

Record timeval := Timeval { tv_sec : Z; tv_usec : Z }.
Definition SA_REPEAT : Z := 0x01.

Record zevent_alarm := Entry {
  a_t : timeval; a_flags : Z; clientreg : Z; t_last : timeval; t_next : timeval; clientarg : Z; thecallback : Z
}.

Record alarms := Alarms {
  thealarms : list zevent_alarm; start_alarms : bool; regnum : Z;
  itimer : option (timeval * nat); calls : list Z; reads : nat
}.

Definition with_alarms (l : list zevent_alarm) (s : alarms) : alarms :=
  Alarms l (start_alarms s) (regnum s) (itimer s) (calls s) (reads s).
Definition with_start (s : alarms) : alarms := Alarms (thealarms s) true (regnum s) (itimer s) (calls s) (reads s).
Definition with_regnum (r : Z) (s : alarms) : alarms := Alarms (thealarms s) (start_alarms s) r (itimer s) (calls s) (reads s).
Definition with_itimer (v : option (timeval * nat)) (s : alarms) : alarms :=
  Alarms (thealarms s) (start_alarms s) (regnum s) v (calls s) (reads s).
Definition with_call (r : Z) (s : alarms) : alarms :=
  Alarms (thealarms s) (start_alarms s) (regnum s) (itimer s) (calls s ++ [r]) (reads s).
Definition with_read (s : alarms) : alarms := Alarms (thealarms s) (start_alarms s) (regnum s) (itimer s) (calls s) (S (reads s)).
Definition with_times (last next : timeval) (a : zevent_alarm) : zevent_alarm :=
  Entry (a_t a) (a_flags a) (clientreg a) last next (clientarg a) (thecallback a).

Definition tv0 : timeval := Timeval 0 0.
Definition tv_zero (x : timeval) : bool := (tv_sec x =? 0) && (tv_usec x =? 0).

(** The loops that carry and borrow between the two fields. *)
Definition carry (x : timeval) : option timeval :=
  cloop (S (Z.to_nat (tv_usec x / 1000000)))
    (fun x => Some (if tv_usec x >=? 1000000 then inl (Timeval (tv_sec x + 1) (tv_usec x - 1000000)) else inr x)) x.
Definition borrow (x : timeval) : option timeval :=
  cloop (S (S (Z.to_nat (- tv_usec x / 1000000))))
    (fun x => Some (if tv_usec x <? 0 then inl (Timeval (tv_sec x - 1) (tv_usec x + 1000000)) else inr x)) x.

Fixpoint sa_find_specific (r : Z) (l : list zevent_alarm) : option nat :=
  match l with
  | [] => None
  | a :: l => if clientreg a =? r then Some O else S <$> sa_find_specific r l
  end.

Definition zevent_alarm_unregister (r : Z) (s : alarms) : alarms :=
  match sa_find_specific r (thealarms s) with
  | Some i => with_alarms (delete i (thealarms s)) s
  | None => s
  end.

Definition zevent_alarm_unregister_all (s : alarms) : alarms := with_alarms [] s.

(** The test of [sa_find_next]. *)
Definition sooner (a lowest : zevent_alarm) : bool :=
  if tv_sec (t_next a) =? tv_sec (t_next lowest) then tv_usec (t_next a) <? tv_usec (t_next lowest)
  else tv_sec (t_next a) <? tv_sec (t_next lowest).

Fixpoint find_lowest (lowest : option zevent_alarm) (l : list zevent_alarm) : option zevent_alarm :=
  match l with
  | [] => lowest
  | a :: l =>
      find_lowest (match lowest with
                   | None => Some a
                   | Some b => if sooner a b then Some a else lowest
                   end) l
  end.
Definition sa_find_next (s : alarms) : option zevent_alarm := find_lowest None (thealarms s).

(** [x] has passed at [now]. *)
Definition passed (x now : timeval) : bool :=
  (tv_sec x <? tv_sec now) || ((tv_sec x =? tv_sec now) && (tv_usec x <? tv_usec now)).

Section Alarm.
Context (gettimeofday : nat -> timeval) (callback : Z -> Z -> Z -> alarms -> option alarms).

(** [i] is the position of the entry. *)
Definition sa_update_entry (i : nat) (s : alarms) : option alarms :=
  a ← thealarms s !! i;
  if tv_zero (t_last a) then
    let t_now := gettimeofday (reads s) in
    next ← carry (Timeval (tv_sec t_now + tv_sec (a_t a)) (tv_usec t_now + tv_usec (a_t a)));
    Some (with_alarms (<[i := with_times t_now next a]> (thealarms s)) (with_read s))
  else if tv_zero (t_next a) then
    if negb (Z.land (a_flags a) SA_REPEAT =? 0) then
      if tv_zero (a_t a) then Some (zevent_alarm_unregister (clientreg a) s)
      else
        next ← carry (Timeval (tv_sec (t_last a) + tv_sec (a_t a)) (tv_usec (t_last a) + tv_usec (a_t a)));
        Some (with_alarms (<[i := with_times (t_last a) next a]> (thealarms s)) s)
    else Some (zevent_alarm_unregister (clientreg a) s)
  else Some s.

Definition run_turn (s : alarms) : option (alarms + alarms) :=
  match sa_find_next s with
  | None => Some (inr s)
  | Some a =>
      let t_now := gettimeofday (reads s) in
      let s := with_read s in
      if passed (t_next a) t_now then
        s ← callback (thecallback a) (clientreg a) (clientarg a) (with_call (clientreg a) s);
        match sa_find_specific (clientreg a) (thealarms s) with
        | Some i =>
            b ← thealarms s !! i;
            s ← sa_update_entry i (with_alarms (<[i := with_times t_now tv0 b]> (thealarms s)) s);
            Some (inl s)
        | None => Some (inl s)
        end
      else Some (inr s)
  end.
Definition run_alarms (fuel : nat) (s : alarms) : option alarms := cloop fuel run_turn s.

(** The registration number, zero for none, and the delay. *)
Definition get_next_alarm_delay_time (s : alarms) : option (Z * timeval * alarms) :=
  match sa_find_next s with
  | None => Some (0, tv0, s)
  | Some a =>
      let t_now := gettimeofday (reads s) in
      let s := with_read s in
      if passed (t_next a) t_now then Some (clientreg a, Timeval 0 1, s)
      else
        delta ← borrow (Timeval (tv_sec (t_next a) - tv_sec t_now) (tv_usec (t_next a) - tv_usec t_now));
        Some (clientreg a, delta, s)
  end.

Definition set_an_alarm (s : alarms) : option alarms :=
  '(nextalarm, delta, s) ← get_next_alarm_delay_time s;
  if negb (nextalarm =? 0) then Some (with_itimer (Some (delta, pred (reads s))) s) else Some s.

Definition alarm_handler (fuel : nat) (s : alarms) : option alarms := s ← run_alarms fuel s; set_an_alarm s.

Definition init_alarm_post_config (s : alarms) : option alarms := set_an_alarm (with_start s).

(** The end of the registration, with the entry put at the end of the list. *)
Definition register_entry (t : timeval) (flags cb arg : Z) (s : alarms) : option (Z * alarms) :=
  let i := length (thealarms s) in
  s ← sa_update_entry i (with_regnum (u32 (regnum s + 1)) (with_alarms (thealarms s ++ [Entry t flags (regnum s) tv0 tv0 arg cb]) s));
  a ← thealarms s !! i;
  s ← (if start_alarms s then set_an_alarm s else Some s);
  a ← thealarms s !! i;
  Some (clientreg a, s).

(** [alloc]: the memory was there. *)
Definition zevent_alarm_register (alloc : bool) (when flags cb arg : Z) (s : alarms) : option (Z * alarms) :=
  if alloc then register_entry (if when =? 0 then Timeval 0 1 else Timeval when 0) flags cb arg s else Some (0, s).
Definition zevent_alarm_register_hr (alloc : bool) (t : timeval) (flags cb arg : Z) (s : alarms) : option (Z * alarms) :=
  if alloc then register_entry t flags cb arg s else Some (0, s).
End Alarm.

(** ** Times *)

Definition usecs (x : timeval) : Z := tv_sec x * 1000000 + tv_usec x.
Definition tv_ok (x : timeval) : Prop := 0 <= tv_sec x /\ 0 <= tv_usec x < 1000000.
Definition nonneg (x : timeval) : Prop := 0 <= tv_sec x /\ 0 <= tv_usec x.
Abbreviation due a := (usecs (t_next a)).

Lemma tv_ok_nonneg x : tv_ok x -> nonneg x.
Proof. unfold tv_ok, nonneg. lia. Qed.

Lemma tv_zero_iff x : nonneg x -> tv_zero x = true <-> usecs x = 0.
Proof. unfold nonneg, tv_zero, usecs. rewrite andb_true_iff, !Z.eqb_eq. lia. Qed.

Lemma passed_iff x y : tv_ok x -> tv_ok y -> passed x y = true <-> usecs x < usecs y.
Proof. unfold tv_ok, passed, usecs. rewrite orb_true_iff, andb_true_iff, Z.eqb_eq, !Z.ltb_lt. lia. Qed.

Lemma sooner_iff a b : tv_ok (t_next a) -> tv_ok (t_next b) -> sooner a b = true <-> due a < due b.
Proof. unfold tv_ok, sooner, usecs. destruct (Z.eqb_spec (tv_sec (t_next a)) (tv_sec (t_next b))); rewrite Z.ltb_lt; lia. Qed.

(** The number of microseconds as a time. *)
Definition tv_of (u : Z) : timeval := Timeval (u / 1000000) (u mod 1000000).

Lemma tv_of_ok u : 0 <= u -> tv_ok (tv_of u) /\ usecs (tv_of u) = u.
Proof. unfold tv_ok, usecs, tv_of. cbn. lia. Qed.

Lemma tv_of_usecs x : tv_ok x -> x = tv_of (usecs x).
Proof. destruct x as [a b]. unfold tv_ok, usecs, tv_of. cbn. intros H. f_equal; lia. Qed.

Lemma carry_ok x : nonneg x -> exists y, carry x = Some y /\ tv_ok y /\ usecs y = usecs x.
Proof.
  intros Hx. unfold carry.
  apply (cloop_total (fun z => nonneg z /\ usecs z = usecs x) (fun z => Z.to_nat (tv_usec z / 1000000)) (fun y => tv_ok y /\ usecs y = usecs x)); [|done|lia].
  intros z [Hz E]. unfold turn, nonneg, tv_ok, usecs in *. destruct (tv_usec z >=? 1000000) eqn:Ez; cbn [tv_sec tv_usec]; [|lia].
  split; [lia|]. Z.to_euclidean_division_equations. lia.
Qed.

Lemma borrow_ok x : tv_usec x < 1000000 -> 0 <= usecs x -> exists y, borrow x = Some y /\ tv_ok y /\ usecs y = usecs x.
Proof.
  intros H1 H2. unfold borrow.
  apply (cloop_total (fun z => tv_usec z < 1000000 /\ usecs z = usecs x) (fun z => if tv_usec z <? 0 then S (Z.to_nat (- tv_usec z / 1000000)) else O)
    (fun y => tv_ok y /\ usecs y = usecs x)); [|done|destruct (tv_usec x <? 0); lia].
  intros z [Hz E]. unfold turn, tv_ok, usecs in *. destruct (Z.ltb_spec (tv_usec z) 0); cbn [tv_sec tv_usec]; [|lia].
  split; [lia|]. destruct (Z.ltb_spec (tv_usec z + 1000000) 0); [|lia]. Z.to_euclidean_division_equations. lia.
Qed.

(** ** The list *)

Lemma find_specific_some r l i : sa_find_specific r l = Some i -> exists a, l !! i = Some a /\ clientreg a = r.
Proof.
  revert i. induction l as [|a l IH]; intros i E; [done|]. cbn in E. destruct (Z.eqb_spec (clientreg a) r) as [<-|_].
  - injection E as <-. by exists a.
  - apply fmap_Some in E as (j & E & ->). by apply IH.
Qed.

Lemma find_specific_none r l : sa_find_specific r l = None <-> forall a, a ∈ l -> clientreg a <> r.
Proof.
  induction l as [|a l IH]; cbn; [split; [intros _ a Ha; by apply not_elem_of_nil in Ha|done]|]. destruct (Z.eqb_spec (clientreg a) r) as [E|Hne].
  - split; [done|]. intros H. by destruct (H a ltac:(constructor)).
  - rewrite fmap_None, IH. split; intros H b; [intros [->|Hb]%elem_of_cons; [done|by apply H]|intros Hb; apply H; by constructor].
Qed.

Definition find_ok (l : list zevent_alarm) (o : option zevent_alarm) : Prop :=
  match o with
  | None => l = []
  | Some a => exists l1 l2, l = l1 ++ a :: l2 /\ (forall b, b ∈ l1 -> due a < due b) /\ (forall b, b ∈ l2 -> due a <= due b)
  end.

Lemma find_lowest_ok l : forall seen lowest, (forall a, a ∈ seen ++ l -> tv_ok (t_next a)) -> find_ok seen lowest -> find_ok (seen ++ l) (find_lowest lowest l).
Proof.
  induction l as [|a l IH]; intros seen lowest Hok H; cbn; [by rewrite app_nil_r|].
  assert (seen ++ a :: l = (seen ++ [a]) ++ l) as E by by rewrite <- app_assoc. rewrite E in Hok |- *. apply IH; [done|].
  destruct lowest as [b|]; cbn in H.
  - destruct H as (l1 & l2 & -> & H1 & H2). assert (tv_ok (t_next a) /\ tv_ok (t_next b)) as [Ha Hb] by (split; apply Hok; set_solver).
    pose proof (sooner_iff a b Ha Hb) as Hs. destruct (sooner a b); cbn.
    + exists (l1 ++ b :: l2), []. split; [done|]. split; [|intros c Hc; by apply not_elem_of_nil in Hc]. assert (due a < due b) as Hab by by apply Hs.
      intros c [Hc|[->|Hc]%elem_of_cons]%elem_of_app; [specialize (H1 c Hc)|done|specialize (H2 c Hc)]; lia.
    + exists l1, (l2 ++ [a]). split; [by rewrite <- app_assoc|]. split; [done|]. assert (~ due a < due b) as Hab by (by rewrite <- Hs).
      intros c [Hc|Hc%list_elem_of_singleton]%elem_of_app; [by apply H2|]. subst c. lia.
  - subst seen. exists [], []. split; [done|]. by split; intros c Hc%not_elem_of_nil.
Qed.

Lemma filter_sublist {A} (P : A -> Prop) `{forall x, Decision (P x)} (l1 l2 : list A) : l1 `sublist_of` l2 -> filter P l1 `sublist_of` filter P l2.
Proof. induction 1 as [|x l1 l2 _ IH|x l1 l2 _ IH]; [done| |]; rewrite ?filter_cons; case_decide; by first [exact IH|constructor]. Qed.

Lemma filter_agree {A} (P Q : A -> Prop) `{forall x, Decision (P x)} `{forall x, Decision (Q x)} (l : list A) :
  (forall x, x ∈ l -> P x <-> Q x) -> filter P l = filter Q l.
Proof.
  induction l as [|x l IH]; intros Hl; [done|]. rewrite !filter_cons, IH by (intros y Hy; apply Hl; by constructor).
  pose proof (Hl x ltac:(constructor)). by repeat case_decide; try tauto.
Qed.

Lemma filter_none {A} (P : A -> Prop) `{forall x, Decision (P x)} (l : list A) : (forall x, x ∈ l -> ~ P x) -> filter P l = [].
Proof.
  induction l as [|x l IH]; intros Hl; [done|]. rewrite filter_cons, decide_False by (apply Hl; constructor). apply IH. intros y Hy. apply Hl. by constructor.
Qed.

Lemma elem_of_updated {A} (x y : A) (i : nat) (l : list A) : x ∈ <[i := y]> l -> x = y \/ x ∈ l.
Proof.
  intros [j Hj]%list_elem_of_lookup. apply list_lookup_insert_Some in Hj as [(_ & <- & _)|[_ Hj]]; [by left|right; by eapply list_elem_of_lookup_2].
Qed.

Section Operations.
Context (gettimeofday : nat -> timeval).
Hypothesis Hclock : forall i, tv_ok (gettimeofday i).
Hypothesis Hmono : forall i j, (i <= j)%nat -> usecs (gettimeofday i) <= usecs (gettimeofday j).
Hypothesis Hpos : 0 < usecs (gettimeofday 0).

Record entry_ok (a : zevent_alarm) : Prop := EntryOk {
  eo_t : nonneg (a_t a); eo_last : tv_ok (t_last a); eo_next : tv_ok (t_next a); eo_pos : 0 < usecs (t_last a);
  eo_due : due a = usecs (t_last a) + usecs (a_t a)
}.

(** The entries in the order of their registration. *)
Record alarms_ok (s : alarms) : Prop := AlarmsOk {
  ao_sorted : StronglySorted Z.lt (clientreg <$> thealarms s);
  ao_range : forall a, a ∈ thealarms s -> 0 < clientreg a < regnum s;
  ao_regnum : 0 < regnum s < 2 ^ 32;
  ao_entries : forall a, a ∈ thealarms s -> entry_ok a
}.

Lemma find_next_ok s : alarms_ok s -> find_ok (thealarms s) (sa_find_next s).
Proof. intros Hs. unfold sa_find_next. apply (find_lowest_ok _ [] None); [|done]. intros a Ha. by apply Hs. Qed.

Lemma find_next_lowest s a : alarms_ok s -> sa_find_next s = Some a -> a ∈ thealarms s /\ forall b, b ∈ thealarms s -> due a <= due b.
Proof.
  intros Hs E. pose proof (find_next_ok s Hs) as H. rewrite E in H. destruct H as (l1 & l2 & -> & H1 & H2). split; [set_solver|].
  intros b [Hb|[->|Hb]%elem_of_cons]%elem_of_app; [specialize (H1 b Hb)|done|specialize (H2 b Hb)]; lia.
Qed.

Lemma find_next_none s : alarms_ok s -> sa_find_next s = None <-> thealarms s = [].
Proof. intros Hs. pose proof (find_next_ok s Hs) as H. split; [intros E; by rewrite E in H|]. intros E. unfold sa_find_next. by rewrite E. Qed.

Abbreviation clock i := (usecs (gettimeofday i)).

Lemma clock_pos i : 0 < clock i.
Proof. pose proof (Hmono 0 i ltac:(lia)). lia. Qed.

(** ** Setting the timer *)

Lemma set_an_alarm_ok s : alarms_ok s -> exists s', set_an_alarm gettimeofday s = Some s' /\ thealarms s' = thealarms s /\ start_alarms s' = start_alarms s /\
  regnum s' = regnum s /\ calls s' = calls s /\ (reads s <= reads s')%nat /\
  match sa_find_next s with
  | None => s' = s
  | Some a => exists v, itimer s' = Some (v, reads s) /\ tv_ok v /\ reads s' = S (reads s) /\ usecs v = (if due a <? clock (reads s) then 1 else due a - clock (reads s))
  end.
Proof.
  intros Hs. unfold set_an_alarm, get_next_alarm_delay_time. destruct (sa_find_next s) as [a|] eqn:E; cbn [mbind option_bind].
  - destruct (find_next_lowest s a Hs E) as [Ha _]. destruct (ao_entries _ Hs a Ha) as [_ _ Hn _ _].
    pose proof (passed_iff _ _ Hn (Hclock (reads s))) as Hp. assert (negb (clientreg a =? 0) = true) as Hr.
    { pose proof (ao_range _ Hs a Ha). rewrite (proj2 (Z.eqb_neq _ _)) by lia. done. }
    destruct (passed (t_next a) (gettimeofday (reads s))); cbn [mbind option_bind].
    + rewrite Hr. eexists. split; [reflexivity|]. cbn. split_and!; try done; [lia|]. exists (Timeval 0 1).
      rewrite (proj2 (Z.ltb_lt _ _)) by by apply Hp. by split_and!.
    + destruct (borrow_ok (Timeval (tv_sec (t_next a) - tv_sec (gettimeofday (reads s))) (tv_usec (t_next a) - tv_usec (gettimeofday (reads s)))))
        as (v & Ev & Hv & Eu).
      { cbn. destruct Hn as [_ Hn], (Hclock (reads s)) as [_ Hc]. lia. }
      { assert (~ due a < clock (reads s)) as Hnp by by rewrite <- Hp. unfold usecs in *. cbn. lia. }
      rewrite Ev. cbn [mbind option_bind]. rewrite Hr. eexists. split; [reflexivity|]. cbn. split_and!; try done; [lia|].
      exists v. split; [done|]. split; [done|]. split; [done|]. assert (~ due a < clock (reads s)) as Hnp by by rewrite <- Hp.
      rewrite (proj2 (Z.ltb_ge _ _)) by lia. rewrite Eu. unfold usecs. cbn. lia.
  - exists s. by split_and!.
Qed.

(** ** Registration *)

Lemma sorted_sublist {A} (R : relation A) l1 l2 : l1 `sublist_of` l2 -> StronglySorted R l2 -> StronglySorted R l1.
Proof.
  induction 1 as [|x l1 l2 Hsub IH|x l1 l2 Hsub IH]; [done| |]; intros [Hs Hx]%StronglySorted_inv; [|by apply IH].
  constructor; [by apply IH|]. rewrite Forall_forall in Hx |- *. intros y Hy. apply Hx. by eapply elem_of_sublist.
Qed.

Lemma alarms_ok_sublist s l : alarms_ok s -> l `sublist_of` thealarms s -> alarms_ok (with_alarms l s).
Proof.
  intros [H1 H2 H3 H4] Hl. split; cbn.
  - eapply sorted_sublist; [|exact H1]. by apply fmap_sublist.
  - intros a Ha. apply H2. by eapply elem_of_sublist.
  - done.
  - intros a Ha. apply H4. by eapply elem_of_sublist.
Qed.

Lemma unregister_sublist r s : exists l, zevent_alarm_unregister r s = with_alarms l s /\ l `sublist_of` thealarms s /\
  (StronglySorted Z.lt (clientreg <$> thealarms s) -> forall a, a ∈ l <-> a ∈ thealarms s /\ clientreg a <> r).
Proof.
  unfold zevent_alarm_unregister. destruct (sa_find_specific r (thealarms s)) as [i|] eqn:E.
  - exists (delete i (thealarms s)). split; [done|]. split; [apply sublist_delete|]. destruct (find_specific_some _ _ _ E) as (b & Eb & <-).
    intros Hs a. pose proof (take_drop_middle _ _ _ Eb) as El. rewrite delete_take_drop.
    assert (a ∈ thealarms s <-> a ∈ take i (thealarms s) ++ b :: drop (S i) (thealarms s)) as -> by by rewrite El.
    rewrite <- El, fmap_app, fmap_cons in Hs. rewrite !elem_of_app, elem_of_cons. split.
    + intros Ha. split; [tauto|]. intros Ec. destruct Ha as [Ha|Ha].
      * apply (StronglySorted_app_1_elem_of _ _ _ (clientreg a) (clientreg b)) in Hs; [lia|by apply list_elem_of_fmap_2|constructor].
      * apply StronglySorted_app_1_r, StronglySorted_inv in Hs as [_ Hs]. rewrite Forall_forall in Hs.
        specialize (Hs _ (list_elem_of_fmap_2 clientreg _ _ Ha)). lia.
    + intros [[Ha|[->|Ha]] Hne]; tauto.
  - exists (thealarms s). split; [by destruct s|]. split; [done|]. intros _ a. rewrite find_specific_none in E. split; [|tauto].
    intros Ha. split; [done|]. by apply E.
Qed.

Lemma find_specific_end a l : (forall b, b ∈ l -> clientreg b < clientreg a) -> sa_find_specific (clientreg a) (l ++ [a]) = Some (length l).
Proof.
  induction l as [|b l IH]; intros H; cbn; [by rewrite Z.eqb_refl|]. pose proof (H b ltac:(constructor)).
  rewrite (proj2 (Z.eqb_neq _ _)) by lia. rewrite IH; [done|]. intros c Hc. apply H. by constructor.
Qed.

Lemma alarms_ok_snoc s a r : alarms_ok s -> clientreg a = regnum s -> entry_ok a -> regnum s < r < 2 ^ 32 ->
  alarms_ok (with_regnum r (with_alarms (thealarms s ++ [a]) s)).
Proof.
  intros [H1 H2 H3 H4] Ea Ha Hr. split; cbn.
  - rewrite fmap_app. apply StronglySorted_app_2; [|done|by repeat constructor]. intros x1 x2 (b & -> & Hb)%list_elem_of_fmap ->%list_elem_of_singleton.
    rewrite Ea. by apply H2.
  - intros b [Hb| ->%list_elem_of_singleton]%elem_of_app; [specialize (H2 b Hb); lia|lia].
  - lia.
  - intros b [Hb| ->%list_elem_of_singleton]%elem_of_app; [by apply H4|done].
Qed.

Lemma alarms_ok_with s s' : alarms_ok s -> thealarms s' = thealarms s -> regnum s' = regnum s -> alarms_ok s'.
Proof. intros [H1 H2 H3 H4] E1 E2. split; rewrite ?E1, ?E2; done. Qed.

(** The state after a registration: the list has one entry more, for the time asked,
    and the timer is set if the alarms have been started. *)
Definition registered (t : timeval) (s : alarms) (s' : alarms) : Prop :=
  exists a, thealarms s' = thealarms s ++ [a] /\ clientreg a = regnum s /\ entry_ok a /\ due a = clock (reads s) + usecs t /\
    regnum s' = regnum s + 1 /\ start_alarms s' = start_alarms s /\ calls s' = calls s /\ (S (reads s) <= reads s')%nat /\ alarms_ok s'.

Lemma register_entry_ok t flags cb arg s : alarms_ok s -> nonneg t -> regnum s < 2 ^ 32 - 1 -> exists s1,
  registered t s s1 /\
  if start_alarms s then exists s', set_an_alarm gettimeofday s1 = Some s' /\ register_entry gettimeofday t flags cb arg s = Some (regnum s, s') /\ registered t s s'
  else register_entry gettimeofday t flags cb arg s = Some (regnum s, s1).
Proof.
  intros Hs Ht Hr. pose proof (ao_regnum _ Hs) as Hr0. unfold register_entry, sa_update_entry. cbn [thealarms with_regnum with_alarms reads].
  rewrite list_lookup_middle by done. cbn [mbind option_bind t_last tv_zero tv0 tv_sec tv_usec Z.eqb andb a_t].
  destruct (carry_ok (Timeval (tv_sec (gettimeofday (reads s)) + tv_sec t) (tv_usec (gettimeofday (reads s)) + tv_usec t))) as (next & En & Hn & Eu).
  { destruct (Hclock (reads s)), Ht. split; cbn; lia. }
  rewrite En. cbn [mbind option_bind thealarms with_read with_alarms].
  set (a := with_times (gettimeofday (reads s)) next (Entry t flags (regnum s) tv0 tv0 arg cb)).
  rewrite insert_app_r_alt, Nat.sub_diag by done. cbn [list_insert insert].
  set (s1 := with_alarms (thealarms s ++ [a]) _). assert (due a = clock (reads s) + usecs t) as Ed by (cbn; rewrite Eu; unfold usecs; cbn; lia).
  assert (entry_ok a) as Ha by (split; cbn; [done|apply Hclock|done|apply clock_pos|exact Ed]).
  assert (regnum s1 = regnum s + 1) as Er by (cbn; rewrite wrap_small; lia).
  assert (alarms_ok s1) as Hs1.
  { eapply alarms_ok_with; [apply (alarms_ok_snoc s a (regnum s + 1)); [done|done|done|lia]|done|done]. }
  assert (registered t s s1) as Hreg by (exists a; by split_and!).
  exists s1. split; [exact Hreg|]. rewrite list_lookup_middle by done. cbn [mbind option_bind]. change (start_alarms s1) with (start_alarms s).
  destruct (start_alarms s).
  - destruct (set_an_alarm_ok s1 Hs1) as (s' & E & E1 & E2 & E3 & E4 & E5 & _). exists s'. split; [done|]. rewrite E. cbn [mbind option_bind].
    rewrite E1. change (thealarms s1) with (thealarms s ++ [a]). rewrite list_lookup_middle by done. cbn [mbind option_bind].
    split; [done|]. destruct Hreg as (a' & H1 & H2 & H3 & H4 & H5 & H6 & H7 & H8 & H9). exists a'. split_and!; try congruence; [lia|].
    by eapply alarms_ok_with.
  - cbn [mbind option_bind]. change (thealarms s1) with (thealarms s ++ [a]). rewrite list_lookup_middle by done. done.
Qed.

(** ** What a client does *)

Inductive api : alarms -> alarms -> Prop :=
  | api_done s : api s s
  | api_register alloc when flags cb arg s r s1 s2 : 0 <= when -> regnum s < 2 ^ 32 - 1 ->
      zevent_alarm_register gettimeofday alloc when flags cb arg s = Some (r, s1) -> api s1 s2 -> api s s2
  | api_register_hr alloc t flags cb arg s r s1 s2 : nonneg t -> regnum s < 2 ^ 32 - 1 ->
      zevent_alarm_register_hr gettimeofday alloc t flags cb arg s = Some (r, s1) -> api s1 s2 -> api s s2
  | api_unregister r s s2 : api (zevent_alarm_unregister r s) s2 -> api s s2
  | api_unregister_all s s2 : api (zevent_alarm_unregister_all s) s2 -> api s s2
  | api_read s s2 : api (with_read s) s2 -> api s s2.

(** Some of the entries are left, and behind them there are new ones. *)
Record effect (s s' : alarms) : Prop := Effect {
  ef_ok : alarms_ok s'; ef_reads : (reads s <= reads s')%nat; ef_regnum : regnum s <= regnum s'; ef_start : start_alarms s' = start_alarms s;
  ef_calls : calls s' = calls s;
  ef_alarms : exists l new, thealarms s' = l ++ new /\ l `sublist_of` thealarms s /\
    forall a, a ∈ new -> regnum s <= clientreg a /\ clock (reads s) <= due a
}.

Lemma effect_drop s s' l : alarms_ok s -> l `sublist_of` thealarms s -> s' = with_alarms l s -> effect s s'.
Proof.
  intros Hs Hl ->. split; cbn; try done; [by apply alarms_ok_sublist|]. exists l, []. rewrite app_nil_r. split_and!; try done.
  intros a Ha. by apply not_elem_of_nil in Ha.
Qed.

Lemma effect_refl s : alarms_ok s -> effect s s.
Proof. intros Hs. apply (effect_drop s s (thealarms s)); [done|done|by destruct s]. Qed.

Lemma effect_trans s1 s2 s3 : effect s1 s2 -> effect s2 s3 -> effect s1 s3.
Proof.
  intros [H1 H2 H3 H4 H5 (l & n & E & Hl & Hn)] [K1 K2 K3 K4 K5 (l' & n' & E' & Hl' & Hn')]. split; try done; try lia; try congruence.
  rewrite E in Hl'. apply sublist_app_r in Hl' as (k1 & k2 & -> & Hk1 & Hk2). exists k1, (k2 ++ n'). split; [by rewrite app_assoc|].
  split; [by etrans|]. intros a [Ha|Ha]%elem_of_app.
  - apply Hn. by eapply elem_of_sublist.
  - specialize (Hn' a Ha). pose proof (Hmono _ _ H2). lia.
Qed.

Lemma effect_registered t s s' : alarms_ok s -> nonneg t -> registered t s s' -> effect s s'.
Proof.
  intros Hs Ht (a & E1 & E2 & _ & E4 & E5 & E6 & E7 & E8 & E9). split; try done; try lia. exists (thealarms s), [a]. split; [done|]. split; [done|].
  intros b ->%list_elem_of_singleton. unfold nonneg, usecs in *. lia.
Qed.

Lemma effect_register_entry t flags cb arg s r s' : alarms_ok s -> nonneg t -> regnum s < 2 ^ 32 - 1 ->
  register_entry gettimeofday t flags cb arg s = Some (r, s') -> effect s s'.
Proof.
  intros Hs Ht Hr E. destruct (register_entry_ok t flags cb arg s Hs Ht Hr) as (s1 & H1 & H2). apply (effect_registered t); try done.
  destruct (start_alarms s); [destruct H2 as (s2 & _ & E2 & H3)|rename H2 into E2]; rewrite E2 in E; by injection E as _ <-.
Qed.

Lemma api_effect s s' : api s s' -> alarms_ok s -> effect s s'.
Proof.
  induction 1 as [s|alloc when flags cb arg s r s1 s2 Hw Hr E _ IH|alloc t flags cb arg s r s1 s2 Ht Hr E _ IH|r s s2 _ IH|s s2 _ IH|s s2 _ IH]; intros Hs.
  - by apply effect_refl.
  - unfold zevent_alarm_register in E. destruct alloc; [|injection E as _ <-; by apply IH].
    assert (effect s s1) as H1.
    { eapply effect_register_entry; [done| |done|exact E]. destruct (Z.eqb_spec when 0); split; cbn; lia. }
    eapply effect_trans; [exact H1|]. apply IH, H1.
  - unfold zevent_alarm_register_hr in E. destruct alloc; [|injection E as _ <-; by apply IH].
    assert (effect s s1) as H1 by by eapply effect_register_entry.
    eapply effect_trans; [exact H1|]. apply IH, H1.
  - destruct (unregister_sublist r s) as (l & El & Hl & _). assert (effect s (zevent_alarm_unregister r s)) as H1 by by eapply effect_drop.
    eapply effect_trans; [exact H1|]. apply IH, H1.
  - assert (effect s (zevent_alarm_unregister_all s)) as H1 by (eapply effect_drop; [done|apply sublist_nil_l|done]).
    eapply effect_trans; [exact H1|]. apply IH, H1.
  - assert (effect s (with_read s)) as H1.
    { pose proof (effect_refl s Hs) as [? ? ? ? ? ?]. split; try done; [by eapply alarms_ok_with|cbn; lia]. }
    eapply effect_trans; [exact H1|]. apply IH, H1.
Qed.

(** ** A turn of [run_alarms] *)

Context (callback : Z -> Z -> Z -> alarms -> option alarms).
Hypothesis Hcallback : forall cb r arg s, alarms_ok s -> exists s', callback cb r arg s = Some s' /\ api s s'.

(** What becomes of the entry that has been called at [now], if it is still there. *)
Definition again (now : timeval) (a : zevent_alarm) : option zevent_alarm :=
  if negb (Z.land (a_flags a) SA_REPEAT =? 0) && negb (tv_zero (a_t a))
  then Some (with_times now (tv_of (usecs now + usecs (a_t a))) a) else None.

Lemma again_ok now a b : again now a = Some b -> nonneg (a_t a) -> tv_ok now -> 0 < usecs now ->
  entry_ok b /\ clientreg b = clientreg a /\ usecs now < due b.
Proof.
  unfold again. intros E Ht Hn Hp. destruct (_ && _) eqn:Eb; [|done]. injection E as <-. apply andb_true_iff in Eb as [_ Ez].
  apply negb_true_iff, not_true_iff_false in Ez. rewrite tv_zero_iff in Ez by done. assert (0 < usecs (a_t a)) by (unfold nonneg, usecs in *; lia).
  destruct (tv_of_ok (usecs now + usecs (a_t a)) ltac:(lia)) as [H1 H2]. split; [|split; [done|cbn; lia]]. by split.
Qed.

Lemma unregister_at i a l s : StronglySorted Z.lt (clientreg <$> l) -> l !! i = Some a -> zevent_alarm_unregister (clientreg a) (with_alarms l s) = with_alarms (delete i l) s.
Proof.
  intros Hs Ei. unfold zevent_alarm_unregister. cbn [thealarms with_alarms]. pose proof (take_drop_middle _ _ _ Ei) as El.
  assert (sa_find_specific (clientreg a) l = Some i) as ->; [|done]. rewrite <- El in Hs |- *. rewrite fmap_app, fmap_cons in Hs.
  assert (length (take i l) = i) as Hi by (apply lookup_lt_Some in Ei; rewrite length_take; lia). rewrite <- Hi at 3. revert Hs.
  generalize (take i l) as k. generalize (drop (S i) l) as k'. intros k' k. induction k as [|b k IH]; intros Hs; cbn; [by rewrite Z.eqb_refl|].
  apply StronglySorted_inv in Hs as [Hs Hb]. apply Forall_app in Hb as [_ Hb]. apply Forall_cons in Hb as [Hb _].
  rewrite (proj2 (Z.eqb_neq _ _)) by lia. by rewrite IH.
Qed.

Lemma update_called i a now s : alarms_ok s -> thealarms s !! i = Some a -> tv_ok now -> 0 < usecs now ->
  sa_update_entry gettimeofday i (with_alarms (<[i := with_times now tv0 a]> (thealarms s)) s) =
    Some (with_alarms (match again now a with Some b => <[i := b]> (thealarms s) | None => delete i (thealarms s) end) s).
Proof.
  intros Hs Ei Hn Hp. pose proof (lookup_lt_Some _ _ _ Ei) as Hi. unfold sa_update_entry. cbn [thealarms with_alarms].
  rewrite list_lookup_insert_eq by done. cbn [mbind option_bind t_last with_times t_next a_t a_flags clientreg].
  assert (tv_zero now = false) as -> by (apply not_true_iff_false; rewrite tv_zero_iff by (by apply tv_ok_nonneg); lia).
  change (tv_zero tv0) with true. cbv iota. destruct (ao_entries _ Hs a ltac:(by eapply list_elem_of_lookup_2)) as [Ht _ _ _ _].
  assert (zevent_alarm_unregister (clientreg a) (with_alarms (<[i := with_times now tv0 a]> (thealarms s)) s) = with_alarms (delete i (thealarms s)) s) as Hun.
  { rewrite (unregister_at i (with_times now tv0 a)).
    - f_equal. rewrite insert_take_drop by done. rewrite <- (length_take_le (thealarms s) i) at 1 by lia. by rewrite delete_middle, delete_take_drop.
    - rewrite list_fmap_insert, list_insert_id; [apply Hs|]. by rewrite list_lookup_fmap, Ei.
    - by apply list_lookup_insert_eq. }
  unfold again. destruct (Z.eqb_spec (Z.land (a_flags a) SA_REPEAT) 0) as [Ef|Ef]; cbn [negb andb]; [by rewrite Hun|].
  destruct (tv_zero (a_t a)) eqn:Ez; cbn [negb]; [by rewrite Hun|].
  destruct (carry_ok (Timeval (tv_sec now + tv_sec (a_t a)) (tv_usec now + tv_usec (a_t a)))) as (next & En & Hnx & Eu).
  { destruct Hn, Ht. split; cbn; lia. }
  rewrite En. cbn [mbind option_bind]. assert (next = tv_of (usecs now + usecs (a_t a))) as ->.
  { rewrite (tv_of_usecs next Hnx), Eu. f_equal. unfold usecs. cbn. lia. }
  unfold with_alarms. cbn [thealarms start_alarms regnum itimer calls reads]. by rewrite list_insert_insert_eq.
Qed.

Abbreviation past now := (fun b : zevent_alarm => due b < now).
Abbreviation past_but now r := (fun b : zevent_alarm => due b < now /\ clientreg b <> r).

(** The entry of [a] taken out, in either way. *)
Lemma filter_out i a now l : StronglySorted Z.lt (clientreg <$> l) -> l !! i = Some a ->
  filter (past now) (delete i l) = filter (past_but now (clientreg a)) l /\
  (forall b, ~ due b < now -> filter (past now) (<[i := b]> l) = filter (past_but now (clientreg a)) l).
Proof.
  intros Hs Ei. pose proof (take_drop_middle _ _ _ Ei) as El. pose proof (lookup_lt_Some _ _ _ Ei) as Hi.
  assert (forall k : list zevent_alarm, (forall b, b ∈ k -> clientreg b <> clientreg a) -> filter (past now) k = filter (past_but now (clientreg a)) k) as Hsame.
  { intros k Hk. apply filter_agree. intros b Hb. specialize (Hk b Hb). tauto. }
  assert ((forall b, b ∈ take i l -> clientreg b <> clientreg a) /\ (forall b, b ∈ drop (S i) l -> clientreg b <> clientreg a)) as [H1 H2].
  { rewrite <- El, fmap_app, fmap_cons in Hs. split; intros b Hb Ec.
    - apply (StronglySorted_app_1_elem_of _ _ _ (clientreg b) (clientreg a)) in Hs; [lia|by apply list_elem_of_fmap_2|constructor].
    - apply StronglySorted_app_1_r, StronglySorted_inv in Hs as [_ Hs]. rewrite Forall_forall in Hs.
      specialize (Hs _ (list_elem_of_fmap_2 clientreg _ _ Hb)). lia. }
  assert (filter (past_but now (clientreg a)) l = filter (past now) (take i l) ++ filter (past now) (drop (S i) l)) as ->.
  { rewrite <- El at 1. rewrite filter_app, filter_cons, decide_False by tauto. by rewrite !Hsame. }
  split; [by rewrite delete_take_drop, filter_app|]. intros b Hb. rewrite insert_take_drop by done. by rewrite filter_app, filter_cons, decide_False.
Qed.

(** What a call of [a] at [now] does to the state. *)
Record called (a : zevent_alarm) (s s' : alarms) : Prop := Called {
  ca_ok : alarms_ok s'; ca_reads : (reads s < reads s')%nat; ca_regnum : regnum s <= regnum s'; ca_start : start_alarms s' = start_alarms s;
  ca_calls : calls s' = calls s ++ [clientreg a];
  ca_alarms : filter (past (clock (reads s))) (thealarms s') `sublist_of` filter (past_but (clock (reads s)) (clientreg a)) (thealarms s)
}.

Lemma alarm_turn_ok s : alarms_ok s ->
  match sa_find_next s with
  | None => run_turn gettimeofday callback s = Some (inr s)
  | Some a =>
      if due a <? clock (reads s) then exists s', run_turn gettimeofday callback s = Some (inl s') /\ called a s s'
      else run_turn gettimeofday callback s = Some (inr (with_read s))
  end.
Proof.
  intros Hs. unfold run_turn. destruct (sa_find_next s) as [a|] eqn:E; [|done]. destruct (find_next_lowest s a Hs E) as [Ha _].
  pose proof (ao_entries _ Hs a Ha) as [_ _ Hn _ _]. pose proof (passed_iff _ _ Hn (Hclock (reads s))) as Hp.
  destruct (passed (t_next a) (gettimeofday (reads s))).
  2: { rewrite (proj2 (Z.ltb_ge _ _)); [done|]. destruct (Z.lt_ge_cases (due a) (clock (reads s))) as [H|H]; [|done]. by apply Hp in H. }
  rewrite (proj2 (Z.ltb_lt _ _)) by by apply Hp. set (s0 := with_call (clientreg a) (with_read s)).
  assert (alarms_ok s0) as Hs0 by by eapply alarms_ok_with.
  destruct (Hcallback (thecallback a) (clientreg a) (clientarg a) s0 Hs0) as (s1 & Ec & Hapi). rewrite Ec. cbn [mbind option_bind].
  apply api_effect in Hapi as [K1 K2 K3 K4 K5 (l & new & El & Hl & Hnew)]; [|done].
  assert (reads s0 = S (reads s)) as Er by done. pose proof (Hmono (reads s) (reads s0) ltac:(lia)) as Hm.
  assert (filter (past_but (clock (reads s)) (clientreg a)) (thealarms s1) `sublist_of` filter (past_but (clock (reads s)) (clientreg a)) (thealarms s)) as Hsub.
  { rewrite El, filter_app. assert (filter (past_but (clock (reads s)) (clientreg a)) new = []) as ->.
    { apply filter_none. intros b Hb. destruct (Hnew b Hb). lia. }
    rewrite app_nil_r. by apply filter_sublist. }
  destruct (sa_find_specific (clientreg a) (thealarms s1)) as [i|] eqn:Ei.
  - destruct (find_specific_some _ _ _ Ei) as (b & Eb & Erb). rewrite Eb. cbn [mbind option_bind].
    rewrite (update_called i b) by (done || apply Hclock || apply clock_pos). cbn [mbind option_bind].
    destruct (filter_out i b (clock (reads s)) (thealarms s1) (ao_sorted _ K1) Eb) as [F1 F2]. rewrite Erb in F1, F2.
    eexists. split; [reflexivity|]. destruct (again (gettimeofday (reads s)) b) as [b'|] eqn:Eag.
    + destruct (again_ok _ _ _ Eag (eo_t _ (ao_entries _ K1 b ltac:(by eapply list_elem_of_lookup_2))) (Hclock _) (clock_pos _)) as (B1 & B2 & B3).
      split; cbn; try done; [|rewrite F2; [done|lia]]. destruct K1 as [O1 O2 O3 O4]. split; cbn; try done.
      * rewrite list_fmap_insert, B2, list_insert_id; [done|]. by rewrite list_lookup_fmap, Eb.
      * intros c Hc. apply elem_of_updated in Hc as [->|Hc]; [rewrite B2; apply O2; by eapply list_elem_of_lookup_2|by apply O2].
      * intros c Hc. apply elem_of_updated in Hc as [->|Hc]; [done|by apply O4].
    + split; cbn; try done; [apply alarms_ok_sublist; [done|apply sublist_delete]|by rewrite F1].
  - eexists. split; [reflexivity|]. split; try done. etrans; [|exact Hsub]. rewrite find_specific_none in Ei.
    assert (filter (past (clock (reads s))) (thealarms s1) = filter (past_but (clock (reads s)) (clientreg a)) (thealarms s1)) as ->; [|done].
    apply filter_agree. intros b Hb. specialize (Ei b Hb). tauto.
Qed.

(** ** The loop *)

Record kept (s s' : alarms) : Prop := Kept {
  ke_ok : alarms_ok s'; ke_start : start_alarms s' = start_alarms s; ke_regnum : regnum s <= regnum s'; ke_reads : (reads s <= reads s')%nat
}.
(** Nothing is left to be called. *)
Definition idle (s : alarms) : Prop := forall a, a ∈ thealarms s -> clock (pred (reads s)) <= due a.

Lemma kept_trans s1 s2 s3 : kept s1 s2 -> kept s2 s3 -> kept s1 s3.
Proof. intros [H1 H2 H3 H4] [K1 K2 K3 K4]. split; [done|congruence|lia|lia]. Qed.

Lemma turn_kept s : alarms_ok s ->
  match run_turn gettimeofday callback s with
  | Some (inl s') => kept s s'
  | Some (inr s') => kept s s' /\ idle s'
  | None => False
  end.
Proof.
  intros Hs. pose proof (alarm_turn_ok s Hs) as H. destruct (sa_find_next s) as [a|] eqn:E.
  - destruct (Z.ltb_spec (due a) (clock (reads s))).
    + destruct H as (s' & -> & [H1 H2 H3 H4 _ _]). split; [done|done|done|lia].
    + rewrite H. split; [split; try done; [by eapply alarms_ok_with|cbn; lia]|]. intros b Hb. cbn in *.
      pose proof (proj2 (find_next_lowest s a Hs E) b Hb). lia.
  - rewrite H. split; [by split|]. apply find_next_none in E; [|done]. intros b Hb. rewrite E in Hb. by apply not_elem_of_nil in Hb.
Qed.

Lemma run_alarms_kept n s s' : alarms_ok s -> run_alarms gettimeofday callback n s = Some s' -> kept s s' /\ idle s'.
Proof.
  intros Hs. apply (cloop_inv (kept s) (fun s' => kept s s' /\ idle s')); [| |by split]; intros s1 s2 Hk E; pose proof (turn_kept s1 (ke_ok _ _ Hk)) as Ht;
    rewrite E in Ht; [by eapply kept_trans|]. destruct Ht. split; [by eapply kept_trans|done].
Qed.

(** The state after [n] turns that the loop has not left. *)
Fixpoint run_turns (n : nat) (s : alarms) : option alarms :=
  match n with
  | O => Some s
  | S n => match run_turn gettimeofday callback s with Some (inl s') => run_turns n s' | _ => None end
  end.

Definition ends_by (T : Z) (s : alarms) : Prop := exists n,
  is_Some (run_alarms gettimeofday callback n s) \/ exists s', run_turns n s = Some s' /\ T < clock (reads s').

Lemma ends_turn T s s' : run_turn gettimeofday callback s = Some (inl s') -> ends_by T s' -> ends_by T s.
Proof.
  intros E (n & H). exists (S n). unfold run_alarms. cbn [cloop run_turns]. rewrite E. exact H.
Qed.

Lemma ends_now T s s' : run_turn gettimeofday callback s = Some (inr s') -> ends_by T s.
Proof. intros E. exists 1%nat. left. unfold run_alarms. cbn [cloop]. rewrite E. by eexists. Qed.

(** As long as the clock does not pass [T], either the earliest time moves on or there
    are fewer alarms at it. *)
Lemma ends_by_measure T : forall (d c : nat) (s : alarms), alarms_ok s -> (forall b, b ∈ thealarms s -> T - Z.of_nat d <= due b) ->
  (length (filter (fun b => (due b = T - Z.of_nat d)%Z) (thealarms s)) <= c)%nat -> ends_by T s.
Proof.
  induction d as [|d IHd]; intros c; induction c as [c IHc] using lt_wf_ind; intros s Hs Hlow Hcnt;
    pose proof (alarm_turn_ok s Hs) as Ht; (destruct (sa_find_next s) as [a|] eqn:E; [|by eapply ends_now]);
    destruct (find_next_lowest s a Hs E) as [Ha Hmin]; (destruct (Z.ltb_spec (due a) (clock (reads s))) as [Hd|Hd]; [|by eapply ends_now]);
    (destruct (Z.lt_ge_cases T (clock (reads s))) as [HT|HT]; [exists O; right; by exists s|]); pose proof (Hlow a Ha); [lia|].
  destruct Ht as (s' & Er & [C1 C2 C3 C4 C5 C6]). apply (ends_turn T s s' Er).
  assert (forall b, b ∈ thealarms s' -> due b < clock (reads s) -> b ∈ thealarms s /\ clientreg b <> clientreg a) as Hold.
  { intros b Hb Hdb. assert (b ∈ filter (past (clock (reads s))) (thealarms s')) as Hf by by apply list_elem_of_filter.
    apply (elem_of_sublist _ _ _ Hf) in C6. apply list_elem_of_filter in C6. tauto. }
  assert (forall b, b ∈ thealarms s' -> due a <= due b) as Hlow'.
  { intros b Hb. destruct (Z.lt_ge_cases (due b) (clock (reads s))); [|lia]. destruct (Hold b) as [Hbs _]; [done|done|]. by apply Hmin. }
  destruct (Z.eq_dec (due a) (T - Z.of_nat (S d))) as [Ed|Ed].
  - set (P := fun b => due b = T - Z.of_nat (S d)) in *. assert (length (filter P (thealarms s')) < length (filter P (thealarms s)))%nat as Hless.
    { assert (filter P (thealarms s') `sublist_of` filter P (filter (past_but (clock (reads s)) (clientreg a)) (thealarms s))) as Hsub.
      { etrans; [|apply filter_sublist; exact C6]. rewrite list_filter_filter. erewrite filter_agree; [done|]. intros b Hb. unfold P. lia. }
      apply sublist_length in Hsub. eapply Nat.le_lt_trans; [exact Hsub|]. apply list_elem_of_split in Ha as (l1 & l2 & El).
      rewrite El, !filter_app, !filter_cons. rewrite (decide_False (P := due a < clock (reads s) /\ _)) by tauto.
      rewrite (decide_True (P := P a)) by done. rewrite ?filter_app, !length_app. cbn [length].
      pose proof (sublist_length _ _ (filter_sublist P _ _ (sublist_filter (past_but (clock (reads s)) (clientreg a)) l1))).
      pose proof (sublist_length _ _ (filter_sublist P _ _ (sublist_filter (past_but (clock (reads s)) (clientreg a)) l2))). lia. }
    apply (IHc (length (filter P (thealarms s'))) ltac:(lia) s' C1); [|done]. intros b Hb. specialize (Hlow' b Hb). lia.
  - apply (IHd (length (filter (fun b => (due b = T - Z.of_nat d)%Z) (thealarms s'))) s' C1); [|done]. intros b Hb. specialize (Hlow' b Hb). lia.
Qed.

(** ** A run whose callbacks do nothing else, while the clock stands still *)

Definition served (now : timeval) (a : zevent_alarm) : option zevent_alarm := if due a <? usecs now then again now a else Some a.
Definition before (a b : zevent_alarm) : Prop := due a < due b \/ due a = due b /\ clientreg a < clientreg b.

(** The list after the call of the entry at [i]. *)
Definition called_list (now : timeval) (i : nat) (a : zevent_alarm) (l : list zevent_alarm) : list zevent_alarm :=
  match again now a with Some b => <[i := b]> l | None => delete i l end.

Lemma served_called i a now (l : list zevent_alarm) : l !! i = Some a -> due a < usecs now -> nonneg (a_t a) -> tv_ok now -> 0 < usecs now ->
  omap (served now) (called_list now i a l) = omap (served now) l.
Proof.
  intros Ei Hd Ht Hn Hp. pose proof (take_drop_middle _ _ _ Ei) as El. pose proof (lookup_lt_Some _ _ _ Ei) as Hi.
  assert (served now a = again now a) as Ea by (unfold served; by rewrite (proj2 (Z.ltb_lt _ _) Hd)).
  transitivity (omap (served now) (take i l ++ a :: drop (S i) l)); [|by rewrite El]. rewrite omap_app. cbn [omap list_omap]. rewrite Ea. unfold called_list.
  destruct (again now a) as [b|] eqn:Eag.
  - destruct (again_ok _ _ _ Eag Ht Hn Hp) as (_ & _ & Hb). rewrite insert_take_drop by done. rewrite omap_app. cbn [omap list_omap].
    unfold served at 2. by rewrite (proj2 (Z.ltb_ge _ _)) by lia.
  - by rewrite delete_take_drop, omap_app.
Qed.

Lemma served_nothing now (l : list zevent_alarm) : (forall b, b ∈ l -> usecs now <= due b) -> omap (served now) l = l.
Proof.
  induction l as [|b l IH]; intros Hall; [done|]. cbn [omap list_omap]. unfold served at 1. rewrite (proj2 (Z.ltb_ge _ _)) by (apply Hall; constructor).
  f_equal. apply IH. intros c Hc. apply Hall. by constructor.
Qed.

Lemma find_specific_at i a (l : list zevent_alarm) : StronglySorted Z.lt (clientreg <$> l) -> l !! i = Some a -> sa_find_specific (clientreg a) l = Some i.
Proof.
  revert i. induction l as [|b l IH]; intros i Hs Ei; [done|]. rewrite fmap_cons in Hs. apply StronglySorted_inv in Hs as [Hs Hb]. cbn.
  destruct i as [|i]; cbn in Ei; [injection Ei as ->; by rewrite Z.eqb_refl|]. rewrite Forall_forall in Hb.
  pose proof (Hb _ (list_elem_of_fmap_2 clientreg _ _ (list_elem_of_lookup_2 _ _ _ Ei))). rewrite (proj2 (Z.eqb_neq _ _)) by lia. by rewrite (IH i).
Qed.

Definition inert : Prop := forall cb r arg s, callback cb r arg s = Some s.
Hypothesis Hinert : inert.

Lemma turn_inert s a i : alarms_ok s -> sa_find_next s = Some a -> thealarms s !! i = Some a -> due a < clock (reads s) ->
  let s' := with_alarms (called_list (gettimeofday (reads s)) i a (thealarms s)) (with_call (clientreg a) (with_read s)) in
  run_turn gettimeofday callback s = Some (inl s') /\ alarms_ok s' /\
  filter (past (clock (reads s))) (thealarms s') = filter (past_but (clock (reads s)) (clientreg a)) (thealarms s).
Proof.
  intros Hs E Ei Hd s'. destruct (ao_entries _ Hs a (list_elem_of_lookup_2 _ _ _ Ei)) as [At _ An _ _].
  assert (run_turn gettimeofday callback s = Some (inl s')) as Er.
  { unfold run_turn. rewrite E, (proj2 (passed_iff _ _ An (Hclock _)) Hd), Hinert. cbn [mbind option_bind].
    set (s0 := with_call (clientreg a) (with_read s)). assert (alarms_ok s0) as Hs0 by by eapply alarms_ok_with.
    change (thealarms s0) with (thealarms s). rewrite (find_specific_at i a _ (ao_sorted _ Hs) Ei), Ei. cbn [mbind option_bind].
    change (thealarms s) with (thealarms s0). rewrite (update_called i a) by (done || apply Hclock || apply clock_pos). done. }
  split; [done|]. split.
  - pose proof (alarm_turn_ok s Hs) as Ht. rewrite E, (proj2 (Z.ltb_lt _ _) Hd), Er in Ht. by destruct Ht as (s1 & [= <-] & [C1 _ _ _ _ _]).
  - destruct (filter_out i a (clock (reads s)) (thealarms s) (ao_sorted _ Hs) Ei) as [F1 F2]. cbn [thealarms with_alarms s'].
    unfold called_list. destruct (again _ a) as [b|] eqn:Eag; [|done]. apply F2.
    destruct (again_ok _ _ _ Eag At (Hclock _) (clock_pos _)) as (_ & _ & Hb). lia.
Qed.

(** The lowest of the list is called before the others. *)
Lemma lowest_first s a i now q : alarms_ok s -> sa_find_next s = Some a -> thealarms s !! i = Some a -> due a < now ->
  q ≡ₚ filter (past_but now (clientreg a)) (thealarms s) ->
  a :: q ≡ₚ filter (past now) (thealarms s) /\ (StronglySorted before q -> StronglySorted before (a :: q)).
Proof.
  intros Hs E Ei Hd Hq. pose proof (find_next_ok s Hs) as Hf. rewrite E in Hf. destruct Hf as (l1 & l2 & El & H1 & H2).
  pose proof (ao_sorted _ Hs) as Hreg. rewrite El, fmap_app, fmap_cons in Hreg.
  assert (forall b, b ∈ l2 -> clientreg a < clientreg b) as Hl2.
  { intros b Hb. apply StronglySorted_app_1_r, StronglySorted_inv in Hreg as [_ Hreg]. rewrite Forall_forall in Hreg. apply Hreg. by apply list_elem_of_fmap_2. }
  assert (forall b, b ∈ l1 -> clientreg b < clientreg a) as Hl1.
  { intros b Hb. eapply StronglySorted_app_1_elem_of; [exact Hreg|by apply list_elem_of_fmap_2|constructor]. }
  split.
  - rewrite Hq, El, !filter_app, !filter_cons. rewrite (decide_False (P := due a < now /\ _)) by tauto. rewrite (decide_True (P := due a < now)) by done.
    rewrite (filter_agree (past_but now (clientreg a)) (past now) l1) by (intros b Hb; specialize (Hl1 b Hb); lia).
    rewrite (filter_agree (past_but now (clientreg a)) (past now) l2) by (intros b Hb; specialize (Hl2 b Hb); lia). by rewrite Permutation_middle.
  - intros Hsort. constructor; [done|]. rewrite Forall_forall. intros b Hb. rewrite Hq in Hb. apply list_elem_of_filter in Hb as [[_ Hne] Hb]. rewrite El in Hb.
    unfold before. apply elem_of_app in Hb as [Hb|[->|Hb]%elem_of_cons]; [specialize (H1 b Hb); lia|done|].
    specialize (H2 b Hb). specialize (Hl2 b Hb). lia.
Qed.

Lemma run_due now n : forall s, alarms_ok s -> (forall i, (reads s <= i)%nat -> gettimeofday i = now) -> n = length (filter (past (usecs now)) (thealarms s)) ->
  exists s' q, run_alarms gettimeofday callback (S n) s = Some s' /\ thealarms s' = omap (served now) (thealarms s) /\ calls s' = calls s ++ (clientreg <$> q) /\
    q ≡ₚ filter (past (usecs now)) (thealarms s) /\ StronglySorted before q.
Proof.
  induction n as [|n IH]; intros s Hs Hstill En; pose proof (alarm_turn_ok s Hs) as Ht; pose proof (Hstill (reads s) (le_n _)) as Er.
  - symmetry in En. apply length_zero_iff_nil in En. assert (forall b, b ∈ thealarms s -> usecs now <= due b) as Hall.
    { intros b Hb. destruct (Z.lt_ge_cases (due b) (usecs now)); [|done]. by apply (filter_nil_not_elem_of _ _ b En) in Hb. }
    unfold run_alarms. cbn [cloop]. destruct (sa_find_next s) as [a|] eqn:E.
    + rewrite Er, (proj2 (Z.ltb_ge _ _)) in Ht by (apply Hall; by eapply find_next_lowest). rewrite Ht.
      exists (with_read s), []. rewrite En, app_nil_r, served_nothing by done. by repeat constructor.
    + rewrite Ht. exists s, []. rewrite En, app_nil_r, served_nothing by done. by repeat constructor.
  - destruct (sa_find_next s) as [a|] eqn:E; [|apply find_next_none in E; [|done]; rewrite E in En; done].
    destruct (find_next_lowest s a Hs E) as [Ha Hmin]. apply list_elem_of_lookup in Ha as [i Ei].
    assert (due a < clock (reads s)) as Hd.
    { rewrite Er. destruct (Z.lt_ge_cases (due a) (usecs now)); [done|]. rewrite filter_none in En; [done|]. intros b Hb. specialize (Hmin b Hb). lia. }
    assert (tv_ok now /\ 0 < usecs now) as [Hn Hp] by (rewrite <- Er; split; [apply Hclock|apply clock_pos]).
    pose proof (turn_inert s a i Hs E Ei Hd) as Hturn. rewrite Er in Hturn, Hd. set (s1 := with_alarms _ _) in Hturn. destruct Hturn as (Et & Hs1 & Ef).
    destruct (IH s1 Hs1) as (s' & q & E1 & E2 & E3 & E4 & E5).
    { intros j Hj. apply Hstill. cbn in Hj. lia. }
    { rewrite Ef. destruct (lowest_first s a i (usecs now) _ Hs E Ei Hd (reflexivity _)) as [Hp' _]. apply Permutation_length in Hp'. cbn in Hp'. lia. }
    rewrite Ef in E4. destruct (lowest_first s a i (usecs now) q Hs E Ei Hd E4) as [Hp' Hq]. exists s', (a :: q).
    split; [unfold run_alarms; cbn [cloop]; by rewrite Et|]. split; [|split; [|split; [done|by apply Hq]]].
    + rewrite E2. cbn [thealarms with_alarms s1]. destruct (ao_entries _ Hs a (list_elem_of_lookup_2 _ _ _ Ei)) as [At _ _ _ _]. by apply served_called.
    + rewrite E3. cbn [calls with_alarms with_call with_read s1]. by rewrite <- app_assoc.
Qed.

(** ** The alarms with the timer and the signal *)

(** Zero is passed to [setitimer] when the clock reads exactly the time of the earliest
    alarm. *)
Lemma set_an_alarm_zero s s' : alarms_ok s -> set_an_alarm gettimeofday s = Some s' -> thealarms s <> [] ->
  exists v, itimer s' = Some (v, reads s) /\ (usecs v = 0 <-> (fun a => due a) <$> sa_find_next s = Some (clock (reads s))).
Proof.
  intros Hs E Hne. destruct (set_an_alarm_ok s Hs) as (s1 & E' & _ & _ & _ & _ & _ & H). rewrite E' in E. injection E as ->.
  destruct (sa_find_next s) as [a|] eqn:Ef; [|by apply find_next_none in Ef]. destruct H as (v & Ev & Hv & _ & Eu). exists v. split; [done|].
  destruct (Z.ltb_spec (due a) (clock (reads s))); cbn; split; intros H1; [lia|injection H1; lia|f_equal; lia|injection H1; lia].
Qed.

(** The states that a program brings about: it uses the operations, starts the alarms,
    and gets the signal when the timer has run out, which stops the timer. *)
Inductive live : alarms -> Prop :=
  | live_init : live (Alarms [] false 1 None [] 0)
  | live_api s s' : live s -> api s s' -> live s'
  | live_start s s' : live s -> init_alarm_post_config gettimeofday s = Some s' -> live s'
  | live_signal s v i n s' : live s -> itimer s = Some (v, i) -> 0 < usecs v -> clock i + usecs v <= clock (reads s) ->
      alarm_handler gettimeofday callback n (with_itimer None s) = Some s' -> live s'.

(** What leaves the timer as it is set: alarms are removed and the clock is read. *)
Inductive removals (s0 : alarms) : alarms -> Prop :=
  | removals_none : removals s0 s0
  | removals_unregister r s : removals s0 s -> removals s0 (zevent_alarm_unregister r s)
  | removals_all s : removals s0 s -> removals s0 (zevent_alarm_unregister_all s)
  | removals_read s : removals s0 s -> removals s0 (with_read s).

(** The delay that is wanted when the clock reads [now] and the earliest alarm is [a]. *)
Definition wanted_delay (now : Z) (a : zevent_alarm) : Z := if due a <? now then 1 else due a - now.

(** In [s0] the timer has just been set, for the earliest of the alarms [s0] has. *)
Definition just_set (s0 : alarms) : Prop :=
  exists a v, sa_find_next s0 = Some a /\ (0 < reads s0)%nat /\ itimer s0 = Some (v, pred (reads s0)) /\ usecs v = wanted_delay (clock (pred (reads s0))) a.

(** The timer is set, for the earliest of the alarms there were then: since that time
    alarms have only been removed. *)
Definition armed (s : alarms) : Prop := start_alarms s = true -> thealarms s <> [] -> exists s0, live s0 /\ just_set s0 /\ removals s0 s.

Lemma removals_kept s0 s : removals s0 s -> thealarms s `sublist_of` thealarms s0 /\ itimer s = itimer s0.
Proof.
  induction 1 as [|r s _ [IH1 IH2]|s _ [IH1 IH2]|s _ [IH1 IH2]]; [done| | |done].
  - destruct (unregister_sublist r s) as (l & -> & Hl & _). split; [by etrans|done].
  - split; [apply sublist_nil_l|done].
Qed.

Lemma set_an_alarm_armed s s' : alarms_ok s -> set_an_alarm gettimeofday s = Some s' -> live s' -> alarms_ok s' /\ armed s'.
Proof.
  intros Hs E Hl. destruct (set_an_alarm_ok s Hs) as (s1 & E' & E1 & E2 & E3 & E4 & E5 & H). rewrite E' in E. injection E as ->.
  split; [by eapply alarms_ok_with|]. intros _ Hne. exists s'. split; [done|]. split; [|constructor].
  assert (sa_find_next s' = sa_find_next s) as Ef by (unfold sa_find_next; by rewrite E1).
  destruct (sa_find_next s) as [a|] eqn:Ea; [|apply find_next_none in Ea; [by rewrite E1 in Hne|done]].
  destruct H as (v & Ev & _ & Er & Eu). exists a, v. rewrite Ef, Er. by split_and!; [|lia| |].
Qed.

Lemma register_entry_armed t flags cb arg s r s' : alarms_ok s -> nonneg t -> regnum s < 2 ^ 32 - 1 ->
  register_entry gettimeofday t flags cb arg s = Some (r, s') -> live s' -> armed s'.
Proof.
  intros Hs Ht Hr E Hl. destruct (register_entry_ok t flags cb arg s Hs Ht Hr) as (s1 & (a & _ & _ & _ & _ & _ & E6 & _ & _ & H9) & H2).
  destruct (start_alarms s) eqn:Es.
  - destruct H2 as (s2 & E1 & E2 & _). rewrite E2 in E. injection E as _ <-. by apply (set_an_alarm_armed s1 s2).
  - rewrite H2 in E. injection E as _ <-. intros Hst. congruence.
Qed.

(** One operation after another keeps the timer armed. *)
Lemma api_armed s s' : api s s' -> alarms_ok s -> live s -> armed s -> armed s'.
Proof.
  induction 1 as [s|alloc when flags cb arg s r s1 s2 Hw Hr E _ IH|alloc t flags cb arg s r s1 s2 Ht Hr E _ IH|r s s2 _ IH|s s2 _ IH|s s2 _ IH]; intros Hs Hl Ha.
  - done.
  - assert (live s1) as Hl1 by (eapply live_api; [exact Hl|]; eapply (api_register alloc when); [lia|done|exact E|constructor]).
    unfold zevent_alarm_register in E. destruct alloc; [|injection E as _ <-; by apply IH].
    assert (nonneg (if when =? 0 then Timeval 0 1 else Timeval when 0)) as Ht by (destruct (Z.eqb_spec when 0); split; cbn; lia).
    apply IH; [by apply (effect_register_entry _ _ _ _ _ _ _ Hs Ht Hr E)|done|by apply (register_entry_armed _ _ _ _ _ _ _ Hs Ht Hr E)].
  - assert (live s1) as Hl1 by (eapply live_api; [exact Hl|]; eapply (api_register_hr alloc t); [done|done|exact E|constructor]).
    unfold zevent_alarm_register_hr in E. destruct alloc; [|injection E as _ <-; by apply IH].
    apply IH; [by apply (effect_register_entry _ _ _ _ _ _ _ Hs Ht Hr E)|done|by apply (register_entry_armed _ _ _ _ _ _ _ Hs Ht Hr E)].
  - apply IH; [|eapply live_api; [exact Hl|by eapply api_unregister, api_done]|].
    + destruct (unregister_sublist r s) as (l & -> & Hsub & _). by apply alarms_ok_sublist.
    + destruct (unregister_sublist r s) as (l & El & Hsub & _). intros Hst Hne. destruct Ha as (s0 & H1 & H2 & H3).
      * by rewrite El in Hst.
      * intros En. apply Hne. rewrite El. cbn. rewrite En in Hsub. by apply sublist_nil_r in Hsub.
      * exists s0. by split_and!; [| |constructor].
  - apply IH; [apply alarms_ok_sublist; [done|apply sublist_nil_l]|eapply live_api; [exact Hl|by apply api_unregister_all, api_done]|].
    intros _ Hne. done.
  - apply IH; [by eapply alarms_ok_with|eapply live_api; [exact Hl|by apply api_read, api_done]|].
    intros Hst Hne. destruct (Ha Hst Hne) as (s0 & H1 & H2 & H3). exists s0. by split_and!; [| |constructor].
Qed.

Lemma handler_armed n s s' : alarms_ok s -> alarm_handler gettimeofday callback n s = Some s' -> alarms_ok s' /\ (live s' -> armed s') /\
  exists j, (pred (reads s) <= j)%nat /\ forall a, a ∈ thealarms s' -> clock j <= due a.
Proof.
  intros Hs E. apply bind_Some in E as (s1 & E1 & E2). destruct (run_alarms_kept n _ s1 Hs E1) as [[K1 _ _ K4] Hidle].
  destruct (set_an_alarm_ok s1 K1) as (s2 & E2' & El & _ & Er & _). rewrite E2 in E2'. injection E2' as <-.
  split; [by eapply alarms_ok_with|]. split; [intros Hl; by apply (set_an_alarm_armed s1 s' K1 E2)|]. exists (pred (reads s1)). split; [lia|]. by rewrite El.
Qed.

Lemma live_ok s : live s -> alarms_ok s /\ armed s.
Proof.
  induction 1 as [|s s' Hl [IH1 IH2] Ha|s s' Hl [IH1 IH2] E|s v i n s' Hl [IH1 IH2] Hv H0 Hexp E].
  - split; [split; cbn; [constructor| |lia|]; intros a Ha; by apply not_elem_of_nil in Ha|done].
  - split; [by apply (api_effect s s')|by eapply api_armed].
  - eapply set_an_alarm_armed; [|exact E|by eapply live_start]. by eapply alarms_ok_with.
  - assert (alarms_ok (with_itimer None s)) as Hs by by eapply alarms_ok_with. destruct (handler_armed n _ s' Hs E) as (? & Harm & _).
    split; [done|]. apply Harm. by eapply live_signal.
Qed.

(** What is right for the alarms of [s0] is in time for those left of them. *)
Lemma just_set_in_time s0 s : alarms_ok s0 -> just_set s0 -> removals s0 s -> exists a v,
  itimer s = Some (v, pred (reads s0)) /\ a ∈ thealarms s0 /\ (forall b, b ∈ thealarms s0 -> due a <= due b) /\
  usecs v = wanted_delay (clock (pred (reads s0))) a /\
  (0 < usecs v -> forall b, b ∈ thealarms s -> clock (pred (reads s0)) + usecs v <= Z.max (due b) (clock (pred (reads s0)) + 1)).
Proof.
  intros Hs (a & v & Ea & _ & Ev & Eu) Hr. destruct (removals_kept _ _ Hr) as [Hsub Et]. destruct (find_next_lowest _ _ Hs Ea) as [Hin Hmin].
  exists a, v. rewrite Et. split_and!; try done. intros _ b Hb. rewrite Eu. unfold wanted_delay.
  pose proof (Hmin b (elem_of_sublist _ _ _ Hb Hsub)). destruct (Z.ltb_spec (due a) (clock (pred (reads s0)))); lia.
Qed.

Lemma ends_by_any T s : alarms_ok s -> ends_by T s.
Proof.
  intros Hs. destruct (Z.lt_ge_cases T 0) as [HT|HT]; [exists O; right; exists s; split; [done|]; pose proof (clock_pos (reads s)); lia|].
  apply (ends_by_measure T (Z.to_nat T) (length (filter (fun b => (due b = T - Z.of_nat (Z.to_nat T))%Z) (thealarms s)))); [done| |done].
  intros b Hb. destruct (ao_entries _ Hs b Hb) as [Ht _ _ Hp Hd]. unfold nonneg, usecs in *. lia.
Qed.

(** [run_alarms] does not go on for ever while the clock does not: whatever callbacks
    do to the alarms, for every time [T] there is a number of turns after which the loop
    has ended or the clock is past [T]; and when it has ended nothing is left that was
    due at the last reading of the clock. *)
Theorem run_alarms_ends T s :
  live s ->
  ends_by T s /\ forall n s', run_alarms gettimeofday callback n s = Some s' -> alarms_ok s' /\ idle s'.
Proof.
  intros Hl. destruct (live_ok s Hl) as [Hs _]. split; [by apply ends_by_any|]. intros n s' E. by destruct (run_alarms_kept n s s' Hs E) as [[H _ _ _] Hi].
Qed.

(** When the callbacks leave the alarms alone and the clock stands at [now],
    [run_alarms] ends and calls exactly the alarms that were due, each once, in the order
    of their times and, at the same time, of their registration; those that repeat are set
    for [now] plus their interval, the others are gone, and what was not due is as it
    was. *)
Theorem run_alarms_due now s :
  live s -> (forall i, (reads s <= i)%nat -> gettimeofday i = now) ->
  exists s' q, run_alarms gettimeofday callback (S (length (thealarms s))) s = Some s' /\
    calls s' = calls s ++ (clientreg <$> q) /\ q ≡ₚ filter (past (usecs now)) (thealarms s) /\ StronglySorted before q /\
    thealarms s' = omap (served now) (thealarms s).
Proof.
  intros Hl Hstill. destruct (live_ok s Hl) as [Hs _]. destruct (run_due now _ s Hs Hstill eq_refl) as (s' & q & E1 & E2 & E3 & E4 & E5).
  exists s', q. split; [|by split_and!]. eapply cloop_mono; [exact E1|]. apply le_n_S, sublist_length, sublist_filter.
Qed.

(** The signal that the timer sends finds the handler ready. *)
Lemma signal_served s v i T : live s -> itimer s = Some (v, i) -> 0 < usecs v -> clock i + usecs v <= clock (reads s) ->
  (exists n s', alarm_handler gettimeofday callback n (with_itimer None s) = Some s' /\ live s' /\
    exists j, (pred (reads s) <= j)%nat /\ forall a, a ∈ thealarms s' -> clock j <= due a) \/
  (exists n s', run_turns n (with_itimer None s) = Some s' /\ T < clock (reads s')).
Proof.
  intros Hl Ei Hp Hexp. destruct (live_ok s Hl) as [Hs _]. assert (alarms_ok (with_itimer None s)) as Hs0 by by eapply alarms_ok_with.
  destruct (ends_by_any T _ Hs0) as (n & [[s1 E]|(s1 & E & HT)]); [left|right; by exists n, s1].
  destruct (run_alarms_kept n _ s1 Hs0 E) as [[K1 _ _ _] _]. destruct (set_an_alarm_ok s1 K1) as (s' & E' & _).
  assert (alarm_handler gettimeofday callback n (with_itimer None s) = Some s') as Eh by (unfold alarm_handler; by rewrite E).
  exists n, s'. split; [done|]. split; [by eapply live_signal|]. by destruct (handler_armed n _ s' Hs0 Eh) as (_ & _ & Hj).
Qed.

(** C13: No alarm is forgotten, and the timer is set neither late nor early. In every
    state that a program brings about, while there are alarms and they have been started,
    the timer was last set in a state [s0], since which alarms have only been removed, and
    exactly for the earliest alarm [a0] of [s0]: the delay is the time of [a0] less the
    reading of the clock, or a microsecond if that time had passed. So no alarm left is
    due before the timer runs out, but by that microsecond. The signal then finds the
    handler ready: it ends or the clock passes any bound, and leaves a state of the same
    kind in which nothing is late. The one exception is a delay of zero, which is set just
    when the clock reads exactly the time of the earliest alarm, and which stops the
    timer. The clock does not go back, callbacks do nothing but use the operations, and
    the registration numbers do not wrap. *)
Theorem alarms_served s :
  live s -> start_alarms s = true -> thealarms s <> [] ->
  exists s0 a0 v, let i := pred (reads s0) in
    live s0 /\ removals s0 s /\ a0 ∈ thealarms s0 /\ (forall b, b ∈ thealarms s0 -> due a0 <= due b) /\
    itimer s = Some (v, i) /\ usecs v = (if due a0 <? clock i then 1 else due a0 - clock i) /\
    (usecs v = 0 /\ due a0 = clock i \/
     0 < usecs v /\ (forall a, a ∈ thealarms s -> clock i + usecs v <= Z.max (due a) (clock i + 1)) /\
     (clock i + usecs v <= clock (reads s) -> forall T,
       (exists n s', alarm_handler gettimeofday callback n (with_itimer None s) = Some s' /\ live s' /\
         exists j, (pred (reads s) <= j)%nat /\ forall a, a ∈ thealarms s' -> clock j <= due a) \/
       (exists n s', run_turns n (with_itimer None s) = Some s' /\ T < clock (reads s')))).
Proof.
  intros Hl Hst Hne. destruct (live_ok s Hl) as [Hs Harm]. destruct (Harm Hst Hne) as (s0 & Hl0 & Hset & Hrem).
  destruct (live_ok s0 Hl0) as [Hs0 _]. destruct (just_set_in_time s0 s Hs0 Hset Hrem) as (a0 & v & Ei & Hin & Hmin & Eu & Hd).
  exists s0, a0, v. cbn zeta. split_and!; try done. unfold wanted_delay in Eu.
  destruct (Z.ltb_spec (due a0) (clock (pred (reads s0)))) as [Hlt|Hge]; [|destruct (Z.eq_dec (due a0) (clock (pred (reads s0)))); [left; lia|]];
    (right; assert (0 < usecs v) as Hp by lia; split; [done|]; split; [by apply Hd|]; intros Hexp T; by eapply signal_served).
Qed.
End Operations.

(** ** A sample *)

(** The clock goes on by four seconds at each reading, until 2000 seconds. *)
Definition sample_clock (i : nat) : timeval := Timeval (Z.min (1000 + 4 * Z.of_nat i) 2000) 0.

(** Callback 1 registers an alarm of ten seconds, as [fun1] of the test program does. *)
Definition sample_callback (cb r arg : Z) (s : alarms) : option alarms :=
  if (cb =? 1) && (regnum s <? 2 ^ 32 - 1) then snd <$> zevent_alarm_register sample_clock true 10 SA_REPEAT 0 0 s else Some s.

Lemma sample_clock_ok i : tv_ok (sample_clock i).
Proof. unfold tv_ok, sample_clock. cbn. lia. Qed.

Lemma sample_clock_mono i j : (i <= j)%nat -> usecs (sample_clock i) <= usecs (sample_clock j).
Proof. unfold usecs, sample_clock. cbn. lia. Qed.

Lemma sample_callback_ok cb r arg s : alarms_ok s -> exists s', sample_callback cb r arg s = Some s' /\ api sample_clock s s'.
Proof.
  intros Hs. unfold sample_callback. destruct ((cb =? 1) && _) eqn:E; [|exists s; split; [done|constructor]].
  apply andb_true_iff in E as [_ Hr%Z.ltb_lt]. unfold zevent_alarm_register. change (if 10 =? 0 then _ else _) with (Timeval 10 0).
  destruct (register_entry_ok sample_clock sample_clock_ok sample_clock_mono eq_refl (Timeval 10 0) SA_REPEAT 0 0 s Hs) as (s1 & _ & H); [by split|done|].
  assert (exists s', register_entry sample_clock (Timeval 10 0) SA_REPEAT 0 0 s = Some (regnum s, s')) as [s' Es].
  { destruct (start_alarms s); [destruct H as (s' & _ & H & _); by exists s'|by exists s1]. }
  rewrite Es. exists s'. split; [done|]. eapply (api_register _ true 10); [lia|done|exact Es|constructor].
Qed.

Definition sample_start : option alarms :=
  s ← init_alarm_post_config sample_clock (Alarms [] false 1 None [] 0);
  snd <$> zevent_alarm_register sample_clock true 5 0 1 0 s.

Lemma sample_live : exists s, sample_start = Some s /\ live sample_clock sample_callback s.
Proof.
  unfold sample_start. eexists. split; [by vm_compute|].
  eapply live_api; [eapply live_start; [apply live_init|by vm_compute]|].
  eapply (api_register _ true 5 0 1 0); [lia|done|by vm_compute|constructor].
Qed.

Lemma run_alarms_ends_witness : exists s, sample_start = Some s /\ ends_by sample_clock sample_callback 1900000000 s.
Proof.
  destruct sample_live as (s & E & Hl). exists s. split; [exact E|].
  exact (proj1 (run_alarms_ends sample_clock sample_clock_ok sample_clock_mono eq_refl sample_callback sample_callback_ok 1900000000 s Hl)).
Defined.

Lemma alarms_served_witness : exists s v i, sample_start = Some s /\ itimer s = Some (v, i) /\ usecs v = 1000000 /\
  (exists s0 a0, live sample_clock sample_callback s0 /\ removals s0 s /\ a0 ∈ thealarms s0 /\ due a0 = usecs (sample_clock i) + 1000000) /\
  ((exists n s', alarm_handler sample_clock sample_callback n (with_itimer None s) = Some s' /\ live sample_clock sample_callback s') \/
   exists n s', run_turns sample_clock sample_callback n (with_itimer None s) = Some s' /\ 1900000000 < usecs (sample_clock (reads s'))).
Proof.
  destruct sample_live as (s & E & Hl). exists s.
  assert (start_alarms s = true /\ thealarms s <> [] /\ itimer s = Some (Timeval 1 0, 1%nat) /\ reads s = 2%nat) as (H1 & H2 & H3 & H4).
  { revert E. unfold sample_start. vm_compute. by intros [= <-]. }
  destruct (alarms_served sample_clock sample_clock_ok sample_clock_mono eq_refl sample_callback sample_callback_ok s Hl H1 H2)
    as (s0 & a0 & v & H5 & H6 & H7 & _ & Ei & Eu & [[Hz _]|(_ & _ & H)]); rewrite H3 in Ei; injection Ei as <- Ei; rewrite <- Ei in *; [done|].
  exists (Timeval 1 0), 1%nat. split; [exact E|]. split; [exact H3|]. split; [reflexivity|]. split.
  - exists s0, a0. split; [done|]. split; [done|]. split; [done|]. revert Eu. change (usecs (Timeval 1 0)) with 1000000. destruct (_ <? _); lia.
  - rewrite H4 in H. destruct (H ltac:(by vm_compute) 1900000000) as [(n & s' & H8 & H9 & _)|H8]; [left; by exists n, s'|right; exact H8].
Defined.

(** A clock that stands at 1000 seconds for [n] readings, and at 1005 from then on. *)
Definition step_clock (n : nat) (i : nat) : timeval := Timeval (if (i <? n)%nat then 1000 else 1005) 0.
Definition no_callback (cb r arg : Z) (s : alarms) : option alarms := Some s.

Lemma step_clock_ok n i : tv_ok (step_clock n i).
Proof. unfold tv_ok, step_clock. destruct (i <? n)%nat; cbn; lia. Qed.

Lemma step_clock_mono n i j : (i <= j)%nat -> usecs (step_clock n i) <= usecs (step_clock n j).
Proof. unfold usecs, step_clock. destruct (Nat.ltb_spec i n), (Nat.ltb_spec j n); cbn; lia. Qed.

Lemma no_callback_ok n cb r arg s : alarms_ok s -> exists s', no_callback cb r arg s = Some s' /\ api (step_clock n) s s'.
Proof. intros _. exists s. split; [done|constructor]. Qed.

(** Three alarms, of 4 seconds, of 3 seconds with repetition, and of 9 seconds. *)
Definition three_alarms : option alarms :=
  s ← init_alarm_post_config (step_clock 5) (Alarms [] false 1 None [] 0);
  s ← snd <$> zevent_alarm_register (step_clock 5) true 4 0 0 0 s;
  s ← snd <$> zevent_alarm_register (step_clock 5) true 3 SA_REPEAT 0 0 s;
  snd <$> zevent_alarm_register (step_clock 5) true 9 0 0 0 s.

Lemma three_live : exists s, three_alarms = Some s /\ live (step_clock 5) no_callback s.
Proof.
  eexists. split; [by vm_compute|]. eapply live_api; [eapply live_start; [apply live_init|by vm_compute]|].
  eapply (api_register _ true 4 0 0 0); [lia|done|by vm_compute|].
  eapply (api_register _ true 3 SA_REPEAT 0 0); [lia|done|by vm_compute|].
  eapply (api_register _ true 9 0 0 0); [lia|done|by vm_compute|constructor].
Qed.

Lemma three_known : (fun s => (length (thealarms s), reads s, clientreg <$> omap (served (Timeval 1005 0)) (thealarms s))) <$> three_alarms = Some (3%nat, 6%nat, [2; 3]).
Proof. by vm_compute. Qed.

Lemma run_alarms_due_witness : exists s s', three_alarms = Some s /\ run_alarms (step_clock 5) no_callback 4 s = Some s' /\
  clientreg <$> thealarms s' = [2; 3].
Proof.
  destruct three_live as (s & E & Hl). exists s.
  pose proof three_known as Hk. rewrite E in Hk. injection Hk as H1 H2 H3.
  destruct (run_alarms_due (step_clock 5) (step_clock_ok 5) (step_clock_mono 5) eq_refl no_callback (no_callback_ok 5) (fun _ _ _ _ => eq_refl) (Timeval 1005 0) s Hl)
    as (s' & q & E1 & _ & _ & _ & E2).
  - intros i Hi. unfold step_clock. rewrite H2 in Hi. by rewrite (proj2 (Nat.ltb_ge i 5)) by lia.
  - rewrite H1 in E1. exists s'. split; [exact E|]. split; [exact E1|]. rewrite E2. exact H3.
Defined.

(** A signal that comes on the microsecond: the alarm is not due yet, the timer is set to
    zero, and the alarm is never called. *)
Definition stalled : option alarms :=
  s ← init_alarm_post_config (step_clock 2) (Alarms [] false 1 None [] 0);
  s ← snd <$> zevent_alarm_register (step_clock 2) true 5 0 0 0 s;
  alarm_handler (step_clock 2) no_callback 1 (with_itimer None s).
Example alarm_stalls : (fun s => (clientreg <$> thealarms s, calls s, fst <$> itimer s)) <$> stalled = Some ([1], [], Some (Timeval 0 0)).
Proof. by vm_compute. Qed.

(** An alarm of a microsecond, when the clock goes on faster than the callback. *)
Definition busy : option alarms :=
  s ← init_alarm_post_config sample_clock (Alarms [] false 1 None [] 0);
  s ← snd <$> zevent_alarm_register sample_clock true 0 SA_REPEAT 0 0 s;
  run_alarms sample_clock no_callback 200 s.
Example alarm_busy : busy = None.
Proof. by vm_compute. Qed.
