(* ===== verification/BencGet.v ===== *)
(** The typed accessors of [libbt/misc/benc.c] over [Benc], and what they do on the
    encoding of a value: [at_ p v] says that the encoding of [v] lies at [p], and each
    accessor at [p] has its result stated on [v].

    Copied strings are the lists of their bytes; whether an allocation succeeds is an
    argument.  [size_t] has 64 bits. *)
From S2P Require Import Prelude Benc.
Local Open Scope Z_scope.

Definition ch_plus : Z := 43.
Definition isspace (c : Z) : bool := (c =? 32) || ((9 <=? c) && (c <=? 13)).

Inductive be_type := BE_ANY | BE_DCT | BE_INT | BE_LST | BE_STR.

Section Access.
Context (m : list Z) (base : Z).

Fixpoint skip_space (fuel : nat) (p : Z) : option Z :=
  match fuel with
  | O => None
  | S fuel => c ← rd m p; if isspace c then skip_space fuel (p + 1) else Some p
  end.

(** [_strtoi64(p, &endptr, 10)]: the value, held within 64 bits, and [endptr]. *)
Definition strtoi64 (p : Z) : option (Z * Z) :=
  q ← skip_space (S (length m)) p;
  c ← rd m q;
  let neg := c =? ch_minus in
  let q := if neg || (c =? ch_plus) then q + 1 else q in
  c ← rd m q;
  if isdigit c then
    '(v, endptr) ← strtoul m q;
    Some ((if neg then Z.max (- v) (- 2 ^ 63) else Z.min v (2 ^ 63 - 1)), endptr)
  else Some (0, p).

(** [next] is not asked for. *)
Definition benc_int (p : Z) : option Z :=
  i ← benc_isint m p;
  if negb i then Some 0
  else
    '(res, endptr) ← strtoi64 (p + 1);
    c ← rd m endptr;
    _ ← ensure (c =? ch_e);
    Some res.

Definition benc_strlen (p : Z) : option Z := '(n, _) ← strtoul m p; Some n.

Definition copy_bytes (p n : Z) : option (list Z) :=
  if (0 <=? p) && (0 <=? n) then mread m (Z.to_nat p) (Z.to_nat n) else None.

(** The copy, without the NUL that [benc_str] puts behind it; [Some None] is [NULL]. *)
Definition benc_str (alloc : bool) (p : Z) : option (option (list Z)) :=
  r ← benc_mem m p;
  match r with
  | None => Some None
  | Some r => if alloc then ret ← copy_bytes (mem_ptr r) (mem_len r); Some (Some ret) else Some None
  end.
Definition benc_mema (alloc : bool) (p : Z) : option (option (list Z)) :=
  r ← benc_mem m p;
  match r with
  | None => Some None
  | Some r => if alloc then ret ← copy_bytes (mem_ptr r) (mem_len r); Some (Some ret) else Some None
  end.

Definition benc_dget_str (alloc : bool) (p : Z) (key : list Z) : option (option (list Z)) :=
  str ← dget_typed m base (benc_isstr m) p key;
  match str with None => Some None | Some q => benc_str alloc q end.
Definition benc_dget_mema (alloc : bool) (p : Z) (key : list Z) : option (option (list Z)) :=
  str ← dget_typed m base (benc_isstr m) p key;
  match str with None => Some None | Some q => benc_mema alloc q end.
Definition benc_dget_int (p : Z) (key : list Z) : option Z :=
  intp ← dget_typed m base (benc_isint m) p key;
  match intp with None => Some 0 | Some q => benc_int q end.

(** [strncmp] of the bytes of two strings, up to [n]. *)
Fixpoint strncmp (n : nat) (cs1 cs2 : Z) : option Z :=
  match n with
  | O => Some 0
  | S n =>
      a ← rd m cs1; b ← rd m cs2;
      if a =? b then if a =? 0 then Some 0 else strncmp n (cs1 + 1) (cs2 + 1)
      else Some (if a <? b then -1 else 1)
  end.
Definition benc_strcmp (str1 str2 : Z) : option Z :=
  r1 ← benc_mem m str1; r2 ← benc_mem m str2;
  r1 ← r1; r2 ← r2;
  test ← strncmp (Z.to_nat (Z.min (mem_len r1) (mem_len r2))) (mem_ptr r1) (mem_ptr r2);
  Some (if test =? 0 then if mem_len r1 =? mem_len r2 then 0 else if mem_len r1 <? mem_len r2 then -1 else 1 else test).

Definition benc_istype (p : Z) (type : be_type) : option bool :=
  match type with
  | BE_ANY =>
      d ← benc_isdct m p; i ← benc_isint m p; l ← benc_islst m p; s ← benc_isstr m p;
      Some (d || i || l || s)
  | BE_DCT => benc_isdct m p
  | BE_INT => benc_isint m p
  | BE_LST => benc_islst m p
  | BE_STR => benc_isstr m p
  end.

(** The variable arguments are a list: a type and the keys, outermost first. *)
Fixpoint chk_path (dct : Z) (keys : list (list Z)) (type : be_type) : option bool :=
  match keys with
  | [] => None
  | [key] => val ← benc_dget_any m base dct key; match val with None => Some false | Some q => benc_istype q type end
  | key :: keys => d ← benc_dget_dct m base dct key; match d with None => Some false | Some q => chk_path q keys type end
  end.
Fixpoint chk_all (p : Z) (args : list (be_type * list (list Z))) : option bool :=
  match args with
  | [] => Some true
  | (type, keys) :: args => ok ← chk_path p keys type; if ok : bool then chk_all p args else Some false
  end.
Definition benc_dct_chk (p : Z) (args : list (be_type * list (list Z))) : option bool :=
  d ← benc_isdct m p; if d : bool then chk_all p args else Some false.
End Access.

(** ** Values *)

Definition int_of (neg : bool) (ds : list Z) : Z := if neg then - dec ds else dec ds.

Definition as_str (v : bval) : option (list Z) := match v with BStr s => Some s | _ => None end.
(** A dictionary can be gone through as a list can. *)
Definition as_lst (v : bval) : option (list bval) := match v with BList l | BDict l => Some l | _ => None end.
Definition as_dct (v : bval) : option (list bval) := match v with BDict l => Some l | _ => None end.
Definition as_int (v : bval) : option Z := match v with BInt neg ds => Some (int_of neg ds) | _ => None end.

Definition lookup_key (key : list Z) (v : bval) : option bval := l ← as_dct v; dict_get key l.
Definition get_str (key : list Z) (v : bval) : option (list Z) := lookup_key key v ≫= as_str.
Definition get_int (key : list Z) (v : bval) : Z := default 0 (lookup_key key v ≫= as_int).
Definition get_dct (key : list Z) (v : bval) : option bval := w ← lookup_key key v; _ ← as_dct w; Some w.
Definition get_lst (key : list Z) (v : bval) : option (list bval) := lookup_key key v ≫= as_lst.

Definition is_type (v : bval) (type : be_type) : bool :=
  match type with
  | BE_ANY => true
  | BE_DCT => bool_decide (is_Some (as_dct v))
  | BE_INT => bool_decide (is_Some (as_int v))
  | BE_LST => bool_decide (is_Some (as_lst v))
  | BE_STR => bool_decide (is_Some (as_str v))
  end.

(** ** The accessors on values *)

Section Values.
Context (m : list Z) (base : Z).
Hypothesis Hbase : addressable m base.
Hypothesis Hruns : sane_runs m.

(** The encoding of [v], or of the members [l] with the end behind them, lies at [p]. *)
Definition at_ (p : Z) (v : bval) : Prop := exists bs r, benc v bs /\ suffix m p (bs ++ r).
Definition list_at (p : Z) (l : list bval) : Prop := exists bs r, bencs l bs /\ suffix m p (bs ++ ch_e :: r).

Lemma at_head p v : at_ p v -> exists c r, rd m p = Some c /\ suffix m p (c :: r) /\
  match v with
  | BStr _ => isdigit c = true
  | BInt _ _ => c = ch_i
  | BList _ => c = ch_l
  | BDict _ => c = ch_d
  end.
Proof.
  intros (bs & r & Hv & Hs). destruct Hv as [ds s [Hne Hd] _|neg ds Hd|l bs Hb|l bs Hb Hp].
  - destruct ds as [|c ds]; [done|]. apply Forall_cons in Hd as [Hc _]. exists c. eexists. split; [eapply suffix_rd; exact Hs|]. split; [exact Hs|done].
  - exists ch_i. eexists. split; [eapply suffix_rd; exact Hs|]. by split.
  - exists ch_l. eexists. split; [eapply suffix_rd; exact Hs|]. by split.
  - exists ch_d. eexists. split; [eapply suffix_rd; exact Hs|]. by split.
Qed.

Lemma at_types p v : at_ p v -> benc_isstr m p = Some (bool_decide (is_Some (as_str v))) /\ benc_isint m p = Some (bool_decide (is_Some (as_int v))) /\
  benc_islst m p = Some (bool_decide (is_Some (as_lst v))) /\ benc_isdct m p = Some (bool_decide (is_Some (as_dct v))).
Proof.
  intros (c & r & E & _ & Hc)%at_head. unfold benc_isstr, benc_isint, benc_islst, benc_isdct. rewrite E. cbn [mbind option_bind].
  destruct v as [s|neg ds|l|l]; cbn [as_str as_int as_lst as_dct]; try (subst c; by vm_compute).
  rewrite Hc. apply isdigit_range in Hc. unfold ch_i, ch_l, ch_d. rewrite !(proj2 (Z.eqb_neq _ _)) by lia.
  by split_and!.
Qed.

Lemma at_istype p v type : at_ p v -> benc_istype m p type = Some (is_type v type).
Proof.
  intros Hv. destruct (at_types p v Hv) as (E1 & E2 & E3 & E4). destruct type; cbn [benc_istype is_type]; try done.
  rewrite E1, E2, E3, E4. cbn [mbind option_bind]. by destruct v.
Qed.

(** *** Going through a list *)

Lemma at_first p v l : at_ p v -> as_lst v = Some l -> benc_first m p = Some (member_ptr l (p + 1)) /\ list_at (p + 1) l.
Proof.
  intros (bs & r & Hv & Hs) El. destruct Hv as [ds s Hd _|neg ds Hd|l' bs Hb|l' bs Hb Hp]; try done; injection El as ->; cbn in Hs; rewrite <- app_assoc in Hs.
  - destruct (benc_first_ok m ch_l l bs r p eq_refl Hb Hs) as [H1 H2]. split; [done|]. by exists bs, r.
  - destruct (benc_first_ok m ch_d l bs r p eq_refl Hb Hs) as [H1 H2]. split; [done|]. by exists bs, r.
Qed.

Lemma list_at_cons p v l : list_at p (v :: l) -> at_ p v /\ exists q, benc_next m base p = Some (member_ptr l q) /\ list_at q l /\ p < q.
Proof.
  intros (bs & r & Hb & Hs). inversion Hb as [|? ? b1 b2 Hv Hl]; subst. rewrite <- app_assoc in Hs.
  split; [by exists b1, (b2 ++ ch_e :: r)|]. exists (p + Z.of_nat (length b1)). pose proof (suffix_app _ _ _ _ Hs) as Hs2.
  destruct (members_ptr m _ _ _ _ Hl Hs2) as (c & r' & E & Hc). rewrite E in Hs.
  rewrite (benc_next_ok m base Hbase v b1 c r' p Hv Hs), Hc. split; [done|]. split; [by exists b2, r|]. pose proof (benc_length_ge _ _ Hv). lia.
Qed.

Lemma list_at_length p l : list_at p l -> (length l < length m)%nat.
Proof.
  intros (bs & r & Hb & Hs). destruct (suffix_le m _ _ Hs) as [Hp Hl]. rewrite length_app in Hl. cbn in Hl. pose proof (bencs_length _ _ Hb). lia.
Qed.

Lemma at_nelems p v l : at_ p v -> as_lst v = Some l -> benc_nelems m base p = Some (Z.of_nat (length l)).
Proof.
  intros Hv El. destruct (at_first p v l Hv El) as [E Hl]. unfold benc_nelems. rewrite E. cbn [mbind option_bind].
  pose proof (list_at_length _ _ Hl) as Hlen. destruct Hl as (bs & r & Hb & Hs). destruct Hbase as [Hb0 Hb1].
  rewrite (nelems_ok m base Hbase l bs r (p + 1) 0); [done|done|done|lia|lia|lia].
Qed.

Lemma whole_at v : benc v m -> at_ 0 v.
Proof. intros Hv. exists m, []. split; [done|]. rewrite app_nil_r. apply suffix_start. Qed.

Lemma validate_whole v : benc v m -> benc_validate m base (text_fuel m) (Z.of_nat (length m)) = Some 0.
Proof. intros Hv. destruct (benc_validate_correct m base Hbase Hruns) as [[_ ->]|[Hn _]]; [done|]. exfalso. apply Hn. by exists v. Qed.

Lemma validate_not : ~ (exists v, benc v m) -> benc_validate m base (text_fuel m) (Z.of_nat (length m)) = Some EINVAL.
Proof. intros Hn. by destruct (benc_validate_correct m base Hbase Hruns) as [[H _]|[_ ->]]. Qed.

(** *** Strings and integers *)

Lemma copy_suffix p s r : suffix m p (s ++ r) -> copy_bytes m p (Z.of_nat (length s)) = Some s.
Proof.
  intros Hs. pose proof (suffix_le m _ _ Hs) as [Hp Hl]. rewrite length_app in Hl. unfold copy_bytes.
  rewrite (proj2 (Z.leb_le 0 p)) by done. rewrite (proj2 (Z.leb_le 0 (Z.of_nat (length s)))) by lia. cbn [andb]. rewrite Nat2Z.id, mread_ok by lia.
  destruct Hs as (_ & _ & ->). by rewrite take_app_length.
Qed.

Lemma copied_suffix a s : copy_bytes m a (Z.of_nat (length s)) = Some s -> exists r, suffix m a (s ++ r).
Proof.
  unfold copy_bytes. destruct (0 <=? a) eqn:Ea; [|done]. apply Z.leb_le in Ea. rewrite (proj2 (Z.leb_le 0 (Z.of_nat (length s)))) by lia. cbn [andb]. rewrite Nat2Z.id.
  unfold mread. case_bool_decide as Hl; [|done]. intros [= Es]. exists (drop (length s) (drop (Z.to_nat a) m)). rewrite <- Es at 1. rewrite take_drop.
  split; [done|]. split; [rewrite length_drop; lia|done].
Qed.

Lemma at_mem p s : at_ p (BStr s) -> exists a, benc_mem m p = Some (Some (Mem a (Z.of_nat (length s)))) /\ copy_bytes m a (Z.of_nat (length s)) = Some s /\
  0 <= a /\ a + Z.of_nat (length s) <= Z.of_nat (length m).
Proof.
  intros (bs & r & Hv & Hs). inversion Hv as [ds ? Hd He| | |]; subst. destruct (benc_mem_ok m base Hbase ds s r p Hd He Hs) as (_ & E & Hs').
  eexists. split; [exact E|]. split; [by eapply copy_suffix|]. pose proof (suffix_le m _ _ Hs') as [Hp Hl]. rewrite length_app in Hl. lia.
Qed.

Lemma at_mem_not p v : at_ p v -> as_str v = None -> benc_mem m p = Some None.
Proof. intros Hv E. destruct (at_types p v Hv) as (H & _). unfold benc_mem. rewrite H, E. done. Qed.

(** A string of a list, with the pointer that [benc_mem] leaves behind it. *)
Lemma list_at_mem p s l : list_at p (BStr s :: l) -> exists a, benc_mem m p = Some (Some (Mem a (Z.of_nat (length s)))) /\
  copy_bytes m a (Z.of_nat (length s)) = Some s /\
  exists q, mem_next m base (Mem a (Z.of_nat (length s))) = Some (member_ptr l q) /\ list_at q l.
Proof.
  intros (bs & r & Hb & Hs). inversion Hb as [|? ? b1 b2 Hv Hl]; subst. inversion Hv as [ds ? Hd He| | |]; subst. rewrite <- app_assoc in Hs.
  destruct (benc_mem_ok m base Hbase ds s _ p Hd He Hs) as (_ & E & Hs'). eexists. split; [exact E|]. split; [by eapply copy_suffix|].
  pose proof (suffix_le m _ _ Hs') as [Hp Hlen]. rewrite length_app in Hlen. apply suffix_app in Hs'.
  destruct (members_ptr m _ _ _ _ Hl Hs') as (c & r' & Ec & Hc). eexists. split; [|by exists b2, r].
  unfold mem_next. cbn [mem_ptr mem_len]. rewrite (padd_in m base Hbase) by lia. rewrite Ec in Hs'. rewrite (suffix_rd _ _ _ _ Hs'). cbn [mbind option_bind]. by rewrite Hc.
Qed.

Lemma at_str alloc p v : at_ p v -> benc_str m alloc p = Some (if alloc then as_str v else None) /\ benc_mema m alloc p = Some (if alloc then as_str v else None).
Proof.
  intros Hv. unfold benc_str, benc_mema. destruct (as_str v) as [s|] eqn:E.
  - destruct v; try done. injection E as ->. destruct (at_mem p s Hv) as (a & -> & Ec & _). cbn [mbind option_bind mem_ptr mem_len]. rewrite Ec. by destruct alloc.
  - rewrite (at_mem_not p v Hv E). cbn [mbind option_bind]. by destruct alloc.
Qed.

Lemma strtoul_end q c ds r : suffix m q (c :: ds ++ ch_e :: r) -> Forall (fun c => isdigit c = true) (c :: ds) ->
  exists e, strtoul m q = Some (dec (c :: ds), e) /\ rd m e = Some ch_e /\ 0 <= dec (c :: ds) < 2 ^ 63.
Proof.
  intros Hs Hd. pose proof (suffix_dec m Hruns q (c :: ds) (ch_e :: r) Hs Hd) as Hdec. pose proof (suffix_app m q (c :: ds) _ Hs) as Hs2.
  exists (q + Z.of_nat (length (c :: ds))). rewrite (strtoul_ok m q (c :: ds) (ch_e :: r)) by done. split; [do 2 f_equal; lia|].
  split; [by eapply suffix_rd|done].
Qed.

Lemma int_steps p (neg : bool) c ds r : suffix m p ((if neg then [ch_minus] else []) ++ c :: ds ++ ch_e :: r) -> Forall (fun c => isdigit c = true) (c :: ds) ->
  exists e, strtoi64 m p = Some (int_of neg (c :: ds), e) /\ rd m e = Some ch_e.
Proof.
  intros Hs Hd. pose proof (Forall_cons_1 _ _ _ Hd) as [Hc _].
  assert (isspace c = false /\ c <> ch_minus /\ c <> ch_plus) as (Hsp & Hm & Hpl).
  { apply isdigit_range in Hc. unfold isspace, ch_minus, ch_plus. split_and!; [|lia|lia]. apply orb_false_iff. split; [apply Z.eqb_neq; lia|].
    apply andb_false_iff. right. apply Z.leb_gt. lia. }
  unfold strtoi64. cbn [skip_space]. destruct neg; cbn [app] in Hs; rewrite (suffix_rd _ _ _ _ Hs); cbn [mbind option_bind].
  - change (isspace ch_minus) with false. cbv iota. cbn [mbind option_bind]. rewrite (suffix_rd _ _ _ _ Hs). cbn [mbind option_bind].
    change (ch_minus =? ch_minus) with true. cbn [orb]. apply suffix_cons in Hs. rewrite (suffix_rd _ _ _ _ Hs). cbn [mbind option_bind]. rewrite Hc.
    destruct (strtoul_end _ c ds r Hs Hd) as (e & -> & He & Hr). exists e. split; [|done]. cbn [mbind option_bind int_of]. do 2 f_equal. lia.
  - rewrite Hsp. cbn [mbind option_bind]. rewrite (suffix_rd _ _ _ _ Hs). cbn [mbind option_bind]. rewrite !(proj2 (Z.eqb_neq c _)) by done. cbn [orb].
    rewrite (suffix_rd _ _ _ _ Hs). cbn [mbind option_bind]. rewrite Hc.
    destruct (strtoul_end _ c ds r Hs Hd) as (e & -> & He & Hr). exists e. split; [|done]. cbn [mbind option_bind int_of]. do 2 f_equal. lia.
Qed.

Lemma at_int p v : at_ p v -> benc_int m p = Some (default 0 (as_int v)).
Proof.
  intros Hv. destruct (at_types p v Hv) as (_ & E & _). unfold benc_int. rewrite E. cbn [mbind option_bind].
  destruct v as [s|neg ds|l|l]; try done. cbn [as_int]. rewrite bool_decide_true by done. cbn [negb]. clear E.
  destruct Hv as (bs & r & Hv & Hs). inversion Hv as [|? ? [Hne Hd]| |]; subst. rewrite <- app_comm_cons in Hs. apply suffix_cons in Hs. rewrite <- !app_assoc in Hs.
  destruct ds as [|c ds]; [done|]. destruct (int_steps _ neg c ds r Hs Hd) as (e & -> & He). cbn [mbind option_bind]. rewrite He. by cbn.
Qed.

(** *** Dictionaries *)

Definition points (res : option Z) (o : option bval) : Prop :=
  match o with None => res = None | Some w => exists q, res = Some q /\ at_ q w end.

Context (key : list Z).
Hypothesis Hkey : Forall (fun c => c <> 0) key.

Lemma at_dget p v : at_ p v -> exists res, benc_dget_any m base p key = Some res /\ points res (lookup_key key v).
Proof.
  intros Hv. destruct (at_types p v Hv) as (_ & _ & _ & E). unfold benc_dget_any, lookup_key. rewrite E. cbn [mbind option_bind].
  destruct v as [s|neg ds|l|l]; try (exists None; by split). cbn [as_dct]. rewrite bool_decide_true by done. cbn [negb].
  destruct (at_first p _ l Hv eq_refl) as [Ef Hl]. rewrite Ef. cbn [mbind option_bind]. pose proof (list_at_length _ _ Hl) as Hlen.
  assert (pairs l) as Hp by (destruct Hv as (bs & r & Hv & _); by inversion Hv).
  destruct Hl as (bs & r & Hb & Hs). destruct (dget_loop_ok m base Hbase key l Hkey Hp bs r (p + 1) (S (length m)) Hb Hs ltac:(lia)) as (res & Er & Hres).
  exists res. split; [exact Er|]. unfold dget_post in Hres. destruct (dict_get key l) as [w|]; [|done]. destruct Hres as (q & bq & rq & -> & Hq & Hsq).
  exists q. split; [done|]. by exists bq, rq.
Qed.

Lemma at_typed {A} (isa : Z -> option bool) (as_t : bval -> option A) p v : (forall q w, at_ q w -> isa q = Some (bool_decide (is_Some (as_t w)))) -> at_ p v ->
  exists res, dget_typed m base isa p key = Some res /\ points res (w ← lookup_key key v; _ ← as_t w; Some w).
Proof.
  intros Hisa Hv. unfold dget_typed. destruct (at_dget p v Hv) as (res & -> & Hres). cbn [mbind option_bind].
  destruct (lookup_key key v) as [w|]; [|rewrite Hres; by exists None]. destruct Hres as (q & -> & Hq). rewrite (Hisa q w Hq). cbn [mbind option_bind].
  destruct (as_t w) as [x|]; [rewrite bool_decide_true by done|rewrite bool_decide_false by (by intros [? ?])]; eexists; (split; [reflexivity|]); [by exists q|done].
Qed.

Lemma at_dget_dct p v : at_ p v -> exists res, benc_dget_dct m base p key = Some res /\ points res (get_dct key v).
Proof. intros Hv. apply (at_typed (benc_isdct m) as_dct); [|done]. intros q w Hq. apply (at_types q w Hq). Qed.

Lemma at_dget_lst p v : at_ p v -> exists res, benc_dget_lst m base p key = Some res /\
  match get_lst key v with None => res = None | Some l => exists q w, res = Some q /\ at_ q w /\ as_lst w = Some l end.
Proof.
  intros Hv. destruct (at_typed (benc_islst m) as_lst p v) as (res & E & Hres); [intros q w Hq; apply (at_types q w Hq)|done|].
  exists res. split; [exact E|]. unfold get_lst. destruct (lookup_key key v) as [w|]; [|done]. cbn [mbind option_bind] in *.
  destruct (as_lst w) as [l|] eqn:El; [|done]. destruct Hres as (q & -> & Hq). by exists q, w.
Qed.

Lemma at_dget_str alloc p v : at_ p v -> benc_dget_str m base alloc p key = Some (if alloc then get_str key v else None) /\
  benc_dget_mema m base alloc p key = Some (if alloc then get_str key v else None).
Proof.
  intros Hv. unfold benc_dget_str, benc_dget_mema, get_str.
  destruct (at_typed (benc_isstr m) as_str p v) as (res & -> & Hres); [intros q w Hq; apply (at_types q w Hq)|done|]. cbn [mbind option_bind].
  destruct (lookup_key key v) as [w|]; [|rewrite Hres; by destruct alloc]. cbn [mbind option_bind] in *.
  destruct (as_str w) as [s|] eqn:Es; [|rewrite Hres; by destruct alloc]. destruct Hres as (q & -> & Hq). cbn [mbind option_bind] in *.
  destruct (at_str alloc q w Hq) as [-> ->]. by rewrite Es.
Qed.

Lemma at_dget_mem p v : at_ p v -> exists res, benc_dget_mem m base p key = Some res /\
  match get_str key v with
  | None => res = None
  | Some s => exists a, res = Some (Mem a (Z.of_nat (length s))) /\ copy_bytes m a (Z.of_nat (length s)) = Some s
  end.
Proof.
  intros Hv. unfold benc_dget_mem, get_str.
  destruct (at_typed (benc_isstr m) as_str p v) as (res & -> & Hres); [intros q w Hq; apply (at_types q w Hq)|done|]. cbn [mbind option_bind].
  destruct (lookup_key key v) as [w|]; [|rewrite Hres; by exists None]. cbn [mbind option_bind] in *.
  destruct w as [s|neg ds|l|l]; try (rewrite Hres; by exists None). destruct Hres as (q & -> & Hq). cbn [mbind option_bind as_str] in *.
  destruct (at_mem q s Hq) as (a & -> & Ec & _). eexists. split; [reflexivity|]. by exists a.
Qed.

Lemma at_dget_int p v : at_ p v -> benc_dget_int m base p key = Some (get_int key v).
Proof.
  intros Hv. unfold benc_dget_int, get_int. destruct (at_typed (benc_isint m) as_int p v) as (res & -> & Hres); [intros q w Hq; apply (at_types q w Hq)|done|]. cbn [mbind option_bind].
  destruct (lookup_key key v) as [w|]; [|rewrite Hres; done]. cbn [mbind option_bind] in *.
  destruct (as_int w) as [i|] eqn:Ei; [|rewrite Hres; done]. destruct Hres as (q & -> & Hq). by rewrite (at_int q w Hq), Ei.
Qed.
End Values.

(** *** The shape of a dictionary *)

Section Check.
Context (m : list Z) (base : Z).
Hypothesis Hbase : addressable m base.

Fixpoint follow (keys : list (list Z)) (v : bval) : option bval :=
  match keys with
  | [] => Some v
  | [key] => lookup_key key v
  | key :: keys => get_dct key v ≫= follow keys
  end.

Lemma at_chk_path keys type : keys <> [] -> Forall (Forall (fun c => c <> 0)) keys -> forall p v, at_ m p v ->
  chk_path m base p keys type = Some (match follow keys v with Some w => is_type w type | None => false end).
Proof.
  induction keys as [|key keys IH]; intros Hne Hk p v Hv; [done|]. apply Forall_cons in Hk as [Hkey Hk].
  destruct keys as [|key2 keys].
  - cbn [chk_path follow]. destruct (at_dget m base Hbase key Hkey p v Hv) as (res & -> & Hres). cbn [mbind option_bind].
    destruct (lookup_key key v) as [w|]; [|by rewrite Hres]. destruct Hres as (q & -> & Hq). by apply at_istype.
  - change (chk_path m base p (key :: key2 :: keys) type) with
      (d ← benc_dget_dct m base p key; match d with None => Some false | Some q => chk_path m base q (key2 :: keys) type end).
    change (follow (key :: key2 :: keys) v) with (get_dct key v ≫= follow (key2 :: keys)).
    destruct (at_dget_dct m base Hbase key Hkey p v Hv) as (res & -> & Hres). cbn [mbind option_bind].
    destruct (get_dct key v) as [w|]; [|by rewrite Hres]. destruct Hres as (q & -> & Hq). cbn [mbind option_bind]. by apply IH.
Qed.

(** [benc_dct_chk] tells whether the value is a dictionary with a value of each type at
    the end of each path of keys. *)
Theorem benc_dct_chk_correct args p v : at_ m p v -> Forall (fun a => a.2 <> [] /\ Forall (Forall (fun c => c <> 0)) a.2) args ->
  benc_dct_chk m base p args = Some (bool_decide (is_Some (as_dct v)) &&
    forallb (fun a => match follow a.2 v with Some w => is_type w a.1 | None => false end) args).
Proof.
  intros Hv Ha. destruct (at_types m p v Hv) as (_ & _ & _ & E). unfold benc_dct_chk. rewrite E. cbn [mbind option_bind].
  destruct (bool_decide _); [|done]. cbn [andb]. induction Ha as [|[type keys] args [H1 H2] _ IH]; [done|]. cbn [chk_all fst snd forallb] in *.
  rewrite (at_chk_path keys type H1 H2 p v Hv). cbn [mbind option_bind]. destruct (match follow keys v with Some w => _ | None => _ end); [exact IH|done].
Qed.

(** *** Comparison *)

Lemma strncmp_prefix s1 s2 n a b r1 r2 : suffix m a (s1 ++ r1) -> suffix m b (s2 ++ r2) -> (n <= length s1)%nat -> (n <= length s2)%nat ->
  Forall (fun c => c <> 0) s1 -> exists t, strncmp m n a b = Some t /\ (t = 0 <-> take n s1 = take n s2).
Proof.
  revert s1 s2 a b. induction n as [|n IH]; intros s1 s2 a b Ha Hb H1 H2 Hz; [by exists 0|].
  destruct s1 as [|x s1], s2 as [|y s2]; cbn in H1, H2; try lia. apply Forall_cons in Hz as [Hx Hz]. cbn [strncmp].
  cbn [app] in Ha, Hb. rewrite (suffix_rd _ _ _ _ Ha), (suffix_rd _ _ _ _ Hb). cbn [mbind option_bind].
  destruct (Z.eqb_spec x y) as [<-|Hne].
  - rewrite (proj2 (Z.eqb_neq x 0)) by done. destruct (IH s1 s2 (a + 1) (b + 1)) as (t & Et & Ht); [by eapply suffix_cons..|lia|lia|done|].
    exists t. split; [exact Et|]. cbn [take firstn]. rewrite Ht. split; [by intros ->|by intros [=]].
  - eexists. split; [reflexivity|]. destruct (x <? y); (split; [done|]); cbn [take firstn]; by intros [= ? _].
Qed.

(** Without NUL bytes [benc_strcmp] finds out whether two strings are equal. *)
Theorem benc_strcmp_correct a b s1 s2 : at_ m a (BStr s1) -> at_ m b (BStr s2) -> Forall (fun c => c <> 0) s1 ->
  exists t, benc_strcmp m a b = Some t /\ (t = 0 <-> s1 = s2).
Proof.
  intros Ha Hb Hz. unfold benc_strcmp.
  destruct Ha as (bs1 & r1 & Hv1 & Hs1), Hb as (bs2 & r2 & Hv2 & Hs2). inversion Hv1 as [d1 ? D1 E1| | |]; inversion Hv2 as [d2 ? D2 E2| | |]; subst.
  destruct (benc_mem_ok m base Hbase d1 s1 r1 a D1 E1 Hs1) as (_ & -> & S1). destruct (benc_mem_ok m base Hbase d2 s2 r2 b D2 E2 Hs2) as (_ & -> & S2).
  cbn [mbind option_bind mem_len mem_ptr].
  destruct (strncmp_prefix s1 s2 (Z.to_nat (Z.min (Z.of_nat (length s1)) (Z.of_nat (length s2)))) _ _ r1 r2 S1 S2) as (t & -> & Ht); [lia|lia|done|].
  cbn [mbind option_bind]. eexists. split; [reflexivity|]. destruct (Z.eqb_spec t 0) as [->|Hne].
  - pose proof (proj1 Ht eq_refl) as Et. destruct (Z.eqb_spec (Z.of_nat (length s1)) (Z.of_nat (length s2))) as [El|El].
    + rewrite !take_ge in Et by lia. by rewrite Et.
    + split; [destruct (_ <? _); done|]. intros ->. lia.
  - split; [done|]. intros ->. exfalso. by apply Hne, Ht.
Qed.
End Check.

(** ** Texts to try things on *)

(** A text without a run of more than 18 digits; [k] is what is left of a run. *)
Fixpoint short_runs (k : nat) (m : list Z) : bool :=
  match m with
  | [] => true
  | c :: m => if isdigit c then match k with O => false | S k => short_runs k m end else short_runs 18 m
  end.

Lemma short_runs_run ds post : forall k, short_runs k (ds ++ post) = true -> Forall (fun c => isdigit c = true) ds -> (length ds <= k)%nat.
Proof.
  induction ds as [|c ds IH]; intros k H Hd; [cbn; lia|]. apply Forall_cons in Hd as [Hc Hd]. cbn [app short_runs] in H. rewrite Hc in H.
  destruct k as [|k]; [done|]. specialize (IH k H Hd). cbn [length]. lia.
Qed.

Lemma short_runs_app pre post : forall k, (k <= 18)%nat -> short_runs k (pre ++ post) = true -> exists k', (k' <= 18)%nat /\ short_runs k' post = true.
Proof.
  induction pre as [|c pre IH]; intros k Hk H; [by exists k|]. cbn [app short_runs] in H.
  destruct (isdigit c); [destruct k as [|k]; [done|]; apply (IH k); [lia|done]|by apply (IH 18%nat)].
Qed.

Lemma short_runs_sane m : short_runs 18 m = true -> sane_runs m.
Proof.
  intros H pre ds post -> Hd. destruct (short_runs_app pre (ds ++ post) 18 (le_n _) H) as (k & Hk & H').
  pose proof (short_runs_run ds post k H' Hd). eapply Z.lt_le_trans; [by apply dec_bound|].
  etrans; [apply (Z.pow_le_mono_r 10 _ 18); lia|]. done.
Qed.

(** The encoding of a value whose strings have less than 100 bytes. *)
Definition two_digits (n : nat) : list Z :=
  let n := Z.of_nat n in if n <? 10 then [48 + n] else [48 + n / 10; 48 + n mod 10].
Fixpoint encode (v : bval) : list Z :=
  match v with
  | BStr s => two_digits (length s) ++ ch_colon :: s
  | BInt neg ds => ch_i :: (if neg then [ch_minus] else []) ++ ds ++ [ch_e]
  | BList l => ch_l :: flat_map encode l ++ [ch_e]
  | BDict l => ch_d :: flat_map encode l ++ [ch_e]
  end.

Fixpoint pairsb (l : list bval) : bool :=
  match l with [] => true | BStr _ :: _ :: l => pairsb l | _ => false end.
Fixpoint encodable (v : bval) : bool :=
  match v with
  | BStr s => (length s <? 100)%nat
  | BInt _ ds => negb (bool_decide (ds = [])) && forallb isdigit ds
  | BList l => forallb encodable l
  | BDict l => forallb encodable l && pairsb l
  end.

Lemma pairsb_ok l : pairsb l = true -> pairs l.
Proof.
  revert l. fix IH 1. intros [|[s|neg ds|l'|l'] [|w l]] H; try done; [constructor|]. constructor; [done|]. by apply IH.
Qed.

Lemma two_digits_ok n : (n < 100)%nat -> digits (two_digits n) /\ dec (two_digits n) = Z.of_nat n.
Proof.
  intros Hn. assert (forall k, (k < 100)%nat -> forallb isdigit (two_digits k) = true /\ dec (two_digits k) = Z.of_nat k) as H.
  { intros k Hk. assert (forallb (fun k => forallb isdigit (two_digits k) && (dec (two_digits k) =? Z.of_nat k)) (seq 0 100) = true) as Ha by (vm_compute; reflexivity).
    rewrite forallb_forall in Ha. specialize (Ha k). rewrite in_seq in Ha. apply andb_true_iff in Ha as [H1 H2%Z.eqb_eq]; [done|lia]. }
  destruct (H n Hn) as [H1 H2]. split; [split|done].
  - unfold two_digits. by destruct (_ <? _).
  - apply Forall_forall. intros c Hc. rewrite forallb_forall in H1. apply H1. by apply list_elem_of_In.
Qed.

Lemma encode_benc v : encodable v = true -> benc v (encode v).
Proof.
  revert v. fix encode_benc 1. intros v.
  assert (forall l, forallb encodable l = true -> bencs l (flat_map encode l)) as Hl.
  { induction l as [|w l IH]; intros H; [constructor|]. cbn [forallb] in H. apply andb_true_iff in H as [H1 H2]. cbn [flat_map].
    constructor; [by apply encode_benc|by apply IH]. }
  destruct v as [s|neg ds|l|l]; intros H; cbn [encodable encode] in *.
  - apply Nat.ltb_lt in H. destruct (two_digits_ok _ H) as [H1 H2]. by constructor.
  - apply andb_true_iff in H as [H1 H2]. apply negb_true_iff, bool_decide_eq_false in H1. constructor. split; [done|].
    apply Forall_forall. intros c Hc. rewrite forallb_forall in H2. apply H2. by apply list_elem_of_In.
  - constructor. by apply Hl.
  - apply andb_true_iff in H as [H1 H2]. constructor; [by apply Hl|by apply pairsb_ok].
Qed.
