(* ===== verification/Metainfo.v ===== *)
(** The metainfo file of a torrent: [libbt/misc/metainfo.c] over the accessors of [Benc]
    and [BencGet].

    The text lies in the block [m]; [p] is its start, at 0.  Whether each allocation
    succeeds is an argument, by the place that makes it; what was copied comes as the list
    of its bytes.  What [rand_between] gives is an argument, as are the hash and the file
    that is read.  [size_t] and [fpos_t] have 64 bits; a text has at most 16 MiB, so that
    the counters of 32 bits do not overflow. *)
From S2P Require Import Prelude Benc BencGet Bitfield BtPeer BtNet BtInv BtChoice.
Local Open Scope Z_scope.

(** The keys, as bytes. *)
Definition k_info : list Z := [105; 110; 102; 111]. (* info *)
Definition k_name : list Z := [110; 97; 109; 101]. (* name *)
Definition k_pieces : list Z := [112; 105; 101; 99; 101; 115]. (* pieces *)
Definition k_piece_length : list Z := [112; 105; 101; 99; 101; 32; 108; 101; 110; 103; 116; 104]. (* piece length *)
Definition k_length : list Z := [108; 101; 110; 103; 116; 104]. (* length *)
Definition k_files : list Z := [102; 105; 108; 101; 115]. (* files *)
Definition k_path : list Z := [112; 97; 116; 104]. (* path *)
Definition k_announce : list Z := [97; 110; 110; 111; 117; 110; 99; 101]. (* announce *)
Definition k_announce_list : list Z := [97; 110; 110; 111; 117; 110; 99; 101; 45; 108; 105; 115; 116]. (* announce-list *)

Definition ch_dot : Z := 46.
Definition ch_slash : Z := 47.
Definition ch_backslash : Z := 92.
Abbreviation s64 := (swrap 64).

Definition MAX_METAINFO : Z := 2 ^ 24.

Section Metainfo.
Context (m : list Z) (base : Z).

(** ** Reading *)

Definition mi_info (p : Z) : option Z := info ← benc_dget_dct m base p k_info; info.

Definition mi_hashes (alloc : bool) (p : Z) : option (option (list Z)) := info ← mi_info p; benc_dget_mema m base alloc info k_pieces.

Definition mi_npieces (p : Z) : option Z :=
  info ← mi_info p;
  r ← benc_dget_mem m base info k_pieces;
  r ← r;
  Some (mem_len r / 20).

Definition mi_simple (p : Z) : option bool :=
  info ← mi_info p;
  files ← benc_dget_lst m base info k_files;
  Some (match files with None => true | Some _ => false end).

Definition mi_piece_length (p : Z) : option Z := info ← mi_info p; benc_dget_int m base info k_piece_length.

(** The loop that adds the lengths up. *)
Fixpoint sum_lengths (fuel : nat) (fdct : option Z) (length : Z) : option Z :=
  match fuel with
  | O => None
  | S fuel =>
      match fdct with
      | None => Some length
      | Some q =>
          n ← benc_dget_int m base q k_length;
          fdct ← benc_next m base q;
          sum_lengths fuel fdct (s64 (length + n))
      end
  end.

Definition mi_total_length (p : Z) : option Z :=
  info ← mi_info p;
  files ← benc_dget_lst m base info k_files;
  match files with
  | Some files => fdct ← benc_first m files; sum_lengths (S (length m)) fdct 0
  | None => benc_dget_int m base info k_length
  end.

Definition mi_info_hash (SHA1 : list Z -> list Z) (alloc : bool) (p : Z) : option (option (list Z)) :=
  info ← mi_info p;
  if alloc then n ← benc_length m base (text_fuel m) info; s ← copy_bytes m info n; Some (Some (SHA1 s)) else Some None.

Definition mi_name (alloc : bool) (p : Z) : option (option (list Z)) := info ← mi_info p; benc_dget_str m base alloc info k_name.

Definition mi_nfiles (p : Z) : option Z :=
  info ← mi_info p;
  files ← benc_dget_lst m base info k_files;
  match files with Some files => benc_nelems m base files | None => Some 1 end.

(** ** The files *)

(** The two loops of [mi_filepath]. *)
Fixpoint path_size (fuel : nat) (iter : option Z) (npaths plen : Z) : option (Z * Z) :=
  match fuel with
  | O => None
  | S fuel =>
      match iter with
      | None => Some (npaths, plen)
      | Some q =>
          r ← benc_mem m q;
          r ← r;
          iter ← mem_next m base r;
          path_size fuel iter (u64 (npaths + 1)) (u64 (plen + mem_len r))
      end
  end.
Fixpoint path_rest (fuel : nat) (iter : option Z) (npaths : Z) (res : list Z) : option (list Z) :=
  match fuel with
  | O => None
  | S fuel =>
      if npaths >? 0 then
        q ← iter;
        r ← benc_mem m q;
        r ← r;
        iter ← mem_next m base r;
        s ← copy_bytes m (mem_ptr r) (mem_len r);
        path_rest fuel iter (npaths - 1) (res ++ ch_backslash :: s)
      else Some res
  end.

Definition mi_filepath (alloc : bool) (plst : Z) : option (option (list Z)) :=
  iter ← benc_first m plst;
  '(npaths, plen) ← path_size (S (length m)) iter 0 0;
  let size := u64 (plen + u64 (npaths - 1) + 1) in
  if negb alloc then Some None
  else
    q ← iter;
    r ← benc_mem m q;
    r ← r;
    iter ← mem_next m base r;
    s ← copy_bytes m (mem_ptr r) (mem_len r);
    res ← path_rest (S (length m)) iter (npaths - 1) s;
    let res := res ++ [0] in
    _ ← ensure (Z.of_nat (length res) <=? size);
    Some (Some res).

(** The allocations of [mi_files]. *)
Inductive file_site := SFiles | SPath (i : nat).

Fixpoint files_loop (alloc : file_site -> bool) (nfiles : Z) (fuel : nat) (fdct : option Z) (fi : list (list Z * Z)) : option (option (list (list Z * Z))) :=
  match fuel with
  | O => None
  | S fuel =>
      match fdct with
      | None => Some (Some fi)
      | Some q =>
          _ ← ensure (Z.of_nat (length fi) <? nfiles);
          n ← benc_dget_int m base q k_length;
          plst ← benc_dget_lst m base q k_path;
          plst ← plst;
          path ← mi_filepath (alloc (SPath (length fi))) plst;
          match path with
          | None => Some None
          | Some path => fdct ← benc_next m base q; files_loop alloc nfiles fuel fdct (fi ++ [(path, n)])
          end
      end
  end.

Definition mi_files (alloc : file_site -> bool) (p : Z) : option (option (list (list Z * Z))) :=
  info ← mi_info p;
  files ← benc_dget_lst m base info k_files;
  match files with
  | Some files =>
      nfiles ← benc_nelems m base files;
      fdct ← benc_first m files;
      if alloc SFiles then files_loop alloc (u32 nfiles) (S (length m)) fdct [] else Some None
  | None =>
      if alloc SFiles then
        n ← benc_dget_int m base info k_length;
        path ← benc_dget_str m base (alloc (SPath 0)) info k_name;
        Some (match path with None => None | Some path => Some [(path ++ [0], n)] end)
      else Some None
  end.

(** ** The trackers *)

Inductive ann_site := SRes | STiers | SUrls (ti : nat) | SUrl (ti ui : nat).

Fixpoint urls_loop (alloc : nat -> bool) (nurls : Z) (fuel : nat) (url : option Z) (urls : list (list Z)) : option (option (list (list Z))) :=
  match fuel with
  | O => None
  | S fuel =>
      match url with
      | None => Some (Some urls)
      | Some q =>
          _ ← ensure (Z.of_nat (length urls) <? nurls);
          s ← benc_str m (alloc (length urls)) q;
          match s with
          | None => Some None
          | Some s => url ← benc_next m base q; urls_loop alloc nurls fuel url (urls ++ [s])
          end
      end
  end.

Fixpoint tiers_loop (alloc : ann_site -> bool) (ntiers : Z) (fuel : nat) (ulst : option Z) (tiers : list (list (list Z))) : option (option (list (list (list Z)))) :=
  match fuel with
  | O => None
  | S fuel =>
      match ulst with
      | None => Some (Some tiers)
      | Some q =>
          let ti := length tiers in
          _ ← ensure (Z.of_nat ti <? ntiers);
          nurls ← benc_nelems m base q;
          if alloc (SUrls ti) then
            url ← benc_first m q;
            urls ← urls_loop (fun ui => alloc (SUrl ti ui)) nurls (S (length m)) url [];
            match urls with
            | None => Some None
            | Some urls => ulst ← benc_next m base q; tiers_loop alloc ntiers fuel ulst (tiers ++ [urls])
            end
          else Some None
      end
  end.

(** [ri] is the result of [rand_between]. *)
Definition swap {A} (j ri : nat) (l : list A) : option (list A) := tmp ← l !! j; x ← l !! ri; Some (<[ri := tmp]> (<[j := x]> l)).
Definition shuffle_tier {A} (rand_between : nat -> nat -> nat) (urls : list A) : option (list A) :=
  cfor (length urls - 1) 0 (fun j l => l ← swap j (rand_between j (length urls - 1)%nat) l; Some (inl l)) urls.
Definition mi_shuffle_announce {A} (rand_between : nat -> nat -> nat -> nat) (tiers : list (list A)) : option (list (list A)) :=
  mapM (fun it => shuffle_tier (rand_between it.1) it.2) (zip (seq 0 (length tiers)) tiers).

Definition read_tiers (alloc : ann_site -> bool) (p : Z) : option (option (list (list (list Z)))) :=
  alst ← benc_dget_lst m base p k_announce_list;
  match alst with
  | Some alst =>
      ntiers ← benc_nelems m base alst;
      if alloc STiers then ulst ← benc_first m alst; tiers_loop alloc ntiers (S (length m)) ulst [] else Some None
  | None =>
      if alloc STiers && alloc (SUrls 0) then
        s ← benc_dget_str m base (alloc (SUrl 0 0)) p k_announce;
        Some (match s with Some s => Some [[s]] | None => None end)
      else Some None
  end.

Definition mi_announce (alloc : ann_site -> bool) (rand_between : nat -> nat -> nat -> nat) (p : Z) : option (option (list (list (list Z)))) :=
  if negb (alloc SRes) then Some None
  else
    tiers ← read_tiers alloc p;
    match tiers with
    | None => Some None
    | Some tiers => tiers ← mi_shuffle_announce rand_between tiers; Some (Some tiers)
    end.

(** ** The test *)

Fixpoint memchr (n : nat) (p c : Z) : option bool :=
  match n with
  | O => Some false
  | S n => x ← rd m p; if x =? c then Some true else memchr n (p + 1) c
  end.

Definition mi_test_path (path len : Z) : option bool :=
  if len =? 0 then Some false
  else
    a ← rd m path;
    if (len =? 1) && (a =? ch_dot) then Some false
    else
      two ← (if (len =? 2) && (a =? ch_dot) then b ← rd m (path + 1); Some (b =? ch_dot) else Some false);
      if two : bool then Some false
      else found ← memchr (Z.to_nat len) path ch_slash; Some (negb found).

Fixpoint test_paths (fuel : nat) (path : option Z) (pcount : Z) : option bool :=
  match fuel with
  | O => None
  | S fuel =>
      match path with
      | None => Some (negb (pcount =? 0))
      | Some q =>
          r ← benc_mem m q;
          match r with
          | None => Some false
          | Some r =>
              path ← mem_next m base r;
              ok ← mi_test_path (mem_ptr r) (mem_len r);
              if ok : bool then test_paths fuel path (pcount + 1) else Some false
          end
      end
  end.

Fixpoint test_files_loop (fuel : nat) (fdct : option Z) (fcount : Z) : option bool :=
  match fuel with
  | O => None
  | S fuel =>
      match fdct with
      | None => Some (fcount >? 0)
      | Some q =>
          d ← benc_isdct m q;
          if negb d then Some false
          else
            n ← benc_dget_int m base q k_length;
            if n <? 0 then Some false
            else
              plst ← benc_dget_lst m base q k_path;
              match plst with
              | None => Some false
              | Some plst =>
                  path ← benc_first m plst;
                  ok ← test_paths (S (length m)) path 0;
                  if ok : bool then fdct ← benc_next m base q; test_files_loop fuel fdct (fcount + 1) else Some false
              end
      end
  end.
Definition mi_test_files (files : Z) : option bool := fdct ← benc_first m files; test_files_loop (S (length m)) fdct 0.

(** The strings at the head of a tier. *)
Fixpoint test_urls (fuel : nat) (s : option Z) (strcount : Z) : option Z :=
  match fuel with
  | O => None
  | S fuel =>
      match s with
      | None => Some strcount
      | Some q => b ← benc_isstr m q; if b : bool then s ← benc_next m base q; test_urls fuel s (strcount + 1) else Some strcount
      end
  end.
Fixpoint test_tiers (fuel : nat) (t : option Z) (lstcount : Z) : option bool :=
  match fuel with
  | O => None
  | S fuel =>
      match t with
      | None => Some (lstcount >? 0)
      | Some q =>
          l ← benc_islst m q;
          if l : bool then
            s ← benc_first m q;
            strcount ← test_urls (S (length m)) s 0;
            if strcount =? 0 then Some false else t ← benc_next m base q; test_tiers fuel t (lstcount + 1)
          else Some (lstcount >? 0)
      end
  end.
Definition mi_test_announce_list (alst : Z) : option bool := t ← benc_first m alst; test_tiers (S (length m)) t 0.

(** The last condition, in the arithmetic of [size_t]. *)
Definition sizes_fit (npieces piece_length length : Z) : bool :=
  negb ((u64 length <? u64 (u64 (npieces - 1) * piece_length)) || (u64 length >? u64 (npieces * piece_length))).

(** The part of the test behind the trackers. *)
Definition mi_test_info (info : Z) : option bool :=
  name ← benc_dget_mem m base info k_name;
  ok ← match name with Some r => mi_test_path (mem_ptr r) (mem_len r) | None => Some true end;
  if negb ok then Some false
  else
    piece_length ← benc_dget_int m base info k_piece_length;
    if piece_length <=? 0 then Some false
    else
      pieces ← benc_dget_mem m base info k_pieces;
      match pieces with
      | None => Some false
      | Some r =>
          if negb (mem_len r mod 20 =? 0) then Some false
          else
            let npieces := mem_len r / 20 in
            len ← benc_dget_int m base info k_length;
            if negb (len =? 0) then
              if len <? 0 then Some false
              else
                files ← benc_dget_any m base info k_files;
                match files with Some _ => Some false | None => Some (sizes_fit npieces piece_length len) end
            else
              files ← benc_dget_lst m base info k_files;
              match files with
              | None => Some false
              | Some files =>
                  ok ← mi_test_files files;
                  if negb ok then Some false
                  else fdct ← benc_first m files; len ← sum_lengths (S (length m)) fdct len; Some (sizes_fit npieces piece_length len)
              end
      end.

Definition mi_test (p size : Z) : option Z :=
  v ← benc_validate m base (text_fuel m) size;
  d ← (if v =? 0 then benc_isdct m p else Some false);
  if negb d then Some 0
  else
    alst ← benc_dget_any m base p k_announce_list;
    ok ← match alst with
         | Some alst => l ← benc_islst m alst; if l : bool then mi_test_announce_list alst else Some false
         | None => r ← benc_dget_mem m base p k_announce; Some (match r with Some _ => true | None => false end)
         end;
    if negb ok then Some 0
    else
      info ← benc_dget_dct m base p k_info;
      match info with
      | None => Some 0
      | Some info => ok ← mi_test_info info; Some (if ok : bool then 1 else 0)
      end.
End Metainfo.

(** [read_file] gives the contents of a file of at most 16 MiB; [None] is [NULL]. *)
Definition mi_load (base : Z) (read_file : Z -> option (list Z)) : option (option (list Z)) :=
  match read_file MAX_METAINFO with
  | None => Some None
  | Some res => ok ← mi_test res base 0 (Z.of_nat (length res)); Some (if ok =? 0 then None else Some res)
  end.

(** ** What a metainfo file describes *)

Definition good_name (s : list Z) : bool :=
  negb (bool_decide (s = [])) && negb (bool_decide (s = [ch_dot])) && negb (bool_decide (s = [ch_dot; ch_dot])) && negb (bool_decide (ch_slash ∈ s)).

(** A file of a torrent: the components of its path and its length. *)
Definition file_of (v : bval) : option (list (list Z) * Z) :=
  _ ← as_dct v;
  l ← get_lst k_path v;
  path ← mapM as_str l;
  let n := get_int k_length v in
  if negb (bool_decide (path = [])) && forallb good_name path && (0 <=? n) then Some (path, n) else None.

Record torrent_info := TorrentInfo {
  t_name : option (list Z); t_piece_length : Z; t_pieces : list Z; t_files : option (list (list (list Z) * Z)); t_total : Z
}.
Definition t_npieces (t : torrent_info) : Z := Z.of_nat (length (t_pieces t)) / 20.

(** The sum of the lengths. *)
Definition lengths (fs : list (list (list Z) * Z)) : Z := foldr (fun f n => f.2 + n) 0 fs.

(** One file, or some under a directory of the torrent's name; and their length, which is
    a signed number of 64 bits. *)
Definition files_of (info : bval) : option (option (list (list (list Z) * Z)) * Z) :=
  let n := get_int k_length info in
  if n =? 0 then
    l ← get_lst k_files info;
    fs ← mapM file_of l;
    if bool_decide (fs = []) then None else Some (Some fs, s64 (lengths fs))
  else if (n <? 0) || bool_decide (is_Some (lookup_key k_files info)) then None
  else Some (None, n).

(** The length fits the number of pieces: the pieces are all full but the last, which may
    be shorter, or even empty.  Where they could hold 2^63 bytes or more, the bounds are
    meant modulo 2^64. *)
Definition fits (npieces piece_length total : Z) : Prop :=
  if decide (npieces * piece_length < 2 ^ 63) then 0 < npieces /\ (npieces - 1) * piece_length <= total <= npieces * piece_length
  else ((npieces - 1) * piece_length) mod 2 ^ 64 <= total mod 2 ^ 64 <= (npieces * piece_length) mod 2 ^ 64.

#[export] Instance fits_decision n pl total : Decision (fits n pl total).
Proof. unfold fits. destruct (decide _); apply _. Defined.

Definition info_of (info : bval) : option torrent_info :=
  pieces ← get_str k_pieces info;
  '(files, total) ← files_of info;
  let t := TorrentInfo (get_str k_name info) (get_int k_piece_length info) pieces files total in
  if match t_name t with Some s => good_name s | None => true end && (0 <? t_piece_length t) && (Z.of_nat (length pieces) mod 20 =? 0) &&
     bool_decide (fits (t_npieces t) (t_piece_length t) total)
  then Some t else None.

(** The tiers of trackers, as far as they are looked at: each starts with a string. *)
Fixpoint tiers_ok (l : list bval) (some : bool) : bool :=
  match l with
  | [] => some
  | t :: l =>
      match as_lst t with
      | None => some
      | Some us => match us with u :: _ => bool_decide (is_Some (as_str u)) && tiers_ok l true | [] => false end
      end
  end.
Definition announce_ok (v : bval) : bool :=
  match lookup_key k_announce_list v with
  | Some w => match as_lst w with Some l => tiers_ok l false | None => false end
  | None => bool_decide (is_Some (get_str k_announce v))
  end.

Definition metainfo_of (v : bval) : option torrent_info :=
  _ ← as_dct v;
  if announce_ok v then get_dct k_info v ≫= info_of else None.

(** ** The sizes *)

Lemma sizes_fit_bounds n pl len : 0 <= n -> 0 < pl < 2 ^ 63 -> n * pl < 2 ^ 63 -> - 2 ^ 63 <= len < 2 ^ 63 ->
  sizes_fit n pl len = true <-> 0 < n /\ (n - 1) * pl <= len <= n * pl.
Proof.
  intros Hn Hpl Hb Hlen. unfold sizes_fit. rewrite negb_true_iff, orb_false_iff, Z.ltb_ge, Z.gtb_ltb, Z.ltb_ge.
  destruct (Z.eq_dec n 0) as [->|Hn0].
  - assert (u64 (u64 (0 - 1) * pl) = 2 ^ 64 - pl) as ->.
    { change (u64 (0 - 1)) with (2 ^ 64 - 1). unfold wrap. symmetry. apply (Z.mod_unique_pos _ _ (pl - 1)); lia. }
    change (u64 (0 * pl)) with 0. unfold wrap. pose proof (Z.mod_pos_bound len (2 ^ 64)). lia.
  - rewrite (wrap_small 64 (n - 1)) by nia. rewrite (wrap_small 64 ((n - 1) * pl)) by nia. rewrite (wrap_small 64 (n * pl)) by nia.
    destruct (Z.ltb_spec len 0).
    + assert (u64 len = len + 2 ^ 64) as -> by (unfold wrap; symmetry; apply (Z.mod_unique_pos _ _ (-1)); lia). nia.
    + rewrite wrap_small by lia. lia.
Qed.

(** What the code computes with wrap-around is the condition. *)
Lemma sizes_fit_correct n pl len : 0 <= n -> 0 < pl < 2 ^ 63 -> - 2 ^ 63 <= len < 2 ^ 63 -> sizes_fit n pl len = bool_decide (fits n pl len).
Proof.
  intros Hn Hpl Hlen. apply eq_true_iff_eq. rewrite bool_decide_eq_true. unfold fits. destruct (decide _) as [Hb|Hb]; [by apply sizes_fit_bounds|].
  unfold sizes_fit, wrap. rewrite Z.mul_mod_idemp_l by done. rewrite negb_true_iff, orb_false_iff, Z.ltb_ge, Z.gtb_ltb, Z.ltb_ge. done.
Qed.

Lemma s64_range x : - 2 ^ 63 <= s64 x < 2 ^ 63.
Proof. unfold swrap. pose proof (wrap_range 64 x ltac:(lia)). case_match; lia. Qed.

Lemma s64_mod x y : u64 x = u64 y -> s64 x = s64 y.
Proof. intros E. unfold swrap. by rewrite E. Qed.

Lemma s64_add a b : s64 (s64 a + b) = s64 (a + b).
Proof.
  apply s64_mod. unfold swrap, wrap. cbn zeta. case_match; [by rewrite Z.add_mod_idemp_l|].
  replace (a mod 2 ^ 64 - 2 ^ 64 + b) with (a mod 2 ^ 64 + b + (-1) * 2 ^ 64) by lia. by rewrite Z_mod_plus_full, Z.add_mod_idemp_l.
Qed.

(** A sum that wraps at each step is the sum that wraps once. *)
Lemma sum_wraps fs : forall acc, foldl (fun a f => s64 (a + f.2)) (s64 acc) fs = s64 (acc + lengths fs).
Proof.
  induction fs as [|f fs IH]; intros acc; cbn [foldl lengths foldr]; [by rewrite Z.add_0_r|]. rewrite s64_add, IH. f_equal. unfold lengths. lia.
Qed.

(** ** The test *)

Section Test.
Context (m : list Z) (base : Z).
Hypothesis Hbase : addressable m base.
Hypothesis Hruns : sane_runs m.

Lemma keys_ok : Forall (Forall (fun c => c <> 0)) [k_info; k_name; k_pieces; k_piece_length; k_length; k_files; k_path; k_announce; k_announce_list].
Proof. by repeat constructor. Qed.

Lemma key_ok k : k ∈ [k_info; k_name; k_pieces; k_piece_length; k_length; k_files; k_path; k_announce; k_announce_list] -> Forall (fun c => c <> 0) k.
Proof. intros Hk. exact (proj1 (Forall_forall _ _) keys_ok k Hk). Qed.

Lemma memchr_ok s a r c : suffix m a (s ++ r) -> memchr m (length s) a c = Some (bool_decide (c ∈ s)).
Proof.
  revert a. induction s as [|x s IH]; intros a Hs; cbn [length memchr]; [by rewrite bool_decide_false by apply not_elem_of_nil|].
  cbn [app] in Hs. rewrite (suffix_rd _ _ _ _ Hs). cbn [mbind option_bind]. destruct (Z.eqb_spec x c) as [->|Hne].
  - by rewrite bool_decide_true by constructor.
  - rewrite IH by (by eapply suffix_cons). f_equal. apply bool_decide_ext. rewrite elem_of_cons. naive_solver.
Qed.

Lemma test_path_ok a s : copy_bytes m a (Z.of_nat (length s)) = Some s -> mi_test_path m a (Z.of_nat (length s)) = Some (good_name s).
Proof.
  intros [r Hs]%copied_suffix. unfold mi_test_path. pose proof (memchr_ok s a r ch_slash Hs) as Hm.
  destruct s as [|c s]; [done|]. rewrite (proj2 (Z.eqb_neq _ 0)) by (cbn; lia). pose proof (suffix_rd _ _ _ _ Hs) as Ec. rewrite Ec. cbn [mbind option_bind].
  unfold good_name. rewrite (bool_decide_false (c :: s = [])) by done. cbn [negb andb].
  destruct s as [|c2 s].
  - cbn [length Z.of_nat Z.eqb Pos.eqb andb]. rewrite (bool_decide_false ([c] = [ch_dot; ch_dot])) by done. destruct (Z.eqb_spec c ch_dot) as [->|Hne].
    + by rewrite bool_decide_true.
    + rewrite bool_decide_false by (by intros [= ->]). cbn [mbind option_bind]. cbn [length] in Hm. change (Z.to_nat _) with 1%nat. by rewrite Hm.
  - rewrite (proj2 (Z.eqb_neq _ 1)) by (cbn; lia). cbn [andb]. rewrite (bool_decide_false (c :: c2 :: s = [ch_dot])) by done. cbn [negb andb].
    pose proof (suffix_rd _ _ _ _ (suffix_cons _ _ _ _ Hs)) as Ec2. rewrite Ec2. destruct s as [|c3 s].
    + change (Z.of_nat (length [c; c2]) =? 2) with true. cbn [andb]. destruct (Z.eqb_spec c ch_dot) as [->|Hne]; cbn [mbind option_bind].
      * destruct (Z.eqb_spec c2 ch_dot) as [->|Hne2]; [by rewrite bool_decide_true|]. rewrite bool_decide_false by (by intros [= ->]). rewrite Nat2Z.id, Hm. done.
      * rewrite bool_decide_false by (by intros [= -> ->]). rewrite Nat2Z.id, Hm. done.
    + rewrite (proj2 (Z.eqb_neq _ 2)) by (cbn; lia). cbn [andb mbind option_bind]. rewrite bool_decide_false by done. rewrite Nat2Z.id, Hm. done.
Qed.

Lemma test_paths_ok l : forall p n fuel, list_at m p l -> (length l < fuel)%nat -> 0 <= n ->
  test_paths m base fuel (member_ptr l p) n = Some (match mapM as_str l with Some ss => forallb good_name ss && negb (n + Z.of_nat (length ss) =? 0) | None => false end).
Proof.
  induction l as [|v l IH]; intros p n [|fuel] Hl Hf Hn; cbn [length] in Hf; try lia.
  - cbn. by rewrite Z.add_0_r.
  - cbn [test_paths member_ptr mapM]. destruct v as [s|neg ds|l'|l'].
    + destruct (list_at_mem m base Hbase p s l Hl) as (a & -> & Ec & q & Eq & Hq). cbn [mbind option_bind mem_ptr mem_len]. rewrite Eq. cbn [mbind option_bind].
      rewrite (test_path_ok a s Ec). cbn [mbind option_bind as_str]. destruct (good_name s) eqn:Eg.
      * rewrite (IH q (n + 1)) by (done || lia). f_equal. destruct (mapM as_str l) as [ss|]; [|done]. cbn [mbind option_bind mret option_ret forallb length]. rewrite Eg. cbn [andb].
        do 3 f_equal. lia.
      * destruct (mapM as_str l) as [ss|]; [|done]. cbn [mbind option_bind mret option_ret forallb]. by rewrite Eg.
    + rewrite (at_mem_not m p (BInt neg ds)) by (done || by eapply list_at_cons). done.
    + rewrite (at_mem_not m p (BList l')) by (done || by eapply list_at_cons). done.
    + rewrite (at_mem_not m p (BDict l')) by (done || by eapply list_at_cons). done.
Qed.

Ltac key := apply key_ok; repeat constructor.

Lemma file_test q v : at_ m q v ->
  (d ← benc_isdct m q;
   if negb d then Some false
   else
     n ← benc_dget_int m base q k_length;
     if n <? 0 then Some false
     else
       plst ← benc_dget_lst m base q k_path;
       match plst with
       | None => Some false
       | Some plst => path ← benc_first m plst; test_paths m base (S (length m)) path 0
       end) = Some (bool_decide (is_Some (file_of v))).
Proof.
  intros Hv. destruct (at_types m q v Hv) as (_ & _ & _ & Ed). rewrite Ed. cbn [mbind option_bind]. unfold file_of.
  destruct (as_dct v) as [l0|]; [|done]. rewrite bool_decide_true by done. cbn [negb mbind option_bind].
  rewrite (at_dget_int m base Hbase Hruns k_length ltac:(key) q v Hv). cbn [mbind option_bind].
  destruct (at_dget_lst m base Hbase k_path ltac:(key) q v Hv) as (res & Er & Hres). rewrite Er. cbn [mbind option_bind].
  assert ((0 <=? get_int k_length v) = negb (get_int k_length v <? 0)) as -> by apply Z.leb_antisym. destruct (get_int k_length v <? 0); cbn [negb].
  { destruct (get_lst k_path v) as [l|]; [|done]. cbn [mbind option_bind]. destruct (mapM as_str l); cbn [mbind option_bind]; [|done]. by rewrite andb_false_r. }
  destruct (get_lst k_path v) as [l|]; [|by rewrite Hres]. destruct Hres as (a & w & -> & Hw & El). destruct (at_first m a w l Hw El) as [Ef Hl].
  rewrite Ef. cbn [mbind option_bind]. pose proof (list_at_length m _ _ Hl). rewrite (test_paths_ok l (a + 1) 0) by (done || lia). f_equal.
  destruct (mapM as_str l) as [ss|]; [|done]. cbn [mbind option_bind]. rewrite andb_true_r, Z.add_0_l.
  destruct ss as [|s1 ss]; [done|]. rewrite (bool_decide_false (s1 :: ss = [])) by done. rewrite (proj2 (Z.eqb_neq _ 0)) by (cbn; lia). cbn [negb]. rewrite andb_true_r. cbn [andb].
  by destruct (forallb good_name (s1 :: ss)).
Qed.

Lemma test_files_ok l : forall p n fuel, list_at m p l -> (length l < fuel)%nat -> 0 <= n ->
  test_files_loop m base fuel (member_ptr l p) n = Some (match mapM file_of l with Some fs => (n + Z.of_nat (length fs) >? 0) | None => false end).
Proof.
  induction l as [|v l IH]; intros p n [|fuel] Hl Hf Hn; cbn [length] in Hf; try lia.
  - cbn. by rewrite Z.add_0_r.
  - destruct (list_at_cons m base Hbase p v l Hl) as (Hv & q & Eq & Hq & _). pose proof (file_test p v Hv) as Ht. cbn [test_files_loop member_ptr mapM].
    destruct (benc_isdct m p) as [d|]; [|done]. cbn [mbind option_bind] in Ht |- *. destruct d; cbn [negb] in Ht |- *; [|destruct (file_of v); done].
    destruct (benc_dget_int m base p k_length) as [n'|]; [|done]. cbn [mbind option_bind] in Ht |- *. destruct (n' <? 0); [destruct (file_of v); done|].
    destruct (benc_dget_lst m base p k_path) as [[plst|]|]; cbn [mbind option_bind] in Ht |- *; [|destruct (file_of v); done|done].
    destruct (benc_first m plst) as [path|]; [|done]. cbn [mbind option_bind] in Ht |- *. rewrite Ht. cbn [mbind option_bind].
    destruct (file_of v) as [f|]; [|done]. rewrite bool_decide_true by done. cbn [mbind option_bind]. rewrite Eq. cbn [mbind option_bind].
    rewrite (IH q (n + 1)) by (done || lia). f_equal. destruct (mapM file_of l) as [fs|]; [|done]. cbn [mbind option_bind mret option_ret length]. f_equal. lia.
Qed.

Lemma sum_ok l : forall p acc fuel, list_at m p l -> (length l < fuel)%nat ->
  sum_lengths m base fuel (member_ptr l p) acc = Some (foldl (fun a v => s64 (a + get_int k_length v)) acc l).
Proof.
  induction l as [|v l IH]; intros p acc [|fuel] Hl Hf; cbn [length] in Hf; try lia; [done|].
  destruct (list_at_cons m base Hbase p v l Hl) as (Hv & q & Eq & Hq & _). cbn [sum_lengths member_ptr foldl].
  rewrite (at_dget_int m base Hbase Hruns k_length ltac:(key) p v Hv). cbn [mbind option_bind]. rewrite Eq. cbn [mbind option_bind]. apply IH; [done|lia].
Qed.

(** The lengths of the files are those of their values. *)
Lemma sum_files l fs : mapM file_of l = Some fs -> forall acc, foldl (fun a v => s64 (a + get_int k_length v)) acc l = foldl (fun a f => s64 (a + f.2)) acc fs.
Proof.
  intros H%mapM_Some. induction H as [|v f l fs Hf _ IH]; intros acc; [done|]. cbn [foldl]. rewrite IH. do 3 f_equal.
  unfold file_of in Hf. destruct (as_dct v); [|done]. cbn [mbind option_bind] in Hf. destruct (get_lst k_path v); [|done]. cbn [mbind option_bind] in Hf.
  destruct (mapM as_str _); [|done]. cbn [mbind option_bind] in Hf. destruct (_ && _); [|done]. by injection Hf as <-.
Qed.

(** *** The trackers *)

Lemma test_urls_ok l : forall p n fuel, list_at m p l -> (length l < fuel)%nat -> 0 <= n ->
  exists k, test_urls m base fuel (member_ptr l p) n = Some k /\ n <= k /\
    (k = n <-> match l with u :: _ => as_str u = None | [] => True end).
Proof.
  induction l as [|v l IH]; intros p n [|fuel] Hl Hf Hn; cbn [length] in Hf; try lia; [by exists n|].
  destruct (list_at_cons m base Hbase p v l Hl) as (Hv & q & Eq & Hq & _). destruct (at_types m p v Hv) as (Es & _). cbn [test_urls member_ptr].
  rewrite Es. cbn [mbind option_bind]. destruct (as_str v) as [s|].
  - rewrite bool_decide_true by done. rewrite Eq. cbn [mbind option_bind]. destruct (IH q (n + 1) fuel Hq ltac:(lia) ltac:(lia)) as (k & Ek & Hk & _).
    exists k. split; [done|]. split; [lia|]. split; [lia|done].
  - rewrite bool_decide_false by (by intros [? ?]). by exists n.
Qed.

Lemma test_tiers_ok l : forall p n fuel, list_at m p l -> (length l < fuel)%nat -> 0 <= n ->
  test_tiers m base fuel (member_ptr l p) n = Some (tiers_ok l (n >? 0)).
Proof.
  induction l as [|t l IH]; intros p n [|fuel] Hl Hf Hn; cbn [length] in Hf; try lia; [done|].
  destruct (list_at_cons m base Hbase p t l Hl) as (Ht & q & Eq & Hq & _). destruct (at_types m p t Ht) as (_ & _ & El & _). cbn [test_tiers member_ptr tiers_ok].
  rewrite El. cbn [mbind option_bind]. destruct (as_lst t) as [us|] eqn:Eus; [|rewrite bool_decide_false by (by intros [? ?]); done].
  rewrite bool_decide_true by done. destruct (at_first m p t us Ht Eus) as [Ef Hus]. rewrite Ef. cbn [mbind option_bind].
  pose proof (list_at_length m _ _ Hus). destruct (test_urls_ok us (p + 1) 0 (S (length m)) Hus ltac:(lia) ltac:(lia)) as (k & -> & Hk & Hk0). cbn [mbind option_bind].
  destruct us as [|u us]; [by rewrite (proj2 Hk0)|]. destruct (as_str u) as [s|].
  - rewrite (proj2 (Z.eqb_neq k 0)) by (intros E; by apply Hk0 in E). rewrite Eq. cbn [mbind option_bind]. rewrite (IH q (n + 1)) by (done || lia).
    rewrite bool_decide_true by done. cbn [andb]. do 2 f_equal. apply Z.gtb_lt. lia.
  - rewrite (proj2 Hk0) by done. rewrite bool_decide_false by (by intros [? ?]). done.
Qed.

(** *** The whole test *)

Lemma get_int_range q w k : at_ m q w -> Forall (fun c => c <> 0) k -> - 2 ^ 63 <= get_int k w < 2 ^ 63.
Proof.
  intros Hw Hk. unfold get_int. destruct (at_dget m base Hbase k Hk q w Hw) as (res & _ & Hres). destruct (lookup_key k w) as [x|]; [|cbn; lia].
  destruct Hres as (a & _ & (bs & r & Hx & Hs)). cbn [mbind option_bind]. destruct Hx as [ds s _ _|neg ds [Hne Hd]|l bs _|l bs _ _]; cbn; try lia.
  rewrite <- app_comm_cons in Hs. apply suffix_cons in Hs. rewrite <- !app_assoc in Hs. apply suffix_app in Hs.
  pose proof (suffix_dec m Hruns _ _ _ Hs Hd). destruct neg; cbn [int_of]; lia.
Qed.

(** The length of the files is in range. *)
Lemma files_range q info fs total : at_ m q info -> files_of info = Some (fs, total) -> - 2 ^ 63 <= total < 2 ^ 63.
Proof.
  intros Hq. pose proof (get_int_range q info k_length Hq ltac:(key)). unfold files_of. destruct (_ =? 0).
  - destruct (get_lst k_files info) as [l|]; [|done]. cbn [mbind option_bind]. destruct (mapM file_of l) as [f|]; [|done]. cbn [mbind option_bind].
    destruct (bool_decide _); [done|]. intros [= _ <-]. apply s64_range.
  - destruct (_ || _); [done|]. by intros [= _ <-].
Qed.

Lemma test_lengths_ok info v npieces pl : at_ m info v ->
  (len ← benc_dget_int m base info k_length;
   if negb (len =? 0) then
     if len <? 0 then Some false
     else
       files ← benc_dget_any m base info k_files;
       match files with Some _ => Some false | None => Some (sizes_fit npieces pl len) end
   else
     files ← benc_dget_lst m base info k_files;
     match files with
     | None => Some false
     | Some files =>
         ok ← mi_test_files m base files;
         if negb ok then Some false
         else fdct ← benc_first m files; len ← sum_lengths m base (S (length m)) fdct len; Some (sizes_fit npieces pl len)
     end) = Some (match files_of v with Some (_, total) => sizes_fit npieces pl total | None => false end).
Proof.
  intros Hv. rewrite (at_dget_int m base Hbase Hruns k_length ltac:(key) info v Hv). cbn [mbind option_bind]. unfold files_of.
  destruct (Z.eqb_spec (get_int k_length v) 0) as [E0|E0]; cbn [negb].
  - destruct (at_dget_lst m base Hbase k_files ltac:(key) info v Hv) as (res & Er & Hres). rewrite Er. cbn [mbind option_bind].
    destruct (get_lst k_files v) as [l|]; [|by rewrite Hres]. destruct Hres as (a & w & -> & Hw & El). destruct (at_first m a w l Hw El) as [Ef Hl].
    pose proof (list_at_length m _ _ Hl). unfold mi_test_files. rewrite Ef. cbn [mbind option_bind].
    rewrite (test_files_ok l (a + 1) 0) by (done || lia). cbn [mbind option_bind]. destruct (mapM file_of l) as [fs|] eqn:Em; [|done]. cbn [mbind option_bind].
    rewrite (sum_ok l (a + 1)) by (done || lia). cbn [mbind option_bind]. rewrite E0, (sum_files l fs Em). pose proof (sum_wraps fs 0) as Ew. change (s64 0) with 0 in Ew. rewrite Ew. by destruct fs.
  - destruct (get_int k_length v <? 0); [done|]. cbn [orb]. destruct (at_dget m base Hbase k_files ltac:(key) info v Hv) as (res & Er & Hres). rewrite Er. cbn [mbind option_bind].
    destruct (lookup_key k_files v) as [w|]; [destruct Hres as (q & -> & _)|rewrite Hres]; done.
Qed.

Lemma test_info_ok info v : at_ m info v -> mi_test_info m base info = Some (bool_decide (is_Some (info_of v))).
Proof.
  intros Hv. unfold mi_test_info. destruct (at_dget_mem m base Hbase k_name ltac:(key) info v Hv) as (res & -> & Hres). cbn [mbind option_bind].
  assert (match res with Some r => mi_test_path m (mem_ptr r) (mem_len r) | None => Some true end = Some (match get_str k_name v with Some s => good_name s | None => true end)) as ->.
  { destruct (get_str k_name v) as [s|]; [|by rewrite Hres]. destruct Hres as (a & -> & Ec). by apply test_path_ok. }
  cbn [mbind option_bind]. rewrite (at_dget_int m base Hbase Hruns k_piece_length ltac:(key) info v Hv). cbn [mbind option_bind].
  destruct (at_dget_mem m base Hbase k_pieces ltac:(key) info v Hv) as (res2 & -> & Hres2). cbn [mbind option_bind].
  unfold info_of. destruct (get_str k_pieces v) as [pieces|].
  2: { rewrite Hres2. destruct (match get_str k_name v with Some s => _ | None => _ end), (get_int k_piece_length v <=? 0); done. }
  destruct Hres2 as (a & -> & _). cbn [mbind option_bind mem_len]. rewrite (test_lengths_ok info v _ _ Hv). cbn [t_name t_piece_length t_npieces t_pieces].
  set (ok := match get_str k_name v with Some s => good_name s | None => true end).
  assert ((get_int k_piece_length v <=? 0) = negb (0 <? get_int k_piece_length v)) as -> by apply Z.leb_antisym.
  destruct (files_of v) as [[files total]|] eqn:Ef; cbn [mbind option_bind].
  - unfold t_npieces. cbn [t_name t_piece_length t_pieces]. fold ok. destruct ok; [|done]. cbn [negb andb]. destruct (Z.ltb_spec 0 (get_int k_piece_length v)); [|done]. cbn [negb andb].
    destruct (_ =? 0); [|done]. cbn [negb andb]. pose proof (get_int_range info v k_piece_length Hv ltac:(key)).
    rewrite sizes_fit_correct; [by destruct (bool_decide (fits _ _ _))|apply Z.div_pos; lia|lia|by eapply files_range].
  - destruct ok; [|done]. cbn [negb]. destruct (0 <? _); [|done]. cbn [negb]. by destruct (_ =? 0).
Qed.

Lemma test_announce_ok p v : at_ m p v ->
  (alst ← benc_dget_any m base p k_announce_list;
   match alst with
   | Some alst => l ← benc_islst m alst; if l : bool then mi_test_announce_list m base alst else Some false
   | None => r ← benc_dget_mem m base p k_announce; Some (match r with Some _ => true | None => false end)
   end) = Some (announce_ok v).
Proof.
  intros Hv. destruct (at_dget m base Hbase k_announce_list ltac:(key) p v Hv) as (res & -> & Hres). cbn [mbind option_bind]. unfold announce_ok.
  destruct (lookup_key k_announce_list v) as [w|].
  - destruct Hres as (q & -> & Hq). destruct (at_types m q w Hq) as (_ & _ & El & _). rewrite El. cbn [mbind option_bind]. destruct (as_lst w) as [l|] eqn:Ew; [|done].
    rewrite bool_decide_true by done. unfold mi_test_announce_list. destruct (at_first m q w l Hq Ew) as [Ef Hl]. rewrite Ef. cbn [mbind option_bind].
    pose proof (list_at_length m _ _ Hl). apply (test_tiers_ok l (q + 1) 0); [done|lia|lia].
  - rewrite Hres. destruct (at_dget_mem m base Hbase k_announce ltac:(key) p v Hv) as (r & -> & Hr). cbn [mbind option_bind].
    destruct (get_str k_announce v) as [s|]; [destruct Hr as (a & -> & _)|rewrite Hr]; done.
Qed.

Lemma mi_test_value v : benc v m -> mi_test m base 0 (Z.of_nat (length m)) = Some (if bool_decide (is_Some (metainfo_of v)) then 1 else 0).
Proof.
  intros Hv. pose proof (whole_at m v Hv) as Ha. unfold mi_test.
  rewrite (validate_whole m base Hbase Hruns v Hv). cbn [mbind option_bind]. change (0 =? 0) with true. cbv iota.
  destruct (at_types m 0 v Ha) as (_ & _ & _ & Ed). rewrite Ed. cbn [mbind option_bind]. unfold metainfo_of.
  destruct (as_dct v) as [l|]; [|done]. rewrite bool_decide_true by done. cbn [negb mbind option_bind].
  pose proof (test_announce_ok 0 v Ha) as Et. destruct (benc_dget_any m base 0 k_announce_list) as [alst|]; [|done]. cbn [mbind option_bind] in Et |- *. rewrite Et. cbn [mbind option_bind].
  destruct (announce_ok v); [|done]. cbn [negb]. destruct (at_dget_dct m base Hbase k_info ltac:(key) 0 v Ha) as (res & -> & Hres). cbn [mbind option_bind].
  destruct (get_dct k_info v) as [w|]; [|by rewrite Hres]. destruct Hres as (q & -> & Hq). rewrite (test_info_ok q w Hq). done.
Qed.

(** Whether the text is accepted, as its value says. *)
Lemma mi_test_decides :
  (exists v t, benc v m /\ metainfo_of v = Some t /\ mi_test m base 0 (Z.of_nat (length m)) = Some 1) \/
  (~ (exists v t, benc v m /\ metainfo_of v = Some t) /\ mi_test m base 0 (Z.of_nat (length m)) = Some 0).
Proof.
  destruct (benc_validate_correct m base Hbase Hruns) as [[[v Hv] _]|[Hn E]].
  - pose proof (mi_test_value v Hv) as E. destruct (metainfo_of v) as [t|] eqn:Et; [left; by exists v, t|]. right. split; [|done].
    intros (v' & t & Hv' & Et'). pose proof (mi_test_value v' Hv') as E'. rewrite Et' in E'. rewrite E' in E. done.
  - right. split; [intros (v & t & Hv & _); apply Hn; by exists v|]. unfold mi_test. rewrite E. done.
Qed.

(** C12: The test of a metainfo file, in whose text no run of digits is a number of 2^63 or
    more, gives an answer, without reading outside the text, and takes exactly the texts
    that encode a torrent: a dictionary with a tracker or tiers of them, of which those
    before the first that is no list start with a string, and an [info] with a good name if
    any, a positive piece length, hashes of 20 bytes each, and either one file or a list of
    files with good paths, of a length that fits the number of pieces: more than what all
    but the last can hold, or as much, and not more than all can hold; modulo 2^64 where
    they could hold 2^63 bytes ([fits]).  With longer runs of digits the test may loop for
    ever or read outside the text ([endless_diverges], [long_run_accepted]). *)
Theorem mi_test_correct :
  (exists v t, benc v m /\ metainfo_of v = Some t /\ mi_test m base 0 (Z.of_nat (length m)) = Some 1) \/
  (~ (exists v t, benc v m /\ metainfo_of v = Some t) /\ mi_test m base 0 (Z.of_nat (length m)) = Some 0).
Proof. exact mi_test_decides. Qed.
End Test.

(** ** Reading what has been tested *)

(** The path with the components joined. *)
Definition joined (path : list (list Z)) : list Z :=
  match path with [] => [] | s :: ss => s ++ flat_map (fun s => ch_backslash :: s) ss end.
Definition c_file (f : list (list Z) * Z) : list Z * Z := (joined f.1 ++ [0], f.2).

(** What [mi_files] makes of the files. *)
Definition c_files (t : torrent_info) : option (list (list Z * Z)) :=
  match t_files t with
  | Some fs => Some (map c_file fs)
  | None => (fun s => [(s ++ [0], t_total t)]) <$> t_name t
  end.

(** The tiers of trackers, when the list holds nothing else. *)
Definition tiers_of (v : bval) : option (list (list (list Z))) :=
  match get_lst k_announce_list v with
  | Some l => mapM (fun t => us ← as_lst t; mapM as_str us) l
  | None => (fun s => [[s]]) <$> get_str k_announce v
  end.

(** ** The shuffle of the trackers *)

Section Shuffle.
Context {A : Type}.

(** What is asked of [rand_between]. *)
Definition within (rand : nat -> nat -> nat) : Prop := forall j n, (j <= n)%nat -> (j <= rand j n <= n)%nat.

Lemma swap_urls_ok j ri (l : list A) x y : l !! j = Some x -> l !! ri = Some y -> swap j ri l = Some (<[ri := x]> (<[j := y]> l)) /\ <[ri := x]> (<[j := y]> l) ≡ₚ l.
Proof. intros Hx Hy. unfold swap. rewrite Hx, Hy. split; [done|]. by apply swap_Permutation. Qed.

Lemma shuffle_from N n : forall j (us us' : list A), length us = (j + S n)%nat -> us ≡ₚ us' -> take j us = take j us' -> (N = j + n)%nat ->
  exists rand, within rand /\ cfor n j (fun j l => l ← swap j (rand j N) l; Some (inl l)) us = Some us'.
Proof.
  induction n as [|n IH]; intros j us us' Hl Hp Ht HN.
  - exists (fun j _ => j). split; [intros j' n'; lia|]. cbn [cfor]. f_equal.
    pose proof (Permutation_length Hp) as Hl'. rewrite <- (take_drop j us), <- (take_drop j us') in Hp |- *. rewrite Ht in *.
    apply Permutation_app_inv_l in Hp. f_equal.
    destruct (drop j us) as [|a [|b l]] eqn:E1; [by apply Permutation_nil_l in Hp| |].
    + by apply Permutation_singleton_l in Hp.
    + apply (f_equal length) in E1. rewrite length_drop in E1. cbn [length] in E1. lia.
  - assert (j < length us')%nat as [x Hx]%lookup_lt_is_Some by (rewrite <- (Permutation_length Hp); lia).
    assert (exists ri, (j <= ri)%nat /\ us !! ri = Some x) as (ri & Hri & Hy).
    { assert (drop j us ≡ₚ drop j us') as Hd.
      { rewrite <- (take_drop j us), <- (take_drop j us'), Ht in Hp. by apply Permutation_app_inv_l in Hp. }
      assert (x ∈ drop j us) as [k Hk]%list_elem_of_lookup.
      { rewrite Hd. apply list_elem_of_lookup. exists 0%nat. by rewrite lookup_drop, Nat.add_0_r. }
      rewrite lookup_drop in Hk. exists (j + k)%nat. split; [lia|done]. }
    pose proof (lookup_lt_Some _ _ _ Hy) as Hlt. assert (j < length us)%nat as [z Hz]%lookup_lt_is_Some by lia.
    destruct (swap_urls_ok j ri us z x Hz Hy) as [Es Hs]. set (us1 := <[ri := z]> (<[j := x]> us)) in *.
    assert (length us1 = length us) as Hl1 by (unfold us1; by rewrite !length_insert).
    assert (take (S j) us1 = take (S j) us') as Ht1.
    { assert (us1 !! j = Some x) as H1.
      { unfold us1. destruct (decide (ri = j)) as [->|Hne].
        - rewrite list_lookup_insert_eq by (rewrite length_insert; lia). congruence.
        - rewrite list_lookup_insert_ne, list_lookup_insert_eq by lia. done. }
      rewrite (take_S_r us1 j x), (take_S_r us' j x), <- Ht by done. f_equal. unfold us1. by rewrite !take_insert_ge by lia. }
    destruct (IH (S j) us1 us') as (rand & Hr & E); [lia|by rewrite Hs|done|lia|].
    exists (fun j' n' => if decide (j' = j /\ n' = N) then ri else rand j' n'). split.
    + intros j' n' Hle. destruct (decide _) as [[-> ->]|]; [lia|by apply Hr].
    + cbn [cfor]. rewrite decide_True by done. rewrite Es. cbn [mbind option_bind]. etrans; [|exact E]. apply cfor_ext. intros j' s Hj'.
      rewrite decide_False by lia. done.
Qed.

Lemma shuffle_tier_perm rand (us : list A) : within rand -> exists us', shuffle_tier rand us = Some us' /\ us' ≡ₚ us.
Proof.
  intros Hr. unfold shuffle_tier. apply (cfor_total (fun _ l => l ≡ₚ us)); [|done|done].
  intros j l Hj Hl. pose proof (Permutation_length Hl) as El. specialize (Hr j (length us - 1)%nat ltac:(lia)).
  destruct (lookup_lt_is_Some_2 l j) as [x Hx]; [lia|]. destruct (lookup_lt_is_Some_2 l (rand j (length us - 1)%nat)) as [y Hy]; [lia|].
  destruct (swap_urls_ok j _ l x y Hx Hy) as [-> Hp]. cbn [mbind option_bind]. by rewrite Hp.
Qed.

(** The shuffle can bring a tier into any order. *)
Lemma shuffle_tier_onto (us us' : list A) : us ≡ₚ us' -> exists rand, within rand /\ shuffle_tier rand us = Some us'.
Proof.
  intros Hp. unfold shuffle_tier. destruct us as [|u us].
  - apply Permutation_nil_l in Hp. subst us'. exists (fun j _ => j). split; [intros j n; lia|done].
  - replace (length (u :: us) - 1)%nat with (length us) by (cbn [length]; lia). apply (shuffle_from _ _ 0); [done|done|by rewrite !take_0|done].
Qed.
End Shuffle.

Lemma shuffle_announce_ok (rand : nat -> nat -> nat -> nat) (ts : list (list (list Z))) : (forall i, within (rand i)) ->
  exists ts', mi_shuffle_announce rand ts = Some ts' /\ Forall2 (≡ₚ) ts' ts.
Proof.
  intros Hr. unfold mi_shuffle_announce. generalize 0%nat as k. induction ts as [|us ts IH]; intros k; [by exists []|].
  cbn [length seq zip_with mapM fst snd]. destruct (shuffle_tier_perm (rand k) us (Hr k)) as (us' & -> & Hp). cbn [mbind option_bind].
  destruct (IH (S k)) as (ts' & -> & Hts). exists (us' :: ts'). split; [done|]. by constructor.
Qed.

(** [rand_between] of the library is such a choice; [rand] gives the numbers drawn. *)
Definition drawn (RAND_MAX : Z) (rand : nat -> Z) (j n : nat) : nat := Z.to_nat (rand_between RAND_MAX (rand j) (Z.of_nat j) (Z.of_nat n)).

Lemma drawn_within RAND_MAX rand : 0 < RAND_MAX -> (forall k, 0 <= rand k <= RAND_MAX) -> within (drawn RAND_MAX rand).
Proof.
  intros Hm Hr j n Hj. pose proof (rand_between_range RAND_MAX (rand j) (Z.of_nat j) (Z.of_nat n) (Hr j) Hm ltac:(lia)). unfold drawn. lia.
Qed.

(** With its bias the shuffle always swaps two trackers, unless 0 is drawn. *)
Lemma two_swapped {A} (a b : A) RAND_MAX rand : 0 < rand 0%nat <= RAND_MAX -> shuffle_tier (drawn RAND_MAX rand) [a; b] = Some [b; a].
Proof.
  intros Hr. pose proof (rand_between_bias RAND_MAX (rand 0%nat) 0 1 Hr ltac:(lia)). pose proof (rand_between_range RAND_MAX (rand 0%nat) 0 1 ltac:(lia) ltac:(lia) ltac:(lia)).
  unfold shuffle_tier, swap, drawn. cbn [length Nat.sub cfor]. change (Z.of_nat 0) with 0. change (Z.of_nat 1) with 1.
  replace (Z.to_nat (rand_between RAND_MAX (rand 0%nat) 0 1)) with 1%nat by lia. done.
Qed.

(** ** What is read from an accepted torrent *)

Section Accepted.
Context (m : list Z) (base : Z).
Hypothesis Hbase : addressable m base.
Hypothesis Hruns : sane_runs m.

Ltac key := apply key_ok; repeat constructor.

Fixpoint bytes (ss : list (list Z)) : Z :=
  match ss with [] => 0 | s :: ss => Z.of_nat (length s) + bytes ss end.

Lemma bytes_nonneg ss : 0 <= bytes ss.
Proof. induction ss; cbn [bytes]; lia. Qed.

Lemma length_joined_rest ss : Z.of_nat (length (flat_map (fun s => ch_backslash :: s) ss)) = bytes ss + Z.of_nat (length ss).
Proof. induction ss as [|s ss IH]; [done|]. cbn [flat_map bytes app length]. rewrite length_app. lia. Qed.

Lemma strings_bytes l bs ss : bencs l bs -> mapM as_str l = Some ss -> bytes ss + 2 * Z.of_nat (length ss) <= Z.of_nat (length bs).
Proof.
  intros Hb. revert ss. induction Hb as [|v l b1 b2 Hv _ IH]; intros ss E; [by injection E as <-|]. cbn [mapM] in E.
  destruct v as [s| | |]; try done. cbn [as_str mbind option_bind] in E. destruct (mapM as_str l) as [ss'|] eqn:El; [|done]. injection E as <-.
  inversion Hv as [ds ? [Hne _] _| | |]; subst. specialize (IH ss' eq_refl). rewrite !length_app. cbn [length bytes].
  destruct ds as [|d ds]; [done|]. cbn [length]. lia.
Qed.

Lemma list_at_bytes p l ss : list_at m p l -> mapM as_str l = Some ss -> bytes ss + 2 * Z.of_nat (length ss) <= 2 ^ 63.
Proof.
  intros (bs & r & Hb & Hs) E. pose proof (strings_bytes l bs ss Hb E). destruct (suffix_le m _ _ Hs) as [Hp Hl]. rewrite length_app in Hl.
  unfold addressable in Hbase. lia.
Qed.

Lemma path_size_ok l : forall p n k ss fuel, list_at m p l -> mapM as_str l = Some ss -> (length l < fuel)%nat -> 0 <= n -> 0 <= k ->
  n + Z.of_nat (length ss) < 2 ^ 64 -> k + bytes ss < 2 ^ 64 ->
  path_size m base fuel (member_ptr l p) n k = Some (n + Z.of_nat (length ss), k + bytes ss).
Proof.
  induction l as [|v l IH]; intros p n k ss [|fuel] Hl E Hf Hn Hk H1 H2; cbn [length] in Hf; try lia.
  - injection E as <-. cbn. by rewrite !Z.add_0_r.
  - cbn [mapM] in E. destruct v as [s| | |]; try done. cbn [as_str mbind option_bind] in E. destruct (mapM as_str l) as [ss'|] eqn:El; [|done]. injection E as <-.
    destruct (list_at_mem m base Hbase p s l Hl) as (a & Em & _ & q & Eq & Hq). cbn [path_size member_ptr]. rewrite Em. cbn [mbind option_bind]. rewrite Eq. cbn [mbind option_bind mem_len].
    cbn [length bytes] in H1, H2. pose proof (bytes_nonneg ss'). rewrite !wrap_small by lia.
    rewrite (IH q _ _ ss') by (done || lia). cbn [length bytes]. do 2 f_equal; lia.
Qed.

Lemma path_rest_ok l : forall p ss fuel res, list_at m p l -> mapM as_str l = Some ss -> (length l < fuel)%nat ->
  path_rest m base fuel (member_ptr l p) (Z.of_nat (length l)) res = Some (res ++ flat_map (fun s => ch_backslash :: s) ss).
Proof.
  induction l as [|v l IH]; intros p ss [|fuel] res Hl E Hf; cbn [length] in Hf; try lia.
  - injection E as <-. cbn. by rewrite app_nil_r.
  - cbn [mapM] in E. destruct v as [s| | |]; try done. cbn [as_str mbind option_bind] in E. destruct (mapM as_str l) as [ss'|] eqn:El; [|done]. injection E as <-.
    destruct (list_at_mem m base Hbase p s l Hl) as (a & Em & Ec & q & Eq & Hq). cbn [path_rest member_ptr]. rewrite (proj2 (Z.gtb_lt _ _)) by (cbn [length]; lia).
    cbn [mbind option_bind]. rewrite Em. cbn [mbind option_bind]. rewrite Eq. cbn [mbind option_bind mem_len mem_ptr]. rewrite Ec. cbn [mbind option_bind].
    replace (Z.of_nat (length (BStr s :: l)) - 1) with (Z.of_nat (length l)) by (cbn [length]; lia). rewrite (IH q ss') by (done || lia).
    cbn [flat_map]. by rewrite <- app_assoc.
Qed.

Lemma filepath_ok alloc plst w l ss : at_ m plst w -> as_lst w = Some l -> mapM as_str l = Some ss -> ss <> [] ->
  mi_filepath m base alloc plst = Some (if alloc then Some (joined ss ++ [0]) else None).
Proof.
  intros Hw El Es Hne. destruct (at_first m plst w l Hw El) as [Ef Hl]. unfold mi_filepath. rewrite Ef. cbn [mbind option_bind].
  pose proof (list_at_length m _ _ Hl) as Hlen. pose proof (list_at_bytes _ _ _ Hl Es) as Hb. pose proof (bytes_nonneg ss).
  rewrite (path_size_ok l (plst + 1) 0 0 ss) by (done || lia). cbn [mbind option_bind]. destruct alloc; [|done]. cbn [negb].
  destruct l as [|v l]; [by injection Es as <-|]. cbn [mapM] in Es. destruct v as [s| | |]; try done. cbn [as_str mbind option_bind] in Es.
  destruct (mapM as_str l) as [ss'|] eqn:El'; [|done]. injection Es as <-. cbn [member_ptr mbind option_bind].
  destruct (list_at_mem m base Hbase (plst + 1) s l Hl) as (a & Em & Ec & q & Eq & Hq). rewrite Em. cbn [mbind option_bind]. rewrite Eq. cbn [mbind option_bind mem_len mem_ptr].
  rewrite Ec. cbn [mbind option_bind]. pose proof (Forall2_length _ _ _ (mapM_Some_1 _ _ _ El')) as Hll.
  replace (0 + Z.of_nat (length (s :: ss')) - 1) with (Z.of_nat (length l)) by (cbn [length]; lia). cbn [length] in Hlen.
  rewrite (path_rest_ok l q ss') by (done || lia). cbn [mbind option_bind joined]. cbn [length bytes] in Hb |- *.
  pose proof (bytes_nonneg ss'). rewrite ensure_true; [done|]. apply Z.leb_le. rewrite !length_app. pose proof (length_joined_rest ss') as Hj. cbn [length].
  rewrite !wrap_small by (rewrite ?wrap_small; lia). lia.
Qed.

(** *** The parts of an accepted torrent *)

Lemma info_of_inv info t : info_of info = Some t ->
  get_str k_pieces info = Some (t_pieces t) /\ files_of info = Some (t_files t, t_total t) /\ t_name t = get_str k_name info /\
  t_piece_length t = get_int k_piece_length info /\ 0 < t_piece_length t /\ Z.of_nat (length (t_pieces t)) mod 20 = 0 /\
  fits (t_npieces t) (t_piece_length t) (t_total t).
Proof.
  unfold info_of. destruct (get_str k_pieces info) as [pieces|]; [|done]. destruct (files_of info) as [[fs n]|]; [|done]. cbn [mbind option_bind].
  destruct (_ && _) eqn:E; [|done]. intros [= <-]. repeat apply andb_true_iff in E as [E ?]. split_and!; try done; [by apply Z.ltb_lt|by apply Z.eqb_eq|by eapply bool_decide_eq_true].
Qed.

Lemma file_of_inv v f : file_of v = Some f -> exists l, get_lst k_path v = Some l /\ mapM as_str l = Some f.1 /\ f.1 <> [] /\ get_int k_length v = f.2.
Proof.
  unfold file_of. destruct (as_dct v) as [l0|]; [|done]. cbn [mbind option_bind]. destruct (get_lst k_path v) as [l|]; [|done]. cbn [mbind option_bind].
  destruct (mapM as_str l) as [path|] eqn:E; [|done]. cbn [mbind option_bind]. destruct (_ && _) eqn:Eb; [|done]. intros [= <-].
  exists l. repeat apply andb_true_iff in Eb as [Eb _]. apply negb_true_iff, bool_decide_eq_false in Eb. done.
Qed.

Lemma files_of_inv info t : files_of info = Some (t_files t, t_total t) ->
  match get_lst k_files info with
  | Some l => exists fs, t_files t = Some fs /\ mapM file_of l = Some fs /\ t_total t = s64 (lengths fs)
  | None => t_files t = None /\ t_total t = get_int k_length info
  end.
Proof.
  unfold files_of. destruct (_ =? 0).
  - destruct (get_lst k_files info) as [l|]; [|done]. cbn [mbind option_bind]. destruct (mapM file_of l) as [fs|]; [|done]. cbn [mbind option_bind].
    destruct (bool_decide _); [done|]. intros [= <- <-]. by exists fs.
  - destruct (_ <? 0); [done|]. cbn [orb]. case_bool_decide as Hl; [done|]. intros [= <- <-]. unfold get_lst.
    destruct (lookup_key k_files info); [destruct Hl; by eexists|done].
Qed.

Definition t_nfiles (t : torrent_info) : nat := match t_files t with Some fs => length fs | None => 1 end.

Lemma files_loop_ok alloc nfiles l : forall p fs fuel acc, list_at m p l -> mapM file_of l = Some fs -> (length l < fuel)%nat ->
  Z.of_nat (length acc) + Z.of_nat (length l) <= nfiles ->
  files_loop m base alloc nfiles fuel (member_ptr l p) acc =
    Some (if forallb (fun i => alloc (SPath i)) (seq (length acc) (length fs)) then Some (acc ++ map c_file fs) else None).
Proof.
  induction l as [|v l IH]; intros p fs [|fuel] acc Hl E Hf Hn; cbn [length] in Hf, Hn; try lia.
  - injection E as <-. cbn. by rewrite app_nil_r.
  - destruct (list_at_cons m base Hbase p v l Hl) as (Hv & q & Eq & Hq & _). cbn [mapM] in E. destruct (file_of v) as [f|] eqn:Ef; [|done].
    cbn [mbind option_bind] in E. destruct (mapM file_of l) as [fs'|]; [|done]. injection E as <-. destruct (file_of_inv v f Ef) as (pl & Ep & Es & Hne & En).
    cbn [files_loop member_ptr]. rewrite ensure_true by (apply Z.ltb_lt; lia). cbn [mbind option_bind].
    rewrite (at_dget_int m base Hbase Hruns k_length ltac:(key) p v Hv), En. cbn [mbind option_bind].
    destruct (at_dget_lst m base Hbase k_path ltac:(key) p v Hv) as (res & -> & Hres). rewrite Ep in Hres. destruct Hres as (a & w & -> & Hw & El). cbn [mbind option_bind].
    rewrite (filepath_ok _ a w pl f.1 Hw El Es Hne). cbn [mbind option_bind length seq forallb map]. destruct (alloc (SPath (length acc))); [|done]. cbn [andb].
    rewrite Eq. cbn [mbind option_bind]. rewrite (IH q fs') by (done || rewrite ?length_app; cbn [length]; lia). rewrite length_app, Nat.add_1_r, <- app_assoc. done.
Qed.

(** *** The trackers of an accepted torrent *)

Lemma urls_loop_ok alloc nurls l : forall p us fuel acc, list_at m p l -> mapM as_str l = Some us -> (length l < fuel)%nat ->
  Z.of_nat (length acc) + Z.of_nat (length l) <= nurls ->
  urls_loop m base alloc nurls fuel (member_ptr l p) acc = Some (if forallb alloc (seq (length acc) (length us)) then Some (acc ++ us) else None).
Proof.
  induction l as [|v l IH]; intros p us [|fuel] acc Hl E Hf Hn; cbn [length] in Hf, Hn; try lia.
  - injection E as <-. cbn. by rewrite app_nil_r.
  - destruct (list_at_cons m base Hbase p v l Hl) as (Hv & q & Eq & Hq & _). cbn [mapM] in E. destruct (as_str v) as [u|] eqn:Eu; [|done].
    cbn [mbind option_bind] in E. destruct (mapM as_str l) as [us'|]; [|done]. injection E as <-.
    cbn [urls_loop member_ptr]. rewrite ensure_true by (apply Z.ltb_lt; lia). cbn [mbind option_bind].
    rewrite (proj1 (at_str m base Hbase (alloc (length acc)) p v Hv)), Eu. cbn [mbind option_bind length seq forallb]. destruct (alloc (length acc)); [|done]. cbn [andb].
    rewrite Eq. cbn [mbind option_bind]. rewrite (IH q us') by (done || rewrite ?length_app; cbn [length]; lia). rewrite length_app, Nat.add_1_r, <- app_assoc. done.
Qed.

(** Whether the allocations for the tiers from number [ti] on all succeed. *)
Fixpoint tiers_alloc (alloc : ann_site -> bool) (ti : nat) (ts : list (list (list Z))) : bool :=
  match ts with
  | [] => true
  | us :: ts => alloc (SUrls ti) && forallb (fun ui => alloc (SUrl ti ui)) (seq 0 (length us)) && tiers_alloc alloc (S ti) ts
  end.

Lemma tiers_loop_ok alloc ntiers l : forall p ts fuel acc, list_at m p l -> mapM (fun t => us ← as_lst t; mapM as_str us) l = Some ts -> (length l < fuel)%nat ->
  Z.of_nat (length acc) + Z.of_nat (length l) <= ntiers ->
  tiers_loop m base alloc ntiers fuel (member_ptr l p) acc = Some (if tiers_alloc alloc (length acc) ts then Some (acc ++ ts) else None).
Proof.
  induction l as [|v l IH]; intros p ts [|fuel] acc Hl E Hf Hn; cbn [length] in Hf, Hn; try lia.
  - injection E as <-. cbn. by rewrite app_nil_r.
  - destruct (list_at_cons m base Hbase p v l Hl) as (Hv & q & Eq & Hq & _). cbn [mapM] in E. destruct (as_lst v) as [ul|] eqn:Eu; [|done].
    cbn [mbind option_bind] in E. destruct (mapM as_str ul) as [us|] eqn:Eus; [|done]. cbn [mbind option_bind] in E. destruct (mapM _ l) as [ts'|] eqn:Ets; [|done].
    injection E as <-. cbn [tiers_loop member_ptr]. rewrite ensure_true by (apply Z.ltb_lt; lia). cbn [mbind option_bind].
    rewrite (at_nelems m base Hbase p v ul Hv Eu). cbn [mbind option_bind tiers_alloc]. destruct (alloc (SUrls (length acc))); [|done]. cbn [andb].
    destruct (at_first m p v ul Hv Eu) as [Ef Hul]. rewrite Ef. cbn [mbind option_bind]. pose proof (list_at_length m _ _ Hul).
    rewrite (urls_loop_ok _ _ ul (p + 1) us) by (done || cbn [length]; lia). cbn [mbind option_bind app length]. destruct (forallb _ _); [|done]. cbn [andb].
    rewrite Eq. cbn [mbind option_bind]. rewrite (IH q ts') by (done || rewrite ?length_app; cbn [length]; lia). rewrite length_app, Nat.add_1_r, <- app_assoc. done.
Qed.

(** *** The whole torrent *)

Section Torrent.
Context (v : bval) (t : torrent_info).
Hypothesis Hv : benc v m.
Hypothesis Ht : metainfo_of v = Some t.

Lemma accepted_info : exists q info, mi_info m base 0 = Some q /\ at_ m q info /\ get_dct k_info v = Some info /\ info_of info = Some t.
Proof.
  unfold metainfo_of in Ht. destruct (as_dct v); [|done]. cbn [mbind option_bind] in Ht. destruct (announce_ok v); [|done].
  destruct (at_dget_dct m base Hbase k_info ltac:(key) 0 v (whole_at m v Hv)) as (res & Er & Hres). unfold mi_info. rewrite Er. cbn [mbind option_bind].
  destruct (get_dct k_info v) as [info|]; [|done]. destruct Hres as (q & -> & Hq). by exists q, info.
Qed.

(** The list of files of the [info], where there is one. *)
Lemma accepted_files q info : at_ m q info -> info_of info = Some t ->
  exists res, benc_dget_lst m base q k_files = Some res /\
  match t_files t with
  | Some fs => exists l a w, res = Some a /\ at_ m a w /\ as_lst w = Some l /\ mapM file_of l = Some fs /\ t_total t = s64 (lengths fs)
  | None => res = None /\ t_total t = get_int k_length info
  end.
Proof.
  intros Hq E. destruct (at_dget_lst m base Hbase k_files ltac:(key) q info Hq) as (res & Er & Hres). exists res. split; [exact Er|].
  destruct (info_of_inv info t E) as (_ & Ef & _). pose proof (files_of_inv info t Ef) as Hf. destruct (get_lst k_files info) as [l|].
  - destruct Hf as (fs & -> & Efl & Et), Hres as (a & w & -> & Hw & Ew). by exists l, a, w.
  - destruct Hf as [-> Et]. done.
Qed.

Ltac info q info Hq E := let H := fresh in let H' := fresh in destruct accepted_info as (q & info & H & Hq & H' & E); rewrite ?H; clear H H'; cbn [mbind option_bind].
Ltac files t Hq E fs l a w Hw Ew Efl Et :=
  let res := fresh in let H := fresh in let H' := fresh in
  destruct (accepted_files _ _ Hq E) as (res & H & H'); rewrite ?H; clear H; cbn [mbind option_bind]; destruct (t_files t) as [fs|];
  [destruct H' as (l & a & w & -> & Hw & Ew & Efl & Et)|destruct H' as [-> Et]].

Lemma name_ok alloc : mi_name m base alloc 0 = Some (if alloc then t_name t else None).
Proof. unfold mi_name. info q i Hq E. by rewrite (proj1 (at_dget_str m base Hbase k_name ltac:(key) alloc q i Hq)), (proj1 (proj2 (proj2 (info_of_inv i t E)))). Qed.

Lemma hashes_ok alloc : mi_hashes m base alloc 0 = Some (if alloc then Some (t_pieces t) else None).
Proof. unfold mi_hashes. info q i Hq E. by rewrite (proj2 (at_dget_str m base Hbase k_pieces ltac:(key) alloc q i Hq)), (proj1 (info_of_inv i t E)). Qed.

Lemma npieces_ok : mi_npieces m base 0 = Some (t_npieces t).
Proof.
  unfold mi_npieces. info q i Hq E. destruct (at_dget_mem m base Hbase k_pieces ltac:(key) q i Hq) as (r & -> & Hr). rewrite (proj1 (info_of_inv i t E)) in Hr.
  destruct Hr as (a & -> & _). done.
Qed.

Lemma piece_length_ok : mi_piece_length m base 0 = Some (t_piece_length t).
Proof. unfold mi_piece_length. info q i Hq E. destruct (info_of_inv i t E) as (_ & _ & _ & -> & _). by rewrite (at_dget_int m base Hbase Hruns k_piece_length ltac:(key) q i Hq). Qed.

Lemma simple_ok : mi_simple m base 0 = Some (bool_decide (t_files t = None)).
Proof. unfold mi_simple. info q i Hq E. by files t Hq E fs l a w Hw Ew Efl Et. Qed.

Lemma nfiles_ok : mi_nfiles m base 0 = Some (Z.of_nat (t_nfiles t)).
Proof.
  unfold mi_nfiles, t_nfiles. info q i Hq E. files t Hq E fs l a w Hw Ew Efl Et; [|done]. rewrite (at_nelems m base Hbase a w l Hw Ew). f_equal. f_equal.
  exact (Forall2_length _ _ _ (mapM_Some_1 _ _ _ Efl)).
Qed.

Lemma total_length_ok : mi_total_length m base 0 = Some (t_total t).
Proof.
  unfold mi_total_length. info q i Hq E. files t Hq E fs l a w Hw Ew Efl Et; [|by rewrite (at_dget_int m base Hbase Hruns k_length ltac:(key) q i Hq), Et].
  destruct (at_first m a w l Hw Ew) as [E1 Hl]. rewrite E1. cbn [mbind option_bind]. pose proof (list_at_length m _ _ Hl).
  rewrite (sum_ok m base Hbase Hruns l) by (done || lia). rewrite (sum_files l fs Efl), Et. f_equal. apply (sum_wraps fs 0).
Qed.

Lemma files_ok alloc : Z.of_nat (length m) <= MAX_METAINFO ->
  mi_files m base alloc 0 = Some (if alloc SFiles && forallb (fun i => alloc (SPath i)) (seq 0 (t_nfiles t)) then c_files t else None).
Proof.
  intros Hm. unfold mi_files, t_nfiles, c_files. info q i Hq E. files t Hq E fs l a w Hw Ew Efl Et.
  - rewrite (at_nelems m base Hbase a w l Hw Ew). cbn [mbind option_bind]. destruct (at_first m a w l Hw Ew) as [E1 Hl]. rewrite E1. cbn [mbind option_bind].
    destruct (alloc SFiles); [|done]. cbn [andb]. pose proof (list_at_length m _ _ Hl). unfold MAX_METAINFO in Hm. rewrite wrap_small by lia.
    by rewrite (files_loop_ok alloc _ l (a + 1) fs) by (done || cbn [length]; lia).
  - destruct (alloc SFiles); [|done]. rewrite (at_dget_int m base Hbase Hruns k_length ltac:(key) q i Hq), <- Et. cbn [mbind option_bind].
    rewrite (proj1 (at_dget_str m base Hbase k_name ltac:(key) (alloc (SPath 0)) q i Hq)), (proj1 (proj2 (proj2 (info_of_inv i t E)))). cbn [mbind option_bind seq forallb].
    destruct (alloc (SPath 0)); [|done]. by destruct (get_str k_name i).
Qed.

Lemma info_hash_ok SHA1 : exists info bs, get_dct k_info v = Some info /\ benc info bs /\
  forall alloc, mi_info_hash m base SHA1 alloc 0 = Some (if alloc : bool then Some (SHA1 bs) else None).
Proof.
  destruct accepted_info as (q & info & Eq & (bs & r & Hb & Hs) & Ei & _). exists info, bs. split; [done|]. split; [done|]. intros alloc.
  unfold mi_info_hash. rewrite Eq. cbn [mbind option_bind]. destruct alloc; [|done]. destruct (suffix_le m _ _ Hs) as [Hp Hl]. rewrite length_app in Hl.
  rewrite (proj1 (benc_length_ok m base Hbase) info bs Hb r) by (done || unfold text_fuel; lia). cbn [mbind option_bind].
  by rewrite (copy_suffix m q bs r Hs).
Qed.

Lemma read_tiers_ok alloc ts : tiers_of v = Some ts ->
  read_tiers m base alloc 0 = Some (if alloc STiers && tiers_alloc alloc 0 ts then Some ts else None).
Proof.
  intros Ets. pose proof (whole_at m v Hv) as Ha. unfold read_tiers. unfold tiers_of in Ets.
  destruct (at_dget_lst m base Hbase k_announce_list ltac:(key) 0 v Ha) as (res & -> & Hres). cbn [mbind option_bind].
  destruct (get_lst k_announce_list v) as [l|].
  - destruct Hres as (a & w & -> & Hw & Ew). rewrite (at_nelems m base Hbase a w l Hw Ew). cbn [mbind option_bind]. destruct (alloc STiers); [|done]. cbn [andb].
    destruct (at_first m a w l Hw Ew) as [E1 Hl]. rewrite E1. cbn [mbind option_bind]. pose proof (list_at_length m _ _ Hl).
    by rewrite (tiers_loop_ok alloc _ l (a + 1) ts) by (done || cbn [length]; lia).
  - rewrite Hres. rewrite (proj1 (at_dget_str m base Hbase k_announce ltac:(key) (alloc (SUrl 0 0)) 0 v Ha)).
    destruct (get_str k_announce v) as [s|]; [|done]. injection Ets as <-. cbn [tiers_alloc seq length forallb]. rewrite !andb_true_r.
    destruct (alloc STiers), (alloc (SUrls 0)), (alloc (SUrl 0 0)); done.
Qed.

(** *** The numbers *)

Lemma total_range : - 2 ^ 63 <= t_total t < 2 ^ 63.
Proof. info q i Hq E. destruct (info_of_inv i t E) as (_ & Ef & _). by apply (files_range m base Hbase Hruns q i (t_files t)). Qed.

Lemma sizes_ok : t_npieces t * t_piece_length t < 2 ^ 63 ->
  0 < t_npieces t /\ 0 < t_piece_length t /\ (t_npieces t - 1) * t_piece_length t <= t_total t <= t_npieces t * t_piece_length t.
Proof.
  intros Hb. pose proof total_range as Hr. info q i Hq E. destruct (info_of_inv i t E) as (_ & _ & _ & El & Hpos & _ & Hfit).
  unfold fits in Hfit. rewrite decide_True in Hfit by done. tauto.
Qed.

Lemma npieces_range : Z.of_nat (length m) <= MAX_METAINFO -> t_npieces t < 2 ^ 32.
Proof.
  intros Hm. info q i Hq E. destruct (at_dget_mem m base Hbase k_pieces ltac:(key) q i Hq) as (r & _ & Hr). rewrite (proj1 (info_of_inv i t E)) in Hr.
  destruct Hr as (a & _ & Hc). unfold copy_bytes in Hc. destruct (_ && _); [|done]. unfold mread in Hc. case_bool_decide as Hl; [|done].
  unfold t_npieces, MAX_METAINFO in *. apply Z.div_lt_upper_bound; lia.
Qed.

(** *** The claims *)

(** C9: Of a torrent that the test accepts, whose text has at most 16 MiB and no run of
    digits that is a number of 2^63 or more, each of these gives what the text encodes: the
    name, the hashes and their number, the piece length, the sum of the lengths (in 64
    bits), whether it is one file, the files with their joined paths, and the hash of
    exactly the bytes of [info]; without reading outside the text or writing outside what it
    allocates, and [NULL] just where an allocation fails or the only file has no name.  The
    reading of the trackers, [mi_announce], is not among them: it is safe on less
    ([mi_announce_correct], [announce_crash]). *)
Theorem mi_accepted SHA1 : Z.of_nat (length m) <= MAX_METAINFO ->
  (forall alloc, mi_name m base alloc 0 = Some (if alloc then t_name t else None)) /\
  (forall alloc, mi_hashes m base alloc 0 = Some (if alloc then Some (t_pieces t) else None)) /\
  mi_npieces m base 0 = Some (t_npieces t) /\ mi_piece_length m base 0 = Some (t_piece_length t) /\ mi_total_length m base 0 = Some (t_total t) /\
  mi_simple m base 0 = Some (bool_decide (t_files t = None)) /\ mi_nfiles m base 0 = Some (Z.of_nat (t_nfiles t)) /\
  (forall alloc, mi_files m base alloc 0 =
     Some (if alloc SFiles && forallb (fun i => alloc (SPath i)) (seq 0 (t_nfiles t)) then c_files t else None)) /\
  exists info bs, get_dct k_info v = Some info /\ benc info bs /\
    forall alloc, mi_info_hash m base SHA1 alloc 0 = Some (if alloc : bool then Some (SHA1 bs) else None).
Proof.
  intros Hm. split_and!; [exact name_ok|exact hashes_ok|exact npieces_ok|exact piece_length_ok|exact total_length_ok|exact simple_ok|exact nfiles_ok| |by apply info_hash_ok].
  intros alloc. by apply files_ok.
Qed.


(** The bookkeeping of the download is right for such sizes. *)
Lemma sizes_for_download n pl total : 0 < n < 2 ^ 32 -> 0 < pl < 2 ^ 31 -> (n - 1) * pl < total <= n * pl -> torrent_ok (Torrent (Z.to_nat n) pl total).
Proof.
  intros Hn Hpl Ht'. split; cbn [tp_npieces]; [lia|]. intros k Hk. unfold torrent_piece_size. cbn [tp_npieces piece_length total_length].
  destruct (Nat.ltb_spec k (Z.to_nat n - 1)); [lia|]. rewrite Z2Nat.id by lia. lia.
Qed.
End Torrent.

(** C23: The sizes that the code reads from a torrent that it accepts (with no run of digits
    that is a number of 2^63 or more), where number and length of the pieces do not overflow
    when multiplied, are those of a torrent: there is a piece, and the length takes all the
    pieces and not more, but the last may be empty ([empty_piece]).  If besides the text has
    at most 16 MiB, the pieces are of less than 2 GiB and the last of them is not empty,
    these sizes are what the bookkeeping of the download is proved right for
    ([torrent_ok]). *)
Theorem mi_sizes : mi_test m base 0 (Z.of_nat (length m)) = Some 1 -> exists n pl total,
  mi_npieces m base 0 = Some n /\ mi_piece_length m base 0 = Some pl /\ mi_total_length m base 0 = Some total /\
  (n * pl < 2 ^ 63 ->
    0 < n /\ 0 < pl /\ (n - 1) * pl <= total <= n * pl /\
    (Z.of_nat (length m) <= MAX_METAINFO -> pl < 2 ^ 31 -> (n - 1) * pl <> total -> torrent_ok (Torrent (Z.to_nat n) pl total))).
Proof.
  intros E. destruct (mi_test_decides m base Hbase Hruns) as [(v & t & Hv & Ht & _)|[_ E0]]; [|by rewrite E0 in E].
  exists (t_npieces t), (t_piece_length t), (t_total t). split; [by eapply npieces_ok|]. split; [by eapply piece_length_ok|]. split; [by eapply total_length_ok|].
  intros Hb. destruct (sizes_ok v t Hv Ht Hb) as (Hn & Hpl & Ht'). split_and!; try lia. intros Hm Hpl2 Hne.
  pose proof (npieces_range v t Hv Ht Hm). apply sizes_for_download; lia.
Qed.
End Accepted.

(** ** Samples *)

Definition n_int (ds : list Z) : bval := BInt false ds.
Definition sample_url : list Z := [104; 116; 116; 112; 58; 47; 47; 97]. (* http://a *)
Definition sample_hashes : list Z := repeat 7 40.

(** Two files, [a] and [b\c] of 5 and 3 bytes, in pieces of 6 bytes. *)
Definition sample_file (path : list (list Z)) (ds : list Z) : bval := BDict [BStr k_length; n_int ds; BStr k_path; BList (map BStr path)].
Definition sample_info : bval :=
  BDict [BStr k_files; BList [sample_file [[97]] [53]; sample_file [[98]; [99]] [51]]; BStr k_name; BStr [116]; BStr k_piece_length; n_int [54];
    BStr k_pieces; BStr sample_hashes].
Definition sample_of (announce : list bval) (info : bval) : bval := BDict (announce ++ [BStr k_info; info]).
Definition sample : bval := sample_of [BStr k_announce_list; BList [BList [BStr sample_url; BStr [120]]; BList [BStr sample_url]]] sample_info.
Definition sample_torrent_info : torrent_info :=
  TorrentInfo (Some [116]) 6 sample_hashes (Some [([[97]], 5); ([[98]; [99]], 3)]) 8.

Lemma sample_benc : benc sample (encode sample).
Proof. by apply encode_benc. Qed.
Lemma sample_addressable : addressable (encode sample) 4096.
Proof. split; [done|]. vm_compute. discriminate. Qed.
Lemma sample_sane : sane_runs (encode sample).
Proof. apply short_runs_sane. vm_compute. reflexivity. Qed.
Lemma sample_metainfo : metainfo_of sample = Some sample_torrent_info.
Proof. vm_compute. reflexivity. Qed.
Lemma sample_size : Z.of_nat (length (encode sample)) <= MAX_METAINFO.
Proof. vm_compute. discriminate. Qed.

Lemma mi_test_correct_witness :
  (exists v t, benc v (encode sample) /\ metainfo_of v = Some t /\ mi_test (encode sample) 4096 0 (Z.of_nat (length (encode sample))) = Some 1) \/
  (~ (exists v t, benc v (encode sample) /\ metainfo_of v = Some t) /\ mi_test (encode sample) 4096 0 (Z.of_nat (length (encode sample))) = Some 0).
Proof. exact (mi_test_correct (encode sample) 4096 sample_addressable sample_sane). Defined.

Example sample_accepted : mi_test (encode sample) 4096 0 (Z.of_nat (length (encode sample))) = Some 1.
Proof. vm_compute. reflexivity. Qed.

Lemma mi_accepted_witness : mi_total_length (encode sample) 4096 0 = Some 8 /\
  mi_files (encode sample) 4096 (fun _ => true) 0 = Some (Some [([97; 0], 5); ([98; 92; 99; 0], 3)]).
Proof.
  destruct (mi_accepted (encode sample) 4096 sample_addressable sample_sane sample sample_torrent_info sample_benc sample_metainfo (fun s => s) sample_size)
    as (_ & _ & _ & _ & H1 & _ & _ & H2 & _).
  split; [exact H1|exact (H2 (fun _ => true))].
Defined.


Lemma mi_sizes_witness : mi_npieces (encode sample) 4096 0 = Some 2 /\ mi_piece_length (encode sample) 4096 0 = Some 6 /\
  mi_total_length (encode sample) 4096 0 = Some 8 /\ torrent_ok (Torrent 2 6 8).
Proof.
  destruct (mi_sizes (encode sample) 4096 sample_addressable sample_sane sample_accepted) as (n & pl & total & H1 & H2 & H3 & H).
  assert (n = 2 /\ pl = 6 /\ total = 8) as (-> & -> & ->).
  { revert H1 H2 H3. vm_compute. intros [= <-] [= <-] [= <-]. done. }
  split; [exact H1|]. split; [exact H2|]. split; [exact H3|]. destruct (H eq_refl) as (_ & _ & _ & Hok). apply Hok; [exact sample_size|reflexivity|discriminate].
Defined.

(** *** Torrents that are accepted and should not be *)

Definition accepted (v : bval) : Prop := mi_test (encode v) 4096 0 (Z.of_nat (length (encode v))) = Some 1.
Definition url_first : list bval := [BStr k_announce; BStr sample_url].

(** A tier that is no list is not looked at by the test once there is one good tier, and
    the reading of the trackers fails an assertion on it. *)
Example announce_crash : let v := sample_of [BStr k_announce_list; BList [BList [BStr sample_url]; n_int [52; 50]]] sample_info in
  accepted v /\ mi_announce (encode v) 4096 (fun _ => true) (fun _ j _ => j) 0 = None.
Proof. vm_compute. done. Qed.

(** A component may hold the separator that the components are joined with: the file is
    [..\x], above the directory of the torrent. *)
Example path_escapes : let v := sample_of url_first (BDict [BStr k_files; BList [sample_file [[46; 46; 92; 120]] [56]];
    BStr k_piece_length; n_int [54]; BStr k_pieces; BStr sample_hashes]) in
  accepted v /\ mi_files (encode v) 4096 (fun _ => true) 0 = Some (Some [([46; 46; 92; 120; 0], 8)]).
Proof. vm_compute. done. Qed.

(** One file without a name: the reading of the files gives [NULL] though no allocation
    failed. *)
Definition one_file (name : list bval) (len pl : list Z) (hashes : list Z) : bval :=
  sample_of url_first (BDict (BStr k_length :: n_int len :: name ++ [BStr k_piece_length; n_int pl; BStr k_pieces; BStr hashes])).
Example no_name : let v := one_file [] [56] [54] sample_hashes in
  accepted v /\ mi_files (encode v) 4096 (fun _ => true) 0 = Some None /\ mi_name (encode v) 4096 true 0 = Some None.
Proof. vm_compute. done. Qed.

(** The last piece may be empty: 12 bytes in three pieces of 6. *)
Example empty_piece : let v := one_file [] [49; 50] [54] (repeat 7 60) in
  accepted v /\ torrent_piece_size (Torrent 3 6 12) 2 = 0.
Proof. vm_compute. done. Qed.

(** Four pieces of 6148914691236517206 bytes for two bytes: the products wrap around. *)
Example product_wraps : let v := one_file [BStr k_name; BStr [97]] [50] [54; 49; 52; 56; 57; 49; 52; 54; 57; 49; 50; 51; 54; 53; 49; 55; 50; 48; 54] (repeat 7 80) in
  accepted v /\ mi_total_length (encode v) 4096 0 = Some 2 /\ mi_npieces (encode v) 4096 0 = Some 4 /\ mi_piece_length (encode v) 4096 0 = Some 6148914691236517206.
Proof. vm_compute. done. Qed.
