(* ===== verification/Url.v ===== *)
(** Addresses of trackers and HTTP sources: [http_url_parse] of
    [libbt/misc/http_client.c].

    An address is the list of its bytes without the NUL at the end; pointers into it are
    offsets, and the byte at the end reads as 0. *)
From S2P Require Import Prelude Benc.
Local Open Scope Z_scope.

Definition ch_at : Z := 64.
Definition ch_quest : Z := 63.
Definition ch_slash : Z := 47.
Definition http_scheme : list Z := [104; 116; 116; 112; 58; 47; 47]. (* http:// *)
Definition http_port : Z := 80.

Record http_url := HttpUrl { host : list Z; uri : list Z; port : Z }.

(** The byte at an offset. *)
Definition byte (url : list Z) (i : nat) : Z := nth i url 0.

(** [strchr] from an offset on. *)
Fixpoint strchr (s : list Z) (i : nat) (c : Z) : option nat :=
  match s with
  | [] => None
  | x :: s => if x =? c then Some i else strchr s (S i) c
  end.

(** The loops that move [cur] on. *)
Fixpoint skip_host (url : list Z) (n cur uri : nat) : nat :=
  match n with
  | O => cur
  | S n => if (cur <? uri)%nat && negb (byte url cur =? ch_colon) then skip_host url n (S cur) uri else cur
  end.
Fixpoint skip_digits (url : list Z) (n cur uri : nat) : nat :=
  match n with
  | O => cur
  | S n => if (cur <? uri)%nat && isdigit (byte url cur) then skip_digits url n (S cur) uri else cur
  end.

(** [sscanf] of an unsigned short. *)
Definition scan_hu (ds : list Z) : Z := wrap 16 (Z.min (dec ds) (2 ^ 64 - 1)).

(** The bytes from an offset up to another. *)
Definition span (url : list Z) (a b : nat) : list Z := take (b - a) (drop a url).

(** Where host and port end, from the start of the host on. *)
Definition parse_host (url : list Z) (h uri : nat) : option (nat * option (nat * nat)) :=
  let host_e := skip_host url (length url) h uri in
  if (host_e =? h)%nat then None
  else if byte url host_e =? ch_colon then
    let port := S host_e in
    let cur := skip_digits url (length url) port uri in
    if (cur =? port)%nat || negb (cur =? uri)%nat then None else Some (host_e, Some (port, cur))
  else Some (host_e, None).

(** [None] is a write behind the block that [malloc] gave. *)
Definition http_url_parse (alloc : bool) (url : list Z) : option (option http_url) :=
  if negb (bool_decide (take 7 url = http_scheme)) then Some None
  else
    let at_ := strchr (drop 7 url) 7 ch_at in
    let u := strchr (drop 7 url) 7 ch_slash in
    let cur := strchr (drop 7 url) 7 ch_quest in
    let u := match cur, u with Some c, None => Some c | Some c, Some u' => if (c <? u')%nat then Some c else u | None, _ => u end in
    let u := default (length url) u in
    let h := match at_ with Some a => if (a <? u)%nat then S a else 7%nat | None => 7%nat end in
    match parse_host url h u with
    | None => Some None
    | Some (host_e, po) =>
        let uri_e := length url in
        let size := (host_e - h + 1 + (uri_e - u) + 2)%nat in
        if negb alloc then Some None
        else
          let p := match po with Some (a, b) => scan_hu (span url a b) | None => http_port end in
          let hs := span url h host_e in
          let us := if negb (byte url u =? ch_slash) then ch_slash :: span url u uri_e else span url u uri_e in
          _ ← ensure (length hs + 1 + length us + 1 <=? size)%nat;
          Some (Some (HttpUrl hs us p))
    end.

(** ** Addresses *)

(** An address: user, host, digits of the port and what follows. *)
Record parts := Parts { p_user : option (list Z); p_host : list Z; p_port : option (list Z); p_tail : list Z }.

Definition text_of (a : parts) : list Z :=
  http_scheme ++ match p_user a with Some u => u ++ [ch_at] | None => [] end ++ p_host a ++ match p_port a with Some ds => ch_colon :: ds | None => [] end ++ p_tail a.

Definition no (cs s : list Z) : Prop := Forall (fun c => c ∉ cs) s.

Record parts_ok (a : parts) : Prop := PartsOk {
  po_user : match p_user a with Some u => no [ch_at; ch_slash; ch_quest] u | None => no [ch_at] (p_host a) end;
  po_host : p_host a <> [] /\ no [ch_colon; ch_slash; ch_quest] (p_host a);
  po_port : match p_port a with Some ds => digits ds | None => True end;
  po_tail : match p_tail a with [] => True | c :: _ => c = ch_slash \/ c = ch_quest end
}.

Definition url_of (a : parts) : http_url :=
  HttpUrl (p_host a)
    (match p_tail a with c :: _ => if c =? ch_slash then p_tail a else ch_slash :: p_tail a | [] => [ch_slash] end)
    (match p_port a with Some ds => scan_hu ds | None => http_port end).

(** ** Finding *)

Lemma strchr_no c s : no [c] s -> forall t i, strchr (s ++ t) i c = strchr t (i + length s) c.
Proof.
  induction 1 as [|x s Hx _ IH]; intros t i; cbn [app strchr length]; [by rewrite Nat.add_0_r|].
  rewrite (proj2 (Z.eqb_neq x c)) by (intros ->; apply Hx; constructor). rewrite IH. f_equal. lia.
Qed.

Lemma strchr_ge s c : forall i k, strchr s i c = Some k -> (i <= k)%nat.
Proof.
  induction s as [|x s IH]; intros i k E; [done|]. cbn [strchr] in E. destruct (x =? c); [by injection E as <-|]. apply IH in E. lia.
Qed.

Lemma no_sub cs cs' s : no cs s -> (forall c, c ∈ cs' -> c ∈ cs) -> no cs' s.
Proof. intros H Hs. eapply Forall_impl; [exact H|]. intros c Hc Hc'. by apply Hc, Hs. Qed.

(** Every text splits at the first byte of a kind. *)
Lemma split_no cs s : exists a t, s = a ++ t /\ no cs a /\ match t with [] => True | c :: _ => c ∈ cs end.
Proof.
  induction s as [|x s (a & t & -> & Ha & Ht)]; [by exists [], []; repeat constructor|].
  destruct (decide (x ∈ cs)) as [Hx|Hx]; [exists [], (x :: a ++ t)|exists (x :: a), t]; (split; [done|split; [by constructor|done]]).
Qed.

Lemma byte_app pre c s : byte (pre ++ c :: s) (length pre) = c.
Proof. unfold byte. by rewrite nth_middle. Qed.

Lemma span_app pre s post : span (pre ++ s ++ post) (length pre) (length pre + length s) = s.
Proof. unfold span. rewrite drop_app_length. replace (length pre + length s - length pre)%nat with (length s) by lia. by rewrite take_app_length. Qed.

Lemma span_port pre hs c ds post : span (pre ++ hs ++ (c :: ds) ++ post) (S (length pre + length hs)) (length pre + length hs + length (c :: ds)) = ds.
Proof.
  replace (pre ++ hs ++ (c :: ds) ++ post) with ((pre ++ hs ++ [c]) ++ ds ++ post) by (by rewrite <- !app_assoc).
  replace (S (length pre + length hs)) with (length (pre ++ hs ++ [c])) by (rewrite !length_app; cbn [length]; lia).
  replace (length pre + length hs + length (c :: ds))%nat with (length (pre ++ hs ++ [c]) + length ds)%nat by (rewrite !length_app; cbn [length]; lia).
  apply span_app.
Qed.

Lemma skip_host_ok hs post uri n : forall pre, no [ch_colon] hs -> (length hs <= n)%nat -> (length pre + length hs <= uri)%nat ->
  (uri = (length pre + length hs)%nat \/ exists t, post = ch_colon :: t) ->
  skip_host (pre ++ hs ++ post) n (length pre) uri = (length pre + length hs)%nat.
Proof.
  revert n. induction hs as [|x hs IH]; intros n pre Hno Hn Hu Hp; cbn [length app] in *.
  - rewrite Nat.add_0_r in *. destruct n as [|n]; [done|]. cbn [skip_host]. destruct Hp as [->|[t ->]]; [by rewrite Nat.ltb_irrefl|].
    rewrite byte_app, Z.eqb_refl. by rewrite andb_false_r.
  - destruct n as [|n]; [lia|]. apply Forall_cons in Hno as [Hx Hno]. cbn [skip_host]. rewrite byte_app, (proj2 (Nat.ltb_lt _ _)) by lia.
    rewrite (proj2 (Z.eqb_neq x ch_colon)) by (intros ->; apply Hx; constructor). cbn [negb andb].
    replace (pre ++ x :: hs ++ post) with ((pre ++ [x]) ++ hs ++ post) by (by rewrite <- app_assoc).
    replace (S (length pre)) with (length (pre ++ [x])) by (rewrite length_app; cbn [length]; lia).
    rewrite IH; [rewrite length_app; cbn [length]; lia|done|lia|rewrite length_app; cbn [length]; lia|].
    destruct Hp as [->|Hp]; [left; rewrite length_app; cbn [length]; lia|by right].
Qed.

Lemma skip_digits_ok ds post uri n : forall pre, Forall (fun c => isdigit c = true) ds -> (length ds <= n)%nat -> (length pre + length ds <= uri)%nat ->
  (uri = (length pre + length ds)%nat \/ exists c t, post = c :: t /\ isdigit c = false) ->
  skip_digits (pre ++ ds ++ post) n (length pre) uri = (length pre + length ds)%nat.
Proof.
  revert n. induction ds as [|x ds IH]; intros n pre Hd Hn Hu Hp; cbn [length app] in *.
  - rewrite Nat.add_0_r in *. destruct n as [|n]; [done|]. cbn [skip_digits]. destruct Hp as [->|(c & t & -> & Hc)]; [by rewrite Nat.ltb_irrefl|].
    rewrite byte_app, Hc. by rewrite andb_false_r.
  - destruct n as [|n]; [lia|]. apply Forall_cons in Hd as [Hx Hd]. cbn [skip_digits]. rewrite byte_app, Hx, (proj2 (Nat.ltb_lt _ _)) by lia. cbn [andb].
    replace (pre ++ x :: ds ++ post) with ((pre ++ [x]) ++ ds ++ post) by (by rewrite <- app_assoc).
    replace (S (length pre)) with (length (pre ++ [x])) by (rewrite length_app; cbn [length]; lia).
    rewrite IH; [rewrite length_app; cbn [length]; lia|done|lia|rewrite length_app; cbn [length]; lia|].
    destruct Hp as [->|Hp]; [left; rewrite length_app; cbn [length]; lia|by right].
Qed.

(** ** The parts found *)

Section Parse.
Context (user : option (list Z)) (hs t2 tail : list Z).
Let before : list Z := http_scheme ++ match user with Some u => u ++ [ch_at] | None => [] end.
Let text : list Z := before ++ hs ++ t2 ++ tail.
Let uri_at : nat := (length before + length hs + length t2)%nat.

Hypothesis Huser : match user with Some u => no [ch_at; ch_slash; ch_quest] u | None => no [ch_at] (hs ++ t2) end.
Hypothesis Hauth : no [ch_slash; ch_quest] (hs ++ t2).
Hypothesis Hhs : no [ch_colon] hs.
Hypothesis Ht2 : match t2 with [] => True | c :: _ => c = ch_colon end.
Hypothesis Htail : match tail with [] => True | c :: _ => c = ch_slash \/ c = ch_quest end.

Let auth : list Z := match user with Some u => u ++ [ch_at] | None => [] end ++ hs ++ t2.

Lemma text_auth : text = http_scheme ++ auth ++ tail.
Proof. unfold text, auth, before. by rewrite <- !app_assoc. Qed.

Lemma auth_no : no [ch_slash; ch_quest] auth.
Proof.
  unfold auth, no. apply Forall_app. split; [|done]. destruct user as [u|]; [|constructor]. apply Forall_app. split.
  - eapply no_sub; [exact Huser|]. intros c. set_solver.
  - repeat constructor. unfold ch_at, ch_slash, ch_quest. set_solver by lia.
Qed.

Lemma auth_length : (7 + length auth)%nat = uri_at.
Proof. unfold auth, uri_at, before. rewrite !length_app. cbn [length http_scheme]. lia. Qed.

Lemma text_length : length text = (uri_at + length tail)%nat.
Proof. unfold text, uri_at. rewrite !length_app. lia. Qed.

Lemma drop_text : drop 7 text = auth ++ tail.
Proof. rewrite text_auth. apply (drop_app_length http_scheme). Qed.

Lemma strchr_auth c : c = ch_slash \/ c = ch_quest -> strchr (drop 7 text) 7 c = strchr tail uri_at c.
Proof.
  intros Hc. rewrite drop_text, strchr_no, auth_length; [done|]. eapply no_sub; [exact auth_no|]. intros d. set_solver.
Qed.

(** Where the rest starts. *)
Lemma uri_found :
  default (length text) (match strchr (drop 7 text) 7 ch_quest, strchr (drop 7 text) 7 ch_slash with
    | Some c, None => Some c | Some c, Some u' => if (c <? u')%nat then Some c else strchr (drop 7 text) 7 ch_slash | None, _ => strchr (drop 7 text) 7 ch_slash end) = uri_at.
Proof.
  rewrite !strchr_auth by auto. rewrite text_length. destruct tail as [|c t]; [cbn; lia|]. cbn [strchr]. destruct Htail as [->| ->].
  - rewrite Z.eqb_refl. change (ch_slash =? ch_quest) with false. cbv iota. destruct (strchr t (S uri_at) ch_quest) as [k|] eqn:E; [|done].
    apply strchr_ge in E. by rewrite (proj2 (Nat.ltb_ge _ _)) by lia.
  - rewrite Z.eqb_refl. change (ch_quest =? ch_slash) with false. cbv iota. destruct (strchr t (S uri_at) ch_slash) as [k|] eqn:E; [|done].
    apply strchr_ge in E. by rewrite (proj2 (Nat.ltb_lt _ _)) by lia.
Qed.

(** Where the host starts. *)
Lemma host_found : match strchr (drop 7 text) 7 ch_at with Some a => if (a <? uri_at)%nat then S a else 7%nat | None => 7%nat end = length before.
Proof.
  rewrite drop_text. unfold auth, uri_at, before. destruct user as [u|].
  - rewrite <- !app_assoc, strchr_no by (eapply no_sub; [exact Huser|]; intros c; set_solver). cbn [app strchr]. rewrite Z.eqb_refl, !length_app.
    cbn [length http_scheme]. rewrite (proj2 (Nat.ltb_lt _ _)) by lia. lia.
  - cbn [app]. rewrite strchr_no by exact Huser. rewrite !app_nil_r. cbn [length http_scheme]. rewrite length_app.
    destruct (strchr tail (7 + (length hs + length t2)) ch_at) as [k|] eqn:E; [|done]. apply strchr_ge in E.
    by rewrite (proj2 (Nat.ltb_ge _ _)) by lia.
Qed.

Lemma host_end : skip_host text (length text) (length before) uri_at = (length before + length hs)%nat.
Proof.
  unfold text. apply skip_host_ok; [done|rewrite !length_app; lia|unfold uri_at; lia|]. unfold uri_at. destruct t2 as [|c t].
  - left. cbn [length]. lia.
  - right. cbn [app]. rewrite Ht2. by eexists.
Qed.

Lemma byte_uri : byte text uri_at = match tail with c :: _ => c | [] => 0 end.
Proof.
  replace text with ((before ++ hs ++ t2) ++ tail) by (unfold text; by rewrite <- !app_assoc).
  replace uri_at with (length (before ++ hs ++ t2)) by (unfold uri_at; rewrite !length_app; lia).
  destruct tail as [|c t]; [|apply byte_app]. unfold byte. rewrite app_nil_r. apply nth_overflow. done.
Qed.

Lemma parse_host_found : hs <> [] ->
  parse_host text (length before) uri_at =
    match t2 with
    | [] => Some ((length before + length hs)%nat, None)
    | _ :: ds => if negb (bool_decide (ds = [])) && forallb isdigit ds
                 then Some ((length before + length hs)%nat, Some (S (length before + length hs), uri_at)) else None
    end.
Proof.
  intros Hne. pose proof byte_uri as Hb. unfold parse_host. rewrite host_end. assert (length hs <> 0)%nat as Hlen by (by destruct hs). rewrite (proj2 (Nat.eqb_neq _ _)) by lia.
  destruct t2 as [|c x] eqn:E2.
  - replace (length before + length hs)%nat with uri_at by (unfold uri_at; cbn [length]; lia). rewrite Hb.
    destruct tail as [|c t]; [done|]. by destruct Htail as [->| ->].
  - assert (text = (before ++ hs) ++ ch_colon :: x ++ tail) as Et by (unfold text; rewrite Ht2, <- !app_assoc; done).
    rewrite Et at 1. rewrite <- length_app, byte_app, Z.eqb_refl.
    assert (text = (before ++ hs ++ [ch_colon]) ++ x ++ tail) as Et2 by (rewrite Et, <- !app_assoc; done).
    assert (S (length (before ++ hs)) = length (before ++ hs ++ [ch_colon])) as El by (rewrite !length_app; cbn [length]; lia).
    assert (uri_at = (length (before ++ hs ++ [ch_colon]) + length x)%nat) as Eu by (unfold uri_at; rewrite !length_app; cbn [length]; lia).
    rewrite El. destruct (forallb isdigit x) eqn:Ed.
    + rewrite Et2, skip_digits_ok; [| |rewrite !length_app; lia|lia|by left].
      2: { apply Forall_forall. intros d Hd. rewrite forallb_forall in Ed. apply Ed. by apply list_elem_of_In. }
      rewrite <- Eu, Nat.eqb_refl. cbn [negb]. rewrite orb_false_r, andb_true_r. destruct x as [|d x].
      * rewrite (proj2 (Nat.eqb_eq _ _)) by (rewrite Eu; cbn [length]; lia). done.
      * rewrite (proj2 (Nat.eqb_neq _ _)) by (rewrite Eu; cbn [length]; lia). done.
    + rewrite andb_false_r. assert (exists ds c' r, x = ds ++ c' :: r /\ Forall (fun c => isdigit c = true) ds /\ isdigit c' = false) as (ds & c' & r & -> & Hds & Hc').
      { clear -Ed. induction x as [|d x IH]; [done|]. cbn [forallb] in Ed. destruct (isdigit d) eqn:Hd.
        - destruct (IH Ed) as (ds & c' & r & -> & H1 & H2). exists (d :: ds), c', r. split; [done|]. split; [by constructor|done].
        - exists [], d, x. split; [done|]. by split. }
      rewrite <- (app_assoc ds) in Et2. rewrite Et2, (skip_digits_ok ds); [|done|rewrite !length_app; lia|rewrite Eu, (length_app ds); cbn [length]; lia|right; by eexists _, _].
      rewrite (proj2 (Nat.eqb_neq (length (before ++ hs ++ [ch_colon]) + length ds) uri_at)) by (rewrite Eu, (length_app ds); cbn [length]; lia).
      cbn [negb]. by rewrite orb_true_r.
Qed.

Lemma parse_text alloc : http_url_parse alloc text =
  match parse_host text (length before) uri_at with
  | None => Some None
  | Some (_, po) => Some (if alloc then Some (HttpUrl hs (match tail with c :: _ => if c =? ch_slash then tail else ch_slash :: tail | [] => [ch_slash] end)
      (match po with Some (a, b) => scan_hu (span text a b) | None => http_port end)) else None)
  end.
Proof.
  unfold http_url_parse. rewrite bool_decide_true by (rewrite text_auth; apply (take_app_length http_scheme)). cbn [negb].
  rewrite uri_found, host_found. destruct (parse_host text (length before) uri_at) as [[e po]|] eqn:E; [|done].
  assert (e = (length before + length hs)%nat) as ->.
  { unfold parse_host in E. rewrite host_end in E. destruct (_ =? _)%nat; [done|]. destruct (_ =? _); [|by injection E as <- _].
    destruct (_ || _); [done|]. by injection E as <- _. }
  destruct alloc; [|done]. cbn [negb]. rewrite byte_uri.
  assert (span text (length before) (length before + length hs) = hs) as -> by apply span_app.
  assert (span text uri_at (length text) = tail) as ->.
  { unfold span. rewrite text_length. replace (uri_at + length tail - uri_at)%nat with (length tail) by lia.
    replace text with ((before ++ hs ++ t2) ++ tail) by (unfold text; by rewrite <- !app_assoc).
    replace uri_at with (length (before ++ hs ++ t2)) by (unfold uri_at; rewrite !length_app; lia). by rewrite drop_app_length, take_ge. }
  rewrite text_length.
  assert (forall us : list Z, (length us <= S (length tail))%nat -> (length hs + 1 + length us + 1 <=? length before + length hs - length before + 1 + (uri_at + length tail - uri_at) + 2)%nat = true) as Hfit
    by (intros us Hus; apply Nat.leb_le; lia).
  destruct tail as [|c t]; cbn [length] in *; [by rewrite ensure_true by (by apply Hfit)|].
  destruct (c =? ch_slash); cbn [negb]; by rewrite ensure_true by (apply Hfit; cbn [length]; lia).
Qed.
End Parse.

(** ** The parser *)

Lemma parse_parts a alloc : parts_ok a -> http_url_parse alloc (text_of a) = Some (if alloc then Some (url_of a) else None).
Proof.
  destruct a as [user hs pt tail]. intros [Hu [Hne Hno] Hp Ht]. cbn [p_user p_host p_port p_tail] in *.
  set (t2 := match pt with Some ds => ch_colon :: ds | None => [] end).
  assert (text_of (Parts user hs pt tail) = (http_scheme ++ match user with Some u => u ++ [ch_at] | None => [] end) ++ hs ++ t2 ++ tail) as ->
    by (unfold text_of, t2; by rewrite <- !app_assoc).
  assert (no [ch_at; ch_slash; ch_quest] t2) as Ht2.
  { unfold t2. destruct pt as [ds|]; [|constructor]. constructor; [unfold ch_colon, ch_at, ch_slash, ch_quest; set_solver by lia|].
    destruct Hp as [_ Hd]. eapply Forall_impl; [exact Hd|]. intros c Hc%isdigit_range. unfold ch_at, ch_slash, ch_quest. set_solver by lia. }
  assert (match user with Some u => no [ch_at; ch_slash; ch_quest] u | None => no [ch_at] (hs ++ t2) end) as H1.
  { destruct user as [u|]; [done|]. apply Forall_app. split; [done|]. eapply no_sub; [exact Ht2|]. set_solver. }
  assert (no [ch_slash; ch_quest] (hs ++ t2)) as H2.
  { apply Forall_app. split; [eapply no_sub; [exact Hno|]; set_solver|]. eapply no_sub; [exact Ht2|]. set_solver. }
  assert (no [ch_colon] hs) as H3 by (eapply no_sub; [exact Hno|]; set_solver).
  assert (match t2 with [] => True | c :: _ => c = ch_colon end) as H4 by (unfold t2; by destruct pt).
  rewrite (parse_text user hs t2 tail), (parse_host_found user hs t2 tail) by done. unfold t2 at 1, url_of. cbn [p_host p_tail p_port].
  destruct pt as [ds|]; [|done]. destruct Hp as [Hd1 Hd2]. rewrite bool_decide_false by done. cbn [negb andb].
  assert (forallb isdigit ds = true) as -> by (apply forallb_forall; intros c Hc; rewrite Forall_forall in Hd2; apply Hd2; by apply list_elem_of_In).
  subst t2. by rewrite span_port.
Qed.

(** A text after the scheme, taken apart. *)
Lemma url_split url : take 7 url = http_scheme ->
  exists user hs t2 tail, url = (http_scheme ++ match user with Some u => u ++ [ch_at] | None => [] end) ++ hs ++ t2 ++ tail /\
    match user with Some u => no [ch_at; ch_slash; ch_quest] u | None => no [ch_at] (hs ++ t2) end /\ no [ch_slash; ch_quest] (hs ++ t2) /\
    no [ch_colon] hs /\ match t2 with [] => True | c :: _ => c = ch_colon end /\ match tail with [] => True | c :: _ => c = ch_slash \/ c = ch_quest end.
Proof.
  intros Hs. rewrite <- (take_drop 7 url), Hs. destruct (split_no [ch_slash; ch_quest] (drop 7 url)) as (auth & tail & -> & Ha & Htl).
  assert (match tail with [] => True | c :: _ => c = ch_slash \/ c = ch_quest end) as Htl' by (destruct tail; [done|set_solver]).
  destruct (split_no [ch_at] auth) as (u & r & -> & Hu & Hr). apply Forall_app in Ha as [Ha1 Ha2]. destruct r as [|c r].
  - destruct (split_no [ch_colon] u) as (hs & t2 & -> & Hh & Ht). exists None, hs, t2, tail. rewrite !app_nil_r, <- !app_assoc. split_and!; try done.
    destruct t2; [done|set_solver].
  - apply list_elem_of_singleton in Hr as ->. apply Forall_cons in Ha2 as [_ Ha2]. destruct (split_no [ch_colon] r) as (hs & t2 & -> & Hh & Ht).
    exists (Some u), hs, t2, tail. rewrite <- !app_assoc. split_and!; try done; [by rewrite <- app_comm_cons, <- app_assoc| |destruct t2; [done|set_solver]].
    apply Forall_forall. intros c Hc. unfold no in *. rewrite Forall_forall in Hu, Ha1. specialize (Hu c Hc). specialize (Ha1 c Hc). set_solver.
Qed.

(** The parser of addresses accepts exactly those of the form
    [http://user@host:port/rest], with user, port and rest as may be, and gives their
    parts; it writes nowhere but into what it allocates. *)
Theorem http_url_parse_correct alloc url :
  (exists a, parts_ok a /\ url = text_of a /\ http_url_parse alloc url = Some (if alloc then Some (url_of a) else None)) \/
  (~ (exists a, parts_ok a /\ url = text_of a) /\ http_url_parse alloc url = Some None).
Proof.
  assert (http_url_parse true url = Some None -> ~ (exists a, parts_ok a /\ url = text_of a)) as Hnot.
  { intros E (a & Ha & ->). by rewrite (parse_parts a true Ha) in E. }
  destruct (decide (take 7 url = http_scheme)) as [Hs|Hs].
  2: { right. assert (forall al, http_url_parse al url = Some None) as E by (intros al; unfold http_url_parse; by rewrite bool_decide_false). split; [by apply Hnot|done]. }
  destruct (url_split url Hs) as (user & hs & t2 & tail & -> & H1 & H2 & H3 & H4 & H5).
  destruct (decide (hs = [])) as [->|Hne].
  { right. assert (forall al, http_url_parse al ((http_scheme ++ match user with Some u => u ++ [ch_at] | None => [] end) ++ [] ++ t2 ++ tail) = Some None) as E.
    { intros al. rewrite parse_text by done. unfold parse_host. rewrite host_end by done. cbn [length]. by rewrite Nat.add_0_r, Nat.eqb_refl. }
    split; [by apply Hnot|done]. }
  pose proof (fun al => parse_text user hs t2 tail H1 H2 H3 H4 H5 al) as Hp. rewrite (parse_host_found user hs t2 tail) in Hp by done.
  destruct t2 as [|c ds].
  - left. exists (Parts user hs None tail). assert (parts_ok (Parts user hs None tail)) as Hok.
    { rewrite app_nil_r in *. split; cbn [p_user p_host p_port p_tail]; try done. split; [done|]. apply Forall_forall. intros c Hc.
      unfold no in *. rewrite Forall_forall in H2, H3. specialize (H2 c Hc). specialize (H3 c Hc). set_solver. }
    rewrite <- (parse_parts _ alloc Hok). unfold text_of. cbn [p_user p_host p_port p_tail]. rewrite <- !app_assoc. done.
  - subst c. destruct (negb (bool_decide (ds = [])) && forallb isdigit ds) eqn:E; [|right; split; [by apply Hnot|done]].
    apply andb_true_iff in E as [E1 E2]. apply negb_true_iff, bool_decide_eq_false in E1.
    left. exists (Parts user hs (Some ds) tail). assert (parts_ok (Parts user hs (Some ds) tail)) as Hok.
    { apply Forall_app in H2 as [H2 _]. split; cbn [p_user p_host p_port p_tail]; try done.
      - destruct user; [done|]. by apply Forall_app in H1 as [H1 _].
      - split; [done|]. apply Forall_forall. intros c Hc. unfold no in *. rewrite Forall_forall in H2, H3. specialize (H2 c Hc). specialize (H3 c Hc). set_solver.
      - split; [done|]. apply Forall_forall. intros c Hc. rewrite forallb_forall in E2. apply E2. by apply list_elem_of_In. }
    rewrite <- (parse_parts _ alloc Hok). unfold text_of. cbn [p_user p_host p_port p_tail]. rewrite <- !app_assoc. done.
Qed.

(** http://u@h:8080?x *)
Example parse_sample : http_url_parse true (http_scheme ++ [117; 64; 104; 58; 56; 48; 56; 48; 63; 120]) = Some (Some (HttpUrl [104] [47; 63; 120] 8080)).
Proof. vm_compute. reflexivity. Qed.

(** The port is cut to 16 bits: 65616 is read as 80. *)
Example port_wraps : http_url_parse true (http_scheme ++ [104; 58; 54; 53; 54; 49; 54]) = Some (Some (HttpUrl [104] [47] 80)).
Proof. vm_compute. reflexivity. Qed.
