(* ===== verification/Trackers.v ===== *)
(** The trackers of a torrent: [libbt/btpd/tracker_req.c].

    The pointer to the current tracker is its position in the queue, which only
    [tr_result] changes, by taking the current tracker to the front.  A timer is the
    second it is set for; requests are written down with the second, the address and the
    event; whether one is under way is a flag, as the rest of it is [http_tr_if.c].  The
    results of [rand_between] and of the allocation of a failure text are arguments.
    [None] is a failed assertion or [abort()]. *)
From S2P Require Import Prelude Benc Url.
Local Open Scope Z_scope.

Inductive tr_event := TR_EV_STARTED | TR_EV_STOPPED | TR_EV_COMPLETED | TR_EV_EMPTY.
#[export] Instance tr_event_dec : EqDecision tr_event.
Proof. solve_decision. Defined.

(** [TR_RES_FAIL] comes with the copy of the tracker's text, or without where the
    allocation failed. *)
Inductive tr_response := TR_RES_FAIL (failure : option (list Z)) | TR_RES_CONN | TR_RES_BAD | TR_RES_OK (interval : Z).

Record tr_entry := TrEntry { failure : option (list Z); url : list Z }.

Record tr_tier := TrTier {
  cur : option nat; trackers : list tr_entry; timer : option Z; req : bool; interval : Z; bad_conns : Z; active : bool; has_responded : bool; event : tr_event
}.

Record request := Request { sent_at : Z; to : list Z; what : tr_event }.

(** What the tiers share: the clock, [m_tlast_req] and [m_tnext_req]; and the requests sent
    so far, the last one first. *)
Record shared := Shared { btpd_seconds : Z; m_tlast_req : Z; m_tnext_req : Z; requests : list request }.

Definition REQ_DELAY : Z := 1.

(** ** Helpers *)

Definition failed (e : tr_entry) : bool := match failure e with Some _ => true | None => false end.

(** The first from a position on that has not failed. *)
Fixpoint nonfailed_from (i : nat) (l : list tr_entry) : option nat :=
  match l with
  | [] => None
  | e :: l => if failed e then nonfailed_from (S i) l else Some i
  end.
Definition first_nonfailed (t : tr_tier) : option nat := nonfailed_from 0 (trackers t).
Definition all_failed (t : tr_tier) : bool := forallb failed (trackers t).

Definition with_timer (t : tr_tier) (tm : option Z) : tr_tier :=
  TrTier (cur t) (trackers t) tm (req t) (interval t) (bad_conns t) (active t) (has_responded t) (event t).
Definition with_req (t : tr_tier) (r : bool) : tr_tier :=
  TrTier (cur t) (trackers t) (timer t) r (interval t) (bad_conns t) (active t) (has_responded t) (event t).
Definition with_active (t : tr_tier) (a : bool) : tr_tier :=
  TrTier (cur t) (trackers t) (timer t) (req t) (interval t) (bad_conns t) a (has_responded t) (event t).
Definition with_bad_conns (t : tr_tier) (n : Z) : tr_tier :=
  TrTier (cur t) (trackers t) (timer t) (req t) (interval t) n (active t) (has_responded t) (event t).
Definition with_event (t : tr_tier) (ev : tr_event) (i : Z) : tr_tier :=
  TrTier (cur t) (trackers t) (timer t) (req t) i (bad_conns t) (active t) (has_responded t) ev.
Definition with_trackers (t : tr_tier) (l : list tr_entry) : tr_tier :=
  TrTier (cur t) l (timer t) (req t) (interval t) (bad_conns t) (active t) (has_responded t) (event t).

Definition req_cancel (t : tr_tier) : tr_tier := with_req t false.

(** ** A tier *)

Definition entry_send (t : tr_tier) (e : nat) (ev : tr_event) (w : shared) : option (tr_tier * shared) :=
  let t := if req t then req_cancel t else t in
  let t := TrTier (Some e) (trackers t) (timer t) (req t) (interval t) (bad_conns t) (active t) (has_responded t) ev in
  if m_tlast_req w >? btpd_seconds w - REQ_DELAY then
    let next := Z.max (m_tnext_req w) (m_tlast_req w) + REQ_DELAY in
    Some (with_timer t (Some next), Shared (btpd_seconds w) (m_tlast_req w) next (requests w))
  else
    x ← trackers t !! e;
    Some (with_req (with_timer t None) true,
          Shared (btpd_seconds w) (btpd_seconds w) (m_tnext_req w) (Request (btpd_seconds w) (url x) ev :: requests w)).

Definition tier_timer_cb (t : tr_tier) (w : shared) : option (tr_tier * shared) :=
  _ ← ensure (active t && negb (all_failed t));
  e ← first_nonfailed t;
  entry_send t e (event t) w.

Definition tier_start (t : tr_tier) (w : shared) : option (tr_tier * shared) :=
  _ ← ensure (negb (active t) || bool_decide (event t = TR_EV_STOPPED));
  let l := map (fun e => TrEntry None (url e)) (trackers t) in
  let t := TrTier (cur t) l (timer t) (req t) (interval t) 0 true false (event t) in
  _ ← ensure (0 <? length l)%nat;
  entry_send t 0 TR_EV_STARTED w.

Definition tier_stop (t : tr_tier) (w : shared) : option (tr_tier * shared) :=
  if negb (active t) || bool_decide (event t = TR_EV_STOPPED) then Some (t, w)
  else if negb (has_responded t) && (bad_conns t >? 1) then
    let t := with_timer t None in
    let t := if req t then req_cancel t else t in
    Some (with_active t false, w)
  else e ← first_nonfailed t; entry_send t e TR_EV_STOPPED w.

Definition tier_complete (t : tr_tier) (w : shared) : option (tr_tier * shared) :=
  if active t && bool_decide (event t = TR_EV_EMPTY) then _ ← ensure (0 <? length (trackers t))%nat; entry_send t 0 TR_EV_COMPLETED w
  else Some (t, w).

(** A tracker goes to the queue when its address can be parsed. *)
Definition add_tracker (l : list tr_entry) (u : list Z) : option (list tr_entry) :=
  hu ← http_url_parse true u;
  Some (match hu with Some _ => l ++ [TrEntry None u] | None => l end).
Fixpoint add_trackers (l : list tr_entry) (urls : list (list Z)) : option (list tr_entry) :=
  match urls with
  | [] => Some l
  | u :: urls => l ← add_tracker l u; add_trackers l urls
  end.
Definition tier_create (urls : list (list Z)) : option (option tr_tier) :=
  l ← add_trackers [] urls;
  Some (match l with [] => None | _ => Some (TrTier None l None false (-1) 0 false false TR_EV_STOPPED) end).

(** ** The answer to a request *)

(** [retry1], [retry2] and [default_interval] are the values of the macros. *)
Record delays := Delays { retry1 : Z; retry2 : Z; default_interval : Z }.

Definition to_front {A} (c : nat) (x : A) (l : list A) : list A := x :: take c l ++ drop (S c) l.

Definition tr_fail (t : tr_tier) (f : option (list Z)) : option tr_tier :=
  c ← cur t;
  x ← trackers t !! c;
  let t := with_trackers t (<[c := TrEntry f (url x)]> (trackers t)) in
  Some (if all_failed t then with_active t false else t).

Definition tr_conn (d : delays) (t : tr_tier) (w : shared) : option (tr_tier * shared) :=
  c ← cur t;
  match nonfailed_from (S c) (drop (S c) (trackers t)) with
  | Some e => entry_send t e (event t) w
  | None =>
      let t := with_bad_conns t (bad_conns t + 1) in
      if bool_decide (event t = TR_EV_STOPPED) && (bad_conns t >? 1) then Some (with_active t false, w)
      else if bad_conns t =? 1 then entry_send t 0 (event t) w
      else if bad_conns t =? 2 then Some (with_timer t (Some (btpd_seconds w + retry1 d)), w)
      else Some (with_timer t (Some (btpd_seconds w + retry2 d)), w)
  end.

Definition tr_ok (d : delays) (t : tr_tier) (i : Z) (w : shared) : option tr_tier :=
  let t :=
    if bool_decide (event t = TR_EV_STOPPED) then with_active t false
    else
      let t := with_event t TR_EV_EMPTY (if i >? 0 then i else interval t) in
      with_timer t (Some (btpd_seconds w + (if interval t >? 0 then interval t else default_interval d))) in
  c ← cur t;
  x ← trackers t !! c;
  Some (TrTier (Some 0%nat) (to_front c x (trackers t)) (timer t) (req t) (interval t) 0 (active t) true (event t)).

Definition tr_result (d : delays) (t : tr_tier) (res : tr_response) (w : shared) : option (tr_tier * shared) :=
  let t := with_req t false in
  match res with
  | TR_RES_FAIL f => t ← tr_fail t f; Some (t, w)
  | TR_RES_CONN => tr_conn d t w
  | TR_RES_BAD => Some (t, w)
  | TR_RES_OK i => t ← tr_ok d t i w; Some (t, w)
  end.

(** ** The trackers of a torrent *)

Fixpoint tiers_each (f : tr_tier -> shared -> option (tr_tier * shared)) (ts : list tr_tier) (w : shared) : option (list tr_tier * shared) :=
  match ts with
  | [] => Some ([], w)
  | t :: ts => '(t, w) ← f t w; '(ts, w) ← tiers_each f ts w; Some (t :: ts, w)
  end.

(** [ann] is the result of [mi_announce]. *)
Fixpoint tr_create (ann : list (list (list Z))) : option (list tr_tier) :=
  match ann with
  | [] => Some []
  | urls :: ann =>
      t ← tier_create urls;
      ts ← tr_create ann;
      Some (match t with Some t => t :: ts | None => ts end)
  end.
Definition tr_start : list tr_tier -> shared -> option (list tr_tier * shared) := tiers_each tier_start.
Definition tr_stop : list tr_tier -> shared -> option (list tr_tier * shared) := tiers_each tier_stop.
Definition tr_complete : list tr_tier -> shared -> option (list tr_tier * shared) := tiers_each tier_complete.
Definition tr_active (ts : list tr_tier) : bool := existsb active ts.
Definition tr_good_count (ts : list tr_tier) : nat := length (filter (fun t => active t && (bad_conns t =? 0)) ts).

(** ** The daemon's tiers *)

(** All tiers of all torrents, and what can happen to them: a torrent's tier comes and
    goes, is started, stopped and completed; its timer goes off or its request is
    answered; the clock goes on. *)
Record daemon := Daemon { tiers : list tr_tier; world : shared }.

Inductive happening :=
  | Create (urls : list (list Z))
  | Kill (i : nat)
  | Start (i : nat)
  | Stop (i : nat)
  | Complete (i : nat)
  | TimerGoes (i : nat)
  | Answer (i : nat) (d : delays) (res : tr_response)
  | Tick.

Definition at_tier (f : tr_tier -> shared -> option (tr_tier * shared)) (i : nat) (s : daemon) : option daemon :=
  t ← tiers s !! i; '(t, w) ← f t (world s); Some (Daemon (<[i := t]> (tiers s)) w).

(** What the callers see to: a tier is started when it is not active, its timer goes off
    when it is set, and answers are to requests. *)
Definition can (h : happening) (s : daemon) : bool :=
  match h with
  | Create _ | Tick => true
  | Kill i | Stop i | Complete i => (i <? length (tiers s))%nat
  | Start i => match tiers s !! i with Some t => negb (active t) || bool_decide (event t = TR_EV_STOPPED) | None => false end
  | TimerGoes i => match tiers s !! i with Some t => bool_decide (is_Some (timer t)) | None => false end
  | Answer i _ _ => match tiers s !! i with Some t => req t | None => false end
  end.

Definition happen (h : happening) (s : daemon) : option daemon :=
  match h with
  | Create urls => t ← tier_create urls; Some (match t with Some t => Daemon (tiers s ++ [t]) (world s) | None => s end)
  | Kill i => Some (Daemon (delete i (tiers s)) (world s))
  | Start i => at_tier tier_start i s
  | Stop i => at_tier tier_stop i s
  | Complete i => at_tier tier_complete i s
  | TimerGoes i => at_tier tier_timer_cb i s
  | Answer i d res => at_tier (fun t => tr_result d t res) i s
  | Tick => let w := world s in Some (Daemon (tiers s) (Shared (btpd_seconds w + 1) (m_tlast_req w) (m_tnext_req w) (requests w)))
  end.

(** What cannot happen is left out. *)
Fixpoint course (hs : list happening) (s : daemon) : option daemon :=
  match hs with
  | [] => Some s
  | h :: hs => if can h s then s ← happen h s; course hs s else course hs s
  end.

Definition boot : daemon := Daemon [] (Shared 0 0 0 []).

(** ** The invariant of a tier *)

Record tier_ok (t : tr_tier) : Prop := TierOk {
  ok_some : trackers t <> [];
  ok_cur : match cur t with Some c => (c < length (trackers t))%nat | None => active t = false end;
  ok_req : req t = true -> active t = true /\ timer t = None;
  ok_timer : is_Some (timer t) -> active t = true;
  ok_active : active t = true -> all_failed t = false
}.

(** A tier that is active does something. *)
Definition busy (t : tr_tier) : Prop := active t = true -> req t = true \/ is_Some (timer t).

(** The clock, and at most one request a second. *)
Definition spaced (w : shared) : Prop :=
  0 <= m_tlast_req w <= btpd_seconds w /\ match requests w with [] => True | r :: _ => sent_at r = m_tlast_req w end /\
  StronglySorted (fun r r' => sent_at r > sent_at r') (requests w).

Lemma nonfailed_from_lt l i e : nonfailed_from i l = Some e -> (i <= e < i + length l)%nat.
Proof.
  revert i. induction l as [|x l IH]; intros i H; [done|]. cbn [nonfailed_from] in H. destruct (failed x); [apply IH in H; cbn [length]; lia|].
  injection H as <-. cbn [length]. lia.
Qed.

Lemma nonfailed_some l i : forallb failed l = false -> exists e, nonfailed_from i l = Some e.
Proof.
  revert i. induction l as [|x l IH]; intros i H; [done|]. cbn [forallb nonfailed_from] in *. destruct (failed x); [by apply IH|by eexists].
Qed.

(** What sending needs and what it leaves. *)
Record sendable (t : tr_tier) (e : nat) : Prop := Sendable {
  sd_cur : (e < length (trackers t))%nat; sd_active : active t = true; sd_failed : all_failed t = false
}.

Lemma entry_send_ok t e ev w : sendable t e -> spaced w -> exists t' w', entry_send t e ev w = Some (t', w') /\ tier_ok t' /\ busy t' /\ spaced w' /\
  cur t' = Some e /\ trackers t' = trackers t /\ bad_conns t' = bad_conns t /\ event t' = ev /\ active t' = true /\ has_responded t' = has_responded t /\
  btpd_seconds w' = btpd_seconds w.
Proof.
  intros [Hc Ha Hf] (Hw1 & Hw2 & Hw3). unfold entry_send.
  set (t1 := if req t then req_cancel t else t). assert (trackers t1 = trackers t /\ bad_conns t1 = bad_conns t /\ active t1 = true /\ req t1 = false /\ has_responded t1 = has_responded t) as (-> & -> & -> & Er & ->)
    by (unfold t1; destruct (req t) eqn:E; done). destruct (_ >? _) eqn:Eg.
  - eexists _, _. split; [reflexivity|]. split_and!; try done; cbn; [|intros _; right; by eexists].
    split; cbn; try done; [intros E; rewrite E in Hc; cbn in Hc; lia|by rewrite Er].
  - destruct (lookup_lt_is_Some_2 (trackers t) e Hc) as [x Hx]. cbn [trackers]. rewrite Hx. cbn [mbind option_bind].
    eexists _, _. split; [reflexivity|]. split_and!; try done; cbn.
    + split; cbn; try done. intros E. rewrite E in Hc. cbn in Hc. lia.
    + intros _. by left.
    + rewrite Z.gtb_ltb, Z.ltb_ge in Eg. unfold REQ_DELAY in Eg. split; cbn; [lia|]. split; [done|]. constructor; [done|].
      destruct (requests w) as [|r rs]; [constructor|]. apply StronglySorted_inv in Hw3 as [_ Hw3]. constructor; [cbn; lia|].
      eapply Forall_impl; [exact Hw3|]. cbn. intros r' Hr'. lia.
Qed.

(** ** Every operation keeps the invariant *)

(** Where an operation of a tier comes to; [q] tells more about the tier. *)
Definition goes (q : tr_tier -> Prop) (r : option (tr_tier * shared)) : Prop :=
  exists t w, r = Some (t, w) /\ tier_ok t /\ spaced w /\ q t.

Lemma goes_mono (q q' : tr_tier -> Prop) r : goes q r -> (forall t, q t -> q' t) -> goes q' r.
Proof. intros (t & w & -> & Ht & Hw & Hq) H. exists t, w. split; [done|]. split; [done|]. split; [done|by apply H]. Qed.

Lemma goes_send t e ev w : sendable t e -> spaced w -> goes busy (entry_send t e ev w).
Proof. intros H1 H2. destruct (entry_send_ok t e ev w H1 H2) as (t' & w' & E & Ht & Hb & Hw & _). by exists t', w'. Qed.

Lemma first_ok t : all_failed t = false -> exists e, first_nonfailed t = Some e /\ (e < length (trackers t))%nat.
Proof. intros H. destruct (nonfailed_some _ 0 H) as [e E]. exists e. split; [exact E|]. apply nonfailed_from_lt in E. lia. Qed.

Lemma tier_nonempty t : tier_ok t -> (0 < length (trackers t))%nat.
Proof. intros H. pose proof (ok_some t H). destruct (trackers t); [done|cbn; lia]. Qed.

Lemma timer_ok t w : tier_ok t -> is_Some (timer t) -> spaced w -> goes busy (tier_timer_cb t w).
Proof.
  intros Ht Hm Hw. pose proof (ok_timer t Ht Hm) as Ha. pose proof (ok_active t Ht Ha) as Hf. unfold tier_timer_cb. rewrite Ha, Hf. cbn [negb andb].
  rewrite ensure_true by done. destruct (first_ok t Hf) as (e & -> & He). cbn [mbind option_bind]. by apply goes_send.
Qed.

Lemma start_ok t w : tier_ok t -> active t = false \/ event t = TR_EV_STOPPED -> spaced w -> goes busy (tier_start t w).
Proof.
  intros Ht Hs Hw. pose proof (tier_nonempty t Ht) as Hn. unfold tier_start.
  assert (negb (active t) || bool_decide (event t = TR_EV_STOPPED) = true) as Ha by (destruct Hs as [->|Hs]; [done|by rewrite bool_decide_true, orb_true_r by done]).
  rewrite (ensure_true _ Ha).
  cbn [mbind option_bind]. rewrite ensure_true by (rewrite length_map; by apply Nat.ltb_lt). cbn [mbind option_bind]. apply goes_send; [|done].
  split; cbn [trackers active]; [by rewrite length_map|done|]. unfold all_failed. cbn [trackers]. destruct (trackers t); [cbn in Hn; lia|done].
Qed.

Lemma stop_ok t w : tier_ok t -> spaced w -> goes (fun t' => busy t -> busy t') (tier_stop t w).
Proof.
  intros Ht Hw. unfold tier_stop. destruct (active t) eqn:Ha; [|by exists t, w]. cbn [negb orb]. case_bool_decide; [by exists t, w|].
  destruct (negb (has_responded t) && (bad_conns t >? 1)).
  - eexists _, w. split; [reflexivity|]. split_and!; [|done|by intros _ [=]; destruct (req _)]. pose proof (ok_cur t Ht) as Hc. pose proof (ok_some t Ht) as Hn.
    unfold req_cancel, with_timer, with_active, with_req. cbn [req]. destruct (req t) eqn:Er; split; cbn; try done;
      try (by destruct (cur t)); try (by intros [? [=]]); try congruence.
  - pose proof (ok_active t Ht Ha) as Hf. destruct (first_ok t Hf) as (e & -> & He). cbn [mbind option_bind]. eapply goes_mono; [by apply goes_send|]. done.
Qed.

Lemma complete_ok t w : tier_ok t -> spaced w -> goes (fun t' => busy t -> busy t') (tier_complete t w).
Proof.
  intros Ht Hw. unfold tier_complete. destruct (active t) eqn:Ha; [|by exists t, w]. cbn [andb]. case_bool_decide; [|by exists t, w].
  pose proof (tier_nonempty t Ht) as Hn. rewrite ensure_true by (by apply Nat.ltb_lt). cbn [mbind option_bind]. pose proof (ok_active t Ht Ha).
  eapply goes_mono; [by apply goes_send|]. done.
Qed.

Lemma fail_ok t f w : tier_ok t -> req t = true -> spaced w -> goes (fun _ => True) (t ← tr_fail (with_req t false) f; Some (t, w)).
Proof.
  intros Ht Er Hw. destruct (ok_req t Ht Er) as [Ha Hm]. pose proof (ok_cur t Ht) as Hc. unfold tr_fail. cbn [cur with_req].
  destruct (cur t) as [c|] eqn:Ec; [|congruence]. cbn [mbind option_bind trackers with_req]. destruct (lookup_lt_is_Some_2 (trackers t) c Hc) as [x ->]. cbn [mbind option_bind].
  set (t1 := with_trackers _ _). pose proof (ok_some t Ht) as Hn.
  assert (<[c:=TrEntry f (url x)]> (trackers t) <> []) as Hn' by (intros E; apply (f_equal length) in E; rewrite length_insert in E; cbn in E; lia).
  destruct (all_failed t1) eqn:Ef; eexists _, w; (split; [reflexivity|]); (split_and!; [|done|done]); split; cbn; try done;
    first [by rewrite Ec, length_insert|by intros _|rewrite Hm; by intros [? [=]]|congruence].
Qed.

Lemma conn_ok d t w : tier_ok t -> req t = true -> spaced w -> goes busy (tr_conn d (with_req t false) w).
Proof.
  intros Ht Er Hw. destruct (ok_req t Ht Er) as [Ha Hm]. pose proof (ok_cur t Ht) as Hc. pose proof (ok_active t Ht Ha) as Hf. pose proof (tier_nonempty t Ht) as Hn. pose proof (ok_some t Ht) as Hne.
  unfold tr_conn. cbn [cur with_req trackers]. destruct (cur t) as [c|] eqn:Ec; [|congruence]. cbn [mbind option_bind].
  destruct (nonfailed_from (S c) _) as [e|] eqn:Ee.
  - apply nonfailed_from_lt in Ee. rewrite length_drop in Ee. apply goes_send; [|done]. split; cbn; [lia|done|done].
  - assert (forall b tm, tier_ok (TrTier (Some c) (trackers t) tm false (interval t) b true (has_responded t) (event t))) as Hok
      by (intros b tm; split; cbn; done).
    cbn [event with_bad_conns bad_conns with_req]. rewrite <- Ec, <- Ha in Hok. destruct (_ && _).
    + eexists _, w. split; [reflexivity|]. split_and!; [|done|by intros [=]]. split; cbn; try done; [by rewrite Ec|rewrite Hm; by intros [? [=]]].
    + destruct (_ =? 1); [apply goes_send; [by split|done]|].
      destruct (_ =? 2); eexists _, w; (split; [reflexivity|]); (split_and!; [apply Hok|done|intros _; right; by eexists]).
Qed.

Lemma to_front_perm {A} c (x : A) l : l !! c = Some x -> to_front c x l ≡ₚ l.
Proof. intros H. unfold to_front. rewrite <- (take_drop_middle l c x H) at 3. by rewrite Permutation_middle. Qed.

Lemma all_failed_perm l l' : l ≡ₚ l' -> forallb failed l = forallb failed l'.
Proof. induction 1; cbn [forallb]; [done|congruence|by rewrite !andb_assoc, (andb_comm (failed _) (failed _))|congruence]. Qed.

Lemma ok_ok d t i w : tier_ok t -> req t = true -> spaced w -> goes busy (t ← tr_ok d (with_req t false) i w; Some (t, w)).
Proof.
  intros Ht Er Hw. destruct (ok_req t Ht Er) as [Ha Hm]. pose proof (ok_cur t Ht) as Hc. pose proof (ok_active t Ht Ha) as Hf. pose proof (tier_nonempty t Ht) as Hn.
  unfold tr_ok. cbn [event with_req]. set (t1 := if bool_decide _ then _ else _).
  assert (cur t1 = cur t /\ trackers t1 = trackers t /\ req t1 = false) as (E1 & E2 & E3) by (unfold t1; by case_bool_decide).
  assert ((active t1 = false /\ timer t1 = None) \/ (active t1 = true /\ is_Some (timer t1))) as Hcase
    by (unfold t1; case_bool_decide; [left; done|right; split; [done|by eexists]]).
  rewrite E1. destruct (cur t) as [c|]; [|congruence]. cbn [mbind option_bind]. rewrite E2. destruct (lookup_lt_is_Some_2 (trackers t) c Hc) as [x Hx]. rewrite Hx. cbn [mbind option_bind].
  pose proof (to_front_perm c x _ Hx) as Hp. eexists _, w. split; [reflexivity|]. split_and!; [|done|].
  - split; cbn [trackers cur req timer active]; [done|rewrite (Permutation_length Hp); lia|congruence| |].
    + destruct Hcase as [[-> ->]|[-> _]]; [by intros [? [=]]|done].
    + intros _. unfold all_failed. cbn [trackers]. by rewrite (all_failed_perm _ _ Hp).
  - intros Ha'. cbn [active req timer] in *. right. destruct Hcase as [[E _]|[_ H]]; [congruence|done].
Qed.

(** What a failure is to a tier. *)
Definition fails (res : tr_response) : bool := match res with TR_RES_FAIL _ | TR_RES_BAD => true | _ => false end.

Lemma result_ok d t res w : tier_ok t -> req t = true -> spaced w -> goes (fun t' => fails res = false -> busy t') (tr_result d t res w).
Proof.
  intros Ht Er Hw. unfold tr_result. destruct res as [f| | |i].
  - eapply goes_mono; [by apply fail_ok|]. done.
  - eapply goes_mono; [by apply conn_ok|]. done.
  - destruct (ok_req t Ht Er) as [Ha Hm]. exists (with_req t false), w. split; [done|]. split; [|split; [done|done]]. destruct Ht. by split.
  - eapply goes_mono; [by apply ok_ok|]. done.
Qed.

(** ** The invariant of the daemon *)

(** [b]: no answer has failed so far. *)
Definition good (b : bool) (t : tr_tier) : Prop := tier_ok t /\ (b = true -> busy t).
Definition daemon_ok (b : bool) (s : daemon) : Prop := Forall (good b) (tiers s) /\ spaced (world s).

Definition harmless (h : happening) : bool := match h with Answer _ _ res => negb (fails res) | _ => true end.

Lemma at_tier_ok (b : bool) (q : tr_tier -> Prop) f i s : daemon_ok b s ->
  match tiers s !! i with Some t => q t | None => False end ->
  (forall t w, good b t -> q t -> spaced w -> goes (fun t' => b = true -> busy t') (f t w)) ->
  exists s', at_tier f i s = Some s' /\ daemon_ok b s'.
Proof.
  intros [Hs Hw] Hq Hf. unfold at_tier. destruct (tiers s !! i) as [t|] eqn:Et; [|done]. cbn [mbind option_bind].
  destruct (Hf t (world s) (Forall_lookup_1 _ _ _ _ Hs Et) Hq Hw) as (t' & w' & -> & Ht & Hw' & Hb). cbn [mbind option_bind].
  eexists. split; [reflexivity|]. split; [|done]. by apply Forall_insert.
Qed.

Lemma good_weaken b t : good true t -> good b t.
Proof. intros [H1 H2]. split; [done|]. intros _. by apply H2. Qed.

Lemma tier_create_ok urls : exists r, tier_create urls = Some r /\ match r with Some t => good true t /\ active t = false | None => True end.
Proof.
  unfold tier_create. assert (forall l, exists l', add_trackers l urls = Some l' /\ length l <= length l')%nat as H.
  { induction urls as [|u urls IH]; intros l; [by exists l|]. cbn [add_trackers]. unfold add_tracker.
    destruct (http_url_parse_correct true u) as [(a & _ & _ & ->)|[_ ->]]; cbn [mbind option_bind]; [|apply IH].
    destruct (IH (l ++ [TrEntry None u])) as (l' & E & Hl). exists l'. split; [exact E|]. rewrite length_app in Hl. lia. }
  destruct (H []) as (l & -> & _). cbn [mbind option_bind]. eexists. split; [reflexivity|]. destruct l as [|e l]; [done|].
  split; [|done]. split; [|by intros _ [=]]. split; cbn; done.
Qed.

Lemma happen_ok b h s : daemon_ok b s -> can h s = true -> exists s', happen h s = Some s' /\ daemon_ok (b && harmless h) s'.
Proof.
  intros Hok Hc. assert (harmless h = true -> (exists s', happen h s = Some s' /\ daemon_ok b s') -> exists s', happen h s = Some s' /\ daemon_ok (b && harmless h) s') as Hh
    by (intros ->; by rewrite andb_true_r). destruct h as [urls|i|i|i|i|i|i d res|]; try (apply Hh; [done|]); clear Hh; cbn [happen can harmless] in *.
  - destruct (tier_create_ok urls) as (r & -> & Hr). cbn [mbind option_bind]. destruct Hok as [Hs Hw]. eexists. split; [reflexivity|].
    destruct r as [t|]; [|by split]. split; [|done]. apply Forall_app. split; [done|]. constructor; [by apply good_weaken, Hr|done].
  - destruct Hok as [Hs Hw]. eexists. split; [reflexivity|]. split; [|done]. by apply Forall_delete.
  - apply (at_tier_ok b (fun t => active t = false \/ event t = TR_EV_STOPPED)); [done| |].
    + destruct (tiers s !! i) as [t|]; [|done]. apply orb_true_iff in Hc as [Hc|Hc]; [left; by apply negb_true_iff|right; by apply bool_decide_eq_true in Hc].
    + intros t w [Ht _] Hq Hw. eapply goes_mono; [by apply start_ok|]. done.
  - apply (at_tier_ok b (fun _ => True)); [done|by apply Nat.ltb_lt, lookup_lt_is_Some in Hc as [? ->]|].
    intros t w [Ht Hb] _ Hw. eapply goes_mono; [by apply stop_ok|]. auto.
  - apply (at_tier_ok b (fun _ => True)); [done|by apply Nat.ltb_lt, lookup_lt_is_Some in Hc as [? ->]|].
    intros t w [Ht Hb] _ Hw. eapply goes_mono; [by apply complete_ok|]. auto.
  - apply (at_tier_ok b (fun t => is_Some (timer t))); [done| |].
    + destruct (tiers s !! i) as [t|]; [|done]. by apply bool_decide_eq_true in Hc.
    + intros t w [Ht _] Hq Hw. eapply goes_mono; [by apply timer_ok|]. done.
  - destruct Hok as [Hs Hw]. apply (at_tier_ok (b && negb (fails res)) (fun t => req t = true)).
    + split; [|done]. eapply Forall_impl; [exact Hs|]. intros t [H1 H2]. split; [done|]. intros E. apply H2. by destruct b.
    + by destruct (tiers s !! i).
    + intros t w [Ht _] Hq Hw'. eapply goes_mono; [by apply result_ok|]. cbn. intros t' Hb E. apply Hb. destruct b, (fails res); done.
  - destruct Hok as [Hs (H1 & H2 & H3)]. eexists. split; [reflexivity|]. split; [done|]. split; [cbn; lia|done].
Qed.

Lemma course_ok hs b s : daemon_ok b s -> exists s', course hs s = Some s' /\ daemon_ok (b && forallb harmless hs) s'.
Proof.
  revert b s. induction hs as [|h hs IH]; intros b s Hs; [exists s; by rewrite andb_true_r|]. cbn [course forallb]. destruct (can h s) eqn:Hc.
  - destruct (happen_ok b h s Hs Hc) as (s1 & -> & H1). cbn [mbind option_bind]. destruct (IH _ _ H1) as (s2 & -> & H2). exists s2. by rewrite andb_assoc.
  - destruct (IH _ _ Hs) as (s2 & -> & [H2 H3]). exists s2. split; [done|]. split; [|done]. eapply Forall_impl; [exact H2|].
    intros t [Ht Hb]. split; [done|]. intros E. apply Hb. by destruct b, (harmless h), (forallb harmless hs).
Qed.

(** C14: Whatever the trackers answer and whatever is started, stopped and completed, no
    assertion of the tracker code fails: a tier waits for an answer only when it is
    active and has no timer set, and no two requests are sent in the same second.  As
    long as no answer is a failure or bad data, each active tier waits for an answer or
    for its timer. *)
Theorem trackers_safe hs : exists s, course hs boot = Some s /\ Forall tier_ok (tiers s) /\
  StronglySorted (fun r r' => sent_at r > sent_at r') (requests (world s)) /\
  (forallb harmless hs = true -> Forall busy (tiers s)).
Proof.
  destruct (course_ok hs true boot) as (s & E & Hs & (_ & _ & Hw)); [split; [constructor|by repeat constructor]|].
  exists s. split; [exact E|]. split_and!; [|done|].
  { eapply Forall_impl; [exact Hs|]. by intros t [H _]. }
  intros Hh. eapply Forall_impl; [exact Hs|]. intros t [_ Hb]. apply Hb. by rewrite Hh.
Qed.

(** ** Stopping *)

Definition at_time (s : Z) (w : shared) : shared := Shared s (m_tlast_req w) (m_tnext_req w) (requests w).

(** The requests are refused, at the given times, until the tier gives up. *)
Fixpoint refused (d : delays) (ss : list Z) (t : tr_tier) (w : shared) : option (tr_tier * shared) :=
  match ss with
  | [] => Some (t, w)
  | s :: ss => if active t then '(t, w) ← tr_result d t TR_RES_CONN (at_time s w); refused d ss t w else Some (t, w)
  end.

Fixpoint increasing (lo : Z) (ss : list Z) : Prop := match ss with [] => True | s :: ss => lo < s /\ increasing s ss end.

Lemma entry_send_now t e ev w : m_tlast_req w < btpd_seconds w -> forall t' w', entry_send t e ev w = Some (t', w') ->
  req t' = true /\ m_tlast_req w' = btpd_seconds w.
Proof.
  intros Hlt t' w'. unfold entry_send. rewrite Z.gtb_ltb, (proj2 (Z.ltb_ge _ _)) by (unfold REQ_DELAY; lia).
  cbn [trackers]. destruct (_ !! e); [|done]. cbn [mbind option_bind]. by intros [= <- <-].
Qed.

(** How many refusals a stopping tier takes at most. *)
Definition patience (t : tr_tier) : nat :=
  let n := length (trackers t) in
  match cur t with Some c => if bad_conns t =? 0 then n + (n - c) else n - c | None => 0 end.

Lemma refuse_once d t s w : tier_ok t -> req t = true -> event t = TR_EV_STOPPED -> 0 <= bad_conns t -> spaced w -> m_tlast_req w < s ->
  exists t' w', tr_result d t TR_RES_CONN (at_time s w) = Some (t', w') /\
    (active t' = false \/
     (tier_ok t' /\ req t' = true /\ event t' = TR_EV_STOPPED /\ 0 <= bad_conns t' /\ spaced w' /\ m_tlast_req w' = s /\ (patience t' < patience t)%nat)).
Proof.
  intros Ht Er Ev Hb Hw Hs. destruct (ok_req t Ht Er) as [Ha Hm]. pose proof (ok_cur t Ht) as Hc. pose proof (ok_active t Ht Ha) as Hf. pose proof (tier_nonempty t Ht) as Hn.
  assert (spaced (at_time s w)) as Hw' by (destruct Hw as (H1 & H2 & H3); split; [cbn; lia|done]).
  assert (forall t1 e, sendable t1 e -> event t1 = TR_EV_STOPPED -> 0 <= bad_conns t1 ->
    ((if (bad_conns t1 =? 0)%Z then length (trackers t1) + (length (trackers t1) - e) else length (trackers t1) - e) < patience t)%nat ->
    exists t' w', entry_send t1 e TR_EV_STOPPED (at_time s w) = Some (t', w') /\ (active t' = false \/
     (tier_ok t' /\ req t' = true /\ event t' = TR_EV_STOPPED /\ 0 <= bad_conns t' /\ spaced w' /\ m_tlast_req w' = s /\ (patience t' < patience t)%nat))) as Hsend.
  { intros t1 e H1 H2 H3 H4. destruct (entry_send_ok t1 e TR_EV_STOPPED _ H1 Hw') as (t' & w' & E & Ht' & _ & Hw'' & Ecur & Etr & Eb & Eev & _ & _ & _).
    destruct (entry_send_now t1 e TR_EV_STOPPED (at_time s w) Hs t' w' E) as [Er' El]. exists t', w'. split; [exact E|]. right. split_and!; try done; [by rewrite Eb|].
    unfold patience at 1. by rewrite Ecur, Etr, Eb. }
  unfold tr_result, tr_conn. cbn [cur with_req trackers]. unfold patience in Hsend. destruct (cur t) as [c|] eqn:Ec; [|congruence]. cbn [mbind option_bind].
  destruct (nonfailed_from (S c) _) as [e|] eqn:Ee.
  - apply nonfailed_from_lt in Ee. rewrite length_drop in Ee. cbn [event with_req]. rewrite Ev. unfold patience. rewrite Ec. apply Hsend; [by split; [cbn; lia|..]|done|done|].
    cbn [bad_conns with_req trackers]. destruct (bad_conns t =? 0); lia.
  - cbn [event with_bad_conns bad_conns with_req]. rewrite Ev, bool_decide_true by done. cbn [andb]. destruct (Z.gtb_spec (bad_conns t + 1) 1) as [H|H].
    + eexists _, _. split; [reflexivity|]. by left.
    + assert (bad_conns t = 0) as E0 by lia. rewrite E0. cbn [Z.add Z.eqb Pos.eqb]. unfold patience. rewrite Ec. apply Hsend; [by split|done|done|].
      cbn [bad_conns with_bad_conns trackers with_req]. rewrite E0. change (0 + 1 =? 0) with false. cbn. lia.
Qed.

Lemma refused_ends d ss : forall t w, (active t = false \/ (tier_ok t /\ req t = true /\ event t = TR_EV_STOPPED /\ 0 <= bad_conns t /\ spaced w /\ (patience t <= length ss)%nat)) ->
  increasing (m_tlast_req w) ss -> exists t' w', refused d ss t w = Some (t', w') /\ active t' = false.
Proof.
  induction ss as [|s ss IH]; intros t w Hcase Hinc.
  - exists t, w. split; [done|]. destruct Hcase as [Ha|(Ht & Er & _ & _ & _ & Hp)]; [done|]. exfalso. destruct (ok_req t Ht Er) as [Ha _].
    pose proof (ok_cur t Ht) as Hc. unfold patience in Hp. destruct (cur t) as [c|]; [|congruence]. destruct (_ =? _); cbn [length] in Hp; lia.
  - cbn [refused]. destruct (active t) eqn:Ha; [|by exists t, w]. destruct Hcase as [|(Ht & Er & Ev & Hb & Hw & Hp)]; [done|]. cbn [increasing] in Hinc. destruct Hinc as [Hs Hinc].
    destruct (refuse_once d t s w Ht Er Ev Hb Hw Hs) as (t' & w' & E & Hcase'). rewrite E. cbn [mbind option_bind].
    destruct Hcase' as [Ha'|(Ht' & Er' & Ev' & Hb' & Hw' & El & Hp')].
    + destruct ss as [|s' ss]; [by exists t', w'|]. exists t', w'. cbn [refused]. by rewrite Ha'.
    + apply IH; [|by rewrite El]. right. cbn [length] in Hp. split_and!; try done. lia.
Qed.

(** C21: An active tier that is told to stop, and had not been told before, comes to an
    end even when no tracker can be reached: after at most two refusals for each of its
    trackers it is not active. Each refusal comes in a later second than every request
    before it, the stop too comes in a later second than the last request, and no request
    of another tier goes out in between. Where refusals come in the second of their
    request, the tier may ask its first tracker for ever ([failover_never]). *)
Theorem tracker_stop_ends d ss t w : tier_ok t -> spaced w -> event t <> TR_EV_STOPPED -> 0 <= bad_conns t ->
  m_tlast_req w < btpd_seconds w -> increasing (btpd_seconds w) ss -> (2 * length (trackers t) <= length ss)%nat ->
  exists t1 w1, tier_stop t w = Some (t1, w1) /\ exists t' w', refused d ss t1 w1 = Some (t', w') /\ active t' = false.
Proof.
  intros Ht Hw Hev Hb Hlt Hinc Hlen. unfold tier_stop.
  assert (forall t0 w0, active t0 = false -> exists t' w', refused d ss t0 w0 = Some (t', w') /\ active t' = false) as Hin
    by (intros t0 w0 Ha; exists t0, w0; destruct ss; cbn [refused]; [done|by rewrite Ha]).
  destruct (active t) eqn:Ha; [|exists t, w; split; [done|by apply Hin]]. cbn [negb orb]. rewrite bool_decide_false by done.
  destruct (negb (has_responded t) && (bad_conns t >? 1)); [eexists _, w; split; [reflexivity|by apply Hin]|].
  pose proof (ok_active t Ht Ha) as Hf. destruct (first_ok t Hf) as (e & -> & He). cbn [mbind option_bind].
  destruct (entry_send_ok t e TR_EV_STOPPED w ltac:(done) Hw) as (t1 & w1 & E & Ht1 & _ & Hw1 & Ecur & Etr & Eb & Eev & _).
  destruct (entry_send_now t e TR_EV_STOPPED w Hlt t1 w1 E) as [Er El]. rewrite E. exists t1, w1. split; [done|].
  apply refused_ends; [|by rewrite El]. right. split_and!; try done; [by rewrite Eb|]. unfold patience. rewrite Ecur, Etr. destruct (_ =? _); lia.
Qed.

(** ** What goes wrong *)

(** After bad data in answer to its last request a tier stays active for good: it waits for
    nothing, and being stopped or completed does not change it. *)
Theorem bad_answer_stalls d t w : tier_ok t -> req t = true -> event t = TR_EV_STOPPED ->
  exists t', tr_result d t TR_RES_BAD w = Some (t', w) /\ active t' = true /\ req t' = false /\ timer t' = None /\
    forall w', tier_stop t' w' = Some (t', w') /\ tier_complete t' w' = Some (t', w').
Proof.
  intros Ht Er Ev. destruct (ok_req t Ht Er) as [Ha Hm]. exists (with_req t false). split; [done|]. split_and!; try done. intros w'.
  unfold tier_stop, tier_complete. cbn [active event with_req]. by rewrite Ha, Ev.
Qed.

(** A refusal in the second of the request: the request to the next tracker has to wait,
    and when the timer goes off it is the first one that is asked again. *)
Definition prompt_refusal (d : delays) (t : tr_tier) (w : shared) : option (tr_tier * shared) :=
  '(t, w) ← tr_result d t TR_RES_CONN w; tier_timer_cb t (at_time (m_tnext_req w) w).
Fixpoint prompt_refusals (d : delays) (n : nat) (t : tr_tier) (w : shared) : option (tr_tier * shared) :=
  match n with O => Some (t, w) | S n => '(t, w) ← prompt_refusal d t w; prompt_refusals d n t w end.

Definition two_trackers (a b : list Z) (ev : tr_event) (tm : option Z) : tr_tier :=
  TrTier (Some 0%nat) [TrEntry None a; TrEntry None b] tm true (-1) 0 true false ev.

(** With a first tracker that refuses at once the second one is never asked. *)
Theorem failover_never d n a b ev s next l : next <= s ->
  exists w, prompt_refusals d n (two_trackers a b ev None) (Shared s s next l) = Some (two_trackers a b ev None, w) /\
    requests w = map (fun k => Request (s + Z.of_nat k) a ev) (rev (seq 1 n)) ++ l.
Proof.
  revert s next l. induction n as [|n IH]; intros s next l Hs; [by eexists|]. cbn [prompt_refusals].
  assert (prompt_refusal d (two_trackers a b ev None) (Shared s s next l) = Some (two_trackers a b ev None, Shared (s + 1) (s + 1) (s + 1) (Request (s + 1) a ev :: l))) as ->.
  { unfold prompt_refusal, tr_result, tr_conn, two_trackers, entry_send, at_time. cbn. rewrite Z.gtb_ltb, (proj2 (Z.ltb_lt (s - REQ_DELAY) s)) by (unfold REQ_DELAY; lia).
    cbn. unfold entry_send. cbn. rewrite Z.max_r by lia. unfold REQ_DELAY. rewrite Z.gtb_ltb, (proj2 (Z.ltb_ge (s + 1 - 1) s)) by lia. done. }
  cbn [mbind option_bind]. destruct (IH (s + 1) (s + 1) (Request (s + 1) a ev :: l) ltac:(lia)) as (w & -> & Er). exists w. split; [done|].
  rewrite Er. change (seq 1 (S n)) with (1%nat :: seq 2 n). rewrite <- (seq_shift n 1). cbn [rev]. rewrite map_app, <- app_assoc. cbn [map app].
  f_equal. rewrite <- map_rev, map_map. apply map_ext. intros k. f_equal. lia.
Qed.

(** A tracker that failed is asked again when the others cannot be reached. *)
Example failed_asked :
  let t := TrTier (Some 1%nat) [TrEntry (Some []) [97]; TrEntry None [98]] None true (-1) 0 true false TR_EV_STARTED in
  match tr_result (Delays 240 900 60) t TR_RES_CONN (Shared 9 3 0 []) with Some (_, w) => map to (requests w) = [[97]] | None => False end.
Proof. reflexivity. Qed.

(** ** Witnesses *)

Definition sample_tier : tr_tier := TrTier (Some 0%nat) [TrEntry None [97]; TrEntry None [98]] (Some 60) false 60 0 true true TR_EV_EMPTY.

Lemma tracker_stop_ends_witness : exists t1 w1, tier_stop sample_tier (Shared 9 3 0 []) = Some (t1, w1) /\
  exists t' w', refused (Delays 240 900 60) [10; 11; 12; 13] t1 w1 = Some (t', w') /\ active t' = false.
Proof.
  apply (tracker_stop_ends (Delays 240 900 60) [10; 11; 12; 13] sample_tier (Shared 9 3 0 [])); try done.
  - split; cbn; try done. lia.
  - split; [cbn; lia|]. split; [done|constructor].
Defined.

(** The course of a tier, from its start to its end. *)
Example sample_course : let d := Delays 240 900 60 in let u := http_scheme ++ [97] in
  (fun s => (map active (tiers s), map (fun r => (sent_at r, what r)) (requests (world s)))) <$>
    course [Create [u; []]; Tick; Start 0; Tick; Answer 0 d TR_RES_CONN; Tick; Answer 0 d (TR_RES_OK 0); Complete 0; Tick; TimerGoes 0; Answer 0 d (TR_RES_OK 5); Tick; Stop 0; Answer 0 d (TR_RES_OK 0)] boot
  = Some ([false], [(5, TR_EV_STOPPED); (3, TR_EV_COMPLETED); (2, TR_EV_STARTED); (1, TR_EV_STARTED)]).
Proof. vm_compute. reflexivity. Qed.
