(* ===== verification/Torrents.v ===== *)
(** The torrents of the daemon: [libbt/btpd/torrent.c], over the metainfo of [Metainfo] and
    the trackers of [Trackers].

    Of the content of a torrent ([content.c]) there is its state, its error and the number
    of pieces that are there; of its network whether it is active.  What other parts are
    told to do is written down in order.  A pointer to a torrent is its place in the list
    or, in [m_savetp], the number of its entry in the library, which has at most one
    torrent.  [None] is a failed assertion or a null pointer that is followed. *)
From S2P Require Import Prelude Benc BencGet Bitfield BtPeer BtNet BtInv Url Metainfo Trackers.
Local Open Scope Z_scope.

Inductive torrent_state := T_STARTING | T_LEECH | T_SEED | T_STOPPING | T_GHOST.
#[export] Instance torrent_state_dec : EqDecision torrent_state.
Proof. solve_decision. Defined.

Inductive cm_state := CM_INACTIVE | CM_STARTING | CM_ACTIVE.
#[export] Instance cm_state_dec : EqDecision cm_state.
Proof. solve_decision. Defined.

Record content := Content { cm : cm_state; cm_error : bool; npieces_got : Z }.

Record tp := Tp {
  tl : nat; state : torrent_state; delete_ : bool; content_ : content; tr : list tr_tier; net_active : bool;
  sizes : torrent; files : list (list Z * Z); pieces_off : Z
}.

(** What the other parts are told. *)
Inductive order := NetCreate (tl : nat) | NetStart (tl : nat) | NetStop (tl : nat) | NetKill (tl : nat) | DropFullPeers (tl : nat) | P2sStart (tl : nat)
  | UpdateInfo (tl : nat) (only_file : bool) | TlibDel (tl : nat).

Record btpd := Btpd {
  m_torrents : list tp; m_ntorrents : Z; m_nghosts : Z; m_tsave : Z; m_savetp : option nat; sh : shared; orders : list order
}.

Definition SAVE_INTERVAL : Z := 300.

Definition with_state (t : tp) (s : torrent_state) : tp :=
  Tp (tl t) s (delete_ t) (content_ t) (tr t) (net_active t) (sizes t) (files t) (pieces_off t).
Definition with_delete (t : tp) : tp :=
  Tp (tl t) (state t) true (content_ t) (tr t) (net_active t) (sizes t) (files t) (pieces_off t).
Definition with_content (t : tp) (c : content) : tp :=
  Tp (tl t) (state t) (delete_ t) c (tr t) (net_active t) (sizes t) (files t) (pieces_off t).
Definition with_tr (t : tp) (l : list tr_tier) : tp :=
  Tp (tl t) (state t) (delete_ t) (content_ t) l (net_active t) (sizes t) (files t) (pieces_off t).
Definition with_net (t : tp) (b : bool) : tp :=
  Tp (tl t) (state t) (delete_ t) (content_ t) (tr t) b (sizes t) (files t) (pieces_off t).

Definition set_tp (i : nat) (t : tp) (s : btpd) : btpd :=
  Btpd (<[i := t]> (m_torrents s)) (m_ntorrents s) (m_nghosts s) (m_tsave s) (m_savetp s) (sh s) (orders s).
Definition with_sh (s : btpd) (w : shared) : btpd :=
  Btpd (m_torrents s) (m_ntorrents s) (m_nghosts s) (m_tsave s) (m_savetp s) w (orders s).
Definition tell (s : btpd) (o : order) : btpd :=
  Btpd (m_torrents s) (m_ntorrents s) (m_nghosts s) (m_tsave s) (m_savetp s) (sh s) (orders s ++ [o]).

(** ** The content *)

Definition cm_active (t : tp) : bool := negb (bool_decide (cm (content_ t) = CM_INACTIVE)).
Definition cm_started (t : tp) : bool := bool_decide (cm (content_ t) = CM_ACTIVE).
Definition cm_full (t : tp) : bool := npieces_got (content_ t) =? Z.of_nat (tp_npieces (sizes t)).

Definition cm_stop (c : content) : content :=
  match cm c with CM_INACTIVE => c | _ => Content CM_INACTIVE (cm_error c) (npieces_got c) end.
Definition cm_on_error (c : content) : content :=
  if cm_error c then c else cm_stop (Content (cm c) true (npieces_got c)).

(** The end of the test at the start: the pieces found, and whether the files could be
    opened for writing, which is tried when pieces are missing. *)
Definition startup_test_end (np : nat) (c : content) (got : Z) (opened : bool) : content :=
  let c := Content (cm c) (cm_error c) (npieces_got c + got) in
  if negb (npieces_got c =? Z.of_nat np) && negb opened then cm_on_error c else Content CM_ACTIVE (cm_error c) (npieces_got c).

(** How the start goes: an error, a test that has to run, or its end at once. *)
Inductive starting := StartError | StartTest | StartEnd (got : Z) (opened : bool).
Definition cm_start (np : nat) (c : content) (how : starting) : content :=
  let c := Content CM_STARTING (cm_error c) (npieces_got c) in
  match how with
  | StartError => cm_on_error c
  | StartTest => c
  | StartEnd got opened => startup_test_end np c got opened
  end.

(** ** The torrents *)

Definition torrent_kill (i : nat) (s : btpd) : option btpd :=
  t ← m_torrents s !! i;
  _ ← ensure (m_ntorrents s >? 0);
  _ ← ensure (negb (net_active t || cm_active t));
  let ghosts := if bool_decide (state t = T_GHOST) then m_nghosts s - 1 else m_nghosts s in
  let l := delete i (m_torrents s) in
  let save := if bool_decide (m_savetp s = Some (tl t)) then tl <$> (match l !! i with Some n => Some n | None => head l end) else m_savetp s in
  let s := Btpd l (m_ntorrents s - 1) ghosts (m_tsave s) save (sh s) (orders s) in
  Some (tell (if delete_ t then tell s (TlibDel (tl t)) else s) (NetKill (tl t))).

Definition become_ghost (i : nat) (s : btpd) : option btpd :=
  t ← m_torrents s !! i;
  let s := set_tp i (with_state t T_GHOST) s in
  let s := if delete_ t then s else tell s (UpdateInfo (tl t) false) in
  Some (Btpd (m_torrents s) (m_ntorrents s) (m_nghosts s + 1) (m_tsave s) (m_savetp s) (sh s) (orders s)).

(** The part of [torrent_stop] for a torrent that is not stopping yet. *)
Definition stop_running (i : nat) (t : tp) (s : btpd) : option btpd :=
  let t := with_state t T_STOPPING in
  let '(t, s) := if net_active t then (with_net t false, tell s (NetStop (tl t))) else (t, s) in
  '(t, w) ← (if tr_active (tr t) then '(ts, w) ← tr_stop (tr t) (sh s); Some (with_tr t ts, w) else Some (t, sh s));
  let s := with_sh s w in
  let t := if cm_active t then with_content t (cm_stop (content_ t)) else t in
  let s := set_tp i t s in
  if negb (cm_active t) then s ← become_ghost i s; torrent_kill i s else Some s.

Definition torrent_stop (i : nat) (del : bool) (s : btpd) : option btpd :=
  t ← m_torrents s !! i;
  let t := if del then with_delete t else t in
  match state t with
  | T_LEECH | T_SEED | T_STARTING => stop_running i t s
  | _ => Some (set_tp i t s)
  end.

(** [torrent_start] of a library entry without a torrent; [mi] is the text of its metainfo. *)
Definition torrent_start (alloc : file_site -> bool) (ann_alloc : ann_site -> bool) (rand_between : nat -> nat -> nat -> nat)
  (dir : bool) (mi : option (list Z)) (base : Z) (how : starting) (n : nat) (s : btpd) : option btpd :=
  if negb dir then Some s
  else
    match mi with
    | None => Some s
    | Some m =>
        fs ← mi_files m base alloc 0;
        _ ← mi_nfiles m base 0;
        total ← mi_total_length m base 0;
        pl ← mi_piece_length m base 0;
        np ← mi_npieces m base 0;
        info ← mi_info m base 0;
        pieces ← benc_dget_mem m base info k_pieces;
        pieces ← pieces;
        ann ← mi_announce m base ann_alloc rand_between 0;
        ann ← ann;
        tiers ← tr_create ann;
        fs ← fs;
        let sz := Torrent (Z.to_nat (u32 np)) pl total in
        let t := Tp n T_STARTING false (cm_start (tp_npieces sz) (Content CM_INACTIVE false 0) how) tiers false sz fs (mem_ptr pieces) in
        let cnt := m_ntorrents s + 1 in
        let '(tsave, save) := if cnt =? 1 then (btpd_seconds (sh s) + SAVE_INTERVAL, Some n) else (m_tsave s, m_savetp s) in
        Some (tell (Btpd (m_torrents s ++ [t]) cnt (m_nghosts s) tsave save (sh s) (orders s)) (NetCreate n))
    end.

(** [tr_start] and [tr_complete] of a torrent. *)
Definition on_trackers (f : list tr_tier -> shared -> option (list tr_tier * shared)) (i : nat) (s : btpd) : option btpd :=
  t ← m_torrents s !! i;
  '(ts, w) ← f (tr t) (sh s);
  Some (with_sh (set_tp i (with_tr t ts) s) w).

Definition torrent_on_tick (i : nat) (s : btpd) : option btpd :=
  t ← m_torrents s !! i;
  if negb (bool_decide (state t = T_STOPPING)) && cm_error (content_ t) then torrent_stop i false s
  else
    let haunt (t : tp) (s : btpd) := if negb (tr_active (tr t)) then torrent_kill i s else Some s in
    match state t with
    | T_STARTING =>
        if cm_started t then
          let t := with_state t (if cm_full t then T_SEED else T_LEECH) in
          let s := tell (set_tp i (with_net t true) s) (NetStart (tl t)) in
          on_trackers tr_start i s
        else Some s
    | T_LEECH =>
        if cm_full t then
          s ← on_trackers tr_complete i (set_tp i (with_state t T_SEED) s);
          Some (tell s (DropFullPeers (tl t)))
        else Some (tell s (P2sStart (tl t)))
    | T_STOPPING => if cm_active t then Some s else s ← become_ghost i s; haunt t s
    | T_GHOST => haunt t s
    | T_SEED => Some s
    end.

(** The loop over the torrents: one that is gone leaves its place to the next. *)
Fixpoint tick_loop (k i : nat) (s : btpd) : option btpd :=
  match k with
  | O => Some s
  | S k =>
      s' ← torrent_on_tick i s;
      tick_loop k (if (length (m_torrents s') <? length (m_torrents s))%nat then i else S i) s'
  end.

Definition find_tl (n : nat) (l : list tp) : option nat := fst <$> list_find (fun t => tl t = n) l.

Definition save_turn (s : btpd) : option btpd :=
  match m_savetp s with
  | None => Some s
  | Some n =>
      if m_tsave s <=? btpd_seconds (sh s) then
        i ← find_tl n (m_torrents s);
        t ← m_torrents s !! i;
        if bool_decide (state t = T_LEECH) || bool_decide (state t = T_SEED) then
          let s := tell s (UpdateInfo n true) in
          let save := tl <$> (match m_torrents s !! S i with Some x => Some x | None => head (m_torrents s) end) in
          let tsave := if m_ntorrents s >? 0 then btpd_seconds (sh s) + Z.max (m_ntorrents s) SAVE_INTERVAL / m_ntorrents s else m_tsave s in
          Some (Btpd (m_torrents s) (m_ntorrents s) (m_nghosts s) tsave save (sh s) (orders s))
        else Some s
      else Some s
  end.

Definition torrent_on_tick_all (s : btpd) : option btpd := s ← tick_loop (length (m_torrents s)) 0 s; save_turn s.

(** The loop of [btpd_shutdown] and [cmd_stop_all]. *)
Fixpoint stop_loop (k i : nat) (s : btpd) : option btpd :=
  match k with
  | O => Some s
  | S k =>
      s' ← torrent_stop i false s;
      stop_loop k (if (length (m_torrents s') <? length (m_torrents s))%nat then i else S i) s'
  end.
Definition stop_all (s : btpd) : option btpd := stop_loop (length (m_torrents s)) 0 s.

(** ** The invariant *)

Definition running (t : tp) : Prop := state t = T_LEECH \/ state t = T_SEED.

(** Between two turns of the loop a torrent is starting, with its trackers not active yet,
    or it runs. *)
Definition tp_ok (t : tp) : Prop :=
  Forall tier_ok (tr t) /\
  ((state t = T_STARTING /\ net_active t = false /\ Forall (fun x => active x = false) (tr t)) \/ (running t /\ net_active t = true)).

Record inv (s : btpd) : Prop := Inv {
  inv_torrents : Forall tp_ok (m_torrents s);
  inv_count : m_ntorrents s = Z.of_nat (length (m_torrents s));
  inv_ghosts : m_nghosts s = 0;
  inv_tls : NoDup (tl <$> m_torrents s);
  inv_save : match m_savetp s with Some n => n ∈ tl <$> m_torrents s | None => m_torrents s = [] end;
  inv_shared : spaced (sh s)
}.

Lemma fmap_insert_same {A B} (f : A -> B) (l : list A) i x y : l !! i = Some x -> f y = f x -> f <$> <[i:=y]> l = f <$> l.
Proof. intros Hx E. rewrite list_fmap_insert, E. apply list_insert_id. by rewrite list_lookup_fmap, Hx. Qed.

Lemma inv_tell s o : inv s -> inv (tell s o).
Proof. intros []. by split. Qed.

Lemma inv_set i t t' w s : inv s -> m_torrents s !! i = Some t -> tp_ok t' -> tl t' = tl t -> spaced w -> inv (with_sh (set_tp i t' s) w).
Proof.
  intros [H1 H2 H3 H4 H5 H6] Ht Ht' E Hw. split; cbn; try done.
  - by apply Forall_insert.
  - by rewrite length_insert.
  - by rewrite (fmap_insert_same tl _ _ t).
  - rewrite (fmap_insert_same tl _ _ t) by done. destruct (m_savetp s); [done|]. by rewrite H5 in Ht.
Qed.

Lemma inv_same_sh i t' s : with_sh (set_tp i t' s) (sh s) = set_tp i t' s.
Proof. by destruct s. Qed.

(** A torrent goes; the next one takes over its place and its turn to be saved. *)
Lemma inv_remove s i t os : inv s -> m_torrents s !! i = Some t ->
  let l := delete i (m_torrents s) in
  inv (Btpd l (m_ntorrents s - 1) (m_nghosts s) (m_tsave s)
    (if bool_decide (m_savetp s = Some (tl t)) then tl <$> (match l !! i with Some n => Some n | None => head l end) else m_savetp s) (sh s) os).
Proof.
  intros [H1 H2 H3 H4 H5 H6] Ht l. pose proof (lookup_lt_Some _ _ _ Ht) as Hi. split; cbn; try done.
  - by apply Forall_delete.
  - unfold l. rewrite length_delete by (by eexists). lia.
  - unfold l. rewrite list_fmap_delete. eapply sublist_NoDup; [exact H4|apply sublist_delete].
  - case_bool_decide as Hs.
    + destruct (l !! i) as [n|] eqn:En; cbn; [apply list_elem_of_fmap_2; by eapply list_elem_of_lookup_2|]. destruct l as [|x l']; [done|]. cbn. constructor.
    + destruct (m_savetp s) as [n|]; [|by rewrite H5 in Ht]. apply list_elem_of_fmap in H5 as (x & -> & Hx). apply list_elem_of_fmap_2.
      apply list_elem_of_lookup in Hx as [j Hj]. assert (j <> i) as Hne by (intros ->; congruence). unfold l.
      destruct (decide (j < i)%nat) as [Hlt|Hge].
      * apply (list_elem_of_lookup_2 _ j). by rewrite list_lookup_delete_lt.
      * apply (list_elem_of_lookup_2 _ (j - 1)%nat). rewrite list_lookup_delete_ge by lia. by replace (S (j - 1)) with j by lia.
Qed.

(** ** Trackers of a torrent *)

Lemma tiers_each_ok (p q : tr_tier -> Prop) f ts w : (forall t w, tier_ok t -> p t -> spaced w -> goes q (f t w)) -> Forall tier_ok ts -> Forall p ts -> spaced w ->
  exists ts' w', tiers_each f ts w = Some (ts', w') /\ Forall tier_ok ts' /\ Forall q ts' /\ spaced w' /\ length ts' = length ts.
Proof.
  intros Hf. revert w. induction ts as [|t ts IH]; intros w Ht Hp Hw; [by exists [], w|]. apply Forall_cons in Ht as [Ht Hts], Hp as [Hp Hps]. cbn [tiers_each].
  destruct (Hf t w Ht Hp Hw) as (t' & w1 & -> & Ht' & Hw1 & Hq). cbn [mbind option_bind]. destruct (IH w1 Hts Hps Hw1) as (ts' & w2 & -> & H1 & H2 & H3 & H4).
  exists (t' :: ts'), w2. cbn [length]. split_and!; [done|by constructor|by constructor|done|lia].
Qed.

Lemma Forall_true {A} (l : list A) : Forall (fun _ => True) l.
Proof. by apply Forall_forall. Qed.

Lemma tr_start_ok ts w : Forall tier_ok ts -> Forall (fun x => active x = false) ts -> spaced w ->
  exists ts' w', tr_start ts w = Some (ts', w') /\ Forall tier_ok ts' /\ spaced w'.
Proof.
  intros H1 H2 H3. destruct (tiers_each_ok (fun x => active x = false) (fun _ => True) tier_start ts w) as (ts' & w' & E & H & _ & Hw & _); [|done..|by exists ts', w'].
  intros t w0 Ht Ha Hw. eapply goes_mono; [apply start_ok; [done|by left|done]|done].
Qed.

Lemma tr_stop_ok ts w : Forall tier_ok ts -> spaced w -> exists ts' w', tr_stop ts w = Some (ts', w') /\ Forall tier_ok ts' /\ spaced w'.
Proof.
  intros H1 H3. destruct (tiers_each_ok (fun _ => True) (fun _ => True) tier_stop ts w) as (ts' & w' & E & H & _ & Hw & _); [|done|apply Forall_true|done|by exists ts', w'].
  intros t w0 Ht _ Hw. eapply goes_mono; [by apply stop_ok|done].
Qed.

Lemma tr_complete_ok ts w : Forall tier_ok ts -> spaced w -> exists ts' w', tr_complete ts w = Some (ts', w') /\ Forall tier_ok ts' /\ spaced w'.
Proof.
  intros H1 H3. destruct (tiers_each_ok (fun _ => True) (fun _ => True) tier_complete ts w) as (ts' & w' & E & H & _ & Hw & _); [|done|apply Forall_true|done|by exists ts', w'].
  intros t w0 Ht _ Hw. eapply goes_mono; [by apply complete_ok|done].
Qed.

(** ** Stopping *)

Lemma delete_insert_at {A} (l : list A) i x : delete i (<[i:=x]> l) = delete i l.
Proof. by rewrite !delete_take_drop, take_insert_ge, drop_insert_lt by lia. Qed.

(** A ghost without anything active is taken off the list. *)
Lemma kill_ghost i t t' s : inv s -> m_torrents s !! i = Some t -> tl t' = tl t -> net_active t' = false -> cm_active t' = false ->
  forall s1, s1 = set_tp i t' s -> exists s', (s ← become_ghost i s1; torrent_kill i s) = Some s' /\ inv s' /\ m_torrents s' = delete i (m_torrents s).
Proof.
  intros Hinv Ht Etl En Ec s1 ->. pose proof (lookup_lt_Some _ _ _ Ht) as Hi. unfold become_ghost. cbn [set_tp m_torrents].
  rewrite list_lookup_insert_eq by done. cbn [mbind option_bind]. set (g := with_state t' T_GHOST).
  unfold torrent_kill. set (s2 := Btpd _ _ _ _ _ _ _).
  assert (m_torrents s2 = <[i:=g]> (<[i:=t']> (m_torrents s)) /\ m_ntorrents s2 = m_ntorrents s /\ m_nghosts s2 = m_nghosts s + 1 /\ m_tsave s2 = m_tsave s /\
    m_savetp s2 = m_savetp s /\ sh s2 = sh s) as (El & E1 & E2 & E3 & E4 & E5) by (unfold s2; by destruct (delete_ t')).
  rewrite El, list_lookup_insert_eq by (rewrite length_insert; done). cbn [mbind option_bind]. rewrite E1, E2, E3, E4, E5.
  pose proof (inv_count s Hinv) as Hn. rewrite (ensure_true (m_ntorrents s >? 0)) by (apply Z.gtb_lt; lia). cbn [mbind option_bind]. change (net_active g) with (net_active t').
  change (cm_active g) with (cm_active t'). rewrite En, Ec. cbn [orb negb]. rewrite ensure_true by done. cbn [mbind option_bind].
  eexists. split; [reflexivity|]. cbn [state with_state g]. rewrite bool_decide_true by done. cbn [tl with_state g]. rewrite !delete_insert_at, Etl.
  replace (m_nghosts s + 1 - 1) with (m_nghosts s) by lia. split; [|by destruct (delete_ g)].
  pose proof (fun os => inv_remove s i t os Hinv Ht) as H. apply inv_tell. cbn zeta in *. destruct (delete_ g); [|apply H]. apply inv_tell, H.
Qed.

Lemma stop_running_ok i t0 t s : inv s -> m_torrents s !! i = Some t0 -> tl t = tl t0 -> Forall tier_ok (tr t) ->
  exists s', stop_running i t s = Some s' /\ inv s' /\ m_torrents s' = delete i (m_torrents s).
Proof.
  intros Hinv Ht Etl Htr. unfold stop_running. destruct (if net_active _ then _ else _) as [t1 s1] eqn:E1.
  assert (tl t1 = tl t /\ tr t1 = tr t /\ net_active t1 = false /\ inv s1 /\ m_torrents s1 = m_torrents s) as (El & Er & En & Hinv1 & Em).
  { destruct (net_active (with_state t T_STOPPING)) eqn:En; injection E1 as <- <-; split_and!; try done; by apply inv_tell. }
  assert (exists t2 w, (if tr_active (tr t1) then '(ts, w) ← tr_stop (tr t1) (sh s1); Some (with_tr t1 ts, w) else Some (t1, sh s1)) = Some (t2, w) /\
    tl t2 = tl t /\ net_active t2 = false /\ spaced w) as (t2 & w & -> & El2 & En2 & Hw).
  { rewrite Er. destruct (tr_active (tr t)); [|exists t1, (sh s1); split_and!; try done; by apply inv_shared].
    destruct (tr_stop_ok (tr t) (sh s1) Htr (inv_shared s1 Hinv1)) as (ts & w & -> & _ & Hw). by exists (with_tr t1 ts), w. }
  cbn [mbind option_bind]. set (t3 := if cm_active t2 then _ else t2).
  assert (tl t3 = tl t /\ net_active t3 = false /\ cm_active t3 = false) as (El3 & En3 & Ec3).
  { unfold t3. destruct (cm_active t2) eqn:E; [|done]. split_and!; try done. unfold cm_active, cm_stop in *. by destruct (cm (content_ t2)). }
  rewrite Ec3. cbn [negb]. assert (inv (with_sh s1 w)) as Hinv2 by (by destruct Hinv1).
  destruct (kill_ghost i t0 t3 (with_sh s1 w) Hinv2 ltac:(cbn; by rewrite Em) ltac:(congruence) En3 Ec3 _ eq_refl) as (s' & E & Hs' & Hm).
  exists s'. split; [exact E|]. split; [done|]. cbn in Hm. by rewrite Hm, Em.
Qed.

(** A torrent that is told to stop is gone when the call returns. *)
Lemma torrent_stop_ok i t del s : inv s -> m_torrents s !! i = Some t ->
  exists s', torrent_stop i del s = Some s' /\ inv s' /\ m_torrents s' = delete i (m_torrents s).
Proof.
  intros Hinv Ht. pose proof (Forall_lookup_1 _ _ _ _ (inv_torrents s Hinv) Ht) as [Htr Hst]. unfold torrent_stop. rewrite Ht. cbn [mbind option_bind].
  set (t0 := if del then with_delete t else t). assert (state t0 = state t /\ tl t0 = tl t /\ tr t0 = tr t) as (E0 & Etl & Etr) by (unfold t0; by destruct del).
  destruct (stop_running_ok i t t0 s Hinv Ht Etl ltac:(by rewrite Etr)) as (s' & E & H). exists s'. split; [|exact H].
  rewrite E0. by destruct Hst as [[-> _]|[[-> | ->] _]].
Qed.

(** ** The turn of the clock *)

Lemma on_trackers_ok (f : list tr_tier -> shared -> option (list tr_tier * shared)) i t0 t s : inv s -> m_torrents s !! i = Some t0 -> tl t = tl t0 ->
  running t -> net_active t = true ->
  (exists ts w, f (tr t) (sh s) = Some (ts, w) /\ Forall tier_ok ts /\ spaced w) ->
  exists s', on_trackers f i (set_tp i t s) = Some s' /\ inv s' /\ length (m_torrents s') = length (m_torrents s).
Proof.
  intros Hinv Ht Etl Hr Hn (ts & w & E & Hts & Hw). pose proof (lookup_lt_Some _ _ _ Ht) as Hi. unfold on_trackers. cbn [m_torrents set_tp].
  rewrite list_lookup_insert_eq by done. cbn [mbind option_bind]. change (sh (set_tp i t s)) with (sh s). rewrite E. cbn [mbind option_bind].
  eexists. split; [reflexivity|]. split; [|cbn; by rewrite !length_insert].
  assert (with_sh (set_tp i (with_tr t ts) (set_tp i t s)) w = with_sh (set_tp i (with_tr t ts) s) w) as ->
    by (unfold with_sh, set_tp; cbn; by rewrite list_insert_insert_eq).
  apply (inv_set i t0); [done|done| |done|done]. split; [done|]. right. done.
Qed.

Lemma torrent_on_tick_ok i t s : inv s -> m_torrents s !! i = Some t -> exists s', torrent_on_tick i s = Some s' /\ inv s' /\
  (m_torrents s' = delete i (m_torrents s) \/ length (m_torrents s') = length (m_torrents s)).
Proof.
  intros Hinv Ht. pose proof (Forall_lookup_1 _ _ _ _ (inv_torrents s Hinv) Ht) as [Htr Hst]. unfold torrent_on_tick. rewrite Ht. cbn [mbind option_bind].
  destruct (negb (bool_decide (state t = T_STOPPING)) && cm_error (content_ t)).
  { destruct (torrent_stop_ok i t false s Hinv Ht) as (s' & E & Hs & Hm). exists s'. split; [exact E|]. split; [done|by left]. }
  destruct Hst as [(-> & En & Ha)|[[-> | ->] En]].
  - destruct (cm_started t); [|exists s; split; [done|split; [done|by right]]].
    set (t1 := with_net (with_state t (if cm_full t then T_SEED else T_LEECH)) true). set (s1 := tell s (NetStart (tl t))).
    destruct (on_trackers_ok tr_start i t t1 s1 (inv_tell _ _ Hinv) Ht) as (s' & E & Hs & Hl); [done| |done| |].
    + unfold running, t1. cbn. destruct (cm_full t); auto.
    + apply tr_start_ok; [done|done|by apply (inv_shared s)].
    + exists s'. split; [exact E|]. split; [done|by right].
  - destruct (cm_full t).
    + destruct (on_trackers_ok tr_complete i t (with_state t T_SEED) s Hinv Ht) as (s' & -> & Hs & Hl); [done|by right|done|apply tr_complete_ok; [done|by apply inv_shared]|].
      cbn [mbind option_bind]. eexists. split; [reflexivity|]. split; [by apply inv_tell|by right].
    + eexists. split; [reflexivity|]. split; [by apply inv_tell|by right].
  - exists s. split; [done|]. split; [done|by right].
Qed.

Lemma tick_loop_ok k : forall i s, inv s -> (i + k)%nat = length (m_torrents s) -> exists s', tick_loop k i s = Some s' /\ inv s'.
Proof.
  induction k as [|k IH]; intros i s Hinv Hk; [by exists s|]. cbn [tick_loop]. destruct (lookup_lt_is_Some_2 (m_torrents s) i) as [t Ht]; [lia|].
  destruct (torrent_on_tick_ok i t s Hinv Ht) as (s1 & -> & H1 & Hl). cbn [mbind option_bind]. apply IH; [done|].
  destruct Hl as [Hl|Hl].
  - rewrite Hl, length_delete by (by eexists). rewrite (proj2 (Nat.ltb_lt _ _)) by lia. lia.
  - rewrite Hl, Nat.ltb_irrefl. lia.
Qed.

Lemma stop_loop_ok k : forall i s, inv s -> (i + k)%nat = length (m_torrents s) -> exists s', stop_loop k i s = Some s' /\ inv s' /\ length (m_torrents s') = i.
Proof.
  induction k as [|k IH]; intros i s Hinv Hk; [exists s; split; [done|split; [done|lia]]|]. cbn [stop_loop]. destruct (lookup_lt_is_Some_2 (m_torrents s) i) as [t Ht]; [lia|].
  destruct (torrent_stop_ok i t false s Hinv Ht) as (s1 & -> & H1 & Hl). cbn [mbind option_bind].
  rewrite Hl, length_delete by (by eexists). rewrite (proj2 (Nat.ltb_lt _ _)) by lia. apply IH; [done|]. rewrite Hl, length_delete by (by eexists). lia.
Qed.

Lemma find_tl_ok n l : n ∈ tl <$> l -> exists i t, find_tl n l = Some i /\ l !! i = Some t /\ tl t = n.
Proof.
  intros (x & -> & Hx)%list_elem_of_fmap. unfold find_tl. destruct (list_find (fun t => tl t = tl x) l) as [[i t]|] eqn:E.
  - apply list_find_Some in E as (H1 & H2 & _). by exists i, t.
  - apply list_find_None in E. rewrite Forall_forall in E. by specialize (E x Hx).
Qed.

Lemma save_turn_ok s : inv s -> exists s', save_turn s = Some s' /\ inv s' /\ m_torrents s' = m_torrents s /\ sh s' = sh s.
Proof.
  intros Hinv. unfold save_turn. pose proof (inv_save s Hinv) as Hs. destruct (m_savetp s) as [n|] eqn:En; [|by exists s].
  destruct (_ <=? _); [|by exists s]. destruct (find_tl_ok n _ Hs) as (i & t & -> & Ht & Etl). cbn [mbind option_bind]. rewrite Ht. cbn [mbind option_bind].
  destruct (_ || _); [|by exists s]. eexists. split; [reflexivity|]. split; [|done]. destruct Hinv. split; cbn; try done.
  destruct (m_torrents s !! S i) as [x|] eqn:Ex; cbn; [apply list_elem_of_fmap_2; by eapply list_elem_of_lookup_2|].
  destruct (m_torrents s) as [|x l]; [done|]. cbn. constructor.
Qed.

Lemma tick_all_ok s : inv s -> exists s', torrent_on_tick_all s = Some s' /\ inv s'.
Proof.
  intros Hinv. unfold torrent_on_tick_all. destruct (tick_loop_ok (length (m_torrents s)) 0 s Hinv eq_refl) as (s1 & -> & H1). cbn [mbind option_bind].
  destruct (save_turn_ok s1 H1) as (s2 & -> & H2 & _). by exists s2.
Qed.

(** ** Starting *)

Lemma tr_create_ok ann : exists ts, tr_create ann = Some ts /\ Forall tier_ok ts /\ Forall (fun x => active x = false) ts.
Proof.
  induction ann as [|us ann (ts & IH & H1 & H2)]; [by exists []|]. cbn [tr_create]. destruct (tier_create_ok us) as (r & -> & Hr). cbn [mbind option_bind].
  rewrite IH. cbn [mbind option_bind]. eexists. split; [reflexivity|]. destruct r as [t|]; [|done]. destruct Hr as [[Ht _] Ha]. by split; constructor.
Qed.

Section Run.
Context (alloc : file_site -> bool) (ann_alloc : ann_site -> bool) (rand_between : nat -> nat -> nat -> nat) (base : Z).

(** What is asked of a metainfo file in the library and of the surroundings: it is accepted
    by [mi_test], has tiers of nothing but strings and a name or files; no allocation
    fails. *)
Record described (m : list Z) (v : bval) (t : torrent_info) (ts : list (list (list Z))) (fs : list (list Z * Z)) : Prop := Described {
  ds_base : addressable m base;
  ds_runs : sane_runs m;
  ds_text : benc v m;
  ds_info : metainfo_of v = Some t;
  ds_tiers : tiers_of v = Some ts;
  ds_files : c_files t = Some fs;
  ds_size : Z.of_nat (length m) <= MAX_METAINFO
}.
Hypothesis Halloc : forall x, alloc x = true.
Hypothesis Hann : forall x, ann_alloc x = true.
Hypothesis Hrand : forall i, within (rand_between i).

Lemma tiers_alloc_true ts k : tiers_alloc ann_alloc k ts = true.
Proof.
  revert k. induction ts as [|us ts IH]; intros k; [done|]. cbn [tiers_alloc]. rewrite Hann, IH, andb_true_r. cbn [andb]. apply forallb_forall. by intros.
Qed.

Lemma torrent_start_ok m v t ts fs how n s : described m v t ts fs -> inv s -> n ∉ tl <$> m_torrents s ->
  exists s' x, torrent_start alloc ann_alloc rand_between true (Some m) base how n s = Some s' /\ inv s' /\ m_torrents s' = m_torrents s ++ [x] /\
    tl x = n /\ state x = T_STARTING /\ sizes x = Torrent (Z.to_nat (t_npieces t)) (t_piece_length t) (t_total t) /\ files x = fs.
Proof.
  intros [Hb Hr Hv Ht Hts Hfs Hm] Hinv Hn. unfold torrent_start. cbn [negb].
  rewrite (files_ok m base Hb Hr v t Hv Ht alloc Hm), Halloc, Hfs.
  assert (forallb (fun i => alloc (SPath i)) (seq 0 (t_nfiles t)) = true) as -> by (apply forallb_forall; by intros). cbn [andb mbind option_bind].
  rewrite (nfiles_ok m base Hb v t Hv Ht), (total_length_ok m base Hb Hr v t Hv Ht), (piece_length_ok m base Hb Hr v t Hv Ht), (npieces_ok m base Hb v t Hv Ht).
  cbn [mbind option_bind]. destruct (accepted_info m base Hb v t Hv Ht) as (q & info & -> & Hq & _ & Ei). cbn [mbind option_bind].
  destruct (at_dget_mem m base Hb k_pieces ltac:(apply key_ok; repeat constructor) q info Hq) as (r & -> & Hp). rewrite (proj1 (info_of_inv info t Ei)) in Hp.
  destruct Hp as (a & -> & _). cbn [mbind option_bind]. unfold mi_announce. rewrite Hann. cbn [negb]. rewrite (read_tiers_ok m base Hb v Hv ann_alloc ts Hts), Hann, tiers_alloc_true.
  cbn [andb mbind option_bind]. destruct (shuffle_announce_ok rand_between ts Hrand) as (ts' & -> & _). cbn [mbind option_bind].
  destruct (tr_create_ok ts') as (tiers & -> & H1 & H2). cbn [mbind option_bind].
  assert (u32 (t_npieces t) = t_npieces t) as ->.
  { apply wrap_small. split; [unfold t_npieces; apply Z.div_pos; lia|]. by apply (npieces_range m base Hb v t Hv Ht). }
  destruct (if _ =? 1 then _ else _) as [tsave save] eqn:Esave. eexists _, _. split; [reflexivity|]. split_and!; try done.
  apply inv_tell. destruct Hinv as [I1 I2 I3 I4 I5 I6]. split; cbn; try done.
  - apply Forall_app. split; [done|]. constructor; [|done]. split; [done|]. by left.
  - rewrite length_app, I2. cbn [length]. lia.
  - rewrite fmap_app. apply NoDup_app. split; [done|]. split; [|apply NoDup_singleton]. intros x Hx ->%list_elem_of_singleton. done.
  - rewrite fmap_app. rewrite I2 in Esave. destruct (_ =? 1) eqn:E1; injection Esave as <- <-; [apply elem_of_app; right; constructor|].
    destruct (m_savetp s) as [k|]; [apply elem_of_app; by left|]. by rewrite I5 in E1.
Qed.

(** ** The daemon at work *)

(** What happens to the torrents: a library entry without one is started; they are stopped,
    one or all; a second passes; the content manager does whatever it does; and the
    trackers' timers go off and requests are answered. *)
Inductive occurrence :=
  | StartTorrent (n : nat) (dir : bool) (mi : option (list Z)) (how : starting)
  | StopTorrent (n : nat) (del : bool)
  | StopAll
  | Second
  | ContentTurns (n : nat) (c : content)
  | TrackerTimer (n k : nat)
  | TrackerAnswers (n k : nat) (d : delays) (res : tr_response).

Definition with_tier (f : tr_tier -> shared -> option (tr_tier * shared)) (can : tr_tier -> bool) (n k : nat) (s : btpd) : option btpd :=
  match find_tl n (m_torrents s) with
  | None => Some s
  | Some i =>
      t ← m_torrents s !! i;
      match tr t !! k with
      | None => Some s
      | Some x => if can x then '(x, w) ← f x (sh s); Some (with_sh (set_tp i (with_tr t (<[k := x]> (tr t))) s) w) else Some s
      end
  end.

Definition occur (o : occurrence) (s : btpd) : option btpd :=
  match o with
  | StartTorrent n dir mi how => match find_tl n (m_torrents s) with None => torrent_start alloc ann_alloc rand_between dir mi base how n s | Some _ => Some s end
  | StopTorrent n del => match find_tl n (m_torrents s) with None => Some s | Some i => torrent_stop i del s end
  | StopAll => stop_all s
  | Second => let w := sh s in torrent_on_tick_all (with_sh s (Shared (btpd_seconds w + 1) (m_tlast_req w) (m_tnext_req w) (requests w)))
  | ContentTurns n c =>
      match find_tl n (m_torrents s) with
      | None => Some s
      | Some i => t ← m_torrents s !! i; Some (set_tp i (with_content t c) s)
      end
  | TrackerTimer n k => with_tier tier_timer_cb (fun x => bool_decide (is_Some (timer x))) n k s
  | TrackerAnswers n k d res => with_tier (fun x => tr_result d x res) req n k s
  end.

Fixpoint work (os : list occurrence) (s : btpd) : option btpd :=
  match os with [] => Some s | o :: os => s ← occur o s; work os s end.

Definition btpd_boot : btpd := Btpd [] 0 0 0 None (Shared 0 0 0 []) [].

Definition proper (o : occurrence) : Prop :=
  match o with StartTorrent _ _ (Some m) _ => exists v t ts fs, described m v t ts fs | _ => True end.

Lemma find_tl_lookup n l i : find_tl n l = Some i -> exists t, l !! i = Some t /\ tl t = n.
Proof.
  unfold find_tl. destruct (list_find _ l) as [[j t]|] eqn:E; [|done]. intros [= <-]. apply list_find_Some in E as (H1 & H2 & _). by exists t.
Qed.

Lemma find_tl_none n l : find_tl n l = None -> n ∉ tl <$> l.
Proof. intros E Hn. destruct (find_tl_ok n l Hn) as (i & t & E' & _). congruence. Qed.

Lemma with_tier_ok f can n k s : inv s ->
  (forall x w, tier_ok x -> can x = true -> spaced w -> exists x' w', f x w = Some (x', w') /\ tier_ok x' /\ spaced w' /\ active x = true) ->
  exists s', with_tier f can n k s = Some s' /\ inv s'.
Proof.
  intros Hinv Hf. unfold with_tier. destruct (find_tl n (m_torrents s)) as [i|] eqn:Ei; [|by exists s]. destruct (find_tl_lookup _ _ _ Ei) as (t & Ht & _).
  rewrite Ht. cbn [mbind option_bind]. destruct (tr t !! k) as [x|] eqn:Ex; [|by exists s]. destruct (can x) eqn:Hc; [|by exists s].
  pose proof (Forall_lookup_1 _ _ _ _ (inv_torrents s Hinv) Ht) as [Htr Hst]. pose proof (Forall_lookup_1 _ _ _ _ Htr Ex) as Hx.
  destruct (Hf x (sh s) Hx Hc (inv_shared s Hinv)) as (x' & w & -> & Hx' & Hw & Ha). cbn [mbind option_bind]. eexists. split; [reflexivity|].
  apply (inv_set i t); [done|done| |done|done]. split; cbn [tr with_tr]; [by apply Forall_insert|].
  destruct Hst as [(_ & _ & Hin)|Hst]; [|by right]. pose proof (Forall_lookup_1 _ _ _ _ Hin Ex) as Hin'. cbn in Hin'. congruence.
Qed.

Lemma occur_ok o s : proper o -> inv s -> exists s', occur o s = Some s' /\ inv s'.
Proof.
  intros Hp Hinv. destruct o as [n dir mi how|n del| | |n c|n k|n k d res]; cbn [occur].
  - destruct (find_tl n (m_torrents s)) eqn:En; [by exists s|]. destruct dir; [|by exists s]. destruct mi as [m|]; [|by exists s]. destruct Hp as (v & t & ts & fs & Hd).
    destruct (torrent_start_ok m v t ts fs how n s Hd Hinv (find_tl_none _ _ En)) as (s' & x & E & Hs & _). by exists s'.
  - destruct (find_tl n (m_torrents s)) as [i|] eqn:En; [|by exists s]. destruct (find_tl_lookup _ _ _ En) as (t & Ht & _).
    destruct (torrent_stop_ok i t del s Hinv Ht) as (s' & E & Hs & _). by exists s'.
  - destruct (stop_loop_ok (length (m_torrents s)) 0 s Hinv eq_refl) as (s' & E & Hs & _). by exists s'.
  - apply tick_all_ok. destruct Hinv as [I1 I2 I3 I4 I5 (H1 & H2 & H3)]. split; try done. split; [cbn; lia|done].
  - destruct (find_tl n (m_torrents s)) as [i|] eqn:En; [|by exists s]. destruct (find_tl_lookup _ _ _ En) as (t & Ht & _). rewrite Ht. cbn [mbind option_bind].
    eexists. split; [reflexivity|]. rewrite <- inv_same_sh. apply (inv_set i t); [done|done| |done|by apply inv_shared]. exact (Forall_lookup_1 _ _ _ _ (inv_torrents s Hinv) Ht).
  - apply with_tier_ok; [done|]. intros x w Hx Hc%bool_decide_eq_true Hw. destruct (timer_ok x w Hx Hc Hw) as (x' & w' & E & Hx' & Hw' & _).
    exists x', w'. split_and!; try done. by apply (ok_timer x Hx).
  - apply with_tier_ok; [done|]. intros x w Hx Hc Hw. destruct (result_ok d x res w Hx Hc Hw) as (x' & w' & E & Hx' & Hw' & _).
    exists x', w'. split_and!; try done. by apply (ok_req x Hx).
Qed.

Lemma work_ok os s : Forall proper os -> inv s -> exists s', work os s = Some s' /\ inv s'.
Proof.
  intros Hp. revert s. induction Hp as [|o os Ho _ IH]; intros s Hinv; [by exists s|]. cbn [work]. destruct (occur_ok o s Ho Hinv) as (s1 & -> & H1). cbn [mbind option_bind].
  by apply IH.
Qed.

Lemma boot_inv : inv btpd_boot.
Proof. split; try done; [apply NoDup_nil_2|]. split; [cbn; lia|]. split; [done|constructor]. Qed.

(** C4: Whatever happens to the torrents that are started from proper metainfo files, no
    assertion of the torrents' and trackers' code fails and no null pointer is followed.
    Proper means more than that [mi_test] accepts the file: its tiers hold nothing but
    strings ([announce_crash] is accepted and is not so), it has several files or its one
    file has a name (else the list of files is [NULL]: [no_name]), no run of its digits is
    a number of 2^63 or more, and it has at most 16 MiB; a file that is not accepted or
    cannot be read may be given too. All allocations succeed. Between two events a torrent
    is starting or runs, has its network active just when it runs and its trackers only
    then; the counters are right, an entry of the library has one torrent, and the next
    torrent to be saved is one of the list. *)
Theorem torrents_safe os : Forall proper os -> exists s, work os btpd_boot = Some s /\ Forall tp_ok (m_torrents s) /\
  m_ntorrents s = Z.of_nat (length (m_torrents s)) /\ m_nghosts s = 0 /\ NoDup (tl <$> m_torrents s) /\
  match m_savetp s with Some n => n ∈ tl <$> m_torrents s | None => m_torrents s = [] end.
Proof.
  intros Hp. destruct (work_ok os btpd_boot Hp boot_inv) as (s & E & [H1 H2 H3 H4 H5 _]). by exists s.
Qed.

End Run.

(** ** Samples *)

Definition all_good {A} : A -> bool := fun _ => true.
Definition in_place : nat -> nat -> nat -> nat := fun _ j _ => j.

Lemma sample_described : described 4096 (encode sample) sample sample_torrent_info [[sample_url; [120]]; [sample_url]] [([97; 0], 5); ([98; 92; 99; 0], 3)].
Proof.
  split; [exact sample_addressable|exact sample_sane|exact sample_benc|exact sample_metainfo|reflexivity|reflexivity|exact sample_size].
Qed.

Lemma sample_within : forall i, within (in_place i).
Proof. intros i j n Hj. unfold in_place. lia. Qed.

Definition sample_day : list occurrence :=
  [StartTorrent 3 true (Some (encode sample)) StartTest; Second; ContentTurns 3 (Content CM_ACTIVE false 0); Second; ContentTurns 3 (Content CM_ACTIVE false 2); Second; StopTorrent 3 false].

Lemma sample_proper : Forall (proper 4096) sample_day.
Proof. repeat constructor. exists sample, sample_torrent_info, [[sample_url; [120]]; [sample_url]], [([97; 0], 5); ([98; 92; 99; 0], 3)]. exact sample_described. Qed.

Lemma torrents_safe_witness : exists s, work all_good all_good in_place 4096 sample_day btpd_boot = Some s /\ Forall tp_ok (m_torrents s) /\
  m_ntorrents s = Z.of_nat (length (m_torrents s)) /\ m_nghosts s = 0 /\ NoDup (tl <$> m_torrents s) /\
  match m_savetp s with Some n => n ∈ tl <$> m_torrents s | None => m_torrents s = [] end.
Proof. exact (torrents_safe all_good all_good in_place 4096 (fun _ => eq_refl) (fun _ => eq_refl) sample_within sample_day sample_proper). Defined.


(** The torrent is started and its trackers are told; it is complete and then stopped: the
    request that is to tell a tracker so is made, and given up in the same call, as the
    torrent is taken off the list with its trackers. *)
Example sample_day_end :
  (fun s => (map tl (m_torrents s), orders s, map what (requests (sh s)))) <$> work all_good all_good in_place 4096 (sample_day ++ [Second]) btpd_boot
  = Some ([], [NetCreate 3; NetStart 3; DropFullPeers 3; NetStop 3; UpdateInfo 3 false; NetKill 3], [TR_EV_STOPPED; TR_EV_STARTED]).
Proof. vm_compute. reflexivity. Qed.
