(* ===== verification/TrReply.v ===== *)
(** The answer of a tracker: [parse_reply] and [maybe_connect_to] of
    [libbt/btpd/http_tr_if.c], and the end of a request in [http_cb].

    The answer lies in the block [m].  A peer to connect to is an attempt, of which
    [connects] tells whether it succeeds; [ids] are the peers of the torrent that are
    attached, which do not change meanwhile.  [int] has 32 bits.  [None] is a read outside
    the answer. *)
From S2P Require Import Prelude Benc BencGet Url Trackers.
Local Open Scope Z_scope.

Definition k_failure_reason : list Z := [102; 97; 105; 108; 117; 114; 101; 32; 114; 101; 97; 115; 111; 110]. (* failure reason *)
Definition k_interval : list Z := [105; 110; 116; 101; 114; 118; 97; 108]. (* interval *)
Definition k_peers : list Z := [112; 101; 101; 114; 115]. (* peers *)
Definition k_peers6 : list Z := [112; 101; 101; 114; 115; 54]. (* peers6 *)
Definition k_peers_ipv6 : list Z := [112; 101; 101; 114; 115; 95; 105; 112; 118; 54]. (* peers_ipv6 *)
Definition k_peer_id : list Z := [112; 101; 101; 114; 32; 105; 100]. (* peer id *)
Definition k_ip : list Z := [105; 112]. (* ip *)
Definition k_port : list Z := [112; 111; 114; 116]. (* port *)

Definition s32 (x : Z) : Z := swrap 32 x.

(** [peer_create_out] and [peer_create_out_compact] up to the connection. *)
Inductive attempt := ByName (ip : list Z) (port : Z) | Compact (v6 : bool) (addr : list Z).

Record conns := Conns { net_npeers : Z; attempts : list attempt }.

Section Reply.
Context (own_id : list Z) (ids : list (list Z)) (net_max_peers : Z) (net_ipv4 net_ipv6 : bool) (connects : nat -> bool).

Definition connect (a : attempt) (c : conns) : conns :=
  Conns (if connects (length (attempts c)) then net_npeers c + 1 else net_npeers c) (attempts c ++ [a]).

Section Text.
Context (m : list Z) (base : Z).

Definition maybe_connect_to (alloc : bool) (pinfo : Z) (c : conns) : option conns :=
  pid ← benc_dget_mem m base pinfo k_peer_id;
  match pid with
  | None => Some c
  | Some pid =>
      if negb (mem_len pid =? 20) then Some c
      else
        id ← copy_bytes m (mem_ptr pid) 20;
        if bool_decide (id = own_id) then Some c
        else if bool_decide (id ∈ ids) then Some c
        else
          ip ← benc_dget_str m base alloc pinfo k_ip;
          match ip with
          | None => Some c
          | Some ip => port ← benc_dget_int m base pinfo k_port; Some (connect (ByName ip (s32 port)) c)
          end
  end.

(** The loop over a list of peers; [i] counts the turns. *)
Fixpoint peers_loop (alloc : nat -> bool) (fuel i : nat) (peers : option Z) (c : conns) : option conns :=
  match fuel with
  | O => None
  | S fuel =>
      match peers with
      | None => Some c
      | Some p =>
          if net_npeers c <? net_max_peers then
            c ← maybe_connect_to (alloc i) p c;
            peers ← benc_next m base p;
            peers_loop alloc fuel (S i) peers c
          else Some c
      end
  end.

(** The loops over addresses of [n] bytes. *)
Fixpoint compact_loop (v6 : bool) (n : Z) (fuel : nat) (r : mem_result) (i : Z) (c : conns) : option conns :=
  match fuel with
  | O => None
  | S fuel =>
      if (i <? mem_len r) && (net_npeers c <? net_max_peers) then
        addr ← copy_bytes m (mem_ptr r + i) n;
        compact_loop v6 n fuel r (i + n) (connect (Compact v6 addr) c)
      else Some c
  end.

Definition peers_v6 (key : list Z) (c : conns) : option conns :=
  peers ← benc_dget_any m base 0 key;
  match peers with
  | None => Some c
  | Some p =>
      s ← benc_isstr m p;
      if s : bool then
        r ← benc_dget_mem m base 0 key;
        r ← r;
        compact_loop true 18 (S (length m)) r 0 c
      else Some c
  end.

Definition after_peers (interval : Z) (c : conns) : option (tr_response * conns) :=
  if net_ipv6 then c ← peers_v6 k_peers6 c; c ← peers_v6 k_peers_ipv6 c; Some (TR_RES_OK interval, c)
  else Some (TR_RES_OK interval, c).

(** [failure_alloc] is the allocation of the copy that [tr_result] makes of the failure. *)
Definition parse_reply (failure_alloc : bool) (alloc : nat -> bool) (size : Z) (c : conns) : option (tr_response * conns) :=
  v ← benc_validate m base (text_fuel m) size;
  if negb (v =? 0) then Some (TR_RES_BAD, c)
  else
    buf ← benc_dget_any m base 0 k_failure_reason;
    match buf with
    | Some buf =>
        s ← benc_isstr m buf;
        if negb s then Some (TR_RES_BAD, c) else f ← benc_str m failure_alloc buf; Some (TR_RES_FAIL f, c)
    | None =>
        buf ← benc_dget_any m base 0 k_interval;
        interval ← match buf with
                   | None => Some (-1)
                   | Some b => i ← benc_isint m b; if i : bool then n ← benc_int m b; Some (s32 n) else Some (-1)
                   end;
        peers ← benc_dget_any m base 0 k_peers;
        match peers with
        | None => after_peers interval c
        | Some p =>
            l ← benc_islst m p;
            if l : bool then
              p ← benc_first m p;
              c ← peers_loop alloc (S (length m)) 0 p c;
              after_peers interval c
            else
              s ← benc_isstr m p;
              if s : bool then
                if net_ipv4 then
                  r ← benc_dget_mem m base 0 k_peers;
                  r ← r;
                  c ← compact_loop false 6 (S (length m)) r 0 c;
                  after_peers interval c
                else after_peers interval c
              else Some (TR_RES_BAD, c)
        end
    end.
End Text.

(** The end of a request ([HTTP_T_DONE]): an answer to the last one is not looked at. *)
Definition http_done (ev : tr_event) (m : list Z) (base : Z) (failure_alloc : bool) (alloc : nat -> bool) (c : conns) : option (tr_response * conns) :=
  if bool_decide (ev = TR_EV_STOPPED) then Some (TR_RES_OK (-1), c) else parse_reply m base failure_alloc alloc (Z.of_nat (length m)) c.

(** ** What an answer says *)

(** A peer of the list that is worth an attempt. *)
Definition candidate (v : bval) : option attempt :=
  id ← get_str k_peer_id v;
  if negb (bool_decide (length id = 20%nat)) || bool_decide (id = own_id) || bool_decide (id ∈ ids) then None
  else ip ← get_str k_ip v; Some (ByName ip (s32 (get_int k_port v))).

(** The addresses of a text, [n] bytes each. *)
Fixpoint addresses (v6 : bool) (n : nat) (fuel : nat) (s : list Z) : list attempt :=
  match fuel with
  | O => []
  | S fuel => match s with [] => [] | _ => Compact v6 (take n s) :: addresses v6 n fuel (drop n s) end
  end.
Definition addresses_of (v6 : bool) (n : nat) (s : list Z) : list attempt := addresses v6 n (length s) s.

(** Attempts are made until there are enough peers. *)
Definition connect_all (l : list attempt) (c : conns) : conns :=
  foldl (fun c a => if net_npeers c <? net_max_peers then connect a c else c) c l.

Definition v6_of (key : list Z) (v : bval) : list attempt :=
  match get_str key v with Some s => addresses_of true 18 s | None => [] end.
Definition peers6_of (v : bval) : list attempt := if net_ipv6 then v6_of k_peers6 v ++ v6_of k_peers_ipv6 v else [].

Definition interval_of (v : bval) : Z := match lookup_key k_interval v ≫= as_int with Some i => s32 i | None => -1 end.

Definition reply_of (v : bval) (c : conns) : tr_response * conns :=
  match lookup_key k_failure_reason v with
  | Some w => (match as_str w with Some s => TR_RES_FAIL (Some s) | None => TR_RES_BAD end, c)
  | None =>
      let ok l := (TR_RES_OK (interval_of v), connect_all (l ++ peers6_of v) c) in
      match lookup_key k_peers v with
      | None => ok []
      | Some w =>
          match as_lst w, as_str w with
          | Some l, _ => ok (omap candidate l)
          | None, Some s => ok (if net_ipv4 then addresses_of false 6 s else [])
          | None, None => (TR_RES_BAD, c)
          end
      end
  end.

(** Addresses come whole. *)
Definition whole (n : nat) (o : option (list Z)) : Prop := match o with Some s => (length s mod n)%nat = 0%nat | None => True end.
Definition whole_addresses (v : bval) : Prop := whole 6 (get_str k_peers v) /\ whole 18 (get_str k_peers6 v) /\ whole 18 (get_str k_peers_ipv6 v).

(** ** The reading of an answer *)

Lemma connect_all_app l l' c : connect_all (l ++ l') c = connect_all l' (connect_all l c).
Proof. apply foldl_app. Qed.

Lemma connect_all_full l c : (net_npeers c <? net_max_peers) = false -> connect_all l c = c.
Proof. intros H. unfold connect_all. induction l as [|a l IH]; [done|]. cbn [foldl]. by rewrite H. Qed.

Lemma addresses_fuel v6 n s : (0 < n)%nat -> forall f f', (length s <= f)%nat -> (length s <= f')%nat -> addresses v6 n f s = addresses v6 n f' s.
Proof.
  intros Hn f. revert s. induction f as [|f IH]; intros s f' Hf Hf'.
  - destruct s; [by destruct f'|cbn in Hf; lia].
  - destruct s as [|x s]; [by destruct f'|]. destruct f' as [|f']; [cbn in Hf'; lia|]. cbn [addresses]. f_equal. apply IH; rewrite length_drop; cbn [length] in *; lia.
Qed.

Lemma addresses_cons v6 n s : (0 < n)%nat -> s <> [] -> addresses_of v6 n s = Compact v6 (take n s) :: addresses_of v6 n (drop n s).
Proof.
  intros Hn Hs. unfold addresses_of. destruct s as [|x s]; [done|]. cbn [length addresses]. f_equal. apply addresses_fuel; [done|rewrite length_drop; cbn [length]; lia|done].
Qed.

Section Proofs.
Context (m : list Z) (base : Z).
Hypothesis Hbase : addressable m base.
Hypothesis Hruns : sane_runs m.

Lemma reply_keys : Forall (Forall (fun c => c <> 0)) [k_failure_reason; k_interval; k_peers; k_peers6; k_peers_ipv6; k_peer_id; k_ip; k_port].
Proof. by repeat constructor. Qed.

Lemma reply_key k : k ∈ [k_failure_reason; k_interval; k_peers; k_peers6; k_peers_ipv6; k_peer_id; k_ip; k_port] -> Forall (fun c => c <> 0) k.
Proof. intros Hk. exact (proj1 (Forall_forall _ _) reply_keys k Hk). Qed.

Ltac key := apply reply_key; repeat constructor.

Lemma maybe_connect_ok p v c : at_ m p v -> maybe_connect_to m base true p c = Some (match candidate v with Some a => connect a c | None => c end).
Proof.
  intros Hv. unfold maybe_connect_to, candidate. destruct (at_dget_mem m base Hbase k_peer_id ltac:(key) p v Hv) as (r & -> & Hr). cbn [mbind option_bind].
  destruct (get_str k_peer_id v) as [id|]; [|by rewrite Hr]. destruct Hr as (a & -> & Hc). cbn [mbind option_bind mem_len mem_ptr].
  destruct (Z.eqb_spec (Z.of_nat (length id)) 20) as [E|E].
  - rewrite bool_decide_true by lia. cbn [negb orb]. rewrite <- E, Hc. cbn [mbind option_bind]. case_bool_decide; [done|]. case_bool_decide; [done|]. cbn [orb].
    rewrite (proj1 (at_dget_str m base Hbase k_ip ltac:(key) true p v Hv)). cbn [mbind option_bind]. destruct (get_str k_ip v); [|done].
    by rewrite (at_dget_int m base Hbase Hruns k_port ltac:(key) p v Hv).
  - by rewrite bool_decide_false by lia.
Qed.

Lemma peers_loop_ok alloc l : (forall i, alloc i = true) -> forall p i fuel c, list_at m p l -> (length l < fuel)%nat ->
  peers_loop m base alloc fuel i (member_ptr l p) c = Some (connect_all (omap candidate l) c).
Proof.
  intros Ha. induction l as [|v l IH]; intros p i [|fuel] c Hl Hf; cbn [length] in Hf; try lia; [done|].
  destruct (list_at_cons m base Hbase p v l Hl) as (Hv & q & Eq & Hq & _). cbn [peers_loop member_ptr]. destruct (net_npeers c <? net_max_peers) eqn:Ec.
  - rewrite Ha, (maybe_connect_ok p v c Hv). cbn [mbind option_bind]. rewrite Eq. cbn [mbind option_bind]. rewrite IH by (done || lia).
    cbn [omap list_omap]. destruct (candidate v) as [a|]; [|done]. unfold connect_all. cbn [foldl]. by rewrite Ec.
  - by rewrite connect_all_full.
Qed.

Lemma compact_loop_ok v6 n a len r : (0 < n)%nat -> forall fuel i s c, suffix m (a + i) (s ++ r) -> 0 <= i -> len = i + Z.of_nat (length s) ->
  (length s mod n)%nat = 0%nat -> (length s < fuel)%nat ->
  compact_loop m v6 (Z.of_nat n) fuel (Mem a len) i c = Some (connect_all (addresses_of v6 n s) c).
Proof.
  intros Hn fuel. induction fuel as [|fuel IH]; intros i s c Hs Hi Hlen Hmod Hf; [lia|]. cbn [compact_loop mem_len mem_ptr]. destruct (decide (s = [])) as [->|Hne].
  - rewrite (proj2 (Z.ltb_ge _ _)) by (cbn in Hlen; lia). done.
  - assert (0 < length s)%nat as Hpos by (destruct s; [done|cbn; lia]). rewrite (proj2 (Z.ltb_lt _ _)) by lia. cbn [andb].
    destruct (net_npeers c <? net_max_peers) eqn:Ec; [|by rewrite connect_all_full].
    assert (n <= length s)%nat as Hle by (destruct (Nat.le_gt_cases n (length s)) as [|Hlt]; [done|rewrite Nat.mod_small in Hmod by lia; lia]).
    assert (suffix m (a + i) (take n s ++ (drop n s ++ r))) as Hs1 by (rewrite app_assoc, take_drop; exact Hs).
    assert (length (take n s) = n) as Htn by (rewrite length_take; lia).
    pose proof (copy_suffix m (a + i) (take n s) _ Hs1) as Hcp. rewrite Htn in Hcp. rewrite Hcp. cbn [mbind option_bind].
    apply suffix_app in Hs1. rewrite Htn, <- Z.add_assoc in Hs1.
    rewrite (IH (i + Z.of_nat n) (drop n s)); [| |lia|rewrite length_drop; lia| |rewrite length_drop; lia].
    + rewrite (addresses_cons v6 n s Hn Hne). unfold connect_all. cbn [foldl]. by rewrite Ec.
    + exact Hs1.
    + rewrite length_drop. apply Nat.Div0.div_exact in Hmod. rewrite Hmod. replace (n * (length s / n) - n)%nat with ((length s / n - 1) * n)%nat by nia. apply Nat.Div0.mod_mul.
Qed.

(** A string of addresses. *)
Lemma addresses_ok v6 n key v c : (0 < n)%nat -> Forall (fun c => c <> 0) key -> at_ m 0 v -> whole n (get_str key v) ->
  match get_str key v with
  | Some s => (r ← benc_dget_mem m base 0 key; r ← r; compact_loop m v6 (Z.of_nat n) (S (length m)) r 0 c) = Some (connect_all (addresses_of v6 n s) c)
  | None => True
  end.
Proof.
  intros Hn Hk Hv Hw. destruct (at_dget_mem m base Hbase key Hk 0 v Hv) as (r & -> & Hr). destruct (get_str key v) as [s|]; [|done].
  destruct Hr as (a & -> & [r' Hs]%copied_suffix). cbn [mbind option_bind]. pose proof (suffix_le m _ _ Hs) as [_ Hl]. rewrite length_app in Hl. destruct Hs as (H1 & H2 & H3).
  apply (compact_loop_ok v6 n a (Z.of_nat (length s)) r'); [done|by rewrite Z.add_0_r|done|done|done|lia].
Qed.

Lemma peers_v6_ok key v c : Forall (fun c => c <> 0) key -> at_ m 0 v -> whole 18 (get_str key v) -> peers_v6 m base key c = Some (connect_all (v6_of key v) c).
Proof.
  intros Hk Hv Hw. pose proof (addresses_ok true 18 key v c ltac:(lia) Hk Hv Hw) as Ha. unfold peers_v6, v6_of.
  destruct (at_dget m base Hbase key Hk 0 v Hv) as (res & -> & Hres). cbn [mbind option_bind]. unfold get_str in *. destruct (lookup_key key v) as [w|]; [|by rewrite Hres].
  destruct Hres as (q & -> & Hq). cbn [mbind option_bind] in *. destruct (at_types m q w Hq) as (-> & _). cbn [mbind option_bind].
  destruct (as_str w) as [s|]; [by rewrite bool_decide_true by done|by rewrite bool_decide_false by (by intros [? ?])].
Qed.

Lemma after_peers_ok v i c : at_ m 0 v -> whole_addresses v -> after_peers m base i c = Some (TR_RES_OK i, connect_all (peers6_of v) c).
Proof.
  intros Hv (_ & H1 & H2). unfold after_peers, peers6_of. destruct net_ipv6; [|done].
  rewrite (peers_v6_ok k_peers6 v) by (done || key). cbn [mbind option_bind]. rewrite (peers_v6_ok k_peers_ipv6 v) by (done || key). cbn [mbind option_bind].
  by rewrite connect_all_app.
Qed.

Lemma interval_ok v : at_ m 0 v ->
  (buf ← benc_dget_any m base 0 k_interval;
   match buf with
   | None => Some (-1)
   | Some b => i ← benc_isint m b; if i : bool then n ← benc_int m b; Some (s32 n) else Some (-1)
   end) = Some (interval_of v).
Proof.
  intros Hv. destruct (at_dget m base Hbase k_interval ltac:(key) 0 v Hv) as (res & -> & Hres). cbn [mbind option_bind]. unfold interval_of.
  destruct (lookup_key k_interval v) as [w|]; [|by rewrite Hres]. destruct Hres as (q & -> & Hq). destruct (at_types m q w Hq) as (_ & -> & _). cbn [mbind option_bind].
  rewrite (at_int m Hruns q w Hq). destruct (as_int w); [by rewrite bool_decide_true by done|by rewrite bool_decide_false by (by intros [? ?])].
Qed.

Lemma peers_ok alloc v i c : (forall i, alloc i = true) -> at_ m 0 v -> whole_addresses v ->
  (peers ← benc_dget_any m base 0 k_peers;
   match peers with
   | None => after_peers m base i c
   | Some p =>
       l ← benc_islst m p;
       if l : bool then
         p ← benc_first m p;
         c ← peers_loop m base alloc (S (length m)) 0 p c;
         after_peers m base i c
       else
         s ← benc_isstr m p;
         if s : bool then
           if net_ipv4 then
             r ← benc_dget_mem m base 0 k_peers;
             r ← r;
             c ← compact_loop m false 6 (S (length m)) r 0 c;
             after_peers m base i c
           else after_peers m base i c
         else Some (TR_RES_BAD, c)
   end) = Some (let ok l := (TR_RES_OK i, connect_all (l ++ peers6_of v) c) in
     match lookup_key k_peers v with
     | None => ok []
     | Some w => match as_lst w, as_str w with
                 | Some l, _ => ok (omap candidate l)
                 | None, Some s => ok (if net_ipv4 then addresses_of false 6 s else [])
                 | None, None => (TR_RES_BAD, c)
                 end
     end).
Proof.
  intros Ha Hv Hw. pose proof (addresses_ok false 6 k_peers v c ltac:(lia) ltac:(key) Hv (proj1 Hw)) as Hs. cbn zeta. unfold get_str in Hs.
  destruct (at_dget m base Hbase k_peers ltac:(key) 0 v Hv) as (res & -> & Hres). cbn [mbind option_bind] in *.
  destruct (lookup_key k_peers v) as [w|]; [|rewrite Hres; by apply after_peers_ok]. destruct Hres as (q & -> & Hq). cbn [mbind option_bind] in Hs.
  destruct (at_types m q w Hq) as (Es & _ & El & _). rewrite El. cbn [mbind option_bind]. destruct (as_lst w) as [l|] eqn:Elst.
  - rewrite bool_decide_true by done. destruct (at_first m q w l Hq Elst) as [-> Hl]. cbn [mbind option_bind]. pose proof (list_at_length m _ _ Hl).
    rewrite (peers_loop_ok alloc l Ha) by (done || lia). cbn [mbind option_bind]. rewrite (after_peers_ok v) by done. by rewrite connect_all_app.
  - rewrite bool_decide_false by (by intros [? ?]). rewrite Es. cbn [mbind option_bind]. destruct (as_str w) as [s|].
    + rewrite bool_decide_true by done. destruct net_ipv4; [|rewrite (after_peers_ok v) by done; done]. change 6 with (Z.of_nat 6) at 1.
      destruct (benc_dget_mem m base 0 k_peers) as [[r|]|]; cbn [mbind option_bind] in *; try done. rewrite Hs. cbn [mbind option_bind].
      rewrite (after_peers_ok v) by done. by rewrite connect_all_app.
    + by rewrite bool_decide_false by (by intros [? ?]).
Qed.

(** C18: An answer of a tracker, in whose text no run of digits is a number of 2^63 or
    more, that encodes a value in which the strings of peers are whole numbers of
    addresses (6 bytes each, or 18 with IPv6), is read for what it says, if all
    allocations succeed: its failure; or its interval, with an attempt for each peer that
    has another id than this one and those attached and for each address, until there are
    enough peers. A text that encodes nothing is bad data. Where an address is cut short
    the code reads past the answer ([reply_overread]). *)
Theorem parse_reply_correct alloc c : (forall i, alloc i = true) ->
  (forall v, benc v m -> whole_addresses v -> parse_reply m base true alloc (Z.of_nat (length m)) c = Some (reply_of v c)) /\
  (~ (exists v, benc v m) -> parse_reply m base true alloc (Z.of_nat (length m)) c = Some (TR_RES_BAD, c)).
Proof.
  intros Ha. split.
  - intros v Hb Hw. pose proof (whole_at m v Hb) as Hv. unfold parse_reply, reply_of.
    rewrite (validate_whole m base Hbase Hruns v Hb). cbn [mbind option_bind]. change (negb (0 =? 0)) with false. cbv iota.
    destruct (at_dget m base Hbase k_failure_reason ltac:(key) 0 v Hv) as (res & -> & Hres). cbn [mbind option_bind]. destruct (lookup_key k_failure_reason v) as [w|].
    + destruct Hres as (q & -> & Hq). destruct (at_types m q w Hq) as (-> & _). cbn [mbind option_bind]. rewrite (proj1 (at_str m base Hbase true q w Hq)).
      destruct (as_str w); [by rewrite bool_decide_true by done|by rewrite bool_decide_false by (by intros [? ?])].
    + rewrite Hres. pose proof (interval_ok v Hv) as Hi. pose proof (peers_ok alloc v (interval_of v) c Ha Hv Hw) as Hp.
      destruct (benc_dget_any m base 0 k_interval) as [b|]; [|done]. cbn [mbind option_bind] in Hi |- *. rewrite Hi. cbn [mbind option_bind]. exact Hp.
  - intros Hn. unfold parse_reply. by rewrite (validate_not m base Hbase Hruns Hn).
Qed.
End Proofs.
End Reply.

(** ** Samples *)

Definition reply_sample : bval := BDict [BStr k_interval; BInt false [54; 48]; BStr k_peers; BStr [10; 0; 0; 1; 26; 225; 10; 0; 0; 2; 26; 226]].

Lemma reply_sample_addressable : addressable (encode reply_sample) 4096.
Proof. split; [done|]. vm_compute. discriminate. Qed.

Lemma reply_sample_sane : sane_runs (encode reply_sample).
Proof. apply short_runs_sane. vm_compute. reflexivity. Qed.

Lemma parse_reply_correct_witness : parse_reply [1] [] 50 true false (fun _ => true) (encode reply_sample) 4096 true (fun _ => true) (Z.of_nat (length (encode reply_sample))) (Conns 49 []) =
  Some (TR_RES_OK 60, Conns 50 [Compact false [10; 0; 0; 1; 26; 225]]).
Proof.
  apply (proj1 (parse_reply_correct [1] [] 50 true false (fun _ => true) (encode reply_sample) 4096 reply_sample_addressable
    reply_sample_sane (fun _ => true) (Conns 49 []) (fun _ => eq_refl)) reply_sample (encode_benc reply_sample eq_refl)).
  repeat split.
Defined.

(** Peers as dictionaries: the first of them is this one. *)
Example reply_list :
  let peer id ds := BDict [BStr k_ip; BStr [97]; BStr k_peer_id; BStr (repeat id 20); BStr k_port; BInt false ds] in
  let v := BDict [BStr k_peers; BList [peer 1 [49]; peer 2 [50]]] in
  parse_reply (repeat 1 20) [] 50 true false (fun _ => true) (encode v) 4096 true (fun _ => true) (Z.of_nat (length (encode v))) (Conns 0 []) =
  Some (TR_RES_OK (-1), Conns 1 [ByName [97] 2]).
Proof. vm_compute. reflexivity. Qed.

(** Addresses that do not come whole are read past the end of their string, here past the
    end of the answer. *)
Example reply_overread : let v := BDict [BStr k_peers; BStr [10]] in
  parse_reply [1] [] 50 true false (fun _ => true) (encode v) 4096 true (fun _ => true) (Z.of_nat (length (encode v))) (Conns 0 []) = None.
Proof. vm_compute. reflexivity. Qed.

(** A number is an answer without fault. *)
Example reply_number : parse_reply [1] [] 50 true false (fun _ => true) (encode (BInt false [48])) 4096 true (fun _ => true) 3 (Conns 0 []) = Some (TR_RES_OK (-1), Conns 0 []).
Proof. vm_compute. reflexivity. Qed.
